(* ===== verification/_CoqProject ===== *)
-Q . S2P
Prelude.v
GoFloat.v
GoString.v
Hash.v
Tags.v
Model.v
Json.v
JudgeStore.v
JudgeEngine.v
JudgeSafety.v
Containers.v
Transfer.v
SendTasks.v
GraphStore.v
GraphApi.v
GraphSafety.v
GraphQuery.v
GraphFlush.v
GraphDisk.v
Regex.v
Aggregator.v
AggregatorSafety.v
Hbs.v
HbsInherit.v
HbsSafety.v
Nodata.v
NodataSafety.v
Redis.v
Alarm.v
AlarmEvents.v
AlarmCombine.v
AlarmSafety.v
ConnPool.v
Gateway.v
Agent.v
AgentSafety.v
AgentSync.v
AgentPlugin.v
AgentKernel.v
Cli.v
Push.v
ApiModel.v
ApiDb.v
ApiMem.v
ApiUic.v
ApiTeam.v
ApiTemplate.v
ApiHost.v
ApiDash.v
ApiAlarm.v
ApiGraph.v
ApiGrafana.v
ApiGraphMem.v
ApiPhases.v
ApiUicSafety.v
ApiPortalSafety.v
ApiAnswers.v
ApiIndex.v
ApiToGraph.v
ApiSessions.v
ApiGroups.v
ApiToJudge.v
