(* ===== verification/Prelude.v ===== *)
(** * Falcon+: a verification of the monitoring system in src/

** The program

Falcon+ is a set of Go services around a stream of points (endpoint, metric,
tags, timestamp, value):

- agent collects points on a machine and sends them to a transfer; gateway
  forwards the points of a remote site;
- transfer checks each point and routes it, by consistent hashing, to the judges,
  the graphs and OpenTSDB;
- graph keeps the points: in memory, in rrd files, with an index in MySQL;
- judge compares the newest points with the strategies and expressions that hbs
  gives it, and pushes events to redis;
- alarm pops the events, records them, and tells the users concerned, combining
  what is not urgent;
- hbs reads the configuration from MySQL and answers judges and agents;
- nodata mocks the points that stay away, aggregator computes points over groups
  of hosts; both ask the API for last values;
- the api is where users, their sessions, groups, templates and strategies are
  written to MySQL.

** The files

Common ground:
- Prelude: outcomes of Go code ([go]: a value or a panic), results, 64-bit
  integers, grouping, automation; GoFloat, GoString, Json, Regex: the parts of
  Go's standard library that the program uses; Hash: MD5 and CRC-32.
- Tags, Model: common/utils and common/model.
- Containers: the queue and the hash ring of vendor/github.com/toolkits,
  common/proc and common/sdk/sender; ConnPool: its pools of connections, with
  common/backend_pool.
- Redis, ApiDb: the services outside, each as a class of operations ([Redis],
  [Sql]) with the laws the program relies on ([RedisLaws], [SqlLaws]) and an
  implementation ([Redis.Server], ApiMem) that satisfies them.

One group of files per service, the definitions first:
- JudgeStore (history lists, judging functions), JudgeEngine (matching, events,
  synchronising, cleaning), JudgeSafety: modules/judge;
- Transfer (receivers, routing), SendTasks (the sending loops, as a step
  relation): modules/transfer;
- GraphStore (the cache), GraphApi (receiving, index, last values), GraphQuery,
  GraphFlush (disk and migration), GraphDisk (the goroutine of the disk, its
  channels and its callers, as a step relation), GraphSafety: modules/graph;
- Hbs, HbsInherit (inheritance of templates), HbsSafety: modules/hbs;
- Alarm, AlarmEvents, AlarmCombine, AlarmSafety: modules/alarm;
- Nodata, NodataSafety: modules/nodata; Aggregator, AggregatorSafety:
  modules/aggregator; Gateway: modules/gateway;
- Agent (points, sending), AgentKernel (the kernel's tables as text, a tick),
  AgentSafety, AgentSync (the heartbeat server), AgentPlugin: modules/agent;
- Push: what aggregator and nodata post to transfer over HTTP;
- Cli: g and cmd, the command line that starts and stops the services;
- ApiModel (the rows), ApiUic, ApiTeam (sessions, users, teams and their
  routes), ApiTemplate, ApiHost (templates, strategies, expressions, host
  groups and what hangs on them, and their routes), ApiDash (dashboards),
  ApiAlarm (alarm cases and notes), ApiGraph (asking the graph nodes, the index),
  ApiGrafana: modules/api.  ApiGraphMem puts the nodes of the graph model behind ApiGraph's
  class [Nodes].  ApiUicSafety, ApiSessions, ApiGroups: who may do what;
  ApiPhases, ApiPortalSafety, ApiAnswers: what a request answers and changes;
  ApiIndex: deleting endpoints; ApiToGraph: from transfer over a graph node to
  the api; ApiToJudge: from the api over hbs to the judge.

Definitions carry the names of the source.  A Go structure is a record, a map a
[gmap], a nil pointer an [option], an [int64] a [Z] whose wrap-around is written
out (the operators with the index 64), a [float64] an IEEE number.  The state of
a process is a record of its package variables, passed explicitly; the order in
which Go ranges over a map is an argument, and a theorem holds for every order.
What files, sockets, databases and other services answer is an argument too, or
a class with laws; what the code asks of them is logged in the state.

** What the theorems show

- From end to end: a strategy posted to the api reaches the judges of its hosts
  ([api_strategy_reaches_judge], [hbs_strategies_reach_judge]); the events of a
  judge reach alarm ([judge_event_reaches_alarm]) and exactly the users
  concerned ([consume_tells_users]); the points of agent, its
  plugins, gateway and aggregator reach transfer unchanged
  ([agent_reaches_transfer], [plugin_reaches_transfer],
  [gateway_reaches_transfer], [aggregates_reach_transfer]); a
  point that transfer routes is what the api answers ([sent_point_answered]).
- State machines and refinements: the alarms of judge ([reachable_alarm_history],
  [sendEventIfNeed_refines_alarm]), the cache of graph ([handleItems_refines],
  [graph_reachable_safe]), the worker of its disk, which does its tasks one at
  a time and leaves no caller waiting ([disk_tasks_serial],
  [disk_tasks_answered]), the sending loops ([send_task_conserves],
  [sender_correct]), the connection pools ([pools_safe], and the api's use of
  them, [connections_come_back]).
- Who may do what: [user_rows_guarded], [sessions_earned], [group_hosts_guarded];
  well-formed tables ([uic_tables_typed]); every request to the api answers
  once and changes nothing when it fails ([api_answers]); what deleting
  endpoints removes ([DeleteGraphEndpoint_correct]).
- What each algorithm computes: queries, judging functions, inheritance,
  combining messages, cluster expressions, mock points; that it ends; and on
  which inputs it panics.

** Bounds and fuel

The loops of graph's Query and the chains of templates take fuel; their theorems
([Query_correct], [ParentIds_correct]) show how much is enough.  The loops that
may really go on for ever ([send_loop] of nodata, [isStarted] of the command
line) answer [None] when their fuel is spent, and theorems say when they do so
for every fuel.  The steps of the disk worker that are left are bounded by
[steps_left].

** Concurrency

A method that holds a lock for its whole body is one step.  Where the halves of
calls interleave (sending loops, pools, senders of alarm, the disk of graph) the
model is a step relation.  The requests to the api are one after the other, and so are the
batches of judge, graph and transfer within a process.

** Not modelled

Start-up, configuration files, HTTP pages, listeners and logging: I/O and glue.
The rrd files themselves, the processes and files of the machine and MySQL are
not part of the program, nor are the rows that MySQL gives for a statement whose
text a handler puts together: they are an argument.  Of agent the readers of CPU,
disks, memory, mounts and processes are arguments too, and the lines of a file are
taken to be shorter than the buffer of 4096 bytes in which they are read.  MySQL
is taken to give fresh keys; that it may give those of deleted rows again after a
restart is covered by the laws, which only ask for keys that are not in the table. *)

From stdpp Require Export base tactics option list gmap strings sorting.
From Stdlib Require Export ZArith Lia.
From stdpp Require Import options.
Open Scope Z_scope.

(** ** Hint databases of the development

- [go]: facts about outcomes, integers and strings that close side conditions;
- [go_rw]: the rewriting rules of the executable library functions. *)
Create HintDb go.
Create HintDb go_rw.

(** ** Outcomes of Go code

A Go function may return, or panic.  [go A] is the outcome of running it:
every run-time panic that the translated code can raise is one of the reasons
of [panic]. *)

Inductive panic : Set :=
| IndexOutOfRange
| SliceBounds
| NilDereference
| DivideByZero
| NilMapWrite
| MakeSlice
| CloseOfClosedChannel
| NonPositiveTicker.

Inductive go (A : Type) : Type :=
| Ret (a : A)
| Panic (p : panic).
Global Arguments Ret {A} _.
Global Arguments Panic {A} _.

Global Instance go_ret : MRet go := @Ret.
Global Instance go_bind : MBind go := λ A B k m,
  match m with Ret a => k a | Panic p => Panic p end.
Global Instance go_fmap : FMap go := λ A B f m,
  match m with Ret a => Ret (f a) | Panic p => Panic p end.

Global Instance panic_eq_dec : EqDecision panic.
Proof. solve_decision. Defined.

(** The code that runs without a panic. *)
Definition returns {A} (m : go A) : Prop := ∃ a, m = Ret a.

(** Dereferencing a pointer that may be nil. *)
Definition deref {A} (p : option A) : go A :=
  match p with Some a => Ret a | None => Panic NilDereference end.

(** Reading [l[i]]. *)
Definition at_index {A} (l : list A) (i : Z) : go A :=
  match (if (0 <=? i) then l !! Z.to_nat i else None) with
  | Some a => Ret a
  | None => Panic IndexOutOfRange
  end.

(** A loop over a slice whose body may panic. *)
Fixpoint go_foldl {S A} (f : S → A → go S) (s : S) (l : list A) : go S :=
  match l with
  | [] => Ret s
  | a :: l => s' ← f s a; go_foldl f s' l
  end.

(** A loop over a slice whose body may also [break]: it answers the new state
and whether the loop goes on. *)
Fixpoint go_loop {S A} (f : S → A → go (S * bool)) (s : S) (l : list A) : go S :=
  match l with
  | [] => Ret s
  | a :: l => f s a ≫= λ r : S * bool, if r.2 then go_loop f r.1 l else Ret r.1
  end.

(** ** Errors

A function [(v, err)] returns [Err e] when [err] is not nil. *)

Definition error : Set := string.

Inductive result (A : Type) : Type :=
| Ok (a : A)
| Err (e : error).
Global Arguments Ok {A} _.
Global Arguments Err {A} _.

Global Instance result_ret : MRet result := @Ok.
Global Instance result_bind : MBind result := λ A B k m,
  match m with Ok a => k a | Err e => Err e end.

Definition is_ok {A} (r : result A) : bool :=
  match r with Ok _ => true | Err _ => false end.

(** ** Machine integers

[int] and [int64] are 64-bit two's complement (the supported platforms are
amd64); the arithmetic operators wrap around. *)

Definition wrap64 (z : Z) : Z := (z + 2 ^ 63) mod 2 ^ 64 - 2 ^ 63.
Definition wrap32 (z : Z) : Z := (z + 2 ^ 31) mod 2 ^ 32 - 2 ^ 31.
Definition int64 (z : Z) : Prop := - 2 ^ 63 <= z < 2 ^ 63.

Declare Scope go_scope.
Delimit Scope go_scope with go.
Notation "x +₆₄ y" := (wrap64 (x + y)) (at level 50, left associativity) : go_scope.
Notation "x -₆₄ y" := (wrap64 (x - y)) (at level 50, left associativity) : go_scope.
Notation "x *₆₄ y" := (wrap64 (x * y)) (at level 40, left associativity) : go_scope.
Open Scope go_scope.

(** [a % b] and [a / b]: truncated, and a panic on a zero divisor. *)
Definition go_rem (a b : Z) : go Z :=
  if decide (b = 0) then Panic DivideByZero else Ret (Z.rem a b).
Definition go_quot (a b : Z) : go Z :=
  if decide (b = 0) then Panic DivideByZero else Ret (wrap64 (Z.quot a b)).

(** ** Iteration over a map

The order in which Go visits a map is unspecified and differs from one loop
to the next: a definition that loops over a map takes the visiting order, and
[ranges] says which orders are possible. *)

Definition ranges `{Countable K} {V} (kvs : list (K * V)) (m : gmap K V) : Prop :=
  kvs ≡ₚ map_to_list m.

(** ** Grouping

[if _, ok := m[k]; ok { m[k] = append(m[k], v) } else { m[k] = []T{v} }],
the idiom by which the code builds an index. *)
Definition group_append `{Countable K} {V} (k : K) (v : V) (m : gmap K (list V)) :
    gmap K (list V) :=
  match m !! k with
  | Some l => <[k := l ++ [v]]> m
  | None => <[k := [v]]> m
  end.

Definition group_by `{Countable K} {V} (kvs : list (K * V)) (m : gmap K (list V)) :
    gmap K (list V) :=
  foldl (λ m kv, group_append kv.1 kv.2 m) m kvs.

(** The assignments [m[k] = v] in sequence: the last one wins. *)
Definition assign_all `{Countable K} {V} (kvs : list (K * V)) (m : gmap K V) : gmap K V :=
  foldl (λ m kv, <[kv.1 := kv.2]> m) m kvs.

(** ** Lemmas: outcomes *)

Lemma go_bind_Ret {A B} (k : A → go B) m b :
  (m ≫= k) = Ret b ↔ ∃ a, m = Ret a ∧ k a = Ret b.
Proof. destruct m; cbn; naive_solver. Qed.

Lemma result_bind_Ok {A B} (k : A → result B) m b :
  (m ≫= k) = Ok b ↔ ∃ a, m = Ok a ∧ k a = Ok b.
Proof. destruct m; cbn; naive_solver. Qed.

Lemma returns_Ret {A} (a : A) : returns (Ret a).
Proof. by exists a. Qed.

Lemma returns_bind {A B} (k : A → go B) m :
  returns m → (∀ a, m = Ret a → returns (k a)) → returns (m ≫= k).
Proof. intros [a ->] Hk. by apply Hk. Qed.

Lemma at_index_Ret {A} (l : list A) i a :
  at_index l i = Ret a ↔ 0 <= i ∧ l !! Z.to_nat i = Some a.
Proof.
  unfold at_index. destruct (Z.leb_spec 0 i); [|naive_solver lia].
  destruct (l !! Z.to_nat i); naive_solver.
Qed.

Lemma at_index_of_nat {A} (l : list A) (i : nat) a :
  l !! i = Some a → at_index l (Z.of_nat i) = Ret a.
Proof. intros H. apply at_index_Ret. rewrite Nat2Z.id. split; [lia|done]. Qed.

Lemma returns_at_index {A} (l : list A) i :
  0 <= i < Z.of_nat (length l) → returns (at_index l i).
Proof.
  intros Hi. destruct (lookup_lt_is_Some_2 l (Z.to_nat i)) as [a Ha]; [lia|].
  exists a. apply at_index_Ret. split; [lia|done].
Qed.

(** An invariant of the loop body is an invariant of the loop. *)
Lemma go_foldl_inv {S A} (P : S → Prop) (f : S → A → go S) l s s' :
  (∀ s a s', a ∈ l → P s → f s a = Ret s' → P s') →
  P s → go_foldl f s l = Ret s' → P s'.
Proof.
  revert s. induction l as [|a l IH]; cbn; intros s Hf Hs; [naive_solver|].
  intros (s1 & H1 & H2)%go_bind_Ret. eapply IH; [|by eapply (Hf s a); [left|..]|done].
  intros. eapply Hf; [by right|done..].
Qed.

Lemma go_foldl_returns {S A} (P : S → Prop) (f : S → A → go S) l s :
  (∀ s a, a ∈ l → P s → ∃ s', f s a = Ret s' ∧ P s') →
  P s → ∃ s', go_foldl f s l = Ret s' ∧ P s'.
Proof.
  revert s. induction l as [|a l IH]; cbn; intros s Hf Hs; [by eauto|].
  destruct (Hf s a) as (s1 & -> & Hs1); [left|done|]. cbn. apply IH; [|done].
  intros. apply Hf; [by right|done].
Qed.

Lemma go_foldl_app {S A} (f : S → A → go S) s l1 l2 :
  go_foldl f s (l1 ++ l2) = (s' ← go_foldl f s l1; go_foldl f s' l2).
Proof.
  revert s. induction l1 as [|a l1 IH]; cbn; intros s; [done|].
  destruct (f s a); cbn; auto.
Qed.

Lemma go_foldl_Ret {S A} (g : S → A → S) s l :
  go_foldl (λ s a, Ret (g s a)) s l = Ret (foldl g s l).
Proof. revert s. induction l as [|a l IH]; intros s; [done|]. apply IH. Qed.

(** A loop over the indices of a slice that reads it at each index is a loop
over its elements. *)
Lemma seqZ_S (m : Z) (n : nat) : seqZ m (Z.of_nat (S n)) = m :: seqZ (m + 1) (Z.of_nat n).
Proof. rewrite seqZ_cons by lia. f_equal. f_equal; lia. Qed.

Lemma go_foldl_at_index {S A} (f : S → A → go S) pre l s :
  go_foldl (λ s i, a ← at_index (pre ++ l) i; f s a) s
    (seqZ (Z.of_nat (length pre)) (Z.of_nat (length l))) = go_foldl f s l.
Proof.
  revert pre s. induction l as [|a l IH]; intros pre s; [done|].
  cbn [length]. rewrite seqZ_S. cbn [go_foldl].
  rewrite (at_index_of_nat _ _ a) by (by apply list_lookup_middle). cbn [mbind go_bind].
  destruct (f s a); cbn; [|done]. specialize (IH (pre ++ [a]) a0).
  rewrite length_app, Nat2Z.inj_add, <- app_assoc in IH. exact IH.
Qed.

Lemma go_loop_at_index {S A} (f : S → A → go (S * bool)) pre l s :
  go_loop (λ s i, a ← at_index (pre ++ l) i; f s a) s
    (seqZ (Z.of_nat (length pre)) (Z.of_nat (length l))) = go_loop f s l.
Proof.
  revert pre s. induction l as [|a l IH]; intros pre s; [done|].
  cbn [length]. rewrite seqZ_S. cbn [go_loop].
  rewrite (at_index_of_nat _ _ a) by (by apply list_lookup_middle). cbn [mbind go_bind].
  destruct (f s a) as [[s' []]|]; cbn; [|done..]. specialize (IH (pre ++ [a]) s').
  rewrite length_app, Nat2Z.inj_add, <- app_assoc in IH. exact IH.
Qed.

(** ** Lemmas: machine integers *)

Lemma wrap64_id z : int64 z → wrap64 z = z.
Proof. unfold int64, wrap64. intros. rewrite Z.mod_small; lia. Qed.

Lemma wrap64_int64 z : int64 (wrap64 z).
Proof.
  unfold int64, wrap64. pose proof (Z.mod_pos_bound (z + 2 ^ 63) (2 ^ 64)). lia.
Qed.

Lemma int64_small z : - 2 ^ 62 <= z <= 2 ^ 62 → int64 z.
Proof. unfold int64. lia. Qed.

#[export] Hint Resolve wrap64_int64 returns_Ret : go.

(** ** Lemmas: grouping *)

Section group.
Context `{Countable K} {V : Type}.
Implicit Types (m : gmap K (list V)) (kvs : list (K * V)).

(** The values a list of key/value pairs gives to a key, in order. *)
Definition values_of (k : K) kvs : list V := (filter (λ kv, kv.1 = k) kvs).*2.

Lemma group_append_lookup k v m k' :
  group_append k v m !! k' =
    if decide (k = k') then Some (default [] (m !! k') ++ [v]) else m !! k'.
Proof.
  unfold group_append. destruct (m !! k) as [l|] eqn:E; rewrite lookup_insert;
    case_decide; subst; try done; by rewrite E.
Qed.

Lemma values_of_cons k k' v kvs :
  values_of k ((k', v) :: kvs) =
    if decide (k' = k) then v :: values_of k kvs else values_of k kvs.
Proof. unfold values_of. rewrite filter_cons. cbn. by case_decide. Qed.

Lemma group_by_lookup kvs m k :
  group_by kvs m !! k =
    match values_of k kvs with
    | [] => m !! k
    | vs => Some (default [] (m !! k) ++ vs)
    end.
Proof.
  revert m. induction kvs as [|[k' v] kvs IH]; intros m; [done|].
  change (group_by kvs (group_append k' v m) !! k = match values_of k ((k', v) :: kvs) with
    | [] => m !! k | vs => Some (default [] (m !! k) ++ vs) end).
  rewrite IH, values_of_cons, group_append_lookup.
  destruct (decide (k' = k)) as [->|Hne]; [|done].
  destruct (values_of k kvs); [done|]. cbn. by rewrite <- app_assoc.
Qed.

Lemma group_by_empty kvs k :
  default [] (group_by kvs ∅ !! k) = values_of k kvs.
Proof. rewrite group_by_lookup, lookup_empty. by destruct (values_of k kvs). Qed.

Lemma elem_of_values_of k kvs v : v ∈ values_of k kvs ↔ (k, v) ∈ kvs.
Proof.
  unfold values_of. rewrite list_elem_of_fmap. setoid_rewrite list_elem_of_filter.
  split; [by intros ([k' v'] & -> & <- & ?)|]. intros. by exists (k, v).
Qed.

Lemma values_of_perm k kvs1 kvs2 :
  kvs1 ≡ₚ kvs2 → values_of k kvs1 ≡ₚ values_of k kvs2.
Proof. intros Hp. unfold values_of. by rewrite Hp. Qed.
End group.

Lemma values_of_app `{Countable K} {V} (k : K) (l1 l2 : list (K * V)) :
  values_of k (l1 ++ l2) = values_of k l1 ++ values_of k l2.
Proof. unfold values_of. by rewrite filter_app, fmap_app. Qed.

Lemma values_of_keyed `{Countable K} {A} (key : A → K) k (l : list A) :
  values_of k ((λ a, (key a, a)) <$> l) = filter (λ a, key a = k) l.
Proof.
  induction l as [|a l IH]; [done|]. change (?f <$> a :: l) with (f a :: (f <$> l)).
  rewrite filter_cons. cbn beta. rewrite values_of_cons, IH. by case_decide.
Qed.

(** ** Lemmas: iteration orders *)

Section ranges.
Context `{Countable K} {V : Type}.
Implicit Types (m : gmap K V).

Lemma ranges_map_to_list m : ranges (map_to_list m) m.
Proof. unfold ranges. reflexivity. Qed.

Lemma ranges_eq kvs m : kvs = map_to_list m → ranges kvs m.
Proof. intros ->. apply ranges_map_to_list. Qed.

Lemma ranges_elem_of kvs m k v : ranges kvs m → (k, v) ∈ kvs ↔ m !! k = Some v.
Proof. intros ->. apply elem_of_map_to_list. Qed.

Lemma ranges_NoDup kvs m : ranges kvs m → NoDup kvs.*1.
Proof. intros ->. apply NoDup_fst_map_to_list. Qed.

Lemma ranges_length kvs m : ranges kvs m → length kvs = size m.
Proof. intros ->. apply length_map_to_list. Qed.
End ranges.

Section assign.
Context `{Countable K} {V : Type}.
Implicit Types (m : gmap K V) (kvs : list (K * V)).

Lemma assign_all_alt kvs m : assign_all kvs m = list_to_map (reverse kvs) ∪ m.
Proof.
  revert m. induction kvs as [|[k v] kvs IH]; intros m.
  - cbn. by rewrite (left_id_L ∅ (∪)).
  - change (assign_all kvs (<[k := v]> m) = list_to_map (reverse ((k, v) :: kvs)) ∪ m).
    rewrite IH, reverse_cons, list_to_map_app. cbn.
    by rewrite <- map_union_assoc, insert_empty, <- insert_union_singleton_l.
Qed.

(** Assigning the pairs of a map, in any order, gives back the map. *)
Lemma assign_all_ranges kvs m : ranges kvs m → assign_all kvs ∅ = m.
Proof.
  intros Hr. rewrite assign_all_alt, map_union_empty.
  rewrite <- (list_to_map_to_list m). symmetry. apply list_to_map_proper.
  - apply NoDup_fst_map_to_list.
  - by rewrite reverse_Permutation.
Qed.

Lemma assign_all_lookup_Some kvs m k v :
  assign_all kvs m !! k = Some v → (k, v) ∈ kvs ∨ m !! k = Some v.
Proof.
  rewrite assign_all_alt. intros [Hl|[_ Hl]]%lookup_union_Some_raw; [left|by right].
  apply elem_of_list_to_map_2 in Hl. by rewrite elem_of_reverse in Hl.
Qed.

Lemma assign_all_is_Some kvs m k : k ∈ kvs.*1 → is_Some (assign_all kvs m !! k).
Proof.
  intros Hk. rewrite assign_all_alt, lookup_union.
  destruct (list_to_map (reverse kvs) !! k) as [v|] eqn:E; [destruct (m !! k); by eexists|].
  apply not_elem_of_list_to_map in E. destruct E. by rewrite fmap_reverse, elem_of_reverse.
Qed.
End assign.

#[export] Hint Resolve ranges_map_to_list : go.

(** ** Tactics *)

(** Splits an equation [(x ← m; k) = Ret b] into the outcome of [m] and of [k]. *)
Ltac go_inv H :=
  let a := fresh "v" in let E := fresh "E" in
  apply go_bind_Ret in H as (a & E & H).

(** Decides the conditional or [match] that blocks the evaluation of the goal. *)
Ltac go_case := repeat (case_match || case_decide); simplify_eq/=.

(** Evaluates the decisions on closed propositions. *)
Ltac bool_decide_closed :=
  repeat match goal with
  | |- context [bool_decide ?P] =>
      let b := eval vm_compute in (bool_decide P) in
      match b with
      | true => change (bool_decide P) with true
      | false => change (bool_decide P) with false
      end
  end.
