(* ===== verification/GoFloat.v ===== *)
(** * Go's [float64]

IEEE-754 binary64 numbers as the Standard Library's [SpecFloat] gives them
(precision 53, maximal exponent 1024, round to nearest even), with Go's
comparison operators and conversions, and the order facts the components use.
All definitions compute, and none rests on an axiom. *)

From S2P Require Import Prelude.
From Stdlib Require Import SpecFloat.
From stdpp Require Import options.

Notation float64 := spec_float.

(** ** Operations *)

Definition f64_prec : Z := 53.
Definition f64_emax : Z := 1024.

Definition f64_zero : float64 := S754_zero false.
Definition f64_nan : float64 := S754_nan.
Definition f64_inf (neg : bool) : float64 := S754_infinity neg.

Definition f64_add : float64 → float64 → float64 := SFadd f64_prec f64_emax.
Definition f64_sub : float64 → float64 → float64 := SFsub f64_prec f64_emax.
Definition f64_mul : float64 → float64 → float64 := SFmul f64_prec f64_emax.
Definition f64_div : float64 → float64 → float64 := SFdiv f64_prec f64_emax.

(** [math.Abs] clears the sign bit. *)
Definition f64_abs : float64 → float64 := SFabs.

(** [<], [<=], [==] on [float64]: false as soon as an operand is a NaN. *)
Definition f64_lt : float64 → float64 → bool := SFltb.
Definition f64_le : float64 → float64 → bool := SFleb.
Definition f64_eq : float64 → float64 → bool := SFeqb.

Definition f64_is_nan (f : float64) : bool :=
  match f with S754_nan => true | _ => false end.
Definition f64_is_inf (f : float64) : bool :=
  match f with S754_infinity _ => true | _ => false end.
Definition f64_is_finite (f : float64) : bool :=
  negb (f64_is_nan f) && negb (f64_is_inf f).

(** The conversion [float64(n)] of an integer: correctly rounded. *)
Definition f64_of_Z (n : Z) : float64 := binary_normalize f64_prec f64_emax n 0 false.

(** The decimal [m * 10^e], correctly rounded: the division of [SpecFloat]
rounds the exact quotient of two integers of any size once. *)
Definition f64_of_decimal (neg : bool) (m : N) (e : Z) : float64 :=
  match m with
  | N0 => S754_zero neg
  | Npos p =>
      if (0 <=? e) then
        binary_normalize f64_prec f64_emax
          (if neg then - (Zpos p * 10 ^ e) else Zpos p * 10 ^ e) 0 neg
      else
        SFdiv f64_prec f64_emax (S754_finite neg p 0)
          (S754_finite false (Pos.pow 10 (Z.to_pos (- e))) 0)
  end.

(** The conversion [int(f)]: truncation towards zero; out of the range of
[int64], and for a NaN, the value the amd64 instruction gives, [-2^63]. *)
Definition f64_to_int64 (f : float64) : Z :=
  match f with
  | S754_zero _ => 0
  | S754_finite s m e =>
      let a := if (0 <=? e) then Zpos m * 2 ^ e else Zpos m / 2 ^ (- e) in
      let v := if s then - a else a in
      if ((- 2 ^ 63 <=? v) && (v <? 2 ^ 63)) then v else - 2 ^ 63
  | _ => - 2 ^ 63
  end.

(** ** Order facts *)

(** Every float that is not a NaN has a key in [Z * Z * Z] whose lexicographic
order is the order of [SFcompare]. *)
Definition f64_key (f : float64) : Z * Z * Z :=
  match f with
  | S754_nan => (0, 0, 0)
  | S754_infinity s => (if s then -2 else 2, 0, 0)
  | S754_zero _ => (0, 0, 0)
  | S754_finite true m e => (-1, - e, Zneg m)
  | S754_finite false m e => (1, e, Zpos m)
  end.

Definition key_lt (k1 k2 : Z * Z * Z) : Prop :=
  k1.1.1 < k2.1.1 ∨ (k1.1.1 = k2.1.1 ∧
    (k1.1.2 < k2.1.2 ∨ (k1.1.2 = k2.1.2 ∧ k1.2 < k2.2))).

Lemma SFcompare_key a b :
  match SFcompare a b with
  | None => f64_is_nan a = true ∨ f64_is_nan b = true
  | Some Lt => key_lt (f64_key a) (f64_key b)
  | Some Eq => f64_key a = f64_key b
  | Some Gt => key_lt (f64_key b) (f64_key a)
  end.
Proof.
  unfold key_lt. destruct a as [[]|[]| |[] m e], b as [[]|[]| |[] m' e']; cbn; try (auto; lia).
  all: destruct (Z.compare_spec e e'); subst; cbn; try lia.
  all: fold (Pos.compare m m'); destruct (Pos.compare_spec m m'); subst; cbn; try lia; auto.
Qed.

Lemma SFcompare_None a b :
  SFcompare a b = None ↔ f64_is_nan a = true ∨ f64_is_nan b = true.
Proof. destruct a, b; cbn; naive_solver. Qed.

Lemma f64_lt_key a b :
  f64_lt a b = true ↔
  f64_is_nan a = false ∧ f64_is_nan b = false ∧ key_lt (f64_key a) (f64_key b).
Proof.
  unfold f64_lt, SFltb. pose proof (SFcompare_key a b) as H.
  pose proof (SFcompare_None a b) as HN. unfold key_lt in *.
  destruct (SFcompare a b) as [[]|] eqn:E, (f64_is_nan a), (f64_is_nan b);
    intuition (try congruence; try lia).
  all: rewrite H in *; lia.
Qed.

Lemma f64_le_key a b :
  f64_le a b = true ↔
  f64_is_nan a = false ∧ f64_is_nan b = false ∧ ¬ key_lt (f64_key b) (f64_key a).
Proof.
  unfold f64_le, SFleb. pose proof (SFcompare_key a b) as H.
  pose proof (SFcompare_None a b) as HN. unfold key_lt in *.
  destruct (SFcompare a b) as [[]|] eqn:E, (f64_is_nan a), (f64_is_nan b);
    intuition (try congruence; try lia).
  all: rewrite H in *; lia.
Qed.

Lemma f64_lt_irrefl a : f64_lt a a = false.
Proof.
  destruct (f64_lt a a) eqn:E; [|done]. apply f64_lt_key in E. unfold key_lt in E. lia.
Qed.

Lemma f64_lt_trans a b c : f64_lt a b = true → f64_lt b c = true → f64_lt a c = true.
Proof. rewrite !f64_lt_key. unfold key_lt. intuition lia. Qed.

Lemma f64_le_trans a b c : f64_le a b = true → f64_le b c = true → f64_le a c = true.
Proof. rewrite !f64_le_key. unfold key_lt. intuition lia. Qed.

Lemma f64_lt_le a b : f64_lt a b = true → f64_le a b = true.
Proof. rewrite f64_lt_key, f64_le_key. unfold key_lt. intuition lia. Qed.

Lemma f64_le_refl a : f64_is_nan a = false → f64_le a a = true.
Proof. intros. apply f64_le_key. unfold key_lt. intuition lia. Qed.

(** The comparison operators are complementary off the NaNs only. *)
Lemma f64_not_lt_le a b :
  f64_is_nan a = false → f64_is_nan b = false → f64_lt a b = false → f64_le b a = true.
Proof.
  intros Ha Hb H. apply f64_le_key. split_and!; [done..|]. intros Hk.
  assert (f64_lt a b = true) by (apply f64_lt_key; done). congruence.
Qed.

Lemma f64_lt_nan_l b : f64_lt f64_nan b = false.
Proof. done. Qed.

Lemma f64_lt_nan_r a : f64_lt a f64_nan = false.
Proof. by destruct a. Qed.

#[export] Hint Resolve f64_le_refl f64_lt_le : go_float.
#[export] Hint Rewrite f64_lt_irrefl f64_lt_nan_r : go_float.

(** ** Sanity checks *)

Example f64_tenth : f64_of_decimal false 1 (-1) = S754_finite false 7205759403792794 (-56).
Proof. reflexivity. Qed.
Example f64_1e22 : f64_of_decimal true 1 22 = f64_of_Z (- 10 ^ 22).
Proof. vm_compute. reflexivity. Qed.
Example f64_sum : f64_eq (f64_add (f64_of_decimal false 1 (-1)) (f64_of_decimal false 2 (-1)))
  (f64_of_decimal false 3 (-1)) = false.
Proof. vm_compute. reflexivity. Qed.
Example f64_trunc : f64_to_int64 (f64_of_decimal true 37 (-1)) = -3.
Proof. vm_compute. reflexivity. Qed.
