(* ===== verification/GoString.v ===== *)
(** * Go strings: [strings], [strconv], [unicode/utf8]

A Go string is a sequence of bytes, here a [string] of the Standard Library
(an [ascii] is a byte).  The file models the library functions the program
calls, each as the library documents it, with the laws the components use:
[split]/[join] and [Itoa]/[ParseInt] round trips. *)

From S2P Require Import Prelude GoFloat.
From Stdlib Require Import Ascii.
From Stdlib Require Import DecimalFacts DecimalPos DecimalN DecimalZ.
From stdpp Require Import options.
Local Open Scope Z_scope.

#[global] Arguments String.append !_ _ / : simpl nomatch.

Notation slen s := (Z.of_nat (String.length s)).

(** ** Bytes, slices, concatenation *)

Definition byte_of (c : ascii) : Z := Z.of_N (N_of_ascii c).

Fixpoint contains_char (c : ascii) (s : string) : bool :=
  match s with
  | "" => false
  | String a s => if decide (a = c) then true else contains_char c s
  end.

(** [s[a:b]] *)
Definition go_slice (s : string) (a b : Z) : go string :=
  if (0 <=? a) && (a <=? b) && (b <=? slen s)
  then Ret (String.substring (Z.to_nat a) (Z.to_nat (b - a)) s)
  else Panic SliceBounds.

(** [strings.Index(s, c)] for a one-character [c]; [-1] when absent. *)
Fixpoint index_char (c : ascii) (s : string) : Z :=
  match s with
  | "" => -1
  | String a s =>
      if decide (a = c) then 0
      else let i := index_char c s in if (i =? -1) then -1 else i + 1
  end.

(** [strings.Split(s, c)] for a one-character [c]. *)
Fixpoint split (c : ascii) (s : string) : list string :=
  match s with
  | "" => [""]
  | String a s =>
      if decide (a = c) then "" :: split c s
      else match split c s with
           | h :: t => String a h :: t
           | [] => [String a ""]
           end
  end.

(** [strings.SplitN(s, c, 2)]: cut at the first [c]. *)
Fixpoint split2 (c : ascii) (s : string) : list string :=
  match s with
  | "" => [""]
  | String a s =>
      if decide (a = c) then [""; s]
      else match split2 c s with
           | h :: t => String a h :: t
           | [] => [String a ""]
           end
  end.

(** Whether every character satisfies [P]. *)
Fixpoint all_chars (P : ascii → bool) (s : string) : bool :=
  match s with "" => true | String c s => P c && all_chars P s end.

(** [strings.Join(l, sep)] *)
Fixpoint join (sep : string) (l : list string) : string :=
  match l with
  | [] => ""
  | [x] => x
  | x :: l => x +:+ sep +:+ join sep l
  end.

(** [strings.HasPrefix] and [strings.Contains] *)
Definition HasPrefix (s p : string) : bool := String.prefix p s.
Fixpoint contains_str (sub s : string) : bool :=
  String.prefix sub s || match s with "" => false | String _ s => contains_str sub s end.

(** [strings.Replace(s, c, "", -1)] for a one-character [c]. *)
Fixpoint remove_char (c : ascii) (s : string) : string :=
  match s with
  | "" => ""
  | String a s => if decide (a = c) then remove_char c s else String a (remove_char c s)
  end.

(** [strings.Replace(s, c, d, -1)] for one-character [c] and [d]. *)
Fixpoint replace_char (c d : ascii) (s : string) : string :=
  match s with
  | "" => ""
  | String a s => String (if decide (a = c) then d else a) (replace_char c d s)
  end.

Fixpoint trim_left_char (c : ascii) (s : string) : string :=
  match s with
  | "" => ""
  | String a s' => if decide (a = c) then trim_left_char c s' else s
  end.

Fixpoint trim_right_char (c : ascii) (s : string) : string :=
  match s with
  | "" => ""
  | String a s =>
      match trim_right_char c s with
      | "" => if decide (a = c) then "" else String a ""
      | s' => String a s'
      end
  end.

(** [strings.Trim(s, c)] for a one-character cutset. *)
Definition trim_char (c : ascii) (s : string) : string :=
  trim_right_char c (trim_left_char c s).

(** ** Runes *)

Definition cont (c : ascii) : bool := (128 <=? byte_of c) && (byte_of c <=? 191).
Definition byte_in (lo hi : Z) (c : ascii) : bool := (lo <=? byte_of c) && (byte_of c <=? hi).
Definition low6 (c : ascii) : Z := Z.land (byte_of c) 63.

(** [utf8.DecodeRune]: the rune at the head of [s] and its width; an invalid
sequence is the replacement rune, one byte wide. *)
Definition decode_rune (s : string) : Z * nat :=
  let bad := (65533, 1%nat) in
  match s with
  | "" => (65533, 0%nat)
  | String a s =>
    let b0 := byte_of a in
    if b0 <? 128 then (b0, 1%nat) else
    match s with
    | "" => bad
    | String b s =>
      if byte_in 194 223 a then
        if cont b then (Z.land b0 31 * 64 + low6 b, 2%nat) else bad
      else match s with
      | "" => bad
      | String c s =>
        if byte_in 224 239 a then
          let lo := if b0 =? 224 then 160 else 128 in
          let hi := if b0 =? 237 then 159 else 191 in
          if byte_in lo hi b && cont c
          then (Z.land b0 15 * 4096 + low6 b * 64 + low6 c, 3%nat) else bad
        else match s with
        | "" => bad
        | String d _ =>
          if byte_in 240 244 a then
            let lo := if b0 =? 240 then 144 else 128 in
            let hi := if b0 =? 244 then 143 else 191 in
            if byte_in lo hi b && cont c && cont d
            then (Z.land b0 7 * 262144 + low6 b * 4096 + low6 c * 64 + low6 d, 4%nat) else bad
          else bad
        end
      end
    end
  end.

(** The runes of a string, each with its bytes. *)
Fixpoint runes_from (skip : nat) (s : string) : list (Z * string) :=
  match s, skip with
  | "", _ => []
  | String _ s', S n => runes_from n s'
  | String _ s', O =>
      let '(r, n) := decode_rune s in
      (r, String.substring 0 n s) :: runes_from (Nat.pred n) s'
  end.
Definition runes (s : string) : list (Z * string) := runes_from 0 s.

(** [unicode.IsSpace] *)
Definition is_space (r : Z) : bool :=
  existsb (Z.eqb r) [9; 10; 11; 12; 13; 32; 133; 160; 5760; 8232; 8233; 8239; 8287; 12288]
  || ((8192 <=? r) && (r <=? 8202)).

Fixpoint drop_space (l : list (Z * string)) : list (Z * string) :=
  match l with
  | (r, b) :: l' => if is_space r then drop_space l' else l
  | [] => []
  end.

(** [strings.TrimSpace] *)
Definition TrimSpace (s : string) : string :=
  String.concat "" (reverse (drop_space (reverse (drop_space (runes s))))).*2.

(** [strings.Fields]: the maximal runs of non-space runes. *)
Fixpoint fields_of (cur : option string) (l : list (Z * string)) : list string :=
  match l with
  | [] => match cur with Some w => [w] | None => [] end
  | (r, b) :: l =>
      if is_space r then
        match cur with Some w => w :: fields_of None l | None => fields_of None l end
      else fields_of (Some (default "" cur +:+ b)) l
  end.
Definition Fields (s : string) : list string := fields_of None (runes s).

(** ** Integers in decimal *)

Fixpoint string_of_uint (d : Decimal.uint) : string :=
  match d with
  | Decimal.Nil => ""
  | Decimal.D0 d => String "0" (string_of_uint d)
  | Decimal.D1 d => String "1" (string_of_uint d)
  | Decimal.D2 d => String "2" (string_of_uint d)
  | Decimal.D3 d => String "3" (string_of_uint d)
  | Decimal.D4 d => String "4" (string_of_uint d)
  | Decimal.D5 d => String "5" (string_of_uint d)
  | Decimal.D6 d => String "6" (string_of_uint d)
  | Decimal.D7 d => String "7" (string_of_uint d)
  | Decimal.D8 d => String "8" (string_of_uint d)
  | Decimal.D9 d => String "9" (string_of_uint d)
  end.

(** [strconv.Itoa], and the verb [%d] *)
Definition Itoa (z : Z) : string :=
  match z with
  | Z0 => "0"
  | Zpos p => string_of_uint (Pos.to_uint p)
  | Zneg p => String "-" (string_of_uint (Pos.to_uint p))
  end.

Definition digit (c : ascii) : option Z :=
  let n := byte_of c - 48 in
  if (0 <=? n) && (n <=? 9) then Some n else None.

(** The value of a string of digits, read on top of [acc]. *)
Fixpoint digits_from (acc : Z) (s : string) : option Z :=
  match s with
  | "" => Some acc
  | String c s => d ← digit c; digits_from (10 * acc + d) s
  end.

Definition errSyntax : error := "invalid syntax".
Definition errRange : error := "value out of range".

(** [strconv.ParseUint(s, 10, 64)] without its bound. *)
Definition parse_digits (s : string) : result Z :=
  match s with
  | "" => Err errSyntax
  | _ => match digits_from 0 s with Some v => Ok v | None => Err errSyntax end
  end.

(** The optional sign of a number: is it negative, and what follows. *)
Definition sign_of (s : string) : bool * string :=
  match s with
  | String "+" r => (false, r)
  | String "-" r => (true, r)
  | _ => (false, s)
  end.

(** [strconv.ParseInt(s, 10, bits)] *)
Definition ParseInt (bits : Z) (s : string) : result Z :=
  let '(neg, ds) := sign_of s in
  u ← parse_digits ds;
  let cutoff := 2 ^ (bits - 1) in
  if neg then if cutoff <? u then Err errRange else Ok (- u)
  else if cutoff <=? u then Err errRange else Ok u.

(** [strconv.Atoi] *)
Definition Atoi (s : string) : result Z := ParseInt 64 s.

(** ** Floating-point numbers in decimal *)

Definition lower_char (c : ascii) : ascii :=
  if byte_in 65 90 c then ascii_of_N (Z.to_N (byte_of c + 32)) else c.
Fixpoint lower_ascii (s : string) : string :=
  match s with "" => "" | String c s => String (lower_char c) (lower_ascii s) end.

(** The digits at the head of [s]: how many, their value on top of [acc], the rest. *)
Fixpoint take_digits (acc : N) (n : nat) (s : string) : N * nat * string :=
  match s with
  | String c s' =>
      match digit c with
      | Some d => take_digits (10 * acc + Z.to_N d) (S n) s'
      | None => (acc, n, s)
      end
  | "" => (acc, n, "")
  end.

(** The digits of an exponent; it stops growing at five digits. *)
Fixpoint exponent_digits (e : Z) (s : string) : option Z :=
  match s with
  | "" => Some e
  | String c s =>
      d ← digit c; exponent_digits (if e <? 10000 then 10 * e + d else e) s
  end.

Definition exponent (s : string) : option Z :=
  match s with
  | "" => Some 0
  | String c s =>
      if decide (lower_char c = "e"%char) then
        match s with
        | String "+" (String _ _ as ds) => exponent_digits 0 ds
        | String "-" (String _ _ as ds) => Z.opp <$> exponent_digits 0 ds
        | String _ _ => exponent_digits 0 s
        | "" => None
        end
      else None
  end.

(** [strconv.ParseFloat(s, 64)]: the special values, then an optional sign,
digits with at most one point, and an optional exponent, rounded once. *)
Definition ParseFloat (s : string) : result float64 :=
  let '(neg, u) := sign_of s in
  let special :=
    let l := lower_ascii u in
    if decide (l = "inf" ∨ l = "infinity") then Some (f64_inf neg)
    else if decide (lower_ascii s = "nan") then Some f64_nan else None in
  match special with
  | Some f => Ok f
  | None =>
      let '(m, n, r) := take_digits 0 0 u in
      let '(m, n, frac, r) :=
        match r with
        | String "." r' => let '(m', n', r'') := take_digits m n r' in (m', n', (n' - n)%nat, r'')
        | _ => (m, n, 0%nat, r)
        end in
      if decide (n = 0%nat) then Err errSyntax
      else match exponent r with
           | None => Err errSyntax
           | Some e =>
               let f := f64_of_decimal neg m (e - Z.of_nat frac) in
               if f64_is_inf f then Err errRange else Ok f
           end
  end.

(** ** Printing floats *)

(** [n / d] rounded to the nearest integer, ties to even. *)
Definition round_half_even (n d : Z) : Z :=
  let q := n / d in
  let r := n mod d in
  match (2 * r ?= d) with
  | Lt => q
  | Gt => q + 1
  | Eq => if Z.even q then q else q + 1
  end.

Fixpoint pad_left (n : nat) (s : string) : string :=
  match n with O => s | S n => String "0" (pad_left n s) end.

(** [strconv.FormatFloat(f, 'f', prec, 64)], and the verb [%.<prec>f] *)
Definition FormatFixed (prec : nat) (f : float64) : string :=
  let fixed (neg : bool) (q : Z) :=
    let p := 10 ^ Z.of_nat prec in
    let frac := Itoa (q mod p) in
    (if neg then "-" else "") +:+ Itoa (q / p) +:+
    (if decide (prec = 0%nat) then ""
     else "." +:+ pad_left (prec - String.length frac) frac) in
  match f with
  | SpecFloat.S754_nan => "NaN"
  | SpecFloat.S754_infinity s => if s then "-Inf" else "+Inf"
  | SpecFloat.S754_zero s => fixed s 0
  | SpecFloat.S754_finite s m e =>
      let n := Zpos m * 10 ^ Z.of_nat prec in
      fixed s (if 0 <=? e then n * 2 ^ e else round_half_even n (2 ^ (- e)))
  end.

(** The shortest decimal that is read back as [s m * 2^e]: its digits and the
place of its point, as [strconv] finds them for the precision -1.  [D * 10^-k]
is the exact value; of the decimals of [n] digits around it the one that is read
back is taken, the nearer one when both are.  17 digits are always enough. *)
Fixpoint shortest_from (fuel : nat) (n : nat) (neg : bool) (D k : Z) (f : float64) : Z * Z :=
  let L := Z.of_nat (String.length (Itoa D)) in
  let cut := L - Z.of_nat n in
  match fuel with
  | O => (D, - k)
  | S fuel =>
      if cut <=? 0 then (D, - k) else
      let p := 10 ^ cut in
      let down := D / p in
      let back d := f64_eq (f64_of_decimal neg (Z.to_N d) (cut - k)) f in
      match back down, back (down + 1) with
      | true, true => (round_half_even D p, cut - k)
      | true, false => (down, cut - k)
      | false, true => (down + 1, cut - k)
      | false, false => shortest_from fuel (S n) neg D k f
      end
  end.

(** The verb [%v] of a [float64], which is [%g] with the shortest precision. *)
Definition FormatG (f : float64) : string :=
  match f with
  | SpecFloat.S754_nan => "NaN"
  | SpecFloat.S754_infinity s => if s then "-Inf" else "+Inf"
  | SpecFloat.S754_zero s => if s then "-0" else "0"
  | SpecFloat.S754_finite s m e =>
      let '(D, k) := if 0 <=? e then (Zpos m * 2 ^ e, 0) else (Zpos m * 5 ^ (- e), - e) in
      let '(d, x) := shortest_from 18 1 s D k f in
      let digits := trim_right_char "0" (Itoa d) in
      let nd := Z.of_nat (String.length digits) in
      let dp := Z.of_nat (String.length (Itoa d)) + x in
      let exp := dp - 1 in
      (if s then "-" else "") +:+
      (if (exp <? -4) || (6 <=? exp) then
         String.substring 0 1 digits
         +:+ (if nd <=? 1 then "" else "." +:+ String.substring 1 (Z.to_nat (nd - 1)) digits)
         +:+ (if exp <? 0 then "e-" else "e+")
         +:+ (let a := Itoa (Z.abs exp) in pad_left (2 - String.length a) a)
       else if dp <=? 0 then "0." +:+ pad_left (Z.to_nat (- dp)) digits
       else if nd <=? dp then digits +:+ pad_left (Z.to_nat (dp - nd)) ""
       else String.substring 0 (Z.to_nat dp) digits +:+ "."
            +:+ String.substring (Z.to_nat dp) (Z.to_nat (nd - dp)) digits)
  end.

(** ** Sorting *)

(** [sort.Strings]: bytewise lexicographic order. *)
Definition sort_strings (l : list string) : list string := merge_sort String.le l.

(** ** Laws of [split], [join] and [remove_char] *)

Definition lacks (c : ascii) (s : string) : Prop := contains_char c s = false.
#[export] Instance lacks_dec c s : Decision (lacks c s).
Proof. unfold lacks. apply _. Defined.

Lemma contains_char_app c s t :
  contains_char c (s +:+ t) = contains_char c s || contains_char c t.
Proof. induction s as [|a s IH]; cbn; [done|]. rewrite IH. by case_decide. Qed.

Lemma lacks_app c s t : lacks c (s +:+ t) ↔ lacks c s ∧ lacks c t.
Proof. unfold lacks. rewrite contains_char_app. apply orb_false_iff. Qed.

Lemma lacks_cons c a s : lacks c (String a s) ↔ a ≠ c ∧ lacks c s.
Proof. unfold lacks. cbn. case_decide; naive_solver. Qed.

Lemma all_chars_app P s t : all_chars P (s +:+ t) = all_chars P s && all_chars P t.
Proof. induction s as [|c s IH]; cbn; [done|]. by rewrite IH, andb_assoc. Qed.

Lemma all_chars_lacks P c s : all_chars P s = true → P c = false → lacks c s.
Proof.
  intros Hs Hc. induction s as [|a s IH]; [done|]. cbn in Hs.
  apply andb_true_iff in Hs as [Ha Hs]. apply lacks_cons. split; [|auto].
  intros ->. congruence.
Qed.

Lemma split_nonempty c s : split c s ≠ [].
Proof. destruct s as [|a s]; cbn; [done|]. case_decide; [done|]. by destruct (split c s). Qed.

Lemma join_cons sep x l : l ≠ [] → join sep (x :: l) = x +:+ sep +:+ join sep l.
Proof. by destruct l. Qed.

Lemma join_split c s : join (String c "") (split c s) = s.
Proof.
  induction s as [|a s IH]; cbn; [done|]. case_decide; subst.
  - rewrite join_cons by apply split_nonempty. by rewrite IH.
  - pose proof (split_nonempty c s). destruct (split c s) as [|h [|t ts]]; [done|..];
      by rewrite <- IH.
Qed.

Lemma split_lacks c s : lacks c s → split c s = [s].
Proof.
  induction s as [|a s IH]; [done|]. rewrite lacks_cons. cbn.
  intros [? ?]. rewrite decide_False by done. by rewrite IH.
Qed.

Lemma split_app c s t : lacks c s → split c (s +:+ String c t) = s :: split c t.
Proof.
  induction s as [|a s IH]; cbn; [intros; by rewrite decide_True|].
  rewrite lacks_cons. intros [? ?]. rewrite decide_False by done. by rewrite IH.
Qed.

Lemma split_join c l : l ≠ [] → Forall (lacks c) l → split c (join (String c "") l) = l.
Proof.
  intros Hl HF. induction HF as [|x l Hx HF IH]; [done|].
  destruct (decide (l = [])) as [->|Hne]; [by apply split_lacks|].
  rewrite join_cons by done. cbn. rewrite split_app by done. by rewrite IH.
Qed.

Lemma split_Forall_lacks c s : Forall (lacks c) (split c s).
Proof.
  induction s as [|a s IH]; cbn; [by constructor|]. case_decide; [by constructor|].
  destruct (split c s) as [|h t]; [by repeat constructor; apply lacks_cons|].
  inversion IH; subst. constructor; [by apply lacks_cons|done].
Qed.

Lemma split_lacks_other c d s : lacks d s → Forall (lacks d) (split c s).
Proof.
  induction s as [|a s IH]; cbn; [by constructor|].
  intros [? ?]%lacks_cons. specialize (IH ltac:(done)).
  case_decide; [by constructor|].
  destruct (split c s) as [|h t]; [by repeat constructor; apply lacks_cons|].
  inversion IH; subst. constructor; [by apply lacks_cons|done].
Qed.

(** [split2] returns the whole string, or cuts it at its first separator. *)
Lemma split2_spec c s :
  (lacks c s ∧ split2 c s = [s]) ∨
  (∃ k v, lacks c k ∧ s = k +:+ String c v ∧ split2 c s = [k; v]).
Proof.
  induction s as [|a s IH]; cbn; [by left|]. case_decide as Ha; subst.
  - right. by exists "", s.
  - destruct IH as [[H1 ->]|(k & v & H1 & -> & ->)].
    + left. by rewrite lacks_cons.
    + right. exists (String a k), v. by rewrite lacks_cons.
Qed.

Lemma split2_app c k v : lacks c k → split2 c (k +:+ String c v) = [k; v].
Proof.
  induction k as [|a k IH]; cbn; [intros; by rewrite decide_True|].
  intros [? ?]%lacks_cons. rewrite decide_False by done. by rewrite IH.
Qed.

Lemma append_inv_head s t1 t2 : s +:+ t1 = s +:+ t2 → t1 = t2.
Proof. induction s as [|a s IH]; [done|]. intros [= E]. auto. Qed.

(** One of two prefixes of a string is a prefix of the other. *)
Lemma append_eq s1 s2 t1 t2 :
  s1 +:+ t1 = s2 +:+ t2 → (∃ u, s2 = s1 +:+ u) ∨ (∃ u, s1 = s2 +:+ u).
Proof.
  revert s2. induction s1 as [|a s1 IH]; intros s2; [left; by exists s2|].
  destruct s2 as [|b s2]; [right; by exists (String a s1)|]. intros [= -> E].
  destruct (IH s2 E) as [[u ->]|[u ->]]; [left|right]; by exists u.
Qed.

Lemma app_inv_lacks c s t s' t' :
  lacks c s → lacks c s' → s +:+ String c t = s' +:+ String c t' → s = s' ∧ t = t'.
Proof.
  intros Hs Hs' E. pose proof (split2_app c s t Hs) as E1. rewrite E, split2_app in E1 by done.
  by simplify_eq.
Qed.

Lemma remove_char_lacks c s : lacks c (remove_char c s).
Proof.
  induction s as [|a s IH]; cbn; [done|]. case_decide; [done|]. by apply lacks_cons.
Qed.

Lemma remove_char_id c s : lacks c s → remove_char c s = s.
Proof.
  induction s as [|a s IH]; cbn; [done|]. intros [? ?]%lacks_cons.
  rewrite decide_False by done. by rewrite IH.
Qed.

Lemma lacks_join c sep l : lacks c sep → Forall (lacks c) l → lacks c (join sep l).
Proof.
  intros Hs HF. induction HF as [|x l Hx HF IH]; [done|].
  destruct (decide (l = [])) as [->|Hne]; [done|].
  rewrite join_cons by done. by rewrite !lacks_app.
Qed.

Lemma index_char_lacks c s : index_char c s = -1 ↔ lacks c s.
Proof.
  induction s as [|a s IH]; cbn; [done|]. rewrite lacks_cons. case_decide; [naive_solver|].
  destruct (Z.eqb_spec (index_char c s) (-1)); [naive_solver|].
  split; [|naive_solver]. intros.
  assert (index_char c s = -1 ∨ 0 <= index_char c s) as [|]; [|naive_solver|lia].
  clear. induction s as [|a s IH]; cbn; [by left|]. case_decide; [lia|].
  destruct (Z.eqb_spec (index_char c s) (-1)); lia.
Qed.

Lemma index_char_app c s t : lacks c s → index_char c (s +:+ String c t) = slen s.
Proof.
  induction s as [|a s IH]; cbn -[Z.of_nat]; [intros; by rewrite decide_True|].
  intros [? ?]%lacks_cons. rewrite decide_False by done. rewrite IH by done.
  destruct (Z.eqb_spec (slen s) (-1)); lia.
Qed.

#[export] Hint Resolve remove_char_lacks split_Forall_lacks : go.
#[export] Hint Rewrite join_split : go_rw.

(** ** Slices *)

Lemma length_app_string s t : String.length (s +:+ t) = (String.length s + String.length t)%nat.
Proof. induction s as [|a s IH]; cbn; [done|]. by rewrite IH. Qed.

Lemma app_string_assoc s t u : (s +:+ t) +:+ u = s +:+ (t +:+ u).
Proof. induction s as [|a s IH]; cbn; [done|]. by rewrite IH. Qed.

Lemma app_string_nil_r s : s +:+ "" = s.
Proof. induction s as [|a s IH]; cbn; [done|]. by rewrite IH. Qed.

Lemma substring_all s : String.substring 0 (String.length s) s = s.
Proof. induction s as [|a s IH]; cbn; [done|]. by rewrite IH. Qed.

Lemma substring_app_l s t : String.substring 0 (String.length s) (s +:+ t) = s.
Proof. induction s as [|a s IH]; cbn; [by destruct t|]. by rewrite IH. Qed.

Lemma substring_app_r s t n :
  String.substring (String.length s) n (s +:+ t) = String.substring 0 n t.
Proof. induction s as [|a s IH]; cbn; [done|]. by rewrite IH. Qed.

(** The part of [s ++ t ++ u] that is [t]. *)
Lemma go_slice_mid s t u a b :
  a = slen s → b = slen s + slen t → go_slice (s +:+ t +:+ u) a b = Ret t.
Proof.
  intros -> ->. unfold go_slice. rewrite !length_app_string.
  replace (_ && _ && _) with true by (symmetry; rewrite !andb_true_iff, !Z.leb_le; lia).
  rewrite Nat2Z.id. replace (Z.to_nat _) with (String.length t) by lia.
  by rewrite substring_app_r, substring_app_l.
Qed.

Lemma go_slice_panics s a b : a < 0 ∨ b < a ∨ slen s < b → go_slice s a b = Panic SliceBounds.
Proof.
  unfold go_slice. intros H. destruct (Z.leb_spec 0 a), (Z.leb_spec a b), (Z.leb_spec b (slen s));
    cbn; lia || done.
Qed.

(** ** Laws of [Itoa] and [ParseInt] *)

(** Evaluates [digit] on the literal characters of the goal. *)
Local Ltac eval_digits :=
  cbn [string_of_uint digits_from];
  match goal with |- context [digit ?c] =>
    let v := eval vm_compute in (digit c) in change (digit c) with v end;
  cbn [mbind option_bind].

Lemma digits_from_uint_acc d p :
  digits_from (Zpos p) (string_of_uint d) = Some (Zpos (Pos.of_uint_acc d p)).
Proof.
  revert p. induction d as [|d IH|d IH|d IH|d IH|d IH|d IH|d IH|d IH|d IH|d IH]; intros p; [done|..].
  all: eval_digits; cbn [Pos.of_uint_acc]; rewrite <- IH; f_equal; lia.
Qed.

Lemma digits_from_uint d :
  digits_from 0 (string_of_uint d) = Some (Z.of_N (Pos.of_uint d)).
Proof.
  induction d as [|d IH|d _|d _|d _|d _|d _|d _|d _|d _|d _]; [done|..].
  all: eval_digits; cbn [Pos.of_uint Z.of_N]; try by rewrite <- digits_from_uint_acc.
  by rewrite <- IH.
Qed.

Lemma digits_from_pos p : digits_from 0 (string_of_uint (Pos.to_uint p)) = Some (Zpos p).
Proof. rewrite digits_from_uint. by rewrite DecimalPos.Unsigned.of_to. Qed.

Lemma string_of_uint_digit d :
  d ≠ Decimal.Nil → ∃ c s, string_of_uint d = String c s ∧ is_Some (digit c).
Proof. destruct d; [done|..]; intros _; eexists _, _; split; done || by vm_compute. Qed.

Lemma sign_of_digit c s : is_Some (digit c) → sign_of (String c s) = (false, String c s).
Proof.
  intros Hc. destruct c as [[] [] [] [] [] [] [] []]; try reflexivity;
    vm_compute in Hc; by destruct Hc.
Qed.

Lemma pos_to_uint_nonnil p : Pos.to_uint p ≠ Decimal.Nil.
Proof. apply DecimalPos.Unsigned.to_uint_nonnil. Qed.

Lemma string_of_uint_lacks c d : digit c = None → lacks c (string_of_uint d).
Proof.
  intros Hc. induction d; [done|..]; cbn [string_of_uint]; apply lacks_cons; (split; [|done]).
  all: intros <-; vm_compute in Hc; done.
Qed.

(** A decimal integer contains no character but digits and a minus sign. *)
Lemma Itoa_lacks c z : digit c = None → c ≠ "-"%char → lacks c (Itoa z).
Proof.
  intros Hc Hm. destruct z; cbn [Itoa].
  - apply lacks_cons. split; [|done]. intros <-. by vm_compute in Hc.
  - by apply string_of_uint_lacks.
  - apply lacks_cons. split; [done|]. by apply string_of_uint_lacks.
Qed.

Lemma parse_digits_pos p : parse_digits (string_of_uint (Pos.to_uint p)) = Ok (Zpos p).
Proof.
  destruct (string_of_uint_digit (Pos.to_uint p)) as (c & s & E & _); [apply pos_to_uint_nonnil|].
  unfold parse_digits. pose proof (digits_from_pos p) as Hd. rewrite E in *. by rewrite Hd.
Qed.

(** [strconv.ParseInt] reads back what [%d] wrote, when the integer has its width. *)
Lemma ParseInt_Itoa bits z :
  0 < bits → - 2 ^ (bits - 1) <= z < 2 ^ (bits - 1) → ParseInt bits (Itoa z) = Ok z.
Proof.
  intros Hb Hz. destruct z as [|p|p].
  - change (ParseInt bits (Itoa 0)) with
      (if 2 ^ (bits - 1) <=? 0 then Err errRange else @Ok Z 0).
    destruct (Z.leb_spec (2 ^ (bits - 1)) 0); [lia|done].
  - unfold ParseInt. cbn [Itoa].
    destruct (string_of_uint_digit (Pos.to_uint p)) as (c & s & E & Hc); [apply pos_to_uint_nonnil|].
    pose proof (parse_digits_pos p) as Hp. rewrite E in *.
    rewrite sign_of_digit by done.
    rewrite Hp. cbn. destruct (Z.leb_spec (2 ^ (bits - 1)) (Zpos p)); [lia|done].
  - unfold ParseInt. cbn [Itoa sign_of]. rewrite parse_digits_pos. cbn.
    destruct (Z.ltb_spec (2 ^ (bits - 1)) (Zpos p)); [lia|done].
Qed.

Lemma Atoi_Itoa z : int64 z → Atoi (Itoa z) = Ok z.
Proof. intros. by apply ParseInt_Itoa. Qed.

Lemma Itoa_injective z1 z2 : Itoa z1 = Itoa z2 → z1 = z2.
Proof.
  assert (∀ p q, string_of_uint (Pos.to_uint p) = string_of_uint (Pos.to_uint q) → p = q) as Hp.
  { intros p q E. pose proof (digits_from_pos p) as A. rewrite E, digits_from_pos in A. congruence. }
  assert (∀ p s, string_of_uint (Pos.to_uint p) ≠ String "-" s) as Hneg.
  { intros p s E. pose proof (digits_from_pos p) as A. by rewrite E in A. }
  assert (∀ p, string_of_uint (Pos.to_uint p) ≠ "0") as Hz.
  { intros p E. pose proof (digits_from_pos p) as A. by rewrite E in A. }
  destruct z1, z2; cbn [Itoa]; intros E; try done; try by (exfalso; (eapply Hz + eapply Hneg); eauto).
  - f_equal. by apply Hp.
  - injection E as E. f_equal. by apply Hp.
Qed.
Lemma Itoa_inj z1 z2 : int64 z1 → int64 z2 → Itoa z1 = Itoa z2 → z1 = z2.
Proof.
  intros H1 H2 E. pose proof (Atoi_Itoa z1 H1) as A. rewrite E, (Atoi_Itoa z2 H2) in A. congruence.
Qed.

Lemma ParseInt_bounds bits s z :
  0 < bits → ParseInt bits s = Ok z → - 2 ^ (bits - 1) <= z < 2 ^ (bits - 1).
Proof.
  unfold ParseInt. intros Hb. destruct (sign_of s) as [neg ds]. intros (u & Hu & H)%result_bind_Ok.
  assert (0 <= u).
  { clear H. unfold parse_digits in Hu. destruct ds as [|c ds']; [done|].
    revert Hu. generalize (String c ds'). intros t.
    assert (∀ acc v, 0 <= acc → digits_from acc t = Some v → 0 <= v) as Hd.
    { clear. induction t as [|c t IH]; cbn; intros acc v Ha Hv; [by simplify_eq|].
      unfold digit in Hv. destruct (_ && _) eqn:E in Hv; [|done].
      apply andb_true_iff in E as [E1 E2]. cbn in Hv. eapply IH; [|done].
      apply Z.leb_le in E1. lia. }
    destruct (digits_from 0 t) eqn:E; intros; simplify_eq. by eapply Hd. }
  destruct neg; case_match; simplify_eq/=; rewrite ?Z.leb_gt, ?Z.ltb_ge in *; lia.
Qed.

#[export] Hint Resolve Itoa_lacks Atoi_Itoa : go.

(** ** Laws of [sort_strings] *)

Lemma sort_strings_Permutation l : sort_strings l ≡ₚ l.
Proof. apply merge_sort_Permutation. Qed.

Lemma sort_strings_Sorted l : Sorted String.le (sort_strings l).
Proof. apply Sorted_merge_sort, _. Qed.

(** The sorted list does not depend on the order of the input. *)
Lemma sort_strings_perm l1 l2 : l1 ≡ₚ l2 → sort_strings l1 = sort_strings l2.
Proof.
  intros Hp. apply (Sorted_unique String.le); [apply sort_strings_Sorted..|].
  by rewrite !sort_strings_Permutation.
Qed.

Lemma sort_strings_NoDup l : NoDup l → NoDup (sort_strings l).
Proof. by rewrite sort_strings_Permutation. Qed.

(** ** Sanity checks *)

Example split_ex : split "," "a,,b" = ["a"; ""; "b"].
Proof. reflexivity. Qed.
Example split2_ex : (split2 "=" "k=v=w", split2 "=" "k") = (["k"; "v=w"], ["k"]).
Proof. reflexivity. Qed.
Example fields_ex : Fields "  update host  cpu 3 " = ["update"; "host"; "cpu"; "3"].
Proof. vm_compute. reflexivity. Qed.
Example trim_ex : TrimSpace "  a b " = "a b".
Proof. vm_compute. reflexivity. Qed.
Example parse_ex : (ParseInt 64 "-42", ParseInt 64 "9223372036854775808", ParseInt 32 "7_", Atoi "")
  = (Ok (-42), Err errRange, Err errSyntax, Err errSyntax).
Proof. vm_compute. reflexivity. Qed.
Example itoa_ex : (Itoa 0, Itoa (-120), Itoa 64) = ("0", "-120", "64").
Proof. reflexivity. Qed.
Example parsefloat_ex :
  (ParseFloat "-1.5e1", ParseFloat "1e999", ParseFloat "+Inf", ParseFloat ".", ParseFloat "1.")
  = (Ok (f64_of_Z (-15)), Err errRange, Ok (f64_inf false), Err errSyntax, Ok (f64_of_Z 1)).
Proof. vm_compute. reflexivity. Qed.
Example format_ex :
  (FormatFixed 5 (f64_of_decimal true 15 (-1)), FormatFixed 3 (f64_of_decimal false 20005 (-4)),
   FormatFixed 0 (f64_of_decimal false 25 (-1)))
  = ("-1.50000", "2.001", "2").
Proof. vm_compute. reflexivity. Qed.

Example format_g_ex :
  FormatG (f64_of_Z 95) = "95" ∧ FormatG (f64_of_Z 1000000) = "1e+06" ∧ FormatG (f64_of_Z 123456) = "123456" ∧
  FormatG (f64_of_decimal false 1 (-1)) = "0.1" ∧ FormatG (f64_of_decimal true 12345678 (-4)) = "-1234.5678" ∧
  FormatG (f64_of_decimal false 15 (-8)) = "1.5e-07" ∧ FormatG (f64_of_decimal false 1 23) = "1e+23" ∧
  FormatG (f64_div (f64_of_Z 1) (f64_of_Z 3)) = "0.3333333333333333" ∧ FormatG (f64_of_Z 100) = "100" ∧
  FormatG (f64_of_decimal false 25 (-5)) = "0.00025".
Proof. by vm_compute. Qed.
