(* ===== verification/Hash.v ===== *)
(** * Hash functions: MD5 and CRC-32

[crypto/md5] (RFC 1321) printed in lowercase hexadecimal, as [utils.Md5] does
(common/utils/md5.go), and [hash/crc32.ChecksumIEEE].  Both compute; the facts
the components rely on are the shape of the hexadecimal digest and the range of
the checksum. *)

From S2P Require Import Prelude GoFloat GoString.
From Stdlib Require Import Ascii.
From stdpp Require Import options.
Local Open Scope Z_scope.

(** ** 32-bit words *)

Definition w32 (z : Z) : Z := z mod 2 ^ 32.
Definition rotl32 (x n : Z) : Z := Z.lor (w32 (Z.shiftl x n)) (Z.shiftr x (32 - n)).
Definition not32 (x : Z) : Z := 2 ^ 32 - 1 - x.

Fixpoint bytes_of (s : string) : list Z :=
  match s with "" => [] | String c s => byte_of c :: bytes_of s end.

(** ** MD5 *)

Module MD5.
Definition K : list Z := [
 3614090360; 3905402710; 606105819; 3250441966; 4118548399; 1200080426;
 2821735955; 4249261313; 1770035416; 2336552879; 4294925233; 2304563134;
 1804603682; 4254626195; 2792965006; 1236535329; 4129170786; 3225465664;
 643717713; 3921069994; 3593408605; 38016083; 3634488961; 3889429448;
 568446438; 3275163606; 4107603335; 1163531501; 2850285829; 4243563512;
 1735328473; 2368359562; 4294588738; 2272392833; 1839030562; 4259657740;
 2763975236; 1272893353; 4139469664; 3200236656; 681279174; 3936430074;
 3572445317; 76029189; 3654602809; 3873151461; 530742520; 3299628645;
 4096336452; 1126891415; 2878612391; 4237533241; 1700485571; 2399980690;
 4293915773; 2240044497; 1873313359; 4264355552; 2734768916; 1309151649;
 4149444226; 3174756917; 718787259; 3951481745].
Definition S : list Z :=
  let row l := l ++ l ++ l ++ l in
  row [7; 12; 17; 22] ++ row [5; 9; 14; 20] ++ row [4; 11; 16; 23] ++ row [6; 10; 15; 21].

(** The message padded to a multiple of 64 bytes, its bit length last. *)
Definition pad (bs : list Z) : list Z :=
  let n := Z.of_nat (length bs) in
  let zeros := (55 - n) mod 64 in
  bs ++ [128] ++ replicate (Z.to_nat zeros) 0
     ++ ((λ i, Z.land (Z.shiftr (8 * n) (8 * Z.of_nat i)) 255) <$> seq 0 8).

Fixpoint words (fuel : nat) (bs : list Z) : list Z :=
  match fuel, bs with
  | Datatypes.S fuel, a :: b :: c :: d :: bs =>
      (a + 256 * b + 65536 * c + 16777216 * d) :: words fuel bs
  | _, _ => []
  end.

Definition state : Set := Z * Z * Z * Z.
Definition init : state := (1732584193, 4023233417, 2562383102, 271733878).

Definition round (M : list Z) (st : state) (i : nat) : state :=
  let '(a, b, c, d) := st in
  let n := Z.of_nat i in
  let '(f, g) :=
    if (n <? 16) then (Z.lor (Z.land b c) (Z.land (not32 b) d), n)
    else if (n <? 32) then (Z.lor (Z.land d b) (Z.land (not32 d) c), (5 * n + 1) mod 16)
    else if (n <? 48) then (Z.lxor (Z.lxor b c) d, (3 * n + 5) mod 16)
    else (Z.lxor c (Z.lor b (not32 d)), (7 * n) mod 16) in
  let f' := w32 (f + a + nth i K 0 + nth (Z.to_nat g) M 0) in
  (d, w32 (b + rotl32 f' (nth i S 0)), b, c).

Definition block (st : state) (M : list Z) : state :=
  let '(a, b, c, d) := st in
  let '(a', b', c', d') := foldl (round M) st (seq 0 64) in
  (w32 (a + a'), w32 (b + b'), w32 (c + c'), w32 (d + d')).

Fixpoint blocks (fuel : nat) (st : state) (ws : list Z) : state :=
  match fuel, ws with
  | Datatypes.S fuel, _ :: _ => blocks fuel (block st (take 16 ws)) (drop 16 ws)
  | _, _ => st
  end.

Definition sum (s : string) : state :=
  let bs := pad (bytes_of s) in
  let ws := words (length bs) bs in
  blocks (length ws) init ws.
End MD5.

(** [%x] of a byte: two lowercase hexadecimal digits. *)
Definition hex_digit (n : Z) : ascii :=
  ascii_of_N (Z.to_N (if n <? 10 then 48 + n else 87 + n)).
Definition hex_byte (b : Z) : string :=
  String (hex_digit (Z.land (Z.shiftr b 4) 15)) (String (hex_digit (Z.land b 15)) "").
Definition hex_word (w : Z) : string :=
  hex_byte (Z.land w 255) +:+ hex_byte (Z.land (Z.shiftr w 8) 255)
  +:+ hex_byte (Z.land (Z.shiftr w 16) 255) +:+ hex_byte (Z.land (Z.shiftr w 24) 255).

(** [utils.Md5] *)
Definition Md5 (raw : string) : string :=
  let '(a, b, c, d) := MD5.sum raw in hex_word a +:+ hex_word b +:+ hex_word c +:+ hex_word d.

(** ** CRC-32, the IEEE polynomial *)

Definition crc_bit (c : Z) : Z :=
  if Z.testbit c 0 then Z.lxor (Z.shiftr c 1) 3988292384 else Z.shiftr c 1.
Definition crc_byte (c b : Z) : Z := Nat.iter 8 crc_bit (Z.lxor c b).

(** [crc32.ChecksumIEEE] *)
Definition ChecksumIEEE (s : string) : Z :=
  not32 (w32 (foldl crc_byte (2 ^ 32 - 1) (bytes_of s))).

(** ** Facts *)

Definition hex_chars : list ascii :=
  ["0"; "1"; "2"; "3"; "4"; "5"; "6"; "7"; "8"; "9"; "a"; "b"; "c"; "d"; "e"; "f"]%char.

Definition is_hex (c : ascii) : bool := bool_decide (c ∈ hex_chars).

Lemma land_bound x n : 0 <= n → 0 <= Z.land x (Z.ones n) < 2 ^ n.
Proof. intros. rewrite Z.land_ones by done. by apply Z.mod_pos_bound, Z.pow_pos_nonneg. Qed.

Lemma hex_digit_is_hex n : 0 <= n < 16 → is_hex (hex_digit n) = true.
Proof.
  intros Hn. assert (∃ k : nat, (k < 16)%nat ∧ n = Z.of_nat k) as (k & Hk & ->).
  { exists (Z.to_nat n). lia. }
  do 16 (destruct k as [|k]; [by vm_compute|]). lia.
Qed.

Lemma hex_byte_shape b :
  String.length (hex_byte b) = 2%nat ∧ all_chars is_hex (hex_byte b) = true.
Proof.
  split; [done|]. unfold hex_byte. cbn [all_chars].
  rewrite !hex_digit_is_hex; [done|..]; apply (land_bound _ 4); lia.
Qed.

Lemma hex_word_shape w :
  String.length (hex_word w) = 8%nat ∧ all_chars is_hex (hex_word w) = true.
Proof.
  unfold hex_word. rewrite !length_app_string, !all_chars_app.
  by rewrite !(λ b, proj1 (hex_byte_shape b)), !(λ b, proj2 (hex_byte_shape b)).
Qed.

(** A digest is 32 lowercase hexadecimal digits. *)
Lemma Md5_shape s : String.length (Md5 s) = 32%nat ∧ all_chars is_hex (Md5 s) = true.
Proof.
  unfold Md5. destruct (MD5.sum s) as [[[a b] c] d].
  rewrite !length_app_string, !all_chars_app.
  by rewrite !(λ b, proj1 (hex_word_shape b)), !(λ b, proj2 (hex_word_shape b)).
Qed.

Lemma Md5_lacks c s : is_hex c = false → lacks c (Md5 s).
Proof. intros. eapply all_chars_lacks; [apply Md5_shape|done]. Qed.

Lemma Md5_slice s : returns (go_slice (Md5 s) 0 2).
Proof.
  unfold go_slice. rewrite (proj1 (Md5_shape s)). by eexists.
Qed.

Lemma ChecksumIEEE_bounds s : 0 <= ChecksumIEEE s < 2 ^ 32.
Proof.
  unfold ChecksumIEEE, not32, w32.
  pose proof (Z.mod_pos_bound (foldl crc_byte (2 ^ 32 - 1) (bytes_of s)) (2 ^ 32)). lia.
Qed.

#[export] Hint Resolve Md5_slice ChecksumIEEE_bounds : go.

(** ** Test vectors *)

Example md5_empty : Md5 "" = "d41d8cd98f00b204e9800998ecf8427e".
Proof. vm_compute. reflexivity. Qed.
Example md5_abc : Md5 "abc" = "900150983cd24fb0d6963f7d28e17f72".
Proof. vm_compute. reflexivity. Qed.
Example md5_long :
  Md5 "12345678901234567890123456789012345678901234567890123456789012345678901234567890"
  = "57edf4a22be3c955ac49da2e2107b67a".
Proof. vm_compute. reflexivity. Qed.
Example crc_check : ChecksumIEEE "123456789" = 3421780262.
Proof. vm_compute. reflexivity. Qed.
