(* ===== verification/Tags.v ===== *)
(** * Tags, counters and keys ([common/utils])

The functions of common/utils/{tags,map,counter,func,formatter}.go: the printed
form of a tag map, its parser, and the keys ([PK], [Counter], [UUID],
[Checksum]) under which every component files a metric.

The loops over a map take the order in which the map is visited; the theorems
show that no result depends on it. *)

From S2P Require Import Prelude GoFloat GoString Hash.
From Stdlib Require Import Ascii SpecFloat.
From stdpp Require Import options.

Abbreviation tagmap := (gmap string string).

(** ** Printing tags *)

Definition tag_pair (key value : string) : string := key +:+ "=" +:+ value.

(** [SortedTags]; [kvs] is the order in which [tags] is visited. *)
Definition SortedTags_range (kvs : list (string * string)) (tags : tagmap) : string :=
  let size := size tags in
  if decide (size = 0%nat) then ""
  else match (if decide (size = 1%nat) then kvs else []) with
       | (k, v) :: _ => tag_pair k v
       | [] =>
           let keys := sort_strings kvs.*1 in
           join "," ((λ key, tag_pair key (default "" (tags !! key))) <$> keys)
       end.

Definition SortedTags (tags : tagmap) : string :=
  SortedTags_range (map_to_list tags) tags.

(** [KeysOfMap] *)
Definition KeysOfMap_range (kvs : list (string * string)) : list string :=
  sort_strings kvs.*1.
Definition KeysOfMap (m : tagmap) : list string := KeysOfMap_range (map_to_list m).

(** ** Parsing tags *)

(** The body of the loop of [DictedTagstring]: a tag without [=] is skipped. *)
Definition dict_tag (tag_dict : tagmap) (tag : string) : tagmap :=
  match split2 "=" tag with
  | [k; v] => <[k := v]> tag_dict
  | _ => tag_dict
  end.

Definition DictedTagstring (s : string) : tagmap :=
  if decide (s = "") then ∅
  else
    let s := remove_char " " s in
    let tags := split "," s in
    foldl dict_tag ∅ tags.

(** [SplitTagsString]: as [DictedTagstring], but a tag without [=] is an error
and ends the loop; the tags read so far are returned with it. *)
Fixpoint split_tags (tagSlice : list string) (tags : tagmap) : option error * tagmap :=
  match tagSlice with
  | [] => (None, tags)
  | tag :: rest =>
      match split2 "=" tag with
      | [k; v] => split_tags rest (<[k := v]> tags)
      | _ => (Some ("bad tag " +:+ tag), tags)
      end
  end.

Definition SplitTagsString (s : string) : option error * tagmap :=
  let s := remove_char " " s in
  if decide (s = "") then (None, ∅) else split_tags (split "," s) ∅.

(** ** Keys *)

Definition Counter (metric : string) (tags : tagmap) : string :=
  if decide (size tags = 0%nat) then metric
  else metric +:+ "/" +:+ SortedTags tags.

Definition PK (endpoint metric : string) (tags : tagmap) : string :=
  if decide (size tags = 0%nat) then endpoint +:+ "/" +:+ metric
  else endpoint +:+ "/" +:+ metric +:+ "/" +:+ SortedTags tags.

Definition PK2 (endpoint counter : string) : string := endpoint +:+ "/" +:+ counter.

Definition UUID (endpoint metric : string) (tags : tagmap) (dstype : string) (step : Z) : string :=
  if decide (size tags = 0%nat)
  then endpoint +:+ "/" +:+ metric +:+ "/" +:+ dstype +:+ "/" +:+ Itoa step
  else endpoint +:+ "/" +:+ metric +:+ "/" +:+ SortedTags tags +:+ "/" +:+ dstype +:+ "/" +:+ Itoa step.

Definition Checksum (endpoint metric : string) (tags : tagmap) : string :=
  Md5 (PK endpoint metric tags).

Definition ChecksumOfUUID (endpoint metric : string) (tags : tagmap) (dstype : string) (step : Z) : string :=
  Md5 (UUID endpoint metric tags dstype step).

(** ** Readable floats *)

(** [ReadableFloat]: five decimals, without the trailing zeros. *)
Definition ReadableFloat (raw : float64) : string :=
  let val := FormatFixed 5 raw in
  if contains_char "." val then
    let val := trim_right_char "0" val in
    trim_right_char "." val
  else val.

(** ** Well-formed tags: what the parser produces *)

Definition tag_wf (k v : string) : Prop :=
  lacks "," k ∧ lacks " " k ∧ lacks "=" k ∧ lacks "," v ∧ lacks " " v.
Definition tags_wf (tags : tagmap) : Prop := map_Forall tag_wf tags.

(** ** [SortedTags] *)

(** All the cases of the code at once. *)
Lemma SortedTags_range_eq kvs tags :
  ranges kvs tags →
  SortedTags_range kvs tags =
    join "," ((λ key, tag_pair key (default "" (tags !! key))) <$> sort_strings kvs.*1).
Proof.
  intros Hr. unfold SortedTags_range. pose proof (ranges_length _ _ Hr) as Hl.
  case_decide as H0; [destruct kvs; [done|cbn in *; lia]|].
  case_decide as H1; [|done]. destruct kvs as [|[k v] [|]]; [done| |cbn in *; lia].
  assert (tags !! k = Some v) as E by (apply (ranges_elem_of _ _ _ _ Hr); left).
  cbn. by rewrite E.
Qed.

(** The printed tags do not depend on the order in which the map is visited. *)
Lemma SortedTags_range_order kvs tags :
  ranges kvs tags → SortedTags_range kvs tags = SortedTags tags.
Proof.
  intros Hr. unfold SortedTags. rewrite !SortedTags_range_eq by auto with go.
  by rewrite (sort_strings_perm kvs.*1 (map_to_list tags).*1) by by rewrite Hr.
Qed.

Lemma SortedTags_eq tags :
  SortedTags tags =
    join "," ((λ key, tag_pair key (default "" (tags !! key))) <$> KeysOfMap tags).
Proof. apply SortedTags_range_eq. auto with go. Qed.

Lemma KeysOfMap_perm (tags : tagmap) : KeysOfMap tags ≡ₚ (map_to_list tags).*1.
Proof. apply sort_strings_Permutation. Qed.

Lemma elem_of_KeysOfMap (tags : tagmap) k : k ∈ KeysOfMap tags ↔ is_Some (tags !! k).
Proof.
  rewrite KeysOfMap_perm, list_elem_of_fmap. split.
  - intros ([k' v] & -> & Hkv%elem_of_map_to_list). by exists v.
  - intros [v Hv]. exists (k, v). by rewrite elem_of_map_to_list.
Qed.

(** The pairs of a map in the order of its sorted keys. *)
(** A counter has one key: that of its endpoint, metric and tags, and that of its
endpoint and its text. *)
Lemma PK2_Counter e m t : PK2 e (Counter m t) = PK e m t.
Proof. unfold PK2, Counter, PK. case_decide; [done|]. by rewrite ?app_string_assoc. Qed.

(** The keys are sorted: maps with the same keys give the same list. *)
Lemma KeysOfMap_dom (m1 m2 : tagmap) : dom m1 = dom m2 → KeysOfMap m1 = KeysOfMap m2.
Proof.
  intros E. unfold KeysOfMap, KeysOfMap_range. apply sort_strings_perm, NoDup_Permutation; [apply NoDup_fst_map_to_list..|].
  intros k. rewrite !list_elem_of_fmap.
  assert (∀ m : tagmap, (∃ y, k = y.1 ∧ y ∈ map_to_list m) ↔ k ∈ dom m) as H.
  { intros m. rewrite elem_of_dom. split.
    - intros ([k' v] & -> & Hv%elem_of_map_to_list). by exists v.
    - intros [v Hv%elem_of_map_to_list]. by exists (k, v). }
  by rewrite !H, E.
Qed.

Lemma KeysOfMap_ranges (tags : tagmap) :
  ranges ((λ k, (k, default "" (tags !! k))) <$> KeysOfMap tags) tags.
Proof.
  unfold ranges. apply NoDup_Permutation.
  - apply (NoDup_fmap_1 fst). rewrite <- list_fmap_compose.
    rewrite (list_fmap_ext _ id), list_fmap_id by done.
    apply sort_strings_NoDup, NoDup_fst_map_to_list.
  - apply NoDup_map_to_list.
  - intros [k v]. rewrite list_elem_of_fmap, elem_of_map_to_list. split.
    + intros (k' & ? & [v' Hv]%elem_of_KeysOfMap). simplify_eq. by rewrite Hv.
    + intros Hv. exists k. rewrite Hv, elem_of_KeysOfMap. by eauto.
Qed.

Lemma KeysOfMap_nil (tags : tagmap) : KeysOfMap tags = [] ↔ tags = ∅.
Proof.
  split; intros H.
  - apply map_empty. intros k. destruct (tags !! k) as [v|] eqn:E; [|done].
    assert (k ∈ KeysOfMap tags) as Hk by (apply elem_of_KeysOfMap; by exists v).
    rewrite H in Hk. by apply not_elem_of_nil in Hk.
  - by subst.
Qed.

(** ** The parser reads back what the printer wrote *)

Lemma tag_pair_lacks k v : tag_wf k v → lacks "," (tag_pair k v) ∧ lacks " " (tag_pair k v).
Proof. unfold tag_wf, tag_pair. rewrite !lacks_app. by intuition. Qed.

Lemma dict_tag_pair d k v : tag_wf k v → dict_tag d (tag_pair k v) = <[k := v]> d.
Proof.
  intros (_ & _ & Hk & _). unfold dict_tag.
  change (tag_pair k v) with (k +:+ String "=" v). by rewrite split2_app.
Qed.

Lemma foldl_dict_tag kvs d :
  Forall (λ kv, tag_wf kv.1 kv.2) kvs →
  foldl dict_tag d ((λ kv, tag_pair kv.1 kv.2) <$> kvs) = assign_all kvs d.
Proof.
  intros HF. revert d. induction HF as [|[k v] kvs Hk HF IH]; intros d; [done|].
  cbn [fmap list_fmap foldl fst snd]. rewrite dict_tag_pair by done. apply IH.
Qed.

Lemma Forall_ranges kvs (tags : tagmap) :
  ranges kvs tags → tags_wf tags → Forall (λ kv, tag_wf kv.1 kv.2) kvs.
Proof.
  intros Hr Hw. apply Forall_forall. intros [k v] Hk.
  apply (Hw k v). by apply (ranges_elem_of _ _ _ _ Hr).
Qed.

Lemma DictedTagstring_join kvs :
  kvs ≠ [] → Forall (λ kv, tag_wf kv.1 kv.2) kvs →
  DictedTagstring (join "," ((λ kv, tag_pair kv.1 kv.2) <$> kvs)) = assign_all kvs ∅.
Proof.
  intros Hne HF. unfold DictedTagstring.
  assert (Forall (lacks ",") ((λ kv, tag_pair kv.1 kv.2) <$> kvs)) as HC.
  { apply Forall_fmap. eapply Forall_impl; [done|]. intros ? ?. by apply tag_pair_lacks. }
  assert (Forall (lacks " ") ((λ kv, tag_pair kv.1 kv.2) <$> kvs)) as HS.
  { apply Forall_fmap. eapply Forall_impl; [done|]. intros ? ?. by apply tag_pair_lacks. }
  rewrite remove_char_id by (by apply lacks_join).
  rewrite split_join by (by destruct kvs || done).
  rewrite foldl_dict_tag by done.
  case_decide as E; [|done].
  destruct kvs as [|[k v] [|]]; cbn in E; [done|..]; by destruct k.
Qed.

Lemma SortedTags_pairs tags :
  SortedTags tags =
    join "," ((λ kv, tag_pair kv.1 kv.2) <$> ((λ k, (k, default "" (tags !! k))) <$> KeysOfMap tags)).
Proof. rewrite SortedTags_eq. by rewrite <- list_fmap_compose. Qed.

Lemma DictedTagstring_SortedTags_wf tags :
  tags_wf tags → DictedTagstring (SortedTags tags) = tags.
Proof.
  intros Hw. destruct (decide (tags = ∅)) as [->|Hne]; [done|].
  rewrite SortedTags_pairs, DictedTagstring_join.
  - apply assign_all_ranges, KeysOfMap_ranges.
  - intros E%fmap_nil_inv. by apply Hne, KeysOfMap_nil.
  - eapply Forall_ranges; [apply KeysOfMap_ranges|done].
Qed.

(** Everything the parser returns is well formed. *)
Lemma dict_tag_wf d tag :
  lacks "," tag → lacks " " tag → tags_wf d → tags_wf (dict_tag d tag).
Proof.
  intros Hc Hs Hd. unfold dict_tag.
  destruct (split2_spec "=" tag) as [[_ ->]|(k & v & Hk & -> & ->)]; [done|].
  apply map_Forall_insert_2; [|done].
  rewrite lacks_app in Hc, Hs. rewrite lacks_cons in Hc, Hs. unfold tag_wf. intuition.
Qed.

Lemma foldl_dict_tag_wf l d :
  Forall (lacks ",") l → Forall (lacks " ") l → tags_wf d → tags_wf (foldl dict_tag d l).
Proof.
  intros HC. revert d. induction HC as [|x l Hx HC IH]; cbn; intros d HS Hd; [done|].
  inversion HS; subst. apply IH; [done|]. by apply dict_tag_wf.
Qed.

Lemma DictedTagstring_wf s : tags_wf (DictedTagstring s).
Proof.
  unfold DictedTagstring. case_decide; [by apply map_Forall_empty|].
  apply foldl_dict_tag_wf; [auto with go| |by apply map_Forall_empty].
  apply split_lacks_other. auto with go.
Qed.

(** ** The two parsers *)

Lemma split_tags_spec l d :
  split_tags l d =
    match list_find (λ tag, lacks "=" tag) l with
    | None => (None, foldl dict_tag d l)
    | Some (i, tag) => (Some ("bad tag " +:+ tag), foldl dict_tag d (take i l))
    end.
Proof.
  revert d. induction l as [|tag l IH]; intros d; cbn; [done|].
  destruct (split2_spec "=" tag) as [[Ht Hs]|(k & v & Hk & -> & Hs)].
  - rewrite decide_True by done. by rewrite Hs.
  - rewrite Hs. rewrite decide_False.
    2: { rewrite lacks_app, lacks_cons. naive_solver. }
    assert (dict_tag d (k +:+ String "=" v) = <[k := v]> d) as E by (unfold dict_tag; by rewrite Hs).
    rewrite IH. destruct (list_find _ l) as [[i t]|]; cbn; by rewrite E.
Qed.

Lemma SplitTagsString_join kvs :
  kvs ≠ [] → Forall (λ kv, tag_wf kv.1 kv.2) kvs →
  SplitTagsString (join "," ((λ kv, tag_pair kv.1 kv.2) <$> kvs)) = (None, assign_all kvs ∅).
Proof.
  intros Hne HF. unfold SplitTagsString.
  assert (Forall (lacks ",") ((λ kv, tag_pair kv.1 kv.2) <$> kvs)) as HC.
  { apply Forall_fmap. eapply Forall_impl; [done|]. intros ? ?. by apply tag_pair_lacks. }
  assert (Forall (lacks " ") ((λ kv, tag_pair kv.1 kv.2) <$> kvs)) as HS.
  { apply Forall_fmap. eapply Forall_impl; [done|]. intros ? ?. by apply tag_pair_lacks. }
  rewrite remove_char_id by (by apply lacks_join).
  rewrite split_join by (by destruct kvs || done).
  case_decide as E; [destruct kvs as [|[k v] [|]]; cbn in E; [done|..]; by destruct k|].
  rewrite split_tags_spec, foldl_dict_tag by done.
  destruct (list_find _ _) as [[i t]|] eqn:Ef; [exfalso|done].
  apply list_find_Some in Ef as (Hi & Hl & _). apply list_elem_of_lookup_2 in Hi.
  apply list_elem_of_fmap in Hi as ([k v] & -> & _). unfold tag_pair in Hl. cbn in Hl.
  rewrite lacks_app, lacks_cons in Hl. naive_solver.
Qed.

(** The strict parser reads back the printed form of well-formed tags. *)
Lemma SplitTagsString_SortedTags tags : tags_wf tags → SplitTagsString (SortedTags tags) = (None, tags).
Proof.
  intros Hw. destruct (decide (tags = ∅)) as [->|Hne]; [done|].
  rewrite SortedTags_pairs. set (kvs := (λ k, (k, default "" (tags !! k))) <$> KeysOfMap tags).
  assert (Forall (λ kv, tag_wf kv.1 kv.2) kvs) as HF by (eapply Forall_ranges; [apply KeysOfMap_ranges|done]).
  assert (kvs ≠ []) as Hk by (intros E%fmap_nil_inv; by apply Hne, KeysOfMap_nil).
  rewrite SplitTagsString_join by done. by rewrite (assign_all_ranges kvs tags) by apply KeysOfMap_ranges.
Qed.

(** ** Keys *)

Lemma size_0_empty (tags : tagmap) : size tags = 0%nat ↔ tags = ∅.
Proof. apply map_size_empty_iff. Qed.

Lemma SortedTags_inj t1 t2 :
  tags_wf t1 → tags_wf t2 → SortedTags t1 = SortedTags t2 → t1 = t2.
Proof.
  intros H1 H2 E. rewrite <- (DictedTagstring_SortedTags_wf t1 H1), E.
  by apply DictedTagstring_SortedTags_wf.
Qed.

Lemma PK_cons e m tags :
  PK e m tags = e +:+ String "/" (if decide (tags = ∅) then m else m +:+ String "/" (SortedTags tags)).
Proof. unfold PK. by repeat case_decide; rewrite ?size_0_empty in *. Qed.

(** Metrics named without a slash have different keys unless they are the same. *)
Lemma PK_injective e1 m1 t1 e2 m2 t2 :
  lacks "/" e1 → lacks "/" m1 → tags_wf t1 →
  lacks "/" e2 → lacks "/" m2 → tags_wf t2 →
  PK e1 m1 t1 = PK e2 m2 t2 → e1 = e2 ∧ m1 = m2 ∧ t1 = t2.
Proof.
  intros He1 Hm1 H1 He2 Hm2 H2. rewrite !PK_cons. intros [-> E]%app_inv_lacks; [|done..].
  split; [done|]. repeat case_decide; subst; simplify_eq.
  - done.
  - exfalso. revert Hm1. rewrite lacks_app, lacks_cons. naive_solver.
  - exfalso. revert Hm2. rewrite lacks_app, lacks_cons. naive_solver.
  - apply app_inv_lacks in E as [-> E]; [|done..]. eauto using SortedTags_inj.
Qed.

(** ** Properties *)

(** Printing tags and parsing them back gives the tags, whatever the order
in which the map is visited when it is printed. *)
Theorem tags_roundtrip kvs tags :
  ranges kvs tags → tags_wf tags →
  DictedTagstring (SortedTags_range kvs tags) = tags.
Proof. intros Hr Hw. rewrite SortedTags_range_order by done. by apply DictedTagstring_SortedTags_wf. Qed.

Example tags_roundtrip_witness :
  DictedTagstring (SortedTags_range [("b", "2"); ("a", "1")] {["a" := "1"; "b" := "2"]})
  = {["a" := "1"; "b" := "2"]}.
Proof.
  apply tags_roundtrip.
  - unfold ranges. rewrite map_to_list_insert by done. rewrite map_to_list_singleton. apply perm_swap.
  - apply map_Forall_insert_2; [repeat split|]. apply map_Forall_insert_2; [repeat split|].
    apply map_Forall_empty.
Defined.

(** Parsing any string and printing the result is a normal form: parsing
that again gives the same tags, and the strict parser accepts it with the same
tags. *)
Theorem tags_normal_form s :
  let tags := DictedTagstring s in
  DictedTagstring (SortedTags tags) = tags ∧
  (SplitTagsString (SortedTags tags) = (None, tags)).
Proof.
  intros tags. pose proof (DictedTagstring_wf s). split.
  - by apply DictedTagstring_SortedTags_wf.
  - by apply SplitTagsString_SortedTags.
Qed.

Example tags_normal_form_witness :
  DictedTagstring (SortedTags (DictedTagstring "b = 2,a=1,c")) = {["a" := "1"; "b" := "2"]}.
Proof.
  etransitivity; [apply (proj1 (tags_normal_form "b = 2,a=1,c"))|]. vm_compute. reflexivity.
Defined.

(** The key of a point identifies its endpoint, its metric and its tags,
when neither of the first two contains a slash and the tags are well formed. *)
Theorem PK_identifies e1 m1 t1 e2 m2 t2 :
  lacks "/" e1 → lacks "/" m1 → tags_wf t1 →
  lacks "/" e2 → lacks "/" m2 → tags_wf t2 →
  (PK e1 m1 t1 = PK e2 m2 t2 ↔ e1 = e2 ∧ m1 = m2 ∧ t1 = t2).
Proof.
  intros. split; [by apply PK_injective|]. by intros (-> & -> & ->).
Qed.

Example PK_identifies_witness :
  PK "host" "cpu" {["a" := "1"]} = PK "host" "cpu" {["a" := "1"]} ↔
  "host" = "host" ∧ "cpu" = "cpu" ∧ ({["a" := "1"]} : tagmap) = {["a" := "1"]}.
Proof.
  apply PK_identifies; try reflexivity; apply map_Forall_singleton; repeat split.
Defined.

Example sorted_ex : SortedTags {["a" := "1"; "c" := "2"; "b" := "3"]} = "a=1,b=3,c=2".
Proof. vm_compute. reflexivity. Qed.
Example dict_ex : DictedTagstring "a=1, b = x=y,c" = {["a" := "1"; "b" := "x=y"]}.
Proof. vm_compute. reflexivity. Qed.
Example readable_ex :
  (ReadableFloat (f64_of_Z 100), ReadableFloat (f64_of_decimal true 25 (-1)), ReadableFloat f64_nan)
  = ("100", "-2.5", "NaN").
Proof. vm_compute. reflexivity. Qed.
