(* ===== verification/Model.v ===== *)
(** * The shared data model ([common/model])

The structures exchanged by the components, one [Module] per Go type with its
fields under their source names, and the methods that compute (the [String]
methods only serve logging and are left out).

A pointer field that may be nil is an [option]; a method that dereferences it
returns an outcome.  A Go map that may be nil is a [gmap]: reading, ranging over
and measuring a nil map is the same as for an empty one, and no method of this
file writes to one. *)

From S2P Require Import Prelude GoFloat GoString Hash Tags.
From Stdlib Require Import Ascii.
From stdpp Require Import options.

(** ** common/model/template.go *)

Module Template.
Record t : Set := mk {
  Id : Z; Name : string; ParentId : Z; ActionId : Z; Creator : string }.
#[export] Instance eq_dec : EqDecision t.
Proof. solve_decision. Defined.
End Template.

(** ** common/model/strategy.go *)

Module Strategy.
Record t : Set := mk {
  Id : Z; Metric : string; Tags : tagmap;
  Func : string; Operator : string; RightValue : float64;
  MaxStep : Z; Priority : Z; Note : string; Tpl : option Template.t }.
End Strategy.

Module HostStrategy.
Record t : Set := mk { Hostname : string; Strategies : list Strategy.t }.
End HostStrategy.

(** ** common/model/expression.go *)

Module Expression.
Record t : Set := mk {
  Id : Z; Metric : string; Tags : tagmap;
  Func : string; Operator : string; RightValue : float64;
  MaxStep : Z; Priority : Z; Note : string; ActionId : Z }.
End Expression.

(** ** common/model/judge.go *)

Module JudgeItem.
Record t : Set := mk {
  Endpoint : string; Metric : string; Value : float64;
  Timestamp : Z; JudgeType : string; Tags : tagmap }.

Definition PrimaryKey (this : t) : string :=
  Md5 (PK this.(Endpoint) this.(Metric) this.(Tags)).
End JudgeItem.

Module HistoryData.
Record t : Set := mk { Timestamp : Z; Value : float64 }.
End HistoryData.

(** ** common/model/event.go *)

Module Event.
Record t : Set := mk {
  Id : string;
  Strategy : option Strategy.t;
  Expression : option Expression.t;
  Status : string;
  Endpoint : string;
  LeftValue : float64;
  CurrentStep : Z;
  EventTime : Z;
  PushedTags : tagmap }.

Definition set_Status (s : string) (e : t) : t :=
  mk e.(Id) e.(Strategy) e.(Expression) s e.(Endpoint) e.(LeftValue) e.(CurrentStep)
     e.(EventTime) e.(PushedTags).
Definition set_CurrentStep (n : Z) (e : t) : t :=
  mk e.(Id) e.(Strategy) e.(Expression) e.(Status) e.(Endpoint) e.(LeftValue) n
     e.(EventTime) e.(PushedTags).

Definition ExpressionId (this : t) : Z :=
  match this.(Expression) with Some e => e.(Expression.Id) | None => 0 end.

Definition StrategyId (this : t) : Z :=
  match this.(Strategy) with Some s => s.(Strategy.Id) | None => 0 end.

Definition TplId (this : t) : go Z :=
  match this.(Strategy) with
  | Some s => tpl ← deref s.(Strategy.Tpl); Ret tpl.(Template.Id)
  | None => Ret 0
  end.

Definition Tpl (this : t) : option Template.t :=
  match this.(Strategy) with Some s => s.(Strategy.Tpl) | None => None end.

Definition ActionId (this : t) : go Z :=
  match this.(Expression) with
  | Some e => Ret e.(Expression.ActionId)
  | None =>
      s ← deref this.(Strategy);
      tpl ← deref s.(Strategy.Tpl);
      Ret tpl.(Template.ActionId)
  end.

(** The attributes read from the strategy, or else from the expression. *)
Definition attribute {A} (fs : Strategy.t → A) (fe : Expression.t → A) (this : t) : go A :=
  match this.(Strategy) with
  | Some s => Ret (fs s)
  | None => e ← deref this.(Expression); Ret (fe e)
  end.

Definition Priority : t → go Z := attribute Strategy.Priority Expression.Priority.
Definition Note : t → go string := attribute Strategy.Note Expression.Note.
Definition Metric : t → go string := attribute Strategy.Metric Expression.Metric.
Definition RightValue : t → go float64 := attribute Strategy.RightValue Expression.RightValue.
Definition Operator : t → go string := attribute Strategy.Operator Expression.Operator.
Definition Func : t → go string := attribute Strategy.Func Expression.Func.
Definition MaxStep : t → go Z := attribute Strategy.MaxStep Expression.MaxStep.

Definition Counter (this : t) : go string :=
  m ← Metric this;
  Ret (this.(Endpoint) +:+ "/" +:+ m +:+ " " +:+ SortedTags this.(PushedTags)).

(** An event is about a strategy or about an expression. *)
Definition has_subject (this : t) : Prop :=
  is_Some this.(Strategy) ∨ is_Some this.(Expression).
End Event.

(** ** common/model/metric.go *)

(** The dynamic type of an [interface{}] value, as far as the code tells them apart. *)
Inductive value : Set :=
| VString (s : string)
| VFloat64 (f : float64)
| VInt64 (n : Z)
| VInt (n : Z) (* int, uint64 and the other integer types *)
| VOther.

Module MetricValue.
Record t : Set := mk {
  Endpoint : string; Metric : string; Value : value; Step : Z;
  Type_ : string; Tags : string; Timestamp : Z }.
End MetricValue.

Module JsonMetaData.
Record t : Set := mk {
  Metric : string; Endpoint : string; Timestamp : Z; Step : Z;
  Value : value; CounterType : string; Tags : string }.
End JsonMetaData.

Module MetaData.
Record t : Set := mk {
  Metric : string; Endpoint : string; Timestamp : Z; Step : Z;
  Value : float64; CounterType : string; Tags : tagmap }.

Definition PK (this : t) : string := PK this.(Endpoint) this.(Metric) this.(Tags).
End MetaData.

(** ** common/model/graph.go *)

Module GraphItem.
Record t : Set := mk {
  Endpoint : string; Metric : string; Tags : tagmap; Value : float64;
  Timestamp : Z; DsType : string; Step : Z; Heartbeat : Z; Min : string; Max : string }.

(** [&cmodel.GraphItem{}] *)
Definition zero : t := mk "" "" ∅ f64_zero 0 "" 0 0 "" "".

Definition PrimaryKey (this : t) : string := PK this.(Endpoint) this.(Metric) this.(Tags).
Definition Checksum (this : t) : string := Checksum this.(Endpoint) this.(Metric) this.(Tags).
Definition UUID (this : t) : string :=
  UUID this.(Endpoint) this.(Metric) this.(Tags) this.(DsType) this.(Step).
End GraphItem.

(** [JsonFloat.MarshalJSON]: a value that is not a number is [null]. *)
Definition JsonFloat_MarshalJSON (v : float64) : string :=
  if f64_is_nan v || f64_is_inf v then "null" else FormatFixed 6 v.

Module RRDData.
Record t : Set := mk { Timestamp : Z; Value : float64 }.
(** [NewRRDData] *)
Definition New (ts : Z) (val : float64) : t := mk ts val.
End RRDData.

(** ** common/model/tsdb.go *)

Module TsdbItem.
Record t : Set := mk { Metric : string; Tags : tagmap; Value : float64; Timestamp : Z }.

(** [TsdbString]; [kvs] is the order in which the tags are visited. *)
Definition TsdbString (kvs : list (string * string)) (this : t) : string :=
  foldl (λ s kv,
    let key := lower_ascii (replace_char " " "_" kv.1) in
    let value := replace_char " " "_" kv.2 in
    s +:+ key +:+ "=" +:+ value +:+ " ")
    ("put " +:+ this.(Metric) +:+ " " +:+ Itoa this.(Timestamp) +:+ " "
      +:+ FormatFixed 3 this.(Value) +:+ " ") kvs.
End TsdbItem.

(** ** common/model/agent.go *)

Module AgentReportRequest.
Record t : Set := mk {
  Hostname : string; IP : string; AgentVersion : string; PluginVersion : string }.
End AgentReportRequest.

Module AgentUpdateInfo.
Record t : Set := mk { LastUpdate : Z; ReportRequest : AgentReportRequest.t }.
End AgentUpdateInfo.

Module BuiltinMetric.
Record t : Set := mk { Metric : string; Tags : string }.
(** [String], by which the metrics are sorted and digested *)
Definition String (this : t) : string := this.(Metric) +:+ "/" +:+ this.(Tags).
(** [BuiltinMetricSlice.Less] *)
Definition Less (a b : t) : bool :=
  bool_decide (String.le (String a) (String b)) && bool_decide (String a ≠ String b).
End BuiltinMetric.

Module Host.
Record t : Set := mk { Id : Z; Name : string }.
End Host.

(** ** Methods of events that do not panic *)

Lemma attribute_returns {A} (fs : Strategy.t → A) fe ev :
  Event.has_subject ev → returns (Event.attribute fs fe ev).
Proof.
  unfold Event.has_subject, Event.attribute. intros [[s ->]|[e He]]; [by eexists|].
  destruct (Event.Strategy ev); [by eexists|]. rewrite He. by eexists.
Qed.

#[export] Hint Resolve attribute_returns : go.

Example tsdb_ex :
  TsdbItem.TsdbString [("Host Name", "a b")] (TsdbItem.mk "cpu" ∅ (f64_of_Z 3) 60)
  = "put cpu 60 3.000 host_name=a_b ".
Proof. vm_compute. reflexivity. Qed.
