(* ===== verification/Json.v ===== *)
(** * JSON values and Go's [encoding/json]

What the components exchange through redis are texts made by [json.Marshal] and
read by [json.Unmarshal].  The file models both on the level of JSON values: a
text that is JSON is the value it denotes, any other text is its characters.
An interface [Json] says how a Go type is encoded and decoded, structures are
described by their list of fields, and [JsonLaws] is what a reader may rely on:
decoding what was encoded gives the value back.

A number written from a Go integer is a [JInt], one written from a [float64] a
[JFloat]; the decoder of a float takes both. *)

From S2P Require Import Prelude GoFloat GoString Hash Tags Model.
From Stdlib Require Import Ascii.
From stdpp Require Import options.

Inductive json : Type :=
| JNull
| JBool (b : bool)
| JInt (z : Z)
| JFloat (f : float64)
| JString (s : string)
| JArray (l : list json)
| JObject (kvs : list (string * json)).

Definition errUnmarshal : error := "cannot unmarshal".
Definition errUnsupported : error := "unsupported value".

(** ** The interface of an encodable type

[json_dec old j] decodes [j] over the present value [old], as [json.Unmarshal]
does: what [j] says nothing of stays. *)
Class Json (A : Type) := {
  json_zero : A;
  json_enc : A → json;
  json_dec : A → json → result A }.

(** The values that survive being written and read. *)
Class JsonLaws (A : Type) `{Json A} (valid : A → Prop) :=
  json_roundtrip : ∀ a, valid a → json_dec json_zero (json_enc a) = Ok a.

(** [json.Marshal]: a float that is not finite has no JSON. *)
Fixpoint json_finite (j : json) : bool :=
  match j with
  | JFloat f => f64_is_finite f
  | JArray l => forallb json_finite l
  | JObject kvs => forallb (λ kv, json_finite kv.2) kvs
  | _ => true
  end.

Definition Marshal `{Json A} (a : A) : result json :=
  let j := json_enc a in
  if json_finite j then Ok j else Err errUnsupported.

Definition Unmarshal `{Json A} (j : json) : result A := json_dec json_zero j.

(** ** Basic types *)

#[export] Instance json_string : Json string := {
  json_zero := "";
  json_enc := JString;
  json_dec old j :=
    match j with JNull => Ok old | JString s => Ok s | _ => Err errUnmarshal end }.

#[export] Instance json_int : Json Z := {
  json_zero := 0;
  json_enc := JInt;
  json_dec old j :=
    match j with
    | JNull => Ok old
    | JInt z => if decide (int64 z) then Ok z else Err errUnmarshal
    | _ => Err errUnmarshal
    end }.

#[export] Instance json_float : Json float64 := {
  json_zero := f64_zero;
  json_enc := JFloat;
  json_dec old j :=
    match j with
    | JNull => Ok old
    | JFloat f => Ok f
    | JInt z => Ok (f64_of_Z z)
    | _ => Err errUnmarshal
    end }.

(** A map of strings; the entries that the map holds already stay. *)
#[export] Instance json_map : Json tagmap := {
  json_zero := ∅;
  json_enc m := JObject ((λ k, (k, JString (default "" (m !! k)))) <$> KeysOfMap m);
  json_dec old j :=
    match j with
    | JNull => Ok ∅
    | JObject kvs =>
        foldl (λ r kv, m ← r; v ← json_dec "" kv.2; Ok (<[kv.1 := v]> m)) (Ok old) kvs
    | _ => Err errUnmarshal
    end }.

(** A pointer: [null] is nil. *)
#[export] Instance json_pointer `{Json A} : Json (option A) := {
  json_zero := None;
  json_enc p := match p with Some a => json_enc a | None => JNull end;
  json_dec old j :=
    match j with
    | JNull => Ok None
    | _ => a ← json_dec (default json_zero old) j; Ok (Some a)
    end }.

(** ** Structures *)

Record field (A : Type) : Type := Field {
  f_name : string; f_enc : A → json; f_dec : A → json → result A }.
Arguments Field {A}. Arguments f_name {A}. Arguments f_enc {A}. Arguments f_dec {A}.

Definition field_of `{Json B} {A} (name : string) (get : A → B) (set : B → A → A) : field A :=
  Field name (λ a, json_enc (get a)) (λ a j, b ← json_dec (get a) j; Ok (set b a)).

Definition struct_enc {A} (fs : list (field A)) (a : A) : json :=
  JObject ((λ f, (f.(f_name), f.(f_enc) a)) <$> fs).

(** The field of a key: the names are compared without their case, and the names
of a structure are different without their case. *)
Fixpoint find_field {A} (key : string) (fs : list (field A)) : option (field A) :=
  match fs with
  | [] => None
  | f :: fs => if decide (lower_ascii f.(f_name) = lower_ascii key) then Some f else find_field key fs
  end.

Definition struct_dec {A} (fs : list (field A)) (old : A) (j : json) : result A :=
  match j with
  | JNull => Ok old
  | JObject kvs =>
      foldl (λ r kv, a ← r;
        match find_field kv.1 fs with Some f => f.(f_dec) a kv.2 | None => Ok a end) (Ok old) kvs
  | _ => Err errUnmarshal
  end.

Definition json_struct {A} (zero : A) (fs : list (field A)) : Json A := {|
  json_zero := zero; json_enc := struct_enc fs; json_dec := struct_dec fs |}.

(** ** The structures of the data model *)

Definition template_fields : list (field Template.t) := [
  field_of "id" Template.Id (λ x a, Template.mk x a.(Template.Name) a.(Template.ParentId) a.(Template.ActionId) a.(Template.Creator));
  field_of "name" Template.Name (λ x a, Template.mk a.(Template.Id) x a.(Template.ParentId) a.(Template.ActionId) a.(Template.Creator));
  field_of "parentId" Template.ParentId (λ x a, Template.mk a.(Template.Id) a.(Template.Name) x a.(Template.ActionId) a.(Template.Creator));
  field_of "actionId" Template.ActionId (λ x a, Template.mk a.(Template.Id) a.(Template.Name) a.(Template.ParentId) x a.(Template.Creator));
  field_of "creator" Template.Creator (λ x a, Template.mk a.(Template.Id) a.(Template.Name) a.(Template.ParentId) a.(Template.ActionId) x) ].
#[export] Instance json_template : Json Template.t :=
  json_struct (Template.mk 0 "" 0 0 "") template_fields.

Definition strategy_fields : list (field Strategy.t) :=
  let mk := Strategy.mk in [
  field_of "id" Strategy.Id (λ x '(Strategy.mk _ b c d e f g h i j), mk x b c d e f g h i j);
  field_of "metric" Strategy.Metric (λ x '(Strategy.mk a _ c d e f g h i j), mk a x c d e f g h i j);
  field_of "tags" Strategy.Tags (λ x '(Strategy.mk a b _ d e f g h i j), mk a b x d e f g h i j);
  field_of "func" Strategy.Func (λ x '(Strategy.mk a b c _ e f g h i j), mk a b c x e f g h i j);
  field_of "operator" Strategy.Operator (λ x '(Strategy.mk a b c d _ f g h i j), mk a b c d x f g h i j);
  field_of "rightValue" Strategy.RightValue (λ x '(Strategy.mk a b c d e _ g h i j), mk a b c d e x g h i j);
  field_of "maxStep" Strategy.MaxStep (λ x '(Strategy.mk a b c d e f _ h i j), mk a b c d e f x h i j);
  field_of "priority" Strategy.Priority (λ x '(Strategy.mk a b c d e f g _ i j), mk a b c d e f g x i j);
  field_of "note" Strategy.Note (λ x '(Strategy.mk a b c d e f g h _ j), mk a b c d e f g h x j);
  field_of "tpl" Strategy.Tpl (λ x '(Strategy.mk a b c d e f g h i _), mk a b c d e f g h i x) ].
#[export] Instance json_strategy : Json Strategy.t :=
  json_struct (Strategy.mk 0 "" ∅ "" "" f64_zero 0 0 "" None) strategy_fields.

Definition expression_fields : list (field Expression.t) :=
  let mk := Expression.mk in [
  field_of "id" Expression.Id (λ x '(Expression.mk _ b c d e f g h i j), mk x b c d e f g h i j);
  field_of "metric" Expression.Metric (λ x '(Expression.mk a _ c d e f g h i j), mk a x c d e f g h i j);
  field_of "tags" Expression.Tags (λ x '(Expression.mk a b _ d e f g h i j), mk a b x d e f g h i j);
  field_of "func" Expression.Func (λ x '(Expression.mk a b c _ e f g h i j), mk a b c x e f g h i j);
  field_of "operator" Expression.Operator (λ x '(Expression.mk a b c d _ f g h i j), mk a b c d x f g h i j);
  field_of "rightValue" Expression.RightValue (λ x '(Expression.mk a b c d e _ g h i j), mk a b c d e x g h i j);
  field_of "maxStep" Expression.MaxStep (λ x '(Expression.mk a b c d e f _ h i j), mk a b c d e f x h i j);
  field_of "priority" Expression.Priority (λ x '(Expression.mk a b c d e f g _ i j), mk a b c d e f g x i j);
  field_of "note" Expression.Note (λ x '(Expression.mk a b c d e f g h _ j), mk a b c d e f g h x j);
  field_of "actionId" Expression.ActionId (λ x '(Expression.mk a b c d e f g h i _), mk a b c d e f g h i x) ].
#[export] Instance json_expression : Json Expression.t :=
  json_struct (Expression.mk 0 "" ∅ "" "" f64_zero 0 0 "" 0) expression_fields.

Definition event_fields : list (field Event.t) :=
  let mk := Event.mk in [
  field_of "id" Event.Id (λ x '(Event.mk _ b c d e f g h i), mk x b c d e f g h i);
  field_of "strategy" Event.Strategy (λ x '(Event.mk a _ c d e f g h i), mk a x c d e f g h i);
  field_of "expression" Event.Expression (λ x '(Event.mk a b _ d e f g h i), mk a b x d e f g h i);
  field_of "status" Event.Status (λ x '(Event.mk a b c _ e f g h i), mk a b c x e f g h i);
  field_of "endpoint" Event.Endpoint (λ x '(Event.mk a b c d _ f g h i), mk a b c d x f g h i);
  field_of "leftValue" Event.LeftValue (λ x '(Event.mk a b c d e _ g h i), mk a b c d e x g h i);
  field_of "currentStep" Event.CurrentStep (λ x '(Event.mk a b c d e f _ h i), mk a b c d e f x h i);
  field_of "eventTime" Event.EventTime (λ x '(Event.mk a b c d e f g _ i), mk a b c d e f g x i);
  field_of "pushedTags" Event.PushedTags (λ x '(Event.mk a b c d e f g h _), mk a b c d e f g h x) ].
#[export] Instance json_event : Json Event.t :=
  json_struct (Event.mk "" None None "" "" f64_zero 0 0 ∅) event_fields.

(** ** What is written can be read *)

#[export] Instance json_string_laws : JsonLaws string (λ _, True).
Proof. by intros s. Qed.

#[export] Instance json_int_laws : JsonLaws Z int64.
Proof. intros z Hz. cbn. by rewrite decide_True. Qed.

#[export] Instance json_float_laws : JsonLaws float64 (λ _, True).
Proof. by intros f. Qed.

Lemma dec_pairs (m0 : tagmap) (kvs : list (string * string)) :
  foldl (λ r (kv : string * json), m ← r; v ← json_dec "" kv.2; Ok (<[kv.1 := v]> m)) (Ok m0)
    ((λ kv, (kv.1, JString kv.2)) <$> kvs) = Ok (assign_all kvs m0).
Proof. revert m0. induction kvs as [|[k v] kvs IH]; intros m0; [done|]. apply IH. Qed.

#[export] Instance json_map_laws : JsonLaws tagmap (λ _, True).
Proof.
  intros m _. cbn [json_dec json_enc json_map json_zero].
  set (kvs := (λ k, (k, default "" (m !! k))) <$> KeysOfMap m).
  replace (_ <$> _) with ((λ kv : string * string, (kv.1, JString kv.2)) <$> kvs)
    by (unfold kvs; by rewrite <- list_fmap_compose).
  rewrite dec_pairs. f_equal. apply assign_all_ranges. apply KeysOfMap_ranges.
Qed.

Lemma struct_enc_null {A} (fs : list (field A)) a : struct_enc fs a ≠ JNull.
Proof. done. Qed.

(** A pointer to a structure: its encoding is never [null]. *)
Lemma json_pointer_laws `{JsonLaws A valid} :
  (∀ a, json_enc a ≠ JNull) → JsonLaws (option A) (λ p, ∀ a, p = Some a → valid a).
Proof.
  intros Hn [a|] Hv; [|done]. cbn [json_dec json_enc json_pointer json_zero default].
  pose proof (json_roundtrip a (Hv a eq_refl)) as Hr. specialize (Hn a).
  destruct (json_enc a); try done; cbn [default]; by rewrite Hr.
Qed.

(** Reading a structure back is reading each of its fields back, in order. *)
Definition names_ok {A} (fs : list (field A)) : bool :=
  bool_decide (NoDup ((λ f, lower_ascii f.(f_name)) <$> fs)).

Lemma find_field_own {A} (fs : list (field A)) f :
  names_ok fs = true → f ∈ fs → find_field f.(f_name) fs = Some f.
Proof.
  unfold names_ok. rewrite bool_decide_eq_true. induction fs as [|f' fs IH]; [by intros _ ?%not_elem_of_nil|].
  rewrite fmap_cons, NoDup_cons. intros [Hn Hd] [->|Hf]%elem_of_cons; cbn [find_field].
  - by rewrite decide_True.
  - rewrite decide_False; [auto|]. intros E. apply Hn. rewrite E.
    apply list_elem_of_fmap. by exists f.
Qed.

Lemma struct_dec_enc {A} (fs : list (field A)) (old a : A) :
  names_ok fs = true →
  struct_dec fs old (struct_enc fs a) = foldl (λ r f, x ← r; f.(f_dec) x (f.(f_enc) a)) (Ok old) fs.
Proof.
  intros Hok. unfold struct_dec, struct_enc.
  assert (∀ l r, l ⊆ fs →
    foldl (λ r kv, x ← r; match find_field kv.1 fs with Some f => f.(f_dec) x kv.2 | None => Ok x end) r
      ((λ f, (f.(f_name), f.(f_enc) a)) <$> l) = foldl (λ r f, x ← r; f.(f_dec) x (f.(f_enc) a)) r l) as Hl.
  { induction l as [|f l IH]; intros r Hs; [done|]. cbn [fmap list_fmap foldl].
    rewrite IH by set_solver. f_equal. destruct r as [x|]; [|done]. cbn [mbind result_bind fst snd].
    by rewrite find_field_own by (done || set_solver). }
  by apply Hl.
Qed.

Lemma dec_field_of `{JsonLaws B valid} {A} n (get : A → B) (set : B → A → A) x a :
  get x = json_zero → valid (get a) →
  f_dec (field_of n get set) x (f_enc (field_of n get set) a) = Ok (set (get a) x).
Proof. intros Hx Ha. cbn. rewrite Hx. by rewrite (json_roundtrip (get a) Ha). Qed.

(** The fields of a concrete structure, one after the other. *)
Ltac struct_laws :=
  cbn [json_dec json_enc json_zero json_struct]; rewrite struct_dec_enc by (vm_compute; reflexivity);
  lazymatch goal with |- foldl _ _ ?fs = _ => unfold fs end;
  repeat (cbn [foldl mbind result_bind]; erewrite dec_field_of by (reflexivity || (cbn; tauto)));
  reflexivity.

Definition template_ints (t : Template.t) : Prop :=
  int64 t.(Template.Id) ∧ int64 t.(Template.ParentId) ∧ int64 t.(Template.ActionId).
#[export] Instance json_template_laws : JsonLaws Template.t template_ints.
Proof. intros t (? & ? & ?). destruct t. unfold json_template. struct_laws. Qed.
#[export] Instance json_tpl_laws : JsonLaws (option Template.t) (λ p, ∀ t, p = Some t → template_ints t).
Proof. by apply json_pointer_laws. Qed.

Definition strategy_ints (s : Strategy.t) : Prop :=
  int64 s.(Strategy.Id) ∧ int64 s.(Strategy.MaxStep) ∧ int64 s.(Strategy.Priority) ∧
  ∀ t, s.(Strategy.Tpl) = Some t → template_ints t.
#[export] Instance json_strategy_laws : JsonLaws Strategy.t strategy_ints.
Proof. intros s (? & ? & ? & ?). destruct s. unfold json_strategy. struct_laws. Qed.
#[export] Instance json_strategy_ptr_laws : JsonLaws (option Strategy.t) (λ p, ∀ s, p = Some s → strategy_ints s).
Proof. by apply json_pointer_laws. Qed.

Definition expression_ints (x : Expression.t) : Prop :=
  int64 x.(Expression.Id) ∧ int64 x.(Expression.MaxStep) ∧ int64 x.(Expression.Priority) ∧
  int64 x.(Expression.ActionId).
#[export] Instance json_expression_laws : JsonLaws Expression.t expression_ints.
Proof. intros x (? & ? & ? & ?). destruct x. unfold json_expression. struct_laws. Qed.
#[export] Instance json_expression_ptr_laws : JsonLaws (option Expression.t) (λ p, ∀ x, p = Some x → expression_ints x).
Proof. by apply json_pointer_laws. Qed.

(** The integers of an event fit the machine's. *)
Definition event_ints (e : Event.t) : Prop :=
  int64 e.(Event.CurrentStep) ∧ int64 e.(Event.EventTime) ∧
  (∀ s, e.(Event.Strategy) = Some s → strategy_ints s) ∧
  (∀ x, e.(Event.Expression) = Some x → expression_ints x).
#[export] Instance json_event_laws : JsonLaws Event.t event_ints.
Proof. intros e (? & ? & ? & ?). destruct e. unfold json_event. struct_laws. Qed.

Lemma strings_finite (m : tagmap) : json_finite (json_enc m) = true.
Proof.
  cbn [json_enc json_map json_finite]. apply forallb_forall. intros kv. rewrite <- list_elem_of_In.
  intros (k & -> & _)%list_elem_of_fmap. done.
Qed.

(** What [json.Unmarshal] gives for a text that [json.Marshal] made. *)
Lemma Unmarshal_Marshal `{JsonLaws A valid} a j : valid a → Marshal a = Ok j → Unmarshal j = Ok a.
Proof. unfold Marshal, Unmarshal. case_match; [|done]. intros Hv [= <-]. by apply json_roundtrip. Qed.
