(* ===== verification/JudgeStore.v ===== *)
(** * Judge: history lists and judging functions

modules/judge/store/linkedlist.go ([SafeLinkedList]: the points of one metric,
newest first) and modules/judge/store/func.go (the functions a strategy or an
expression applies to them, and the parser of their notation).

A [list.List] is the list of its elements from front to back.  Each method of
[SafeLinkedList] holds the lock of the list for its whole body, so it is one
atomic function of the list. *)

From S2P Require Import Prelude GoFloat GoString Hash Tags Model.
From Stdlib Require Import Ascii.
From stdpp Require Import options.

(** ** SafeLinkedList *)

Module SafeLinkedList.
Abbreviation t := (list JudgeItem.t).

Definition ToSlice (this : t) : list JudgeItem.t := this.
Definition Front (this : t) : option JudgeItem.t := head this.
Definition Len (this : t) : Z := Z.of_nat (length this).
Definition PushFront (v : JudgeItem.t) (this : t) : t := v :: this.

(** [L.Remove(L.Back())]: removing the back of an empty list dereferences nil. *)
Definition RemoveBack (this : t) : go t :=
  match this with [] => Panic NilDereference | _ => Ret (take (length this - 1) this) end.

(** The loop of [HistoryData] for a gauge: one point per element that follows [current]. *)
Fixpoint gauge_points (n : nat) (rest : t) : go (list HistoryData.t) :=
  match n with
  | O => Ret []
  | S n =>
      match rest with
      | [] => Panic NilDereference
      | next :: rest =>
          vs ← gauge_points n rest;
          Ret (HistoryData.mk next.(JudgeItem.Timestamp) next.(JudgeItem.Value) :: vs)
      end
  end.

(** The rate of change between an element and the one that follows it. *)
Definition rate (current next : JudgeItem.t) : HistoryData.t :=
  let diffVal := f64_sub current.(JudgeItem.Value) next.(JudgeItem.Value) in
  let diffTs := current.(JudgeItem.Timestamp) -₆₄ next.(JudgeItem.Timestamp) in
  HistoryData.mk current.(JudgeItem.Timestamp) (f64_div diffVal (f64_of_Z diffTs)).

(** The loop of [HistoryData] for a counter: one rate per pair of neighbours. *)
Fixpoint rate_points (n : nat) (current : JudgeItem.t) (rest : t) : go (list HistoryData.t) :=
  match n with
  | O => Ret []
  | S n =>
      match rest with
      | [] => Panic NilDereference
      | next :: rest =>
          vs ← rate_points n next rest;
          Ret (rate current next :: vs)
      end
  end.

(** [HistoryData]: the newest [limit] values, and whether there were enough.
The first byte of the newest item's type says how the values are read; an
item with an empty type makes the indexing panic. *)
Definition HistoryData (limit : Z) (this : t) : go (list HistoryData.t * bool) :=
  if limit <? 1 then Ret ([], false)
  else
    let size := Len this in
    match this with
    | [] => Ret ([], false)
    | firstItem :: rest =>
        match firstItem.(JudgeItem.JudgeType) with
        | "" => Panic IndexOutOfRange
        | String judgeType _ =>
            if decide (judgeType = "G"%char ∨ judgeType = "g"%char) then
              let '(limit, isEnough) :=
                if size <? limit then (size, false) else (limit, true) in
              vs ← gauge_points (Z.to_nat (limit - 1)) rest;
              Ret (HistoryData.mk firstItem.(JudgeItem.Timestamp) firstItem.(JudgeItem.Value) :: vs,
                   isEnough)
            else
              let '(limit, isEnough) :=
                if size <? limit +₆₄ 1 then (size - 1, false) else (limit, true) in
              vs ← rate_points (Z.to_nat limit) firstItem rest;
              Ret (vs, isEnough)
        end
    end.

(** [n] times [L.Remove(L.Back())] *)
Fixpoint remove_back_n (n : nat) (this : t) : go t :=
  match n with O => Ret this | S n => l ← RemoveBack this; remove_back_n n l end.

(** [PushFrontAndMaintain]: a point that is not newer than the newest one is
refused; otherwise it is inserted and the oldest points beyond [maxCount] go. *)
Definition PushFrontAndMaintain (v : JudgeItem.t) (maxCount : Z) (this : t) : go (t * bool) :=
  let sz := Len this in
  let refused :=
    match Front this with
    | Some front =>
        (v.(JudgeItem.Timestamp) <=? front.(JudgeItem.Timestamp)) || (v.(JudgeItem.Timestamp) <=? 0)
    | None => false
    end in
  if refused then Ret (this, false)
  else
    let this := PushFront v this in
    let sz := sz + 1 in
    if sz <=? maxCount then Ret (this, true)
    else this ← remove_back_n (Z.to_nat (sz - maxCount)) this; Ret (this, true).
End SafeLinkedList.

(** ** Judging functions *)

Inductive Function : Set :=
| MaxFunction (Limit : Z) (Operator : string) (RightValue : float64)
| MinFunction (Limit : Z) (Operator : string) (RightValue : float64)
| AllFunction (Limit : Z) (Operator : string) (RightValue : float64)
| SumFunction (Limit : Z) (Operator : string) (RightValue : float64)
| AvgFunction (Limit : Z) (Operator : string) (RightValue : float64)
| DiffFunction (Limit : Z) (Operator : string) (RightValue : float64)
| PDiffFunction (Limit : Z) (Operator : string) (RightValue : float64)
| LookupFunction (Num : Z) (Limit : Z) (Operator : string) (RightValue : float64).

(** [0.0001] *)
Definition epsilon : float64 := f64_of_decimal false 1 (-4).

Definition checkIsTriggered (leftValue : float64) (operator : string) (rightValue : float64) : bool :=
  if decide (operator = "=" ∨ operator = "==") then
    f64_lt (f64_abs (f64_sub leftValue rightValue)) epsilon
  else if decide (operator = "!=") then
    f64_lt epsilon (f64_abs (f64_sub leftValue rightValue))
  else if decide (operator = "<") then f64_lt leftValue rightValue
  else if decide (operator = "<=") then f64_le leftValue rightValue
  else if decide (operator = ">") then f64_lt rightValue leftValue
  else if decide (operator = ">=") then f64_le rightValue leftValue
  else false.

(** What [Compute] answers: the points, the left value, whether the threshold
is crossed and whether there were enough points. *)
Record computed : Set := Computed {
  vs : list HistoryData.t; leftValue : float64; isTriggered : bool; isEnough : bool }.

(** Fetching the points: every [Compute] starts so. *)
Definition with_history (limit : Z) (L : SafeLinkedList.t)
    (k : list HistoryData.t → go computed) : go computed :=
  h ← SafeLinkedList.HistoryData limit L;
  let '(vs, isEnough) := h : list HistoryData.t * bool in
  if isEnough then k vs else Ret (Computed vs f64_zero false false).

Definition MaxFunction_Compute (Limit : Z) (Operator : string) (RightValue : float64)
    (L : SafeLinkedList.t) : go computed :=
  with_history Limit L (λ vs,
    v0 ← at_index vs 0;
    max ← go_foldl (λ max i,
      v ← at_index vs i;
      Ret (if f64_lt max v.(HistoryData.Value) then v.(HistoryData.Value) else max))
      v0.(HistoryData.Value) (seqZ 1 (Limit - 1));
    Ret (Computed vs max (checkIsTriggered max Operator RightValue) true)).

Definition MinFunction_Compute (Limit : Z) (Operator : string) (RightValue : float64)
    (L : SafeLinkedList.t) : go computed :=
  with_history Limit L (λ vs,
    v0 ← at_index vs 0;
    min ← go_foldl (λ min i,
      v ← at_index vs i;
      Ret (if f64_lt v.(HistoryData.Value) min then v.(HistoryData.Value) else min))
      v0.(HistoryData.Value) (seqZ 1 (Limit - 1));
    Ret (Computed vs min (checkIsTriggered min Operator RightValue) true)).

Definition AllFunction_Compute (Limit : Z) (Operator : string) (RightValue : float64)
    (L : SafeLinkedList.t) : go computed :=
  with_history Limit L (λ vs,
    isTriggered ← go_loop (λ _ i,
      v ← at_index vs i;
      let isTriggered := checkIsTriggered v.(HistoryData.Value) Operator RightValue in
      Ret (isTriggered, isTriggered)) true (seqZ 0 Limit);
    v0 ← at_index vs 0;
    Ret (Computed vs v0.(HistoryData.Value) isTriggered true)).

(** The body of the loop, on the counter [n] and the result; the loop ends when
the counter reaches [Num]. *)
Definition lookup_body (Num : Z) (Operator : string) (RightValue : float64)
    (st : Z * bool) (v : HistoryData.t) : go (Z * bool * bool) :=
  let '(n, isTriggered) := st in
  if checkIsTriggered v.(HistoryData.Value) Operator RightValue then
    let n := n + 1 in
    if decide (n = Num) then Ret ((n, true), false) else Ret ((n, isTriggered), true)
  else Ret (st, true).

Definition LookupFunction_Compute (Num Limit : Z) (Operator : string) (RightValue : float64)
    (L : SafeLinkedList.t) : go computed :=
  with_history Limit L (λ vs,
    v0 ← at_index vs 0;
    r ← go_loop (λ st i, v ← at_index vs i; lookup_body Num Operator RightValue st v) (0, false) (seqZ 0 Limit);
    Ret (Computed vs v0.(HistoryData.Value) (r : Z * bool).2 true)).

Definition sum_values (Limit : Z) (vs : list HistoryData.t) : go float64 :=
  go_foldl (λ sum i, v ← at_index vs i; Ret (f64_add sum v.(HistoryData.Value)))
    f64_zero (seqZ 0 Limit).

Definition SumFunction_Compute (Limit : Z) (Operator : string) (RightValue : float64)
    (L : SafeLinkedList.t) : go computed :=
  with_history Limit L (λ vs,
    sum ← sum_values Limit vs;
    Ret (Computed vs sum (checkIsTriggered sum Operator RightValue) true)).

Definition AvgFunction_Compute (Limit : Z) (Operator : string) (RightValue : float64)
    (L : SafeLinkedList.t) : go computed :=
  with_history Limit L (λ vs,
    sum ← sum_values Limit vs;
    let leftValue := f64_div sum (f64_of_Z Limit) in
    Ret (Computed vs leftValue (checkIsTriggered leftValue Operator RightValue) true)).

(** [diff] looks at one more point than its argument says. *)
Definition DiffFunction_Compute (Limit : Z) (Operator : string) (RightValue : float64)
    (L : SafeLinkedList.t) : go computed :=
  with_history (Limit +₆₄ 1) L (λ vs,
    if decide (length vs = 0%nat) then Ret (Computed vs f64_zero false false)
    else
      v0 ← at_index vs 0;
      let first := v0.(HistoryData.Value) in
      r ← go_loop (λ (_ : float64 * bool) i,
        v ← at_index vs i;
        let leftValue := f64_sub first v.(HistoryData.Value) in
        let isTriggered := checkIsTriggered leftValue Operator RightValue in
        Ret ((leftValue, isTriggered), negb isTriggered)) (f64_zero, false) (seqZ 1 Limit);
      let '(leftValue, isTriggered) := r : float64 * bool in
      Ret (Computed vs leftValue isTriggered true)).

(** [pdiff] is [diff] in percent; the points that are zero are passed over. *)
Definition PDiffFunction_Compute (Limit : Z) (Operator : string) (RightValue : float64)
    (L : SafeLinkedList.t) : go computed :=
  with_history (Limit +₆₄ 1) L (λ vs,
    if decide (length vs = 0%nat) then Ret (Computed vs f64_zero false false)
    else
      v0 ← at_index vs 0;
      let first := v0.(HistoryData.Value) in
      r ← go_loop (λ (st : float64 * bool) i,
        v ← at_index vs i;
        if f64_eq v.(HistoryData.Value) f64_zero then Ret (st, true)
        else
          let leftValue :=
            f64_mul (f64_div (f64_sub first v.(HistoryData.Value)) v.(HistoryData.Value)) (f64_of_Z 100) in
          let isTriggered := checkIsTriggered leftValue Operator RightValue in
          Ret ((leftValue, isTriggered), negb isTriggered)) (f64_zero, false) (seqZ 1 Limit);
      let '(leftValue, isTriggered) := r : float64 * bool in
      Ret (Computed vs leftValue isTriggered true)).

(** The method [Compute] of the interface. *)
Definition Function_Compute (fn : Function) : SafeLinkedList.t → go computed :=
  match fn with
  | MaxFunction l o r => MaxFunction_Compute l o r
  | MinFunction l o r => MinFunction_Compute l o r
  | AllFunction l o r => AllFunction_Compute l o r
  | SumFunction l o r => SumFunction_Compute l o r
  | AvgFunction l o r => AvgFunction_Compute l o r
  | DiffFunction l o r => DiffFunction_Compute l o r
  | PDiffFunction l o r => PDiffFunction_Compute l o r
  | LookupFunction n l o r => LookupFunction_Compute n l o r
  end.

(** ** The notation of functions *)

Fixpoint atois_list (a : list string) : result (list Z) :=
  match a with
  | [] => Ok []
  | v :: a => n ← Atoi v; ret ← atois_list a; Ok (n :: ret)
  end.
Definition atois (s : string) : result (list Z) := atois_list (split "," s).

(** The [switch] on the name of the function. *)
Definition func_of_name (name : string) (args : list Z) (operator : string) (rightValue : float64) :
    go (result Function) :=
  let limited (mk : Z → string → float64 → Function) : go (result Function) :=
    a0 ← at_index args 0; Ret (Ok (mk a0 operator rightValue)) in
  if decide (name = "max") then limited MaxFunction
  else if decide (name = "min") then limited MinFunction
  else if decide (name = "all") then limited AllFunction
  else if decide (name = "sum") then limited SumFunction
  else if decide (name = "avg") then limited AvgFunction
  else if decide (name = "diff") then limited DiffFunction
  else if decide (name = "pdiff") then limited PDiffFunction
  else if decide (name = "lookup") then
    a0 ← at_index args 0;
    a1 ← at_index args 1;
    Ret (Ok (LookupFunction a0 a1 operator rightValue))
  else Ret (Err "not_supported_method").

(** [ParseFuncFromString], of [all(#3)], [lookup(#2,3)] and the like: the
arguments are cut out and read before the name is looked at. *)
Definition ParseFuncFromString (str : string) (operator : string) (rightValue : float64) :
    go (result Function) :=
  let idx := index_char "#" str in
  arg ← go_slice str (idx + 1) (slen str - 1);
  match atois arg with
  | Err err => Ret (Err err)
  | Ok args =>
      name ← go_slice str 0 (idx - 1);
      func_of_name name args operator rightValue
  end.

Example parse_func_ex :
  (ParseFuncFromString "lookup(#2,3)" "<" f64_zero, ParseFuncFromString "foo(#1)" "<" f64_zero,
   ParseFuncFromString "max(#x)" "<" f64_zero, ParseFuncFromString "lookup(#2)" "<" f64_zero,
   ParseFuncFromString "7)" "<" f64_zero)
  = (Ret (Ok (LookupFunction 2 3 "<" f64_zero)), Ret (Err "not_supported_method"),
     Ret (Err errSyntax), Panic IndexOutOfRange, Panic SliceBounds).
Proof. vm_compute. reflexivity. Qed.

(** ** HistoryData: reference definition and correctness *)

Definition point (it : JudgeItem.t) : HistoryData.t :=
  HistoryData.mk it.(JudgeItem.Timestamp) it.(JudgeItem.Value).

(** The rates of change between neighbours, newest first. *)
Definition rates (L : SafeLinkedList.t) : list HistoryData.t :=
  zip_with SafeLinkedList.rate L (tail L).

Definition is_gauge (L : SafeLinkedList.t) : bool :=
  match L with
  | it :: _ =>
      match it.(JudgeItem.JudgeType) with
      | String c _ => bool_decide (c = "G"%char ∨ c = "g"%char)
      | "" => false
      end
  | [] => false
  end.

(** All the values that a list of points gives. *)
Definition points (L : SafeLinkedList.t) : list HistoryData.t :=
  if is_gauge L then point <$> L else rates L.

(** Every stored item has a type (transfer sends none without). *)
Definition typed (L : SafeLinkedList.t) : Prop :=
  Forall (λ it, it.(JudgeItem.JudgeType) ≠ "") L.

Lemma gauge_points_spec n rest :
  (n <= length rest)%nat → SafeLinkedList.gauge_points n rest = Ret (point <$> take n rest).
Proof.
  revert rest. induction n as [|n IH]; intros [|it rest] Hn; cbn in *; try done; [lia|].
  by rewrite IH by lia.
Qed.

Lemma rate_points_spec n cur rest :
  (n <= length rest)%nat → SafeLinkedList.rate_points n cur rest = Ret (take n (rates (cur :: rest))).
Proof.
  revert cur rest. induction n as [|n IH]; intros cur [|it rest] Hn; cbn in *; try done; [lia|].
  by rewrite IH by lia.
Qed.

Lemma length_rates L : length (rates L) = (length L - 1)%nat.
Proof.
  unfold rates. rewrite length_zip_with. destruct L as [|it L]; [done|]. cbn [tail length]. lia.
Qed.

(** [HistoryData] answers the newest [limit] values, and whether there are that many. *)
Lemma HistoryData_points limit L :
  1 <= limit < 2 ^ 63 - 1 → typed L →
  SafeLinkedList.HistoryData limit L =
    Ret (take (Z.to_nat limit) (points L), bool_decide (limit <= Z.of_nat (length (points L)))).
Proof.
  intros Hl Ht. unfold SafeLinkedList.HistoryData, SafeLinkedList.Len.
  destruct (Z.ltb_spec limit 1); [lia|].
  destruct L as [|it L]; [cbn; rewrite bool_decide_eq_false_2 by lia; by rewrite take_nil|].
  apply Forall_cons_1 in Ht as [Hit _].
  unfold points, is_gauge. destruct (JudgeItem.JudgeType it) as [|c t]; [done|].
  rewrite wrap64_id by (unfold int64; lia).
  destruct (decide (c = "G"%char ∨ c = "g"%char)) as [Hc|Hc];
    [rewrite bool_decide_eq_true_2 by done | rewrite bool_decide_eq_false_2 by done].
  - rewrite length_fmap. destruct (Z.ltb_spec (Z.of_nat (length (it :: L))) limit) as [Hs|Hs].
    + rewrite bool_decide_eq_false_2 by lia. cbn [length] in *.
      rewrite gauge_points_spec by lia. cbn [mbind go_bind].
      rewrite (take_ge (point <$> _)) by (rewrite length_fmap; cbn [length]; lia).
      rewrite take_ge by lia. done.
    + rewrite bool_decide_eq_true_2 by done. cbn [length] in *.
      rewrite gauge_points_spec by lia. cbn [mbind go_bind].
      replace (Z.to_nat limit) with (S (Z.to_nat (limit - 1))) by lia. cbn.
      by rewrite fmap_take.
  - pose proof (length_rates (it :: L)) as Hr. cbn [length] in *.
    destruct (Z.ltb_spec (Z.of_nat (S (length L))) (limit + 1)) as [Hs|Hs].
    + rewrite bool_decide_eq_false_2 by lia.
      rewrite rate_points_spec by lia. cbn [mbind go_bind].
      by rewrite !take_ge by lia.
    + rewrite bool_decide_eq_true_2 by lia.
      by rewrite rate_points_spec by lia.
Qed.

(** When [HistoryData] says there are enough values, there are exactly [limit]. *)
Lemma HistoryData_enough limit L vs :
  SafeLinkedList.HistoryData limit L = Ret (vs, true) →
  Z.of_nat (length vs) = limit ∧ 1 <= limit.
Proof.
  assert (∀ n rest vs, SafeLinkedList.gauge_points n rest = Ret vs → length vs = n) as Hg.
  { clear. induction n as [|n IH]; intros [|it rest] vs H; cbn in H; simplify_eq; try done.
    go_inv H. simplify_eq. cbn. by erewrite IH. }
  assert (∀ n cur rest vs, SafeLinkedList.rate_points n cur rest = Ret vs → length vs = n) as Hr.
  { clear. induction n as [|n IH]; intros cur [|it rest] vs H; cbn in H; simplify_eq; try done.
    go_inv H. simplify_eq. cbn. by erewrite IH. }
  unfold SafeLinkedList.HistoryData. destruct (Z.ltb_spec limit 1); [done|].
  destruct L as [|it L]; [done|]. destruct (JudgeItem.JudgeType it); [done|]. intros H1.
  case_decide; case_match; case_match; simplify_eq; go_inv H1; simplify_eq.
  - apply Hg in E. cbn. lia.
  - apply Hr in E. lia.
Qed.

Lemma HistoryData_length limit L vs :
  SafeLinkedList.HistoryData limit L = Ret (vs, true) → Z.of_nat (length vs) = limit.
Proof. by intros [? _]%HistoryData_enough. Qed.

Lemma HistoryData_tail_length limit L v0 vs :
  SafeLinkedList.HistoryData (limit +₆₄ 1) L = Ret (v0 :: vs, true) → int64 limit →
  Z.of_nat (length vs) = limit.
Proof.
  intros [H1 H2]%HistoryData_enough Hl. cbn [length] in H1. revert H1 H2.
  unfold int64, wrap64 in *. intros.
  destruct (Z.eq_dec limit (2 ^ 63 - 1)) as [->|]; [by vm_compute in H2|].
  rewrite Z.mod_small in *; lia.
Qed.

(** ** Compute: reference definitions and correctness *)

Lemma with_history_enough limit L vs k :
  SafeLinkedList.HistoryData limit L = Ret (vs, true) → with_history limit L k = k vs.
Proof. intros H. unfold with_history. by rewrite H. Qed.

Lemma go_foldl_indices {S} (f : S → HistoryData.t → S) s v0 (vs : list HistoryData.t) limit :
  Z.of_nat (length (v0 :: vs)) = limit →
  go_foldl (λ s i, v ← at_index (v0 :: vs) i; Ret (f s v)) s (seqZ 1 (limit - 1)) = Ret (foldl f s vs).
Proof.
  intros <-. replace (Z.of_nat _ - 1) with (Z.of_nat (length vs)) by (cbn; lia).
  change 1 with (Z.of_nat (length [v0])).
  rewrite (go_foldl_at_index (λ s v, Ret (f s v)) [v0] vs). apply go_foldl_Ret.
Qed.

Lemma go_foldl_all_indices {S} (f : S → HistoryData.t → S) s (vs : list HistoryData.t) limit :
  Z.of_nat (length vs) = limit →
  go_foldl (λ s i, v ← at_index vs i; Ret (f s v)) s (seqZ 0 limit) = Ret (foldl f s vs).
Proof.
  intros <-. change 0 with (Z.of_nat (length (@nil HistoryData.t))).
  rewrite (go_foldl_at_index (λ s v, Ret (f s v)) [] vs). apply go_foldl_Ret.
Qed.

Lemma go_loop_all_indices {S} (f : S → HistoryData.t → go (S * bool)) s (vs : list HistoryData.t) limit :
  Z.of_nat (length vs) = limit →
  go_loop (λ s i, v ← at_index vs i; f s v) s (seqZ 0 limit) = go_loop f s vs.
Proof.
  intros <-. change 0 with (Z.of_nat (length (@nil HistoryData.t))).
  by rewrite (go_loop_at_index f [] vs).
Qed.

Lemma go_loop_tail_indices {S} (f : S → HistoryData.t → go (S * bool)) s v0 (vs : list HistoryData.t) n :
  Z.of_nat (length vs) = n →
  go_loop (λ s i, v ← at_index (v0 :: vs) i; f s v) s (seqZ 1 n) = go_loop f s vs.
Proof.
  intros <-. change 1 with (Z.of_nat (length [v0])). by rewrite (go_loop_at_index f [v0] vs).
Qed.

(** The extremum a left-to-right scan with a strict comparison ends on. *)
Definition scan (better : float64 → float64 → bool) (v0 : float64) (vs : list float64) : float64 :=
  foldl (λ m v, if better m v then v else m) v0 vs.

Lemma scan_elem better v0 vs : scan better v0 vs ∈ v0 :: vs.
Proof.
  unfold scan. revert v0. induction vs as [|v vs IH]; intros v0; cbn; [by left|].
  destruct (better v0 v); specialize (IH (if better v0 v then v else v0)) as H.
  - specialize (IH v). set_solver.
  - specialize (IH v0). set_solver.
Qed.

(** No value beats the one the scan ends on, for a transitive comparison whose
complement is transitive on the values at hand. *)
Lemma scan_best better (P : float64 → Prop) v0 vs :
  (∀ a b c, P a → P b → P c → better b a = false → better c b = false → better c a = false) →
  (∀ a b, P a → P b → better a b = true → better b a = false) →
  (∀ a, better a a = false) →
  Forall P (v0 :: vs) →
  Forall (λ v, better (scan better v0 vs) v = false) (v0 :: vs).
Proof.
  intros Htr Has Hir. unfold scan. revert v0. induction vs as [|v vs IH]; intros v0 HP; cbn.
  { by constructor. }
  apply Forall_cons_1 in HP as [H0 HP]. pose proof HP as [H1 HP']%Forall_cons_1.
  destruct (better v0 v) eqn:Hb.
  - specialize (IH v HP). pose proof IH as [Hv Hvs]%Forall_cons_1.
    constructor; [|done].
    apply (Htr _ v); try done; [|by apply Has].
    assert (scan better v vs ∈ v :: vs) as Hin by apply scan_elem.
    rewrite Forall_forall in HP. by apply HP.
  - specialize (IH v0 ltac:(by constructor)). apply Forall_cons_1 in IH as [Hv Hvs].
    constructor; [done|]. constructor; [|done].
    apply (Htr _ v0); try done.
    assert (scan better v0 vs ∈ v0 :: vs) as Hin by apply scan_elem.
    assert (Forall P (v0 :: vs)) as HPv by (by constructor).
    rewrite Forall_forall in HPv. by apply HPv.
Qed.

Lemma MaxFunction_Compute_scan Limit Op RV L v0 vs :
  SafeLinkedList.HistoryData Limit L = Ret (v0 :: vs, true) →
  let m := scan f64_lt v0.(HistoryData.Value) (HistoryData.Value <$> vs) in
  MaxFunction_Compute Limit Op RV L =
    Ret (Computed (v0 :: vs) m (checkIsTriggered m Op RV) true).
Proof.
  intros H m. unfold MaxFunction_Compute. erewrite with_history_enough by done.
  cbn [at_index mbind go_bind]. change (at_index (v0 :: vs) 0) with (@Ret HistoryData.t v0).
  cbn [mbind go_bind].
  rewrite (go_foldl_indices (λ m v, if f64_lt m v.(HistoryData.Value) then v.(HistoryData.Value) else m))
    by (by apply HistoryData_length in H).
  cbn [mbind go_bind]. subst m. unfold scan. by rewrite foldl_fmap.
Qed.

Lemma MinFunction_Compute_scan Limit Op RV L v0 vs :
  SafeLinkedList.HistoryData Limit L = Ret (v0 :: vs, true) →
  let m := scan (λ a b, f64_lt b a) v0.(HistoryData.Value) (HistoryData.Value <$> vs) in
  MinFunction_Compute Limit Op RV L =
    Ret (Computed (v0 :: vs) m (checkIsTriggered m Op RV) true).
Proof.
  intros H m. unfold MinFunction_Compute. erewrite with_history_enough by done.
  change (at_index (v0 :: vs) 0) with (@Ret HistoryData.t v0). cbn [mbind go_bind].
  rewrite (go_foldl_indices (λ m v, if f64_lt v.(HistoryData.Value) m then v.(HistoryData.Value) else m))
    by (by apply HistoryData_length in H).
  cbn [mbind go_bind]. subst m. unfold scan. by rewrite foldl_fmap.
Qed.

(** A float that is a number. *)
Definition is_num (f : float64) : Prop := f64_is_nan f = false.

Lemma f64_lt_neg_trans a b c :
  is_num a → is_num b → is_num c →
  f64_lt b a = false → f64_lt c b = false → f64_lt c a = false.
Proof.
  intros Ha Hb Hc H1 H2. destruct (f64_lt c a) eqn:E; [|done].
  apply f64_lt_key in E as (_ & _ & E).
  assert (¬ key_lt (f64_key b) (f64_key a)).
  { intros ?. assert (f64_lt b a = true) by (by apply f64_lt_key). congruence. }
  assert (¬ key_lt (f64_key c) (f64_key b)).
  { intros ?. assert (f64_lt c b = true) by (by apply f64_lt_key). congruence. }
  unfold key_lt in *. lia.
Qed.

Lemma f64_lt_asym a b : f64_lt a b = true → f64_lt b a = false.
Proof.
  intros H. destruct (f64_lt b a) eqn:E; [|done].
  pose proof (f64_lt_trans _ _ _ H E) as X. by rewrite f64_lt_irrefl in X.
Qed.

Lemma scan_num better v0 vs : Forall is_num (v0 :: vs) → is_num (scan better v0 vs).
Proof. rewrite Forall_forall. intros H. apply H, scan_elem. Qed.

Lemma scan_max v0 vs :
  Forall is_num (v0 :: vs) → Forall (λ v, f64_le v (scan f64_lt v0 vs) = true) (v0 :: vs).
Proof.
  intros HN. pose proof (scan_num f64_lt _ _ HN).
  assert (Forall (λ v, f64_lt (scan f64_lt v0 vs) v = false) (v0 :: vs)) as Hb.
  { apply (scan_best f64_lt is_num); [exact f64_lt_neg_trans|..|done].
    - intros. by apply f64_lt_asym.
    - apply f64_lt_irrefl. }
  rewrite Forall_forall in *. intros v Hv. apply f64_not_lt_le; [done|by apply HN|by apply Hb].
Qed.

Lemma scan_min v0 vs :
  let better a b := f64_lt b a in
  Forall is_num (v0 :: vs) → Forall (λ v, f64_le (scan better v0 vs) v = true) (v0 :: vs).
Proof.
  intros better HN. pose proof (scan_num better _ _ HN).
  assert (Forall (λ v, better (scan better v0 vs) v = false) (v0 :: vs)) as Hb.
  { apply (scan_best better is_num); unfold better; [|..|done].
    - intros a b c ??? H1 H2. by apply (f64_lt_neg_trans c b a).
    - intros. by apply f64_lt_asym.
    - apply f64_lt_irrefl. }
  rewrite Forall_forall in *. intros v Hv. apply f64_not_lt_le; [by apply HN|done|by apply Hb].
Qed.

(** A loop that ends at the first element that fails a test. *)
Lemma go_loop_all {A} (P : A → bool) l :
  go_loop (λ _ a, Ret (P a, P a)) true l = Ret (forallb P l).
Proof.
  induction l as [|a l IH]; [done|]. cbn. destruct (P a); cbn; [|done]. apply IH.
Qed.

Lemma AllFunction_Compute_forallb Limit Op RV L v0 vs :
  SafeLinkedList.HistoryData Limit L = Ret (v0 :: vs, true) →
  AllFunction_Compute Limit Op RV L =
    Ret (Computed (v0 :: vs) v0.(HistoryData.Value)
      (forallb (λ v, checkIsTriggered v.(HistoryData.Value) Op RV) (v0 :: vs)) true).
Proof.
  intros H. unfold AllFunction_Compute. erewrite with_history_enough by done.
  rewrite (go_loop_all_indices (λ _ v,
    Ret (checkIsTriggered v.(HistoryData.Value) Op RV, checkIsTriggered v.(HistoryData.Value) Op RV)))
    by (by apply HistoryData_length in H).
  by rewrite go_loop_all.
Qed.

(** The number of points on which the threshold is crossed. *)
Definition crossings (Op : string) (RV : float64) (vs : list HistoryData.t) : nat :=
  length (List.filter (λ v, checkIsTriggered v.(HistoryData.Value) Op RV) vs).

Lemma lookup_body_eq Num Op RV n t v :
  lookup_body Num Op RV (n, t) v =
    if checkIsTriggered v.(HistoryData.Value) Op RV then
      if decide (n + 1 = Num) then Ret ((n + 1, true), false) else Ret ((n + 1, t), true)
    else Ret ((n, t), true).
Proof. done. Qed.

Lemma lookup_loop Num Op RV vs n :
  0 <= n < Num ∨ Num <= n ∧ Num <= 0 ∧ 0 <= n →
  ∃ n', go_loop (lookup_body Num Op RV) (n, false) vs
    = Ret (n', bool_decide (1 <= Num <= n + Z.of_nat (crossings Op RV vs))).
Proof.
  revert n. induction vs as [|v vs IH]; intros n Hn; cbn [go_loop].
  { exists n. rewrite bool_decide_eq_false_2; [done|cbn; lia]. }
  rewrite lookup_body_eq. unfold crossings. cbn [List.filter].
  destruct (checkIsTriggered v.(HistoryData.Value) Op RV); [|by apply IH].
  destruct (decide (n + 1 = Num)) as [Hd|Hd]; cbn [mbind go_bind fst snd].
  - exists (n + 1). by rewrite bool_decide_eq_true_2 by (cbn; lia).
  - destruct (IH (n + 1)) as [n' ->]; [lia|]. exists n'. do 2 f_equal.
    apply bool_decide_ext. cbn [length]. unfold crossings. lia.
Qed.

Lemma LookupFunction_Compute_count Num Limit Op RV L v0 vs :
  SafeLinkedList.HistoryData Limit L = Ret (v0 :: vs, true) →
  LookupFunction_Compute Num Limit Op RV L =
    Ret (Computed (v0 :: vs) v0.(HistoryData.Value)
      (bool_decide (1 <= Num <= Z.of_nat (crossings Op RV (v0 :: vs)))) true).
Proof.
  intros H. unfold LookupFunction_Compute. erewrite with_history_enough by done.
  change (at_index (v0 :: vs) 0) with (@Ret HistoryData.t v0). cbn [mbind go_bind].
  rewrite (go_loop_all_indices (lookup_body Num Op RV)) by (by apply HistoryData_length in H).
  destruct (lookup_loop Num Op RV (v0 :: vs) 0) as [n' ->]; [lia|]. done.
Qed.

Lemma SumFunction_Compute_fold Limit Op RV L vs :
  SafeLinkedList.HistoryData Limit L = Ret (vs, true) →
  let sum := foldl f64_add f64_zero (HistoryData.Value <$> vs) in
  SumFunction_Compute Limit Op RV L = Ret (Computed vs sum (checkIsTriggered sum Op RV) true).
Proof.
  intros H sum. unfold SumFunction_Compute, sum_values. erewrite with_history_enough by done.
  rewrite (go_foldl_all_indices (λ s v, f64_add s v.(HistoryData.Value)))
    by (by apply HistoryData_length in H).
  cbn [mbind go_bind]. subst sum. by rewrite foldl_fmap.
Qed.

Lemma AvgFunction_Compute_fold Limit Op RV L vs :
  SafeLinkedList.HistoryData Limit L = Ret (vs, true) →
  let avg := f64_div (foldl f64_add f64_zero (HistoryData.Value <$> vs)) (f64_of_Z (Z.of_nat (length vs))) in
  AvgFunction_Compute Limit Op RV L = Ret (Computed vs avg (checkIsTriggered avg Op RV) true).
Proof.
  intros H avg. unfold AvgFunction_Compute, sum_values. erewrite with_history_enough by done.
  rewrite (go_foldl_all_indices (λ s v, f64_add s v.(HistoryData.Value)))
    by (by apply HistoryData_length in H).
  cbn [mbind go_bind]. subst avg. rewrite foldl_fmap.
  by rewrite <- (HistoryData_length _ _ _ H).
Qed.

(** A loop that ends at the first element that passes a test. *)
Lemma go_loop_first {A} (f : A → float64) (P : float64 → bool) l s :
  ∃ x, go_loop (λ (_ : float64 * bool) a, Ret ((f a, P (f a)), negb (P (f a)))) (s, false) l
    = Ret (x, existsb (λ a, P (f a)) l) ∧
    (existsb (λ a, P (f a)) l = true → P x = true ∧ x ∈ f <$> l).
Proof.
  revert s. induction l as [|a l IH]; intros s; cbn [go_loop existsb]; [by exists s|].
  destruct (P (f a)) eqn:E; cbn.
  - exists (f a). split; [done|]. intros _. split; [done|]. by left.
  - destruct (IH (f a)) as (x & -> & Hx). exists x. split; [done|]. intros H.
    destruct (Hx H). split; [done|]. by right.
Qed.

Lemma DiffFunction_Compute_exists Limit Op RV L v0 vs :
  int64 Limit →
  SafeLinkedList.HistoryData (Limit +₆₄ 1) L = Ret (v0 :: vs, true) →
  let diff v := f64_sub v0.(HistoryData.Value) v.(HistoryData.Value) in
  ∃ x, DiffFunction_Compute Limit Op RV L =
      Ret (Computed (v0 :: vs) x (existsb (λ v, checkIsTriggered (diff v) Op RV) vs) true) ∧
    (existsb (λ v, checkIsTriggered (diff v) Op RV) vs = true →
       checkIsTriggered x Op RV = true ∧ x ∈ diff <$> vs).
Proof.
  intros Hl H diff. unfold DiffFunction_Compute. erewrite with_history_enough by done.
  rewrite decide_False by done.
  change (at_index (v0 :: vs) 0) with (@Ret HistoryData.t v0). cbn [mbind go_bind].
  rewrite (go_loop_tail_indices (λ (_ : float64 * bool) v,
    Ret ((diff v, checkIsTriggered (diff v) Op RV), negb (checkIsTriggered (diff v) Op RV))))
    by (by apply HistoryData_tail_length in H).
  destruct (go_loop_first diff (λ x, checkIsTriggered x Op RV) vs f64_zero) as (x & -> & Hx).
  by exists x.
Qed.

Lemma PDiffFunction_Compute_exists Limit Op RV L v0 vs :
  int64 Limit →
  SafeLinkedList.HistoryData (Limit +₆₄ 1) L = Ret (v0 :: vs, true) →
  let pdiff v := f64_mul (f64_div (f64_sub v0.(HistoryData.Value) v.(HistoryData.Value))
                            v.(HistoryData.Value)) (f64_of_Z 100) in
  let crosses v := negb (f64_eq v.(HistoryData.Value) f64_zero) && checkIsTriggered (pdiff v) Op RV in
  ∃ x, PDiffFunction_Compute Limit Op RV L =
      Ret (Computed (v0 :: vs) x (existsb crosses vs) true).
Proof.
  intros Hl H pdiff crosses. unfold PDiffFunction_Compute. erewrite with_history_enough by done.
  rewrite decide_False by done.
  change (at_index (v0 :: vs) 0) with (@Ret HistoryData.t v0). cbn [mbind go_bind].
  rewrite (go_loop_tail_indices (λ (st : float64 * bool) v,
    if f64_eq v.(HistoryData.Value) f64_zero then Ret (st, true)
    else Ret ((pdiff v, checkIsTriggered (pdiff v) Op RV), negb (checkIsTriggered (pdiff v) Op RV))))
    by (by apply HistoryData_tail_length in H).
  assert (∀ s, ∃ x, go_loop (λ (st : float64 * bool) v,
    if f64_eq v.(HistoryData.Value) f64_zero then Ret (st, true)
    else Ret ((pdiff v, checkIsTriggered (pdiff v) Op RV), negb (checkIsTriggered (pdiff v) Op RV)))
    (s, false) vs = Ret (x, existsb crosses vs)) as Hloop.
  { clear H. induction vs as [|v vs IH]; intros s; cbn [go_loop existsb]; [by exists s|].
    unfold crosses at 1. destruct (f64_eq v.(HistoryData.Value) f64_zero); cbn; [apply IH|].
    destruct (checkIsTriggered (pdiff v) Op RV); cbn; [by eexists|apply IH]. }
  destruct (Hloop f64_zero) as [x ->]. by exists x.
Qed.

(** ** The list of one metric *)

(** Newest first: the timestamps strictly decrease. *)
Definition newest_first (L : SafeLinkedList.t) : Prop :=
  StronglySorted (λ a b, b.(JudgeItem.Timestamp) < a.(JudgeItem.Timestamp)) L.

Lemma remove_back_n_take n L :
  (n <= length L)%nat → SafeLinkedList.remove_back_n n L = Ret (take (length L - n) L).
Proof.
  revert L. induction n as [|n IH]; intros L Hn; cbn.
  - by rewrite take_ge by lia.
  - destruct L as [|it L]; cbn -[take Nat.sub] in *; [lia|].
    rewrite IH by (rewrite length_take; cbn; lia).
    rewrite length_take, take_take. do 2 f_equal. cbn. lia.
Qed.

(** Is [v] newer than what is stored? *)
Definition fresher (v : JudgeItem.t) (L : SafeLinkedList.t) : bool :=
  match L with
  | [] => true
  | front :: _ =>
      (front.(JudgeItem.Timestamp) <? v.(JudgeItem.Timestamp)) && (0 <? v.(JudgeItem.Timestamp))
  end.

Lemma PushFrontAndMaintain_take v maxCount L :
  0 <= maxCount →
  SafeLinkedList.PushFrontAndMaintain v maxCount L =
    if fresher v L then Ret (take (Z.to_nat maxCount) (v :: L), true) else Ret (L, false).
Proof.
  intros Hm. unfold SafeLinkedList.PushFrontAndMaintain, SafeLinkedList.Len, SafeLinkedList.PushFront.
  assert ((match SafeLinkedList.Front L with
    | Some front => (v.(JudgeItem.Timestamp) <=? front.(JudgeItem.Timestamp)) || (v.(JudgeItem.Timestamp) <=? 0)
    | None => false end) = negb (fresher v L)) as ->.
  { destruct L as [|f L]; [done|]. cbn. rewrite negb_andb, !Z.ltb_antisym, !negb_involutive. done. }
  destruct (fresher v L); cbn [negb]; [|done].
  destruct (Z.leb_spec (Z.of_nat (length L) + 1) maxCount).
  - by rewrite take_ge by (cbn; lia).
  - rewrite remove_back_n_take by (cbn; lia). cbn [mbind go_bind]. do 3 f_equal. cbn. lia.
Qed.

Lemma newest_first_take n L : newest_first L → newest_first (take n L).
Proof.
  unfold newest_first. intros HL. revert n. induction HL as [|a L HL IH Ha]; intros [|n]; cbn;
    constructor; [apply IH|by apply Forall_take].
Qed.

Lemma newest_first_cons v L : newest_first L → fresher v L = true → newest_first (v :: L).
Proof.
  intros HL Hf. constructor; [done|]. destruct HL as [|a L HL Ha]; [done|]. cbn in Hf.
  apply andb_true_iff in Hf as [Hf%Z.ltb_lt _]. constructor; [done|].
  eapply Forall_impl; [exact Ha|]. cbn. intros. lia.
Qed.

(** ** The notation of functions *)

Definition func_notation (fn : Function) : string :=
  let mk name n := name +:+ "(#" +:+ Itoa n +:+ ")" in
  match fn with
  | MaxFunction n _ _ => mk "max" n
  | MinFunction n _ _ => mk "min" n
  | AllFunction n _ _ => mk "all" n
  | SumFunction n _ _ => mk "sum" n
  | AvgFunction n _ _ => mk "avg" n
  | DiffFunction n _ _ => mk "diff" n
  | PDiffFunction n _ _ => mk "pdiff" n
  | LookupFunction k n _ _ => "lookup(#" +:+ (Itoa k +:+ "," +:+ Itoa n) +:+ ")"
  end.

Definition func_args (fn : Function) : list Z :=
  match fn with
  | MaxFunction n _ _ | MinFunction n _ _ | AllFunction n _ _ | SumFunction n _ _
  | AvgFunction n _ _ | DiffFunction n _ _ | PDiffFunction n _ _ => [n]
  | LookupFunction k n _ _ => [k; n]
  end.

Definition func_threshold (fn : Function) : string * float64 :=
  match fn with
  | MaxFunction _ o r | MinFunction _ o r | AllFunction _ o r | SumFunction _ o r
  | AvgFunction _ o r | DiffFunction _ o r | PDiffFunction _ o r | LookupFunction _ _ o r => (o, r)
  end.

Lemma ParseFunc_form name args ns op rv :
  lacks "#" name → atois args = Ok ns →
  ParseFuncFromString (name +:+ "(#" +:+ args +:+ ")") op rv = func_of_name name ns op rv.
Proof.
  intros Hn Ha. unfold ParseFuncFromString.
  assert (index_char "#" (name +:+ "(#" +:+ args +:+ ")") = slen name + 1) as ->.
  { change (name +:+ "(#" +:+ args +:+ ")") with (name +:+ ("(" +:+ String "#" (args +:+ ")"))).
    rewrite <- app_string_assoc, index_char_app.
    - rewrite length_app_string. cbn. lia.
    - by rewrite lacks_app. }
  rewrite <- (app_string_assoc name "(#") at 1.
  rewrite (go_slice_mid (name +:+ "(#") args ")").
  2: { rewrite length_app_string. cbn. lia. }
  2: { rewrite !length_app_string. cbn. lia. }
  cbn [mbind go_bind]. rewrite Ha.
  change (name +:+ "(#" +:+ args +:+ ")") with ("" +:+ name +:+ ("(#" +:+ args +:+ ")")).
  by rewrite go_slice_mid by (cbn; lia).
Qed.

Lemma atois_one n : int64 n → atois (Itoa n) = Ok [n].
Proof.
  intros Hn. unfold atois. rewrite split_lacks by (by apply Itoa_lacks). cbn.
  by rewrite Atoi_Itoa.
Qed.

Lemma atois_two k n : int64 k → int64 n → atois (Itoa k +:+ "," +:+ Itoa n) = Ok [k; n].
Proof.
  intros Hk Hn. unfold atois. change ("," +:+ Itoa n) with (String "," (Itoa n)).
  rewrite split_app by (by apply Itoa_lacks). rewrite split_lacks by (by apply Itoa_lacks). cbn.
  rewrite Atoi_Itoa by done. cbn. by rewrite Atoi_Itoa.
Qed.

(** ** What each function needs and answers *)

(** The number of points a function asks for. *)
Definition needed (fn : Function) : Z :=
  match fn with
  | MaxFunction l _ _ | MinFunction l _ _ | AllFunction l _ _ | SumFunction l _ _
  | AvgFunction l _ _ | LookupFunction _ l _ _ => l
  | DiffFunction l _ _ | PDiffFunction l _ _ => l + 1
  end.

(** Arguments of a reasonable size. *)
Definition small_args (fn : Function) : Prop := Forall (λ n, - 2 ^ 62 <= n <= 2 ^ 62) (func_args fn).

(** When is the threshold of a function crossed, given the points [v0 :: vs]? *)
Definition crossed (fn : Function) (v0 : HistoryData.t) (vs : list HistoryData.t) : Prop :=
  let val := HistoryData.Value in
  match fn with
  | AllFunction _ o r => ∀ v, v ∈ v0 :: vs → checkIsTriggered (val v) o r = true
  | LookupFunction k _ o r => 1 <= k <= Z.of_nat (crossings o r (v0 :: vs))
  | DiffFunction _ o r => ∃ v, v ∈ vs ∧ checkIsTriggered (f64_sub (val v0) (val v)) o r = true
  | PDiffFunction _ o r => ∃ v, v ∈ vs ∧ f64_eq (val v) f64_zero = false ∧
      checkIsTriggered (f64_mul (f64_div (f64_sub (val v0) (val v)) (val v)) (f64_of_Z 100)) o r = true
  | MaxFunction _ o r =>
      checkIsTriggered (scan f64_lt (val v0) (val <$> vs)) o r = true
  | MinFunction _ o r =>
      checkIsTriggered (scan (λ a b, f64_lt b a) (val v0) (val <$> vs)) o r = true
  | SumFunction _ o r =>
      checkIsTriggered (foldl f64_add f64_zero (val <$> v0 :: vs)) o r = true
  | AvgFunction _ o r =>
      checkIsTriggered (f64_div (foldl f64_add f64_zero (val <$> v0 :: vs))
        (f64_of_Z (Z.of_nat (S (length vs))))) o r = true
  end.

Lemma forallb_elem {A} (P : A → bool) l : forallb P l = true ↔ ∀ x, x ∈ l → P x = true.
Proof. rewrite forallb_forall. by setoid_rewrite list_elem_of_In. Qed.

Lemma existsb_elem {A} (P : A → bool) l : existsb P l = true ↔ ∃ x, x ∈ l ∧ P x = true.
Proof. rewrite existsb_exists. by setoid_rewrite list_elem_of_In. Qed.

Lemma HistoryData_needed fn L :
  small_args fn → typed L →
  SafeLinkedList.HistoryData (needed fn) L =
    Ret (if (1 <=? needed fn) then take (Z.to_nat (needed fn)) (points L) else [],
         bool_decide (1 <= needed fn <= Z.of_nat (length (points L)))).
Proof.
  intros Hs Ht. destruct (Z.leb_spec 1 (needed fn)) as [H1|H1].
  - rewrite HistoryData_points; [|split; [done|]|done].
    + do 2 f_equal. apply bool_decide_ext. lia.
    + unfold small_args in Hs. destruct fn; cbn in *; rewrite ?Forall_cons in Hs; lia.
  - unfold SafeLinkedList.HistoryData. destruct (Z.ltb_spec (needed fn) 1); [|lia].
    rewrite bool_decide_eq_false_2 by lia. done.
Qed.

(** Without enough points every function gives up, untriggered. *)
Lemma Function_Compute_short fn L vs :
  small_args fn → SafeLinkedList.HistoryData (needed fn) L = Ret (vs, false) →
  Function_Compute fn L = Ret (Computed vs f64_zero false false).
Proof.
  intros Hs H. unfold small_args in Hs.
  destruct fn; cbn in Hs, H; apply Forall_cons_1 in Hs as [Hs _];
    cbn; unfold MaxFunction_Compute, MinFunction_Compute, AllFunction_Compute, SumFunction_Compute,
      AvgFunction_Compute, DiffFunction_Compute, PDiffFunction_Compute, LookupFunction_Compute,
      with_history; rewrite ?(wrap64_id (_ + 1)) by (unfold int64; lia); by rewrite H.
Qed.

(** With enough points it answers whether the threshold is crossed. *)
Lemma Function_Compute_long fn L v0 vs :
  small_args fn → SafeLinkedList.HistoryData (needed fn) L = Ret (v0 :: vs, true) →
  ∃ x b, Function_Compute fn L = Ret (Computed (v0 :: vs) x b true) ∧ (b = true ↔ crossed fn v0 vs).
Proof.
  intros Hs H. unfold small_args in Hs.
  destruct fn as [l o r|l o r|l o r|l o r|l o r|l o r|l o r|k l o r]; cbn in Hs, H; cbn.
  - rewrite (MaxFunction_Compute_scan _ _ _ _ _ _ H). by eexists _, _.
  - rewrite (MinFunction_Compute_scan _ _ _ _ _ _ H). by eexists _, _.
  - rewrite (AllFunction_Compute_forallb _ _ _ _ _ _ H). eexists _, _. split; [done|].
    apply forallb_elem.
  - rewrite (SumFunction_Compute_fold _ _ _ _ _ H). by eexists _, _.
  - rewrite (AvgFunction_Compute_fold _ _ _ _ _ H). by eexists _, _.
  - apply Forall_cons_1 in Hs as [Hs _].
    destruct (DiffFunction_Compute_exists l o r L v0 vs) as (x & -> & _);
      [unfold int64; lia|by rewrite wrap64_id by (unfold int64; lia)|].
    eexists _, _. split; [done|]. apply existsb_elem.
  - apply Forall_cons_1 in Hs as [Hs _].
    destruct (PDiffFunction_Compute_exists l o r L v0 vs) as (x & ->);
      [unfold int64; lia|by rewrite wrap64_id by (unfold int64; lia)|].
    eexists _, _. split; [done|]. rewrite existsb_elem.
    setoid_rewrite andb_true_iff. setoid_rewrite negb_true_iff. done.
  - rewrite (LookupFunction_Compute_count _ _ _ _ _ _ _ H). eexists _, _. split; [done|].
    apply bool_decide_eq_true.
Qed.

(** ** Properties *)

(** [HistoryData] answers the newest [limit] values of a metric, newest
first - the raw values of a gauge, the rates between neighbours otherwise - and
says truthfully whether there were that many. *)
Theorem HistoryData_correct limit L :
  1 <= limit < 2 ^ 63 - 1 → typed L →
  SafeLinkedList.HistoryData limit L =
    Ret (take (Z.to_nat limit) (points L), bool_decide (limit <= Z.of_nat (length (points L)))).
Proof. apply HistoryData_points. Qed.

Definition ex_item (v ts : Z) : JudgeItem.t :=
  JudgeItem.mk "host" "cpu" (f64_of_Z v) ts "GAUGE" ∅.

Example HistoryData_correct_witness :
  SafeLinkedList.HistoryData 3 [ex_item 5 120; ex_item 4 60] =
    Ret ([HistoryData.mk 120 (f64_of_Z 5); HistoryData.mk 60 (f64_of_Z 4)], false).
Proof.
  etransitivity.
  - apply (HistoryData_correct 3); [lia|]. repeat constructor; discriminate.
  - vm_compute. reflexivity.
Defined.

(** A point enters the list of its metric exactly when it is newer than
the newest one stored; the list then stays sorted newest first and never holds
more than [maxCount] points, and a refused point leaves it as it was. *)
Theorem PushFrontAndMaintain_correct v maxCount L :
  0 <= maxCount → newest_first L → Z.of_nat (length L) <= maxCount →
  ∃ L' needJudge,
    SafeLinkedList.PushFrontAndMaintain v maxCount L = Ret (L', needJudge) ∧
    newest_first L' ∧ Z.of_nat (length L') <= maxCount ∧
    needJudge = fresher v L ∧
    L' = if needJudge then take (Z.to_nat maxCount) (v :: L) else L.
Proof.
  intros Hm HL Hlen. rewrite PushFrontAndMaintain_take by done.
  destruct (fresher v L) eqn:Hf; eexists _, _; (split; [done|]); split_and!; try done.
  - by apply newest_first_take, newest_first_cons.
  - rewrite length_take. lia.
Qed.

Example PushFrontAndMaintain_correct_witness :
  ∃ L' needJudge,
    SafeLinkedList.PushFrontAndMaintain (ex_item 6 180) 2 [ex_item 5 120; ex_item 4 60] = Ret (L', needJudge) ∧
    newest_first L' ∧ Z.of_nat (length L') <= 2 ∧ needJudge = true ∧
    L' = [ex_item 6 180; ex_item 5 120].
Proof.
  destruct (PushFrontAndMaintain_correct (ex_item 6 180) 2 [ex_item 5 120; ex_item 4 60])
    as (L' & b & H1 & H2 & H3 & H4 & H5).
  - lia.
  - repeat constructor.
  - cbn. lia.
  - exists L', b. assert (b = true) as Hb by (rewrite H4; reflexivity).
    split_and!; [done..|]. rewrite H5, Hb. reflexivity.
Defined.

(** C35. Every judging function runs without a panic.  It has enough points
exactly when the metric holds as many as it asks for, it is not triggered
otherwise, and with enough points it is triggered exactly when its threshold is
crossed: by all the points, by at least [Num] of them, by a difference to a
historical point, or by their extremum, sum or average. *)
Theorem Function_Compute_correct fn L :
  small_args fn → typed L →
  ∃ r, Function_Compute fn L = Ret r ∧
    isEnough r = bool_decide (1 <= needed fn <= Z.of_nat (length (points L))) ∧
    (isEnough r = false → isTriggered r = false) ∧
    (isEnough r = true → ∃ v0 l,
      v0 :: l = take (Z.to_nat (needed fn)) (points L) ∧ vs r = v0 :: l ∧
      (isTriggered r = true ↔ crossed fn v0 l)).
Proof.
  intros Hs Ht. pose proof (HistoryData_needed fn L Hs Ht) as H.
  case_bool_decide as Hn.
  - destruct (Z.leb_spec 1 (needed fn)); [|lia].
    destruct (take (Z.to_nat (needed fn)) (points L)) as [|v0 l] eqn:E.
    { apply (f_equal length) in E. rewrite length_take in E. cbn in E. lia. }
    destruct (Function_Compute_long fn L v0 l Hs H) as (x & b & -> & Hb).
    eexists. split; [done|]. cbn. split_and!; [done..|]. intros _. by exists v0, l.
  - erewrite Function_Compute_short by done. eexists. split; [done|]. done.
Qed.

Example Function_Compute_correct_witness :
  ∃ r, Function_Compute (LookupFunction 2 3 ">" (f64_of_Z 3)) [ex_item 5 180; ex_item 1 120; ex_item 4 60] = Ret r ∧
    isEnough r = true ∧ isTriggered r = true.
Proof.
  destruct (Function_Compute_correct (LookupFunction 2 3 ">" (f64_of_Z 3))
    [ex_item 5 180; ex_item 1 120; ex_item 4 60]) as (r & H1 & H2 & _ & H4).
  - unfold small_args. cbn. repeat constructor; lia.
  - repeat constructor; discriminate.
  - exists r. assert (isEnough r = true) as E by (rewrite H2; vm_compute; reflexivity).
    split_and!; [done..|]. destruct (H4 E) as (v0 & l & Hl & _ & Ht).
    vm_compute in Hl. apply Ht. injection Hl as -> ->. vm_compute. done.
Defined.

(** The left value of [max] (of [min]) is one of the points and no point
exceeds it (falls below it), when no point is a NaN. *)
Theorem extrema_correct Limit Op RV L v0 vs :
  SafeLinkedList.HistoryData Limit L = Ret (v0 :: vs, true) →
  Forall is_num (HistoryData.Value <$> v0 :: vs) →
  (∃ m, MaxFunction_Compute Limit Op RV L = Ret (Computed (v0 :: vs) m (checkIsTriggered m Op RV) true) ∧
    m ∈ HistoryData.Value <$> v0 :: vs ∧
    Forall (λ v, f64_le v m = true) (HistoryData.Value <$> v0 :: vs)) ∧
  (∃ m, MinFunction_Compute Limit Op RV L = Ret (Computed (v0 :: vs) m (checkIsTriggered m Op RV) true) ∧
    m ∈ HistoryData.Value <$> v0 :: vs ∧
    Forall (λ v, f64_le m v = true) (HistoryData.Value <$> v0 :: vs)).
Proof.
  intros H HN. rewrite (MaxFunction_Compute_scan _ _ _ _ _ _ H), (MinFunction_Compute_scan _ _ _ _ _ _ H).
  cbn [fmap list_fmap] in *. split; eexists; (split; [done|]); (split; [apply scan_elem|]).
  - by apply scan_max.
  - by apply scan_min.
Qed.

Example extrema_correct_witness :
  ∃ m, MaxFunction_Compute 2 ">" (f64_of_Z 3) [ex_item 5 180; ex_item 7 120] =
    Ret (Computed [HistoryData.mk 180 (f64_of_Z 5); HistoryData.mk 120 (f64_of_Z 7)] m
      (checkIsTriggered m ">" (f64_of_Z 3)) true) ∧ f64_le (f64_of_Z 7) m = true.
Proof.
  destruct (extrema_correct 2 ">" (f64_of_Z 3) [ex_item 5 180; ex_item 7 120]
    (HistoryData.mk 180 (f64_of_Z 5)) [HistoryData.mk 120 (f64_of_Z 7)]) as [(m & H1 & _ & H2) _].
  - vm_compute. reflexivity.
  - repeat constructor.
  - exists m. split; [exact H1|]. rewrite Forall_forall in H2. apply H2. right. left.
Defined.

(** [ParseFuncFromString] reads back the notation of every function,
whatever its (64-bit) arguments. *)
Theorem ParseFuncFromString_notation fn :
  Forall int64 (func_args fn) →
  ParseFuncFromString (func_notation fn) (func_threshold fn).1 (func_threshold fn).2 = Ret (Ok fn).
Proof.
  intros Ha. destruct fn; cbn in *; rewrite ?Forall_cons in Ha.
  8: rewrite (ParseFunc_form "lookup" (Itoa Num +:+ "," +:+ Itoa Limit) [Num; Limit]);
       [done|done|apply atois_two; tauto].
  1: rewrite (ParseFunc_form "max" (Itoa Limit) [Limit]); [done|done|apply atois_one; tauto].
  1: rewrite (ParseFunc_form "min" (Itoa Limit) [Limit]); [done|done|apply atois_one; tauto].
  1: rewrite (ParseFunc_form "all" (Itoa Limit) [Limit]); [done|done|apply atois_one; tauto].
  1: rewrite (ParseFunc_form "sum" (Itoa Limit) [Limit]); [done|done|apply atois_one; tauto].
  1: rewrite (ParseFunc_form "avg" (Itoa Limit) [Limit]); [done|done|apply atois_one; tauto].
  1: rewrite (ParseFunc_form "diff" (Itoa Limit) [Limit]); [done|done|apply atois_one; tauto].
  1: rewrite (ParseFunc_form "pdiff" (Itoa Limit) [Limit]); [done|done|apply atois_one; tauto].
Qed.

Example ParseFuncFromString_notation_witness :
  ParseFuncFromString "lookup(#2,3)" "<" f64_zero = Ret (Ok (LookupFunction 2 3 "<" f64_zero)).
Proof.
  apply (ParseFuncFromString_notation (LookupFunction 2 3 "<" f64_zero)).
  repeat constructor; unfold int64; lia.
Defined.
