(* ===== verification/JudgeEngine.v ===== *)
(** * Judge: matching, judging and alarming

modules/judge/store/judge.go and history.go, modules/judge/g/var.go,
modules/judge/cron/{strategy,cleaner}.go and modules/judge/rpc/receiver.go: the
global maps of the process, the judgement of an arriving point against the
strategies and expressions that concern it, and the events that come out.

The state is explicit: [state] holds the package variables.  Redis is an
external service; what the code does to it is the sequence of its commands, so
the state ends with the log of the [LPUSH] commands issued, oldest first, the
payload being the event that [json.Marshal] encodes. *)

From S2P Require Import Prelude GoFloat GoString Hash Tags Model JudgeStore.
From Stdlib Require Import Ascii.
From stdpp Require Import options.

(** ** State *)

Module JudgeItemMap.
Abbreviation t := (gmap string SafeLinkedList.t).

Definition New : t := ∅.
Definition Get (key : string) (this : t) : option SafeLinkedList.t := this !! key.
Definition Set_ (key : string) (val : SafeLinkedList.t) (this : t) : t := <[key := val]> this.
Definition Len (this : t) : nat := size this.
Definition Delete (key : string) (this : t) : t := delete key this.
Definition BatchDelete (keys : list string) (this : t) : t := foldl (λ M k, delete k M) this keys.

(** The read-locked part of [CleanStale]; [kvs] is the order of the visit. *)
Definition stale_keys (before : Z) (kvs : list (string * SafeLinkedList.t)) : list string :=
  foldl (λ keys kv,
    match SafeLinkedList.Front kv.2 with
    | None => keys
    | Some front =>
        if front.(JudgeItem.Timestamp) <? before then keys ++ [kv.1] else keys
    end) [] kvs.

Definition CleanStale (before : Z) (kvs : list (string * SafeLinkedList.t)) (this : t) : t :=
  BatchDelete (stale_keys before kvs) this.
End JudgeItemMap.

(** The part of the configuration that judging reads; [QueuePattern] is the
format of the configuration file applied to a priority. *)
Record config : Type := Config {
  Remain : Z; MinInterval : Z; QueuePattern : Z → string }.

Record state : Type := State {
  StrategyMap : gmap string (list Strategy.t);
  ExpressionMap : gmap string (list Expression.t);
  LastEvents : gmap string Event.t;
  HistoryBigMap : gmap string JudgeItemMap.t;
  redis : list (string * Event.t) }.

Definition set_LastEvents (m : gmap string Event.t) (st : state) : state :=
  State st.(StrategyMap) st.(ExpressionMap) m st.(HistoryBigMap) st.(redis).
Definition set_HistoryBigMap (m : gmap string JudgeItemMap.t) (st : state) : state :=
  State st.(StrategyMap) st.(ExpressionMap) st.(LastEvents) m st.(redis).
Definition set_StrategyMap (m : gmap string (list Strategy.t)) (st : state) : state :=
  State m st.(ExpressionMap) st.(LastEvents) st.(HistoryBigMap) st.(redis).
Definition set_ExpressionMap (m : gmap string (list Expression.t)) (st : state) : state :=
  State st.(StrategyMap) m st.(LastEvents) st.(HistoryBigMap) st.(redis).
Definition lpush (queue : string) (e : Event.t) (st : state) : state :=
  State st.(StrategyMap) st.(ExpressionMap) st.(LastEvents) st.(HistoryBigMap)
    (st.(redis) ++ [(queue, e)]).

(** [InitHistoryBigMap] *)
Definition hex_strings : list string := (λ c, String c "") <$> hex_chars.
Definition history_keys : list string := i ← hex_strings; (λ j, i +:+ j) <$> hex_strings.
Definition InitHistoryBigMap : gmap string JudgeItemMap.t :=
  assign_all ((λ k, (k, JudgeItemMap.New)) <$> history_keys) ∅.

(** ** Events *)

(** [json.Marshal] of an event fails on a float that is not finite. *)
Definition marshalable (e : Event.t) : bool :=
  f64_is_finite e.(Event.LeftValue)
  && match e.(Event.Strategy) with Some s => f64_is_finite s.(Strategy.RightValue) | None => true end
  && match e.(Event.Expression) with Some x => f64_is_finite x.(Expression.RightValue) | None => true end.

Definition sendEvent (cfg : config) (event : Event.t) (st : state) : go state :=
  (* update last event *)
  let st := set_LastEvents (<[event.(Event.Id) := event]> st.(LastEvents)) st in
  if negb (marshalable event) then Ret st
  else
    (* send to redis *)
    p ← Event.Priority event;
    Ret (lpush (cfg.(QueuePattern) p) event st).

(** [s[0]] *)
Definition first_byte (s : string) : go ascii :=
  match s with String c _ => Ret c | "" => Panic IndexOutOfRange end.

Definition sendEventIfNeed (cfg : config) (historyData : list HistoryData.t) (isTriggered : bool)
    (now : Z) (event : Event.t) (maxStep : Z) (st : state) : go state :=
  let lastEvent := st.(LastEvents) !! event.(Event.Id) in
  let last_is (c : ascii) : go bool :=
    match lastEvent with
    | None => Ret false
    | Some l => b ← first_byte l.(Event.Status); Ret (bool_decide (b = c))
    end in
  if isTriggered then
    let event := Event.set_Status "PROBLEM" event in
    last_ok ← last_is "O"%char;
    match (if last_ok : bool then None else lastEvent) with
    | None =>
        let event := Event.set_CurrentStep 1 event in
        if decide (maxStep = 0) then Ret st else sendEvent cfg event st
    | Some lastEvent =>
        if maxStep <=? lastEvent.(Event.CurrentStep) then Ret st
        else
          oldest ← at_index historyData (Z.of_nat (length historyData) - 1);
          if oldest.(HistoryData.Timestamp) <=? lastEvent.(Event.EventTime) then Ret st
          else if now -₆₄ lastEvent.(Event.EventTime) <? cfg.(MinInterval) then Ret st
          else sendEvent cfg (Event.set_CurrentStep (lastEvent.(Event.CurrentStep) +₆₄ 1) event) st
    end
  else
    last_problem ← last_is "P"%char;
    if (last_problem : bool) then
      sendEvent cfg (Event.set_CurrentStep 1 (Event.set_Status "OK" event)) st
    else Ret st.

(** ** Judging a point *)

(** Does [tags] hold of the item's tags?  The order of the visit is immaterial:
the loop has no effect but its verdict. *)
Definition related (tags itemTags : tagmap) : bool :=
  forallb (λ kv, bool_decide (itemTags !! kv.1 = Some kv.2)) (map_to_list tags).

Definition judgeItemWithStrategy (cfg : config) (L : SafeLinkedList.t) (strategy : Strategy.t)
    (firstItem : JudgeItem.t) (now : Z) (st : state) : go state :=
  fn ← ParseFuncFromString strategy.(Strategy.Func) strategy.(Strategy.Operator) strategy.(Strategy.RightValue);
  match fn with
  | Err _ => Ret st
  | Ok fn =>
      r ← Function_Compute fn L;
      if negb r.(isEnough) then Ret st
      else
        let event := Event.mk
          ("s_" +:+ Itoa strategy.(Strategy.Id) +:+ "_" +:+ JudgeItem.PrimaryKey firstItem)
          (Some strategy) None "" firstItem.(JudgeItem.Endpoint) r.(leftValue) 0
          firstItem.(JudgeItem.Timestamp) firstItem.(JudgeItem.Tags) in
        sendEventIfNeed cfg r.(vs) r.(isTriggered) now event strategy.(Strategy.MaxStep) st
  end.

Definition judgeItemWithExpression (cfg : config) (L : SafeLinkedList.t) (expression : Expression.t)
    (firstItem : JudgeItem.t) (now : Z) (st : state) : go state :=
  fn ← ParseFuncFromString expression.(Expression.Func) expression.(Expression.Operator)
         expression.(Expression.RightValue);
  match fn with
  | Err _ => Ret st
  | Ok fn =>
      r ← Function_Compute fn L;
      if negb r.(isEnough) then Ret st
      else
        let event := Event.mk
          ("e_" +:+ Itoa expression.(Expression.Id) +:+ "_" +:+ JudgeItem.PrimaryKey firstItem)
          None (Some expression) "" firstItem.(JudgeItem.Endpoint) r.(leftValue) 0
          firstItem.(JudgeItem.Timestamp) firstItem.(JudgeItem.Tags) in
        sendEventIfNeed cfg r.(vs) r.(isTriggered) now event expression.(Expression.MaxStep) st
  end.

Definition CheckStrategy (cfg : config) (L : SafeLinkedList.t) (firstItem : JudgeItem.t) (now : Z)
    (st : state) : go state :=
  let key := firstItem.(JudgeItem.Endpoint) +:+ "/" +:+ firstItem.(JudgeItem.Metric) in
  match st.(StrategyMap) !! key with
  | None => Ret st
  | Some strategies =>
      go_foldl (λ st s,
        if negb (related s.(Strategy.Tags) firstItem.(JudgeItem.Tags)) then Ret st
        else judgeItemWithStrategy cfg L s firstItem now st) st strategies
  end.

(** [buildKeysFromMetricAndTags]; [kvs] is the order in which the item's tags are visited. *)
Definition buildKeysFromMetricAndTags (kvs : list (string * string)) (item : JudgeItem.t) : list string :=
  ((λ kv, item.(JudgeItem.Metric) +:+ "/" +:+ kv.1 +:+ "=" +:+ kv.2) <$> kvs)
  ++ [item.(JudgeItem.Metric) +:+ "/endpoint=" +:+ item.(JudgeItem.Endpoint)].

Definition copyItemTags (item : JudgeItem.t) : tagmap :=
  item.(JudgeItem.Tags) ∪ {["endpoint" := item.(JudgeItem.Endpoint)]}.

Definition filterRelatedExpressions (expressions : list Expression.t) (firstItem : JudgeItem.t) :
    list Expression.t :=
  List.filter (λ exp,
    let itemTagsCopy :=
      match exp.(Expression.Tags) !! "endpoint" with
      | Some _ => copyItemTags firstItem
      | None => firstItem.(JudgeItem.Tags)
      end in
    related exp.(Expression.Tags) itemTagsCopy) expressions.

(** The body of the inner loop of [CheckExpression]: an expression that was
handled for this point is not handled again. *)
Definition handle_expression (cfg : config) (L : SafeLinkedList.t) (firstItem : JudgeItem.t) (now : Z)
    (hs : gset Z * state) (exp : Expression.t) : go (gset Z * state) :=
  let '(handledExpression, st) := hs in
  if decide (exp.(Expression.Id) ∈ handledExpression) then Ret hs
  else
    st ← judgeItemWithExpression cfg L exp firstItem now st;
    Ret ({[exp.(Expression.Id)]} ∪ handledExpression, st).

(** [CheckExpression]; [kvs] as above. *)
Definition CheckExpression (cfg : config) (kvs : list (string * string)) (L : SafeLinkedList.t)
    (firstItem : JudgeItem.t) (now : Z) (st : state) : go state :=
  let keys := buildKeysFromMetricAndTags kvs firstItem in
  if decide (length keys = 0%nat) then Ret st
  else
    let expressionMap := st.(ExpressionMap) in
    hs ← go_foldl (λ hs key,
      match expressionMap !! key with
      | None => Ret hs
      | Some expressions =>
          go_foldl (handle_expression cfg L firstItem now) hs
            (filterRelatedExpressions expressions firstItem)
      end) (∅, st) keys;
    Ret (hs : gset Z * state).2.

Definition Judge (cfg : config) (kvs : list (string * string)) (L : SafeLinkedList.t)
    (firstItem : JudgeItem.t) (now : Z) (st : state) : go state :=
  st ← CheckStrategy cfg L firstItem now st;
  CheckExpression cfg kvs L firstItem now st.

(** ** Receiving points *)

(** [JudgeItemMap.PushFrontAndMaintain] of the shard [shard] of [HistoryBigMap]. *)
Definition PushFrontAndMaintain (cfg : config) (kvs : list (string * string)) (shard key : string)
    (val : JudgeItem.t) (maxCount now : Z) (st : state) : go state :=
  M ← deref (st.(HistoryBigMap) !! shard);
  match JudgeItemMap.Get key M with
  | Some linkedList =>
      r ← SafeLinkedList.PushFrontAndMaintain val maxCount linkedList;
      let '(linkedList, needJudge) := r : SafeLinkedList.t * bool in
      let st := set_HistoryBigMap (<[shard := JudgeItemMap.Set_ key linkedList M]> st.(HistoryBigMap)) st in
      if needJudge then Judge cfg kvs linkedList val now st else Ret st
  | None =>
      let safeList := SafeLinkedList.PushFront val [] in
      let st := set_HistoryBigMap (<[shard := JudgeItemMap.Set_ key safeList M]> st.(HistoryBigMap)) st in
      Judge cfg kvs safeList val now st
  end.

(** The body of the loop of [Judge.Send]; an item may be nil, and each comes
with the order in which its tags are visited. *)
Definition send_item (cfg : config) (now : Z) (st : state)
    (it : option JudgeItem.t * list (string * string)) : go state :=
  item ← deref it.1;
  let pk := JudgeItem.PrimaryKey item in
  shard ← go_slice pk 0 2;
  PushFrontAndMaintain cfg it.2 shard pk item cfg.(Remain) now st.

Definition Send (cfg : config) (items : list (option JudgeItem.t * list (string * string))) (now : Z)
    (st : state) : go state :=
  go_foldl (send_item cfg now) st items.

(** ** Synchronisation with the heartbeat server *)

Definition rebuildStrategyMap (HostStrategies : list HostStrategy.t) (st : state) : state :=
  let m := group_by (hs ← HostStrategies;
    (λ strategy, (hs.(HostStrategy.Hostname) +:+ "/" +:+ strategy.(Strategy.Metric), strategy))
      <$> hs.(HostStrategy.Strategies)) ∅ in
  set_StrategyMap m st.

(** [syncStrategies]; the answer of the remote call is an argument. *)
Definition syncStrategies (reply : result (list HostStrategy.t)) (st : state) : state :=
  match reply with Err _ => st | Ok strategiesResponse => rebuildStrategyMap strategiesResponse st end.

(** The keys under which an expression is filed; [kvs] visits its tags. *)
Definition expression_keys (exp : Expression.t) (kvs : list (string * string)) : list string :=
  (λ kv, exp.(Expression.Metric) +:+ "/" +:+ kv.1 +:+ "=" +:+ kv.2) <$> kvs.

(** [rebuildExpressionMap]; each expression comes with the order of the visit of its tags. *)
Definition rebuildExpressionMap (Expressions : list (Expression.t * list (string * string))) (st : state) :
    state :=
  let m := group_by (e ← Expressions; (λ key, (key, e.1)) <$> expression_keys e.1 e.2) ∅ in
  set_ExpressionMap m st.

Definition syncExpression (reply : result (list (Expression.t * list (string * string)))) (st : state) : state :=
  match reply with Err _ => st | Ok expressionResponse => rebuildExpressionMap expressionResponse st end.

(** [cleanStale] of the cron: every shard in turn; [visit] is the order in
which a shard is visited. *)
Definition cleanStale (now : Z) (visit : JudgeItemMap.t → list (string * SafeLinkedList.t)) (st : state) :
    go state :=
  let before := now -₆₄ 3600 * 24 * 7 in
  go_foldl (λ st k,
    M ← deref (st.(HistoryBigMap) !! k);
    Ret (set_HistoryBigMap (<[k := JudgeItemMap.CleanStale before (visit M) M]> st.(HistoryBigMap)) st))
    st history_keys.
