(* ===== verification/JudgeSafety.v ===== *)
(** * Judge: alarms

The theorems on modules/judge/store/judge.go.  [alarm_step] is the abstract
automaton of one alarm (clear, or alerting with a step and the time of the last
event) that [sendEventIfNeed] implements; [follows] is the order in which the
events of one alarm may leave the process, and holds in every reachable state
of the process; [state_ok] is the invariant under which no item makes the
process panic. *)

From S2P Require Import Prelude GoFloat GoString Hash Tags Model JudgeStore JudgeEngine.
From Stdlib Require Import Ascii.
From stdpp Require Import options.

(** ** The abstract alarm *)

Inductive alarm : Set :=
| Clear
| Alerting (step at_ : Z).

Definition alarm_of (last : option Event.t) : alarm :=
  match last with
  | Some e =>
      if decide (e.(Event.Status) = "PROBLEM") then Alerting e.(Event.CurrentStep) e.(Event.EventTime)
      else Clear
  | None => Clear
  end.

(** One judgement made at [now] of points the oldest of which dates from
[oldest]: the alarm that follows, and the status and step of the event that is
raised, if one is. *)
Definition alarm_step (minInterval maxStep now oldest eventTime : Z) (triggered : bool) (a : alarm) :
    alarm * option (string * Z) :=
  match a, triggered with
  | Clear, true =>
      if decide (maxStep = 0) then (Clear, None) else (Alerting 1 eventTime, Some ("PROBLEM", 1))
  | Alerting k t, true =>
      if decide (k < maxStep ∧ t < oldest ∧ minInterval <= now -₆₄ t) then
        (Alerting (k + 1) eventTime, Some ("PROBLEM", k + 1))
      else (Alerting k t, None)
  | Clear, false => (Clear, None)
  | Alerting _ _, false => (Clear, Some ("OK", 1))
  end.

(** What holds of an event that was sent. *)
Definition sent_ok (id : string) (e : Event.t) : Prop :=
  (e.(Event.Status) = "PROBLEM" ∨ e.(Event.Status) = "OK") ∧ 1 <= e.(Event.CurrentStep) ∧ e.(Event.Id) = id.

(** The effect of sending an event of priority [p]. *)
Definition emit (cfg : config) (p : Z) (e : Event.t) (st : state) : state :=
  let st := set_LastEvents (<[e.(Event.Id) := e]> st.(LastEvents)) st in
  if marshalable e then lpush (cfg.(QueuePattern) p) e st else st.

Definition stamp (s : string) (k : Z) (e : Event.t) : Event.t :=
  Event.set_CurrentStep k (Event.set_Status s e).

Lemma sendEvent_emit cfg e p st :
  Event.Priority e = Ret p → sendEvent cfg e st = Ret (emit cfg p e st).
Proof. intros Hp. unfold sendEvent, emit. destruct (marshalable e); cbn; [by rewrite Hp|done]. Qed.

Lemma at_index_last {A} (l : list A) x :
  last l = Some x → at_index l (Z.of_nat (length l) - 1) = Ret x.
Proof.
  intros Hl. rewrite last_lookup in Hl. apply at_index_Ret.
  assert (length l ≠ 0%nat) by (by destruct l).
  split; [lia|]. by replace (Z.to_nat (Z.of_nat (length l) - 1)) with (pred (length l)) by lia.
Qed.

(** [sendEventIfNeed] takes the step of the abstract alarm. *)
Lemma sendEventIfNeed_step cfg vs oldest triggered now e maxStep p st :
  map_Forall sent_ok st.(LastEvents) →
  last vs = Some oldest → Event.Priority e = Ret p → int64 maxStep →
  sendEventIfNeed cfg vs triggered now e maxStep st =
    Ret match (alarm_step cfg.(MinInterval) maxStep now oldest.(HistoryData.Timestamp)
        e.(Event.EventTime) triggered (alarm_of (st.(LastEvents) !! e.(Event.Id)))).2 with
    | Some (s, k) => emit cfg p (stamp s k e) st
    | None => st
    end.
Proof.
  intros Hok Hl Hp HM. unfold sendEventIfNeed.
  destruct (LastEvents st !! Event.Id e) as [l|] eqn:El; cbn [alarm_of].
  - pose proof (Hok _ _ El) as (Hs & Hk & _).
    destruct Hs as [Hs|Hs]; rewrite Hs; cbn; bool_decide_closed;
      [rewrite (decide_True (P := "PROBLEM" = "PROBLEM")) by done
      |rewrite (decide_False (P := "OK" = "PROBLEM")) by done]; cbn.
    + destruct triggered; cbn.
      * destruct (Z.leb_spec maxStep (Event.CurrentStep l)).
        { rewrite decide_False by lia. done. }
        rewrite at_index_last with (x := oldest) by done. cbn.
        destruct (Z.leb_spec (HistoryData.Timestamp oldest) (Event.EventTime l)).
        { rewrite decide_False by lia. done. }
        destruct (Z.ltb_spec (now -₆₄ Event.EventTime l) (MinInterval cfg)).
        { rewrite decide_False by lia. done. }
        rewrite decide_True by lia. rewrite wrap64_id by (unfold int64 in *; lia).
        by rewrite (sendEvent_emit _ _ p).
      * by rewrite (sendEvent_emit _ _ p).
    + destruct triggered; cbn; [|done]. case_decide; [done|]. by rewrite (sendEvent_emit _ _ p).
  - destruct triggered; cbn; [|done]. case_decide; [done|]. by rewrite (sendEvent_emit _ _ p).
Qed.

Lemma emit_LastEvents cfg p e st : (emit cfg p e st).(LastEvents) = <[e.(Event.Id) := e]> st.(LastEvents).
Proof. unfold emit. by destruct (marshalable e). Qed.

Lemma emit_others cfg p e st :
  (emit cfg p e st).(StrategyMap) = st.(StrategyMap) ∧
  (emit cfg p e st).(ExpressionMap) = st.(ExpressionMap) ∧
  (emit cfg p e st).(HistoryBigMap) = st.(HistoryBigMap).
Proof. unfold emit. by destruct (marshalable e). Qed.

Lemma emit_redis cfg p e st :
  (emit cfg p e st).(redis) = st.(redis) ++ if marshalable e then [(cfg.(QueuePattern) p, e)] else [].
Proof. unfold emit. destruct (marshalable e); cbn; [done|by rewrite app_nil_r]. Qed.

(** An event that an alarm raises. *)
Lemma alarm_step_sent mi M now o t b a s k :
  (alarm_step mi M now o t b a).2 = Some (s, k) →
  match a with Alerting j _ => 1 <= j | Clear => True end →
  (s = "PROBLEM" ∨ s = "OK") ∧ 1 <= k ∧
  (alarm_step mi M now o t b a).1 = if decide (s = "PROBLEM") then Alerting k t else Clear.
Proof.
  intros H Ha. unfold alarm_step in *. destruct a, b; repeat case_decide; simplify_eq/=; split_and!; auto; lia.
Qed.

Lemma alarm_step_silent mi M now o t b a :
  (alarm_step mi M now o t b a).2 = None → (alarm_step mi M now o t b a).1 = a.
Proof. unfold alarm_step. destruct a, b; repeat case_decide; done. Qed.

Lemma alarm_of_step (m : gmap string Event.t) id :
  map_Forall sent_ok m → match alarm_of (m !! id) with Alerting j _ => 1 <= j | Clear => True end.
Proof.
  intros Hok. destruct (m !! id) as [l|] eqn:El; cbn; [|done].
  case_decide; [|done]. by apply (Hok _ _ El).
Qed.

(** C17. [sendEventIfNeed] implements the abstract alarm of the event's id: it
never panics, moves that alarm as [alarm_step] says and no other, and pushes to
the queue of the event's priority exactly the event the alarm raises, unless a
value of it cannot be encoded. *)
Theorem sendEventIfNeed_refines_alarm cfg vs oldest triggered now e maxStep p st :
  map_Forall sent_ok st.(LastEvents) →
  last vs = Some oldest → Event.Priority e = Ret p → int64 maxStep →
  let step := alarm_step cfg.(MinInterval) maxStep now oldest.(HistoryData.Timestamp)
    e.(Event.EventTime) triggered (alarm_of (st.(LastEvents) !! e.(Event.Id))) in
  ∃ st', sendEventIfNeed cfg vs triggered now e maxStep st = Ret st' ∧
    map_Forall sent_ok st'.(LastEvents) ∧
    alarm_of (st'.(LastEvents) !! e.(Event.Id)) = step.1 ∧
    (∀ id, id ≠ e.(Event.Id) → st'.(LastEvents) !! id = st.(LastEvents) !! id) ∧
    st'.(redis) = st.(redis) ++
      match step.2 with
      | Some (s, k) => if marshalable e then [(cfg.(QueuePattern) p, stamp s k e)] else []
      | None => []
      end.
Proof.
  intros Hok Hl Hp HM step. erewrite sendEventIfNeed_step by done. eexists. split; [done|].
  fold step. pose proof (alarm_of_step _ (Event.Id e) Hok) as Ha.
  destruct step.2 as [[s k]|] eqn:Es.
  - destruct (alarm_step_sent _ _ _ _ _ _ _ _ _ Es Ha) as (Hs & Hk & Hst).
    rewrite emit_LastEvents, emit_redis. split_and!.
    + apply map_Forall_insert_2; [|done]. done.
    + cbn. rewrite lookup_insert_eq. cbn. fold step in Hst. by rewrite Hst.
    + intros id Hid. cbn. by rewrite lookup_insert_ne.
    + done.
  - rewrite app_nil_r. split_and!; try done. symmetry. by apply alarm_step_silent.
Qed.

(** ** The events of one alarm *)

(** The event [e] may follow the last event of its alarm. *)
Definition follows (prev : option Event.t) (e : Event.t) : Prop :=
  match alarm_of prev with
  | Clear =>
      e.(Event.Status) = "PROBLEM" ∧ e.(Event.CurrentStep) = 1 ∧ Event.MaxStep e ≠ Ret 0
  | Alerting k t =>
      (e.(Event.Status) = "PROBLEM" ∧ e.(Event.CurrentStep) = k + 1 ∧ t < e.(Event.EventTime) ∧
        ∃ M, Event.MaxStep e = Ret M ∧ e.(Event.CurrentStep) <= M) ∨
      (e.(Event.Status) = "OK" ∧ e.(Event.CurrentStep) = 1)
  end.

(** The events raised for [id], oldest first. *)
Inductive alarm_history (id : string) : list Event.t → Prop :=
| alarm_history_nil : alarm_history id []
| alarm_history_snoc h e :
    alarm_history id h → e.(Event.Id) = id → follows (last h) e → alarm_history id (h ++ [e]).

(** The events of [id] in a log of commands. *)
Definition events_of (id : string) (log : list (string * Event.t)) : list Event.t :=
  filter (λ e, e.(Event.Id) = id) log.*2.

(** What redis received of each alarm is a legal history of it, but for the
events that could not be encoded, and [LastEvents] holds its last event. *)
Definition alarms_ok (st : state) : Prop :=
  ∀ id, ∃ h, alarm_history id h ∧ last h = st.(LastEvents) !! id ∧
    events_of id st.(redis) = List.filter marshalable h.

Lemma alarm_history_sent_ok id h e : alarm_history id h → last h = Some e → sent_ok id e.
Proof.
  intros Hh. revert e. induction Hh as [|h e Hh IH Hid Hf]; intros e' He; [done|].
  rewrite last_snoc in He. simplify_eq. unfold follows in Hf.
  destruct (alarm_of (last h)) as [|k t] eqn:Ea.
  - destruct Hf as (Hs & Hk & _). unfold sent_ok. rewrite Hk. split_and!; auto; lia.
  - destruct Hf as [(Hs & Hk & _)|(Hs & Hk)]; unfold sent_ok; rewrite Hk; split_and!; auto; [|lia].
    destruct (last h) as [l|]; [|done]. cbn in Ea. case_decide; simplify_eq.
    destruct (IH l) as (_ & ? & _); [done|]. lia.
Qed.

Lemma alarms_ok_sent st : alarms_ok st → map_Forall sent_ok st.(LastEvents).
Proof.
  intros Hst id e He. destruct (Hst id) as (h & Hh & Hl & _).
  apply (alarm_history_sent_ok id h); [done|congruence].
Qed.

Lemma events_of_app id l1 l2 : events_of id (l1 ++ l2) = events_of id l1 ++ events_of id l2.
Proof. unfold events_of. by rewrite fmap_app, filter_app. Qed.

Lemma events_of_one id q (e : Event.t) :
  events_of id [(q, e)] = if decide (e.(Event.Id) = id) then [e] else [].
Proof.
  unfold events_of. change ([(q, e)].*2) with [e]. rewrite filter_cons. by case_decide.
Qed.

Lemma emit_alarms_ok cfg p e st :
  alarms_ok st → follows (st.(LastEvents) !! e.(Event.Id)) e → alarms_ok (emit cfg p e st).
Proof.
  intros Hst Hf id. destruct (Hst id) as (h & Hh & Hl & Hr).
  rewrite emit_LastEvents, emit_redis, events_of_app, Hr.
  destruct (decide (e.(Event.Id) = id)) as [<-|Hne].
  - exists (h ++ [e]). rewrite last_snoc, lookup_insert_eq. split_and!; [|done|].
    + constructor; [done..|]. by rewrite Hl.
    + rewrite List.filter_app. f_equal. cbn. destruct (marshalable e); [|done].
      by rewrite events_of_one, decide_True.
  - exists h. rewrite lookup_insert_ne by done. split_and!; [done..|].
    destruct (marshalable e); [rewrite events_of_one, decide_False by done|]; by rewrite app_nil_r.
Qed.

(** ** Judging never panics *)

(** Judging reads the maps and changes the alarms only. *)
Definition frame (st st' : state) : Prop :=
  st'.(StrategyMap) = st.(StrategyMap) ∧ st'.(ExpressionMap) = st.(ExpressionMap) ∧
  st'.(HistoryBigMap) = st.(HistoryBigMap).

#[export] Instance frame_preorder : PreOrder frame.
Proof. split; unfold frame; [done|]. intros x y z (-> & -> & ->) (-> & -> & ->). done. Qed.

(** The outcome of a piece of judging. *)
Definition judged (st : state) (m : go state) : Prop :=
  ∃ st', m = Ret st' ∧ alarms_ok st' ∧ frame st st'.

Lemma judged_Ret st : alarms_ok st → judged st (Ret st).
Proof. intros H. exists st. split_and!; [done..|reflexivity]. Qed.

Lemma judged_foldl {A} (f : state → A → go state) l st :
  alarms_ok st →
  (∀ st' a, a ∈ l → alarms_ok st' → frame st st' → judged st' (f st' a)) →
  judged st (go_foldl f st l).
Proof.
  intros Hst Hf.
  destruct (go_foldl_returns (λ st', alarms_ok st' ∧ frame st st') f l st) as (st' & E & H1 & H2).
  - intros s a Ha [Hs Hfr]. destruct (Hf s a Ha Hs Hfr) as (s' & E & Hs' & Hfr').
    exists s'. split_and!; [done..|]. by etransitivity.
  - split; [done|reflexivity].
  - by exists st'.
Qed.

#[export] Hint Resolve judged_Ret : go.

(** The notation of a function is safe: it parses or is refused. *)
Definition parses_safely (func op : string) (rv : float64) : Prop :=
  ∃ r, ParseFuncFromString func op rv = Ret r ∧ ∀ fn, r = Ok fn → small_args fn.

Definition strategy_ok (s : Strategy.t) : Prop :=
  parses_safely s.(Strategy.Func) s.(Strategy.Operator) s.(Strategy.RightValue) ∧
  int64 s.(Strategy.MaxStep).
Definition expression_ok (x : Expression.t) : Prop :=
  parses_safely x.(Expression.Func) x.(Expression.Operator) x.(Expression.RightValue) ∧
  int64 x.(Expression.MaxStep).

(** The points of a metric, as they are stored. *)
Definition list_ok (cfg : config) (L : SafeLinkedList.t) : Prop :=
  newest_first L ∧ Z.of_nat (length L) <= cfg.(Remain) ∧ typed L.

Lemma points_not_newer val L v :
  newest_first (val :: L) → v ∈ points (val :: L) → v.(HistoryData.Timestamp) <= val.(JudgeItem.Timestamp).
Proof.
  intros HL Hv. assert (∀ it, it ∈ val :: L → it.(JudgeItem.Timestamp) <= val.(JudgeItem.Timestamp)) as Hle.
  { apply StronglySorted_inv in HL as [_ HL]. rewrite Forall_forall in HL.
    intros it [->|Hit]%elem_of_cons; [done|]. specialize (HL _ Hit). lia. }
  unfold points in Hv. destruct (is_gauge (val :: L)).
  - apply list_elem_of_fmap in Hv as (it & -> & Hit). by apply Hle.
  - unfold rates in Hv. apply elem_of_zip_with in Hv as (a & b & -> & Ha & _). by apply Hle.
Qed.

(** Judging the points [L] with the function [fn]. *)
Lemma sendEventIfNeed_judged cfg fn r now e M p st val L :
  list_ok cfg (val :: L) → small_args fn → Function_Compute fn (val :: L) = Ret r → isEnough r = true →
  e.(Event.EventTime) = val.(JudgeItem.Timestamp) →
  Event.Priority e = Ret p → Event.MaxStep e = Ret M → int64 M → alarms_ok st →
  judged st (sendEventIfNeed cfg r.(vs) r.(isTriggered) now e M st).
Proof.
  intros (HL & _ & Ht) Hs Hr He Htm Hp HM HMi Hst.
  pose proof (HistoryData_needed fn _ Hs Ht) as HH.
  assert (∃ oldest, last r.(vs) = Some oldest ∧
    oldest.(HistoryData.Timestamp) <= val.(JudgeItem.Timestamp)) as (oldest & Hold & Holdt).
  { case_bool_decide as Hn.
    - destruct (Z.leb_spec 1 (needed fn)); [|lia].
      destruct (take (Z.to_nat (needed fn)) (points (val :: L))) as [|v0 l] eqn:E.
      { apply (f_equal length) in E. rewrite length_take in E. cbn in E. lia. }
      destruct (Function_Compute_long fn _ v0 l Hs HH) as (x & b & E' & _).
      rewrite E' in Hr. simplify_eq. cbn.
      destruct (last (v0 :: l)) as [o|] eqn:Eo; [|by apply last_None in Eo].
      exists o. split; [done|]. apply (points_not_newer _ L); [done|].
      apply last_Some_elem_of in Eo. rewrite <- E in Eo.
      apply elem_of_take in Eo as (i & Hi & _). by apply list_elem_of_lookup_2 in Hi.
    - rewrite (Function_Compute_short fn _ _ Hs HH) in Hr. by simplify_eq. }
  rewrite (sendEventIfNeed_step _ _ oldest _ _ _ _ p) by (try done; by apply alarms_ok_sent).
  destruct (alarm_step _ _ _ _ _ _ _).2 as [[s k]|] eqn:Es; [|by apply judged_Ret].
  exists (emit cfg p (stamp s k e) st). split; [done|]. split; [|apply emit_others].
  apply emit_alarms_ok; [done|]. cbn. unfold follows.
  destruct (alarm_of _) as [|k0 t0] eqn:Ea; unfold alarm_step in Es.
  - destruct (isTriggered r); [|done]. case_decide; simplify_eq/=. split_and!; try done.
    change (Event.MaxStep e ≠ Ret 0). congruence.
  - destruct (isTriggered r); [|simplify_eq/=; by right].
    case_decide; simplify_eq/=. left. split_and!; try done; [lia|].
    exists M. split; [exact HM|lia].
Qed.

Lemma judged_bind {A} st (m : go A) (k : A → go state) :
  returns m → (∀ a, m = Ret a → judged st (k a)) → judged st (m ≫= k).
Proof. intros [a ->] Hk. by apply Hk. Qed.

Lemma Function_Compute_returns fn L :
  small_args fn → typed L → returns (Function_Compute fn L).
Proof.
  intros Hs Ht. pose proof (HistoryData_needed fn L Hs Ht) as H. case_bool_decide as Hn.
  - destruct (Z.leb_spec 1 (needed fn)); [|lia].
    destruct (take (Z.to_nat (needed fn)) (points L)) as [|v0 l] eqn:E.
    { apply (f_equal length) in E. rewrite length_take in E. cbn in E. lia. }
    destruct (Function_Compute_long fn L v0 l Hs H) as (x & b & -> & _). by eexists.
  - erewrite Function_Compute_short by done. by eexists.
Qed.

(** The common part of [judgeItemWithStrategy] and [judgeItemWithExpression]. *)
Lemma judge_with_judged cfg func op rv (ev : float64 → Event.t) now M p st val L :
  list_ok cfg (val :: L) → parses_safely func op rv → int64 M → alarms_ok st →
  (∀ x, (ev x).(Event.EventTime) = val.(JudgeItem.Timestamp) ∧
    Event.Priority (ev x) = Ret p ∧ Event.MaxStep (ev x) = Ret M) →
  judged st (fn ← ParseFuncFromString func op rv;
    match fn with
    | Err _ => Ret st
    | Ok fn =>
        r ← Function_Compute fn (val :: L);
        if negb r.(isEnough) then Ret st
        else sendEventIfNeed cfg r.(vs) r.(isTriggered) now (ev r.(leftValue)) M st
    end).
Proof.
  intros HL (r & Hr & Hs) HM Hst Hev. rewrite Hr. cbn. destruct r as [fn|]; [|by apply judged_Ret].
  specialize (Hs fn eq_refl). apply judged_bind.
  { apply Function_Compute_returns; [done|apply HL]. }
  intros r E. destruct (isEnough r) eqn:He; cbn; [|by apply judged_Ret].
  destruct (Hev (leftValue r)) as (H1 & H2 & H3). by eapply sendEventIfNeed_judged.
Qed.

Lemma judgeItemWithStrategy_judged cfg L s val now st :
  list_ok cfg (val :: L) → strategy_ok s → alarms_ok st →
  judged st (judgeItemWithStrategy cfg (val :: L) s val now st).
Proof.
  intros HL [Hp HM] Hst. unfold judgeItemWithStrategy.
  apply (judge_with_judged cfg _ _ _ (λ x, Event.mk _ (Some s) None "" _ x 0 _ _) now _
    s.(Strategy.Priority)); try done.
Qed.

Lemma judgeItemWithExpression_judged cfg L x val now st :
  list_ok cfg (val :: L) → expression_ok x → alarms_ok st →
  judged st (judgeItemWithExpression cfg (val :: L) x val now st).
Proof.
  intros HL [Hp HM] Hst. unfold judgeItemWithExpression.
  apply (judge_with_judged cfg _ _ _ (λ v, Event.mk _ None (Some x) "" _ v 0 _ _) now _
    x.(Expression.Priority)); try done.
Qed.

(** ** The invariant of the process *)

Record state_ok (cfg : config) (st : state) : Prop := StateOk {
  so_alarms : alarms_ok st;
  so_shards : ∀ k, k ∈ history_keys → is_Some (st.(HistoryBigMap) !! k);
  so_lists : map_Forall (λ _ M, map_Forall (λ _ L, list_ok cfg L) M) st.(HistoryBigMap);
  so_strategies : map_Forall (λ _ l, Forall strategy_ok l) st.(StrategyMap);
  so_expressions : map_Forall (λ _ l, Forall expression_ok l) st.(ExpressionMap) }.

Lemma CheckStrategy_judged cfg L val now st :
  list_ok cfg (val :: L) → alarms_ok st → map_Forall (λ _ l, Forall strategy_ok l) st.(StrategyMap) →
  judged st (CheckStrategy cfg (val :: L) val now st).
Proof.
  intros HL Hst Hs. unfold CheckStrategy. destruct (_ !! _) as [l|] eqn:E; [|by apply judged_Ret].
  specialize (Hs _ _ E). cbn in Hs. rewrite Forall_forall in Hs.
  apply judged_foldl; [done|]. intros st' s Hin Hst' _.
  destruct (related _ _); cbn; [|by apply judged_Ret].
  apply judgeItemWithStrategy_judged; auto.
Qed.

(** The loops of [CheckExpression] carry the set of handled expressions along. *)
Lemma handle_expressions_judged cfg L val now exps hs :
  list_ok cfg (val :: L) → Forall expression_ok exps → alarms_ok hs.2 →
  ∃ hs', go_foldl (handle_expression cfg (val :: L) val now) hs exps = Ret hs' ∧
    alarms_ok hs'.2 ∧ frame hs.2 hs'.2.
Proof.
  intros HL Hx Hst. rewrite Forall_forall in Hx.
  apply (go_foldl_returns (λ hs', alarms_ok hs'.2 ∧ frame hs.2 hs'.2)); [|split; [done|reflexivity]].
  intros [h s] x Hin [Ha Hf]. cbn in *. destruct (decide _); [by exists (h, s)|].
  destruct (judgeItemWithExpression_judged cfg L x val now s) as (s' & -> & Ha' & Hf'); auto.
  eexists. split; [done|]. cbn. split; [done|]. by etransitivity.
Qed.

Lemma filterRelatedExpressions_elem exps it x :
  x ∈ filterRelatedExpressions exps it → x ∈ exps.
Proof.
  unfold filterRelatedExpressions. rewrite !list_elem_of_In, filter_In. tauto.
Qed.

Lemma CheckExpression_judged cfg kvs L val now st :
  list_ok cfg (val :: L) → alarms_ok st → map_Forall (λ _ l, Forall expression_ok l) st.(ExpressionMap) →
  judged st (CheckExpression cfg kvs (val :: L) val now st).
Proof.
  intros HL Hst Hs. unfold CheckExpression. case_decide; [by apply judged_Ret|].
  destruct (go_foldl_returns (λ hs : gset Z * state, alarms_ok hs.2 ∧ frame st hs.2)
    (λ hs key, match st.(ExpressionMap) !! key with
      | None => Ret hs
      | Some expressions => go_foldl (handle_expression cfg (val :: L) val now) hs
            (filterRelatedExpressions expressions val) end)
    (buildKeysFromMetricAndTags kvs val) (∅, st)) as (hs' & E & Ha & Hf).
  - intros hs key _ [Ha Hf]. destruct (_ !! key) as [exps|] eqn:E; [|by exists hs].
    destruct (handle_expressions_judged cfg L val now (filterRelatedExpressions exps val) hs)
      as (hs' & -> & Ha' & Hf'); [done| |done|].
    + specialize (Hs _ _ E). cbn in Hs. rewrite Forall_forall in *.
      intros x Hx. apply Hs. by eapply filterRelatedExpressions_elem.
    + exists hs'. split_and!; [done..|]. by etransitivity.
  - split; [done|reflexivity].
  - rewrite E. by exists hs'.2.
Qed.

Lemma Judge_judged cfg kvs L val now st :
  list_ok cfg (val :: L) → state_ok cfg st → judged st (Judge cfg kvs (val :: L) val now st).
Proof.
  intros HL []. unfold Judge.
  destruct (CheckStrategy_judged cfg L val now st) as (st1 & -> & Ha & Hf); [done..|]. cbn.
  destruct (CheckExpression_judged cfg kvs L val now st1) as (st2 & -> & Ha' & Hf'); [done..| |].
  { by rewrite (proj1 (proj2 Hf)). }
  exists st2. split_and!; [done..|]. by etransitivity.
Qed.

(** ** Receiving *)

Lemma state_ok_frame cfg st st' : state_ok cfg st → alarms_ok st' → frame st st' → state_ok cfg st'.
Proof. intros [] Ha (E1 & E2 & E3). split; rewrite ?E1, ?E2, ?E3; done. Qed.

Lemma state_ok_set_list cfg shard M key L st :
  state_ok cfg st → st.(HistoryBigMap) !! shard = Some M → list_ok cfg L →
  state_ok cfg (set_HistoryBigMap (<[shard := JudgeItemMap.Set_ key L M]> st.(HistoryBigMap)) st).
Proof.
  intros [] HM HL. split; try done; cbn.
  - intros k Hk. destruct (decide (shard = k)) as [->|]; [rewrite lookup_insert_eq; by eexists|].
    rewrite lookup_insert_ne by done. auto.
  - apply map_Forall_insert_2; [|done]. apply map_Forall_insert_2; [done|].
    by apply (so_lists0 _ _ HM).
Qed.

Lemma typed_take n L : typed L → typed (take n L).
Proof. apply Forall_take. Qed.

Lemma PushFrontAndMaintain_ok cfg kvs shard key val now st :
  1 <= cfg.(Remain) → state_ok cfg st → is_Some (st.(HistoryBigMap) !! shard) →
  val.(JudgeItem.JudgeType) ≠ "" →
  ∃ st', PushFrontAndMaintain cfg kvs shard key val cfg.(Remain) now st = Ret st' ∧ state_ok cfg st'.
Proof.
  intros HR Hst [M HM] Hty. unfold PushFrontAndMaintain. rewrite HM. cbn.
  assert (∀ L, list_ok cfg (val :: L) → ∃ st',
    Judge cfg kvs (val :: L) val now
      (set_HistoryBigMap (<[shard := JudgeItemMap.Set_ key (val :: L) M]> st.(HistoryBigMap)) st) = Ret st' ∧
    state_ok cfg st') as HJ.
  { intros L HL. pose proof (state_ok_set_list cfg shard M key _ st Hst HM HL) as Hst1.
    destruct (Judge_judged cfg kvs L val now _ HL Hst1) as (st' & -> & Ha & Hf).
    exists st'. split; [done|]. by eapply state_ok_frame. }
  unfold JudgeItemMap.Get. destruct (M !! key) as [L|] eqn:EL.
  - pose proof (so_lists _ _ Hst _ _ HM _ _ EL) as HL. pose proof HL as (Hn & Hlen & Ht).
    rewrite PushFrontAndMaintain_take by lia.
    destruct (fresher val L) eqn:Hf; cbn.
    + replace (Z.to_nat cfg.(Remain)) with (S (Z.to_nat (cfg.(Remain) - 1))) by lia. cbn [take].
      apply HJ. split_and!.
      * apply (newest_first_take (S (Z.to_nat (cfg.(Remain) - 1))) (val :: L)). by apply newest_first_cons.
      * cbn [length]. rewrite length_take. lia.
      * constructor; [done|]. by apply typed_take.
    + eexists. split; [done|]. by apply state_ok_set_list.
  - apply HJ. split_and!; [repeat constructor|cbn; lia|by constructor].
Qed.

Lemma hex_shard a b : is_hex a = true → is_hex b = true → String a (String b "") ∈ history_keys.
Proof.
  unfold is_hex. rewrite !bool_decide_eq_true. intros Ha Hb. unfold history_keys, hex_strings.
  apply list_elem_of_bind. exists (String a ""). split.
  - apply list_elem_of_fmap. exists (String b ""). split; [done|]. apply list_elem_of_fmap. eauto.
  - apply list_elem_of_fmap. eauto.
Qed.

Lemma Md5_shard s : ∃ k, go_slice (Md5 s) 0 2 = Ret k ∧ k ∈ history_keys.
Proof.
  destruct (Md5_shape s) as [Hl Hc]. destruct (Md5_slice s) as [k Hk]. exists k. split; [done|].
  destruct (Md5 s) as [|a [|b t]]; [done..|]. cbn in Hc. apply andb_true_iff in Hc as [Ha Hc].
  apply andb_true_iff in Hc as [Hb _]. unfold go_slice in Hk. case_match; [|done]. simplify_eq.
  cbn. destruct t; by apply hex_shard.
Qed.

(** An item that transfer may send. *)
Definition item_ok (it : option JudgeItem.t * list (string * string)) : Prop :=
  match it.1 with Some item => item.(JudgeItem.JudgeType) ≠ "" | None => False end.

Lemma Send_ok cfg items now st :
  1 <= cfg.(Remain) → state_ok cfg st → Forall item_ok items →
  ∃ st', Send cfg items now st = Ret st' ∧ state_ok cfg st'.
Proof.
  intros HR Hst Hit. rewrite Forall_forall in Hit. apply go_foldl_returns; [|done].
  intros s [[item|] kvs] Hin Hs; specialize (Hit _ Hin); [|done]. unfold send_item. cbn.
  unfold JudgeItem.PrimaryKey.
  destruct (Md5_shard (PK (JudgeItem.Endpoint item) (JudgeItem.Metric item) (JudgeItem.Tags item)))
    as (k & -> & Hk). cbn. apply PushFrontAndMaintain_ok; [done..| |done]. by apply (so_shards _ _ Hs).
Qed.

(** ** Synchronisation and cleaning *)

Lemma group_by_Forall `{Countable K} {V} (P : V → Prop) (kvs : list (K * V)) :
  Forall P kvs.*2 → map_Forall (λ _ l, Forall P l) (group_by kvs ∅).
Proof.
  rewrite Forall_forall. intros HP k l Hl. rewrite Forall_forall. intros v Hv.
  assert (l = values_of k kvs) as ->.
  { rewrite <- group_by_empty. by rewrite Hl. }
  apply HP. apply elem_of_values_of in Hv. apply list_elem_of_fmap. by exists (k, v).
Qed.

Definition strategies_ok (hss : list HostStrategy.t) : Prop :=
  Forall (λ hs, Forall strategy_ok hs.(HostStrategy.Strategies)) hss.
Definition expressions_ok (xs : list (Expression.t * list (string * string))) : Prop :=
  Forall (λ x, expression_ok x.1) xs.
Definition reply_ok {A} (P : A → Prop) (r : result A) : Prop :=
  match r with Ok a => P a | Err _ => True end.

Lemma syncStrategies_ok cfg reply st :
  state_ok cfg st → reply_ok strategies_ok reply → state_ok cfg (syncStrategies reply st).
Proof.
  intros Hst Hr. destruct reply as [hss|]; [|done]. destruct Hst. split; try done. cbn.
  apply group_by_Forall. rewrite Forall_forall. intros s Hs.
  apply list_elem_of_fmap in Hs as ([k s'] & -> & Hs).
  apply list_elem_of_bind in Hs as (hs & Hs & Hin).
  apply list_elem_of_fmap in Hs as (s & ? & Hs). simplify_eq.
  cbn in Hr. unfold strategies_ok in Hr. rewrite Forall_forall in Hr. specialize (Hr _ Hin). cbn in Hr.
  rewrite Forall_forall in Hr. by apply Hr.
Qed.

Lemma syncExpression_ok cfg reply st :
  state_ok cfg st → reply_ok expressions_ok reply → state_ok cfg (syncExpression reply st).
Proof.
  intros Hst Hr. destruct reply as [xs|]; [|done]. destruct Hst. split; try done. cbn.
  apply group_by_Forall. rewrite Forall_forall. intros s Hs.
  apply list_elem_of_fmap in Hs as ([k s'] & -> & Hs).
  apply list_elem_of_bind in Hs as (x & Hs & Hin).
  apply list_elem_of_fmap in Hs as (k' & ? & Hs). simplify_eq.
  cbn in Hr. unfold expressions_ok in Hr. rewrite Forall_forall in Hr. by apply Hr.
Qed.

(** The points of a metric that saw none since [before]. *)
Definition stale (before : Z) (L : SafeLinkedList.t) : Prop :=
  match L with it :: _ => it.(JudgeItem.Timestamp) < before | [] => False end.
#[export] Instance stale_dec before L : Decision (stale before L).
Proof. destruct L; unfold stale; apply _. Defined.

Lemma elem_of_stale_keys before kvs k :
  k ∈ JudgeItemMap.stale_keys before kvs ↔ ∃ L, (k, L) ∈ kvs ∧ stale before L.
Proof.
  unfold JudgeItemMap.stale_keys.
  assert (∀ acc, k ∈ foldl (λ keys kv, match SafeLinkedList.Front kv.2 with
      | None => keys
      | Some front => if front.(JudgeItem.Timestamp) <? before then keys ++ [kv.1] else keys
      end) acc kvs ↔ k ∈ acc ∨ ∃ L, (k, L) ∈ kvs ∧ stale before L) as ->; [|set_solver].
  induction kvs as [|[k' L] kvs IH]; intros acc; cbn; [set_solver|]. rewrite IH.
  destruct L as [|it L]; cbn.
  - split; [|intros [?|(L & [?|?]%elem_of_cons & ?)]; simplify_eq; [by left|done|right; eauto]].
    intros [?|(L & ? & ?)]; [by left|right]. exists L. set_solver.
  - destruct (Z.ltb_spec it.(JudgeItem.Timestamp) before) as [Hs|Hs].
    + rewrite elem_of_app, list_elem_of_singleton. split.
      * intros [[?| ->]|(L' & ? & ?)]; [by left|right; exists (it :: L); set_solver|].
        right. exists L'. set_solver.
      * intros [?|(L' & [?|?]%elem_of_cons & ?)]; simplify_eq; [tauto|tauto|right; eauto].
    + split.
      * intros [?|(L' & ? & ?)]; [by left|right]. exists L'. set_solver.
      * intros [?|(L' & [?|?]%elem_of_cons & Hst)]; simplify_eq; [by left|cbn in Hst; lia|right; eauto].
Qed.

Lemma BatchDelete_lookup keys M k :
  JudgeItemMap.BatchDelete keys M !! k = if decide (k ∈ keys) then None else M !! k.
Proof.
  unfold JudgeItemMap.BatchDelete. revert M. induction keys as [|k' keys IH]; intros M; cbn; [done|].
  rewrite IH. destruct (decide (k = k')) as [->|Hne].
  - rewrite (decide_True (P := k' ∈ k' :: keys)) by (by left). rewrite lookup_delete_eq. by case_decide.
  - rewrite lookup_delete_ne by done. apply decide_ext. set_solver.
Qed.

(** Whatever the order of the visit, the stale metrics go and the others stay. *)
Lemma CleanStale_lookup before kvs M k :
  ranges kvs M →
  JudgeItemMap.CleanStale before kvs M !! k =
    (L ← M !! k; if decide (stale before L) then None else Some L).
Proof.
  intros Hr. unfold JudgeItemMap.CleanStale. rewrite BatchDelete_lookup.
  case_decide as Hk.
  - apply elem_of_stale_keys in Hk as (L & Hin & Hs). apply (ranges_elem_of _ _ _ _ Hr) in Hin.
    rewrite Hin. cbn. by rewrite decide_True.
  - destruct (M !! k) as [L|] eqn:E; cbn; [|done]. rewrite decide_False; [done|].
    intros Hs. apply Hk. apply elem_of_stale_keys. exists L. split; [|done].
    by apply (ranges_elem_of _ _ _ _ Hr).
Qed.

Lemma cleanStale_ok cfg now visit st :
  (∀ M, ranges (visit M) M) → state_ok cfg st →
  ∃ st', cleanStale now visit st = Ret st' ∧ state_ok cfg st'.
Proof.
  intros Hv Hst. unfold cleanStale. apply go_foldl_returns; [|done].
  intros s k Hk Hs. destruct (so_shards _ _ Hs k Hk) as [M HM]. rewrite HM. cbn.
  eexists. split; [done|]. pose proof Hs as []. split; try done; cbn.
  - intros k' Hk'. destruct (decide (k = k')) as [->|]; [rewrite lookup_insert_eq; by eexists|].
    rewrite lookup_insert_ne by done. auto.
  - apply map_Forall_insert_2; [|done]. intros key L HL. rewrite CleanStale_lookup in HL by done.
    destruct (M !! key) as [L'|] eqn:E; cbn in HL; [|done]. case_decide; simplify_eq.
    by apply (so_lists0 _ _ HM _ _ E).
Qed.

(** ** The process *)

Definition initial : state := State ∅ ∅ ∅ InitHistoryBigMap [].

Lemma history_keys_init k : k ∈ history_keys → InitHistoryBigMap !! k = Some JudgeItemMap.New.
Proof.
  intros Hk. unfold InitHistoryBigMap.
  destruct (assign_all_is_Some ((λ k, (k, JudgeItemMap.New)) <$> history_keys) ∅ k) as [M HM].
  - rewrite <- list_fmap_compose. by rewrite list_fmap_id.
  - rewrite HM. apply assign_all_lookup_Some in HM as [HM|HM]; [|done].
    apply list_elem_of_fmap in HM as (? & ? & _). by simplify_eq.
Qed.

Lemma initial_ok cfg : state_ok cfg initial.
Proof.
  split; unfold initial; cbn [HistoryBigMap StrategyMap ExpressionMap].
  - intros id. exists []. split_and!; [constructor|done..].
  - intros k Hk. rewrite history_keys_init by done. by eexists.
  - intros k M HM. unfold InitHistoryBigMap in HM. apply assign_all_lookup_Some in HM as [HM|HM]; [|done].
    apply list_elem_of_fmap in HM as (? & ? & _). simplify_eq. apply map_Forall_empty.
  - apply map_Forall_empty.
  - apply map_Forall_empty.
Qed.

(** What the process does: it serves a batch of items, takes over the
strategies or the expressions of the heartbeat server, and forgets the metrics
that went silent. *)
Inductive system_step (cfg : config) : state → state → Prop :=
| step_Send items now st st' :
    Forall item_ok items → Send cfg items now st = Ret st' → system_step cfg st st'
| step_syncStrategies reply st :
    reply_ok strategies_ok reply → system_step cfg st (syncStrategies reply st)
| step_syncExpression reply st :
    reply_ok expressions_ok reply → system_step cfg st (syncExpression reply st)
| step_cleanStale now visit st st' :
    (∀ M, ranges (visit M) M) → cleanStale now visit st = Ret st' → system_step cfg st st'.

Definition reachable (cfg : config) : state → Prop := rtc (system_step cfg) initial.

Lemma reachable_ok cfg st : 1 <= cfg.(Remain) → reachable cfg st → state_ok cfg st.
Proof.
  intros HR Hr. apply (rtc_ind_r (R := system_step cfg) (state_ok cfg) initial); [apply initial_ok| |done].
  clear Hr st. intros st1 st2 _ Hs IH.
  destruct Hs as [items now st st' Hi E|reply st Hr|reply st Hr|now visit st st' Hv E].
  - destruct (Send_ok cfg items now st) as (s & E' & ?); [done..|]. congruence.
  - by apply syncStrategies_ok.
  - by apply syncExpression_ok.
  - destruct (cleanStale_ok cfg now visit st) as (s & E' & ?); [done..|]. congruence.
Qed.

(** C1. In every state that the process can reach, what redis received of each
alarm is - but for events that cannot be encoded - a legal history: a first
problem at step 1, then problems with steps that count up to the maximum
of their strategy or expression and come from newer points, then one OK; and
[LastEvents] holds the last event of it. *)
Theorem reachable_alarm_history cfg st id :
  1 <= cfg.(Remain) → reachable cfg st →
  ∃ h, alarm_history id h ∧ last h = st.(LastEvents) !! id ∧
    events_of id st.(redis) = List.filter marshalable h.
Proof. intros HR Hr. apply (so_alarms cfg), (reachable_ok cfg); done. Qed.

(** C37. No batch of well-formed items and no cleaning makes the process
panic, in any state it can reach; there the shard of every metric exists,
and the points of every metric are newest first and at most [Remain]. *)
Theorem reachable_no_panic cfg st items now visit :
  1 <= cfg.(Remain) → reachable cfg st → Forall item_ok items → (∀ M, ranges (visit M) M) →
  returns (Send cfg items now st) ∧ returns (cleanStale now visit st) ∧
  (∀ k, k ∈ history_keys → is_Some (st.(HistoryBigMap) !! k)) ∧
  (∀ k M key L, st.(HistoryBigMap) !! k = Some M → M !! key = Some L →
    newest_first L ∧ Z.of_nat (length L) <= cfg.(Remain)).
Proof.
  intros HR Hr Hi Hv. pose proof (reachable_ok _ _ HR Hr) as Hst. split_and!.
  - destruct (Send_ok cfg items now st) as (s & -> & _); [done..|]. by eexists.
  - destruct (cleanStale_ok cfg now visit st) as (s & -> & _); [done..|]. by eexists.
  - apply Hst.
  - intros k M key L HM HL. destruct (so_lists _ _ Hst _ _ HM _ _ HL) as (? & ? & _). done.
Qed.

(** ** Which strategies and expressions judge an item *)

Lemma related_subseteq (tags m : tagmap) : related tags m = true ↔ tags ⊆ m.
Proof.
  unfold related. rewrite forallb_elem, map_subseteq_spec. split.
  - intros H k v Hk. specialize (H (k, v)). rewrite elem_of_map_to_list in H.
    by apply bool_decide_eq_true in H.
  - intros H [k v] Hk. apply elem_of_map_to_list in Hk. by apply bool_decide_eq_true, H.
Qed.

Lemma go_foldl_bind {S A B} (f : S → B → go S) (h : A → list B) s l :
  go_foldl (λ s a, go_foldl f s (h a)) s l = go_foldl f s (l ≫= h).
Proof.
  revert s. induction l as [|a l IH]; intros s; [done|]. cbn. rewrite go_foldl_app.
  destruct (go_foldl f s (h a)); cbn; [apply IH|done].
Qed.

Lemma go_foldl_filter {S A} (f : S → A → go S) (P : A → bool) s l :
  go_foldl (λ s a, if negb (P a) then Ret s else f s a) s l = go_foldl f s (List.filter P l).
Proof.
  revert s. induction l as [|a l IH]; intros s; [done|]. cbn. destruct (P a); cbn; [|apply IH].
  destruct (f s a); cbn; [apply IH|done].
Qed.

Lemma go_foldl_ext {S A} (f g : S → A → go S) s l :
  (∀ s a, a ∈ l → f s a = g s a) → go_foldl f s l = go_foldl g s l.
Proof.
  revert s. induction l as [|a l IH]; intros s H; [done|]. cbn.
  rewrite H by (by left). destruct (g s a); cbn; [|done]. apply IH. intros. apply H. by right.
Qed.

(** The expressions of [l] whose id is met for the first time. *)
Fixpoint first_met (seen : gset Z) (l : list Expression.t) : list Expression.t :=
  match l with
  | [] => []
  | x :: l =>
      if decide (x.(Expression.Id) ∈ seen) then first_met seen l
      else x :: first_met ({[x.(Expression.Id)]} ∪ seen) l
  end.

Lemma handle_expression_first_met cfg L it now l seen st :
  (hs ← go_foldl (handle_expression cfg L it now) (seen, st) l; Ret (hs : gset Z * state).2) =
  go_foldl (λ st x, judgeItemWithExpression cfg L x it now st) st (first_met seen l).
Proof.
  revert seen st. induction l as [|x l IH]; intros seen st; [done|]. cbn. case_decide; cbn; [apply IH|].
  destruct (judgeItemWithExpression cfg L x it now st); cbn; [apply IH|done].
Qed.

Lemma first_met_ids seen l :
  NoDup (Expression.Id <$> first_met seen l) ∧
  ∀ x, x ∈ first_met seen l → x.(Expression.Id) ∉ seen ∧ x ∈ l.
Proof.
  revert seen. induction l as [|x l IH]; intros seen; cbn; [split; [constructor|set_solver]|].
  case_decide.
  - destruct (IH seen) as [H1 H2]. split; [done|]. intros y Hy. specialize (H2 y Hy). set_solver.
  - destruct (IH ({[Expression.Id x]} ∪ seen)) as [H1 H2]. split.
    + cbn. constructor; [|done]. intros (y & E & Hy)%list_elem_of_fmap. specialize (H2 y Hy). set_solver.
    + intros y [->|Hy]%elem_of_cons; [split; [done|by left]|]. specialize (H2 y Hy). set_solver.
Qed.

Lemma first_met_complete seen l x :
  (∀ y, y ∈ l → y.(Expression.Id) = x.(Expression.Id) → y = x) →
  x ∈ l → x.(Expression.Id) ∉ seen → x ∈ first_met seen l.
Proof.
  revert seen. induction l as [|y l IH]; intros seen Hu Hx Hs; [by apply elem_of_nil in Hx|]. cbn.
  destruct (decide (y.(Expression.Id) = x.(Expression.Id))) as [E|Hne].
  - rewrite (Hu y) by (done || by left). rewrite decide_False by done. by left.
  - apply elem_of_cons in Hx as [?|Hx]; [congruence|].
    assert (∀ z, z ∈ l → z.(Expression.Id) = x.(Expression.Id) → z = x) by (intros; apply Hu; [by right|done]).
    case_decide; [|right]; apply IH; try done. rewrite elem_of_union, elem_of_singleton. intros [?|?]; congruence.
Qed.

Definition metric_lacks_slash (x : Expression.t) : Prop := lacks "/" x.(Expression.Metric).

(** The expression [x] is about the item: same metric, and all its tags (there
is at least one) are tags of the item, whose endpoint counts as a tag. *)
Definition concerns (x : Expression.t) (it : JudgeItem.t) : Prop :=
  x.(Expression.Metric) = it.(JudgeItem.Metric) ∧ x.(Expression.Tags) ≠ ∅ ∧
  x.(Expression.Tags) ⊆ copyItemTags it.

Lemma elem_of_filterRelated exps it x :
  x ∈ filterRelatedExpressions exps it ↔ x ∈ exps ∧ x.(Expression.Tags) ⊆ copyItemTags it.
Proof.
  unfold filterRelatedExpressions. rewrite !list_elem_of_In, filter_In, <- list_elem_of_In, related_subseteq.
  apply and_iff_compat_l. destruct (Expression.Tags x !! "endpoint") eqn:E; [done|].
  unfold copyItemTags. rewrite !map_subseteq_spec. split; intros H k v Hk; specialize (H k v Hk).
  - rewrite lookup_union, H. by destruct ({[ _ := _ ]} !! k).
  - apply lookup_union_Some_raw in H as [?|[_ H]]; [done|].
    apply lookup_singleton_Some in H as [<- _]. congruence.
Qed.

(** The keys under which an item looks for expressions. *)
Lemma buildKeys_elem kvs it k v :
  ranges kvs it.(JudgeItem.Tags) → copyItemTags it !! k = Some v →
  (it.(JudgeItem.Metric) +:+ "/" +:+ k +:+ "=" +:+ v) ∈ buildKeysFromMetricAndTags kvs it.
Proof.
  intros Hr Hk. unfold buildKeysFromMetricAndTags. rewrite elem_of_app.
  unfold copyItemTags in Hk. apply lookup_union_Some_raw in Hk as [Hk|[_ Hk]].
  - left. apply list_elem_of_fmap. exists (k, v). split; [done|]. by apply (ranges_elem_of _ _ _ _ Hr).
  - right. apply lookup_singleton_Some in Hk as [<- <-]. by left.
Qed.

Lemma buildKeys_metric kvs it key :
  key ∈ buildKeysFromMetricAndTags kvs it → ∃ s, key = it.(JudgeItem.Metric) +:+ String "/" s.
Proof.
  unfold buildKeysFromMetricAndTags. intros [H|H]%elem_of_app.
  - apply list_elem_of_fmap in H as ([k v] & -> & _). eexists. reflexivity.
  - apply list_elem_of_singleton in H as ->. eexists. reflexivity.
Qed.

Lemma rebuildExpressionMap_lookup xs st key x :
  x ∈ default [] ((rebuildExpressionMap xs st).(ExpressionMap) !! key) ↔
  ∃ kvs, (x, kvs) ∈ xs ∧ key ∈ expression_keys x kvs.
Proof.
  cbn. rewrite group_by_empty, elem_of_values_of, list_elem_of_bind. split.
  - intros ([y kvs] & H & Hin). apply list_elem_of_fmap in H as (k & ? & Hk). simplify_eq/=. eauto.
  - intros (kvs & Hin & Hk). exists (x, kvs). split; [|done]. apply list_elem_of_fmap. eauto.
Qed.

Lemma CheckExpression_first_met cfg kvs L it now st :
  CheckExpression cfg kvs L it now st =
  go_foldl (λ st x, judgeItemWithExpression cfg L x it now st) st
    (first_met ∅ (buildKeysFromMetricAndTags kvs it ≫= λ key,
      filterRelatedExpressions (default [] (st.(ExpressionMap) !! key)) it)).
Proof.
  unfold CheckExpression. case_decide as Hd.
  { unfold buildKeysFromMetricAndTags in Hd. rewrite length_app in Hd. cbn in Hd. lia. }
  rewrite <- handle_expression_first_met, <- go_foldl_bind. f_equal.
  apply go_foldl_ext. intros hs key _. by destruct (_ !! key).
Qed.

(** An item is judged against each expression that concerns it - once,
whatever the order in which tags are visited - and against no other, when the
expressions have distinct ids and no metric contains a slash. *)
Theorem CheckExpression_judges_concerned cfg xs st0 kvs L it now :
  Forall (λ x, ranges x.2 x.1.(Expression.Tags) ∧ metric_lacks_slash x.1) xs →
  NoDup (Expression.Id <$> xs.*1) →
  lacks "/" it.(JudgeItem.Metric) → ranges kvs it.(JudgeItem.Tags) →
  let st := rebuildExpressionMap xs st0 in
  ∃ sel,
    CheckExpression cfg kvs L it now st =
      go_foldl (λ st x, judgeItemWithExpression cfg L x it now st) st sel ∧
    NoDup (Expression.Id <$> sel) ∧
    (∀ x, x ∈ sel ↔ x ∈ xs.*1 ∧ concerns x it).
Proof.
  intros Hxs Hid Hm Hkvs st. rewrite Forall_forall in Hxs. rewrite CheckExpression_first_met.
  eexists. split; [done|]. set (l := _ ≫= _). pose proof (first_met_ids ∅ l) as [HN Hin]. split; [done|].
  assert (∀ x, x ∈ l ↔ x ∈ xs.*1 ∧ concerns x it) as Hl.
  { intros x. unfold l, st. rewrite list_elem_of_bind. setoid_rewrite elem_of_filterRelated.
    setoid_rewrite rebuildExpressionMap_lookup. split.
    - intros (key & ((kv & Hx & Hk) & Hsub) & Hkey). destruct (Hxs _ Hx) as [Hr Hs]. cbn in Hr, Hs.
      split; [apply list_elem_of_fmap; by exists (x, kv)|]. apply buildKeys_metric in Hkey as (s & ->).
      apply list_elem_of_fmap in Hk as ([k v] & E & Hk). split_and!; [|intros He|done].
      + apply app_inv_lacks in E as [-> _]; done.
      + apply (ranges_elem_of _ _ _ _ Hr) in Hk. by rewrite He in Hk.
    - intros [Hx (HM & Hne & Hsub)]. apply list_elem_of_fmap in Hx as ([x' kv] & -> & Hx). cbn in *.
      apply map_choose in Hne as (k & v & Hk). destruct (Hxs _ Hx) as [Hr _]. cbn in Hr.
      eexists. split; [split; [|done]|].
      + exists kv. split; [done|]. apply list_elem_of_fmap. exists (k, v). split; [done|].
        by apply (ranges_elem_of _ _ _ _ Hr).
      + cbn. rewrite HM. apply buildKeys_elem; [done|]. rewrite map_subseteq_spec in Hsub. by apply Hsub. }
  intros x. rewrite <- Hl. split; [apply Hin|]. intros Hx. apply first_met_complete; [|done|set_solver].
  intros y Hy E. apply Hl in Hy as [Hy _]. apply Hl in Hx as [Hx _].
  apply list_elem_of_lookup in Hx as [i Hi], Hy as [j Hj].
  assert (i = j) as ->; [|congruence].
  apply (NoDup_lookup _ _ _ (Expression.Id x) Hid); rewrite list_lookup_fmap; [by rewrite Hi|].
  by rewrite Hj, <- E.
Qed.

Lemma bind_filter_fmap {A B C} (f : A → list B) (g : B → C) l :
  (x ← l; g <$> f x) = g <$> (x ← l; f x).
Proof. induction l as [|a l IH]; [done|]. cbn. by rewrite fmap_app, <- IH. Qed.

(** The strategies that the heartbeat server gave for the item's host and metric. *)
Definition strategies_for (hss : list HostStrategy.t) (it : JudgeItem.t) : list Strategy.t :=
  hs ← hss;
  if decide (hs.(HostStrategy.Hostname) = it.(JudgeItem.Endpoint)) then
    filter (λ s, s.(Strategy.Metric) = it.(JudgeItem.Metric)) hs.(HostStrategy.Strategies)
  else [].

Lemma rebuildStrategyMap_lookup hss st0 it :
  Forall (λ hs, lacks "/" hs.(HostStrategy.Hostname)) hss → lacks "/" it.(JudgeItem.Endpoint) →
  default [] ((rebuildStrategyMap hss st0).(StrategyMap) !!
    (it.(JudgeItem.Endpoint) +:+ "/" +:+ it.(JudgeItem.Metric))) = strategies_for hss it.
Proof.
  intros Hh Hit. cbn. rewrite group_by_empty. unfold strategies_for.
  induction Hh as [|hs hss Hhs _ IH]; [done|]. rewrite !bind_cons. rewrite (values_of_app (K := string)), IH. f_equal.
  rewrite (values_of_keyed (λ s : Strategy.t, hs.(HostStrategy.Hostname) +:+ "/" +:+ s.(Strategy.Metric))).
  case_decide as Hd.
  - rewrite Hd. apply list_filter_iff. intros s. split; [|by intros ->].
    intros E. apply app_inv_lacks in E as [_ ?]; done.
  - apply elem_of_nil_inv. intros s Hs. apply list_elem_of_filter in Hs as [E _]. apply Hd.
    by apply app_inv_lacks in E as [? _].
Qed.

(** After a synchronisation, an item is judged against exactly the
strategies of its host and metric whose tags are tags of the item, in the order
in which they were received, when no host name contains a slash. *)
Theorem CheckStrategy_judges_related cfg hss st0 L it now :
  Forall (λ hs, lacks "/" hs.(HostStrategy.Hostname)) hss → lacks "/" it.(JudgeItem.Endpoint) →
  let st := rebuildStrategyMap hss st0 in
  CheckStrategy cfg L it now st =
    go_foldl (λ st s, judgeItemWithStrategy cfg L s it now st) st
      (List.filter (λ s, related s.(Strategy.Tags) it.(JudgeItem.Tags)) (strategies_for hss it)).
Proof.
  intros Hh Hit st. rewrite <- (rebuildStrategyMap_lookup hss st0 it) by done. fold st.
  unfold CheckStrategy. destruct (_ !! _) as [l|]; [|done]. apply go_foldl_filter.
Qed.

(** ** Concrete runs *)

Definition ex_cfg : config := Config 10 300 (λ p, "event:p" +:+ Itoa p).
Definition ex_strategy : Strategy.t :=
  Strategy.mk 7 "cpu" ∅ "all(#1)" ">" (f64_of_Z 3) 3 0 "" None.
Definition ex_expression : Expression.t :=
  Expression.mk 9 "cpu" {["endpoint" := "host"; "dev" := "sda"]} "all(#1)" ">" (f64_of_Z 3) 3 0 "" 0.
Definition ex_hosts : list HostStrategy.t := [HostStrategy.mk "host" [ex_strategy]].
Definition ex_event : Event.t :=
  Event.mk "s_7_x" (Some ex_strategy) None "" "host" (f64_of_Z 5) 0 500 ∅.
Definition ex_items : list (option JudgeItem.t * list (string * string)) := [(Some (ex_item 5 120), [])].
Definition ex_state : state :=
  match Send ex_cfg ex_items 130 (syncStrategies (Ok ex_hosts) initial) with
  | Ret st => st | Panic _ => initial end.

Lemma ex_strategy_ok : strategy_ok ex_strategy.
Proof.
  split; [|unfold int64; cbn; lia]. exists (Ok (AllFunction 1 ">" (f64_of_Z 3))).
  split; [vm_compute; reflexivity|]. intros fn [= <-]. repeat constructor; cbn; lia.
Qed.

Lemma ex_reachable : reachable ex_cfg ex_state.
Proof.
  apply (rtc_l _ _ (syncStrategies (Ok ex_hosts) initial)).
  - apply step_syncStrategies. repeat constructor; apply ex_strategy_ok.
  - apply rtc_once. apply (step_Send _ ex_items 130); [by repeat constructor|].
    vm_compute. reflexivity.
Qed.

Example sendEventIfNeed_refines_alarm_witness :
  ∃ st', sendEventIfNeed ex_cfg [HistoryData.mk 500 (f64_of_Z 5)] true 510 ex_event 3 initial = Ret st' ∧
    alarm_of (st'.(LastEvents) !! "s_7_x") = Alerting 1 500 ∧
    st'.(redis) = [("event:p0", stamp "PROBLEM" 1 ex_event)].
Proof.
  destruct (sendEventIfNeed_refines_alarm ex_cfg [HistoryData.mk 500 (f64_of_Z 5)]
    (HistoryData.mk 500 (f64_of_Z 5)) true 510 ex_event 3 0 initial) as (st' & H1 & _ & H2 & _ & H3).
  - apply map_Forall_empty.
  - reflexivity.
  - reflexivity.
  - unfold int64. lia.
  - exists st'. split; [exact H1|]. split; [exact H2|]. rewrite H3. vm_compute. reflexivity.
Defined.

Example reachable_alarm_history_witness :
  ∃ h, alarm_history ("s_7_" +:+ JudgeItem.PrimaryKey (ex_item 5 120)) h ∧ length (List.filter marshalable h) = 1%nat.
Proof.
  destruct (reachable_alarm_history ex_cfg ex_state ("s_7_" +:+ JudgeItem.PrimaryKey (ex_item 5 120)))
    as (h & H1 & _ & H3).
  - cbn. lia.
  - apply ex_reachable.
  - exists h. split; [exact H1|]. rewrite <- H3. vm_compute. reflexivity.
Defined.

Example reachable_no_panic_witness : returns (Send ex_cfg ex_items 200 ex_state).
Proof.
  destruct (reachable_no_panic ex_cfg ex_state ex_items 200 map_to_list) as (H & _).
  - cbn. lia.
  - apply ex_reachable.
  - by repeat constructor.
  - intros M. apply ranges_map_to_list.
  - exact H.
Defined.

Example CheckExpression_judges_concerned_witness :
  ∃ sel, NoDup (Expression.Id <$> sel) ∧ ex_expression ∈ sel ∧
    ∃ it, it.(JudgeItem.Endpoint) = "host" ∧
    CheckExpression ex_cfg [("dev", "sda"); ("p", "q")] [it] it 130
      (rebuildExpressionMap [(ex_expression, [("endpoint", "host"); ("dev", "sda")])] initial) =
    go_foldl (λ st x, judgeItemWithExpression ex_cfg [it] x it 130 st)
      (rebuildExpressionMap [(ex_expression, [("endpoint", "host"); ("dev", "sda")])] initial) sel.
Proof.
  set (it := JudgeItem.mk "host" "cpu" (f64_of_Z 5) 120 "GAUGE" {["dev" := "sda"; "p" := "q"]}).
  destruct (CheckExpression_judges_concerned ex_cfg
    [(ex_expression, [("endpoint", "host"); ("dev", "sda")])] initial [("dev", "sda"); ("p", "q")] [it] it 130)
    as (sel & H1 & H2 & H3).
  - constructor; [|constructor]. split; [|reflexivity]. apply ranges_eq. vm_compute. reflexivity.
  - apply NoDup_singleton.
  - reflexivity.
  - apply ranges_eq. vm_compute. reflexivity.
  - exists sel. split; [exact H2|]. split; [|exists it; split; [reflexivity|exact H1]].
    apply H3. split; [by left|]. split; [reflexivity|]. split; [discriminate|].
    apply related_subseteq. vm_compute. reflexivity.
Defined.

Example CheckStrategy_judges_related_witness :
  CheckStrategy ex_cfg [ex_item 5 120] (ex_item 5 120) 130 (rebuildStrategyMap ex_hosts initial) =
  judgeItemWithStrategy ex_cfg [ex_item 5 120] ex_strategy (ex_item 5 120) 130
    (rebuildStrategyMap ex_hosts initial).
Proof.
  etransitivity.
  - apply (CheckStrategy_judges_related ex_cfg ex_hosts initial); repeat constructor.
  - vm_compute. reflexivity.
Defined.
