(* ===== verification/Containers.v ===== *)
(** * Queues, hash rings and counters

The containers that the services share: the bounded queue of
vendor/github.com/toolkits/container/list (safelist.go), the
consistent hash ring of vendor/github.com/toolkits/consistent with its interface
[NodeRing], the counters of common/proc/proc.go and the queue of
common/sdk/sender.

A [list.List] is the list of its elements from front to back.  Every method of
[SafeList] holds the lock for its whole body; [SafeListLimited.PushFront] tests
the size and pushes under two acquisitions of the lock, so between concurrent
pushes the bound may be exceeded by as many elements as there are pushers:
the model is that of one pusher. *)

From S2P Require Import Prelude GoFloat GoString Hash Tags Model.
From stdpp Require Import options.

(** ** SafeList *)

Module SafeList.
Section safelist.
Context {A : Type}.
Implicit Types (L : list A).

Definition PushFront (v : A) L : list A := v :: L.
Definition PushFrontBatch (vs : list A) L : list A := foldl (λ L v, PushFront v L) L vs.

(** [L.Remove(L.Back())]: the element and the list without it; the back of an empty list is nil. *)
Definition remove_back L : go (A * list A) :=
  match last L with
  | Some v => Ret (v, take (length L - 1) L)
  | None => Panic NilDereference
  end.

Definition PopBack L : option A * list A :=
  match last L with Some v => (Some v, take (length L - 1) L) | None => (None, L) end.

(** [n] times [L.Remove(L.Back())] *)
Fixpoint pop_n (n : nat) L : go (list A * list A) :=
  match n with
  | O => Ret ([], L)
  | S n =>
      r ← remove_back L;
      s ← pop_n n (r : A * list A).2;
      Ret (r.1 :: (s : list A * list A).1, s.2)
  end.

Definition PopBackBy (max : Z) L : go (list A * list A) :=
  let count := Z.of_nat (length L) in
  if decide (count = 0) then Ret ([], L)
  else
    let count := if max <? count then max else count in
    if count <? 0 then Panic MakeSlice else pop_n (Z.to_nat count) L.

Definition PopBackAll L : go (list A * list A) := pop_n (length L) L.

Definition RemoveAll L : list A := [].
Definition FrontAll L : list A := L.
Definition BackAll L : list A := reverse L.
Definition Front L : option A := head L.
Definition Len L : Z := Z.of_nat (length L).
End safelist.
End SafeList.

Module SafeListLimited.
Record t (A : Type) : Type := mk { maxSize : Z; SL : list A }.
Global Arguments mk {A} _ _.
Global Arguments maxSize {A} _.
Global Arguments SL {A} _.

Section limited.
Context {A : Type}.
Implicit Types (this : t A).

(** [NewSafeListLimited] *)
Definition New (maxSize : Z) : t A := mk maxSize [].
Definition with_SL this (l : list A) : t A := mk this.(maxSize) l.

Definition PopBack this : option A * t A :=
  let '(v, l) := SafeList.PopBack this.(SL) in (v, with_SL this l).

Definition PopBackBy (max : Z) this : go (list A * t A) :=
  r ← SafeList.PopBackBy max this.(SL);
  Ret ((r : list A * list A).1, with_SL this r.2).

(** The queue refuses an element when it is full. *)
Definition PushFront (v : A) this : bool * t A :=
  if this.(maxSize) <=? SafeList.Len this.(SL) then (false, this)
  else (true, with_SL this (SafeList.PushFront v this.(SL))).

Definition PushFrontBatch (vs : list A) this : bool * t A :=
  if this.(maxSize) <=? SafeList.Len this.(SL) then (false, this)
  else (true, with_SL this (SafeList.PushFrontBatch vs this.(SL))).

(** The queue forgets its oldest element when it is full. *)
Definition PushFrontViolently (v : A) this : bool * t A :=
  let l := SafeList.PushFront v this.(SL) in
  if this.(maxSize) <? SafeList.Len l then (true, with_SL this (SafeList.PopBack l).2)
  else (true, with_SL this l).

Definition RemoveAll this : t A := with_SL this [].
Definition Front this : option A := SafeList.Front this.(SL).
Definition FrontAll this : list A := SafeList.FrontAll this.(SL).
Definition Len this : Z := SafeList.Len this.(SL).
End limited.
End SafeListLimited.

(** ** Consistent hashing *)

(** What a node ring promises to the senders: a key goes to one of the nodes,
unless there is none. *)
Class NodeRing (R : Type) : Type := {
  GetNode : R → string → result string;
  ring_members : R → list string;
  GetNode_member : ∀ r pk node, GetNode r pk = Ok node → node ∈ ring_members r;
  GetNode_total : ∀ r pk, ring_members r ≠ [] → is_ok (GetNode r pk) = true }.

Module Consistent.
Record t : Type := mk {
  circle : gmap Z string; members : gmap string bool;
  sortedHashes : list Z; NumberOfReplicas : Z; count : Z }.

Definition ErrEmptyCircle : error := "empty circle".

Definition New : t := mk ∅ ∅ [] 20 0.

Definition eltKey (elt : string) (idx : Z) : string := Itoa idx +:+ elt.

(** Both branches hash the bytes of the key. *)
Definition hashKey (key : string) : Z := ChecksumIEEE key.

(** [updateSortedHashes]: the division by the number of replicas panics when there is none. *)
Definition updateSortedHashes (this : t) : go t :=
  if decide (this.(NumberOfReplicas) * 4 = 0) then Panic DivideByZero
  else Ret (mk this.(circle) this.(members) (merge_sort Z.le (map_to_list this.(circle)).*1)
              this.(NumberOfReplicas) this.(count)).

Definition add_hashes (elt : string) (n : Z) (circle : gmap Z string) : gmap Z string :=
  foldl (λ c i, <[hashKey (eltKey elt i) := elt]> c) circle (seqZ 0 n).

Definition Add (elt : string) (this : t) : go t :=
  this ← updateSortedHashes
    (mk (add_hashes elt this.(NumberOfReplicas) this.(circle)) (<[elt := true]> this.(members))
        this.(sortedHashes) this.(NumberOfReplicas) this.(count));
  Ret (mk this.(circle) this.(members) this.(sortedHashes) this.(NumberOfReplicas) (this.(count) + 1)).

(** [search], by bisection in the source: the first hash beyond the key, or the first of all. *)
Definition search (key : Z) (hashes : list Z) : nat :=
  match list_find (λ h, key < h) hashes with Some (i, _) => i | None => 0%nat end.

Definition Get (name : string) (this : t) : go (result string) :=
  if decide (size this.(circle) = 0%nat) then Ret (Err ErrEmptyCircle)
  else
    let key := hashKey name in
    h ← at_index this.(sortedHashes) (Z.of_nat (search key this.(sortedHashes)));
    Ret (Ok (default "" (this.(circle) !! h))).
End Consistent.

(** [rings.NewConsistentHashNodesRing] *)
Definition NewConsistentHashNodesRing (numberOfReplicas : Z) (nodes : list string) : go Consistent.t :=
  go_foldl (λ r node, Consistent.Add node r)
    (Consistent.mk ∅ ∅ [] numberOfReplicas 0) nodes.

(** ** Counters (common/proc) *)

Definition DefaultOtherMaxSize : Z := 100.
Definition DefaultSCounterQpsPeriod : Z := 1.

Module SCounterBase.
Record t : Type := mk { Name : string; Cnt : Z; ts : Z; Other : gmap string value }.

Definition New (name : string) (now : Z) : t := mk name 0 now ∅.
Definition Set_ (cnt now : Z) (this : t) : t := mk this.(Name) cnt now this.(Other).
Definition SetCnt (cnt now : Z) (this : t) : t := mk this.(Name) cnt now this.(Other).

Definition put_other (key : string) (v : value) (other : gmap string value) : bool * gmap string value :=
  match other !! key with
  | Some _ => (true, <[key := v]> other)
  | None =>
      if Z.of_nat (size other) <? DefaultOtherMaxSize then (true, <[key := v]> other)
      else (false, other)
  end.

Definition PutOther (key : string) (v : value) (this : t) : bool * t :=
  let '(ret, other) := put_other key v this.(Other) in
  (ret, mk this.(Name) this.(Cnt) this.(ts) other).
End SCounterBase.

Module SCounterQps.
Record t : Type := mk {
  Name : string; Cnt : Z; Qps : Z; ts : Z; lastTs : Z; lastCnt : Z; Other : gmap string value }.

Definition New (name : string) (now : Z) : t := mk name 0 0 now now 0 ∅.

(** [incrByDirty] at the time [now] *)
Definition incrByDirty (incr now : Z) (this : t) : t :=
  let cnt := this.(Cnt) +₆₄ incr in
  if DefaultSCounterQpsPeriod <? now -₆₄ this.(lastTs) then
    mk this.(Name) cnt (Z.quot (cnt -₆₄ this.(lastCnt)) (now -₆₄ this.(lastTs))) now now cnt this.(Other)
  else mk this.(Name) cnt this.(Qps) now this.(lastTs) this.(lastCnt) this.(Other).

Definition IncrBy (incr now : Z) (this : t) : t := incrByDirty incr now this.
Definition Incr (now : Z) (this : t) : t := IncrBy 1 now this.
Definition Get (now : Z) (this : t) : t := incrByDirty 0 now this.

Definition PutOther (key : string) (v : value) (this : t) : bool * t :=
  let '(ret, other) := SCounterBase.put_other key v this.(Other) in
  (ret, mk this.(Name) this.(Cnt) this.(Qps) this.(ts) this.(lastTs) this.(lastCnt) other).
End SCounterQps.

(** ** common/sdk/sender *)

Module Sender.
Definition LIMIT : Z := 200.

Definition MakeMetaData (endpoint metric tags : string) (val : value) (counterType : string)
    (step_and_ts : list Z) (now : Z) : JsonMetaData.t :=
  let md step ts := JsonMetaData.mk metric endpoint ts step val counterType tags in
  match step_and_ts with
  | [] => md 60 now
  | [step] => md step now
  | [step; ts] => md step ts
  | _ => md 0 0
  end.
Definition MakeGaugeValue (endpoint metric tags : string) (val : value) (step_and_ts : list Z) (now : Z) :=
  MakeMetaData endpoint metric tags val "GAUGE" step_and_ts now.
Definition MakeCounterValue (endpoint metric tags : string) (val : value) (step_and_ts : list Z) (now : Z) :=
  MakeMetaData endpoint metric tags val "COUNTER" step_and_ts now.

(** [MetaDataQueue] *)
Abbreviation queue := (list JsonMetaData.t).

Definition PopBack (limit : Z) (this : queue) : go (list JsonMetaData.t * queue) :=
  let sz := Z.of_nat (length this) in
  if decide (sz = 0) then Ret ([], this)
  else
    let limit := if sz <? limit then sz else limit in
    if limit <? 0 then Panic MakeSlice else SafeList.pop_n (Z.to_nat limit) this.

Definition Push (endpoint metric tags : string) (val : value) (counterType : string)
    (step_and_ts : list Z) (now : Z) (this : queue) : queue :=
  MakeMetaData endpoint metric tags val counterType step_and_ts now :: this.
Definition PushGauge (endpoint metric tags : string) (val : value) (step_and_ts : list Z) (now : Z)
    (this : queue) : queue := MakeGaugeValue endpoint metric tags val step_and_ts now :: this.
Definition PushCounter (endpoint metric tags : string) (val : value) (step_and_ts : list Z) (now : Z)
    (this : queue) : queue := MakeCounterValue endpoint metric tags val step_and_ts now :: this.

(** One turn of [startSender]: what it posts, and the queue that is left;
what fails to be posted is not put back. *)
Definition startSender_turn (this : queue) : go (option (list JsonMetaData.t) * queue) :=
  r ← PopBack LIMIT this;
  let '(L, rest) := r : list JsonMetaData.t * queue in
  Ret (if decide (length L = 0%nat) then None else Some L, rest).
End Sender.

(** ** Queues: lemmas *)

Section queue_lemmas.
Context {A : Type}.
Implicit Types (L : list A).

Lemma remove_back_snoc L v : SafeList.remove_back (L ++ [v]) = Ret (v, L).
Proof.
  unfold SafeList.remove_back. rewrite last_snoc, length_app. cbn.
  by rewrite take_app_length' by lia.
Qed.

(** Popping from the back takes the oldest elements, oldest first. *)
Lemma pop_n_app n L1 L2 : length L2 = n → SafeList.pop_n n (L1 ++ L2) = Ret (reverse L2, L1).
Proof.
  revert L1 L2. induction n as [|n IH]; intros L1 L2 Hn.
  - destruct L2; [|done]. cbn. by rewrite app_nil_r.
  - destruct L2 as [|v L2 _] using rev_ind; [done|]. rewrite length_app in Hn. cbn in Hn.
    cbn. rewrite app_assoc, remove_back_snoc. cbn. rewrite IH by lia. cbn.
    by rewrite reverse_snoc.
Qed.

Lemma pop_n_take n L :
  (n <= length L)%nat →
  SafeList.pop_n n L = Ret (reverse (drop (length L - n) L), take (length L - n) L).
Proof.
  intros Hn. rewrite <- (take_drop (length L - n) L) at 1. apply pop_n_app.
  rewrite length_drop. lia.
Qed.

Lemma PopBackBy_spec max L :
  0 <= max →
  let n := Nat.min (length L) (Z.to_nat max) in
  SafeList.PopBackBy max L = Ret (reverse (drop (length L - n) L), take (length L - n) L).
Proof.
  intros Hm n. unfold SafeList.PopBackBy. case_decide as Hl.
  - destruct L; [|cbn in Hl; lia]. done.
  - assert (∀ k, k = Z.of_nat n → (if k <? 0 then Panic MakeSlice else SafeList.pop_n (Z.to_nat k) L) =
      Ret (reverse (drop (length L - n) L), take (length L - n) L)) as H.
    { intros k ->. destruct (Z.ltb_spec (Z.of_nat n) 0); [lia|].
      rewrite Nat2Z.id, pop_n_take by lia. done. }
    apply H. destruct (Z.ltb_spec max (Z.of_nat (length L))); lia.
Qed.

(** Pushing one after the other keeps what there is room for. *)
Definition push_all (vs : list A) (Q : SafeListLimited.t A) : SafeListLimited.t A :=
  foldl (λ Q v, (SafeListLimited.PushFront v Q).2) Q vs.

Lemma PushFront_full v (Q : SafeListLimited.t A) :
  SafeListLimited.PushFront v Q =
    if decide (Z.of_nat (length Q.(SafeListLimited.SL)) < Q.(SafeListLimited.maxSize))
    then (true, SafeListLimited.with_SL Q (v :: Q.(SafeListLimited.SL))) else (false, Q).
Proof.
  unfold SafeListLimited.PushFront, SafeList.Len.
  destruct (Z.leb_spec (SafeListLimited.maxSize Q) (Z.of_nat (length (SafeListLimited.SL Q))));
    [by rewrite decide_False by lia|by rewrite decide_True by lia].
Qed.

Lemma push_all_spec vs (Q : SafeListLimited.t A) :
  (push_all vs Q).(SafeListLimited.maxSize) = Q.(SafeListLimited.maxSize) ∧
  (push_all vs Q).(SafeListLimited.SL) =
    reverse (take (Z.to_nat (Q.(SafeListLimited.maxSize) - Z.of_nat (length Q.(SafeListLimited.SL)))) vs)
    ++ Q.(SafeListLimited.SL).
Proof.
  revert Q. induction vs as [|v vs IH]; intros Q; [by rewrite take_nil|].
  change (push_all (v :: vs) Q) with (push_all vs (SafeListLimited.PushFront v Q).2).
  destruct (IH (SafeListLimited.PushFront v Q).2) as [-> ->].
  rewrite PushFront_full.
  case_decide as Hd; cbn [snd SafeListLimited.with_SL SafeListLimited.SL SafeListLimited.maxSize length].
  - split; [done|].
    assert (Z.to_nat (SafeListLimited.maxSize Q - Z.of_nat (length (SafeListLimited.SL Q))) =
      S (Z.to_nat (SafeListLimited.maxSize Q - Z.of_nat (S (length (SafeListLimited.SL Q)))))) as -> by lia.
    cbn [take]. by rewrite reverse_cons, <- app_assoc.
  - split; [done|].
    by assert (Z.to_nat (SafeListLimited.maxSize Q - Z.of_nat (length (SafeListLimited.SL Q))) = 0%nat) as -> by lia.
Qed.
End queue_lemmas.

(** ** The ring: lemmas *)

Section ring_lemmas.
Import Consistent.
Implicit Types (c : Consistent.t).

(** The hash a key is sent to. *)
Definition successor (key : Z) (hashes : list Z) (h : Z) : Prop :=
  h ∈ hashes ∧
  ((key < h ∧ ∀ x, x ∈ hashes → key < x → h <= x) ∨
   ((∀ x, x ∈ hashes → x <= key) ∧ ∀ x, x ∈ hashes → h <= x)).

Lemma successor_unique key hs h1 h2 : successor key hs h1 → successor key hs h2 → h1 = h2.
Proof.
  intros [Hi1 [[H1 H1']|[H1 H1']]] [Hi2 [[H2 H2']|[H2 H2']]].
  - pose proof (H1' _ Hi2 H2). pose proof (H2' _ Hi1 H1). lia.
  - specialize (H2 _ Hi1). lia.
  - specialize (H1 _ Hi2). lia.
  - pose proof (H1' _ Hi2). pose proof (H2' _ Hi1). lia.
Qed.

(** More hashes send a key elsewhere only if one of the new hashes takes it. *)
Lemma successor_mono key hs hs' h h' :
  (∀ x, x ∈ hs → x ∈ hs') → successor key hs h → successor key hs' h' → h' ∈ hs → h' = h.
Proof.
  intros Hs Hh [Hi' Hh'] Hi. apply (successor_unique key hs); [|done].
  split; [done|]. destruct Hh' as [[H1 H2]|[H1 H2]]; [left|right]; split; auto.
Qed.

Lemma search_successor key hs :
  StronglySorted Z.le hs → hs ≠ [] →
  ∃ h, at_index hs (Z.of_nat (search key hs)) = Ret h ∧ successor key hs h.
Proof.
  intros Hs Hne. unfold search. destruct (list_find (λ h, key < h) hs) as [[i h]|] eqn:E.
  - apply list_find_Some in E as (Hi & Hk & Hb). exists h. split; [by apply at_index_of_nat|].
    split; [by eapply list_elem_of_lookup_2|]. left. split; [done|]. intros x Hx Hkx.
    apply list_elem_of_lookup in Hx as [j Hj].
    destruct (decide (j < i)%nat) as [Hji|Hji]; [destruct (Hb j x); done|].
    destruct (decide (j = i)) as [->|]; [by simplify_eq|].
    rewrite <- (take_drop_middle hs i h Hi) in Hs. apply StronglySorted_app_1_r in Hs.
    apply StronglySorted_inv in Hs as [_ Hs]. rewrite Forall_forall in Hs. apply Hs.
    apply list_elem_of_lookup. exists (j - S i)%nat. rewrite lookup_drop.
    by replace (S i + (j - S i))%nat with j by lia.
  - apply list_find_None in E. destruct hs as [|h hs]; [done|]. exists h. split; [done|].
    rewrite Forall_forall in E. split; [by left|]. right. split.
    + intros x Hx. specialize (E x Hx). cbn in E. lia.
    + intros x [->|Hx]%elem_of_cons; [done|]. apply StronglySorted_inv in Hs as [_ Hs].
      rewrite Forall_forall in Hs. by apply Hs.
Qed.

Record ring_wf c : Prop := RingWf {
  rw_sorted : c.(sortedHashes) = merge_sort Z.le (map_to_list c.(circle)).*1;
  rw_nodes : map_Forall (λ _ n, is_Some (c.(members) !! n)) c.(circle);
  rw_replicas : 1 <= c.(NumberOfReplicas);
  rw_nonempty : c.(members) ≠ ∅ → c.(circle) ≠ ∅ }.

Lemma elem_of_sorted c h : ring_wf c → h ∈ c.(sortedHashes) ↔ is_Some (c.(circle) !! h).
Proof.
  intros [-> _ _ _]. rewrite merge_sort_Permutation, list_elem_of_fmap. split.
  - intros ([h' n] & -> & Hin%elem_of_map_to_list). by eexists.
  - intros [n Hn]. exists (h, n). split; [done|]. by apply elem_of_map_to_list.
Qed.

Lemma sorted_sorted c : ring_wf c → StronglySorted Z.le c.(sortedHashes).
Proof. intros [-> _ _ _]. apply (StronglySorted_merge_sort _). Qed.

Lemma Get_spec c pk :
  ring_wf c → c.(circle) ≠ ∅ →
  ∃ h n, Consistent.Get pk c = Ret (Ok n) ∧ c.(circle) !! h = Some n ∧
    successor (hashKey pk) c.(sortedHashes) h.
Proof.
  intros Hwf Hne. unfold Consistent.Get. rewrite decide_False by (by rewrite map_size_empty_iff).
  assert (c.(sortedHashes) ≠ []) as Hs.
  { apply map_choose in Hne as (h & n & Hn). assert (h ∈ c.(sortedHashes)) as Hh.
    { apply elem_of_sorted; [done|]. by eexists. }
    intros E. rewrite E in Hh. by apply elem_of_nil in Hh. }
  destruct (search_successor (hashKey pk) c.(sortedHashes)) as (h & -> & Hh); [by apply sorted_sorted|done|].
  destruct Hh as [Hin Hh]. pose proof (proj1 (elem_of_sorted c h Hwf) Hin) as [n Hn].
  exists h, n. cbn. rewrite Hn. done.
Qed.

Lemma add_hashes_lookup elt n m h :
  add_hashes elt n m !! h =
    if decide (h ∈ (λ i, hashKey (eltKey elt i)) <$> seqZ 0 n) then Some elt else m !! h.
Proof.
  unfold add_hashes. generalize (seqZ 0 n). intros l. revert m.
  induction l as [|i l IH]; intros m; [done|]. cbn [foldl fmap list_fmap]. rewrite IH.
  case_decide as H1; [by rewrite decide_True by (by right)|]. rewrite lookup_insert.
  case_decide as H2; [rewrite decide_True; [done|]; rewrite H2; left|].
  rewrite decide_False; [done|]. intros [?|?]%elem_of_cons; congruence.
Qed.

Lemma Add_spec elt c :
  ring_wf c → ∃ c', Consistent.Add elt c = Ret c' ∧ ring_wf c' ∧
    c'.(members) = <[elt := true]> c.(members) ∧
    c'.(circle) = add_hashes elt c.(NumberOfReplicas) c.(circle) ∧
    c'.(NumberOfReplicas) = c.(NumberOfReplicas).
Proof.
  intros []. unfold Consistent.Add, updateSortedHashes. rewrite decide_False by (cbn; lia). cbn.
  eexists. split; [done|]. split; [|done]. split; cbn; [done| |done|].
  - intros h n Hn. rewrite add_hashes_lookup in Hn. rewrite lookup_insert. case_decide; simplify_eq.
    + by rewrite decide_True.
    + case_decide; [by eexists|]. by apply (rw_nodes0 h).
  - intros _ E. pose proof (add_hashes_lookup elt c.(NumberOfReplicas) c.(circle) (hashKey (eltKey elt 0))) as H.
    rewrite E, lookup_empty, decide_True in H; [done|]. apply list_elem_of_fmap. exists 0.
    split; [done|]. apply elem_of_seqZ. lia.
Qed.

Lemma empty_wf n : 1 <= n → ring_wf (mk ∅ ∅ [] n 0).
Proof. intros Hn. split; cbn; try done. Qed.

Lemma NewRing_wf n nodes :
  1 <= n → ∃ c, NewConsistentHashNodesRing n nodes = Ret c ∧ ring_wf c ∧
    ∀ x, is_Some (c.(members) !! x) ↔ x ∈ nodes.
Proof.
  intros Hn. unfold NewConsistentHashNodesRing.
  assert (∀ c, ring_wf c → ∃ c', go_foldl (λ r node, Consistent.Add node r) c nodes = Ret c' ∧ ring_wf c' ∧
    ∀ x, is_Some (c'.(members) !! x) ↔ x ∈ nodes ∨ is_Some (c.(members) !! x)) as H.
  { induction nodes as [|node nodes IH]; intros c Hc; cbn.
    - exists c. split_and!; [done..|]. intros x. split; [by right|]. intros [?%elem_of_nil|?]; done.
    - destruct (Add_spec node c Hc) as (c1 & -> & Hc1 & Hm & _). cbn.
      destruct (IH c1 Hc1) as (c' & -> & Hc' & Hx). exists c'. split_and!; [done..|].
      intros x. rewrite Hx, Hm, elem_of_cons, lookup_insert. case_decide; subst; [|naive_solver].
      split; [by left; left|]. intros _. right. by eexists. }
  destruct (H (mk ∅ ∅ [] n 0) (empty_wf n Hn)) as (c & -> & Hc & Hx). exists c. split_and!; [done..|].
  intros x. rewrite Hx. cbn. rewrite lookup_empty. split; [intros [?|[]%is_Some_None]; done|by left].
Qed.
End ring_lemmas.

(** The rings of the transfer and of the gateway are node rings. *)
Record Ring : Type := MkRing { ring : Consistent.t; ring_ok : ring_wf ring }.

Definition ring_GetNode (r : Ring) (pk : string) : result string :=
  match Consistent.Get pk r.(ring) with Ret n => n | Panic _ => Err "" end.

#[export] Program Instance ring_NodeRing : NodeRing Ring := {
  GetNode := ring_GetNode;
  ring_members r := (map_to_list r.(ring).(Consistent.members)).*1 }.
Next Obligation.
  intros [c Hc] pk node. unfold ring_GetNode. cbn. intros H.
  destruct (decide (c.(Consistent.circle) = ∅)) as [E|Hne].
  { unfold Consistent.Get in H. rewrite E, map_size_empty in H. done. }
  destruct (Get_spec c pk Hc Hne) as (h & n & E & Hn & _). rewrite E in H. simplify_eq.
  destruct (rw_nodes c Hc h _ Hn) as [b Hb]. apply list_elem_of_fmap.
  exists (node, b). split; [done|]. by apply elem_of_map_to_list.
Qed.
Next Obligation.
  intros [c Hc] pk Hm. cbn in *. unfold ring_GetNode. cbn.
  destruct (Get_spec c pk Hc) as (h & n & -> & _); [|done].
  apply (rw_nonempty c Hc). intros E. rewrite E in Hm. by rewrite map_to_list_empty in Hm.
Qed.

Lemma Get_successor c pk n h :
  ring_wf c → successor (Consistent.hashKey pk) c.(Consistent.sortedHashes) h →
  c.(Consistent.circle) !! h = Some n → Consistent.Get pk c = Ret (Ok n).
Proof.
  intros Hc Hh Hn. destruct (Get_spec c pk Hc) as (h' & n' & -> & Hn' & Hh').
  { intros E. by rewrite E in Hn. }
  rewrite (successor_unique _ _ _ _ Hh Hh') in Hn. by simplify_eq.
Qed.

(** ** Properties *)

(** A ring built from nodes sends every key to one of them, and adding a
node to it moves keys to the new node only: every other key keeps its node. *)
Theorem ring_consistent replicas nodes elt :
  1 <= replicas → nodes ≠ [] →
  ∃ r r', NewConsistentHashNodesRing replicas nodes = Ret r ∧ Consistent.Add elt r = Ret r' ∧
    ∀ pk, ∃ n n', Consistent.Get pk r = Ret (Ok n) ∧ n ∈ nodes ∧
      Consistent.Get pk r' = Ret (Ok n') ∧ (n' = elt ∨ n' = n).
Proof.
  intros Hr Hne. destruct (NewRing_wf replicas nodes Hr) as (c & Hc & Hwf & Hm).
  destruct (Add_spec elt c Hwf) as (c' & Hc' & Hwf' & Hm' & Hcirc & _).
  exists c, c'. split_and!; [done..|]. intros pk.
  assert (c.(Consistent.circle) ≠ ∅) as Hcne.
  { apply (rw_nonempty c Hwf). destruct nodes as [|node nodes]; [done|]. intros E.
    destruct (proj2 (Hm node)) as [b Hb]; [by left|]. by rewrite E in Hb. }
  assert (c'.(Consistent.circle) ≠ ∅) as Hcne'.
  { apply (rw_nonempty c' Hwf'). rewrite Hm'. apply insert_non_empty. }
  destruct (Get_spec c pk Hwf Hcne) as (h & n & Hg & Hn & Hs).
  destruct (Get_spec c' pk Hwf' Hcne') as (h' & n' & Hg' & Hn' & Hs').
  exists n, n'. split_and!; [done| |done|].
  { apply Hm. by apply (rw_nodes c Hwf h). }
  rewrite Hcirc, add_hashes_lookup in Hn'. case_decide as Hnew; [by left; simplify_eq|right].
  assert (h' = h) as ->; [|congruence].
  apply (successor_mono (Consistent.hashKey pk) c.(Consistent.sortedHashes) c'.(Consistent.sortedHashes));
    [|done..|].
  - intros x Hx. apply elem_of_sorted in Hx; [|done]. apply elem_of_sorted; [done|].
    rewrite Hcirc, add_hashes_lookup. case_decide; [by eexists|done].
  - apply elem_of_sorted; [done|]. by eexists.
Qed.

Example ring_consistent_witness :
  ∃ r r' n n', NewConsistentHashNodesRing 3 ["judge-00"; "judge-01"] = Ret r ∧ Consistent.Add "judge-02" r = Ret r' ∧
    Consistent.Get "host/cpu" r = Ret (Ok n) ∧ n ∈ ["judge-00"; "judge-01"] ∧
    Consistent.Get "host/cpu" r' = Ret (Ok n') ∧ (n' = "judge-02" ∨ n' = n).
Proof.
  destruct (ring_consistent 3 ["judge-00"; "judge-01"] "judge-02") as (r & r' & H1 & H2 & H3).
  - lia.
  - discriminate.
  - destruct (H3 "host/cpu") as (n & n' & H4 & H5 & H6 & H7). by exists r, r', n, n'.
Defined.
