(* ===== verification/Transfer.v ===== *)
(** * Transfer: receiving and routing points

modules/transfer: the receivers (receiver/rpc/rpc_transfer.go,
receiver/socket/socket_telnet.go), the routing of their items to the send
queues (sender/sender.go, send_queues.go, node_rings.go), the cluster lists of
g/cfg.go and the statistics of proc/proc.go and sender/sender_cron.go.

The senders are written against the interface [NodeRing] of the hash rings.
The debugging aids [RecvDataTrace] and [RecvDataFilter] are left out. *)

From stdpp Require Import functions.
From S2P Require Import Prelude GoFloat GoString Hash Tags Model Containers.
From Stdlib Require Import Ascii.
From stdpp Require Import options.

Definition GAUGE : string := "GAUGE".
Definition COUNTER : string := "COUNTER".
Definition DERIVE : string := "DERIVE".
Definition DEFAULT_STEP : Z := 60.
Definition DefaultSendQueueMaxSize : Z := 102400.

(** ** State *)

(** The counters of proc/proc.go that the receivers and senders maintain; their
type is [SCounterQps] of vendor/github.com/toolkits/proc, of which they only add to [Cnt]. *)
Inductive stat : Set :=
| RecvCnt | RpcRecvCnt | HttpRecvCnt | SocketRecvCnt
| SendToJudgeCnt | SendToTsdbCnt | SendToGraphCnt
| SendToJudgeDropCnt | SendToTsdbDropCnt | SendToGraphDropCnt
| SendToJudgeFailCnt | SendToTsdbFailCnt | SendToGraphFailCnt.
#[export] Instance stat_eq_dec : EqDecision stat.
Proof. solve_decision. Defined.

Abbreviation proc := (stat → Z).
Definition IncrBy `{EqDecision C} (s : C) (n : Z) (p : C → Z) : C → Z := <[s := p s +₆₄ n]> p.
Definition Incr `{EqDecision C} (s : C) (p : C → Z) : C → Z := IncrBy s 1 p.

Record config : Type := Config {
  MinStep : Z; JudgeEnabled : bool; GraphEnabled : bool; TsdbEnabled : bool;
  JudgeCluster : gmap string string; GraphCluster : gmap string string }.

Record state : Type := State {
  JudgeQueues : gmap string (SafeListLimited.t JudgeItem.t);
  GraphQueues : gmap string (SafeListLimited.t GraphItem.t);
  TsdbQueue : option (SafeListLimited.t TsdbItem.t);
  stats : proc }.

Definition with_JudgeQueues q (st : state) : state := State q st.(GraphQueues) st.(TsdbQueue) st.(stats).
Definition with_GraphQueues q (st : state) : state := State st.(JudgeQueues) q st.(TsdbQueue) st.(stats).
Definition with_TsdbQueue q (st : state) : state := State st.(JudgeQueues) st.(GraphQueues) q st.(stats).
Definition with_stats p (st : state) : state := State st.(JudgeQueues) st.(GraphQueues) st.(TsdbQueue) p.

(** [formatClusterItems]; [kvs] is the order in which the cluster is visited. *)
Definition formatClusterItems (kvs : list (string * string)) : gmap string (list string) :=
  assign_all ((λ kv, (kv.1, TrimSpace <$> split "," kv.2)) <$> kvs) ∅.
Definition ClusterList (cluster : gmap string string) : gmap string (list string) :=
  formatClusterItems (map_to_list cluster).

(** [Start]: the least step *)
Definition start_MinStep (configured : Z) : Z := if configured <? 1 then 30 else configured.

(** [initSendQueues]; the visits of the clusters are in the order of [judge] and [graph]. *)
Definition initSendQueues (judge : list (string * string)) (graph : list (string * list string))
    (tsdbEnabled : bool) (stats : proc) : state :=
  State
    (assign_all ((λ kv, (kv.1, SafeListLimited.New DefaultSendQueueMaxSize)) <$> judge) ∅)
    (assign_all (kv ← graph; (λ addr, (kv.1 +:+ addr, SafeListLimited.New DefaultSendQueueMaxSize)) <$> kv.2) ∅)
    (if tsdbEnabled then Some (SafeListLimited.New DefaultSendQueueMaxSize) else None)
    stats.

(** [initNodeRings] *)
Definition initNodeRings (judgeReplicas graphReplicas : Z) (cfg : config) : go (Consistent.t * Consistent.t) :=
  j ← NewConsistentHashNodesRing (wrap32 judgeReplicas) (KeysOfMap cfg.(JudgeCluster));
  g ← NewConsistentHashNodesRing (wrap32 graphReplicas) (KeysOfMap cfg.(GraphCluster));
  Ret (j, g).

(** ** Conversions *)

Definition alignTs (ts period : Z) : go Z := r ← go_rem ts period; Ret (ts -₆₄ r).

Definition step_of (minStep step : Z) : Z := if step <? minStep then minStep else step.

Definition convert2JudgeItem (minStep : Z) (item : MetaData.t) : go JudgeItem.t :=
  ts ← alignTs item.(MetaData.Timestamp) (step_of minStep item.(MetaData.Step));
  Ret (JudgeItem.mk item.(MetaData.Endpoint) item.(MetaData.Metric) item.(MetaData.Value) ts
         item.(MetaData.CounterType) item.(MetaData.Tags)).

(** The type and the bounds of the data source of each counter type. *)
Definition ds_of (counterType : string) : option (string * string * string) :=
  if decide (counterType = GAUGE) then Some (counterType, "U", "U")
  else if decide (counterType = COUNTER) then Some (DERIVE, "0", "U")
  else if decide (counterType = DERIVE) then Some (DERIVE, "0", "U")
  else None.

Definition convert2GraphItem (minStep : Z) (d : MetaData.t) : go (result GraphItem.t) :=
  let step := step_of minStep d.(MetaData.Step) in
  match ds_of d.(MetaData.CounterType) with
  | None => Ret (Err "not_supported_counter_type")
  | Some (dsType, min, max) =>
      ts ← alignTs d.(MetaData.Timestamp) step;
      Ret (Ok (GraphItem.mk d.(MetaData.Endpoint) d.(MetaData.Metric) d.(MetaData.Tags)
                 d.(MetaData.Value) ts dsType step (step *₆₄ 2) min max))
  end.

(** [convert2TsdbItem]: copying the tags in any order gives the same map. *)
Definition convert2TsdbItem (d : MetaData.t) : TsdbItem.t :=
  TsdbItem.mk d.(MetaData.Metric) (<["endpoint" := d.(MetaData.Endpoint)]> d.(MetaData.Tags))
    d.(MetaData.Value) d.(MetaData.Timestamp).

(** ** Routing to the send queues *)

Section push.
Context {R : Type} `{!NodeRing R} (JudgeNodeRing GraphNodeRing : R) (cfg : config) (now : Z).

Definition push_judge (st : state) (item : MetaData.t) : go state :=
  match GetNode JudgeNodeRing (MetaData.PK item) with
  | Err _ => Ret st
  | Ok node =>
      judgeItem ← convert2JudgeItem cfg.(MinStep) item;
      Q ← deref (st.(JudgeQueues) !! node);
      let '(isSuccess, Q) := SafeListLimited.PushFront judgeItem Q in
      let st := with_JudgeQueues (<[node := Q]> st.(JudgeQueues)) st in
      Ret (if isSuccess : bool then st else with_stats (Incr SendToJudgeDropCnt st.(stats)) st)
  end.

Definition Push2JudgeSendQueue (items : list MetaData.t) (st : state) : go state :=
  go_foldl push_judge st items.

(** The item into the queue of one address of the node; [errCnt] counts the refusals. *)
Definition push_addr (node : string) (graphItem : GraphItem.t) (acc : state * Z) (addr : string) :
    go (state * Z) :=
  let '(st, errCnt) := acc in
  Q ← deref (st.(GraphQueues) !! (node +:+ addr));
  let '(isSuccess, Q) := SafeListLimited.PushFront graphItem Q in
  Ret (with_GraphQueues (<[node +:+ addr := Q]> st.(GraphQueues)) st,
       if isSuccess : bool then errCnt else errCnt + 1).

Definition push_graph (st : state) (item : MetaData.t) : go state :=
  c ← convert2GraphItem cfg.(MinStep) item;
  match c with
  | Err _ => Ret st
  | Ok graphItem =>
      match GetNode GraphNodeRing (MetaData.PK item) with
      | Err _ => Ret st
      | Ok node =>
          addrs ← deref (ClusterList cfg.(GraphCluster) !! node);
          r ← go_foldl (push_addr node graphItem) (st, 0) addrs;
          let '(st, errCnt) := r : state * Z in
          Ret (if 0 <? errCnt then with_stats (Incr SendToGraphDropCnt st.(stats)) st else st)
      end
  end.

Definition Push2GraphSendQueue (items : list MetaData.t) (st : state) : go state :=
  go_foldl push_graph st items.

Definition push_tsdb (st : state) (item : MetaData.t) : go state :=
  Q ← deref st.(TsdbQueue);
  let '(isSuccess, Q) := SafeListLimited.PushFront (convert2TsdbItem item) Q in
  let st := with_TsdbQueue (Some Q) st in
  Ret (if isSuccess : bool then st else with_stats (Incr SendToTsdbDropCnt st.(stats)) st).

Definition Push2TsdbSendQueue (items : list MetaData.t) (st : state) : go state :=
  go_foldl push_tsdb st items.

(** ** Receiving *)

(** The items of a request go to the queues of the backends that are enabled. *)
Definition push_items (tsdb : bool) (items : list MetaData.t) (st : state) : go state :=
  st ← (if cfg.(GraphEnabled) then Push2GraphSendQueue items st else Ret st);
  st ← (if cfg.(JudgeEnabled) then Push2JudgeSendQueue items st else Ret st);
  if tsdb && cfg.(TsdbEnabled) then Push2TsdbSendQueue items st else Ret st.

(** The value of a point, by its dynamic type. *)
Definition float_of_value (v : value) : option float64 :=
  match v with
  | VString cv => match ParseFloat cv with Ok vv => Some vv | Err _ => None end
  | VFloat64 cv => Some cv
  | VInt64 cv => Some (f64_of_Z cv)
  | VInt _ | VOther => None
  end.

(** [v.Value == ""] *)
Definition is_empty_value (v : value) : bool := match v with VString "" => true | _ => false end.

(** The checks and the conversion of one point; none when it is invalid. *)
Definition recv_item (v : option MetricValue.t) : option MetaData.t :=
  v ← v;
  if decide (v.(MetricValue.Metric) = "kernel.hostname") then None
  else if decide (v.(MetricValue.Metric) = "" ∨ v.(MetricValue.Endpoint) = "") then None
  else if decide (v.(MetricValue.Type_) ≠ COUNTER ∧ v.(MetricValue.Type_) ≠ GAUGE
                  ∧ v.(MetricValue.Type_) ≠ DERIVE) then None
  else if is_empty_value v.(MetricValue.Value) then None
  else if v.(MetricValue.Step) <=? 0 then None
  else if 510 <? slen v.(MetricValue.Metric) + slen v.(MetricValue.Tags) then None
  else
    let ts :=
      if (v.(MetricValue.Timestamp) <=? 0) || (now *₆₄ 2 <? v.(MetricValue.Timestamp))
      then now else v.(MetricValue.Timestamp) in
    vv ← float_of_value v.(MetricValue.Value);
    Some (MetaData.mk v.(MetricValue.Metric) v.(MetricValue.Endpoint) ts v.(MetricValue.Step)
            vv v.(MetricValue.Type_) (DictedTagstring v.(MetricValue.Tags))).

Record TransferResponse : Type := Response {
  Message : string; Total : Z; Invalid : Z; Latency : Z }.

(** The loop over the points: the items so far and the number of invalid points. *)
Definition recv_body (acc : list MetaData.t * Z) (v : option MetricValue.t) : list MetaData.t * Z :=
  match recv_item v with
  | Some fv => (acc.1 ++ [fv], acc.2)
  | None => (acc.1, acc.2 +₆₄ 1)
  end.

(** [RecvMetricValues] at the time [now], when the request arrived; [elapsed] is the time it took, in nanoseconds. *)
Definition RecvMetricValues (args : list (option MetricValue.t)) (from : string) (elapsed : Z) (st : state) :
    go (TransferResponse * state) :=
  let '(items, invalid) := foldl recv_body ([], 0) args in
  let cnt := Z.of_nat (length items) in
  let p := IncrBy RecvCnt cnt st.(stats) in
  let p :=
    if decide (from = "rpc") then IncrBy RpcRecvCnt cnt p
    else if decide (from = "http") then IncrBy HttpRecvCnt cnt p else p in
  st ← push_items true items (with_stats p st);
  Ret (Response "ok" (Z.of_nat (length args)) invalid (Z.quot elapsed 1000000), st).

(** [Transfer.Update] *)
Definition Update (args : list (option MetricValue.t)) (elapsed : Z) (st : state) :
    go (TransferResponse * state) := RecvMetricValues args "rpc" elapsed st.

(** ** The telnet receiver *)

(** The step of a line: its sixth field, [step] or [heartbeat:min:max:step]. *)
Definition line_step (field : option string) : result Z :=
  match field with
  | None => Ok DEFAULT_STEP
  | Some f =>
      match split ":" f with
      | [step] => ParseInt 64 step
      | [_; _; _; step] => ParseInt 64 step
      | _ => Err "invalid_counter_step"
      end
  end.

(** The conversion of the fields, once they are counted. *)
Definition convert_fields (endpoint metric ts_ v_ type_ : string) (step_ : option string) :
    result MetaData.t :=
  ts ← ParseInt 64 ts_;
  v ← ParseFloat v_;
  if decide (type_ ≠ DERIVE ∧ type_ ≠ GAUGE ∧ type_ ≠ COUNTER) then Err "invalid_counter_type"
  else
    step ← line_step step_;
    Ok (MetaData.mk metric endpoint ts step v type_ ∅).

(** [convertLine2MetaData] *)
Definition convertLine2MetaData (fields : list string) : result MetaData.t :=
  match fields with
  | [endpoint; metric; ts; v] => convert_fields endpoint metric ts v COUNTER None
  | [endpoint; metric; ts; v; type_] => convert_fields endpoint metric ts v type_ None
  | [endpoint; metric; ts; v; type_; step] => convert_fields endpoint metric ts v type_ (Some step)
  | _ => Err "not_enough_fileds"
  end.

Definition newline : ascii := "010"%char.

(** The lines that [ReadString] returns before the end of the connection: an
unfinished last line is dropped. *)
Definition read_lines (input : string) : list string :=
  (λ l, l +:+ String newline "") <$> removelast (split newline input).

(** The loop of [socketTelnetHandle] over the lines that arrive. *)
Fixpoint telnet_items (lines : list string) : list MetaData.t :=
  match lines with
  | [] => []
  | line :: lines =>
      let line := trim_char newline line in
      if decide (line = "quit") then []
      else if decide (line = "") then telnet_items lines
      else
        match Fields line with
        | cmd :: arg :: args =>
            if decide (cmd ≠ "update") then telnet_items lines
            else
              match convertLine2MetaData (arg :: args) with
              | Ok item => item :: telnet_items lines
              | Err _ => telnet_items lines
              end
        | _ => telnet_items lines
        end
  end.

(** [socketTelnetHandle] on the bytes received until the connection ends. *)
Definition socketTelnetHandle (input : string) (st : state) : go state :=
  let items := telnet_items (read_lines input) in
  let cnt := Z.of_nat (length items) in
  push_items false items (with_stats (IncrBy RecvCnt cnt (IncrBy SocketRecvCnt cnt st.(stats))) st).
End push.

(** ** Statistics *)

(** [calcSendCacheSize]; [kvs] is the order of the visit. *)
Definition calcSendCacheSize {A} (kvs : list (string * SafeListLimited.t A)) : Z :=
  foldl (λ cnt kv, cnt +₆₄ SafeListLimited.Len kv.2) 0 kvs.

(** [refreshSendingCacheSize] *)
Definition refreshSendingCacheSize (st : state) (now : Z)
    (JudgeQueuesCnt GraphQueuesCnt : SCounterBase.t) : SCounterBase.t * SCounterBase.t :=
  (SCounterBase.SetCnt (calcSendCacheSize (map_to_list st.(JudgeQueues))) now JudgeQueuesCnt,
   SCounterBase.SetCnt (calcSendCacheSize (map_to_list st.(GraphQueues))) now GraphQueuesCnt).

(** ** Delivery to a map of queues *)

Section deliver.
Context {A : Type}.
Implicit Types (m : gmap string (SafeListLimited.t A)) (kvs : list (string * A)).

(** Each element goes to the queue of its key. *)
Definition deliver kvs m : gmap string (SafeListLimited.t A) :=
  foldl (λ m kv, alter (λ Q, (SafeListLimited.PushFront kv.2 Q).2) kv.1 m) m kvs.

Lemma deliver_app kvs1 kvs2 m : deliver (kvs1 ++ kvs2) m = deliver kvs2 (deliver kvs1 m).
Proof. apply foldl_app. Qed.

(** A queue receives the elements of its key, in order, as long as there is room. *)
Lemma deliver_lookup kvs m k : deliver kvs m !! k = push_all (values_of k kvs) <$> m !! k.
Proof.
  revert m. induction kvs as [|[k' v] kvs IH]; intros m; [cbn; by destruct (m !! k)|].
  change (deliver kvs (alter (λ Q, (SafeListLimited.PushFront v Q).2) k' m) !! k =
    push_all (values_of k ((k', v) :: kvs)) <$> m !! k).
  rewrite IH, values_of_cons, lookup_alter. case_decide; subst; [|done].
  by destruct (m !! k).
Qed.

Lemma deliver_one m k v Q :
  m !! k = Some Q → <[k := (SafeListLimited.PushFront v Q).2]> m = deliver [(k, v)] m.
Proof.
  intros HQ. apply map_eq. intros k'. rewrite deliver_lookup, values_of_cons, lookup_insert.
  case_decide; subst; [by rewrite HQ|]. by destruct (m !! k').
Qed.

Lemma deliver_is_Some kvs m k : is_Some (m !! k) → is_Some (deliver kvs m !! k).
Proof. rewrite deliver_lookup. intros [Q ->]. by eexists. Qed.
End deliver.

(** ** Routing: specification *)

(** The beginning of the period in which [ts] falls. *)
Lemma alignTs_spec ts period :
  period ≠ 0 → int64 ts → alignTs ts period = Ret (ts - Z.rem ts period).
Proof.
  intros Hp Ht. unfold alignTs, go_rem. rewrite decide_False by done. cbn. rewrite wrap64_id; [done|].
  unfold int64 in *. destruct (Z.le_gt_cases 0 ts).
  - pose proof (Z.rem_nonneg ts period Hp). pose proof (Z.rem_le ts (Z.abs period)).
    rewrite (Z.rem_abs_r ts period) in * by done. lia.
  - pose proof (Z.rem_nonpos ts period Hp). pose proof (Z.rem_le (- ts) (Z.abs period)).
    rewrite (Z.rem_abs_r (- ts) period), Z.rem_opp_l in * by done. lia.
Qed.

#[export] Hint Resolve deliver_is_Some : go.
#[local] Arguments deliver {A} _ _ : simpl never.

Section spec.
Context {R : Type} `{!NodeRing R} (JudgeNodeRing GraphNodeRing : R) (cfg : config).

(** Points whose timestamp is an int64, as every decoded point's is. *)
Definition item_ok (item : MetaData.t) : Prop := int64 item.(MetaData.Timestamp).

Definition aligned (item : MetaData.t) : Z :=
  item.(MetaData.Timestamp) -
    Z.rem item.(MetaData.Timestamp) (step_of cfg.(MinStep) item.(MetaData.Step)).

Definition judge_item (item : MetaData.t) : JudgeItem.t :=
  JudgeItem.mk item.(MetaData.Endpoint) item.(MetaData.Metric) item.(MetaData.Value) (aligned item)
    item.(MetaData.CounterType) item.(MetaData.Tags).

Definition graph_item (item : MetaData.t) : option GraphItem.t :=
  '(dsType, min, max) ← ds_of item.(MetaData.CounterType);
  let step := step_of cfg.(MinStep) item.(MetaData.Step) in
  Some (GraphItem.mk item.(MetaData.Endpoint) item.(MetaData.Metric) item.(MetaData.Tags)
          item.(MetaData.Value) (aligned item) dsType step (step *₆₄ 2) min max).

(** Where an item goes: to the judge of its key, and to all the addresses of
the graph node of its key. *)
Definition judge_routes (item : MetaData.t) : list (string * JudgeItem.t) :=
  match GetNode JudgeNodeRing (MetaData.PK item) with Ok node => [(node, judge_item item)] | Err _ => [] end.
Definition graph_routes (item : MetaData.t) : list (string * GraphItem.t) :=
  match graph_item item, GetNode GraphNodeRing (MetaData.PK item) with
  | Some g, Ok node =>
      (λ addr, (node +:+ addr, g)) <$> default [] (ClusterList cfg.(GraphCluster) !! node)
  | _, _ => []
  end.

(** The queues that the rings and the configuration name exist. *)
Record wired (st : state) : Prop := Wired {
  wi_step : 1 <= cfg.(MinStep);
  wi_judge : ∀ n, n ∈ ring_members JudgeNodeRing → is_Some (st.(JudgeQueues) !! n);
  wi_graph : ∀ n, n ∈ ring_members GraphNodeRing →
    ∃ addrs, ClusterList cfg.(GraphCluster) !! n = Some addrs ∧
      ∀ a, a ∈ addrs → is_Some (st.(GraphQueues) !! (n +:+ a));
  wi_tsdb : cfg.(TsdbEnabled) = true → is_Some st.(TsdbQueue) }.

Lemma step_of_pos step : 1 <= cfg.(MinStep) → 1 <= step_of cfg.(MinStep) step.
Proof. unfold step_of. destruct (Z.ltb_spec step cfg.(MinStep)); lia. Qed.

(** Two states that differ in the statistics only. *)
Definition same_queues (st st' : state) : Prop :=
  st'.(JudgeQueues) = st.(JudgeQueues) ∧ st'.(GraphQueues) = st.(GraphQueues) ∧
  st'.(TsdbQueue) = st.(TsdbQueue).

Lemma push_judge_spec st item :
  wired st → item_ok item →
  ∃ st', push_judge JudgeNodeRing cfg st item = Ret st' ∧
    st'.(JudgeQueues) = deliver (judge_routes item) st.(JudgeQueues) ∧
    st'.(GraphQueues) = st.(GraphQueues) ∧ st'.(TsdbQueue) = st.(TsdbQueue).
Proof.
  intros Hw Hi. unfold push_judge, judge_routes. destruct (GetNode _ _) as [node|] eqn:E; [|by exists st].
  unfold convert2JudgeItem. pose proof (step_of_pos (MetaData.Step item) (wi_step _ Hw)).
  rewrite alignTs_spec by (done || lia). cbn.
  destruct (wi_judge _ Hw node) as [Q HQ]; [by eapply GetNode_member|]. rewrite HQ. cbn.
  fold (aligned item) (judge_item item).
  destruct (SafeListLimited.PushFront (judge_item item) Q) as [b Q'] eqn:EQ.
  eexists. split; [done|]. rewrite <- (deliver_one _ _ _ Q) by done. rewrite EQ. by destruct b.
Qed.

Lemma push_addr_spec node g addrs st n :
  (∀ a, a ∈ addrs → is_Some (st.(GraphQueues) !! (node +:+ a))) →
  ∃ st' n', go_foldl (push_addr node g) (st, n) addrs = Ret (st', n') ∧
    st'.(GraphQueues) = deliver ((λ addr, (node +:+ addr, g)) <$> addrs) st.(GraphQueues) ∧
    st'.(JudgeQueues) = st.(JudgeQueues) ∧ st'.(TsdbQueue) = st.(TsdbQueue) ∧ st'.(stats) = st.(stats).
Proof.
  revert st n. induction addrs as [|a addrs IH]; intros st n Ha; [by exists st, n|]. cbn.
  destruct (Ha a) as [Q HQ]; [by left|]. rewrite HQ. cbn.
  destruct (SafeListLimited.PushFront g Q) as [b Q'] eqn:EQ. cbn.
  destruct (IH (with_GraphQueues (<[node +:+ a := Q']> st.(GraphQueues)) st) (if b then n else n + 1))
    as (st' & n' & -> & H1 & H2 & H3 & H4).
  { intros a' Ha'. cbn. rewrite lookup_insert_is_Some'. right. apply Ha. by right. }
  exists st', n'. split_and!; [done| |done..]. rewrite H1. cbn [GraphQueues with_GraphQueues].
  replace Q' with (SafeListLimited.PushFront g Q).2 by (by rewrite EQ).
  rewrite (deliver_one _ _ _ Q) by done. symmetry. apply (deliver_app [(node +:+ a, g)]).
Qed.

Lemma push_graph_spec st item :
  wired st → item_ok item →
  ∃ st', push_graph GraphNodeRing cfg st item = Ret st' ∧
    st'.(GraphQueues) = deliver (graph_routes item) st.(GraphQueues) ∧
    st'.(JudgeQueues) = st.(JudgeQueues) ∧ st'.(TsdbQueue) = st.(TsdbQueue).
Proof.
  intros Hw Hi. unfold push_graph, convert2GraphItem, graph_routes, graph_item.
  destruct (ds_of _) as [[[dsType min] max]|]; cbn; [|by exists st].
  pose proof (step_of_pos (MetaData.Step item) (wi_step _ Hw)).
  rewrite alignTs_spec by (done || lia). cbn.
  destruct (GetNode _ _) as [node|] eqn:E; [|by exists st].
  destruct (wi_graph _ Hw node) as (addrs & Ha & HQ); [by eapply GetNode_member|]. rewrite Ha. cbn.
  match goal with |- context [push_addr node ?g] => set (gi := g) end.
  destruct (push_addr_spec node gi addrs st 0 HQ) as (st' & n' & -> & H1 & H2 & H3 & _). cbn.
  eexists. split; [done|]. by destruct (0 <? n').
Qed.

Lemma push_tsdb_spec st item Q :
  st.(TsdbQueue) = Some Q →
  ∃ st', push_tsdb st item = Ret st' ∧
    st'.(TsdbQueue) = Some (SafeListLimited.PushFront (convert2TsdbItem item) Q).2 ∧
    st'.(GraphQueues) = st.(GraphQueues) ∧ st'.(JudgeQueues) = st.(JudgeQueues).
Proof.
  intros HQ. unfold push_tsdb. rewrite HQ. cbn.
  destruct (SafeListLimited.PushFront _ Q) as [b Q']. eexists. split; [done|]. by destruct b.
Qed.

Lemma wired_queues st st' :
  wired st →
  (∀ n, is_Some (st.(JudgeQueues) !! n) → is_Some (st'.(JudgeQueues) !! n)) →
  (∀ n, is_Some (st.(GraphQueues) !! n) → is_Some (st'.(GraphQueues) !! n)) →
  (is_Some st.(TsdbQueue) → is_Some st'.(TsdbQueue)) →
  wired st'.
Proof.
  intros [] HJ HG HT. split; [done|auto| |auto]. intros n Hn.
  destruct (wi_graph0 n Hn) as (addrs & Ha & HQ). exists addrs. split; [done|]. auto.
Qed.

Lemma Push2JudgeSendQueue_spec items st :
  wired st → Forall item_ok items →
  ∃ st', Push2JudgeSendQueue JudgeNodeRing cfg items st = Ret st' ∧ wired st' ∧
    st'.(JudgeQueues) = deliver (items ≫= judge_routes) st.(JudgeQueues) ∧
    st'.(GraphQueues) = st.(GraphQueues) ∧ st'.(TsdbQueue) = st.(TsdbQueue).
Proof.
  intros Hw Hi. revert st Hw. induction Hi as [|item items Hit _ IH]; intros st Hw; [by exists st|].
  destruct (push_judge_spec st item Hw Hit) as (st1 & E & H1 & H2 & H3).
  destruct (IH st1) as (st2 & E2 & Hw2 & H4 & H5 & H6).
  { apply (wired_queues st); [done|..]; rewrite ?H1, ?H2, ?H3; [|done..]. intros n. apply deliver_is_Some. }
  exists st2. unfold Push2JudgeSendQueue in *. cbn [go_foldl]. rewrite E. cbn [mbind go_bind].
  split_and!; [done|done| |congruence..]. by rewrite H4, H1, bind_cons, deliver_app.
Qed.

Lemma Push2GraphSendQueue_spec items st :
  wired st → Forall item_ok items →
  ∃ st', Push2GraphSendQueue GraphNodeRing cfg items st = Ret st' ∧ wired st' ∧
    st'.(GraphQueues) = deliver (items ≫= graph_routes) st.(GraphQueues) ∧
    st'.(JudgeQueues) = st.(JudgeQueues) ∧ st'.(TsdbQueue) = st.(TsdbQueue).
Proof.
  intros Hw Hi. revert st Hw. induction Hi as [|item items Hit _ IH]; intros st Hw; [by exists st|].
  destruct (push_graph_spec st item Hw Hit) as (st1 & E & H1 & H2 & H3).
  destruct (IH st1) as (st2 & E2 & Hw2 & H4 & H5 & H6).
  { apply (wired_queues st); [done|..]; rewrite ?H1, ?H2, ?H3; [done| |done]. intros n. apply deliver_is_Some. }
  exists st2. unfold Push2GraphSendQueue in *. cbn [go_foldl]. rewrite E. cbn [mbind go_bind].
  split_and!; [done|done| |congruence..]. by rewrite H4, H1, bind_cons, deliver_app.
Qed.

Lemma Push2TsdbSendQueue_spec items st Q :
  st.(TsdbQueue) = Some Q →
  ∃ st', Push2TsdbSendQueue items st = Ret st' ∧
    st'.(TsdbQueue) = Some (push_all (convert2TsdbItem <$> items) Q) ∧
    st'.(GraphQueues) = st.(GraphQueues) ∧ st'.(JudgeQueues) = st.(JudgeQueues).
Proof.
  revert st Q. induction items as [|item items IH]; intros st Q HQ; [by exists st|].
  destruct (push_tsdb_spec st item Q HQ) as (st1 & E & H1 & H2 & H3).
  destruct (IH st1 _ H1) as (st2 & E2 & H4 & H5 & H6).
  exists st2. unfold Push2TsdbSendQueue in *. cbn [go_foldl]. rewrite E. cbn [mbind go_bind].
  split_and!; [done| |congruence..]. rewrite H4. done.
Qed.

(** What the queues hold once the items are pushed. *)
Definition delivered (tsdb : bool) (items : list MetaData.t) (st st' : state) : Prop :=
  st'.(JudgeQueues) =
    (if cfg.(JudgeEnabled) then deliver (items ≫= judge_routes) st.(JudgeQueues) else st.(JudgeQueues)) ∧
  st'.(GraphQueues) =
    (if cfg.(GraphEnabled) then deliver (items ≫= graph_routes) st.(GraphQueues) else st.(GraphQueues)) ∧
  st'.(TsdbQueue) =
    (if tsdb && cfg.(TsdbEnabled) then push_all (convert2TsdbItem <$> items) <$> st.(TsdbQueue)
     else st.(TsdbQueue)).

Lemma push_items_spec tsdb items st :
  wired st → Forall item_ok items →
  ∃ st', push_items JudgeNodeRing GraphNodeRing cfg tsdb items st = Ret st' ∧
    delivered tsdb items st st'.
Proof.
  intros Hw Hi. unfold push_items, delivered.
  assert (∃ st1, (if cfg.(GraphEnabled) then Push2GraphSendQueue GraphNodeRing cfg items st else Ret st) = Ret st1
    ∧ wired st1 ∧ st1.(GraphQueues) = (if cfg.(GraphEnabled) then deliver (items ≫= graph_routes) st.(GraphQueues) else st.(GraphQueues))
    ∧ st1.(JudgeQueues) = st.(JudgeQueues) ∧ st1.(TsdbQueue) = st.(TsdbQueue)) as (st1 & -> & Hw1 & HG1 & HJ1 & HT1).
  { destruct cfg.(GraphEnabled); [by apply Push2GraphSendQueue_spec|]. by exists st. }
  cbn [mbind go_bind].
  assert (∃ st2, (if cfg.(JudgeEnabled) then Push2JudgeSendQueue JudgeNodeRing cfg items st1 else Ret st1) = Ret st2
    ∧ wired st2 ∧ st2.(JudgeQueues) = (if cfg.(JudgeEnabled) then deliver (items ≫= judge_routes) st1.(JudgeQueues) else st1.(JudgeQueues))
    ∧ st2.(GraphQueues) = st1.(GraphQueues) ∧ st2.(TsdbQueue) = st1.(TsdbQueue)) as (st2 & -> & Hw2 & HJ2 & HG2 & HT2).
  { destruct cfg.(JudgeEnabled); [by apply Push2JudgeSendQueue_spec|]. by exists st1. }
  cbn [mbind go_bind]. destruct (tsdb && cfg.(TsdbEnabled)) eqn:Eb.
  - apply andb_true_iff in Eb as [_ Eb]. destruct (wi_tsdb _ Hw2 Eb) as [Q HQ].
    destruct (Push2TsdbSendQueue_spec items st2 Q HQ) as (st3 & -> & H1 & H2 & H3).
    exists st3. split; [done|]. rewrite H1, H2, H3, HJ2, HG2, HG1, HJ1.
    replace (TsdbQueue st) with (Some Q) by congruence. done.
  - exists st2. split; [done|]. rewrite HJ2, HG2, HG1, HJ1. split_and!; [done..|congruence].
Qed.
End spec.

(** ** The loops of the receivers *)

Lemma foldl_recv_body now args acc :
  - 2 ^ 62 <= acc.2 <= 2 ^ 62 → Z.of_nat (length args) <= 2 ^ 62 - acc.2 →
  foldl (recv_body now) acc args =
    (acc.1 ++ omap (recv_item now) args,
     acc.2 + (Z.of_nat (length args) - Z.of_nat (length (omap (recv_item now) args)))).
Proof.
  revert acc. induction args as [|v args IH]; intros [items n] H1 H2; cbn [fst snd] in *.
  - cbn. rewrite app_nil_r. f_equal. lia.
  - cbn [foldl length] in *. unfold recv_body at 2. cbn [omap list_omap].
    destruct (recv_item now v) as [fv|]; cbn [fst snd].
    + rewrite IH by (cbn; lia). cbn [fst snd length]. f_equal; [by rewrite <- app_assoc|lia].
    + rewrite wrap64_id by (unfold int64; lia). rewrite IH by (cbn; lia). cbn [fst snd]. f_equal. lia.
Qed.

(** What makes a point acceptable. *)
Definition acceptable (v : MetricValue.t) : Prop :=
  v.(MetricValue.Metric) ≠ "kernel.hostname" ∧ v.(MetricValue.Metric) ≠ "" ∧ v.(MetricValue.Endpoint) ≠ "" ∧
  v.(MetricValue.Type_) ∈ [COUNTER; GAUGE; DERIVE] ∧ 0 < v.(MetricValue.Step) ∧
  slen v.(MetricValue.Metric) + slen v.(MetricValue.Tags) <= 510 ∧
  is_Some (float_of_value v.(MetricValue.Value)).

Lemma float_of_empty v : is_empty_value v = true → float_of_value v = None.
Proof. destruct v as [[]| | | |]; done. Qed.

Lemma recv_item_inv now v fv :
  recv_item now v = Some fv →
  ∃ m vv, v = Some m ∧ acceptable m ∧ float_of_value m.(MetricValue.Value) = Some vv ∧
    fv = MetaData.mk m.(MetricValue.Metric) m.(MetricValue.Endpoint)
      (if (m.(MetricValue.Timestamp) <=? 0) || (now *₆₄ 2 <? m.(MetricValue.Timestamp)) then now
       else m.(MetricValue.Timestamp))
      m.(MetricValue.Step) vv m.(MetricValue.Type_) (DictedTagstring m.(MetricValue.Tags)).
Proof.
  destruct v as [m|]; [|done]. unfold recv_item. cbn. intros H. repeat case_decide; try done.
  destruct (is_empty_value _); [done|]. destruct (Z.leb_spec (MetricValue.Step m) 0); [done|].
  destruct (Z.ltb_spec 510 (slen (MetricValue.Metric m) + slen (MetricValue.Tags m))); [done|].
  destruct (float_of_value (MetricValue.Value m)) as [vv|] eqn:Ev; cbn in H; [|done]. simplify_eq.
  exists m, vv. split_and!; try done. unfold acceptable. split_and!; try done; try tauto.
  rewrite !elem_of_cons.
  destruct (decide (MetricValue.Type_ m = COUNTER)), (decide (MetricValue.Type_ m = GAUGE)),
    (decide (MetricValue.Type_ m = DERIVE)); tauto.
Qed.

Lemma telnet_items_ok lines :
  Forall (λ it, it.(MetaData.CounterType) ∈ [COUNTER; GAUGE; DERIVE] ∧ it.(MetaData.Tags) = ∅ ∧
    int64 it.(MetaData.Timestamp)) (telnet_items lines).
Proof.
  assert (∀ fields it, convertLine2MetaData fields = Ok it →
    it.(MetaData.CounterType) ∈ [COUNTER; GAUGE; DERIVE] ∧ it.(MetaData.Tags) = ∅ ∧ int64 it.(MetaData.Timestamp)) as Hc.
  { intros fields it H.
    assert (∃ e m ts v ty st, convert_fields e m ts v ty st = Ok it) as (e & m & ts_ & v_ & ty & step_ & E).
    { unfold convertLine2MetaData in H. repeat case_match; try done; eauto 10. }
    unfold convert_fields in E. apply result_bind_Ok in E as (ts & Hts & E).
    apply result_bind_Ok in E as (v & Hv & E). case_decide as Hd; [done|].
    apply result_bind_Ok in E as (step & Hstep & E). simplify_eq. cbn.
    split; [|split; [done|by apply ParseInt_bounds in Hts]]. rewrite !elem_of_cons.
    destruct (decide (ty = COUNTER)), (decide (ty = GAUGE)), (decide (ty = DERIVE)); tauto. }
  induction lines as [|line lines IH]; cbn [telnet_items]; [constructor|]. repeat case_decide; try done.
  destruct (Fields _) as [|cmd [|a args]]; [done..|]. case_decide; [done|].
  destruct (convertLine2MetaData _) as [it|] eqn:E; [|done]. constructor; [by eapply Hc|done].
Qed.

(** ** Properties *)

(** Timestamps are aligned to the beginning of their period, without a
panic, whatever the (positive) period. *)
Theorem alignTs_correct ts period :
  int64 ts → 0 <= ts → 1 <= period →
  ∃ a, alignTs ts period = Ret a ∧ a = period * (ts / period) ∧ ts - period < a <= ts.
Proof.
  intros Ht H0 Hp. rewrite alignTs_spec by (done || lia). eexists. split; [done|].
  rewrite Z.rem_mod_nonneg by lia. pose proof (Z.mod_pos_bound ts period). pose proof (Z.div_mod ts period).
  lia.
Qed.

Example alignTs_correct_witness : ∃ a, alignTs 1500000047 60 = Ret a ∧ 1500000047 - 60 < a <= 1500000047.
Proof.
  destruct (alignTs_correct 1500000047 60) as (a & H1 & _ & H3); [unfold int64; lia|lia|lia|].
  exists a. split; [exact H1|exact H3].
Defined.

(** A point is accepted exactly when it is acceptable: not the legacy
host name metric, named, of a known type, with a positive step, short enough
and with a numeric value.  It keeps its fields; its tags are parsed, and its
timestamp is replaced by the present when it is not positive or too far ahead. *)
Theorem recv_item_accepts now m :
  (is_Some (recv_item now (Some m)) ↔ acceptable m) ∧
  (∀ fv, recv_item now (Some m) = Some fv →
    fv.(MetaData.Metric) = m.(MetricValue.Metric) ∧ fv.(MetaData.Endpoint) = m.(MetricValue.Endpoint) ∧
    fv.(MetaData.Step) = m.(MetricValue.Step) ∧ fv.(MetaData.CounterType) = m.(MetricValue.Type_) ∧
    fv.(MetaData.Tags) = DictedTagstring m.(MetricValue.Tags) ∧
    float_of_value m.(MetricValue.Value) = Some fv.(MetaData.Value) ∧
    (int64 (now * 2) → 0 < now → 0 < fv.(MetaData.Timestamp) <= now * 2)) ∧
  recv_item now None = None.
Proof.
  split_and!; [|intros fv H|done].
  - split; [by intros (fv & (m' & vv & [= <-] & Ha & _)%recv_item_inv)|].
    intros (H1 & H2 & H3 & H4 & H5 & H6 & vv & H7). unfold recv_item. cbn.
    rewrite decide_False by done. rewrite decide_False by tauto.
    rewrite !elem_of_cons in H4. rewrite decide_False by (intros (? & ? & ?); destruct H4 as [?|[?|[?|?%elem_of_nil]]]; done).
    destruct (is_empty_value _) eqn:Ee; [by rewrite float_of_empty in H7|].
    destruct (Z.leb_spec (MetricValue.Step m) 0); [lia|].
    destruct (Z.ltb_spec 510 (slen (MetricValue.Metric m) + slen (MetricValue.Tags m))); [lia|].
    rewrite H7. cbn. by eexists.
  - apply recv_item_inv in H as (m' & vv & [= <-] & Ha & Hv & ->). cbn. split_and!; try done.
    intros Hn Hp. rewrite wrap64_id by done. destruct (Z.leb_spec (MetricValue.Timestamp m) 0); cbn; [lia|].
    destruct (Z.ltb_spec (now * 2) (MetricValue.Timestamp m)); lia.
Qed.

Section properties.
Context {R : Type} `{!NodeRing R} (JudgeNodeRing GraphNodeRing : R) (cfg : config) (now : Z).

Definition routed_judge (node : string) (items : list MetaData.t) : list JudgeItem.t :=
  values_of node (items ≫= judge_routes JudgeNodeRing cfg).
Definition routed_graph (key : string) (items : list MetaData.t) : list GraphItem.t :=
  values_of key (items ≫= graph_routes GraphNodeRing cfg).

(** Each queue of an enabled backend gains the items routed to it, newest in
front, as long as there is room. *)
Definition queued (tsdb : bool) (items : list MetaData.t) (st st' : state) : Prop :=
  let room {A} (Q : SafeListLimited.t A) :=
    Z.to_nat (Q.(SafeListLimited.maxSize) - Z.of_nat (length Q.(SafeListLimited.SL))) in
  (∀ node Q, cfg.(JudgeEnabled) = true → st.(JudgeQueues) !! node = Some Q →
    ∃ Q', st'.(JudgeQueues) !! node = Some Q' ∧
      Q'.(SafeListLimited.SL) = reverse (take (room Q) (routed_judge node items)) ++ Q.(SafeListLimited.SL)) ∧
  (∀ key Q, cfg.(GraphEnabled) = true → st.(GraphQueues) !! key = Some Q →
    ∃ Q', st'.(GraphQueues) !! key = Some Q' ∧
      Q'.(SafeListLimited.SL) = reverse (take (room Q) (routed_graph key items)) ++ Q.(SafeListLimited.SL)) ∧
  (∀ Q, tsdb = true → cfg.(TsdbEnabled) = true → st.(TsdbQueue) = Some Q →
    ∃ Q', st'.(TsdbQueue) = Some Q' ∧
      Q'.(SafeListLimited.SL) = reverse (take (room Q) (convert2TsdbItem <$> items)) ++ Q.(SafeListLimited.SL)).

Lemma delivered_queued tsdb items st st' :
  delivered JudgeNodeRing GraphNodeRing cfg tsdb items st st' → queued tsdb items st st'.
Proof.
  intros (HJ & HG & HT). split_and!.
  - intros node Q E HQ. rewrite E in HJ. rewrite HJ, deliver_lookup, HQ.
    eexists. split; [done|]. apply push_all_spec.
  - intros key Q E HQ. rewrite E in HG. rewrite HG, deliver_lookup, HQ.
    eexists. split; [done|]. apply push_all_spec.
  - intros Q -> E HQ. rewrite E in HT. cbn in HT. rewrite HT, HQ. eexists. split; [done|].
    apply push_all_spec.
Qed.

(** C40. A request never makes the transfer panic: every point is either
accepted or counted as invalid, and each queue gains, in order, the converted
points that the rings route to it, as long as it has room. *)
Theorem RecvMetricValues_correct args from elapsed st :
  wired JudgeNodeRing GraphNodeRing cfg st → int64 now →
  Forall (λ v, match v with Some m => int64 m.(MetricValue.Timestamp) | None => True end) args →
  Z.of_nat (length args) <= 2 ^ 62 →
  let items := omap (recv_item now) args in
  ∃ reply st', RecvMetricValues JudgeNodeRing GraphNodeRing cfg now args from elapsed st = Ret (reply, st') ∧
    reply.(Total) = Z.of_nat (length args) ∧
    reply.(Invalid) + Z.of_nat (length items) = reply.(Total) ∧
    queued true items st st'.
Proof.
  intros Hw Hn Ha Hl items. unfold RecvMetricValues. rewrite foldl_recv_body by (cbn; lia). cbn [fst snd app].
  fold items. match goal with |- context [push_items _ _ _ _ _ ?s] => set (st1 := s) end.
  assert (Forall item_ok items) as Hi.
  { rewrite Forall_forall in Ha. rewrite Forall_forall. intros fv Hfv.
    apply list_elem_of_omap in Hfv as (v & Hv & H). specialize (Ha v Hv).
    apply recv_item_inv in H as (m & vv & -> & _ & _ & ->). unfold item_ok. cbn in *. by destruct (_ || _). }
  destruct (push_items_spec JudgeNodeRing GraphNodeRing cfg true items st1) as (st2 & -> & Hd).
  { by apply (wired_queues _ _ _ st). }
  { done. }
  cbn. eexists _, _. split; [done|]. cbn. split_and!; [done|lia|]. by apply delivered_queued in Hd.
Qed.

(** Whatever bytes arrive on the telnet port, the handler returns; the
points of its well-formed [update] lines before a [quit] have a known type
and reach the queues as those of a request do. *)
Theorem socketTelnetHandle_correct input st :
  wired JudgeNodeRing GraphNodeRing cfg st →
  let items := telnet_items (read_lines input) in
  Forall (λ it, it.(MetaData.CounterType) ∈ [COUNTER; GAUGE; DERIVE]) items ∧
  ∃ st', socketTelnetHandle JudgeNodeRing GraphNodeRing cfg input st = Ret st' ∧
    queued false items st st'.
Proof.
  intros Hw items. pose proof (telnet_items_ok (read_lines input)) as Hok. fold items in Hok.
  split; [eapply Forall_impl; [exact Hok|]; by intros it (? & _)|]. unfold socketTelnetHandle. fold items.
  match goal with |- context [push_items _ _ _ _ _ ?s] => set (st1 := s) end.
  destruct (push_items_spec JudgeNodeRing GraphNodeRing cfg false items st1) as (st2 & -> & Hd).
  { by apply (wired_queues _ _ _ st). }
  { eapply Forall_impl; [exact Hok|]. by intros it (_ & _ & ?). }
  exists st2. split; [done|]. by apply delivered_queued in Hd.
Qed.
End properties.

(** ** Concrete runs *)

Definition ex_ring_of (nodes : list string) : Consistent.t :=
  match NewConsistentHashNodesRing 2 nodes with Ret c => c | Panic _ => Consistent.New end.
Lemma ex_ring_wf nodes : ring_wf (ex_ring_of nodes).
Proof. unfold ex_ring_of. destruct (NewRing_wf 2 nodes) as (c & -> & Hc & _); [lia|done]. Qed.
Definition ex_ring (nodes : list string) : Ring := MkRing (ex_ring_of nodes) (ex_ring_wf nodes).

Definition ex_cfg : config := Config 30 true true false ∅ {["g0" := "a:1, b:1"]}.
Definition ex_state : state :=
  initSendQueues [("j0", "h:1")] [("g0", ["a:1"; "b:1"])] false (λ _, 0).

Lemma ex_wired : wired (ex_ring ["j0"]) (ex_ring ["g0"]) ex_cfg ex_state.
Proof.
  split; cbn [MinStep TsdbEnabled ex_cfg]; [lia| | |done].
  - intros n Hn. vm_compute in Hn. apply list_elem_of_singleton in Hn as ->. by eexists.
  - intros n Hn. vm_compute in Hn. apply list_elem_of_singleton in Hn as ->.
    exists ["a:1"; "b:1"]. split; [vm_compute; reflexivity|].
    intros a [->|[->|Ha%elem_of_nil]%elem_of_cons]%elem_of_cons; [by eexists..|done].
Qed.

Definition ex_metric : MetricValue.t :=
  MetricValue.mk "host" "cpu" (VInt64 5) 60 "GAUGE" "a=b" 1500000047.

Example recv_item_accepts_witness : is_Some (recv_item 1500000050 (Some ex_metric)).
Proof.
  apply (proj1 (recv_item_accepts 1500000050 ex_metric)).
  unfold acceptable. cbn. split_and!; try done. right. left.
Defined.

Example RecvMetricValues_correct_witness :
  ∃ reply st', RecvMetricValues (ex_ring ["j0"]) (ex_ring ["g0"]) ex_cfg 1500000050 [Some ex_metric; None] "rpc" 0 ex_state
      = Ret (reply, st') ∧ reply.(Total) = 2 ∧ reply.(Invalid) = 1 ∧
    ∃ Q, st'.(GraphQueues) !! "g0b:1" = Some Q ∧
      GraphItem.Timestamp <$> Q.(SafeListLimited.SL) = [1500000000].
Proof.
  destruct (RecvMetricValues_correct (ex_ring ["j0"]) (ex_ring ["g0"]) ex_cfg 1500000050
    [Some ex_metric; None] "rpc" 0 ex_state) as (reply & st' & H1 & H2 & H3 & _ & H4 & _).
  - apply ex_wired.
  - unfold int64. lia.
  - repeat constructor; unfold int64; cbn; lia.
  - cbn. lia.
  - exists reply, st'. split; [exact H1|]. split; [exact H2|]. split.
    + assert (length (omap (recv_item 1500000050) [Some ex_metric; None]) = 1%nat) as E
        by (vm_compute; reflexivity).
      rewrite H2, E in H3. cbn in H3. lia.
    + destruct (H4 "g0b:1" (SafeListLimited.New DefaultSendQueueMaxSize) eq_refl) as (Q' & HQ & HSL);
        [vm_compute; reflexivity|].
      exists Q'. split; [exact HQ|]. rewrite HSL. vm_compute. reflexivity.
Defined.

Example socketTelnetHandle_correct_witness :
  ∃ st', socketTelnetHandle (ex_ring ["j0"]) (ex_ring ["g0"]) ex_cfg
      ("update h cpu 1500000047 3.5 GAUGE 60" +:+ String newline "quit" +:+ String newline "") ex_state = Ret st' ∧
    ∃ Q, st'.(JudgeQueues) !! "j0" = Some Q ∧
      JudgeItem.Timestamp <$> Q.(SafeListLimited.SL) = [1500000000].
Proof.
  destruct (socketTelnetHandle_correct (ex_ring ["j0"]) (ex_ring ["g0"]) ex_cfg
    ("update h cpu 1500000047 3.5 GAUGE 60" +:+ String newline "quit" +:+ String newline "") ex_state)
    as (_ & st' & H1 & H2 & _).
  - apply ex_wired.
  - exists st'. split; [exact H1|].
    destruct (H2 "j0" (SafeListLimited.New DefaultSendQueueMaxSize) eq_refl) as (Q' & HQ & HSL);
      [vm_compute; reflexivity|].
    exists Q'. split; [exact HQ|]. rewrite HSL. vm_compute. reflexivity.
Defined.
