(* ===== verification/SendTasks.v ===== *)
(** * Transfer: the sending tasks

modules/transfer/sender/send_tasks.go.  Each send queue has a task that takes
batches from the back of the queue and hands each to a goroutine of its own,
as many at a time as a semaphore (vendor/github.com/toolkits/concurrent) allows.
The receivers, the task and the goroutines interleave: the system is a step
relation whose labels say what happened, [run] its finite executions.

[forward2JudgeTask] and [forward2GraphTask] are the same code up to the type of
the items and the names of the counters; [forward2TsdbTask] differs in its
retries; forward2TransferTask of the gateway has a loop over hosts in its place.
The section is parametric in these three: [A] are the items, [C] the names of
counters, [W] what a goroutine meets while it sends. *)

From AAC_tactics Require Import AAC.
From AAC_tactics Require Instances.
From stdpp Require Import functions.
From S2P Require Import Prelude GoFloat GoString Hash Tags Model Containers Transfer.
From Stdlib Require Import Ascii.
From stdpp Require Import options.
Import Instances.Lists.

(** Reordering appended lists, for [aac_reflexivity]. *)
#[local] Instance lift_Permutation {A} : AAC_lift (@Permutation A) (@Permutation A).
Proof. split; apply _. Qed.

#[export] Instance result_inhabited `{Inhabited A} : Inhabited (result A) := populate (Ok inhabitant).

(** [startSendTasks]: the size of a semaphore *)
Definition concurrency (MaxConns : Z) : Z := if MaxConns <? 1 then 1 else MaxConns.

(** The retry loop of the Judge and Graph tasks: at most [n] calls, the first
of which is the [i]-th; did one succeed? *)
Fixpoint attempts (n i : nat) (call : nat → result unit) : bool :=
  match n with
  | O => false
  | S n => if is_ok (call i) then true else attempts n (S i) call
  end.

(** The outcome of a goroutine: it counts its items as sent, as failed, or not at all. *)
Definition rpc_outcome (call : nat → result unit) : option bool := Some (attempts 3 0 call).

(** In the Tsdb task [err] is nil when there was no attempt. *)
Definition tsdb_outcome (retry : Z) (call : nat → result unit) : option bool :=
  if retry <? 1 then None else Some (attempts (Z.to_nat retry) 0 call).

(** What the Tsdb goroutine sends; each item comes with the visit of its tags. *)
Definition tsdb_payload (items : list (TsdbItem.t * list (string * string))) : string :=
  foldl (λ b it, b +:+ TsdbItem.TsdbString it.2 it.1 +:+ String newline "") "" items.

Section task.
Context {A : Type} `{EqDecision C} `{HW : Inhabited W} (batch concurrent : Z) (okCnt failCnt : C)
  (outcome : W → option bool).

(** The state of a queue and its task: [held] is the batch that was popped and
waits for the semaphore, [permits] the permits in use, [workers] the batches
of the running goroutines. *)
Record task : Type := Task {
  Q : SafeListLimited.t A; held : option (list A); permits : Z; workers : list (list A); tstats : C → Z }.

Inductive label : Type :=
| LPush (v : A) (accepted : bool)
| LPop (items : list A)
| LAcquire (items : list A)
| LDone (items : list A) (sendOk : option bool).

Definition task_push (v : A) (t : task) : bool * task :=
  let '(b, q) := SafeListLimited.PushFront v t.(Q) in
  (b, Task q t.(held) t.(permits) t.(workers) t.(tstats)).

(** The head of the loop; the task sleeps when the queue is empty. *)
Definition task_pop (t : task) : go (list A * task) :=
  r ← SafeListLimited.PopBackBy batch t.(Q);
  let '(items, q) := r : list A * SafeListLimited.t A in
  Ret (items, if decide (length items = 0%nat) then Task q t.(held) t.(permits) t.(workers) t.(tstats)
              else Task q (Some items) t.(permits) t.(workers) t.(tstats)).

(** [sema.Acquire()] and the start of the goroutine *)
Definition task_acquire (items : list A) (t : task) : task :=
  Task t.(Q) None (t.(permits) + 1) (t.(workers) ++ [items]) t.(tstats).

(** The end of the [i]-th goroutine: the statistics, and [sema.Release()] *)
Definition task_done (i : nat) (items : list A) (sendOk : option bool) (t : task) : task :=
  let count := Z.of_nat (length items) in
  Task t.(Q) t.(held) (t.(permits) - 1) (delete i t.(workers))
    match sendOk with
    | Some true => IncrBy okCnt count t.(tstats)
    | Some false => IncrBy failCnt count t.(tstats)
    | None => t.(tstats)
    end.

Inductive step : task → label → task → Prop :=
| step_push v t : step t (LPush v (task_push v t).1) (task_push v t).2
| step_pop t t' items :
    t.(held) = None → task_pop t = Ret (items, t') → items ≠ [] → step t (LPop items) t'
| step_acquire t items :
    t.(held) = Some items → t.(permits) < concurrent → step t (LAcquire items) (task_acquire items t)
| step_done t i items call :
    t.(workers) !! i = Some items →
    step t (LDone items (outcome call)) (task_done i items (outcome call) t).

(** Executions *)
Inductive run : task → list label → task → Prop :=
| run_nil t : run t [] t
| run_snoc t tr t1 l t2 : run t tr t1 → step t1 l t2 → run t (tr ++ [l]) t2.

Definition start (maxSize : Z) (p : C → Z) : task := Task (SafeListLimited.New maxSize) None 0 [] p.

(** What an execution accepted, took, delivered, gave up and forgot. *)
Definition accepted (tr : list label) : list A :=
  tr ≫= λ l, match l with LPush v true => [v] | _ => [] end.
Definition taken (tr : list label) : list A :=
  tr ≫= λ l, match l with LPop items => items | _ => [] end.
Definition finished (ok : option bool) (tr : list label) : list A :=
  tr ≫= λ l, match l with LDone items ok' => if decide (ok' = ok) then items else [] | _ => [] end.

(** ** The invariant *)

Record task_ok (p0 : C → Z) (tr : list label) (t : task) : Prop := TaskOk {
  to_fifo : accepted tr = taken tr ++ reverse t.(Q).(SafeListLimited.SL);
  to_taken : taken tr ≡ₚ finished (Some true) tr ++ finished (Some false) tr ++ finished None tr ++
    concat t.(workers) ++ default [] t.(held);
  to_permits : t.(permits) = Z.of_nat (length t.(workers));
  to_bound : t.(permits) <= concurrent;
  to_size : Z.of_nat (length t.(Q).(SafeListLimited.SL)) <= t.(Q).(SafeListLimited.maxSize);
  to_held : ∀ items, t.(held) = Some items → items ≠ [] ∧ Z.of_nat (length items) <= batch;
  to_workers : Forall (λ items, items ≠ [] ∧ Z.of_nat (length items) <= batch) t.(workers);
  to_sent : (t.(tstats) okCnt =
    wrap64 (p0 okCnt + Z.of_nat (length (finished (Some true) tr))));
  to_failed : (t.(tstats) failCnt =
    wrap64 (p0 failCnt + Z.of_nat (length (finished (Some false) tr)))) }.

Lemma accepted_snoc tr l :
  accepted (tr ++ [l]) = accepted tr ++ match l with LPush v true => [v] | _ => [] end.
Proof. unfold accepted. rewrite bind_app. cbn. by rewrite app_nil_r. Qed.
Lemma taken_snoc tr l :
  taken (tr ++ [l]) = taken tr ++ match l with LPop items => items | _ => [] end.
Proof. unfold taken. rewrite bind_app. cbn. by rewrite app_nil_r. Qed.
Lemma finished_snoc ok tr l :
  finished ok (tr ++ [l]) = finished ok tr ++
    match l with LDone items ok' => if decide (ok' = ok) then items else [] | _ => [] end.
Proof. unfold finished. rewrite bind_app. cbn. by rewrite app_nil_r. Qed.

Lemma Cnt_IncrBy s n (p : C → Z) s' :
  IncrBy s n p s' = if decide (s = s') then p s' +₆₄ n else p s'.
Proof.
  unfold IncrBy. case_decide as Hs; [subst; by rewrite fn_lookup_insert|by rewrite fn_lookup_insert_ne].
Qed.

Lemma wrap64_add_l a b : wrap64 (wrap64 a + b) = wrap64 (a + b).
Proof.
  unfold wrap64. f_equal.
  replace ((a + 2 ^ 63) mod 2 ^ 64 - 2 ^ 63 + b + 2 ^ 63) with ((a + 2 ^ 63) mod 2 ^ 64 + b) by lia.
  rewrite Zplus_mod_idemp_l. f_equal. lia.
Qed.

Ltac task_simpl :=
  cbn [fst snd Q held permits workers tstats SafeListLimited.with_SL SafeListLimited.SL
    SafeListLimited.maxSize] in *.

Lemma step_push_ok p0 tr t v :
  task_ok p0 tr t → task_ok p0 (tr ++ [LPush v (task_push v t).1]) (task_push v t).2.
Proof.
  intros []. unfold task_push. rewrite PushFront_full. case_decide; task_simpl.
  - split; task_simpl; rewrite ?accepted_snoc, ?taken_snoc, ?finished_snoc, ?app_nil_r; try done.
    + by rewrite to_fifo0, reverse_cons, app_assoc.
    + cbn [length]. lia.
  - split; task_simpl; rewrite ?accepted_snoc, ?taken_snoc, ?finished_snoc, ?app_nil_r; done.
Qed.

Lemma task_pop_spec t :
  0 <= batch →
  ∃ items t', task_pop t = Ret (items, t') ∧
    t.(Q).(SafeListLimited.SL) = t'.(Q).(SafeListLimited.SL) ++ reverse items ∧
    Z.of_nat (length items) <= batch ∧
    (items = [] → t.(Q).(SafeListLimited.SL) = [] ∨ batch = 0) ∧
    t'.(Q).(SafeListLimited.maxSize) = t.(Q).(SafeListLimited.maxSize) ∧
    t'.(held) = (if decide (length items = 0%nat) then t.(held) else Some items) ∧
    t'.(permits) = t.(permits) ∧ t'.(workers) = t.(workers) ∧ t'.(tstats) = t.(tstats).
Proof.
  intros Hb. unfold task_pop, SafeListLimited.PopBackBy. rewrite PopBackBy_spec by done. cbn [mbind go_bind fst snd].
  set (L := (Q t).(SafeListLimited.SL)). set (n := Nat.min (length L) (Z.to_nat batch)).
  eexists _, _. split; [done|].
  assert (length (reverse (drop (length L - n) L)) = n) as Hn by (rewrite length_reverse, length_drop; lia).
  split_and!.
  - rewrite reverse_involutive. case_decide; cbn; by rewrite take_drop.
  - lia.
  - intros E. rewrite E in Hn. cbn in Hn. destruct L; [by left|right]. cbn [length] in *. lia.
  - by case_decide.
  - by case_decide.
  - by case_decide.
  - by case_decide.
  - by case_decide.
Qed.

Lemma step_pop_ok p0 tr t t' items :
  0 <= batch → task_ok p0 tr t → t.(held) = None → task_pop t = Ret (items, t') → items ≠ [] →
  task_ok p0 (tr ++ [LPop items]) t'.
Proof.
  intros Hb [] Hh Hp Hne. destruct (task_pop_spec t Hb) as (i & t1 & E & H1 & H2 & _ & H3 & H4 & H5 & H6 & H7).
  rewrite E in Hp. simplify_eq. rewrite decide_False in H4 by (by destruct items).
  split; rewrite ?accepted_snoc, ?taken_snoc, ?finished_snoc, ?app_nil_r, ?H3, ?H4, ?H5, ?H6, ?H7; try done.
  - rewrite to_fifo0, H1, reverse_app, reverse_involutive. by rewrite app_assoc.
  - rewrite Hh in to_taken0. cbn in *. rewrite app_nil_r in to_taken0. rewrite to_taken0.
    by rewrite !app_assoc.
  - rewrite H1, length_app in to_size0. lia.
  - intros ? [= <-]. done.
Qed.

Lemma step_acquire_ok p0 tr t items :
  task_ok p0 tr t → t.(held) = Some items → t.(permits) < concurrent →
  task_ok p0 (tr ++ [LAcquire items]) (task_acquire items t).
Proof.
  intros [] Hh Hp. split; rewrite ?accepted_snoc, ?taken_snoc, ?finished_snoc, ?app_nil_r; cbn; try done.
  - rewrite Hh in to_taken0. cbn in to_taken0. rewrite to_taken0, concat_app. cbn. by rewrite !app_nil_r.
  - rewrite length_app. cbn. lia.
  - lia.
  - apply Forall_app. split; [done|]. constructor; [by apply to_held0|constructor].
Qed.

Lemma concat_delete (ws : list (list A)) i items :
  ws !! i = Some items → concat ws ≡ₚ items ++ concat (delete i ws).
Proof.
  intros Hi. rewrite (delete_take_drop ws i). rewrite <- (take_drop_middle ws i items Hi) at 1.
  rewrite !concat_app. cbn. aac_reflexivity.
Qed.

Lemma step_done_ok p0 tr t i items ok :
  okCnt ≠ failCnt → task_ok p0 tr t → t.(workers) !! i = Some items →
  task_ok p0 (tr ++ [LDone items ok]) (task_done i items ok t).
Proof.
  intros Hc [] Hi. pose proof (concat_delete _ _ _ Hi) as Hd.
  assert (length (delete i (workers t)) = (length (workers t) - 1)%nat ∧ (0 < length (workers t))%nat) as [Hl Hl'].
  { rewrite length_delete by (by eexists). apply lookup_lt_Some in Hi. lia. }
  split; rewrite ?accepted_snoc, ?taken_snoc, ?app_nil_r; cbn; try done.
  - rewrite to_taken0, Hd, !finished_snoc.
    destruct ok as [[]|]; cbn; repeat case_decide; try done; aac_reflexivity.
  - lia.
  - lia.
  - by apply Forall_delete.
  - rewrite finished_snoc. destruct ok as [[]|]; cbn; repeat case_decide; try done;
      rewrite ?app_nil_r; try done; rewrite Cnt_IncrBy.
    + rewrite decide_True by done. rewrite to_sent0, wrap64_add_l, length_app. f_equal. lia.
    + by rewrite decide_False by done.
  - rewrite finished_snoc. destruct ok as [[]|]; cbn; repeat case_decide; try done;
      rewrite ?app_nil_r; try done; rewrite Cnt_IncrBy.
    + by rewrite decide_False by done.
    + rewrite decide_True by done. rewrite to_failed0, wrap64_add_l, length_app. f_equal. lia.
Qed.

Lemma step_ok p0 tr t l t' :
  0 <= batch → okCnt ≠ failCnt → task_ok p0 tr t → step t l t' → task_ok p0 (tr ++ [l]) t'.
Proof.
  intros Hb Hc Ht Hs. destruct Hs.
  - by apply step_push_ok.
  - by apply (step_pop_ok _ _ t).
  - by apply step_acquire_ok.
  - by apply step_done_ok.
Qed.

Lemma run_ok p0 maxSize tr t :
  0 <= batch → 1 <= concurrent → 0 <= maxSize → okCnt ≠ failCnt →
  (∀ s, wrap64 (p0 s) = p0 s) →
  run (start maxSize p0) tr t → task_ok p0 tr t.
Proof.
  intros Hb Hcc Hm Hc Hw Hr. remember (start maxSize p0) as t0. induction Hr; subst; [|by eapply step_ok; eauto].
  split; cbn; try done; try lia; rewrite ?Z.add_0_r; by rewrite ?Hw.
Qed.

(** ** Progress *)

Definition idle (t : task) : Prop :=
  t.(Q).(SafeListLimited.SL) = [] ∧ t.(held) = None ∧ t.(workers) = [].

Definition is_push (l : label) : bool := match l with LPush _ _ => true | _ => false end.

(** The steps that are left to do before the task is idle. *)
Definition work (t : task) : Z :=
  3 * Z.of_nat (length t.(Q).(SafeListLimited.SL)) +
  (if t.(held) then 2 else 0) + Z.of_nat (length t.(workers)).

Lemma step_work t l t' :
  0 <= batch → step t l t' → is_push l = false → work t' < work t.
Proof.
  intros Hb Hs Hl. unfold work. destruct Hs as [v t|t t' items Hh Hp Hne|t items Hh Hp|t i items call Hi].
  - done.
  - destruct (task_pop_spec t Hb) as (it & t1 & E & H1 & _ & _ & _ & H4 & _ & H6 & _).
    rewrite E in Hp. simplify_eq. rewrite H1, H4, H6, Hh, length_app, length_reverse.
    destruct items as [|x items]; [done|]. rewrite decide_False by done. cbn [length]. lia.
  - unfold task_acquire. task_simpl. rewrite Hh, length_app. cbn [length]. lia.
  - unfold task_done. task_simpl. rewrite length_delete by (by eexists).
    apply lookup_lt_Some in Hi. lia.
Qed.

Lemma step_enabled p0 tr t :
  1 <= batch → 1 <= concurrent → task_ok p0 tr t → ¬ idle t →
  ∃ l t', step t l t' ∧ is_push l = false.
Proof using HW.
  intros Hb Hc Ht Hidle. destruct (t.(held)) as [items|] eqn:Hh.
  - destruct (decide (t.(permits) < concurrent)) as [Hp|Hp].
    + eexists _, _. split; [by apply step_acquire|done].
    + pose proof (to_permits _ _ _ Ht) as Hw. destruct (t.(workers)) as [|w ws] eqn:Ew; [cbn in Hw; lia|].
      eexists _, _. split; [eapply (step_done _ 0%nat w inhabitant); by rewrite Ew|done].
  - destruct (t.(workers)) as [|w ws] eqn:Ew.
    + destruct (task_pop_spec t) as (items & t' & E & H1 & _ & H3 & _); [lia|].
      eexists _, t'. split; [apply (step_pop _ _ items); [done..|]|done].
      intros ->. destruct (H3 eq_refl) as [E0|]; [|lia]. by destruct Hidle.
    + eexists _, _. split; [eapply (step_done _ 0%nat w inhabitant); by rewrite Ew|done].
Qed.

Lemma run_work t tr t' :
  0 <= batch → run t tr t' → Forall (λ l, is_push l = false) tr →
  work t' + Z.of_nat (length tr) <= work t.
Proof.
  intros Hb Hr. induction Hr as [|t tr t1 l t2 Hr IH Hs]; [cbn; lia|].
  rewrite Forall_app, Forall_singleton. intros [H1 H2]. specialize (IH H1).
  pose proof (step_work _ _ _ Hb Hs H2). rewrite length_app. cbn [length]. lia.
Qed.

(** ** Properties *)

(** C20. However the receivers, the task and its goroutines interleave, nothing
is lost or invented and the order of the queue is kept: the items accepted are
those taken from the queue followed by those still in it, oldest first, and
those taken were delivered, were given up after the retries, or are in the
hands of the task or of a goroutine.  No more goroutines run than the
semaphore allows, the queue stays within its size, no batch exceeds the
configured one, and the two counters count the items delivered and given up. *)
Theorem send_task_conserves p0 maxSize tr t :
  0 <= batch → 1 <= concurrent → 0 <= maxSize → okCnt ≠ failCnt →
  (∀ s, wrap64 (p0 s) = p0 s) →
  run (start maxSize p0) tr t →
  accepted tr = taken tr ++ reverse t.(Q).(SafeListLimited.SL) ∧
  taken tr ≡ₚ finished (Some true) tr ++ finished (Some false) tr ++ finished None tr ++
    concat t.(workers) ++ default [] t.(held) ∧
  t.(permits) = Z.of_nat (length t.(workers)) ∧ t.(permits) <= concurrent ∧
  Z.of_nat (length t.(Q).(SafeListLimited.SL)) <= t.(Q).(SafeListLimited.maxSize) ∧
  Forall (λ items, Z.of_nat (length items) <= batch) t.(workers) ∧
  t.(tstats) okCnt =
    wrap64 (p0 okCnt + Z.of_nat (length (finished (Some true) tr))) ∧
  t.(tstats) failCnt =
    wrap64 (p0 failCnt + Z.of_nat (length (finished (Some false) tr))).
Proof.
  intros Hb Hc Hm Hd Hw Hr. destruct (run_ok _ _ _ _ Hb Hc Hm Hd Hw Hr). split_and!; try done.
  eapply Forall_impl; [exact to_workers0|]. by intros items [_ ?].
Qed.

(** The task never deadlocks: unless it is idle it can move, and without
new items it becomes idle after a bounded number of steps, whatever the
outcomes of the calls. *)
Theorem send_task_drains p0 maxSize tr t :
  1 <= batch → 1 <= concurrent → 0 <= maxSize → okCnt ≠ failCnt →
  (∀ s, wrap64 (p0 s) = p0 s) →
  run (start maxSize p0) tr t →
  (¬ idle t → ∃ l t', step t l t' ∧ is_push l = false) ∧
  (∀ tr' t', run t tr' t' → Forall (λ l, is_push l = false) tr' → Z.of_nat (length tr') <= work t).
Proof using HW.
  intros Hb Hc Hm Hd Hw Hr. split.
  - apply (step_enabled p0 tr); [done..|]. by apply (run_ok p0 maxSize); [lia|..].
  - intros tr' t' Hr' Hp. assert (0 <= batch) as Hb' by lia. pose proof (run_work _ _ _ Hb' Hr' Hp).
    assert (0 <= work t') by (unfold work; destruct (held t'); lia). lia.
Qed.
End task.

(** ** The three tasks *)

Definition forward2JudgeTask (batch MaxConns : Z) : task → label → task → Prop :=
  step (A := JudgeItem.t) batch (concurrency MaxConns) SendToJudgeCnt SendToJudgeFailCnt rpc_outcome.
Definition forward2GraphTask (batch MaxConns : Z) : task → label → task → Prop :=
  step (A := GraphItem.t) batch (concurrency MaxConns) SendToGraphCnt SendToGraphFailCnt rpc_outcome.
Definition forward2TsdbTask (batch MaxConns retry : Z) : task → label → task → Prop :=
  step (A := TsdbItem.t) batch (concurrency MaxConns) SendToTsdbCnt SendToTsdbFailCnt (tsdb_outcome retry).

(** ** A concrete execution *)

Definition ex_stats : proc := λ _, 0.
Abbreviation ex_run := (run (A := Z) 10 1 SendToJudgeCnt SendToJudgeFailCnt rpc_outcome).

(** A push, and its delivery at the second attempt. *)
Definition ex_call (i : nat) : result unit := match i with O => Err "timeout" | _ => Ok tt end.

Definition ex_trace : list (label (A := Z)) :=
  [LPush 7 true; LPop [7]; LAcquire [7]; LDone [7] (Some true)].

Lemma ex_execution :
  ∃ t, ex_run (start 100 ex_stats) ex_trace t.
Proof.
  eexists. change ex_trace
    with ((((([] : list (label (A := Z))) ++ [LPush 7 true]) ++ [LPop [7]]) ++ [LAcquire [7]]) ++ [LDone [7] (Some true)]).
  eapply run_snoc; [eapply run_snoc; [eapply run_snoc; [eapply run_snoc; [constructor|]|]|]|].
  - apply step_push.
  - eapply step_pop; [reflexivity|vm_compute; reflexivity|done].
  - apply step_acquire; [reflexivity|cbn; lia].
  - apply (step_done 10 1 _ _ rpc_outcome _ 0 [7] ex_call). reflexivity.
Qed.

Example send_task_conserves_witness :
  ∃ t, ex_run (start 100 ex_stats) ex_trace t ∧
    t.(tstats) SendToJudgeCnt = 1 ∧ t.(permits) <= 1.
Proof.
  destruct ex_execution as [t Ht]. exists t. split; [exact Ht|].
  destruct (send_task_conserves 10 1 SendToJudgeCnt SendToJudgeFailCnt rpc_outcome ex_stats 100 ex_trace t)
    as (_ & _ & _ & H1 & _ & _ & H2 & _); [lia|lia|lia|discriminate|reflexivity|exact Ht|].
  split; [rewrite H2; reflexivity|exact H1].
Defined.

Example send_task_drains_witness :
  ∃ t, ex_run (start 100 ex_stats) ex_trace t ∧
    ∀ tr' t', ex_run t tr' t' → Forall (λ l, is_push l = false) tr' → Z.of_nat (length tr') <= work t.
Proof.
  destruct ex_execution as [t Ht]. exists t. split; [exact Ht|].
  apply (send_task_drains 10 1 SendToJudgeCnt SendToJudgeFailCnt rpc_outcome ex_stats 100 ex_trace t);
    [lia|lia|lia|discriminate|reflexivity|exact Ht].
Defined.
