(* ===== verification/GraphStore.v ===== *)
(** * Graph: the item cache

modules/graph/store (store.go, linkedlist.go, history.go) and modules/graph/g/utils.go:
the items received and not yet on disk, kept in a fixed number of maps by the
hash of their key; the last items of each metric; the names of keys and files.

The sharded [GraphItemMap] implements a map from keys to lists ([view]): the
interface [ItemStore] states what the rest of graph relies on.  The methods of
[GraphItemMap] hold its lock; [PushFront] looks up and inserts under separate
acquisitions, so the model is that of one writer per key. *)

From S2P Require Import Prelude GoFloat GoString Hash Tags Model Containers.
From Stdlib Require Import Ascii.
From stdpp Require Import options.

(** ** Constants (modules/graph/g/g.go) *)

Definition GAUGE : string := "GAUGE".
Definition DERIVE : string := "DERIVE".
Definition COUNTER : string := "COUNTER".
Definition CACHE_TIME : Z := 1800000.
Definition FLUSH_DISK_STEP : Z := 1000.
Definition FLUSH_MIN_COUNT : Z := 6.
Definition FLUSH_MAX_WAIT : Z := 86400.
Definition GRAPH_F_MISS : Z := 1.
Definition GRAPH_F_ERR : Z := 2.
Definition GRAPH_F_SENDING : Z := 4.
Definition GRAPH_F_FETCHING : Z := 8.

(** ** Names (modules/graph/g/utils.go) *)

Definition RrdFileName (baseDir md5 dsType : string) (step : Z) : go string :=
  dir ← go_slice md5 0 2;
  Ret (baseDir +:+ "/" +:+ dir +:+ "/" +:+ md5 +:+ "_" +:+ dsType +:+ "_" +:+ Itoa step +:+ ".rrd").

Definition FormRrdCacheKey (md5 dsType : string) (step : Z) : string :=
  md5 +:+ "_" +:+ dsType +:+ "_" +:+ Itoa step.

Definition SplitRrdCacheKey (ckey : string) : result (string * string * Z) :=
  match split "_" ckey with
  | [md5; dsType; step] => stepInt64 ← ParseInt 32 step; Ok (md5, dsType, stepInt64)
  | _ => Err ("bad rrd cache key: " +:+ ckey)
  end.

(** [IsValidString]; [unicode_print] is [unicode.IsPrint] beyond ASCII. *)
Section valid.
Context (unicode_print : Z → bool).

Definition IsPrint (r : Z) : bool :=
  if r <? 128 then (32 <=? r) && (r <=? 126) else unicode_print r.

Definition IsValidString (str : string) : bool :=
  forallb (λ t : Z * string,
    if decide (t.1 ∈ [13; 10; 39; 34; 62; 26]) then false else IsPrint t.1) (runes str).
End valid.

(** ** The list of one key *)

Module SafeLinkedList.
Record t : Type := mk { Flag : Z; L : list GraphItem.t }.

Definition New : t := mk 0 [].
Definition set_L (l : list GraphItem.t) (this : t) : t := mk this.(Flag) l.
Definition set_Flag (flag : Z) (this : t) : t := mk flag this.(L).

Definition PushFront (v : GraphItem.t) (this : t) : t := set_L (v :: this.(L)) this.
Definition Front (this : t) : option GraphItem.t := head this.(L).
Definition Back (this : t) : option GraphItem.t := last this.(L).
Definition PopBack (this : t) : option GraphItem.t * t :=
  match last this.(L) with
  | Some v => (Some v, set_L (take (length this.(L) - 1) this.(L)) this)
  | None => (None, this)
  end.
Definition Len (this : t) : Z := Z.of_nat (length this.(L)).

(** Taking from the back: the oldest item first. *)
Definition PopAll (this : t) : go (list GraphItem.t * t) :=
  r ← SafeList.pop_n (length this.(L)) this.(L);
  Ret ((r : list GraphItem.t * list GraphItem.t).1, set_L r.2 this).

(** Pushing to the back, the newest of [items] first. *)
Definition PushAll (items : list GraphItem.t) (this : t) : t :=
  set_L (foldl (λ l v, l ++ [v]) this.(L) (reverse items)) this.

(** Walking from the back to the front. *)
Definition FetchAll (this : t) : list GraphItem.t * Z := (reverse this.(L), this.(Flag)).
End SafeLinkedList.

(** ** GraphItemMap *)

Definition hashKey (key : string) : Z := ChecksumIEEE key.

(** The moment of the cache period at which a key is due. *)
Definition getWts (key : string) (now : Z) : Z :=
  now +₆₄ CACHE_TIME -₆₄ Z.rem (hashKey key) CACHE_TIME.

Module GraphItemMap.
Import SafeLinkedList.
Record t : Type := Map { A : list (gmap string SafeLinkedList.t); Size : Z }.

(** [init] *)
Definition New (size : Z) : t := Map (replicate (Z.to_nat size) ∅) size.
Definition init : t := New (CACHE_TIME / FLUSH_DISK_STEP).

Definition shard_index (key : string) (this : t) : go Z := go_rem (hashKey key) (this.(Size) mod 2 ^ 32).
Definition shard (key : string) (this : t) : go (gmap string SafeLinkedList.t) :=
  idx ← shard_index key this; at_index this.(A) idx.

(** [this.A[idx]] gets a new map, [idx] being the shard of [key]. *)
Definition with_shard (key : string) (m : gmap string SafeLinkedList.t) (this : t) : go t :=
  idx ← shard_index key this;
  Ret (Map (<[Z.to_nat idx := m]> this.(A)) this.(Size)).

Definition Get (key : string) (this : t) : go (option SafeLinkedList.t) :=
  m ← shard key this; Ret (m !! key).

Definition Set_ (key : string) (val : SafeLinkedList.t) (this : t) : go t :=
  m ← shard key this; with_shard key (<[key := val]> m) this.

Definition Remove (key : string) (this : t) : go (bool * t) :=
  m ← shard key this;
  match m !! key with
  | None => Ret (false, this)
  | Some _ => this ← with_shard key (delete key m) this; Ret (true, this)
  end.

Definition Getitems (idx : Z) (this : t) : go (gmap string SafeLinkedList.t * t) :=
  items ← at_index this.(A) idx;
  Ret (items, Map (<[Z.to_nat idx := ∅]> this.(A)) this.(Size)).

Definition Len (this : t) : go Z :=
  go_foldl (λ l i, m ← at_index this.(A) i; Ret (l + Z.of_nat (size m))) 0 (seqZ 0 this.(Size)).

Definition First (key : string) (this : t) : go (option GraphItem.t) :=
  sl ← Get key this; Ret (sl ≫= Front).
Definition Back (key : string) (this : t) : go (option GraphItem.t) :=
  sl ← Get key this; Ret (sl ≫= Back).
Definition ItemCnt (key : string) (this : t) : go Z :=
  sl ← Get key this; Ret (match sl with Some L => SafeLinkedList.Len L | None => 0 end).

Definition not_exist : error := "not exist".

Definition PushAll (key : string) (items : list GraphItem.t) (this : t) : go (result unit * t) :=
  sl ← Get key this;
  match sl with
  | None => Ret (Err not_exist, this)
  | Some sl => this ← Set_ key (SafeLinkedList.PushAll items sl) this; Ret (Ok tt, this)
  end.

Definition GetFlag (key : string) (this : t) : go (result Z) :=
  sl ← Get key this;
  Ret (match sl with Some sl => Ok sl.(Flag) | None => Err not_exist end).

Definition SetFlag (key : string) (flag : Z) (this : t) : go (result unit * t) :=
  sl ← Get key this;
  match sl with
  | None => Ret (Err not_exist, this)
  | Some sl => this ← Set_ key (set_Flag flag sl) this; Ret (Ok tt, this)
  end.

Definition PopAll (key : string) (this : t) : go (list GraphItem.t * t) :=
  sl ← Get key this;
  match sl with
  | None => Ret ([], this)
  | Some sl =>
      r ← SafeLinkedList.PopAll sl;
      let '(items, sl) := r : list GraphItem.t * SafeLinkedList.t in
      this ← Set_ key sl this;
      Ret (items, this)
  end.

Definition FetchAll (key : string) (this : t) : go (list GraphItem.t * Z) :=
  sl ← Get key this;
  Ret (match sl with Some sl => SafeLinkedList.FetchAll sl | None => ([], 0) end).

(** [PushFront]; [rrd_exists] tells which files exist. *)
Definition PushFront (migrate : bool) (storage : string) (rrd_exists : string → bool)
    (key : string) (item : GraphItem.t) (md5 : string) (this : t) : go t :=
  sl ← Get key this;
  match sl with
  | Some linkedList => Set_ key (SafeLinkedList.PushFront item linkedList) this
  | None =>
      let safeList := SafeLinkedList.mk 0 [item] in
      if migrate then
        filename ← RrdFileName storage md5 item.(GraphItem.DsType) item.(GraphItem.Step);
        Set_ key (if rrd_exists filename then safeList else set_Flag GRAPH_F_MISS safeList) this
      else Set_ key safeList this
  end.

(** [KeysByIndex], in an order of the map. *)
Definition KeysByIndex (idx : Z) (this : t) : go (list string) :=
  m ← at_index this.(A) idx; Ret (map_to_list m).*1.
End GraphItemMap.

(** ** The history of each metric (store/history.go) *)

Definition defaultHistorySize : Z := 3.
Abbreviation history := (gmap string (SafeListLimited.t GraphItem.t)).

Definition GetLastItem (key : string) (HistoryCache : history) : GraphItem.t :=
  match HistoryCache !! key with
  | None => GraphItem.zero
  | Some itemlist => default GraphItem.zero (SafeListLimited.Front itemlist)
  end.

Definition GetAllItems (key : string) (HistoryCache : history) : list GraphItem.t :=
  match HistoryCache !! key with None => [] | Some itemlist => SafeListLimited.FrontAll itemlist end.

Definition AddItem (key : string) (val : GraphItem.t) (HistoryCache : history) : history :=
  let slist :=
    match HistoryCache !! key with
    | None => SafeListLimited.New defaultHistorySize
    | Some itemlist => itemlist
    end in
  let newer :=
    match SafeListLimited.Front slist with
    | None => true
    | Some first => first.(GraphItem.Timestamp) <? val.(GraphItem.Timestamp)
    end in
  <[key := if newer then (SafeListLimited.PushFrontViolently val slist).2 else slist]> HistoryCache.

(** ** The sharded map implements a map *)

Section refinement.
Import GraphItemMap.
Implicit Types (M : GraphItemMap.t) (sl : SafeLinkedList.t).

Definition index_of (key : string) M : nat := Z.to_nat (hashKey key mod M.(Size)).

(** The map that the shards represent. *)
Definition view M (key : string) : option SafeLinkedList.t := (M.(A) !! index_of key M) ≫= (.!! key).

Record map_ok M : Prop := MapOk {
  mo_size : 0 < M.(Size) < 2 ^ 32;
  mo_length : length M.(A) = Z.to_nat M.(Size);
  mo_keys : ∀ i m k, M.(A) !! i = Some m → is_Some (m !! k) → i = index_of k M }.

(** The two maps agree but for one key. *)
Definition updated M M' (key : string) (o : option SafeLinkedList.t) : Prop :=
  map_ok M' ∧ M'.(Size) = M.(Size) ∧ ∀ k, view M' k = if decide (k = key) then o else view M k.

Lemma shard_index_spec key M :
  map_ok M → shard_index key M = Ret (hashKey key mod M.(Size)) ∧
  (index_of key M < length M.(A))%nat.
Proof.
  intros [Hs Hl _]. pose proof (ChecksumIEEE_bounds key). unfold shard_index, index_of, go_rem, hashKey in *.
  rewrite Z.mod_small with (b := 2 ^ 32) by lia. rewrite decide_False by lia.
  rewrite Z.rem_mod_nonneg by lia. pose proof (Z.mod_pos_bound (ChecksumIEEE key) M.(Size)).
  split; [done|]. rewrite Hl. lia.
Qed.

Lemma shard_spec key M :
  map_ok M → ∃ m, M.(A) !! index_of key M = Some m ∧ shard key M = Ret m.
Proof.
  intros Hok. destruct (shard_index_spec key M Hok) as [Hi Hlt].
  destruct (lookup_lt_is_Some_2 _ _ Hlt) as [m Hm]. exists m. split; [done|].
  unfold shard. rewrite Hi. cbn [mbind go_bind]. apply at_index_Ret. split; [|done].
  pose proof (mo_size _ Hok). apply Z.mod_pos_bound. lia.
Qed.

Lemma with_shard_spec key m m' M o :
  map_ok M → M.(A) !! index_of key M = Some m →
  m' !! key = o → (∀ k, k ≠ key → m' !! k = m !! k) →
  ∃ M', with_shard key m' M = Ret M' ∧ updated M M' key o.
Proof.
  intros Hok Hm Ho Hother. destruct (shard_index_spec key M Hok) as [Hi Hlt].
  unfold with_shard. rewrite Hi. cbn [mbind go_bind]. eexists. split; [done|]. fold (index_of key M).
  set (M' := Map _ _).
  assert (∀ k, index_of k M' = index_of k M) as Hidx by done. split_and!.
  - split; [apply Hok|cbn; by rewrite length_insert, (mo_length _ Hok)|].
    intros i m0 k. cbn. rewrite Hidx. intros [(<- & <- & _)|[Hne HA]]%list_lookup_insert_Some Hk.
    + destruct (decide (k = key)) as [->|Hk']; [done|]. rewrite Hother in Hk by done.
      by apply (mo_keys _ Hok _ m).
    + by apply (mo_keys _ Hok i m0).
  - done.
  - intros k. unfold view. rewrite Hidx. cbn.
    destruct (decide (index_of k M = index_of key M)) as [E|Hne].
    + rewrite E, list_lookup_insert_eq by done. cbn. case_decide as Hk; [by subst|].
      rewrite Hother by done. by rewrite Hm.
    + rewrite list_lookup_insert_ne by done. case_decide; [by subst|done].
Qed.

Lemma Get_view key M : map_ok M → Get key M = Ret (view M key).
Proof.
  intros Hok. destruct (shard_spec key M Hok) as (m & Hm & E). unfold Get, view. by rewrite E, Hm.
Qed.

Lemma Set_view key sl M : map_ok M → ∃ M', Set_ key sl M = Ret M' ∧ updated M M' key (Some sl).
Proof.
  intros Hok. destruct (shard_spec key M Hok) as (m & Hm & E). unfold Set_. rewrite E. cbn.
  apply (with_shard_spec _ m); [done|done|by rewrite lookup_insert_eq|].
  intros k Hk. by rewrite lookup_insert_ne.
Qed.

Lemma Remove_view key M :
  map_ok M → ∃ M', Remove key M = Ret (bool_decide (is_Some (view M key)), M') ∧ updated M M' key None.
Proof.
  intros Hok. destruct (shard_spec key M Hok) as (m & Hm & E). unfold Remove. rewrite E. cbn [mbind go_bind].
  assert (view M key = m !! key) as Hv by (unfold view; by rewrite Hm). rewrite Hv.
  destruct (m !! key) as [sl|] eqn:Ek.
  - destruct (with_shard_spec key m (delete key m) M None) as (M' & -> & HM'); [done|done|by rewrite lookup_delete_eq| |].
    { intros k Hk. by rewrite lookup_delete_ne. }
    by exists M'.
  - exists M. split; [done|]. split_and!; [done..|].
    intros k. case_decide; [by subst; rewrite Hv|done].
Qed.

Lemma New_ok size : 0 < size < 2 ^ 32 → map_ok (New size) ∧ ∀ k, view (New size) k = None.
Proof.
  intros Hs. split.
  - split; cbn; [done|by rewrite length_replicate|]. intros i m k [-> _]%lookup_replicate [? Hk]. done.
  - intros k. unfold view. cbn. destruct (replicate _ _ !! _) as [m|] eqn:E; [|done].
    apply lookup_replicate in E as [-> _]. done.
Qed.

Lemma SLL_PopAll_spec sl :
  SafeLinkedList.PopAll sl = Ret (reverse sl.(SafeLinkedList.L), SafeLinkedList.set_L [] sl).
Proof.
  unfold SafeLinkedList.PopAll. rewrite pop_n_take by done. cbn.
  by rewrite Nat.sub_diag, drop_0, take_0.
Qed.

Lemma PushAll_app items (l : list GraphItem.t) : foldl (λ l v, l ++ [v]) l items = l ++ items.
Proof.
  revert l. induction items as [|v items IH]; intros l; cbn; [by rewrite app_nil_r|].
  by rewrite IH, <- app_assoc.
Qed.

Lemma SLL_PushAll_spec items sl :
  SafeLinkedList.PushAll items sl = SafeLinkedList.set_L (sl.(SafeLinkedList.L) ++ reverse items) sl.
Proof. unfold SafeLinkedList.PushAll. by rewrite PushAll_app. Qed.

Lemma PopAll_view key M :
  map_ok M → ∃ M', PopAll key M =
      Ret (match view M key with Some sl => reverse sl.(SafeLinkedList.L) | None => [] end, M') ∧
    updated M M' key (SafeLinkedList.set_L [] <$> view M key).
Proof.
  intros Hok. unfold PopAll. rewrite Get_view by done. cbn [mbind go_bind].
  destruct (view M key) as [sl|] eqn:Ev; cbn.
  - rewrite SLL_PopAll_spec. cbn. destruct (Set_view key (SafeLinkedList.set_L [] sl) M Hok) as (M' & -> & HM').
    by exists M'.
  - exists M. split; [done|]. split_and!; [done..|]. intros k. case_decide; by subst.
Qed.

(** The effect of an operation on the list of one key, when there is one. *)
Lemma PushAll_view key items M :
  map_ok M → ∃ r M', PushAll key items M = Ret (r, M') ∧ (is_ok r = bool_decide (is_Some (view M key))) ∧
    updated M M' key (SafeLinkedList.PushAll items <$> view M key).
Proof.
  intros Hok. unfold PushAll. rewrite Get_view by done. cbn [mbind go_bind].
  destruct (view M key) as [sl|] eqn:Ev; cbn.
  - destruct (Set_view key (SafeLinkedList.PushAll items sl) M Hok) as (M' & -> & HM').
    cbn. eexists _, M'. by split_and!; try apply HM'.
  - eexists _, M. split; [done|]. split; [done|]. split_and!; [done..|]. intros k. case_decide; by subst.
Qed.

Lemma SetFlag_view key flag M :
  map_ok M → ∃ r M', SetFlag key flag M = Ret (r, M') ∧ (is_ok r = bool_decide (is_Some (view M key))) ∧
    updated M M' key (SafeLinkedList.set_Flag flag <$> view M key).
Proof.
  intros Hok. unfold SetFlag. rewrite Get_view by done. cbn [mbind go_bind].
  destruct (view M key) as [sl|] eqn:Ev; cbn.
  - destruct (Set_view key (SafeLinkedList.set_Flag flag sl) M Hok) as (M' & -> & HM').
    cbn. eexists _, M'. by split_and!; try apply HM'.
  - eexists _, M. split; [done|]. split; [done|]. split_and!; [done..|]. intros k. case_decide; by subst.
Qed.

Lemma PushFront_view migrate storage rrd_exists key item md5 M :
  map_ok M → (2 <= String.length md5)%nat →
  ∃ M' sl', PushFront migrate storage rrd_exists key item md5 M = Ret M' ∧ updated M M' key (Some sl') ∧
    sl'.(SafeLinkedList.L) = item :: match view M key with Some sl => sl.(SafeLinkedList.L) | None => [] end.
Proof.
  intros Hok Hmd. unfold PushFront. rewrite Get_view by done. cbn [mbind go_bind].
  destruct (view M key) as [sl|] eqn:Ev.
  - destruct (Set_view key (SafeLinkedList.PushFront item sl) M Hok) as (M' & -> & HM'). by eexists _, _.
  - destruct migrate.
    + unfold RrdFileName, go_slice. destruct (Z.leb_spec 2 (slen md5)); [|lia]. cbn.
      destruct (rrd_exists _).
      * destruct (Set_view key (SafeLinkedList.mk 0 [item]) M Hok) as (M' & -> & HM'). by eexists _, _.
      * destruct (Set_view key (SafeLinkedList.set_Flag GRAPH_F_MISS (SafeLinkedList.mk 0 [item])) M Hok)
          as (M' & -> & HM'). by eexists _, _.
    + destruct (Set_view key (SafeLinkedList.mk 0 [item]) M Hok) as (M' & -> & HM'). by eexists _, _.
Qed.
End refinement.

(** ** Keys *)

Lemma Split_Form md5 dsType step :
  lacks "_" md5 → lacks "_" dsType → - 2 ^ 31 <= step < 2 ^ 31 →
  SplitRrdCacheKey (FormRrdCacheKey md5 dsType step) = Ok (md5, dsType, step).
Proof.
  intros Hm Hd Hs. unfold SplitRrdCacheKey, FormRrdCacheKey.
  change (md5 +:+ "_" +:+ dsType +:+ "_" +:+ Itoa step) with
    (md5 +:+ String "_" (dsType +:+ String "_" (Itoa step))).
  rewrite !split_app by done. rewrite split_lacks by (by apply Itoa_lacks).
  rewrite ParseInt_Itoa by lia. done.
Qed.

(** ** History *)

Definition newest_first (l : list GraphItem.t) : Prop :=
  StronglySorted (λ a b, b.(GraphItem.Timestamp) < a.(GraphItem.Timestamp)) l.

Definition queue_ok (Q : SafeListLimited.t GraphItem.t) : Prop :=
  Q.(SafeListLimited.maxSize) = defaultHistorySize ∧
  (length Q.(SafeListLimited.SL) <= 3)%nat ∧ newest_first Q.(SafeListLimited.SL).

Definition history_ok (H : history) : Prop := map_Forall (λ _ Q, queue_ok Q) H.

(** Does an item bring something new to the history? *)
Definition newer (l : list GraphItem.t) (val : GraphItem.t) : bool :=
  match l with [] => true | first :: _ => first.(GraphItem.Timestamp) <? val.(GraphItem.Timestamp) end.

Lemma newest_items_cons val l : newest_first l → newer l val = true → newest_first (val :: l).
Proof.
  intros Hl Hn. constructor; [done|]. destruct Hl as [|a l Hl Ha]; [done|]. apply Z.ltb_lt in Hn.
  constructor; [done|]. eapply Forall_impl; [exact Ha|]. cbn. intros. lia.
Qed.

Lemma newest_items_take n l : newest_first l → newest_first (take n l).
Proof.
  intros Hl. revert n. induction Hl as [|a l Hl IH Ha]; intros [|n]; cbn; constructor; [apply IH|by apply Forall_take].
Qed.

Lemma PushFrontViolently_SL {A} (v : A) Q :
  0 <= Q.(SafeListLimited.maxSize) →
  Z.of_nat (length Q.(SafeListLimited.SL)) <= Q.(SafeListLimited.maxSize) →
  (SafeListLimited.PushFrontViolently v Q).2 =
    SafeListLimited.with_SL Q (take (Z.to_nat Q.(SafeListLimited.maxSize)) (v :: Q.(SafeListLimited.SL))).
Proof.
  intros H0 Hl. unfold SafeListLimited.PushFrontViolently, SafeList.Len, SafeList.PushFront, SafeList.PopBack.
  destruct (Z.ltb_spec Q.(SafeListLimited.maxSize) (Z.of_nat (length (v :: Q.(SafeListLimited.SL))))) as [H|H]; cbn [snd].
  - destruct (last (v :: _)) eqn:E; [|by apply last_None in E]. cbn [snd]. f_equal. f_equal.
    cbn [length] in *. lia.
  - by rewrite take_ge by lia.
Qed.

Lemma AddItem_lookup key val H :
  history_ok H →
  ∃ Q, AddItem key val H !! key = Some Q ∧ queue_ok Q ∧
    Q.(SafeListLimited.SL) =
      (if newer (GetAllItems key H) val then take 3 (val :: GetAllItems key H) else GetAllItems key H).
Proof.
  intros Hok. unfold AddItem. rewrite lookup_insert_eq. eexists. split; [done|].
  unfold GetAllItems, SafeListLimited.FrontAll, SafeList.FrontAll, SafeListLimited.Front, SafeList.Front.
  set (Q := match H !! key with None => SafeListLimited.New defaultHistorySize | Some itemlist => itemlist end).
  assert (queue_ok Q) as HQ.
  { unfold Q. destruct (H !! key) eqn:E; [by apply (Hok key)|]. repeat split; cbn; [lia|constructor]. }
  assert (match H !! key with None => [] | Some itemlist => itemlist.(SafeListLimited.SL) end = Q.(SafeListLimited.SL)) as ->.
  { unfold Q. by destruct (H !! key). }
  assert (match head Q.(SafeListLimited.SL) with None => true
    | Some first => first.(GraphItem.Timestamp) <? val.(GraphItem.Timestamp) end = newer Q.(SafeListLimited.SL) val) as ->.
  { by destruct Q.(SafeListLimited.SL). }
  destruct HQ as (Hm & Hl & Hs). destruct (newer _ val) eqn:En; [|done].
  rewrite PushFrontViolently_SL by (rewrite Hm; unfold defaultHistorySize; lia). rewrite Hm. split; [|done].
  split; [done|]. split.
  - cbn [SafeListLimited.SL SafeListLimited.with_SL]. rewrite length_take. change (Z.to_nat defaultHistorySize) with 3%nat. lia.
  - by apply newest_items_take, newest_items_cons.
Qed.

(** ** Properties *)

(** The sharded [GraphItemMap] refines a plain map from keys to lists:
no operation on it panics, each reads or changes the list of its key only, and
popping everything, or pushing items back, has the effect it has on that list. *)
Theorem GraphItemMap_refines_map M key sl items flag :
  map_ok M →
  GraphItemMap.Get key M = Ret (view M key) ∧
  (∃ M', GraphItemMap.Set_ key sl M = Ret M' ∧ updated M M' key (Some sl)) ∧
  (∃ M', GraphItemMap.Remove key M = Ret (bool_decide (is_Some (view M key)), M') ∧ updated M M' key None) ∧
  (∃ M', GraphItemMap.PopAll key M =
      Ret (match view M key with Some sl => reverse sl.(SafeLinkedList.L) | None => [] end, M') ∧
    updated M M' key (SafeLinkedList.set_L [] <$> view M key)) ∧
  (∃ r M', GraphItemMap.PushAll key items M = Ret (r, M') ∧ is_ok r = bool_decide (is_Some (view M key)) ∧
    updated M M' key ((λ sl, SafeLinkedList.set_L (sl.(SafeLinkedList.L) ++ reverse items) sl) <$> view M key)) ∧
  (∃ r M', GraphItemMap.SetFlag key flag M = Ret (r, M') ∧ is_ok r = bool_decide (is_Some (view M key)) ∧
    updated M M' key (SafeLinkedList.set_Flag flag <$> view M key)).
Proof.
  intros Hok. split_and!.
  - by apply Get_view.
  - by apply Set_view.
  - by apply Remove_view.
  - by apply PopAll_view.
  - destruct (PushAll_view key items M Hok) as (r & M' & H1 & H2 & H3). exists r, M'. split; [done|]. split; [done|]. destruct H3 as (H3 & H4 & H5). split_and!; [done..|].
    intros k. rewrite H5. case_decide; [|done]. destruct (view M key); [|done]. cbn. by rewrite SLL_PushAll_spec.
  - by apply SetFlag_view.
Qed.

Example GraphItemMap_refines_map_witness :
  ∃ M', GraphItemMap.Set_ "k" SafeLinkedList.New (GraphItemMap.New 16) = Ret M' ∧
    view M' "k" = Some SafeLinkedList.New ∧ view M' "l" = None.
Proof.
  destruct (GraphItemMap_refines_map (GraphItemMap.New 16) "k" SafeLinkedList.New [] 0) as (_ & (M' & H1 & H2) & _).
  - apply New_ok. lia.
  - exists M'. split; [exact H1|]. destruct H2 as (_ & _ & H2). rewrite !H2. vm_compute. done.
Defined.

(** A cache key can be taken apart again: whatever the digest, the data
source type and the (32-bit) step, [SplitRrdCacheKey] inverts [FormRrdCacheKey]. *)
Theorem SplitRrdCacheKey_FormRrdCacheKey raw dsType step :
  lacks "_" dsType → - 2 ^ 31 <= step < 2 ^ 31 →
  SplitRrdCacheKey (FormRrdCacheKey (Md5 raw) dsType step) = Ok (Md5 raw, dsType, step).
Proof. intros Hd Hs. apply Split_Form; [|done..]. by apply Md5_lacks. Qed.

Example SplitRrdCacheKey_FormRrdCacheKey_witness :
  SplitRrdCacheKey (FormRrdCacheKey (Md5 "host/cpu") "GAUGE" 60) = Ok (Md5 "host/cpu", "GAUGE", 60).
Proof. apply SplitRrdCacheKey_FormRrdCacheKey; [reflexivity|lia]. Defined.

(** The history of a metric holds its last three items, newest first with
strictly decreasing timestamps: an item that is newer than the last enters it,
any other is ignored, and the histories of other metrics stay as they were. *)
Theorem AddItem_correct key val H :
  history_ok H →
  history_ok (AddItem key val H) ∧
  GetAllItems key (AddItem key val H) =
    (if newer (GetAllItems key H) val then take 3 (val :: GetAllItems key H) else GetAllItems key H) ∧
  GetLastItem key (AddItem key val H) = default GraphItem.zero (head (GetAllItems key (AddItem key val H))) ∧
  (∀ k, k ≠ key → GetAllItems k (AddItem key val H) = GetAllItems k H).
Proof.
  intros Hok. destruct (AddItem_lookup key val H Hok) as (Q & HQ & Hq & HSL). split_and!.
  - intros k Q' HQ'. destruct (decide (key = k)) as [->|Hne]; [congruence|].
    unfold AddItem in HQ'. rewrite lookup_insert_ne in HQ' by done. by apply (Hok k).
  - unfold GetAllItems at 1. by rewrite HQ.
  - unfold GetLastItem, GetAllItems. by rewrite HQ.
  - intros k Hk. unfold GetAllItems, AddItem. by rewrite lookup_insert_ne.
Qed.

Definition ex_item (v ts : Z) : GraphItem.t :=
  GraphItem.mk "host" "cpu" ∅ (f64_of_Z v) ts "GAUGE" 60 120 "U" "U".

Example AddItem_correct_witness :
  GetAllItems "k" (AddItem "k" (ex_item 7 240) (AddItem "k" (ex_item 6 180) (AddItem "k" (ex_item 5 120)
    (AddItem "k" (ex_item 4 60) ∅)))) = [ex_item 7 240; ex_item 6 180; ex_item 5 120].
Proof.
  destruct (AddItem_correct "k" (ex_item 4 60) ∅) as (H1 & _); [apply map_Forall_empty|].
  destruct (AddItem_correct "k" (ex_item 5 120) _ H1) as (H2 & _).
  destruct (AddItem_correct "k" (ex_item 6 180) _ H2) as (H3 & _).
  destruct (AddItem_correct "k" (ex_item 7 240) _ H3) as (_ & E & _).
  etransitivity; [exact E|]. vm_compute. reflexivity.
Defined.
