(* ===== verification/GraphApi.v ===== *)
(** * Graph: receiving items, the index, the latest values

modules/graph/api/graph.go (all but [Query], see GraphQuery.v), modules/graph/index
(index.go, cache.go, index_update_incr_task.go, index_update_all_task.go) and
modules/graph/cron/clean.go.

MySQL is an external service: what it answers to each statement is an argument,
and the statements that the code executes are recorded in [sql_log].  The files
on disk matter here by their existence only: [files] is the set of their names.
The database caches of cache.go forget entries after ten minutes; [expire] is
that step. *)

From stdpp Require Import functions.
From S2P Require Import Prelude GoFloat GoString Hash Tags Model Containers GraphStore.
From Stdlib Require Import Ascii.
From stdpp Require Import options.

(** ** State *)

Module IndexCacheItem.
Record t : Type := New { UUID : string; Item : option GraphItem.t }.
End IndexCacheItem.

(** [IndexCacheBase]: the keys are digests, the values are never nil; the
maximal size is not enforced by the code. *)
Abbreviation IndexCache := (gmap string IndexCacheItem.t).
Definition ContainsKey (key : string) (data : IndexCache) : bool :=
  match data !! key with Some _ => true | None => false end.

(** The counters of modules/graph/proc that these operations add to. *)
Inductive stat : Set :=
| GraphRpcRecvCnt | GraphQueryCnt | GraphQueryItemCnt | GraphInfoCnt | GraphLastCnt | GraphLastRawCnt
| GraphLoadDbCnt | IndexUpdateIncrErrorCnt | IndexUpdateAllErrorCnt
| IndexUpdateIncrDbEndpointInsertCnt | IndexUpdateIncrDbTagEndpointInsertCnt
| IndexUpdateIncrDbEndpointCounterInsertCnt.
#[export] Instance gstat_eq_dec : EqDecision stat.
Proof. solve_decision. Defined.

(** The statements that update the index. *)
Inductive sql : Type :=
| InsertEndpoint (endpoint : string) (ts : Z)
| SelectEndpoint (endpoint : string)
| InsertTagEndpoint (tag : string) (endpointId ts : Z)
| InsertEndpointCounter (endpointId : Z) (counter : string) (step : Z) (dsType : string) (ts : Z).

(** [sql_log]: what the process asked the database to execute, the latest first. *)
Record state : Type := State {
  GraphItems : GraphItemMap.t;
  HistoryCache : history;
  IndexedItemCache : IndexCache;
  unIndexedItemCache : IndexCache;
  dbEndpointCache : gmap string Z;
  dbEndpointCounterCache : gmap string string;
  files : gset string;
  stats : stat → Z;
  sql_log : list sql }.

Definition with_GraphItems x st := State x st.(HistoryCache) st.(IndexedItemCache) st.(unIndexedItemCache)
  st.(dbEndpointCache) st.(dbEndpointCounterCache) st.(files) st.(stats) st.(sql_log).
Definition with_HistoryCache x st := State st.(GraphItems) x st.(IndexedItemCache) st.(unIndexedItemCache)
  st.(dbEndpointCache) st.(dbEndpointCounterCache) st.(files) st.(stats) st.(sql_log).
Definition with_Indexed x st := State st.(GraphItems) st.(HistoryCache) x st.(unIndexedItemCache)
  st.(dbEndpointCache) st.(dbEndpointCounterCache) st.(files) st.(stats) st.(sql_log).
Definition with_unIndexed x st := State st.(GraphItems) st.(HistoryCache) st.(IndexedItemCache) x
  st.(dbEndpointCache) st.(dbEndpointCounterCache) st.(files) st.(stats) st.(sql_log).
Definition with_dbEndpointCache x st := State st.(GraphItems) st.(HistoryCache) st.(IndexedItemCache)
  st.(unIndexedItemCache) x st.(dbEndpointCounterCache) st.(files) st.(stats) st.(sql_log).
Definition with_dbEndpointCounterCache x st := State st.(GraphItems) st.(HistoryCache) st.(IndexedItemCache)
  st.(unIndexedItemCache) st.(dbEndpointCache) x st.(files) st.(stats) st.(sql_log).
Definition with_files x st := State st.(GraphItems) st.(HistoryCache) st.(IndexedItemCache)
  st.(unIndexedItemCache) st.(dbEndpointCache) st.(dbEndpointCounterCache) x st.(stats) st.(sql_log).
Definition incr (s : stat) (n : Z) (st : state) : state :=
  State st.(GraphItems) st.(HistoryCache) st.(IndexedItemCache)
    st.(unIndexedItemCache) st.(dbEndpointCache) st.(dbEndpointCounterCache) st.(files)
    (<[s := st.(stats) s +₆₄ n]> st.(stats)) st.(sql_log).
Definition log_sql (q : sql) (st : state) : state :=
  State st.(GraphItems) st.(HistoryCache) st.(IndexedItemCache) st.(unIndexedItemCache) st.(dbEndpointCache)
    st.(dbEndpointCounterCache) st.(files) st.(stats) (q :: st.(sql_log)).

(** The configuration: [RRD.Storage], [Migrate.Enabled]; and [unicode.IsPrint] beyond ASCII. *)
Record config : Type := Config {
  Storage : string; MigrateEnabled : bool; unicode_print : Z → bool }.

(** What the database answers: [Err] is a failure, [Ok None] no row. *)
Record database : Type := Database {
  select_endpoint : string → result (option Z);
  select_counter : Z → string → result (option (string * Z));
  exec : sql → result unit }.

(** Entries of the database caches that expire. *)
Definition expire (endpoints counters : gset string) (st : state) : state :=
  with_dbEndpointCounterCache (filter (λ kv, kv.1 ∉ counters) st.(dbEndpointCounterCache))
    (with_dbEndpointCache (filter (λ kv, kv.1 ∉ endpoints) st.(dbEndpointCache)) st).

Section api.
Context (cfg : config).

(** ** Index (index.go, cache.go) *)

Definition ReceiveItem (item : GraphItem.t) (md5 : string) (st : state) : go state :=
  let uuid := GraphItem.UUID item in
  let entry := IndexCacheItem.New uuid (Some item) in
  match st.(IndexedItemCache) !! md5 with
  | Some old =>
      Ret (if decide (uuid = old.(IndexCacheItem.UUID))
           then with_Indexed (<[md5 := entry]> st.(IndexedItemCache)) st
           else with_unIndexed (<[md5 := entry]> st.(unIndexedItemCache)) st)
  | None =>
      rrdFileName ← RrdFileName cfg.(Storage) md5 item.(GraphItem.DsType) item.(GraphItem.Step);
      Ret (if decide (rrdFileName ∈ st.(files))
           then with_Indexed (<[md5 := entry]> st.(IndexedItemCache)) st
           else with_unIndexed (<[md5 := entry]> st.(unIndexedItemCache)) st)
  end.

Definition RemoveItem (item : GraphItem.t) (st : state) : go state :=
  let md5 := GraphItem.Checksum item in
  let st := with_Indexed (delete md5 st.(IndexedItemCache)) st in
  let st := with_unIndexed (delete md5 st.(unIndexedItemCache)) st in
  let key := FormRrdCacheKey md5 item.(GraphItem.DsType) item.(GraphItem.Step) in
  r ← GraphItemMap.PopAll key st.(GraphItems);
  let st := with_GraphItems (r : list GraphItem.t * GraphItemMap.t).2 st in
  rrdFileName ← RrdFileName cfg.(Storage) md5 item.(GraphItem.DsType) item.(GraphItem.Step);
  Ret (with_files (st.(files) ∖ {[rrdFileName]}) st).

Definition GetEndpointFromCache (db : database) (endpoint : string) (st : state) : option Z * state :=
  match st.(dbEndpointCache) !! endpoint with
  | Some endpointId => (Some endpointId, st)
  | None =>
      match db.(select_endpoint) endpoint with
      | Ok (Some id) =>
          if id <? 0 then (None, st)
          else (Some id, with_dbEndpointCache (<[endpoint := id]> st.(dbEndpointCache)) st)
      | _ => (None, st)
      end
  end.

Definition GetCounterFromCache (db : database) (endpointId : Z) (counter : string) (st : state) :
    go (option (string * Z) * state) :=
  let key := Itoa endpointId +:+ "-" +:+ counter in
  match st.(dbEndpointCounterCache) !! key with
  | Some dsTypeStep =>
      let arr := split "_" dsTypeStep in
      arr1 ← at_index arr 1;
      match Atoi arr1 with
      | Err _ => Ret (None, st)
      | Ok step => dsType ← at_index arr 0; Ret (Some (dsType, step), st)
      end
  | None =>
      match db.(select_counter) endpointId counter with
      | Ok (Some (dsType, step)) =>
          Ret (Some (dsType, step),
               with_dbEndpointCounterCache
                 (<[key := dsType +:+ "_" +:+ Itoa step]> st.(dbEndpointCounterCache)) st)
      | _ => Ret (None, st)
      end
  end.

Definition GetTypeAndStep (db : database) (endpoint counter : string) (st : state) :
    go (option (string * Z) * state) :=
  let pk := Md5 (endpoint +:+ "/" +:+ counter) in
  match st.(IndexedItemCache) !! pk ≫= IndexCacheItem.Item with
  | Some item => Ret (Some (item.(GraphItem.DsType), item.(GraphItem.Step)), st)
  | None =>
      let st := incr GraphLoadDbCnt 1 st in
      match GetEndpointFromCache db endpoint st with
      | (None, st) => Ret (None, st)
      | (Some endpointId, st) => GetCounterFromCache db endpointId counter st
      end
  end.

(** ** Receiving items (api/graph.go) *)

Definition handle_item (st : state) (it : option GraphItem.t) : go state :=
  match it with
  | None => Ret st
  | Some item =>
      if negb (IsValidString cfg.(unicode_print) item.(GraphItem.Endpoint)) then Ret st
      else if negb (IsValidString cfg.(unicode_print) (Counter item.(GraphItem.Metric) item.(GraphItem.Tags)))
      then Ret st
      else
        let checksum := GraphItem.Checksum item in
        let key := FormRrdCacheKey checksum item.(GraphItem.DsType) item.(GraphItem.Step) in
        let st := incr GraphRpcRecvCnt 1 st in
        first ← GraphItemMap.First key st.(GraphItems);
        let old := match first : option GraphItem.t with
          | Some first => item.(GraphItem.Timestamp) <=? first.(GraphItem.Timestamp)
          | None => false end in
        if old then Ret st
        else
          items ← GraphItemMap.PushFront cfg.(MigrateEnabled) cfg.(Storage)
            (λ f, bool_decide (f ∈ st.(files))) key item checksum st.(GraphItems);
          st ← ReceiveItem item checksum (with_GraphItems items st);
          Ret (with_HistoryCache (AddItem checksum item st.(HistoryCache)) st)
  end.

Definition handleItems (items : list (option GraphItem.t)) (st : state) : go state :=
  go_foldl handle_item st items.

(** ** Deleting (api/graph.go) *)

Record GraphDeleteParam : Type := DeleteParam {
  dEndpoint : string; dMetric : string; dStep : Z; dDsType : string; dTags : string }.

Definition delete_param (st : state) (param : option GraphDeleteParam) : go state :=
  param ← deref param;
  match SplitTagsString param.(dTags) with
  | (Some _, _) => Ret st
  | (None, tags) =>
      RemoveItem (GraphItem.mk param.(dEndpoint) param.(dMetric) tags f64_zero 0 param.(dDsType)
        param.(dStep) 0 "" "") st
  end.

Definition Delete (params : list (option GraphDeleteParam)) (st : state) : go state :=
  go_foldl delete_param st params.

(** ** The latest values (api/graph.go) *)

Definition GetLastRaw (endpoint counter : string) (st : state) : RRDData.t :=
  let md5 := Md5 (endpoint +:+ "/" +:+ counter) in
  let item := GetLastItem md5 st.(HistoryCache) in
  RRDData.New item.(GraphItem.Timestamp) item.(GraphItem.Value).

(** The rate between the last two items of a counter. *)
Definition last_rate (step : Z) (items : list GraphItem.t) : RRDData.t :=
  match items with
  | f0 :: f1 :: _ =>
      let delta_ts := f0.(GraphItem.Timestamp) -₆₄ f1.(GraphItem.Timestamp) in
      let delta_v := f64_sub f0.(GraphItem.Value) f1.(GraphItem.Value) in
      if bool_decide (delta_ts ≠ step) || (delta_ts <=? 0) then RRDData.New 0 f64_zero
      else
        let delta_v := if f64_lt delta_v f64_zero then f64_zero else delta_v in
        RRDData.New f0.(GraphItem.Timestamp) (f64_div delta_v (f64_of_Z delta_ts))
  | _ => RRDData.New 0 f64_zero
  end.

Definition GetLast (db : database) (endpoint counter : string) (st : state) : go (RRDData.t * state) :=
  r ← GetTypeAndStep db endpoint counter st;
  let '(ts, st) := r : option (string * Z) * state in
  Ret (match ts with
    | None => RRDData.New 0 f64_zero
    | Some (dsType, step) =>
        if decide (dsType = GAUGE) then GetLastRaw endpoint counter st
        else if decide (dsType = COUNTER ∨ dsType = DERIVE) then
          last_rate step (GetAllItems (Md5 (endpoint +:+ "/" +:+ counter)) st.(HistoryCache))
        else RRDData.New 0 f64_zero
    end, st).

Definition Last (db : database) (endpoint counter : string) (st : state) :
    go (string * string * RRDData.t * state) :=
  r ← GetLast db endpoint counter (incr GraphLastCnt 1 st);
  Ret (endpoint, counter, (r : RRDData.t * state).1, r.2).

Definition LastRaw (endpoint counter : string) (st : state) : string * string * RRDData.t * state :=
  let st := incr GraphLastRawCnt 1 st in
  (endpoint, counter, GetLastRaw endpoint counter st, st).

(** [Info]: the consolidation function, the step and the file of a counter; nothing when unknown. *)
Definition Info (db : database) (endpoint counter : string) (st : state) :
    go (option (string * Z * string) * state) :=
  r ← GetTypeAndStep db endpoint counter (incr GraphInfoCnt 1 st);
  match r : option (string * Z) * state with
  | (None, st) => Ret (None, st)
  | (Some (dsType, step), st) =>
      filename ← RrdFileName cfg.(Storage) (Md5 (endpoint +:+ "/" +:+ counter)) dsType step;
      Ret (Some (dsType, step, filename), st)
  end.

(** ** Updating the index in the database (index_update_*_task.go) *)

(** [conn.Exec]. *)
Definition run_sql (db : database) (q : sql) (st : state) : result unit * state :=
  (db.(exec) q, log_sql q st).

(** The statements for the tags, until one fails. *)
Fixpoint insert_tags (db : database) (endpointId ts : Z) (kvs : list (string * string)) (st : state) :
    result unit * state :=
  match kvs with
  | [] => (Ok tt, st)
  | kv :: kvs =>
      match run_sql db (InsertTagEndpoint (kv.1 +:+ "=" +:+ kv.2) endpointId ts) st with
      | (Err e, st) => (Err e, st)
      | (Ok _, st) => insert_tags db endpointId ts kvs (incr IndexUpdateIncrDbTagEndpointInsertCnt 1 st)
      end
  end.

Definition index_counter (item : GraphItem.t) : string :=
  if (0 <? Z.of_nat (size item.(GraphItem.Tags)))
  then item.(GraphItem.Metric) +:+ "/" +:+ SortedTags item.(GraphItem.Tags)
  else item.(GraphItem.Metric).

(** [updateIndexFromOneItem]; [kvs] visits the tags of the item. *)
Definition updateIndexFromOneItem (db : database) (kvs : list (string * string))
    (item : option GraphItem.t) (st : state) : result unit * state :=
  match item with
  | None => (Ok tt, st)
  | Some item =>
      let ts := item.(GraphItem.Timestamp) in
      match run_sql db (InsertEndpoint item.(GraphItem.Endpoint) ts) st with
      | (Err e, st) => (Err e, st)
      | (Ok _, st) =>
          let st := incr IndexUpdateIncrDbEndpointInsertCnt 1 st in
          let st := log_sql (SelectEndpoint item.(GraphItem.Endpoint)) st in
          match db.(select_endpoint) item.(GraphItem.Endpoint) with
          | Err e => (Err e, st)
          | Ok None => (Err "sql: no rows in result set", st)
          | Ok (Some endpointId) =>
              if endpointId <=? 0 then (Err "no such endpoint", st)
              else match insert_tags db endpointId ts kvs st with
              | (Err e, st) => (Err e, st)
              | (Ok _, st) =>
                  match run_sql db (InsertEndpointCounter endpointId (index_counter item)
                    item.(GraphItem.Step) item.(GraphItem.DsType) ts) st with
                  | (Err e, st) => (Err e, st)
                  | (Ok _, st) => (Ok tt, incr IndexUpdateIncrDbEndpointCounterInsertCnt 1 st)
                  end
              end
          end
      end
  end.

(** One key of [updateIndexIncr]: it leaves the unindexed cache, and enters
the indexed one if the database could be updated; [visit] gives the order in
which the tags of an entry are visited. *)
Definition update_incr (db : database) (visit : IndexCacheItem.t → list (string * string))
    (acc : Z * state) (key : string) : Z * state :=
  let '(ret, st) := acc in
  match st.(unIndexedItemCache) !! key with
  | None => (ret, st)
  | Some icitem =>
      let st := with_unIndexed (delete key st.(unIndexedItemCache)) st in
      match updateIndexFromOneItem db (visit icitem) icitem.(IndexCacheItem.Item) st with
      | (Err _, st) => (ret + 1, incr IndexUpdateIncrErrorCnt 1 st)
      | (Ok _, st) => (ret + 1, with_Indexed (<[key := icitem]> st.(IndexedItemCache)) st)
      end
  end.

(** [updateIndexIncr] on the keys in the order [keys] of the map; [connected]
tells whether a connection could be had.  The updates of the keys run two at
a time in the code and do not depend on each other. *)
Definition updateIndexIncr (connected : bool) (db : database)
    (visit : IndexCacheItem.t → list (string * string)) (keys : list string) (st : state) : Z * state :=
  if decide (st.(unIndexedItemCache) = ∅) then (0, st)
  else if negb connected then (0, st)
  else foldl (update_incr db visit) (0, st) keys.

(** One key of [updateIndexAll]: what is too old leaves the index. *)
Definition update_all (db : database) (visit : IndexCacheItem.t → list (string * string))
    (lastTs : Z) (acc : Z * state) (key : string) : go (Z * state) :=
  let '(ret, st) := acc in
  match st.(IndexedItemCache) !! key with
  | None => Ret (ret, st)
  | Some icitem =>
      gitem ← deref icitem.(IndexCacheItem.Item);
      if gitem.(GraphItem.Timestamp) <? lastTs then
        Ret (ret, with_Indexed (delete key st.(IndexedItemCache)) st)
      else
        match updateIndexFromOneItem db (visit icitem) (Some gitem) st with
        | (Err _, st) => Ret (ret + 1, incr IndexUpdateAllErrorCnt 1 st)
        | (Ok _, st) => Ret (ret + 1, st)
        end
  end.

Definition updateIndexAll (connected : bool) (db : database)
    (visit : IndexCacheItem.t → list (string * string)) (updateStepInSec now : Z)
    (keys : list string) (st : state) : go (Z * state) :=
  if decide (st.(IndexedItemCache) = ∅) then Ret (0, st)
  else if negb connected then Ret (0, st)
  else go_foldl (update_all db visit (now -₆₄ updateStepInSec)) (0, st) keys.

(** [UpdateIndexOne]: the manual update of one counter. *)
Definition UpdateIndexOne (connected : result unit) (db : database)
    (visit : IndexCacheItem.t → list (string * string))
    (endpoint metric : string) (tags : gmap string string) (dstype : string) (step : Z) (st : state) :
    result unit * state :=
  let itemDemo := GraphItem.mk endpoint metric tags f64_zero 0 dstype step 0 "" "" in
  match st.(IndexedItemCache) !! GraphItem.Checksum itemDemo with
  | None => (Err "not found", st)
  | Some icitem =>
      if decide (icitem.(IndexCacheItem.UUID) = GraphItem.UUID itemDemo) then
        match connected with
        | Err e => (Err e, st)
        | Ok _ => updateIndexFromOneItem db (visit icitem) icitem.(IndexCacheItem.Item) st
        end
      else (Err "bad type or step", st)
  end.

(** ** Cleaning (cron/clean.go) *)

(** One key of [DeleteInvalidItems], with the count of deletions. *)
Definition delete_invalid_item (acc : Z * state) (key : string) : go (Z * state) :=
  let '(deleteCnt, st) := acc in
  let tmp := split "_" key in
  if decide (length tmp = 3%nat) then
    tmp0 ← at_index tmp 0;
    if negb (ContainsKey tmp0 st.(IndexedItemCache)) then
      r ← GraphItemMap.Remove key st.(GraphItems);
      Ret (deleteCnt + 1, with_GraphItems (r : bool * GraphItemMap.t).2 st)
    else Ret acc
  else Ret acc.

Definition DeleteInvalidItems (st : state) : go (Z * state) :=
  go_foldl (λ acc idx,
    keys ← GraphItemMap.KeysByIndex idx (acc : Z * state).2.(GraphItems);
    go_foldl delete_invalid_item acc keys)
    (0, st) (seqZ 0 st.(GraphItems).(GraphItemMap.Size)).

(** [DeleteInvalidHistory], with the keys in the order [keys] of the map. *)
Definition DeleteInvalidHistory (keys : list string) (st : state) : Z * state :=
  foldl (λ acc key,
    if negb (ContainsKey key (acc : Z * state).2.(IndexedItemCache))
    then (acc.1 + 1, with_HistoryCache (delete key acc.2.(HistoryCache)) acc.2)
    else acc) (0, st) keys.
End api.
