(* ===== verification/GraphSafety.v ===== *)
(** * Graph: correctness of receiving, indexing, deleting

What the cache of graph promises as a plain abstract machine ([abs]: a list of
items for each key and for each metric), the invariant of the concrete state
([graph_ok]), the refinement between them, and the properties of the index and
of the cleaning tasks. *)

From stdpp Require Import functions.
From S2P Require Import Prelude GoFloat GoString Hash Tags Model Containers GraphStore GraphApi.
From Stdlib Require Import Ascii.
From stdpp Require Import options.

(** ** Abstract machine *)

Definition item_key (item : GraphItem.t) : string :=
  FormRrdCacheKey (GraphItem.Checksum item) item.(GraphItem.DsType) item.(GraphItem.Step).

Definition valid (cfg : config) (item : GraphItem.t) : bool :=
  IsValidString cfg.(unicode_print) item.(GraphItem.Endpoint) &&
  IsValidString cfg.(unicode_print) (Counter item.(GraphItem.Metric) item.(GraphItem.Tags)).

Record abs : Type := Abs { a_cache : string → list GraphItem.t; a_hist : string → list GraphItem.t }.

(** An item that is new to the list of its key enters it, and enters the last
three of its metric if it is new to them also. *)
Definition abs_receive (cfg : config) (a : abs) (it : option GraphItem.t) : abs :=
  match it with
  | None => a
  | Some item =>
      let key := item_key item in
      let md5 := GraphItem.Checksum item in
      if valid cfg item && newer (a.(a_cache) key) item then
        Abs (<[key := item :: a.(a_cache) key]> a.(a_cache))
            (<[md5 := if newer (a.(a_hist) md5) item then take 3 (item :: a.(a_hist) md5)
                      else a.(a_hist) md5]> a.(a_hist))
      else a
  end.

Definition cached (st : state) (key : string) : list GraphItem.t :=
  match view st.(GraphItems) key with Some sl => sl.(SafeLinkedList.L) | None => [] end.

Record represents (st : state) (a : abs) : Prop := Represents {
  rep_cache : ∀ key, cached st key = a.(a_cache) key;
  rep_hist : ∀ md5, GetAllItems md5 st.(HistoryCache) = a.(a_hist) md5 }.

(** ** Invariant *)

Definition entry_ok (md5 : string) (e : IndexCacheItem.t) : Prop :=
  ∃ item, e = IndexCacheItem.New (GraphItem.UUID item) (Some item) ∧ md5 = GraphItem.Checksum item.

Definition list_ok (key : string) (l : list GraphItem.t) : Prop :=
  newest_first l ∧ Forall (λ item, key = item_key item) l.

Record graph_ok (st : state) : Prop := GraphOk {
  ok_map : map_ok st.(GraphItems);
  ok_lists : ∀ key, list_ok key (cached st key);
  ok_history : history_ok st.(HistoryCache);
  ok_indexed : map_Forall entry_ok st.(IndexedItemCache);
  ok_unIndexed : map_Forall entry_ok st.(unIndexedItemCache);
  ok_counters : map_Forall (λ _ v, ∃ dsType step, v = dsType +:+ "_" +:+ Itoa step) st.(dbEndpointCounterCache) }.

(** What the operations on the index and the statistics leave alone. *)
Definition same_items (st st' : state) : Prop :=
  st'.(GraphItems) = st.(GraphItems) ∧ st'.(HistoryCache) = st.(HistoryCache).

#[export] Instance same_items_refl : Reflexive same_items.
Proof. by intros st. Qed.
#[export] Instance same_items_trans : Transitive same_items.
Proof. intros st1 st2 st3 [] []. split; congruence. Qed.

Lemma same_items_cached st st' key : same_items st st' → cached st' key = cached st key.
Proof. intros [E _]. unfold cached. by rewrite E. Qed.

Lemma same_items_represents st st' a : same_items st st' → represents st a → represents st' a.
Proof.
  intros Hs [H1 H2]. split; intros k; [by rewrite (same_items_cached _ _ _ Hs)|].
  destruct Hs as [_ ->]. apply H2.
Qed.

Lemma updated_cached st M' key o k :
  updated st.(GraphItems) M' key o →
  cached (with_GraphItems M' st) k =
    if decide (k = key) then match o with Some sl => sl.(SafeLinkedList.L) | None => [] end else cached st k.
Proof. intros (_ & _ & Hv). unfold cached. cbn. rewrite Hv. by case_decide. Qed.

Lemma entry_ok_insert (m : IndexCache) item :
  map_Forall entry_ok m →
  map_Forall entry_ok (<[GraphItem.Checksum item := IndexCacheItem.New (GraphItem.UUID item) (Some item)]> m).
Proof. intros Hm. apply map_Forall_insert_2; [by exists item|done]. Qed.

Lemma Checksum_returns storage item step dsType : ∃ f, RrdFileName storage (GraphItem.Checksum item) dsType step = Ret f.
Proof. unfold RrdFileName. destruct (Md5_slice (GraphItem.PrimaryKey item)) as [d Hd]. eexists. unfold GraphItem.Checksum, Checksum. unfold GraphItem.PrimaryKey in Hd. by rewrite Hd. Qed.

(** ** Receiving *)

Section receive.
Context (cfg : config).
Implicit Types (st : state) (item : GraphItem.t).

Lemma ReceiveItem_spec item st :
  graph_ok st →
  ∃ st', ReceiveItem cfg item (GraphItem.Checksum item) st = Ret st' ∧ graph_ok st' ∧ same_items st st' ∧
    st'.(files) = st.(files).
Proof.
  intros Hok. unfold ReceiveItem.
  destruct (st.(IndexedItemCache) !! _) as [old|]; [|destruct (Checksum_returns cfg.(Storage) item item.(GraphItem.Step) item.(GraphItem.DsType)) as [f ->]; cbn [mbind go_bind]].
  all: case_decide; eexists; (split; [done|]); (split; [|done]); destruct Hok; split; cbn; try done; by apply entry_ok_insert.
Qed.

Lemma First_cached key st :
  map_ok st.(GraphItems) → GraphItemMap.First key st.(GraphItems) = Ret (head (cached st key)).
Proof.
  intros Hok. unfold GraphItemMap.First, cached. rewrite Get_view by done. cbn.
  by destruct (view st.(GraphItems) key).
Qed.

Lemma newer_head l item :
  match head l with Some first => item.(GraphItem.Timestamp) <=? first.(GraphItem.Timestamp) | None => false end
  = negb (newer l item).
Proof. destruct l as [|first l]; [done|]. cbn. lia. Qed.

Lemma graph_ok_with_GraphItems st M' key o :
  graph_ok st → updated st.(GraphItems) M' key o →
  list_ok key (match o with Some sl => sl.(SafeLinkedList.L) | None => [] end) →
  graph_ok (with_GraphItems M' st).
Proof.
  intros [] Hu Hl. split; cbn; try done; [apply Hu|].
  intros k. rewrite (updated_cached _ _ _ _ _ Hu). case_decide; [by subst|done].
Qed.

Lemma same_items_incr s n st : same_items st (incr s n st).
Proof. done. Qed.

Lemma graph_ok_incr s n st : graph_ok st → graph_ok (incr s n st).
Proof. by intros []. Qed.

Lemma handle_item_refines st a it :
  graph_ok st → represents st a →
  ∃ st', handle_item cfg st it = Ret st' ∧ graph_ok st' ∧ represents st' (abs_receive cfg a it).
Proof.
  intros Hok Ha. destruct it as [item|]; [|by exists st]. unfold handle_item, abs_receive, valid.
  destruct (IsValidString _ (GraphItem.Endpoint item)); [|by exists st]. cbn [negb andb].
  destruct (IsValidString _ (Counter _ _)); [|by exists st]. cbn [negb andb].
  fold (item_key item). set (st1 := incr GraphRpcRecvCnt 1 st).
  assert (graph_ok st1) as Hok1 by (by apply graph_ok_incr).
  assert (represents st1 a) as Ha1 by (by apply (same_items_represents st)).
  rewrite First_cached by apply Hok1. cbn [mbind go_bind]. rewrite newer_head.
  rewrite <- (rep_cache _ _ Ha1). destruct (newer (cached st1 (item_key item)) item) eqn:En; cbn [negb];
    [|by exists st1].
  destruct (PushFront_view cfg.(MigrateEnabled) cfg.(Storage) (λ f, bool_decide (f ∈ st1.(files)))
    (item_key item) item (GraphItem.Checksum item) st1.(GraphItems)) as (M' & sl' & -> & Hu & HL).
  { apply Hok1. }
  { unfold GraphItem.Checksum, Checksum. rewrite (proj1 (Md5_shape _)). lia. }
  cbn [mbind go_bind]. change (match view (GraphItems st1) (item_key item) with
    | Some sl => sl.(SafeLinkedList.L) | None => [] end) with (cached st1 (item_key item)) in HL.
  assert (graph_ok (with_GraphItems M' st1)) as Hok2.
  { eapply graph_ok_with_GraphItems; [done..|]. cbn. rewrite HL.
    destruct (ok_lists _ Hok1 (item_key item)) as [Hs Hk]. split; [by apply newest_items_cons|by constructor]. }
  destruct (ReceiveItem_spec item _ Hok2) as (st3 & -> & Hok3 & Hs3 & _). cbn [mbind go_bind].
  destruct (AddItem_lookup (GraphItem.Checksum item) item st3.(HistoryCache) (ok_history _ Hok3)) as (Q & HQ & Hq & HSL).
  eexists. split; [done|].
  assert (∀ k, k ≠ GraphItem.Checksum item →
    AddItem (GraphItem.Checksum item) item st3.(HistoryCache) !! k = st3.(HistoryCache) !! k) as Hother.
  { intros k Hk. unfold AddItem. by rewrite lookup_insert_ne. }
  split; [|split; cbn [a_cache a_hist]].
  - destruct Hok3. split; cbn; try done. intros k Q' HQ'.
    destruct (decide (k = GraphItem.Checksum item)) as [->|Hk]; [congruence|].
    rewrite Hother in HQ' by done. by apply (ok_history0 k).
  - intros k. change (cached st3 k = <[item_key item:=item :: cached st1 (item_key item)]> a.(a_cache) k).
    rewrite (same_items_cached _ _ _ Hs3), (updated_cached _ _ _ _ _ Hu).
    destruct (decide (k = item_key item)) as [->|Hk]; [by rewrite HL, fn_lookup_insert|].
    rewrite fn_lookup_insert_ne by done. apply Ha1.
  - intros k. cbn [with_HistoryCache HistoryCache].
    destruct (decide (k = GraphItem.Checksum item)) as [->|Hk].
    + rewrite fn_lookup_insert. unfold GetAllItems at 1. rewrite HQ. unfold SafeListLimited.FrontAll, SafeList.FrontAll.
      rewrite HSL. destruct Hs3 as [_ ->]. cbn. by rewrite (rep_hist _ _ Ha).
    + rewrite fn_lookup_insert_ne by done. unfold GetAllItems. rewrite Hother by done.
      change (GetAllItems k st3.(HistoryCache) = a_hist a k). destruct Hs3 as [_ ->]. apply Ha1.
Qed.

Lemma handleItems_spec items st a :
  graph_ok st → represents st a →
  ∃ st', handleItems cfg items st = Ret st' ∧ graph_ok st' ∧ represents st' (foldl (abs_receive cfg) a items).
Proof.
  unfold handleItems. revert st a. induction items as [|it items IH]; intros st a Hok Ha; [by exists st|].
  destruct (handle_item_refines st a it Hok Ha) as (st1 & E & Hok1 & Ha1). cbn [go_foldl foldl]. rewrite E.
  apply (IH _ _ Hok1 Ha1).
Qed.
End receive.

(** ** The database and its caches *)

(** Only the statistics, the statements and the database caches may differ. *)
Record same_caches (st st' : state) : Prop := SameCaches {
  sc_items : st'.(GraphItems) = st.(GraphItems);
  sc_history : st'.(HistoryCache) = st.(HistoryCache);
  sc_indexed : st'.(IndexedItemCache) = st.(IndexedItemCache);
  sc_unIndexed : st'.(unIndexedItemCache) = st.(unIndexedItemCache);
  sc_files : st'.(files) = st.(files) }.

#[export] Instance same_caches_refl : Reflexive same_caches.
Proof. by intros st. Qed.
#[export] Instance same_caches_trans : Transitive same_caches.
Proof. intros st1 st2 st3 [] []. split; congruence. Qed.

Lemma same_caches_graph_ok st st' :
  same_caches st st' →
  map_Forall (λ _ v, ∃ dsType step, v = dsType +:+ "_" +:+ Itoa step) st'.(dbEndpointCounterCache) →
  graph_ok st → graph_ok st'.
Proof.
  intros [H1 H2 H3 H4 H5] Hc []. split; rewrite ?H1, ?H2, ?H3, ?H4; try done.
  intros key. unfold cached. rewrite H1. apply ok_lists0.
Qed.

Lemma split_two c s t : (2 <= length (split c (s +:+ String c t)))%nat.
Proof.
  induction s as [|a s IH]; cbn [String.append split].
  - rewrite decide_True by done. pose proof (split_nonempty c t). cbn.
    destruct (split c t); [done|cbn; lia].
  - case_decide; [cbn; lia|]. destruct (split c _); cbn in *; lia.
Qed.

Lemma GetCounterFromCache_spec db id counter st :
  graph_ok st →
  ∃ r st', GetCounterFromCache db id counter st = Ret (r, st') ∧ graph_ok st' ∧ same_caches st st'.
Proof.
  intros Hok. unfold GetCounterFromCache. destruct (_ !! _) as [v|] eqn:E.
  - destruct (ok_counters _ Hok _ _ E) as (dsType & step & ->).
    pose proof (split_two "_" dsType (Itoa step)) as Hl.
    destruct (returns_at_index (split "_" (dsType +:+ "_" +:+ Itoa step)) 1) as [a1 H1]; [cbn in *; lia|].
    destruct (returns_at_index (split "_" (dsType +:+ "_" +:+ Itoa step)) 0) as [a0 H0]; [cbn in *; lia|].
    rewrite H1. cbn [mbind go_bind]. destruct (Atoi a1) as [step'|]; [rewrite H0|]; by eexists _, st.
  - destruct (select_counter _ _ _) as [[[dsType step]|]|]; [|by eexists _, st..].
    eexists _, _. split; [done|]. split; [|done]. destruct Hok. split; cbn; try done.
    apply map_Forall_insert_2; [by eexists _, _|done].
Qed.

Lemma GetEndpointFromCache_spec db endpoint st :
  graph_ok st → ∃ r st', GetEndpointFromCache db endpoint st = (r, st') ∧ graph_ok st' ∧ same_caches st st'.
Proof.
  intros Hok. unfold GetEndpointFromCache.
  destruct (_ !! _); [by eexists _, _|]. destruct (select_endpoint _ _) as [[id|]|]; [|by eexists _, _..].
  destruct (id <? 0); [by eexists _, _|]. eexists _, _. split; [done|]. split; [|done]. by destruct Hok.
Qed.

Lemma GetTypeAndStep_spec db endpoint counter st :
  graph_ok st →
  ∃ r st', GetTypeAndStep db endpoint counter st = Ret (r, st') ∧ graph_ok st' ∧ same_caches st st'.
Proof.
  intros Hok. unfold GetTypeAndStep. destruct (_ ≫= _); [by eexists _, _|].
  destruct (GetEndpointFromCache_spec db endpoint _ (graph_ok_incr GraphLoadDbCnt 1 st Hok)) as (r & st1 & -> & Hok1 & Hs1).
  assert (same_caches st st1) as Hs by (by destruct Hs1).
  destruct r as [id|]; [|by eexists _, _].
  destruct (GetCounterFromCache_spec db id counter st1 Hok1) as (r & st2 & -> & Hok2 & Hs2).
  eexists _, _. split; [done|]. split; [done|]. by transitivity st1.
Qed.

(** ** Updating the index *)

Definition succeeds (db : database) (q : sql) : bool :=
  match q with SelectEndpoint _ => true | q => is_ok (db.(exec) q) end.

(** The statements that are executed of a list: up to the first that fails. *)
Fixpoint executed (db : database) (qs : list sql) : list sql :=
  match qs with
  | [] => []
  | q :: qs => q :: (if succeeds db q then executed db qs else [])
  end.

(** The statements that index an item, when its endpoint has a row; and whether it has. *)
Definition statements (db : database) (kvs : list (string * string)) (item : GraphItem.t) : list sql * bool :=
  let ts := item.(GraphItem.Timestamp) in
  let head := [InsertEndpoint item.(GraphItem.Endpoint) ts; SelectEndpoint item.(GraphItem.Endpoint)] in
  match db.(select_endpoint) item.(GraphItem.Endpoint) with
  | Ok (Some id) =>
      if 0 <? id then
        (head ++ map (λ kv, InsertTagEndpoint (kv.1 +:+ "=" +:+ kv.2) id ts) kvs ++
          [InsertEndpointCounter id (index_counter item) item.(GraphItem.Step) item.(GraphItem.DsType) ts], true)
      else (head, false)
  | _ => (head, false)
  end.

(** Does an entry get indexed? *)
Definition indexable (db : database) (kvs : list (string * string)) (item : option GraphItem.t) : bool :=
  match item with
  | None => true
  | Some item => let '(qs, found) := statements db kvs item in forallb (succeeds db) qs && found
  end.

(** The database caches and the statements executed so far, besides [same_caches]. *)
Definition ran (st st' : state) (qs : list sql) : Prop :=
  same_caches st st' ∧ st'.(dbEndpointCounterCache) = st.(dbEndpointCounterCache) ∧
  st'.(sql_log) = reverse qs ++ st.(sql_log).

Lemma ran_nil st st' : same_caches st st' → st'.(dbEndpointCounterCache) = st.(dbEndpointCounterCache) →
  st'.(sql_log) = st.(sql_log) → ran st st' [].
Proof. by intros H1 H2 H3. Qed.

Lemma ran_cons q qs st st' s n : ran (incr s n (log_sql q st)) st' qs → ran st st' (q :: qs).
Proof.
  intros (H1 & H2 & H3). split_and!; [by destruct H1|done|]. rewrite H3, reverse_cons, <- app_assoc. done.
Qed.

Lemma ran_cons' q qs st st' : ran (log_sql q st) st' qs → ran st st' (q :: qs).
Proof.
  intros (H1 & H2 & H3). split_and!; [by destruct H1|done|]. rewrite H3, reverse_cons, <- app_assoc. done.
Qed.

Lemma ran_refl st : ran st st [].
Proof. by apply ran_nil. Qed.

Lemma ran_incr st st' qs s n : ran st st' qs → ran st (incr s n st') qs.
Proof. intros ([] & H2 & H3). by split_and!. Qed.

Lemma ran_trans st1 st2 st3 qs1 qs2 : ran st1 st2 qs1 → ran st2 st3 qs2 → ran st1 st3 (qs1 ++ qs2).
Proof.
  intros (H1 & H2 & H3) (H1' & H2' & H3'). split_and!; [by transitivity st2|congruence|].
  by rewrite H3', H3, reverse_app, <- app_assoc.
Qed.

Lemma run_sql_spec db q st :
  (∀ e, q ≠ SelectEndpoint e) →
  ∃ r, run_sql db q st = (r, log_sql q st) ∧ is_ok r = succeeds db q ∧ executed db [q] = [q].
Proof. intros Hq. exists (db.(exec) q). split_and!; [done|by destruct q; try naive_solver|]. cbn. by destruct (succeeds db q). Qed.

Lemma executed_app db qs1 qs2 :
  executed db (qs1 ++ qs2) = executed db qs1 ++ (if forallb (succeeds db) qs1 then executed db qs2 else []).
Proof.
  induction qs1 as [|q qs1 IH]; [done|]. cbn. destruct (succeeds db q); [|done]. cbn. by rewrite IH.
Qed.

Lemma insert_tags_spec db id ts kvs st :
  let qs := map (λ kv, InsertTagEndpoint (kv.1 +:+ "=" +:+ kv.2) id ts) kvs in
  let '(r, st') := insert_tags db id ts kvs st in
  is_ok r = forallb (succeeds db) qs ∧ ran st st' (executed db qs).
Proof.
  revert st. induction kvs as [|kv kvs IH]; intros st; cbn; [by split; [|apply ran_refl]|].
  destruct (exec db _) as [[]|e] eqn:E; cbn; [|by split; [|apply ran_cons', ran_refl]].
  set (q := InsertTagEndpoint _ id ts).
  specialize (IH (incr IndexUpdateIncrDbTagEndpointInsertCnt 1 (log_sql q st))). cbn in IH.
  destruct (insert_tags _ _ _ _ _) as [r st']. destruct IH as [IH1 IH2]. split; [done|]. eapply ran_cons, IH2.
Qed.

Lemma updateIndexFromOneItem_spec db kvs item st :
  let '(r, st') := updateIndexFromOneItem db kvs item st in
  is_ok r = indexable db kvs item ∧
  ran st st' (match item with Some item => executed db (statements db kvs item).1 | None => [] end).
Proof.
  destruct item as [item|]; [|by split; [|apply ran_refl]].
  unfold updateIndexFromOneItem, indexable, statements, run_sql.
  set (ts := item.(GraphItem.Timestamp)). set (e := item.(GraphItem.Endpoint)).
  destruct (exec db (InsertEndpoint e ts)) as [[]|err] eqn:E1.
  2: { destruct (select_endpoint db e) as [[id|]|]; [destruct (0 <? id)|..];
    cbn; rewrite E1; cbn; (split; [done|]); apply ran_cons', ran_refl. }
  destruct (select_endpoint db e) as [[id|]|] eqn:E2.
  2,3: cbn; rewrite E1; cbn; (split; [done|]); eapply ran_cons, ran_cons', ran_refl.
  destruct (Z.leb_spec id 0), (Z.ltb_spec 0 id); [lia| |idtac|lia].
  { cbn. rewrite E1. cbn. split; [done|]. eapply ran_cons, ran_cons', ran_refl. }
  set (st0 := log_sql (SelectEndpoint e) _).
  pose proof (insert_tags_spec db id ts kvs st0) as Htags. cbv zeta in Htags.
  destruct (insert_tags db id ts kvs st0) as [r1 st1]. destruct Htags as [Hr1 Hran1].
  set (tags := map _ kvs) in *. set (q := InsertEndpointCounter _ _ _ _ _).
  assert (∀ st', ran st0 st' (executed db (tags ++ [q])) →
    ran st st' (executed db ([InsertEndpoint e ts; SelectEndpoint e] ++ tags ++ [q]))) as Hhead.
  { intros st' Hr. cbn. rewrite E1. cbn. eapply ran_cons, ran_cons', Hr. }
  cbn [fst]. rewrite !forallb_app. cbn [forallb succeeds]. rewrite E1. cbn [is_ok andb].
  assert (succeeds db q = is_ok (exec db q)) as Hq by done. rewrite Hq.
  rewrite executed_app, <- Hr1 in Hhead. rewrite <- Hr1. destruct r1 as [[]|err1]; cbn [is_ok] in *.
  - destruct (exec db q) as [[]|err2] eqn:E3; cbn [executed] in Hhead; rewrite ?E3; cbn [is_ok]; (split; [done|]);
      apply Hhead; eapply ran_trans; [exact Hran1| |exact Hran1|].
    + destruct (succeeds db q); eapply ran_cons, ran_refl.
    + destruct (succeeds db q); apply ran_cons', ran_refl.
  - split; [done|]. apply Hhead. by rewrite app_nil_r.
Qed.

Definition entry_indexable (db : database) (visit : IndexCacheItem.t → list (string * string))
    (e : IndexCacheItem.t) : bool :=
  indexable db (visit e) e.(IndexCacheItem.Item).

(** Neither the items nor what is derived from them changes; the index may. *)
Record same_data (st st' : state) : Prop := SameData {
  sd_items : st'.(GraphItems) = st.(GraphItems);
  sd_history : st'.(HistoryCache) = st.(HistoryCache);
  sd_counters : st'.(dbEndpointCounterCache) = st.(dbEndpointCounterCache);
  sd_files : st'.(files) = st.(files) }.

#[export] Instance same_data_refl : Reflexive same_data.
Proof. by intros st. Qed.
#[export] Instance same_data_trans : Transitive same_data.
Proof. intros st1 st2 st3 [] []. split; congruence. Qed.

Lemma same_data_graph_ok st st' :
  same_data st st' → map_Forall entry_ok st'.(IndexedItemCache) → map_Forall entry_ok st'.(unIndexedItemCache) →
  graph_ok st → graph_ok st'.
Proof.
  intros [H1 H2 H3 H4] Hi Hu []. split; rewrite ?H1, ?H2, ?H3; try done.
  intros key. unfold cached. rewrite H1. apply ok_lists0.
Qed.

Lemma ran_same_data st st' qs : ran st st' qs → same_data st st'.
Proof. intros ([] & H2 & _). by split. Qed.

Section update.
Context (db : database) (visit : IndexCacheItem.t → list (string * string)).
Notation ok := (entry_indexable db visit).

Lemma update_incr_step ret st key e :
  st.(unIndexedItemCache) !! key = Some e →
  ∃ st', update_incr db visit (ret, st) key = (ret + 1, st') ∧ same_data st st' ∧
    st'.(unIndexedItemCache) = delete key st.(unIndexedItemCache) ∧
    st'.(IndexedItemCache) = (if ok e then <[key := e]> st.(IndexedItemCache) else st.(IndexedItemCache)).
Proof.
  intros He. unfold update_incr. rewrite He. set (st1 := with_unIndexed _ st).
  pose proof (updateIndexFromOneItem_spec db (visit e) e.(IndexCacheItem.Item) st1) as H.
  destruct (updateIndexFromOneItem _ _ _ _) as [r st2]. destruct H as [Hr Hran].
  assert (same_data st st2) as Hs by (apply ran_same_data in Hran; by destruct Hran).
  destruct Hran as ([_ _ Hi Hu _] & _).
  unfold entry_indexable. rewrite <- Hr. destruct r as [[]|err]; cbn [is_ok]; eexists; (split; [done|]).
  - split; [by destruct Hs|]. cbn. by rewrite Hi, Hu.
  - split; [by destruct Hs|]. cbn. by rewrite Hi, Hu.
Qed.

Lemma update_incr_fold keys ret st :
  NoDup keys → Forall (λ k, is_Some (st.(unIndexedItemCache) !! k)) keys →
  let '(ret', st') := foldl (update_incr db visit) (ret, st) keys in
  ret' = ret + Z.of_nat (length keys) ∧ same_data st st' ∧
  (∀ k, st'.(unIndexedItemCache) !! k =
     if decide (k ∈ keys) then None else st.(unIndexedItemCache) !! k) ∧
  (∀ k, st'.(IndexedItemCache) !! k =
     match (if decide (k ∈ keys) then st.(unIndexedItemCache) !! k else None) with
     | Some e => if ok e then Some e else st.(IndexedItemCache) !! k
     | None => st.(IndexedItemCache) !! k
     end).
Proof.
  intros Hnd. revert ret st. induction Hnd as [|key keys Hkey Hnd IH]; intros ret st Hall.
  { cbn. split_and!; [lia|done| |]; intros k; by rewrite decide_False by (by intros ?%elem_of_nil). }
  apply Forall_cons in Hall as [[e He] Hall].
  destruct (update_incr_step ret st key e He) as (st1 & E & Hs & Hu & Hi). cbn [foldl]. rewrite E.
  assert (∀ k, st1.(unIndexedItemCache) !! k = if decide (k = key) then None else st.(unIndexedItemCache) !! k) as Hu'.
  { intros k. rewrite Hu. case_decide; subst; [apply lookup_delete_eq|by apply lookup_delete_ne]. }
  assert (Forall (λ k, is_Some (st1.(unIndexedItemCache) !! k)) keys) as Hall1.
  { rewrite Forall_forall in *. intros k Hk. rewrite Hu'. rewrite decide_False by (by intros ->). by apply Hall. }
  specialize (IH (ret + 1) st1 Hall1).
  destruct (foldl _ _ keys) as [ret' st']. destruct IH as (-> & Hs' & Hun & Hix).
  split_and!; [cbn; lia|by transitivity st1|..]; intros k; rewrite ?Hun, ?Hix, Hu';
    destruct (decide (k = key)) as [->|Hk].
  - rewrite (decide_True (P := key ∈ key :: keys)) by left. by case_decide.
  - destruct (decide (k ∈ keys)); [rewrite decide_True by (by right)|rewrite decide_False]; try done.
    by intros [|]%elem_of_cons.
  - rewrite (decide_False (P := key ∈ keys)) by done. rewrite (decide_True (P := key ∈ key :: keys)) by left.
    rewrite He, Hi. destruct (ok e); [apply lookup_insert_eq|done].
  - assert (st1.(IndexedItemCache) !! k = st.(IndexedItemCache) !! k) as ->.
    { rewrite Hi. destruct (ok e); [by apply lookup_insert_ne|done]. }
    destruct (decide (k ∈ keys)); [rewrite decide_True by (by right)|rewrite decide_False]; try done.
    by intros [|]%elem_of_cons.
Qed.

(** Whatever the keys, the invariant holds. *)
Lemma update_incr_ok keys acc :
  graph_ok acc.2 → graph_ok (foldl (update_incr db visit) acc keys).2.
Proof.
  revert acc. induction keys as [|key keys IH]; intros [ret st] Hok; [done|]. apply IH.
  destruct (st.(unIndexedItemCache) !! key) as [e|] eqn:He.
  - destruct (update_incr_step ret st key e He) as (st1 & -> & Hs & Hu & Hi). cbn in *.
    apply (same_data_graph_ok st); [done| | |done]; rewrite ?Hu, ?Hi.
    + pose proof (ok_unIndexed _ Hok _ _ He). pose proof (ok_indexed _ Hok).
      destruct (ok e); [by apply map_Forall_insert_2|done].
    + apply map_Forall_delete, Hok.
  - unfold update_incr. by rewrite He.
Qed.

Lemma update_all_ok lastTs keys acc :
  graph_ok acc.2 →
  ∃ acc', go_foldl (update_all db visit lastTs) acc keys = Ret acc' ∧ graph_ok acc'.2.
Proof.
  intros Hok. apply (go_foldl_returns (λ acc : Z * state, graph_ok acc.2)); [|done].
  clear. intros [ret st] key _ Hok. unfold update_all. cbn in Hok.
  destruct (st.(IndexedItemCache) !! key) as [e|] eqn:He; [|by eexists].
  destruct (ok_indexed _ Hok _ _ He) as (item & -> & _). cbn [deref IndexCacheItem.Item mbind go_bind].
  case_match.
  - eexists. split; [done|]. destruct Hok. split; cbn; try done. by apply map_Forall_delete.
  - pose proof (updateIndexFromOneItem_spec db (visit (IndexCacheItem.New (GraphItem.UUID item) (Some item))) (Some item) st) as Hspec.
    destruct (updateIndexFromOneItem _ _ _ _) as [r st2]. destruct Hspec as [_ Hran].
    assert (graph_ok st2) as Hok2.
    { destruct Hran as (Hs & Hc & _). apply (same_caches_graph_ok st); [done| |done]. rewrite Hc. apply Hok. }
    destruct r as [[]|]; eexists; (split; [done|]); [done|by apply graph_ok_incr].
Qed.
End update.

(** ** Deleting *)

Section delete.
Context (cfg : config).

Lemma RemoveItem_spec item st :
  graph_ok st →
  ∃ st' f, RemoveItem cfg item st = Ret st' ∧ graph_ok st' ∧
    RrdFileName cfg.(Storage) (GraphItem.Checksum item) item.(GraphItem.DsType) item.(GraphItem.Step) = Ret f ∧
    st'.(files) = st.(files) ∖ {[f]} ∧
    st'.(IndexedItemCache) = delete (GraphItem.Checksum item) st.(IndexedItemCache) ∧
    st'.(unIndexedItemCache) = delete (GraphItem.Checksum item) st.(unIndexedItemCache) ∧
    st'.(HistoryCache) = st.(HistoryCache) ∧
    (∀ k, cached st' k = if decide (k = item_key item) then [] else cached st k).
Proof.
  intros Hok. unfold RemoveItem. fold (item_key item).
  set (st1 := with_unIndexed _ _).
  assert (graph_ok st1) as Hok1.
  { destruct Hok. split; cbn; try done; by apply map_Forall_delete. }
  destruct (PopAll_view (item_key item) st1.(GraphItems) (ok_map _ Hok1)) as (M' & -> & Hu). cbn [mbind go_bind].
  destruct (Checksum_returns cfg.(Storage) item item.(GraphItem.Step) item.(GraphItem.DsType)) as [f ->]. cbn [mbind go_bind].
  eexists _, f. split; [done|].
  assert (graph_ok (with_GraphItems M' st1)) as Hok2.
  { eapply graph_ok_with_GraphItems; [done..|]. destruct (view _ _); by (split; constructor). }
  split; [by destruct Hok2|]. split_and!; try done.
  intros k. change (cached (with_GraphItems M' st1) k = if decide (k = item_key item) then [] else cached st1 k).
  rewrite (updated_cached _ _ _ _ _ Hu). case_decide; [|done]. by destruct (view _ _).
Qed.

Lemma Delete_ok params st :
  graph_ok st → Forall is_Some params → ∃ st', Delete cfg params st = Ret st' ∧ graph_ok st'.
Proof.
  intros Hok Hps. apply (go_foldl_returns graph_ok); [|done]. intros s p Hp Hs.
  rewrite Forall_forall in Hps. destruct (Hps _ Hp) as [p' ->]. unfold delete_param. cbn [deref mbind go_bind].
  destruct (SplitTagsString _) as [[]tags]; [by exists s|].
  edestruct (RemoveItem_spec (GraphItem.mk p'.(dEndpoint) p'.(dMetric) tags f64_zero 0 p'.(dDsType) p'.(dStep) 0 "" "")
    s Hs) as (st' & f & -> & Hok' & _). by exists st'.
Qed.
End delete.

(** ** Cleaning *)

(** A key whose digest is not in the index any more. *)
Definition invalid_key (st : state) (key : string) : bool :=
  bool_decide (length (split "_" key) = 3%nat) &&
  negb (ContainsKey (default "" (head (split "_" key))) st.(IndexedItemCache)).

(** Only items may have gone. *)
Record fewer_items (st st' : state) : Prop := FewerItems {
  fi_map : map_ok st'.(GraphItems);
  fi_size : st'.(GraphItems).(GraphItemMap.Size) = st.(GraphItems).(GraphItemMap.Size);
  fi_rest : st' = with_GraphItems st'.(GraphItems) st;
  fi_view : ∀ k, view st'.(GraphItems) k = view st.(GraphItems) k ∨
    invalid_key st k = true ∧ view st'.(GraphItems) k = None }.

Lemma fewer_items_refl st : map_ok st.(GraphItems) → fewer_items st st.
Proof. intros. split; auto. by destruct st. Qed.

Lemma invalid_key_rest st st' k :
  st'.(IndexedItemCache) = st.(IndexedItemCache) → invalid_key st' k = invalid_key st k.
Proof. intros E. unfold invalid_key. by rewrite E. Qed.

Lemma fewer_items_trans st1 st2 st3 : fewer_items st1 st2 → fewer_items st2 st3 → fewer_items st1 st3.
Proof.
  intros [H1 H2 H3 H4] [H1' H2' H3' H4']. split; [done|congruence|by rewrite H3', H3|].
  intros k. specialize (H4 k). specialize (H4' k).
  rewrite (invalid_key_rest st1 st2) in H4' by (by rewrite H3).
  destruct H4 as [H4|[H4 H4v]], H4' as [H4'|[H4' H4v']]; rewrite <- ?H4; auto. right. by rewrite H4'.
Qed.

Lemma delete_invalid_item_spec cnt st key :
  map_ok st.(GraphItems) →
  ∃ cnt' st', delete_invalid_item (cnt, st) key = Ret (cnt', st') ∧ fewer_items st st' ∧
    (invalid_key st key = true → view st'.(GraphItems) key = None) ∧
    cnt' = cnt + (if invalid_key st key then 1 else 0).
Proof.
  intros Hok. unfold delete_invalid_item, invalid_key.
  destruct (decide (length (split "_" key) = 3%nat)) as [Hl|Hl].
  2: { rewrite bool_decide_eq_false_2 by done. exists cnt, st. split_and!; [done|by apply fewer_items_refl|done|cbn; lia]. }
  rewrite bool_decide_eq_true_2 by done.
  destruct (split "_" key) as [|s0 ss] eqn:Es; [done|].
  change (at_index (s0 :: ss) 0) with (Ret s0). cbn [mbind go_bind head default andb from_option id].
  destruct (ContainsKey s0 st.(IndexedItemCache)) eqn:Ec; cbn [negb].
  { exists cnt, st. split_and!; [done|by apply fewer_items_refl|done|lia]. }
  destruct (Remove_view key st.(GraphItems) Hok) as (M' & -> & Hm & Hs & Hv).
  eexists _, _. split; [done|]. split; [|split; [intros _; cbn; rewrite Hv; by rewrite decide_True|done]].
  split; [done..|]. intros k. cbn. rewrite Hv. case_decide; [|by left]. right. split; [|done].
  subst. unfold invalid_key. rewrite Es. cbn. rewrite Ec. by rewrite bool_decide_eq_true_2.
Qed.

(** The keys of one shard. *)
Lemma delete_invalid_items_shard keys acc :
  map_ok acc.2.(GraphItems) →
  ∃ acc', go_foldl delete_invalid_item acc keys = Ret acc' ∧ fewer_items acc.2 acc'.2 ∧
    (∀ k, k ∈ keys → invalid_key acc.2 k = true → view acc'.2.(GraphItems) k = None).
Proof.
  revert acc. induction keys as [|key keys IH]; intros [cnt st] Hok.
  { exists (cnt, st). split_and!; [done|by apply fewer_items_refl|]. by intros k ?%elem_of_nil. }
  destruct (delete_invalid_item_spec cnt st key Hok) as (cnt1 & st1 & E & Hf & Hkey & _).
  cbn [go_foldl]. rewrite E. cbn [mbind go_bind].
  destruct (IH (cnt1, st1) (fi_map _ _ Hf)) as (acc' & E' & Hf' & Hkeys). exists acc'. split; [done|].
  cbn [snd] in *. split; [by eapply fewer_items_trans|].
  intros k [->|Hk]%elem_of_cons Hi.
  - destruct (fi_view _ _ Hf' key) as [->|[_ ?]]; [by apply Hkey|done].
  - apply Hkeys; [done|]. rewrite <- Hi. apply invalid_key_rest. by rewrite (fi_rest _ _ Hf).
Qed.

Lemma KeysByIndex_spec M idx :
  map_ok M → 0 <= idx < M.(GraphItemMap.Size) →
  ∃ keys, GraphItemMap.KeysByIndex idx M = Ret keys ∧
    (∀ k, index_of k M = Z.to_nat idx → is_Some (view M k) → k ∈ keys).
Proof.
  intros Hok Hi. unfold GraphItemMap.KeysByIndex.
  destruct (returns_at_index M.(GraphItemMap.A) idx) as [m Hm].
  { rewrite (mo_length _ Hok). lia. }
  rewrite Hm. cbn. eexists. split; [done|]. intros k Hk [sl Hv].
  apply at_index_Ret in Hm as [_ Hm]. unfold view in Hv. rewrite Hk, Hm in Hv. cbn in Hv.
  apply list_elem_of_fmap. exists (k, sl). split; [done|]. by apply elem_of_map_to_list.
Qed.

Lemma DeleteInvalidItems_spec st :
  map_ok st.(GraphItems) →
  ∃ cnt st', DeleteInvalidItems st = Ret (cnt, st') ∧ fewer_items st st' ∧
    (∀ k, invalid_key st k = true → view st'.(GraphItems) k = None).
Proof.
  intros Hok. unfold DeleteInvalidItems. pose proof (mo_size _ Hok) as Hsize.
  set (body := λ acc idx, keys ← _; _).
  assert (∀ n : nat, Z.of_nat n <= st.(GraphItems).(GraphItemMap.Size) →
    ∃ acc', go_foldl body (0, st) (seqZ 0 (Z.of_nat n)) = Ret acc' ∧ fewer_items st acc'.2 ∧
      (∀ k, (index_of k st.(GraphItems) < n)%nat → invalid_key st k = true → view acc'.2.(GraphItems) k = None)) as Hloop.
  { induction n as [|n IH]; intros Hn.
    { exists (0, st). split_and!; [done|by apply fewer_items_refl|]. intros; lia. }
    destruct IH as (acc1 & E1 & Hf1 & Hv1); [lia|].
    replace (Z.of_nat (S n)) with (Z.of_nat n + 1) by lia. rewrite seqZ_app by lia. rewrite go_foldl_app, E1.
    cbn [mbind go_bind]. rewrite (seqZ_S _ 0). change (seqZ (0 + Z.of_nat n + 1) (Z.of_nat 0)) with (@nil Z).
    cbn [go_foldl]. unfold body at 1.
    destruct (KeysByIndex_spec acc1.2.(GraphItems) (0 + Z.of_nat n) (fi_map _ _ Hf1)) as (keys & -> & Hkeys).
    { rewrite (fi_size _ _ Hf1). lia. }
    cbn [mbind go_bind].
    destruct (delete_invalid_items_shard keys acc1 (fi_map _ _ Hf1)) as (acc2 & -> & Hf2 & Hv2). cbn.
    exists acc2. split; [done|]. split; [by eapply fewer_items_trans|]. intros k Hk Hi.
    destruct (decide (view acc1.2.(GraphItems) k = None)) as [Hnone|Hsome].
    { destruct (fi_view _ _ Hf2 k) as [->|[_ ?]]; done. }
    apply Hv2.
    - apply Hkeys; [|by apply not_eq_None_Some]. unfold index_of in *. rewrite (fi_size _ _ Hf1).
      destruct (decide (Z.to_nat (hashKey k mod GraphItemMap.Size (GraphItems st)) < n)%nat); [|lia].
      destruct Hsome. by apply Hv1.
    - rewrite <- Hi. apply invalid_key_rest. by rewrite (fi_rest _ _ Hf1). }
  destruct (Hloop (Z.to_nat st.(GraphItems).(GraphItemMap.Size))) as ([cnt st'] & E & Hf & Hv); [lia|].
  rewrite Z2Nat.id in E by lia. exists cnt, st'. split_and!; [done..|].
  intros k Hk. apply Hv; [|done]. unfold index_of.
  pose proof (Z.mod_pos_bound (hashKey k) st.(GraphItems).(GraphItemMap.Size)). lia.
Qed.

Lemma fewer_items_ok st st' : fewer_items st st' → graph_ok st → graph_ok st'.
Proof.
  intros [H1 H2 H3 H4] []. rewrite H3. split; cbn; try done.
  intros k. unfold cached. cbn. destruct (H4 k) as [->|[_ ->]]; [apply ok_lists0|by split; constructor].
Qed.

Lemma DeleteInvalidHistory_spec keys cnt st :
  (foldl (λ acc key,
      if negb (ContainsKey key (acc : Z * state).2.(IndexedItemCache))
      then (acc.1 + 1, with_HistoryCache (delete key acc.2.(HistoryCache)) acc.2) else acc) (cnt, st) keys).2 =
  with_HistoryCache (filter (λ kq, ¬ (kq.1 ∈ keys ∧ ContainsKey kq.1 st.(IndexedItemCache) = false)) st.(HistoryCache)) st.
Proof.
  revert cnt st. induction keys as [|key keys IH]; intros cnt st; cbn [foldl].
  { rewrite map_filter_id; [by destruct st|]. intros k q _. cbn. intros [Hk _]. by apply elem_of_nil in Hk. }
  cbn [snd fst]. destruct (ContainsKey key st.(IndexedItemCache)) eqn:E; cbn [negb]; rewrite IH.
  - f_equal. apply map_filter_ext. intros k q _. cbn. rewrite elem_of_cons.
    split; intros Hn [Hk Hc]; apply Hn; (split; [|done]); [|by right]. destruct Hk as [->|]; [congruence|done].
  - unfold with_HistoryCache. cbn. f_equal. apply map_eq. intros k. apply option_eq. intros q.
    rewrite !map_lookup_filter_Some, lookup_delete_Some. cbn. rewrite elem_of_cons.
    split.
    + intros ([Hk Hq] & Hn). split; [done|]. intros [[->|Hk'] Hc]; [done|]. by apply Hn.
    + intros (Hq & Hn). split; [split; [|done]|].
      * intros <-. apply Hn. split; [by left|done].
      * intros [Hk' Hc]. apply Hn. split; [by right|done].
Qed.

Lemma map_Forall_filtered {V} (P : string → V → Prop) (Q : string * V → Prop) `{!∀ x, Decision (Q x)} (m : gmap string V) :
  map_Forall P m → map_Forall P (filter Q m).
Proof. intros HP k v [Hk _]%map_lookup_filter_Some. by apply HP. Qed.

(** ** The system *)

(** Every operation of graph on this state, whatever the database answers. *)
Inductive step (cfg : config) (st : state) : go state → Prop :=
| step_receive items : step cfg st (handleItems cfg items st)
| step_delete params : Forall is_Some params → step cfg st (Delete cfg params st)
| step_last db endpoint counter : step cfg st (snd <$> Last db endpoint counter st)
| step_last_raw endpoint counter : step cfg st (Ret (LastRaw endpoint counter st).2)
| step_info db endpoint counter : step cfg st (snd <$> Info cfg db endpoint counter st)
| step_index_one connected db visit endpoint metric tags dstype stp :
    step cfg st (Ret (UpdateIndexOne connected db visit endpoint metric tags dstype stp st).2)
| step_index_incr connected db visit keys : step cfg st (Ret (updateIndexIncr connected db visit keys st).2)
| step_index_all connected db visit updateStepInSec now keys :
    step cfg st (snd <$> updateIndexAll connected db visit updateStepInSec now keys st)
| step_clean_items : step cfg st (snd <$> DeleteInvalidItems st)
| step_clean_history keys : step cfg st (Ret (DeleteInvalidHistory keys st).2)
| step_expire endpoints counters : step cfg st (Ret (expire endpoints counters st)).

Definition initial (fs : gset string) : state :=
  State GraphItemMap.init ∅ ∅ ∅ ∅ ∅ fs (λ _, 0) [].

Inductive reachable (cfg : config) : state → Prop :=
| reachable_init fs : reachable cfg (initial fs)
| reachable_step st st' : reachable cfg st → step cfg st (Ret st') → reachable cfg st'.

Lemma initial_cached fs key : cached (initial fs) key = [].
Proof.
  destruct (New_ok (CACHE_TIME / FLUSH_DISK_STEP)) as [_ Hv]; [by split|].
  unfold cached. change (view (GraphItems (initial fs)) key) with (view (GraphItemMap.New (CACHE_TIME / FLUSH_DISK_STEP)) key).
  by rewrite Hv.
Qed.

Lemma graph_initial_ok fs : graph_ok (initial fs).
Proof.
  split; try apply map_Forall_empty.
  - by apply (New_ok (CACHE_TIME / FLUSH_DISK_STEP)).
  - intros key. rewrite initial_cached. by split; constructor.
Qed.

Lemma initial_represents fs : represents (initial fs) (Abs (λ _, []) (λ _, [])).
Proof. split; intros k; [apply initial_cached|done]. Qed.

Lemma GetLast_spec db endpoint counter st :
  graph_ok st → ∃ r st', GetLast db endpoint counter st = Ret (r, st') ∧ graph_ok st' ∧ same_caches st st'.
Proof.
  intros Hok. unfold GetLast.
  destruct (GetTypeAndStep_spec db endpoint counter st Hok) as (r & st' & -> & Hok' & Hs). cbn [mbind go_bind]. by eexists _, _.
Qed.

Lemma graph_step_ok cfg st m : graph_ok st → step cfg st m → ∃ st', m = Ret st' ∧ graph_ok st'.
Proof.
  intros Hok. destruct 1.
  - destruct (handleItems_spec cfg items st (Abs (cached st) (λ k, GetAllItems k st.(HistoryCache))) Hok) as (st' & -> & Hok' & _); [done|by eexists].
  - by apply Delete_ok.
  - unfold Last. destruct (GetLast_spec db endpoint counter (incr GraphLastCnt 1 st)) as (r & st' & -> & Hok' & _);
      [by apply graph_ok_incr|by eexists].
  - eexists. split; [done|]. by apply graph_ok_incr.
  - unfold Info. destruct (GetTypeAndStep_spec db endpoint counter (incr GraphInfoCnt 1 st)) as (r & st' & -> & Hok' & _);
      [by apply graph_ok_incr|]. cbn [mbind go_bind]. destruct r as [[dsType stp]|]; [|by eexists].
    unfold RrdFileName. destruct (Md5_slice (endpoint +:+ "/" +:+ counter)) as [d ->]. by eexists.
  - eexists. split; [done|]. unfold UpdateIndexOne. destruct (_ !! _) as [e|]; [|done]. case_decide; [|done].
    destruct connected; [|done].
    pose proof (updateIndexFromOneItem_spec db (visit e) e.(IndexCacheItem.Item) st) as Hspec.
    destruct (updateIndexFromOneItem _ _ _ _) as [r st']. destruct Hspec as [_ (Hs & Hc & _)].
    cbn [snd]. apply (same_caches_graph_ok st); [done| |done]. rewrite Hc. apply Hok.
  - eexists. split; [done|]. unfold updateIndexIncr. case_decide; [done|]. destruct connected; [|done]. by apply update_incr_ok.
  - unfold updateIndexAll. case_decide; [by eexists|]. destruct connected; [|by eexists]. cbn [negb].
    destruct (update_all_ok db visit (now -₆₄ updateStepInSec) keys (0, st) Hok) as (acc & -> & Hok'). by eexists.
  - destruct (DeleteInvalidItems_spec st (ok_map _ Hok)) as (cnt & st' & -> & Hf & _). eexists. split; [done|].
    by eapply fewer_items_ok.
  - eexists. split; [done|]. unfold DeleteInvalidHistory. rewrite DeleteInvalidHistory_spec. destruct Hok.
    split; cbn; try done. by apply map_Forall_filtered.
  - eexists. split; [done|]. destruct Hok. split; cbn; try done. by apply map_Forall_filtered.
Qed.

Lemma graph_reachable_ok cfg st : reachable cfg st → graph_ok st.
Proof.
  induction 1 as [fs|st st' _ IH Hstep]; [apply graph_initial_ok|].
  destruct (graph_step_ok cfg st _ IH Hstep) as (st1 & E & Hok). by simplify_eq.
Qed.

(** ** Properties *)

Lemma invalid_item_key st item :
  lacks "_" item.(GraphItem.DsType) →
  invalid_key st (item_key item) = negb (ContainsKey (GraphItem.Checksum item) st.(IndexedItemCache)).
Proof.
  intros Hd. unfold invalid_key, item_key, FormRrdCacheKey.
  change (GraphItem.Checksum item +:+ "_" +:+ item.(GraphItem.DsType) +:+ "_" +:+ Itoa item.(GraphItem.Step)) with
    (GraphItem.Checksum item +:+ String "_" (item.(GraphItem.DsType) +:+ String "_" (Itoa item.(GraphItem.Step)))).
  rewrite split_app by (by apply Md5_lacks). rewrite split_app by done.
  rewrite split_lacks by (by apply Itoa_lacks). done.
Qed.

Lemma Md5_Checksum item :
  Md5 (item.(GraphItem.Endpoint) +:+ "/" +:+ Counter item.(GraphItem.Metric) item.(GraphItem.Tags)) = GraphItem.Checksum item.
Proof. unfold GraphItem.Checksum, Checksum, PK, Counter. by case_decide. Qed.

Lemma GetLastItem_head key (H : history) : GetLastItem key H = default GraphItem.zero (head (GetAllItems key H)).
Proof. unfold GetLastItem, GetAllItems. by destruct (H !! key). Qed.

(** An accepted item of an indexed counter becomes its entry in the index. *)
Lemma handle_item_indexed cfg item st st' e :
  graph_ok st → valid cfg item = true → newer (cached st (item_key item)) item = true →
  st.(IndexedItemCache) !! GraphItem.Checksum item = Some (IndexCacheItem.New (GraphItem.UUID item) e) →
  handleItems cfg [Some item] st = Ret st' →
  st'.(IndexedItemCache) !! GraphItem.Checksum item = Some (IndexCacheItem.New (GraphItem.UUID item) (Some item)).
Proof.
  intros Hok [Hv1 Hv2]%andb_true_iff Hn He. unfold handleItems. cbn [go_foldl]. unfold handle_item.
  rewrite Hv1, Hv2. cbn [negb]. fold (item_key item).
  rewrite First_cached by apply Hok. cbn [mbind go_bind]. rewrite newer_head.
  change (cached (incr GraphRpcRecvCnt 1 st) (item_key item)) with (cached st (item_key item)). rewrite Hn. cbn [negb].
  destruct (GraphItemMap.PushFront _ _ _ _ _ _ _) as [M'|]; [|done]. cbn [mbind go_bind].
  unfold ReceiveItem. cbn [with_GraphItems incr IndexedItemCache]. rewrite He. cbn [IndexCacheItem.UUID].
  rewrite decide_True by done. cbn. intros [= <-]. cbn. apply lookup_insert_eq.
Qed.

(** C28. [handleItems] refines the abstract cache: it never panics, keeps the
invariant of the state, and for every key and every metric the items it leaves
are those of the plain machine, where a valid item that is newer than the list of its
key enters that list, and the last three of its metric if newer than those. *)
Theorem handleItems_refines cfg items st a :
  graph_ok st → represents st a →
  ∃ st', handleItems cfg items st = Ret st' ∧ graph_ok st' ∧ represents st' (foldl (abs_receive cfg) a items).
Proof. apply handleItems_spec. Qed.

Definition ex_cfg : config := Config "/rrd" false (λ _, true).

Example handleItems_refines_witness :
  ∃ st', handleItems ex_cfg [Some (ex_item 4 60); Some (ex_item 5 120); None; Some (ex_item 6 90)] (initial ∅) = Ret st' ∧
    cached st' (item_key (ex_item 0 0)) = [ex_item 5 120; ex_item 4 60].
Proof.
  destruct (handleItems_refines ex_cfg [Some (ex_item 4 60); Some (ex_item 5 120); None; Some (ex_item 6 90)]
    (initial ∅) (Abs (cached (initial ∅)) (λ k, GetAllItems k ∅))) as (st' & E & _ & Hc & _).
  - apply graph_initial_ok.
  - split; reflexivity.
  - exists st'. split; [exact E|]. rewrite Hc. vm_compute. reflexivity.
Defined.



(** What an accepted item leaves: it is the last one of its counter, before those
that were there; and its entry in the index, if the counter has one. *)
Lemma receive_item cfg st item :
  graph_ok st → valid cfg item = true →
  newer (cached st (item_key item)) item = true →
  newer (GetAllItems (GraphItem.Checksum item) st.(HistoryCache)) item = true →
  ∃ st', handleItems cfg [Some item] st = Ret st' ∧
    GetAllItems (GraphItem.Checksum item) st'.(HistoryCache) =
      take 3 (item :: GetAllItems (GraphItem.Checksum item) st.(HistoryCache)) ∧
    ∀ e, st.(IndexedItemCache) !! GraphItem.Checksum item = Some (IndexCacheItem.New (GraphItem.UUID item) e) →
      st'.(IndexedItemCache) !! GraphItem.Checksum item = Some (IndexCacheItem.New (GraphItem.UUID item) (Some item)).
Proof.
  intros Hok Hv Hn Hh.
  destruct (handleItems_spec cfg [Some item] st (Abs (cached st) (λ k, GetAllItems k st.(HistoryCache))) Hok)
    as (st' & E & Hok' & Hrep); [done|].
  exists st'. split; [done|]. cbn [foldl abs_receive a_cache a_hist] in Hrep. rewrite Hv, Hn, Hh in Hrep. cbn [andb] in Hrep.
  split; [|intros e He; by apply (handle_item_indexed cfg item st st' e)].
  rewrite (rep_hist _ _ Hrep). cbn [a_hist]. apply fn_lookup_insert.
Qed.

(** The latest value of a gauge whose last item and entry are known. *)
Lemma last_of_gauge db st item uuid :
  head (GetAllItems (GraphItem.Checksum item) st.(HistoryCache)) = Some item →
  st.(IndexedItemCache) !! GraphItem.Checksum item = Some (IndexCacheItem.New uuid (Some item)) →
  item.(GraphItem.DsType) = GAUGE →
  GetLast db item.(GraphItem.Endpoint) (Counter item.(GraphItem.Metric) item.(GraphItem.Tags)) st =
    Ret (RRDData.New item.(GraphItem.Timestamp) item.(GraphItem.Value), st).
Proof.
  intros Hh Hi Hg. unfold GetLast, GetTypeAndStep. rewrite Md5_Checksum, Hi.
  cbn [mbind option_bind go_bind IndexCacheItem.Item]. rewrite decide_True by done.
  unfold GetLastRaw. by rewrite Md5_Checksum, GetLastItem_head, Hh.
Qed.

(** What is received can be read back: an item newer than the cache and the
history of its metric is the raw last value of its counter; for an indexed gauge it is the
last value, and for an indexed counter the last value is the rate since the
previous item, never negative, when that is one step older. *)
Theorem receive_then_last cfg db st item :
  graph_ok st → valid cfg item = true →
  newer (cached st (item_key item)) item = true →
  newer (GetAllItems (GraphItem.Checksum item) st.(HistoryCache)) item = true →
  let endpoint := item.(GraphItem.Endpoint) in
  let counter := Counter item.(GraphItem.Metric) item.(GraphItem.Tags) in
  let ts := item.(GraphItem.Timestamp) in
  ∃ st', handleItems cfg [Some item] st = Ret st' ∧
    GetLastRaw endpoint counter st' = RRDData.New ts item.(GraphItem.Value) ∧
    ∀ e, st.(IndexedItemCache) !! GraphItem.Checksum item = Some (IndexCacheItem.New (GraphItem.UUID item) e) →
      (item.(GraphItem.DsType) = GAUGE → GetLast db endpoint counter st' = Ret (RRDData.New ts item.(GraphItem.Value), st')) ∧
      (item.(GraphItem.DsType) ∈ [COUNTER; DERIVE] → ∀ prev,
        head (GetAllItems (GraphItem.Checksum item) st.(HistoryCache)) = Some prev →
        ts = prev.(GraphItem.Timestamp) + item.(GraphItem.Step) → int64 item.(GraphItem.Step) → 0 < item.(GraphItem.Step) →
        let delta := f64_sub item.(GraphItem.Value) prev.(GraphItem.Value) in
        GetLast db endpoint counter st' =
          Ret (RRDData.New ts (f64_div (if f64_lt delta f64_zero then f64_zero else delta)
            (f64_of_Z item.(GraphItem.Step))), st')).
Proof.
  intros Hok Hv Hn Hh endpoint counter ts.
  destruct (receive_item cfg st item Hok Hv Hn Hh) as (st' & E & Hhist & Hix). exists st'. split; [done|].
  assert (GetLastRaw endpoint counter st' = RRDData.New ts item.(GraphItem.Value)) as Hraw.
  { unfold GetLastRaw, endpoint, counter. rewrite Md5_Checksum. rewrite GetLastItem_head, Hhist. done. }
  split; [done|]. intros e He.
  assert (GetTypeAndStep db endpoint counter st' = Ret (Some (item.(GraphItem.DsType), item.(GraphItem.Step)), st')) as Hts.
  { unfold GetTypeAndStep, endpoint, counter. rewrite Md5_Checksum. by rewrite (Hix e He). }
  unfold GetLast. rewrite Hts. cbn [mbind go_bind]. split.
  - intros ->. rewrite decide_True by done. by rewrite Hraw.
  - intros Hd prev Hp Hstep H64 Hpos.
    assert (item.(GraphItem.DsType) = COUNTER ∨ item.(GraphItem.DsType) = DERIVE) as Hd'
      by (rewrite !elem_of_cons in Hd; destruct Hd as [?|[?|[]%elem_of_nil]]; auto).
    rewrite decide_False by (intros Eg; rewrite Eg in Hd'; by destruct Hd'). rewrite decide_True by done.
    unfold endpoint, counter. rewrite Md5_Checksum, Hhist.
    destruct (GetAllItems _ st.(HistoryCache)) as [|p l]; [done|]. cbn in Hp. simplify_eq.
    cbn [take last_rate]. rewrite Hstep.
    replace (prev.(GraphItem.Timestamp) + item.(GraphItem.Step) - prev.(GraphItem.Timestamp)) with item.(GraphItem.Step) by lia.
    rewrite wrap64_id by done. rewrite bool_decide_eq_false_2 by (by intros []).
    destruct (Z.leb_spec item.(GraphItem.Step) 0); [lia|]. done.
Qed.

Example receive_then_last_witness :
  ∃ st st', handleItems ex_cfg [Some (ex_item 4 60)] (initial {["/rrd/ff/ff0f2372ae09cf2428d3b0e6a75aecd5_GAUGE_60.rrd"]}) = Ret st ∧
    handleItems ex_cfg [Some (ex_item 7 120)] st = Ret st' ∧
    GetLastRaw "host" "cpu" st' = RRDData.New 120 (f64_of_Z 7).
Proof.
  set (a := Abs (λ _, []) (λ _, [])).
  destruct (handleItems_spec ex_cfg [Some (ex_item 4 60)] (initial {["/rrd/ff/ff0f2372ae09cf2428d3b0e6a75aecd5_GAUGE_60.rrd"]}) a)
    as (st & E & Hok & Hc & Hh); [apply graph_initial_ok|apply initial_represents|].
  destruct (receive_then_last ex_cfg (Database (λ _, Ok None) (λ _ _, Ok None) (λ _, Ok tt)) st (ex_item 7 120))
    as (st' & E' & Hraw & _).
  - exact Hok.
  - vm_compute. reflexivity.
  - rewrite Hc. vm_compute. reflexivity.
  - rewrite Hh. vm_compute. reflexivity.
  - exists st, st'. split; [exact E|split; [exact E'|exact Hraw]].
Defined.

(** Indexing an item executes the statements for its endpoint, its tags and
its counter in this order up to the first that fails, and succeeds exactly
when all of them do and the endpoint has a row. *)
Theorem updateIndexFromOneItem_correct db kvs item st :
  let '(r, st') := updateIndexFromOneItem db kvs (Some item) st in
  let '(qs, found) := statements db kvs item in
  is_ok r = forallb (succeeds db) qs && found ∧
  st'.(sql_log) = reverse (executed db qs) ++ st.(sql_log) ∧
  (is_ok r = true → executed db qs = qs) ∧
  same_caches st st'.
Proof.
  pose proof (updateIndexFromOneItem_spec db kvs (Some item) st) as H.
  destruct (updateIndexFromOneItem _ _ _ _) as [r st']. destruct H as [Hr (Hs & _ & Hlog)].
  unfold indexable in Hr. destruct (statements db kvs item) as [qs found]. split_and!; [done..| |done].
  rewrite Hr. intros [Hall _]%andb_true_iff. clear -Hall. induction qs as [|q qs IH]; [done|]. cbn in *.
  apply andb_true_iff in Hall as [-> Hall]. by rewrite IH.
Qed.

(** The incremental update empties the queue of unindexed metrics: each
enters the index exactly when the database could be updated for it, everything
else of the index stays, and so do the items. *)
Theorem updateIndexIncr_correct db visit keys st :
  keys ≡ₚ (map_to_list st.(unIndexedItemCache)).*1 →
  let '(cnt, st') := updateIndexIncr true db visit keys st in
  cnt = Z.of_nat (size st.(unIndexedItemCache)) ∧
  st'.(unIndexedItemCache) = ∅ ∧ same_data st st' ∧
  ∀ k, st'.(IndexedItemCache) !! k =
    match st.(unIndexedItemCache) !! k with
    | Some e => if entry_indexable db visit e then Some e else st.(IndexedItemCache) !! k
    | None => st.(IndexedItemCache) !! k
    end.
Proof.
  intros Hkeys. unfold updateIndexIncr. cbn [negb]. case_decide as He.
  { rewrite He. split_and!; [done..|]. intros k. by rewrite lookup_empty. }
  assert (∀ k, k ∈ keys ↔ is_Some (st.(unIndexedItemCache) !! k)) as Hin.
  { intros k. rewrite Hkeys, list_elem_of_fmap. split.
    - intros ([k' e] & -> & Hk%elem_of_map_to_list). by exists e.
    - intros [e Hk]. exists (k, e). by rewrite elem_of_map_to_list. }
  pose proof (update_incr_fold db visit keys 0 st) as H.
  destruct (foldl _ _ keys) as [cnt st']. destruct H as (-> & Hs & Hu & Hi).
  { rewrite Hkeys. apply NoDup_fst_map_to_list. }
  { apply Forall_forall. intros k. apply Hin. }
  split_and!; [|apply map_eq; intros k|done|intros k].
  - rewrite (Permutation_length Hkeys), length_fmap, length_map_to_list. lia.
  - rewrite Hu, lookup_empty. case_decide as Hk; [done|]. rewrite Hin in Hk. by apply eq_None_not_Some.
  - rewrite Hi. case_decide as Hk; [done|]. rewrite Hin in Hk. by rewrite (proj2 (eq_None_not_Some _) Hk).
Qed.

Definition ex_db : database :=
  Database (λ _, Ok (Some 7)) (λ _ _, Ok None)
    (λ q, match q with InsertEndpointCounter _ "cpu" _ _ _ => Err "down" | _ => Ok tt end).
Definition ex_entry (metric : string) : IndexCacheItem.t :=
  let item := GraphItem.mk "host" metric ∅ f64_zero 60 "GAUGE" 60 120 "U" "U" in
  IndexCacheItem.New (GraphItem.UUID item) (Some item).

Example updateIndexIncr_correct_witness :
  let st := with_unIndexed {["a" := ex_entry "cpu"; "b" := ex_entry "mem"]} (initial ∅) in
  let st' := (updateIndexIncr true ex_db (λ _, []) ["b"; "a"] st).2 in
  st'.(unIndexedItemCache) = ∅ ∧ st'.(IndexedItemCache) !! "a" = None ∧ st'.(IndexedItemCache) !! "b" = Some (ex_entry "mem").
Proof.
  intros st st'. pose proof (updateIndexIncr_correct ex_db (λ _, []) ["b"; "a"] st) as H.
  unfold st'. destruct (updateIndexIncr _ _ _ _ _) as [cnt st2]. destruct H as (_ & Hu & _ & Hi).
  - change (["b"; "a"] ≡ₚ (map_to_list ({["a" := ex_entry "cpu"; "b" := ex_entry "mem"]} : IndexCache)).*1).
    rewrite map_to_list_insert by done. rewrite map_to_list_singleton. apply perm_swap.
  - cbn [snd]. rewrite !Hi. split; [exact Hu|]. vm_compute. split; reflexivity.
Defined.

(** Deleting a counter forgets it: given its tags in their printed form,
[Delete] leaves no cached item, no index entry and no file of it, and touches
nothing of the other metrics. *)
Theorem Delete_forgets cfg st item :
  graph_ok st → tags_wf item.(GraphItem.Tags) →
  let param := DeleteParam item.(GraphItem.Endpoint) item.(GraphItem.Metric) item.(GraphItem.Step)
    item.(GraphItem.DsType) (SortedTags item.(GraphItem.Tags)) in
  let md5 := GraphItem.Checksum item in
  ∃ st', Delete cfg [Some param] st = Ret st' ∧ graph_ok st' ∧
    (∀ k, cached st' k = if decide (k = item_key item) then [] else cached st k) ∧
    st'.(IndexedItemCache) = delete md5 st.(IndexedItemCache) ∧
    st'.(unIndexedItemCache) = delete md5 st.(unIndexedItemCache) ∧
    ∃ f, RrdFileName cfg.(Storage) md5 item.(GraphItem.DsType) item.(GraphItem.Step) = Ret f ∧
      st'.(files) = st.(files) ∖ {[f]}.
Proof.
  intros Hok Htags param md5. unfold Delete. cbn [go_foldl]. unfold delete_param. cbn [deref mbind go_bind].
  cbn [dTags param]. rewrite SplitTagsString_SortedTags by done.
  set (item' := GraphItem.mk _ _ _ _ _ _ _ _ _ _).
  destruct (RemoveItem_spec cfg item' st Hok) as (st' & f & -> & Hok' & Hf & Hfiles & Hi & Hu & _ & Hc).
  exists st'. split_and!; try done. exists f. by split.
Qed.

Example Delete_forgets_witness :
  ∃ st, Delete ex_cfg [Some (DeleteParam "host" "cpu" 60 "GAUGE" "")] (initial {["/rrd/x"]}) = Ret st ∧ graph_ok st.
Proof.
  destruct (Delete_forgets ex_cfg (initial {["/rrd/x"]}) (ex_item 1 60)) as (st & E & Hok & _).
  - apply graph_initial_ok.
  - apply map_Forall_empty.
  - exists st. split; [exact E|exact Hok].
Defined.

(** Cleaning removes exactly what left the index: the cached items and the
history of a metric stay if its digest is indexed and are dropped if not. *)
Theorem clean_correct st keys :
  graph_ok st → keys ≡ₚ (map_to_list st.(HistoryCache)).*1 →
  ∃ cnt st1, DeleteInvalidItems st = Ret (cnt, st1) ∧
    let st2 := (DeleteInvalidHistory keys st1).2 in
    graph_ok st2 ∧ st2.(IndexedItemCache) = st.(IndexedItemCache) ∧ st2.(unIndexedItemCache) = st.(unIndexedItemCache) ∧
    (∀ md5, GetAllItems md5 st2.(HistoryCache) =
      if ContainsKey md5 st.(IndexedItemCache) then GetAllItems md5 st.(HistoryCache) else []) ∧
    (∀ item, lacks "_" item.(GraphItem.DsType) → cached st2 (item_key item) =
      if ContainsKey (GraphItem.Checksum item) st.(IndexedItemCache) then cached st (item_key item) else []).
Proof.
  intros Hok Hkeys. destruct (DeleteInvalidItems_spec st (ok_map _ Hok)) as (cnt & st1 & -> & Hf & Hgone).
  exists cnt, st1. split; [done|]. intros st2. pose proof (fewer_items_ok _ _ Hf Hok) as Hok1.
  destruct (graph_step_ok ex_cfg st1 _ Hok1 (step_clean_history _ _ keys)) as (st2' & E & Hok2).
  fold st2 in E. injection E as <-. split; [done|].
  assert (st2 = with_HistoryCache (filter (λ kq, ¬ (kq.1 ∈ keys ∧ ContainsKey kq.1 st1.(IndexedItemCache) = false))
    st1.(HistoryCache)) st1) as ->.
  { unfold st2, DeleteInvalidHistory. apply DeleteInvalidHistory_spec. }
  rewrite (fi_rest _ _ Hf). cbn [with_HistoryCache with_GraphItems HistoryCache IndexedItemCache unIndexedItemCache].
  split_and!; [done..| |].
  - intros md5. unfold GetAllItems. destruct (filter _ _ !! md5) as [Q|] eqn:EQ.
    + apply map_lookup_filter_Some in EQ as [HQ Hn]. rewrite HQ. cbn in Hn.
      destruct (ContainsKey md5 _); [done|]. destruct Hn. split; [|done].
      rewrite Hkeys. apply list_elem_of_fmap. exists (md5, Q). by rewrite elem_of_map_to_list.
    + destruct (st.(HistoryCache) !! md5) as [Q|] eqn:HQ; [|by destruct (ContainsKey _ _)].
      destruct (ContainsKey md5 st.(IndexedItemCache)) eqn:Ec; [|done].
      apply map_lookup_filter_None in EQ as [EQ|EQ]; [congruence|]. destruct (EQ _ HQ). cbn. intros [_ ?]. congruence.
  - intros item Hd. unfold cached. cbn [with_HistoryCache with_GraphItems GraphItems].
    pose proof (invalid_item_key st item Hd) as Hi. destruct (ContainsKey _ _) eqn:Ec; cbn [negb] in Hi.
    + destruct (fi_view _ _ Hf (item_key item)) as [->|[? _]]; [done|congruence].
    + by rewrite Hgone.
Qed.

Example clean_correct_witness :
  ∃ cnt st1, DeleteInvalidItems (initial ∅) = Ret (cnt, st1) ∧ graph_ok (DeleteInvalidHistory [] st1).2.
Proof.
  destruct (clean_correct (initial ∅) []) as (cnt & st1 & E & Hok & _).
  - apply graph_initial_ok.
  - reflexivity.
  - exists cnt, st1. split; [exact E|exact Hok].
Defined.
