(* ===== verification/GraphQuery.v ===== *)
(** * Graph: queries

[Query] of modules/graph/api/graph.go and [fetch] of modules/graph/rrdtool/rrdtool.go:
the points of a counter on a grid of timestamps, merged from the file on disk
(or the node that holds it during a migration) and from the cached items that
are not on disk yet.

[rrdlite.Fetch] and the other node are services: what they answer is an argument.
The loops of [Query] count a timestamp up to a limit by the step of the counter: they take fuel, and
[None] is running out of it. *)

From S2P Require Import Prelude GoFloat GoString Hash Tags Model Containers GraphStore GraphApi GraphSafety.
From stdpp Require Import options.

(** ** Model *)

(** The points of the first archive of a file (rrdtool.go). *)
Definition RRA1PointCnt : Z := 720.

Record GraphQueryParam : Type := QueryParam {
  pStart : Z; pEnd : Z; ConsolFun : string; pEndpoint : string; pCounter : string; pStep : Z }.
Record GraphQueryResponse : Type := QueryResponse {
  rEndpoint : string; rCounter : string; rDsType : string; rStep : Z; Values : list RRDData.t }.

Notation point := RRDData.New.

Section query.
Context (cfg : config) (db : database).
(** [rrdlite.Fetch]: the start and the step of the data it found, and their values. *)
Context (rrd_Fetch : string → string → Z → Z → Z → result (Z * Z * list float64)).
(** The query of the node that has the file. *)
Context (remote : GraphQueryParam → list RRDData.t).

Definition fetch (filename cf : string) (start end_ step : Z) : list RRDData.t * option error :=
  match rrd_Fetch filename cf start end_ step with
  | Err e => ([], Some e)
  | Ok (start_ts, step_s, values) =>
      (imap (λ i val, point (start_ts +₆₄ (Z.of_nat i + 1) *₆₄ step_s) val) values, None)
  end.

(** The cached rates of a counter: one turn, the items being those from
[itemIdx] on: a value at the timestamp of an item when the next item is one step later. *)
Definition rate_turn (step ts : Z) (items : list GraphItem.t) : float64 * list GraphItem.t :=
  match items with
  | i0 :: i1 :: _ =>
      if (ts =? i0.(GraphItem.Timestamp)) && (ts =? i1.(GraphItem.Timestamp) -₆₄ step) then
        let val := f64_div (f64_sub i1.(GraphItem.Value) i0.(GraphItem.Value)) (f64_of_Z step) in
        (if f64_lt val f64_zero then f64_nan else val, tail items)
      else (f64_nan, items)
  | _ => (f64_nan, items)
  end.

Fixpoint rate_cache (fuel : nat) (step start_ts end_ts itemEndTs ts : Z) (items : list GraphItem.t) :
    option (list RRDData.t) :=
  match fuel with
  | O => None
  | S fuel =>
      if ts <? itemEndTs then
        let '(val, items) := rate_turn step ts items in
        cache ← rate_cache fuel step start_ts end_ts itemEndTs (ts +₆₄ step) items;
        Some (if (start_ts <=? ts) && (ts <=? end_ts) then point ts val :: cache else cache)
      else Some []
  end.

(** The cached values of a gauge. *)
Fixpoint gauge_cache (fuel : nat) (step start_ts end_ts itemEndTs ts : Z) (items : list GraphItem.t) :
    option (list RRDData.t) :=
  match fuel with
  | O => None
  | S fuel =>
      if ts <=? itemEndTs then
        let '(val, items) :=
          match items with
          | i0 :: rest =>
              if ts =? i0.(GraphItem.Timestamp) then (i0.(GraphItem.Value), rest) else (f64_nan, items)
          | [] => (f64_nan, items)
          end in
        cache ← gauge_cache fuel step start_ts end_ts itemEndTs (ts +₆₄ step) items;
        Some (if (start_ts <=? ts) && (ts <=? end_ts) then point ts val :: cache else cache)
      else Some []
  end.

(** "find junction": the last index below [n] of a point before [c0]; -1 if there is none. *)
Fixpoint junction (n : nat) (merged : list RRDData.t) (c0 : Z) : go Z :=
  match n with
  | O => Ret (-1)
  | S n =>
      p ← at_index merged (Z.of_nat n);
      if (p : RRDData.t).(RRDData.Timestamp) <? c0 then Ret (Z.of_nat n) else junction n merged c0
  end.

(** "fix missing" *)
Fixpoint fix_missing (fuel : nat) (step ts c0 : Z) (merged : list RRDData.t) : option (list RRDData.t) :=
  match fuel with
  | O => None
  | S fuel =>
      if ts <? c0 then fix_missing fuel step (ts +₆₄ step) c0 (merged ++ [point ts f64_nan]) else Some merged
  end.

(** "merge cached items to result" *)
Fixpoint merge_cached (rrdDataSize rrdDataIdx : Z) (cache merged : list RRDData.t) : go (list RRDData.t) :=
  match cache with
  | [] => Ret merged
  | c :: cache =>
      merged ← (if rrdDataIdx <? rrdDataSize then
        if f64_is_nan c.(RRDData.Value) then Ret merged
        else _ ← at_index merged rrdDataIdx; Ret (<[Z.to_nat rrdDataIdx := c]> merged)
      else Ret (merged ++ [c]));
      merge_cached rrdDataSize (rrdDataIdx +₆₄ 1) cache merged
  end.

(** The merge of the data with the cached points. *)
Definition merge (fuel : nat) (step start_ts end_ts : Z) (datas cache : list RRDData.t) :
    go (option (list RRDData.t)) :=
  let merged := filter (λ p : RRDData.t,
    start_ts <= p.(RRDData.Timestamp) ∧ p.(RRDData.Timestamp) <= end_ts) datas in
  match cache with
  | [] => Ret (Some merged)
  | c :: _ =>
      let c0 := c.(RRDData.Timestamp) in
      let rrdDataSize := Z.of_nat (length merged) in
      rrdDataIdx ← junction (length merged) merged c0;
      lastTs ← (if 0 <=? rrdDataIdx then RRDData.Timestamp <$> at_index merged rrdDataIdx else Ret c0);
      match fix_missing fuel step (lastTs +₆₄ step) c0 merged with
      | None => Ret None
      | Some merged => Some <$> merge_cached rrdDataSize (rrdDataIdx +₆₄ 1) cache merged
      end
  end.

(** "fmt result": [n] points from [ts] on; [merged] is what is left of the merged points. *)
Fixpoint fmt_result (n : nat) (step ts : Z) (merged : list RRDData.t) : list RRDData.t :=
  match n with
  | O => []
  | S n =>
      match merged with
      | p :: rest =>
          if ts =? p.(RRDData.Timestamp) then p :: fmt_result n step (ts +₆₄ step) rest
          else point ts f64_nan :: fmt_result n step (ts +₆₄ step) merged
      | [] => point ts f64_nan :: fmt_result n step (ts +₆₄ step) merged
      end
  end.

Definition cache_points (fuel : nat) (dsType : string) (step start_ts end_ts : Z) (items : list GraphItem.t) :
    go (option (list RRDData.t)) :=
  first ← at_index items 0;
  lst ← at_index items (Z.of_nat (length items) - 1);
  let ts := (first : GraphItem.t).(GraphItem.Timestamp) in
  let itemEndTs := (lst : GraphItem.t).(GraphItem.Timestamp) in
  Ret (if decide (dsType = DERIVE ∨ dsType = COUNTER) then rate_cache fuel step start_ts end_ts itemEndTs ts items
       else if decide (dsType = GAUGE) then gauge_cache fuel step start_ts end_ts itemEndTs ts items
       else Some []).

(** The points of the response, [items] being the cached items, oldest first. *)
Definition query_values (fuel : nat) (dsType : string) (step start_ts end_ts now : Z)
    (items : list GraphItem.t) (datas : list RRDData.t) : go (option (list RRDData.t)) :=
  nowRem ← go_rem now step;
  let lastUpTs := now -₆₄ nowRem in
  let rra1StartTs := lastUpTs -₆₄ (RRA1PointCnt *₆₄ step) in
  if start_ts <? rra1StartTs then Ret (Some datas)
  else if Z.of_nat (length items) <? 1 then Ret (Some datas)
  else
    ocache ← cache_points fuel dsType step start_ts end_ts items;
    match ocache : option (list RRDData.t) with
    | None => Ret None
    | Some cache =>
        omerged ← merge fuel step start_ts end_ts datas cache;
        match omerged : option (list RRDData.t) with
        | None => Ret None
        | Some merged =>
            q ← go_quot (end_ts -₆₄ start_ts) step;
            let ret_size := if decide (dsType = GAUGE) then q +₆₄ 1 else q in
            if ret_size <? 0 then Panic MakeSlice
            else Ret (Some (fmt_result (Z.to_nat ret_size) step start_ts merged))
        end
    end.

(** [Query] at the time [now]; [None] when the fuel is exhausted.  The step of the
request is not used. *)
Definition Query (fuel : nat) (param : GraphQueryParam) (now : Z) (st : state) :
    go (option (GraphQueryResponse * state)) :=
  let st := incr GraphQueryCnt 1 st in
  let resp := QueryResponse param.(pEndpoint) param.(pCounter) in
  r ← GetTypeAndStep db param.(pEndpoint) param.(pCounter) st;
  match r : option (string * Z) * state with
  | (None, st) => Ret (Some (resp "" 0 [], st))
  | (Some (dsType, step), st) =>
      startRem ← go_rem param.(pStart) step;
      endRem ← go_rem param.(pEnd) step;
      let start_ts := param.(pStart) -₆₄ startRem in
      let end_ts := param.(pEnd) -₆₄ endRem +₆₄ step in
      if end_ts -₆₄ start_ts -₆₄ step <? 1 then Ret (Some (resp dsType step [], st))
      else
        let md5 := Md5 (param.(pEndpoint) +:+ "/" +:+ param.(pCounter)) in
        let key := FormRrdCacheKey md5 dsType step in
        filename ← RrdFileName cfg.(Storage) md5 dsType step;
        f ← GraphItemMap.FetchAll key st.(GraphItems);
        let '(items, flag) := f : list GraphItem.t * Z in
        let datas :=
          if cfg.(MigrateEnabled) && negb (Z.land flag GRAPH_F_MISS =? 0) then remote param
          else (fetch filename param.(ConsolFun) (start_ts -₆₄ step) end_ts step).1 in
        ovalues ← query_values fuel dsType step start_ts end_ts now items datas;
        match ovalues : option (list RRDData.t) with
        | None => Ret None
        | Some values =>
            Ret (Some (resp dsType step values, incr GraphQueryItemCnt (Z.of_nat (length values)) st))
        end
  end.
End query.

(** ** Points on a grid *)

(** The points of a window of time. *)
Definition window (lo hi : Z) (l : list RRDData.t) : list RRDData.t :=
  filter (λ p : RRDData.t, lo <= p.(RRDData.Timestamp) ∧ p.(RRDData.Timestamp) <= hi) l.

Lemma window_cons lo hi p l :
  window lo hi (p :: l) =
    if (lo <=? p.(RRDData.Timestamp)) && (p.(RRDData.Timestamp) <=? hi) then p :: window lo hi l else window lo hi l.
Proof.
  unfold window. rewrite filter_cons. case_decide as H;
    destruct (Z.leb_spec lo p.(RRDData.Timestamp)), (Z.leb_spec p.(RRDData.Timestamp) hi); cbn; lia || done.
Qed.

Section grid.
Context (step : Z) (Hstep : 0 < step < 2 ^ 31).
Implicit Types (f g h : Z → float64) (items : list GraphItem.t).

(** [n] points from [a] on, one for each step. *)
Fixpoint contig (f : Z → float64) (a : Z) (n : nat) : list RRDData.t :=
  match n with O => [] | S n => point a (f a) :: contig f (a + step) n end.

(** Timestamps far from the limits of [int64]. *)
Definition small (t : Z) : Prop := - 2 ^ 60 <= t <= 2 ^ 60.

Lemma small_add t : small t → t +₆₄ step = t + step.
Proof using Hstep. unfold small. intros. apply wrap64_id, int64_small. lia. Qed.

Lemma contig_length f a n : length (contig f a n) = n.
Proof. revert a. induction n as [|n IH]; intros a; cbn; [done|]. by rewrite IH. Qed.

Lemma contig_ext f g a n :
  (∀ t, a <= t < a + Z.of_nat n * step → f t = g t) → contig f a n = contig g a n.
Proof using Hstep.
  revert a. induction n as [|n IH]; intros a Hfg; cbn; [done|]. rewrite Hfg by nia. f_equal.
  apply IH. intros t Ht. apply Hfg. nia.
Qed.

Lemma contig_ext_grid f g a n :
  (∀ t, a <= t < a + Z.of_nat n * step → (step | t - a) → f t = g t) → contig f a n = contig g a n.
Proof using Hstep.
  revert a. induction n as [|n IH]; intros a Hfg; cbn [contig]; [done|].
  rewrite Hfg by (nia || (exists 0; lia)). f_equal.
  apply IH. intros t Ht [k Hk]. apply Hfg; [nia|]. exists (k + 1). lia.
Qed.

Lemma contig_app f a n m : contig f a (n + m) = contig f a n ++ contig f (a + Z.of_nat n * step) m.
Proof.
  revert a. induction n as [|n IH]; intros a; cbn [contig Nat.add app]; [f_equal; lia|].
  rewrite IH. do 2 f_equal. f_equal. lia.
Qed.

Lemma contig_lookup f a n i :
  (i < n)%nat → contig f a n !! i = Some (point (a + Z.of_nat i * step) (f (a + Z.of_nat i * step))).
Proof.
  revert a i. induction n as [|n IH]; intros a [|i] Hi; cbn [contig]; [lia|lia| |].
  - replace (a + Z.of_nat 0 * step) with a by lia. done.
  - cbn [lookup list_lookup]. rewrite IH by lia.
    replace (a + step + Z.of_nat i * step) with (a + Z.of_nat (S i) * step) by lia. done.
Qed.

Lemma contig_insert f a n i v :
  (i < n)%nat →
  <[i := point (a + Z.of_nat i * step) v]> (contig f a n) =
    contig (λ t, if decide (t = a + Z.of_nat i * step) then v else f t) a n.
Proof using Hstep.
  revert a i. induction n as [|n IH]; intros a i Hi; [lia|]. destruct i as [|i]; cbn [contig].
  - replace (a + Z.of_nat 0 * step) with a by lia. cbn. rewrite decide_True by done. f_equal.
    apply contig_ext. intros t Ht. by rewrite decide_False by lia.
  - change (<[S i := ?x]> (?y :: ?l)) with (y :: <[i := x]> l). rewrite decide_False by nia. f_equal.
    replace (a + Z.of_nat (S i) * step) with (a + step + Z.of_nat i * step) by lia. apply IH. lia.
Qed.

(** *** The window *)

(** How many points of a grid are up to a limit. *)
Definition upto (a hi : Z) : nat := Z.to_nat ((hi - a) / step + 1).

Lemma upto_step a hi : a <= hi → upto a hi = S (upto (a + step) hi).
Proof using Hstep.
  intros H. unfold upto. replace (hi - a) with ((hi - (a + step)) + 1 * step) by lia.
  rewrite Z.div_add by lia. assert (-1 <= (hi - (a + step)) / step) by (apply Z.div_le_lower_bound; lia). lia.
Qed.

Lemma upto_0 a hi : hi < a → upto a hi = 0%nat.
Proof using Hstep.
  intros H. unfold upto. assert ((hi - a) / step < 0) by (apply Z.div_lt_upper_bound; lia). lia.
Qed.

Lemma window_contig f lo hi a n :
  lo <= a → window lo hi (contig f a n) = contig f a (Nat.min n (upto a hi)).
Proof using Hstep.
  revert a. induction n as [|n IH]; intros a Ha; [done|]. cbn [contig].
  destruct (Z.le_gt_cases a hi) as [Hhi|Hhi].
  - rewrite (upto_step a hi) by done. unfold window at 1; rewrite filter_cons_True by (cbn; lia); fold (window lo hi (contig f (a + step) n)). cbn [Nat.min contig].
    f_equal. apply IH. lia.
  - unfold window at 1; rewrite filter_cons_False by (cbn; lia); fold (window lo hi (contig f (a + step) n)). rewrite IH by lia. rewrite !upto_0 by lia.
    by rewrite !Nat.min_0_r.
Qed.

(** A grid through [lo] that may start before it. *)
Lemma window_contig_from f lo hi a n (k : Z) :
  a = lo + k * step →
  ∃ c0 n', window lo hi (contig f a n) = contig f c0 n' ∧ c0 = Z.max lo a ∧
    c0 + Z.of_nat n' * step = Z.max c0 (Z.min (a + Z.of_nat n * step) (c0 + Z.of_nat (upto c0 hi) * step)).
Proof using Hstep.
  revert a k. induction n as [|n IH]; intros a k Hk.
  { exists (Z.max lo a), 0%nat. split_and!; [done..|]. lia. }
  destruct (Z.le_gt_cases lo a) as [Hlo|Hlo].
  { exists a, (Nat.min (S n) (upto a hi)). rewrite window_contig by done. split_and!; [done|lia|]. nia. }
  cbn [contig]. unfold window at 1; rewrite filter_cons_False by (cbn; lia); fold (window lo hi (contig f (a + step) n)).
  destruct (IH (a + step) (k + 1)) as (c0 & n' & E & Hc & Hn); [lia|].
  exists c0, n'. split; [done|]. assert (k <= -1) by nia. split; [nia|].
  rewrite Hn. nia.
Qed.

(** *** The cached points *)

Definition increasing items : Prop :=
  StronglySorted (λ i j, i.(GraphItem.Timestamp) < j.(GraphItem.Timestamp)) items.

(** The value of a gauge at a time. *)
Definition gauge_at items (t : Z) : float64 :=
  match list_find (λ i, i.(GraphItem.Timestamp) = t) items with
  | Some (_, i) => i.(GraphItem.Value)
  | None => f64_nan
  end.

Definition rate_of (i0 i1 : GraphItem.t) : float64 :=
  let val := f64_div (f64_sub i1.(GraphItem.Value) i0.(GraphItem.Value)) (f64_of_Z step) in
  if f64_lt val f64_zero then f64_nan else val.

(** The rate of a counter from a time to the next, as long as no item has been missing. *)
Fixpoint rate_at items (t : Z) : float64 :=
  match items with
  | i0 :: rest =>
      match rest with
      | i1 :: _ =>
          if decide (i1.(GraphItem.Timestamp) = i0.(GraphItem.Timestamp) + step) then
            if decide (t = i0.(GraphItem.Timestamp)) then rate_of i0 i1 else rate_at rest t
          else f64_nan
      | [] => f64_nan
      end
  | [] => f64_nan
  end.

Lemma upto_nat a hi : Z.of_nat (upto a hi) = Z.max 0 ((hi - a) / step + 1).
Proof. unfold upto. lia. Qed.

Lemma gauge_at_cons i items t :
  gauge_at (i :: items) t = if decide (t = i.(GraphItem.Timestamp)) then i.(GraphItem.Value) else gauge_at items t.
Proof.
  unfold gauge_at. cbn. destruct (decide (i.(GraphItem.Timestamp) = t)) as [<-|Hne]; [by rewrite decide_True|].
  rewrite decide_False by congruence. by destruct (list_find _ items) as [[]|].
Qed.

Lemma gauge_cache_spec lo hi items last ts fuel :
  increasing items → Forall (λ i, ∃ k, 0 <= k ∧ i.(GraphItem.Timestamp) = ts + k * step) items →
  small ts → small last → (upto ts last < fuel)%nat →
  gauge_cache fuel step lo hi last ts items = Some (window lo hi (contig (gauge_at items) ts (upto ts last))).
Proof using Hstep.
  revert items ts. induction fuel as [|fuel IH]; intros items ts Hinc Hall Hts Hlast Hfuel; [lia|].
  cbn [gauge_cache]. destruct (Z.leb_spec ts last) as [Hle|Hgt]; [|by rewrite upto_0].
  rewrite upto_step in * by done. cbn [contig]. rewrite window_cons. cbn [RRDData.Timestamp RRDData.New].
  rewrite (small_add ts Hts). unfold small in *.
  set (rest := match items with [] => [] | i0 :: rest => if decide (ts = i0.(GraphItem.Timestamp)) then rest else items end).
  assert ((match items with
    | i0 :: rest => if ts =? i0.(GraphItem.Timestamp) then (i0.(GraphItem.Value), rest) else (f64_nan, items)
    | [] => (f64_nan, items) end) = (gauge_at items ts, rest)) as ->.
  { unfold rest. destruct items as [|i0 items']; [done|]. rewrite gauge_at_cons.
    apply StronglySorted_inv in Hinc as [_ Hlt]. apply Forall_cons in Hall as [[k0 [Hk0 Hi0]] _].
    destruct (Z.eqb_spec ts i0.(GraphItem.Timestamp)); case_decide; try lia; [done|].
    f_equal. unfold gauge_at. destruct (list_find _ items') as [[j i]|] eqn:E; [|done].
    apply list_find_Some in E as (Hj & <- & _). apply list_elem_of_lookup_2 in Hj.
    rewrite Forall_forall in Hlt. specialize (Hlt _ Hj). cbn in Hlt. nia. }
  destruct (Z.le_gt_cases (ts + step) (2 ^ 60)) as [Hsm|Hbig].
  - rewrite (IH rest (ts + step)); [| | |lia|lia|lia].
    + cbn [mbind option_bind]. f_equal.
      rewrite (contig_ext (gauge_at rest) (gauge_at items)); [done|].
      intros t Ht. unfold rest. destruct items as [|i0 items']; [done|]. case_decide; [|done].
      rewrite gauge_at_cons, decide_False by lia. done.
    + unfold rest. destruct items as [|i0 items']; [done|]. case_decide; [|done]. by apply StronglySorted_inv in Hinc as [].
    + unfold rest. destruct items as [|i0 items']; [done|]. apply StronglySorted_inv in Hinc as [_ Hlt].
      apply Forall_cons in Hall as [[k0 [Hk0 Hi0]] Hall]. rewrite Forall_forall in Hall, Hlt.
      assert (∀ i, i ∈ items' → ts + step <= i.(GraphItem.Timestamp) ∧ ∃ k, 0 <= k ∧ i.(GraphItem.Timestamp) = ts + step + k * step) as H'.
      { intros i Hi. specialize (Hlt i Hi). destruct (Hall i Hi) as [k [Hk E]]. cbn in Hlt.
        assert (1 <= k) by nia. split; [nia|]. exists (k - 1). split; [lia|nia]. }
      case_decide; [apply Forall_forall; intros i Hi; apply H', Hi|].
      apply Forall_cons. split; [|apply Forall_forall; intros i Hi; apply H', Hi].
      exists (k0 - 1). split; [|nia]. assert (k0 ≠ 0) by (intros ->; lia). lia.
  - destruct fuel as [|fuel]; [lia|]. cbn [gauge_cache].
    destruct (Z.leb_spec (ts + step) last) as [|_]; [lia|]. rewrite upto_0 by lia. done.
Qed.

(** Once an item has been missing, the walk stays on the item before it. *)
Lemma rate_cache_stuck lo hi items last ts fuel :
  (∀ i, head items = Some i → i.(GraphItem.Timestamp) < ts) → small ts → small last →
  (upto ts (last - 1) < fuel)%nat →
  rate_cache fuel step lo hi last ts items = Some (window lo hi (contig (λ _, f64_nan) ts (upto ts (last - 1)))).
Proof using Hstep.
  intros Hhead. revert ts Hhead. induction fuel as [|fuel IH]; intros ts Hhead Hts Hlast Hfuel; [lia|].
  cbn [rate_cache]. destruct (Z.ltb_spec ts last) as [Hlt|Hge]; [|by rewrite upto_0 by lia].
  rewrite upto_step in * by lia. cbn [contig]. rewrite window_cons. cbn [RRDData.Timestamp RRDData.New]. rewrite (small_add ts Hts).
  assert (rate_turn step ts items = (f64_nan, items)) as ->.
  { destruct items as [|i0 [|i1 items']]; [done..|]. specialize (Hhead i0 eq_refl).
    unfold rate_turn. by destruct (Z.eqb_spec ts i0.(GraphItem.Timestamp)); [lia|]. }
  unfold small in *. destruct (Z.le_gt_cases (ts + step) (2 ^ 60)) as [Hsm|Hbig].
  - rewrite (IH (ts + step)); [done| |lia..]. intros i Hi. specialize (Hhead i Hi). lia.
  - destruct fuel as [|fuel]; [lia|]. cbn [rate_cache].
    destruct (Z.ltb_spec (ts + step) last) as [|_]; [lia|]. by rewrite upto_0 by lia.
Qed.

Lemma rate_cache_spec lo hi items last ts fuel :
  (∀ i, head items = Some i → i.(GraphItem.Timestamp) = ts) →
  Forall (λ i, small i.(GraphItem.Timestamp)) items → small ts → small last →
  (upto ts (last - 1) < fuel)%nat →
  rate_cache fuel step lo hi last ts items = Some (window lo hi (contig (rate_at items) ts (upto ts (last - 1)))).
Proof using Hstep.
  revert items ts. induction fuel as [|fuel IH]; intros items ts Hhead Hall Hts Hlast Hfuel; [lia|].
  cbn [rate_cache]. destruct (Z.ltb_spec ts last) as [Hlt|Hge]; [|by rewrite upto_0 by lia].
  rewrite upto_step in * by lia. cbn [contig]. rewrite window_cons. cbn [RRDData.Timestamp RRDData.New]. rewrite (small_add ts Hts).
  assert (∀ l, (∀ i, head l = Some i → i.(GraphItem.Timestamp) = ts) → rate_cache fuel step lo hi last (ts + step) l =
    Some (window lo hi (contig (λ _, f64_nan) (ts + step) (upto (ts + step) (last - 1))))) as Hstuck.
  { intros l Hl. unfold small in *. destruct (Z.le_gt_cases (ts + step) (2 ^ 60)).
    - apply rate_cache_stuck; [|unfold small; lia..]. intros i E. rewrite (Hl i E). lia.
    - destruct fuel as [|fuel]; [lia|]. cbn [rate_cache].
      destruct (Z.ltb_spec (ts + step) last) as [|_]; [lia|]. by rewrite upto_0 by lia. }
  destruct items as [|i0 rest]; [cbn [rate_turn]; by rewrite Hstuck|].
  specialize (Hhead i0 eq_refl) as Hi0.
  destruct rest as [|i1 rest].
  { cbn [rate_turn]. rewrite Hstuck by (by intros i [= <-]). done. }
  apply Forall_cons in Hall as [Hs0 Hall]. pose proof Hall as [Hs1 _]%Forall_cons. unfold small in *.
  unfold rate_turn. rewrite wrap64_id by (unfold int64; lia). rewrite Hi0, Z.eqb_refl. cbn [andb].
  destruct (Z.eqb_spec ts (i1.(GraphItem.Timestamp) - step)) as [E|Hne].
  - cbn [tail]. rewrite (IH (i1 :: rest) (ts + step)); [|by intros i [= <-]; lia|done|lia|lia|lia].
    cbn [mbind option_bind]. f_equal.
    rewrite (contig_ext (rate_at (i0 :: i1 :: rest)) (rate_at (i1 :: rest))).
    + cbn [rate_at]. rewrite !decide_True by lia. done.
    + intros t Ht. cbn [rate_at]. rewrite decide_True by lia. by rewrite decide_False by lia.
  - rewrite Hstuck by (by intros i [= <-]). cbn [mbind option_bind]. f_equal.
    rewrite (contig_ext (rate_at (i0 :: i1 :: rest)) (λ _, f64_nan)).
    + cbn [rate_at]. by rewrite decide_False by lia.
    + intros t Ht. cbn [rate_at]. by rewrite decide_False by lia.
Qed.

(** *** Merging *)

Lemma junction_spec f a c0 n m (k : Z) :
  c0 = a + k * step → 0 <= k → (n <= m)%nat →
  junction n (contig f a m) c0 = Ret (Z.min (Z.of_nat n) k - 1).
Proof using Hstep.
  intros Hc Hk. induction n as [|n IH]; intros Hn; cbn [junction]; [f_equal; lia|].
  rewrite (at_index_of_nat _ _ _ (contig_lookup f a m n Hn)). cbn [mbind go_bind RRDData.Timestamp RRDData.New].
  destruct (Z.ltb_spec (a + Z.of_nat n * step) c0) as [Hlt|Hge].
  - assert (Z.of_nat n < k) by nia. f_equal. lia.
  - assert (k <= Z.of_nat n) by nia. rewrite IH by lia. f_equal. lia.
Qed.

Lemma fix_missing_spec f a n c0 fuel (k : Z) :
  small (a + Z.of_nat n * step) → small c0 → c0 = a + k * step →
  (Z.to_nat (k - Z.of_nat n) < fuel)%nat →
  ∃ f', fix_missing fuel step (a + Z.of_nat n * step) c0 (contig f a n) =
      Some (contig f' a (Nat.max n (Z.to_nat k))) ∧
    ∀ t, f' t = if decide (a + Z.of_nat n * step <= t) then f64_nan else f t.
Proof using Hstep.
  intros Hs Hc Hk. revert n f Hs. induction fuel as [|fuel IH]; intros n f Hs Hfuel; [lia|]. cbn [fix_missing].
  destruct (Z.ltb_spec (a + Z.of_nat n * step) c0) as [Hlt|Hge].
  - rewrite (small_add _ Hs). assert (Z.of_nat n < k) by nia.
    set (f1 := λ t, if decide (a + Z.of_nat n * step <= t) then f64_nan else f t).
    assert (contig f a n ++ [point (a + Z.of_nat n * step) f64_nan] = contig f1 a (S n)) as ->.
    { replace (S n) with (n + 1)%nat by lia. rewrite contig_app. f_equal.
      - apply contig_ext. intros t Ht. unfold f1. by rewrite decide_False by lia.
      - cbn. unfold f1. by rewrite decide_True by lia. }
    replace (a + Z.of_nat n * step + step) with (a + Z.of_nat (S n) * step) by lia.
    destruct (IH (S n) f1) as (f' & -> & Hf'); [unfold small in *; nia|lia|].
    exists f'. split; [do 2 f_equal; lia|]. intros t. rewrite Hf'. unfold f1. repeat case_decide; nia || done.
  - assert (k <= Z.of_nat n) by nia.
    exists (λ t, if decide (a + Z.of_nat n * step <= t) then f64_nan else f t). split; [|done].
    replace (Nat.max n (Z.to_nat k)) with n by lia. f_equal.
    apply contig_ext. intros t Ht. by rewrite decide_False by lia.
Qed.

(** The value of a merged point: the cached one, unless it is missing and
there is one on disk ([s] points from [b] on). *)
Definition merged_at (f g : Z → float64) (b : Z) (s : nat) (t : Z) : float64 :=
  if decide (t < b + Z.of_nat s * step ∧ f64_is_nan (g t) = true) then f t else g t.

Lemma merge_cached_spec f g b l s c n (r : Z) :
  0 <= r < 2 ^ 62 - Z.of_nat n → (s <= l)%nat →
  (r < Z.of_nat s ∧ l = s ∧ c = b + r * step) ∨ (Z.of_nat s <= r ∧ c = b + Z.of_nat l * step) →
  ∃ l' f', merge_cached (Z.of_nat s) r (contig g c n) (contig f b l) = Ret (contig f' b l') ∧
    Z.of_nat l' * step = Z.max (Z.of_nat l * step) (c - b + Z.of_nat n * step) ∧
    ∀ t, (step | t - c) → f' t = if decide (c <= t < c + Z.of_nat n * step) then merged_at f g b s t else f t.
Proof using Hstep.
  revert f l c r. induction n as [|n IH]; intros f l c r Hr Hsl Hpos; cbn [contig merge_cached].
  { exists l, f. split; [done|]. split; [destruct Hpos as [(? & -> & ->)|(? & ->)]; nia|].
    intros t _. by rewrite decide_False by lia. }
  cbn [RRDData.Value RRDData.New].
  set (f1 := λ t, if decide (t = c) then merged_at f g b s t else f t).
  assert (∃ l1, (if r <? Z.of_nat s then
      if f64_is_nan (g c) then Ret (contig f b l)
      else _ ← at_index (contig f b l) r; Ret (<[Z.to_nat r := point c (g c)]> (contig f b l))
    else Ret (contig f b l ++ [point c (g c)])) = Ret (contig f1 b l1) ∧ (s <= l1)%nat ∧
    Z.of_nat l1 * step = Z.max (Z.of_nat l * step) (c - b + step) ∧
    ((r + 1 < Z.of_nat s ∧ l1 = s ∧ c + step = b + (r + 1) * step) ∨
     (Z.of_nat s <= r + 1 ∧ c + step = b + Z.of_nat l1 * step))) as (l1 & E & Hsl1 & Hl1 & Hpos1).
  { destruct Hpos as [(Hrs & -> & Hc)|(Hrs & Hc)]; destruct (Z.ltb_spec r (Z.of_nat s)); try lia.
    - exists s. split; [|split; [lia|split; [nia|]]].
      + destruct (f64_is_nan (g c)) eqn:En.
        * f_equal. apply contig_ext. intros t Ht. unfold f1, merged_at. case_decide as Et; [|done]. subst t.
          rewrite decide_True; [done|]. split; [lia|done].
        * assert (at_index (contig f b s) r = Ret (point (b + r * step) (f (b + r * step)))) as ->.
          { apply at_index_Ret. split; [lia|]. rewrite contig_lookup by lia. by rewrite Z2Nat.id by lia. }
          cbn [mbind go_bind]. f_equal. rewrite Hc.
          replace (b + r * step) with (b + Z.of_nat (Z.to_nat r) * step) by lia. rewrite contig_insert by lia.
          apply contig_ext. intros t Ht. unfold f1, merged_at. rewrite Hc. rewrite Z2Nat.id by lia.
          destruct (decide (t = b + r * step)) as [->|]; [|done]. rewrite <- Hc.
          rewrite decide_False; [done|]. intros [_ ?]. congruence.
      + destruct (decide (r + 1 < Z.of_nat s)); [left; split_and!; lia|right; split; [lia|nia]].
    - exists (l + 1)%nat. split; [|split; [lia|split; [nia|right; split; [lia|nia]]]].
      f_equal. rewrite contig_app. cbn [contig]. rewrite <- Hc. f_equal.
      + apply contig_ext. intros t Ht. unfold f1. by rewrite decide_False by lia.
      + unfold f1, merged_at. rewrite decide_True by done. rewrite decide_False; [done|]. nia. }
  rewrite E. cbn [mbind go_bind]. rewrite (wrap64_id (r + 1)) by (apply int64_small; lia).
  destruct (IH f1 l1 (c + step) (r + 1)) as (l' & f' & -> & Hl' & Hf'); [lia|done|done|].
  exists l', f'. split; [done|]. split; [nia|]. intros t [k Hk]. rewrite Hf' by (exists (k - 1); lia).
  destruct (decide (t = c)) as [->|Hne].
  - rewrite decide_False by lia. rewrite decide_True by nia. unfold f1. by rewrite decide_True.
  - assert (merged_at f1 g b s t = merged_at f g b s t) as ->
      by (unfold merged_at, f1; by rewrite (decide_False (P := t = c))).
    unfold f1. rewrite (decide_False (P := t = c)) by done.
    assert (k <= -1 ∨ 1 <= k) by (assert (k ≠ 0) by (intros ->; lia); lia).
    apply decide_ext. nia.
Qed.

Lemma fmt_result_spec f b l n ts (j : Z) :
  b = ts + j * step → 0 <= j → (∀ t, ts <= t < ts + Z.of_nat n * step → small t) →
  fmt_result n step ts (contig f b l) =
    contig (λ t, if decide (b <= t < b + Z.of_nat l * step) then f t else f64_nan) ts n.
Proof using Hstep.
  revert b l ts j. induction n as [|n IH]; intros b l ts j Hb Hj Hsm; [done|]. cbn [fmt_result contig].
  rewrite small_add by (apply Hsm; nia).
  assert (∀ t, ts + step <= t < ts + step + Z.of_nat n * step → small t) as Hsm' by (intros t Ht; apply Hsm; nia).
  destruct l as [|l].
  { cbn [contig]. f_equal; [by rewrite decide_False by lia|].
    change (@nil RRDData.t) with (contig f (b + step) 0). rewrite (IH (b + step) 0%nat (ts + step) j); [|lia..|done].
    apply contig_ext. intros t Ht. by rewrite !decide_False by lia. }
  cbn [contig RRDData.Timestamp RRDData.New]. destruct (Z.eqb_spec ts b) as [<-|Hne].
  - rewrite decide_True by nia. f_equal. rewrite (IH (ts + step) l (ts + step) 0); [|lia..|done].
    apply contig_ext. intros t Ht. destruct (decide (ts + step <= t < ts + step + Z.of_nat l * step)).
    + by rewrite decide_True by nia.
    + by rewrite decide_False by nia.
  - assert (1 <= j) by (destruct (Z.eq_dec j 0) as [->|]; lia). rewrite decide_False by nia. f_equal.
    change (point b (f b) :: contig f (b + step) l) with (contig f b (S l)).
    apply (IH b (S l) (ts + step) (j - 1)); [lia|lia|done].
Qed.

(** What the response holds at a time of its grid: the cached value if there
is one that is not missing, else the value on disk ([m] points from [a] on). *)
Definition grid_value (f g : Z → float64) (a : Z) (m : nat) (c0 : Z) (n : nat) (t : Z) : float64 :=
  if decide (c0 <= t < c0 + Z.of_nat n * step ∧ f64_is_nan (g t) = false) then g t
  else if decide (t < a + Z.of_nat m * step) then f t else f64_nan.

Lemma is_nan_eq v : f64_is_nan v = true → v = f64_nan.
Proof. by destruct v. Qed.

(** The points after "fix missing", and the place of the first cached point. *)
Lemma fixed_spec fuel f a m c0 (k : Z) :
  c0 = a + k * step → 0 <= k → small a → small c0 → small (a + Z.of_nat m * step) → (0 < m)%nat →
  (Z.to_nat k < fuel)%nat →
  ∃ (r lastTs : Z) (l : nat) f1,
    junction m (contig f a m) c0 = Ret (r - 1) ∧
    (if 0 <=? r - 1 then RRDData.Timestamp <$> at_index (contig f a m) (r - 1) else Ret c0) = Ret lastTs ∧
    fix_missing fuel step (lastTs +₆₄ step) c0 (contig f a m) = Some (contig f1 a l) ∧
    (m <= l)%nat ∧ 0 <= r <= Z.of_nat m ∧ Z.of_nat l = Z.max (Z.of_nat m) k ∧
    ((r < Z.of_nat m ∧ l = m ∧ c0 = a + r * step) ∨ (Z.of_nat m <= r ∧ c0 = a + Z.of_nat l * step)) ∧
    (∀ t, f1 t = if decide (a + Z.of_nat m * step <= t) then f64_nan else f t).
Proof using Hstep.
  intros Hc Hk Ha Hc0 Ham Hm Hfuel.
  set (f1 := λ t, if decide (a + Z.of_nat m * step <= t) then f64_nan else f t).
  assert (contig f a m = contig f1 a m) as Hf1.
  { apply contig_ext. intros t Ht. unfold f1. by rewrite decide_False by lia. }
  exists (Z.min (Z.of_nat m) k). rewrite (junction_spec f a c0 m m k) by done.
  destruct (Z.leb_spec 0 (Z.min (Z.of_nat m) k - 1)) as [Hidx|Hidx].
  - exists (a + (Z.min (Z.of_nat m) k - 1) * step).
    assert (RRDData.Timestamp <$> at_index (contig f a m) (Z.min (Z.of_nat m) k - 1) =
      Ret (a + (Z.min (Z.of_nat m) k - 1) * step)) as ->.
    { rewrite (proj2 (at_index_Ret _ _ (point (a + (Z.min (Z.of_nat m) k - 1) * step) (f (a + (Z.min (Z.of_nat m) k - 1) * step))))); [done|].
      split; [done|]. rewrite contig_lookup by lia. by rewrite Z2Nat.id by lia. }
    assert (small (a + (Z.min (Z.of_nat m) k - 1) * step)) as Hs by (unfold small in *; nia).
    rewrite (small_add _ Hs). replace (a + (Z.min (Z.of_nat m) k - 1) * step + step) with (a + Z.min (Z.of_nat m) k * step) by lia.
    destruct (Z.le_gt_cases (Z.of_nat m) k) as [Hmk|Hmk].
    + rewrite Z.min_l by done. destruct (fix_missing_spec f a m c0 fuel k) as (f' & -> & Hf'); [done..|lia|].
      exists (Nat.max m (Z.to_nat k)), f'. split_and!; [done..|lia|lia|lia|lia| |exact Hf']. right. split; [lia|].
      rewrite Hc. f_equal. f_equal. lia.
    + rewrite Z.min_r by lia. exists m, f1. destruct fuel as [|fuel]; [lia|]. cbn [fix_missing].
      destruct (Z.ltb_spec (a + k * step) c0); [lia|]. rewrite Hf1. split_and!; [done..|lia|lia|lia|lia| |done].
      left. done.
  - assert (k = 0) as -> by lia. rewrite Z.min_r in * by lia. exists c0, m, f1. rewrite (small_add _ Hc0).
    destruct fuel as [|fuel]; [lia|]. cbn [fix_missing]. destruct (Z.ltb_spec (c0 + step) c0); [lia|].
    rewrite <- Hf1. split_and!; [done..|lia|lia|lia|lia| |done]. left. split_and!; [lia|done|lia].
Qed.

Lemma merge_spec fuel f g lo hi datas a m c0 n (k : Z) :
  window lo hi datas = contig f a m → (0 < n)%nat → Z.of_nat n < 2 ^ 60 →
  c0 = a + k * step → 0 <= k → small a → small c0 → small (a + Z.of_nat m * step) →
  (Z.to_nat k < fuel)%nat →
  ∃ b h l (j : Z), merge fuel step lo hi datas (contig g c0 n) = Ret (Some (contig h b l)) ∧
    b = a + j * step ∧ 0 <= j ∧
    ∀ t, a <= t → (step | t - a) →
      (if decide (b <= t < b + Z.of_nat l * step) then h t else f64_nan) = grid_value f g a m c0 n t.
Proof using Hstep.
  intros Hw Hn Hn2 Hc Hk Ha Hc0 Ham Hfuel. unfold merge. fold (window lo hi datas). rewrite Hw.
  destruct n as [|n]; [lia|]. rewrite contig_length.
  cbn [contig]. cbv beta zeta. change (RRDData.Timestamp (point c0 (g c0))) with c0.
  change (point c0 (g c0) :: contig g (c0 + step) n) with (contig g c0 (S n)).
  destruct m as [|m].
  - cbn [junction mbind go_bind]; change (contig f a 0) with (@nil RRDData.t). change (0 <=? -1) with false. cbv iota. cbn [mbind go_bind].
    rewrite small_add by done. destruct fuel as [|fuel]; [lia|]. cbn [fix_missing].
    destruct (Z.ltb_spec (c0 + step) c0); [lia|]. change (-1 +₆₄ 1) with 0.
    destruct (merge_cached_spec f g c0 0 0 c0 (S n) 0) as (l' & f' & E & Hl' & Hf'); [lia|lia|right; lia|].
    change (contig f c0 0) with (@nil RRDData.t) in E. rewrite E. cbn [fmap go_fmap].
    exists c0, f', l', k. split_and!; [done..|]. intros t Hta [q Hq]. unfold grid_value.
    rewrite (decide_False (P := t < a + Z.of_nat 0 * step)) by lia.
    destruct (decide (c0 <= t < c0 + Z.of_nat l' * step)) as [Hin|Hout].
    + rewrite Hf' by (exists (q - k); lia). rewrite decide_True by nia. unfold merged_at. rewrite decide_False by lia.
      destruct (f64_is_nan (g t)) eqn:En; [|by rewrite decide_True by (split; [nia|done])].
      rewrite decide_False by (intros [_ ?]; done). by apply is_nan_eq.
    + by rewrite decide_False by (intros [? _]; nia).
  - destruct (fixed_spec fuel f a (S m) c0 k) as (r & lastTs & l & f1 & -> & E1 & E2 & Hl & Hr & Hlk & Hpos & Hf1); [done..|lia|done|].
    cbn [mbind go_bind]. rewrite E1. cbn [mbind go_bind]. rewrite E2.
    assert (Z.of_nat (S m) <= 2 ^ 61) as Hm by (unfold small in *; nia).
    replace (r - 1 +₆₄ 1) with r by (rewrite wrap64_id; [lia|apply int64_small; lia]).
    assert (0 <= r < 2 ^ 62 - Z.of_nat (S n)) as Hr2 by (unfold small in *; nia).
    destruct (merge_cached_spec f1 g a l (S m) c0 (S n) r Hr2 Hl Hpos) as (l' & f' & -> & Hl' & Hf').
    exists a, f', l', 0. split_and!; [done|lia|done|]. intros t Hta [q Hq]. unfold grid_value.
    destruct (decide (a <= t < a + Z.of_nat l' * step)) as [Hin|Hout].
    + rewrite Hf' by (exists (q - k); lia). unfold merged_at. rewrite Hf1.
      destruct (f64_is_nan (g t)) eqn:En; repeat case_decide; try lia; try done; try (by apply is_nan_eq); try nia.
    + rewrite decide_False by nia. by rewrite decide_False by nia.
Qed.

(** *** The response *)

(** The cached value at a time, by the type of the data source. *)
Definition cached_at (dsType : string) items : Z → float64 :=
  if decide (dsType = DERIVE ∨ dsType = COUNTER) then rate_at items
  else if decide (dsType = GAUGE) then gauge_at items else λ _, f64_nan.

(** A cached value hides the one on disk, unless it is missing. *)
Definition value_at (disk g : Z → float64) (t : Z) : float64 := if f64_is_nan (g t) then disk t else g t.

Lemma gauge_at_range items t :
  f64_is_nan (gauge_at items t) = false → ∃ i, i ∈ items ∧ t = i.(GraphItem.Timestamp).
Proof.
  unfold gauge_at. destruct (list_find _ items) as [[j i]|] eqn:E; [|done]. intros _.
  apply list_find_Some in E as (Hj & <- & _). apply list_elem_of_lookup_2 in Hj. by exists i.
Qed.

Lemma rate_at_range items t :
  f64_is_nan (rate_at items t) = false →
  ∃ i j, i ∈ items ∧ j ∈ items ∧ t = i.(GraphItem.Timestamp) ∧ j.(GraphItem.Timestamp) = t + step.
Proof.
  induction items as [|i0 items IH]; [done|]. destruct items as [|i1 items]; [done|]. cbn [rate_at].
  case_decide as E; [|done]. case_decide as Et.
  - intros _. exists i0, i1. split_and!; [left|right; left|done|lia].
  - intros H. destruct (IH H) as (i & j & Hi & Hj & E1 & E2). exists i, j. split_and!; [by right..|done|done].
Qed.

Lemma increasing_bounds items first lst i :
  increasing items → head items = Some first → last items = Some lst → i ∈ items →
  first.(GraphItem.Timestamp) <= i.(GraphItem.Timestamp) <= lst.(GraphItem.Timestamp).
Proof.
  intros Hinc Hf Hl Hi. split.
  - destruct items as [|i0 items]; [done|]. injection Hf as ->. apply StronglySorted_inv in Hinc as [_ Hlt].
    apply elem_of_cons in Hi as [->|Hi]; [lia|]. rewrite Forall_forall in Hlt. specialize (Hlt _ Hi). cbn in Hlt. lia.
  - apply last_Some in Hl as [l' ->]. apply elem_of_app in Hi as [Hi|Hi%list_elem_of_singleton]; [|subst; lia].
    unfold increasing in Hinc. apply StronglySorted_app_1_elem_of with (x1 := i) (x2 := lst) in Hinc; [lia|done|by left].
Qed.

Lemma upto_gt a hi : a <= hi → hi < a + Z.of_nat (upto a hi) * step.
Proof using Hstep. intros H. unfold upto. pose proof (Z.div_mod (hi - a) step). pose proof (Z.mod_pos_bound (hi - a) step). pose proof (Z.div_pos (hi - a) step). nia. Qed.

(** How many points the cached items make. *)
Definition cache_count (dsType : string) (first lst : Z) : nat :=
  if decide (dsType = DERIVE ∨ dsType = COUNTER) then upto first (lst - 1)
  else if decide (dsType = GAUGE) then upto first lst else 0%nat.

Definition items_ok items : Prop :=
  increasing items ∧ Forall (λ i, small i.(GraphItem.Timestamp) ∧ (step | i.(GraphItem.Timestamp))) items.

Lemma cache_points_spec fuel dsType lo hi items first lst :
  items_ok items → head items = Some first → last items = Some lst →
  let t0 := first.(GraphItem.Timestamp) in
  let N := cache_count dsType t0 lst.(GraphItem.Timestamp) in
  (N < fuel)%nat →
  cache_points fuel dsType step lo hi items = Ret (Some (window lo hi (contig (cached_at dsType items) t0 N))) ∧
  ∀ t, f64_is_nan (cached_at dsType items t) = false → t0 <= t < t0 + Z.of_nat N * step.
Proof using Hstep.
  intros [Hinc Hall] Hf Hl t0 N Hfuel. pose proof Hall as Hall'. rewrite Forall_forall in Hall'.
  assert (first ∈ items) as Hfin by (apply head_Some in Hf as [l' ->]; left).
  assert (lst ∈ items) as Hlin by (apply last_Some in Hl as [l' ->]; apply elem_of_app; right; left).
  destruct (Hall' _ Hfin) as [Hsf [qf Hqf]]. destruct (Hall' _ Hlin) as [Hsl _].
  pose proof (λ i, increasing_bounds items first lst i Hinc Hf Hl) as Hb.
  split.
  - unfold cache_points.
    assert (at_index items 0 = Ret first) as ->.
    { apply at_index_Ret. split; [done|]. by rewrite <- head_lookup. }
    assert (at_index items (Z.of_nat (length items) - 1) = Ret lst) as ->.
    { apply at_index_Ret. assert (0 < length items)%nat by (destruct items; [done|cbn; lia]). split; [lia|].
      rewrite last_lookup in Hl. rewrite <- Hl. f_equal. lia. }
    cbn [mbind go_bind]. f_equal. unfold cached_at. unfold N, cache_count in Hfuel |- *.
    destruct (decide (dsType = DERIVE ∨ dsType = COUNTER)); [|destruct (decide (dsType = GAUGE)); [|done]].
    + apply rate_cache_spec; [|by eapply Forall_impl; [exact Hall|intros ? []]|done|done|done].
      intros i Hi. rewrite Hf in Hi. by injection Hi as <-.
    + apply gauge_cache_spec; [done| |done|done|done]. apply Forall_forall. intros i Hi.
      destruct (Hall' _ Hi) as [_ [q Hq]]. specialize (Hb i Hi). exists (q - qf). split; [nia|lia].
  - intros t. unfold cached_at, N, cache_count.
    destruct (decide (dsType = DERIVE ∨ dsType = COUNTER)); [|destruct (decide (dsType = GAUGE)); [|done]].
    + intros (i & j & Hi & Hj & -> & Ej)%rate_at_range. pose proof (Hb i Hi). pose proof (Hb j Hj).
      split; [lia|]. pose proof (upto_gt t0 (lst.(GraphItem.Timestamp) - 1)). lia.
    + intros (i & Hi & ->)%gauge_at_range. pose proof (Hb i Hi).
      split; [lia|]. pose proof (upto_gt t0 lst.(GraphItem.Timestamp)). lia.
Qed.

(** The merge, at the times of the grid: the data on disk starts at [lo], the
cached points at [t0]. *)
Lemma merge_windows fuel (f g : Z → float64) lo hi m N t0 (k0 : Z) :
  t0 = lo + k0 * step → small t0 → (Z.to_nat (t0 - lo) < fuel)%nat →
  - 2 ^ 57 <= lo → lo <= hi <= 2 ^ 57 → Z.of_nat m < 2 ^ 28 →
  (∀ t, lo + Z.of_nat m * step <= t → f t = f64_nan) →
  (∀ t, f64_is_nan (g t) = false → t0 <= t < t0 + Z.of_nat N * step) →
  ∃ b h l (j : Z), merge fuel step lo hi (contig f lo m) (window lo hi (contig g t0 N)) = Ret (Some (contig h b l)) ∧
    b = lo + j * step ∧ 0 <= j ∧
    ∀ t, lo <= t <= hi → (step | t - lo) →
      (if decide (b <= t < b + Z.of_nat l * step) then h t else f64_nan) = value_at f g t.
Proof using Hstep.
  intros Ht0 Hst0 Hfuel Hlo Hhi Hm Hf0 Hrange.
  destruct (window_contig_from g lo hi t0 N k0 Ht0) as (c0 & n & -> & Hc0 & Hn).
  assert (window lo hi (contig f lo m) = contig f lo (Nat.min m (upto lo hi))) as Hwd by (apply window_contig; lia).
  set (m' := Nat.min m (upto lo hi)) in *.
  assert (∀ t, lo <= t <= hi → (step | t - lo) → t < lo + Z.of_nat m' * step ∨ lo + Z.of_nat m * step <= t) as Hm'.
  { intros t Ht [qt Hqt]. pose proof (upto_gt lo hi). nia. }
  destruct n as [|n].
  { exists lo, f, m', 0. unfold merge. fold (window lo hi (contig f lo m)). cbn [contig].
    rewrite Hwd. split; [reflexivity|]. split; [lia|]. split; [lia|]. intros t Ht Hd. unfold value_at.
    destruct (f64_is_nan (g t)) eqn:En.
    - destruct (Hm' t Ht Hd); [by rewrite decide_True by lia|]. rewrite Hf0 by assumption. by case_decide.
    - specialize (Hrange t En). pose proof (upto_gt c0 hi). exfalso. nia. }
  assert (Z.of_nat (S n) <= 2 ^ 59) as Hn59.
  { pose proof (upto_nat c0 hi). assert (step * ((hi - c0) / step) <= hi - c0) by (apply Z.mul_div_le; lia).
    assert (Z.of_nat (S n) * step <= Z.max 0 (hi - c0 + step)) by nia. nia. }
  assert (m' <= m)%nat by lia.
  destruct (merge_spec fuel f g lo hi (contig f lo m) lo m' c0 (S n) (Z.max 0 k0) Hwd) as (b & h & l & j & E & Hb & Hj & Hh);
    [lia|lia|nia|lia|unfold small; lia|unfold small in *; lia|unfold small; nia|nia|].
  exists b, h, l, j. split; [exact E|]. split; [exact Hb|]. split; [exact Hj|]. intros t Ht Hd.
  rewrite Hh; [|lia|exact Hd]. unfold grid_value, value_at. destruct (f64_is_nan (g t)) eqn:En.
  - rewrite decide_False by (intros [_ ?]; done). destruct (Hm' t Ht Hd); [by rewrite decide_True by lia|].
    rewrite Hf0 by assumption. by case_decide.
  - specialize (Hrange t En). rewrite decide_True; [done|]. split; [|reflexivity]. pose proof (upto_gt c0 hi). nia.
Qed.

(** The points of a query: one for each time of the grid. *)
Lemma query_values_spec fuel dsType lo hi now items datas (f : Z → float64) m (q s : Z) first lst :
  items_ok items → head items = Some first → last items = Some lst →
  (cache_count dsType first.(GraphItem.Timestamp) lst.(GraphItem.Timestamp) < fuel)%nat →
  (Z.to_nat (first.(GraphItem.Timestamp) - lo) < fuel)%nat →
  lo = s * step → hi = lo + q * step → 1 <= q → - 2 ^ 57 <= lo → hi <= 2 ^ 57 → 0 <= now <= 2 ^ 57 →
  now - now mod step - RRA1PointCnt * step <= lo →
  datas = contig f lo m → Z.of_nat m < 2 ^ 28 →
  (∀ t, lo + Z.of_nat m * step <= t → f t = f64_nan) →
  query_values fuel dsType step lo hi now items datas =
    Ret (Some (contig (value_at f (cached_at dsType items)) lo
      (Z.to_nat (if decide (dsType = GAUGE) then q + 1 else q)))).
Proof using Hstep.
  intros Hitems Hf Hl Hfuel Hfuel2 Hlo Hhi Hq Hlob Hhib Hnow Hrecent -> Hm Hf0. unfold query_values.
  assert (lo + step <= hi) as Hlohi by nia. assert (q <= 2 ^ 58) as Hq2 by nia.
  unfold go_rem. rewrite decide_False by lia. cbn [mbind go_bind].
  rewrite Z.rem_mod_nonneg by lia. pose proof (Z.mod_pos_bound now step).
  rewrite (wrap64_id (now - _)) by (apply int64_small; lia).
  rewrite (wrap64_id (RRA1PointCnt * step)) by (unfold RRA1PointCnt; apply int64_small; lia).
  rewrite (wrap64_id (now - _ - _)) by (unfold RRA1PointCnt; apply int64_small; lia).
  destruct (Z.ltb_spec lo (now - now mod step - RRA1PointCnt * step)); [lia|].
  destruct (Z.ltb_spec (Z.of_nat (length items)) 1); [by destruct items; [|cbn in *; lia]|].
  set (t0 := first.(GraphItem.Timestamp)) in *. set (N := cache_count dsType t0 lst.(GraphItem.Timestamp)) in *.
  destruct (cache_points_spec fuel dsType lo hi items first lst Hitems Hf Hl Hfuel) as [-> Hrange]. fold t0 N in Hrange |- *.
  cbn [mbind go_bind]. set (g := cached_at dsType items) in *.
  assert (small t0 ∧ (step | t0)) as [Ht0 [q0 Hq0]].
  { destruct Hitems as [_ Hall]. rewrite Forall_forall in Hall. apply Hall. apply head_Some in Hf as [l' ->]. left. }
  destruct (merge_windows fuel f g lo hi m N t0 (q0 - s)) as (b & h & l & j & -> & Hb & Hj & Hh);
    [lia|exact Ht0|exact Hfuel2|lia|lia|exact Hm|exact Hf0|exact Hrange|].
  cbn [mbind go_bind]. unfold go_quot. rewrite decide_False by lia.
  rewrite (wrap64_id (hi - lo)) by (apply int64_small; lia).
  replace (hi - lo) with (q * step) by lia. rewrite Z.quot_mul by lia.
  rewrite (wrap64_id q) by (apply int64_small; lia). cbn [mbind go_bind].
  rewrite (wrap64_id (q + 1)) by (apply int64_small; lia).
  set (ret := if decide (dsType = GAUGE) then q + 1 else q).
  assert (0 <= ret <= q + 1) as Hret by (unfold ret; case_decide; lia).
  destruct (Z.ltb_spec ret 0); [lia|]. do 2 f_equal.
  rewrite (fmt_result_spec h b l (Z.to_nat ret) lo j Hb Hj).
  - apply contig_ext_grid. intros t Ht Hd. apply Hh; [|exact Hd].
    destruct Hd as [qt Hqt]. rewrite Z2Nat.id in Ht by lia. rewrite Hhi. clear -Hstep Ht Hqt Hret.
    assert (t = lo + qt * step) as -> by lia. assert (qt < ret) by nia. nia.
  - intros t Ht. rewrite Z2Nat.id in Ht by lia. unfold small.
    assert (ret * step <= (q + 1) * step) by (apply Z.mul_le_mono_nonneg_r; lia). lia.
Qed.
End grid.

(** ** Queries *)

(** The value on disk at a time: [values] from [start] on. *)
Definition disk_at (start step : Z) (values : list float64) (t : Z) : float64 :=
  default f64_nan (values !! Z.to_nat ((t - start) / step)).

Lemma imap_contig step lo (values : list float64) (f : Z → float64) :
  0 < step < 2 ^ 31 → - 2 ^ 60 <= lo <= 2 ^ 60 → Z.of_nat (length values) < 2 ^ 28 →
  (∀ i v, values !! i = Some v → f (lo + Z.of_nat i * step) = v) →
  imap (λ i val, point (lo - step +₆₄ (Z.of_nat i + 1) *₆₄ step) val) values = contig step f lo (length values).
Proof.
  intros Hstep Hlo Hlen Hf. apply list_eq. intros i. rewrite list_lookup_imap.
  destruct (values !! i) as [v|] eqn:E; cbn [fmap option_fmap option_map].
  - pose proof (lookup_lt_Some _ _ _ E) as Hi. rewrite (contig_lookup step f lo _ i Hi). rewrite (Hf i v E).
    assert (0 <= (Z.of_nat i + 1) * step <= 2 ^ 28 * 2 ^ 31) by nia.
    do 2 f_equal. rewrite (wrap64_id ((Z.of_nat i + 1) * step)) by (apply int64_small; lia).
    rewrite wrap64_id by (apply int64_small; lia). lia.
  - apply lookup_ge_None in E. symmetry. apply lookup_ge_None. by rewrite contig_length.
Qed.

Lemma disk_at_lookup lo step values i v :
  0 < step → values !! i = Some v → disk_at lo step values (lo + Z.of_nat i * step) = v.
Proof.
  intros Hstep E. unfold disk_at. replace (lo + Z.of_nat i * step - lo) with (Z.of_nat i * step) by lia.
  rewrite Z.div_mul by lia. by rewrite Nat2Z.id, E.
Qed.

Lemma disk_at_beyond lo step values t :
  0 < step → lo + Z.of_nat (length values) * step <= t → disk_at lo step values t = f64_nan.
Proof.
  intros Hstep Ht. unfold disk_at. rewrite lookup_ge_None_2; [done|].
  assert (Z.of_nat (length values) <= (t - lo) / step) by (apply Z.div_le_lower_bound; lia). lia.
Qed.

Lemma newest_first_reverse l : newest_first l → increasing (reverse l).
Proof.
  unfold newest_first, increasing. induction 1 as [|i l Hl IH Hi]; [constructor|].
  rewrite reverse_cons. apply StronglySorted_app. split_and!; [|done|by repeat constructor].
  intros x y Hx ->%list_elem_of_singleton. rewrite elem_of_reverse in Hx. rewrite Forall_forall in Hi. by apply Hi.
Qed.

Lemma FetchAll_cached st key :
  map_ok st.(GraphItems) →
  ∃ flag, GraphItemMap.FetchAll key st.(GraphItems) = Ret (reverse (cached st key), flag).
Proof.
  intros Hok. unfold GraphItemMap.FetchAll, cached. rewrite Get_view by done. cbn.
  destruct (view _ _) as [sl|]; by eexists.
Qed.

(** What the documentation of rrdtool says of the data of a file that covers
the window at the step of the counter: it starts one step after [start], and has one
value for each step. *)
Definition fetch_ok (res : result (Z * Z * list float64)) (start step : Z) : Prop :=
  match res with
  | Ok (start_ts, step_s, values) => start_ts = start ∧ step_s = step ∧ Z.of_nat (length values) < 2 ^ 28
  | Err _ => True
  end.
Definition fetched (res : result (Z * Z * list float64)) : list float64 :=
  match res with Ok (_, _, values) => values | Err _ => [] end.

Lemma fetch_contig rrd_Fetch filename cf lo end_ step :
  0 < step < 2 ^ 31 → - 2 ^ 59 <= lo <= 2 ^ 59 →
  fetch_ok (rrd_Fetch filename cf (lo - step) end_ step) (lo - step) step →
  let values := fetched (rrd_Fetch filename cf (lo - step) end_ step) in
  (fetch rrd_Fetch filename cf (lo - step) end_ step).1 = contig step (disk_at lo step values) lo (length values) ∧
  Z.of_nat (length values) < 2 ^ 28.
Proof.
  intros Hstep Hlo Hok. unfold fetch, fetched. destruct (rrd_Fetch _ _ _ _ _) as [[[start_ts step_s] values]|]; [|done].
  destruct Hok as (-> & -> & Hlen). split; [|done]. cbn [fst]. apply imap_contig; [done|lia|done|].
  intros i v Hi. apply disk_at_lookup; [lia|done].
Qed.

(** C19. A query of recent data answers one point for each step of its window, in
order: the value of the cached items at that time if they have one, else the
value on disk, and NaN if there is neither.  It does so for some fuel, and for any more:
its loops end. *)
Theorem Query_correct cfg db rrd_Fetch remote st param now uuid item filename :
  let md5 := Md5 (param.(pEndpoint) +:+ "/" +:+ param.(pCounter)) in
  let dsType := item.(GraphItem.DsType) in
  let step := item.(GraphItem.Step) in
  let start := param.(pStart) - param.(pStart) mod step in
  let end_ := param.(pEnd) - param.(pEnd) mod step + step in
  let items := reverse (cached st (FormRrdCacheKey md5 dsType step)) in
  let res := rrd_Fetch filename param.(ConsolFun) (start - step) end_ step in
  let n := param.(pEnd) / step - param.(pStart) / step + (if decide (dsType = GAUGE) then 2 else 1) in
  graph_ok st → cfg.(MigrateEnabled) = false →
  st.(IndexedItemCache) !! md5 = Some (IndexCacheItem.New uuid (Some item)) →
  RrdFileName cfg.(Storage) md5 dsType step = Ret filename →
  0 < step < 2 ^ 31 → 0 <= param.(pStart) → param.(pStart) / step < param.(pEnd) / step → param.(pEnd) <= 2 ^ 56 →
  0 <= now <= 2 ^ 57 → now - now mod step - RRA1PointCnt * step <= start →
  items ≠ [] → Forall (λ i, small i.(GraphItem.Timestamp) ∧ (step | i.(GraphItem.Timestamp))) items →
  fetch_ok res (start - step) step →
  ∃ fuel0, ∀ fuel, (fuel0 <= fuel)%nat →
    Query cfg db rrd_Fetch remote fuel param now st =
      Ret (Some (QueryResponse param.(pEndpoint) param.(pCounter) dsType step
          (contig step (value_at (disk_at start step (fetched res)) (cached_at step dsType items)) start (Z.to_nat n)),
        incr GraphQueryItemCnt n (incr GraphQueryCnt 1 st))).
Proof.
  intros md5 dsType step start end_ items res n Hok Hmig Hidx Hfile Hstep Hstart Hwin Hend Hnow Hrecent Hne Hall Hres.
  assert (items_ok step items) as Hitems by (split; [by apply newest_first_reverse, Hok|exact Hall]).
  destruct (head items) as [first|] eqn:Hf; [|by destruct items].
  destruct (last items) as [lst|] eqn:Hl; [|by apply last_None in Hl].
  exists (S (Nat.max (cache_count step dsType first.(GraphItem.Timestamp) lst.(GraphItem.Timestamp))
    (Z.to_nat (first.(GraphItem.Timestamp) - start)))). intros fuel Hfuel.
  unfold Query, GetTypeAndStep. fold md5. cbn [incr IndexedItemCache]. rewrite Hidx.
  cbn [mbind option_bind IndexCacheItem.Item go_bind]. fold dsType step.
  unfold go_rem. rewrite !decide_False by lia. cbn [mbind go_bind].
  pose proof (Z.div_mod param.(pStart) step) as Ds. pose proof (Z.div_mod param.(pEnd) step) as De.
  pose proof (Z.mod_pos_bound param.(pStart) step) as Bs. pose proof (Z.mod_pos_bound param.(pEnd) step) as Be.
  assert (0 <= param.(pStart) / step) by (apply Z.div_pos; lia).
  assert (0 <= param.(pEnd)) by nia. rewrite !Z.rem_mod_nonneg by lia.
  assert (0 <= start) by lia.
  assert (param.(pStart) <= param.(pEnd)).
  { assert (step * (param.(pStart) / step + 1) <= step * (param.(pEnd) / step)) by (apply Z.mul_le_mono_nonneg_l; lia). lia. }
  rewrite (wrap64_id (param.(pStart) - _)) by (apply int64_small; lia). fold start.
  rewrite (wrap64_id (param.(pEnd) - _)) by (apply int64_small; lia).
  rewrite (wrap64_id (param.(pEnd) - param.(pEnd) mod step + step)) by (apply int64_small; lia). fold end_.
  set (q := param.(pEnd) / step - param.(pStart) / step + 1).
  assert (end_ = start + q * step) as Hend' by (unfold end_, start, q; lia).
  assert (0 <= start <= 2 ^ 57 ∧ 0 <= end_ <= 2 ^ 57) as [Hs57 He57].
  { unfold end_, start. lia. }
  rewrite (wrap64_id (end_ - start)) by (apply int64_small; lia).
  rewrite (wrap64_id (end_ - start - step)) by (apply int64_small; lia).
  destruct (Z.ltb_spec (end_ - start - step) 1) as [Hlt|_]; [exfalso; unfold q in *; nia|].
  rewrite Hfile. cbn [mbind go_bind].
  destruct (FetchAll_cached (incr GraphQueryCnt 1 st) (FormRrdCacheKey md5 dsType step)) as [flag HF]; [apply Hok|].
  rewrite HF. cbn [mbind go_bind]. change (reverse (cached _ _)) with items. rewrite Hmig. cbn [andb].
  rewrite (wrap64_id (start - step)) by (apply int64_small; lia).
  destruct (fetch_contig rrd_Fetch filename param.(ConsolFun) start end_ step Hstep) as [Hfetch Hlen]; [lia|exact Hres|].
  fold res in Hfetch, Hlen.
  rewrite (query_values_spec step Hstep fuel dsType start end_ now items _ (disk_at start step (fetched res))
    (length (fetched res)) q (param.(pStart) / step) first lst Hitems Hf Hl); [| | | | | | | | | | | |].
  - cbn [mbind go_bind]. rewrite contig_length.
    assert ((if decide (dsType = GAUGE) then q + 1 else q) = n) as Eq by (unfold q, n; case_decide; lia). rewrite Eq.
    rewrite Z2Nat.id by (unfold n; case_decide; lia). reflexivity.
  - lia.
  - lia.
  - lia.
  - exact Hend'.
  - unfold q. lia.
  - lia.
  - unfold end_. lia.
  - exact Hnow.
  - exact Hrecent.
  - exact Hfetch.
  - exact Hlen.
  - intros t Ht. apply disk_at_beyond; [lia|exact Ht].
Qed.

Definition ex_uuid : string := GraphItem.UUID (ex_item 0 0).
(** A file with the values 1 and 2 from one step after the start on. *)
Definition ex_fetch (filename cf : string) (start end_ step : Z) : result (Z * Z * list float64) :=
  Ok (start, step, [f64_of_Z 1; f64_of_Z 2]).

Example Query_correct_witness :
  ∃ st fuel st', Query ex_cfg ex_db ex_fetch (λ _, []) fuel (QueryParam 600 800 "AVERAGE" "host" "cpu" 0) 1000 st =
    Ret (Some (QueryResponse "host" "cpu" "GAUGE" 60
      [point 600 (f64_of_Z 1); point 660 (f64_of_Z 5); point 720 f64_nan; point 780 (f64_of_Z 6); point 840 f64_nan], st')).
Proof.
  set (md5 := Md5 "host/cpu"). set (key := FormRrdCacheKey md5 "GAUGE" 60).
  pose proof (graph_initial_ok ∅) as Hok0.
  destruct (Set_view key (SafeLinkedList.mk 0 [ex_item 6 780; ex_item 5 660]) (initial ∅).(GraphItems) (ok_map _ Hok0))
    as (M & _ & Hu).
  set (st := with_Indexed {[md5 := IndexCacheItem.New ex_uuid (Some (ex_item 5 660))]} (with_GraphItems M (initial ∅))).
  assert (cached st key = [ex_item 6 780; ex_item 5 660]) as Hc.
  { etransitivity; [apply (updated_cached _ _ _ _ key Hu)|]. rewrite decide_True by reflexivity. reflexivity. }
  assert (graph_ok st) as Hok.
  { assert (graph_ok (with_GraphItems M (initial ∅))) as Hok1.
    { eapply graph_ok_with_GraphItems; [exact Hok0|exact Hu|]. split; [repeat constructor|].
      repeat (apply Forall_cons; split); [vm_compute; reflexivity..|constructor]. }
    destruct Hok1. split; try assumption. apply map_Forall_singleton. exists (ex_item 5 660). split; [reflexivity|vm_compute; reflexivity]. }
  destruct (Query_correct ex_cfg ex_db ex_fetch (λ _, []) st (QueryParam 600 800 "AVERAGE" "host" "cpu" 0) 1000 ex_uuid
    (ex_item 5 660) "/rrd/5a/5ad174db41e48f67360176ea9a30bbdc_GAUGE_60.rrd") as [fuel0 HQ].
  - exact Hok.
  - reflexivity.
  - apply lookup_singleton_eq.
  - vm_compute. reflexivity.
  - split; reflexivity.
  - discriminate.
  - reflexivity.
  - discriminate.
  - split; discriminate.
  - vm_compute. discriminate.
  - intros E. apply (f_equal reverse) in E. rewrite reverse_involutive in E.
    pose proof (eq_trans (eq_sym Hc) E). discriminate.
  - change (reverse _) with (reverse (cached st key)). rewrite Hc. repeat constructor; try discriminate; [by exists 11|by exists 13].
  - split_and!; reflexivity.
  - exists st, fuel0. eexists. etransitivity; [apply HQ; reflexivity|]. do 3 f_equal. clear HQ.
    change (reverse _) with (reverse (cached st key)). rewrite Hc. vm_compute. reflexivity.
Defined.

(** After a missing item the cached rates of a counter are lost: when the
second cached item is not one step after the first, every cached rate is
answered as NaN, however regular the items that follow. *)
Theorem rate_cache_after_gap step lo hi last i0 i1 rest fuel :
  0 < step < 2 ^ 31 → small last → Forall (λ i, small i.(GraphItem.Timestamp)) (i0 :: i1 :: rest) →
  i1.(GraphItem.Timestamp) ≠ i0.(GraphItem.Timestamp) + step →
  (upto step i0.(GraphItem.Timestamp) (last - 1) < fuel)%nat →
  ∃ ps, rate_cache fuel step lo hi last i0.(GraphItem.Timestamp) (i0 :: i1 :: rest) = Some ps ∧
    Forall (λ p, p.(RRDData.Value) = f64_nan) ps.
Proof.
  intros Hstep Hlast Hall Hgap Hfuel. pose proof Hall as [H0 _]%Forall_cons.
  rewrite (rate_cache_spec step Hstep lo hi (i0 :: i1 :: rest) last); [|by intros i [= <-]|done..].
  eexists. split; [done|]. apply Forall_forall. intros p [_ Hp]%list_elem_of_filter. revert p Hp. apply Forall_forall.
  rewrite (contig_ext step Hstep (rate_at step (i0 :: i1 :: rest)) (λ _, f64_nan)).
  - generalize (upto step i0.(GraphItem.Timestamp) (last - 1)) as n. generalize i0.(GraphItem.Timestamp) as a.
    intros a n. revert a. induction n as [|n IH]; intros a; cbn; constructor; [done|apply IH].
  - intros t _. cbn [rate_at]. by rewrite decide_False.
Qed.

Example rate_cache_after_gap_witness :
  ∃ ps, rate_cache 10 60 0 600 360 60 [ex_item 1 60; ex_item 2 180; ex_item 4 240; ex_item 5 300; ex_item 6 360] = Some ps ∧
    Forall (λ p, p.(RRDData.Value) = f64_nan) ps ∧ length ps = 5%nat.
Proof.
  destruct (rate_cache_after_gap 60 0 600 360 (ex_item 1 60) (ex_item 2 180) [ex_item 4 240; ex_item 5 300; ex_item 6 360] 10)
    as (ps & E & Hps).
  - split; reflexivity.
  - split; discriminate.
  - repeat (apply Forall_cons; split); [split; discriminate..|constructor].
  - discriminate.
  - vm_compute. lia.
  - exists ps. split; [exact E|]. split; [exact Hps|]. vm_compute in E. injection E as <-. reflexivity.
Defined.
