(* ===== verification/GraphFlush.v ===== *)
(** * Graph: writing to disk and migrating

modules/graph/rrdtool (rrdtool.go, sync_disk.go, migrate.go) and [GetRrd] of
modules/graph/api/graph.go: when and how the cached items of a key go to its
file, and how they move between the nodes of a cluster that grows.

The files and the other nodes are external: [io_log] records what is asked of
the file system, the answers are arguments. *)

From stdpp Require Import functions.
From S2P Require Import Prelude GoFloat GoString Hash Tags Model Containers GraphStore GraphApi GraphSafety.
From Stdlib Require Import Ascii.
From stdpp Require Import options.

(** ** State *)

(** What a point of an update is: an integer for a counter, else a float. *)
Inductive rrd_value : Set := RrdInt (n : Z) | RrdFloat (f : float64).

Inductive io : Type :=
| InsureDir (filename : string)
| CreateRrd (filename : string) (first : GraphItem.t)
| UpdateRrd (filename : string) (points : list (Z * rrd_value))
| ReadRrd (filename : string)
| WriteFile (filename : string) (body : string).

(** The counters [stat_cnt] of migrate.go. *)
Inductive net_stat : Set :=
| FETCH_S_SUCCESS | FETCH_S_ERR | FETCH_S_ISNOTEXIST | SEND_S_SUCCESS | SEND_S_ERR
| QUERY_S_SUCCESS | QUERY_S_ERR | CONN_S_ERR | CONN_S_DIAL.
#[export] Instance net_stat_eq_dec : EqDecision net_stat.
Proof. solve_decision. Defined.

Record node_state : Type := NodeState {
  graph : state;
  io_log : list io;
  disk_counter : Z;
  net_counter : Z;
  stat_cnt : net_stat → Z;
  flushrrd_timeout : bool }.

Definition with_graph x ns := NodeState x ns.(io_log) ns.(disk_counter) ns.(net_counter) ns.(stat_cnt) ns.(flushrrd_timeout).
Definition log_io q ns := NodeState ns.(graph) (q :: ns.(io_log)) ns.(disk_counter) ns.(net_counter) ns.(stat_cnt)
  ns.(flushrrd_timeout).
Definition add_disk_counter ns := NodeState ns.(graph) ns.(io_log) ((ns.(disk_counter) + 1) mod 2 ^ 64) ns.(net_counter)
  ns.(stat_cnt) ns.(flushrrd_timeout).
Definition add_net_counter ns := NodeState ns.(graph) ns.(io_log) ns.(disk_counter) ((ns.(net_counter) + 1) mod 2 ^ 64)
  ns.(stat_cnt) ns.(flushrrd_timeout).
Definition add_stat (s : net_stat) (n : Z) ns := NodeState ns.(graph) ns.(io_log) ns.(disk_counter) ns.(net_counter)
  (<[s := (ns.(stat_cnt) s + n) mod 2 ^ 64]> ns.(stat_cnt)) ns.(flushrrd_timeout).
Definition set_timeout b ns := NodeState ns.(graph) ns.(io_log) ns.(disk_counter) ns.(net_counter) ns.(stat_cnt) b.

(** Answers of the file system. *)
Definition disk := io → result unit.

(** An operation on the cache of a node. *)
Definition on_items {A} (op : GraphItemMap.t → go (A * GraphItemMap.t)) (ns : node_state) : go (A * node_state) :=
  r ← op ns.(graph).(GraphItems);
  Ret (r.1, with_graph (with_GraphItems r.2 ns.(graph)) ns).

Section flush.
Context (cfg : config) (answer : disk).

Definition run_io (q : io) (ns : node_state) : result unit * node_state := (answer q, log_io q ns).

(** ** rrdtool.go *)

Definition f64_1e300 : float64 := f64_of_decimal false 1 300.
Definition f64_1em300 : float64 := f64_of_decimal false 1 (-300).

(** The point of an item, unless its magnitude is out of the range of rrdtool. *)
Definition update_point (item : GraphItem.t) : option (Z * rrd_value) :=
  let v := f64_abs item.(GraphItem.Value) in
  if f64_lt f64_1e300 v || (f64_lt v f64_1em300 && f64_lt f64_zero v) then None
  else if decide (item.(GraphItem.DsType) = DERIVE ∨ item.(GraphItem.DsType) = COUNTER)
  then Some (item.(GraphItem.Timestamp), RrdInt (f64_to_int64 item.(GraphItem.Value)))
  else Some (item.(GraphItem.Timestamp), RrdFloat item.(GraphItem.Value)).

(** Without a point the file is left alone. *)
Definition update (filename : string) (items : list GraphItem.t) (ns : node_state) : result unit * node_state :=
  let points := omap update_point items in
  let '(err, ns) := run_io (UpdateRrd filename points) ns in
  (match points with [] => Ok tt | _ => err end, ns).

Definition flushrrd (filename : string) (items : list GraphItem.t) (ns : node_state) : result unit * node_state :=
  match items with
  | [] => (Err "empty items", ns)
  | first :: _ =>
      if decide (filename ∈ ns.(graph).(files)) then update filename items ns
      else
        match run_io (InsureDir filename) ns with
        | (Err e, ns) => (Err e, ns)
        | (Ok _, ns) =>
            match run_io (CreateRrd filename first) ns with
            | (Err e, ns) => (Err e, ns)
            | (Ok _, ns) =>
                update filename items
                  (with_graph (with_files ({[filename]} ∪ ns.(graph).(files)) ns.(graph)) ns)
            end
        end
  end.

(** [FlushFile]: the [ioWorker] runs [flushrrd] and answers its error. *)
Definition FlushFile (filename : string) (items : list GraphItem.t) (ns : node_state) : result unit * node_state :=
  flushrrd filename items (add_disk_counter ns).

Definition CommitByKey (key : string) (ns : node_state) : go node_state :=
  match SplitRrdCacheKey key with
  | Err _ => Ret ns
  | Ok (md5, dsType, step) =>
      filename ← RrdFileName cfg.(Storage) md5 dsType step;
      r ← on_items (GraphItemMap.PopAll key) ns;
      let '(items, ns) := r : list GraphItem.t * node_state in
      if decide (length items = 0%nat) then Ret ns
      else Ret (FlushFile filename items ns).2
  end.

Definition shouldFlush (key : string) (now : Z) (ns : node_state) : go bool :=
  cnt ← GraphItemMap.ItemCnt key ns.(graph).(GraphItems);
  if FLUSH_MIN_COUNT <=? cnt then Ret true
  else
    let deadline := now -₆₄ FLUSH_MAX_WAIT in
    back ← GraphItemMap.Back key ns.(graph).(GraphItems);
    Ret (match back : option GraphItem.t with
      | Some back => back.(GraphItem.Timestamp) <=? deadline
      | None => false end).

(** [PullByKey]: the task it gives to a net worker, if any; [node_of] is the
ring of the nodes of the old cluster. *)
Definition PullByKey (node_of : string → result string) (key : string) (ns : node_state) :
    go (option (string * string)) :=
  item ← GraphItemMap.First key ns.(graph).(GraphItems);
  Ret (match item : option GraphItem.t with
    | None => None
    | Some item => match node_of (GraphItem.PrimaryKey item) with Err _ => None | Ok node => Some (node, key) end
    end).

(** One key of [FlushRRD]; [late] tells whether the turn has lasted too long. *)
Definition flush_key (node_of : string → result string) (late : string → bool) (force : bool) (now : Z)
    (acc : list (string * string) * node_state) (key : string) : go (list (string * string) * node_state) :=
  let '(pulls, ns) := acc in
  f ← GraphItemMap.GetFlag key ns.(graph).(GraphItems);
  let flag := match f : result Z with Ok flag => flag | Err _ => 0 end in
  if negb force && cfg.(MigrateEnabled) && negb (Z.land flag GRAPH_F_MISS =? 0) then
    let ns := if late key then set_timeout true ns else ns in
    p ← PullByKey node_of key ns;
    Ret (pulls ++ option_list p, ns)
  else
    due ← (if force then Ret true else shouldFlush key now ns);
    if due : bool then ns ← CommitByKey key ns; Ret (pulls, ns) else Ret acc.

(** [FlushRRD]: the tasks it gives to the net workers and the new state. *)
Definition FlushRRD (node_of : string → result string) (late : string → bool) (idx : Z) (force : bool) (now : Z)
    (ns : node_state) : go (list (string * string) * node_state) :=
  let ns := set_timeout false ns in
  keys ← GraphItemMap.KeysByIndex idx ns.(graph).(GraphItems);
  go_foldl (flush_key node_of late force now) ([], ns) keys.

(** [FlushAll]; its progress report divides by a tenth of the size. *)
Definition FlushAll (node_of : string → result string) (late : string → bool) (force : bool) (now : Z) (ns : node_state) :
    go (list (string * string) * node_state) :=
  let n := ns.(graph).(GraphItems).(GraphItemMap.Size) `quot` 10 in
  go_foldl (λ acc i,
    r ← FlushRRD node_of late i force now (acc : list (string * string) * node_state).2;
    _ ← go_rem i n;
    Ret (acc.1 ++ (r : list (string * string) * node_state).1, r.2))
    ([], ns) (seqZ 0 ns.(graph).(GraphItems).(GraphItemMap.Size)).

(** One tick of [syncDisk], with its index. *)
Definition syncDisk_tick (node_of : string → result string) (late : string → bool) (now : Z) (idx : Z) (ns : node_state) :
    go (Z * list (string * string) * node_state) :=
  idx ← go_rem idx ns.(graph).(GraphItems).(GraphItemMap.Size);
  r ← FlushRRD node_of late idx false now ns;
  Ret (idx +₆₄ 1, (r : list (string * string) * node_state).1, r.2).

(** The write task of [ioWorker]: it goes on to the file when the directory
could not be made, and answers the first error. *)
Definition io_write (filename body : string) (ns : node_state) : result unit * node_state :=
  let '(dir, ns) := run_io (InsureDir filename) ns in
  let '(file, ns) := run_io (WriteFile filename body) ns in
  let ns := match file with
    | Ok _ => with_graph (with_files ({[filename]} ∪ ns.(graph).(files)) ns.(graph)) ns
    | Err _ => ns
    end in
  (match dir with Err e => Err e | Ok _ => file end, ns).

(** [GetRrd] (api/graph.go): the name of the file and its content. *)
Definition GetRrd (read : string → result string) (key : string) (ns : node_state) :
    go (result (string * string) * node_state) :=
  match SplitRrdCacheKey key with
  | Err e => Ret (Err e, ns)
  | Ok (md5, dsType, step) =>
      filename ← RrdFileName cfg.(Storage) md5 dsType step;
      r ← on_items (GraphItemMap.PopAll key) ns;
      let '(items, ns) := r : list GraphItem.t * node_state in
      let ns := if (0 <? Z.of_nat (length items)) then (FlushFile filename items ns).2 else ns in
      let ns := log_io (ReadRrd filename) ns in
      Ret (body ← read filename; Ok (filename, body), ns)
  end.

(** ** migrate.go *)

(** The outcome of a remote call, and how many times the node had to be
dialled if the connection was shut down. *)
Inductive call {A : Type} : Type :=
| Done (a : A)
| Failed (e : error)
| Shutdown (e : error) (dials : Z).
Arguments call : clear implicits.

Definition reconnection (dials : Z) (ns : node_state) : node_state :=
  add_stat CONN_S_DIAL dials (add_stat CONN_S_ERR 1 ns).

(** Up to [n] attempts of a remote call; [calls] gives their outcomes. *)
Fixpoint attempts {A} (n : nat) (calls : list (call A)) (err : error) (ns : node_state) : result A * node_state :=
  match n, calls with
  | S n, Done a :: _ => (Ok a, ns)
  | S n, Failed e :: calls => attempts n calls e ns
  | S n, Shutdown e dials :: calls => attempts n calls e (reconnection dials ns)
  | _, _ => (Err err, ns)
  end.

(** [send_data] up to the remote call: the flag it found, and the items. *)
Definition send_begin (key : string) (ns : node_state) : go (result (Z * list GraphItem.t) * node_state) :=
  f ← GraphItemMap.GetFlag key ns.(graph).(GraphItems);
  match f : result Z with
  | Err e => Ret (Err e, ns)
  | Ok flag =>
      r ← on_items (GraphItemMap.SetFlag key (Z.lor flag GRAPH_F_SENDING)) ns;
      r ← on_items (GraphItemMap.PopAll key) (r : result unit * node_state).2;
      Ret (Ok (flag, (r : list GraphItem.t * node_state).1), r.2)
  end.

(** The rest of [send_data], when the call has ended with [res]. *)
Definition send_end (key : string) (flag : Z) (items : list GraphItem.t) (res : result unit) (ns : node_state) :
    go (result unit * node_state) :=
  ns ← (match res with
    | Ok _ => Ret ns
    | Err _ => r ← on_items (GraphItemMap.PushAll key items) ns; Ret (r : result unit * node_state).2
    end);
  r ← on_items (GraphItemMap.SetFlag key (Z.ldiff flag GRAPH_F_SENDING)) ns;
  Ret (res, (r : result unit * node_state).2).

(** [send_data]; [during] is what happens to the node meanwhile. *)
Definition send_data (key : string) (calls : list (call unit)) (during : node_state → go node_state)
    (ns : node_state) : go (result unit * node_state) :=
  r ← send_begin key ns;
  match r : result (Z * list GraphItem.t) * node_state with
  | (Err e, ns) => Ret (Err e, ns)
  | (Ok (flag, items), ns) =>
      if decide (length items = 0%nat) then send_end key flag [] (Ok tt) ns
      else
        ns ← during ns;
        let '(res, ns) := attempts 3 calls "" ns in
        send_end key flag items res ns
  end.

(** [fetch_rrd]: the file of a key comes from the node that has it. *)
Definition fetch_rrd (key : string) (calls : list (call string)) (ns : node_state) : go (result unit * node_state) :=
  f ← GraphItemMap.GetFlag key ns.(graph).(GraphItems);
  match f : result Z with
  | Err e => Ret (Err e, ns)
  | Ok flag =>
      r ← on_items (GraphItemMap.SetFlag key (Z.lor flag GRAPH_F_FETCHING)) ns;
      let ns := (r : result unit * node_state).2 in
      let '(md5, dsType, step) := match SplitRrdCacheKey key with Ok p => p | Err _ => ("", "", 0) end in
      filename ← RrdFileName cfg.(Storage) md5 dsType step;
      let '(body, ns) := attempts 3 calls "" ns in
      let '(res, flag, ns) :=
        match body with
        | Err e => (Err e, flag, ns)
        | Ok body =>
            match io_write filename body ns with
            | (Err e, ns) => (Err e, flag, ns)
            | (Ok _, ns) => (Ok tt, Z.ldiff flag GRAPH_F_MISS, ns)
            end
        end in
      r ← on_items (GraphItemMap.SetFlag key (Z.ldiff flag GRAPH_F_FETCHING)) ns;
      Ret (res, (r : result unit * node_state).2)
  end.

Definition net_send (key : string) (calls : list (call unit)) (during : node_state → go node_state) (ns : node_state) :
    go (result unit * node_state) :=
  r ← send_data key calls during ns;
  Ret (r.1, add_stat (if is_ok (r : result unit * node_state).1 then SEND_S_SUCCESS else SEND_S_ERR) 1 r.2).

(** [query_data] and the query task of [net_task_worker]. *)
Definition net_query {A} (calls : list (call A)) (ns : node_state) : result A * node_state :=
  let '(res, ns) := attempts 3 calls "" ns in
  (res, add_stat (if is_ok res then QUERY_S_SUCCESS else QUERY_S_ERR) 1 ns).

(** The pull task of [net_task_worker]; [not_exist] is [os.IsNotExist]. *)
Definition net_pull (not_exist : error → bool) (key : string) (sends : list (call unit)) (gets : list (call string))
    (during : node_state → go node_state) (ns : node_state) : go (result unit * node_state) :=
  if ns.(flushrrd_timeout) then net_send key sends during ns
  else
    r ← fetch_rrd key gets ns;
    match r : result unit * node_state with
    | (Ok _, ns) => Ret (Ok tt, add_stat FETCH_S_SUCCESS 1 ns)
    | (Err e, ns) =>
        if not_exist e then
          r ← on_items (GraphItemMap.SetFlag key 0) (add_stat FETCH_S_ISNOTEXIST 1 ns);
          ns ← CommitByKey key (r : result unit * node_state).2;
          Ret (Err e, ns)
        else Ret (Err e, add_stat FETCH_S_ERR 1 ns)
    end.

(** What [PullByKey] does when its task is done. *)
Definition pull_done (res : result unit) (ns : node_state) : node_state :=
  match res with Ok _ => add_net_counter ns | Err _ => ns end.

(** The ring of [migrate_start]: the nodes of the old cluster, in order. *)
Definition migrate_ring (replicas : Z) (cluster : gmap string string) : go Consistent.t :=
  NewConsistentHashNodesRing replicas (KeysOfMap cluster).
End flush.

(** ** Lemmas: the cache *)

Lemma on_items_spec {A} (op : GraphItemMap.t → go (A * GraphItemMap.t)) ns a M' key o :
  op ns.(graph).(GraphItems) = Ret (a, M') → updated ns.(graph).(GraphItems) M' key o →
  graph_ok ns.(graph) → list_ok key (match o with Some sl => sl.(SafeLinkedList.L) | None => [] end) →
  let ns' := with_graph (with_GraphItems M' ns.(graph)) ns in
  on_items op ns = Ret (a, ns') ∧ graph_ok ns'.(graph) ∧
  (∀ k, cached ns'.(graph) k =
    if decide (k = key) then match o with Some sl => sl.(SafeLinkedList.L) | None => [] end else cached ns.(graph) k) ∧
  (∀ k, view ns'.(graph).(GraphItems) k = if decide (k = key) then o else view ns.(graph).(GraphItems) k) ∧
  ns'.(graph).(GraphItems).(GraphItemMap.Size) = ns.(graph).(GraphItems).(GraphItemMap.Size).
Proof.
  intros E Hu Hok Hl ns'. unfold on_items. rewrite E. split; [done|]. split; [by eapply graph_ok_with_GraphItems|].
  split; [intros k; by apply (updated_cached _ _ key)|]. destruct Hu as (_ & Hs & Hv). by split.
Qed.

Lemma cached_view st key : cached st key = match view st.(GraphItems) key with Some sl => sl.(SafeLinkedList.L) | None => [] end.
Proof. done. Qed.

(** Popping all the items of a key. *)
Lemma pop_spec key ns :
  graph_ok ns.(graph) →
  ∃ ns', on_items (GraphItemMap.PopAll key) ns = Ret (reverse (cached ns.(graph) key), ns') ∧
    graph_ok ns'.(graph) ∧
    (∀ k, cached ns'.(graph) k = if decide (k = key) then [] else cached ns.(graph) k) ∧
    (∀ k, view ns'.(graph).(GraphItems) k =
      if decide (k = key) then SafeLinkedList.set_L [] <$> view ns.(graph).(GraphItems) key else view ns.(graph).(GraphItems) k) ∧
    ns'.(graph).(GraphItems).(GraphItemMap.Size) = ns.(graph).(GraphItems).(GraphItemMap.Size) ∧
    ns' = with_graph (with_GraphItems ns'.(graph).(GraphItems) ns.(graph)) ns.
Proof.
  intros Hok. destruct (PopAll_view key ns.(graph).(GraphItems) (ok_map _ Hok)) as (M' & E & Hu).
  destruct (on_items_spec _ _ _ _ _ _ E Hu Hok) as (E' & Hok' & Hc & Hv & Hs).
  { destruct (view _ _); by split; constructor. }
  eexists. split; [|split; [exact Hok'|split; [|split; [exact Hv|split; [exact Hs|done]]]]].
  - rewrite E', cached_view. destruct (view _ _); done.
  - intros k. rewrite Hc. case_decide; [|done]. by destruct (view _ _).
Qed.

(** Changing the flag of a key. *)
Lemma set_flag_spec key flag ns :
  graph_ok ns.(graph) →
  ∃ r ns', on_items (GraphItemMap.SetFlag key flag) ns = Ret (r, ns') ∧ graph_ok ns'.(graph) ∧
    (∀ k, cached ns'.(graph) k = cached ns.(graph) k) ∧
    (∀ k, view ns'.(graph).(GraphItems) k =
      if decide (k = key) then SafeLinkedList.set_Flag flag <$> view ns.(graph).(GraphItems) key else view ns.(graph).(GraphItems) k) ∧
    ns' = with_graph (with_GraphItems ns'.(graph).(GraphItems) ns.(graph)) ns.
Proof.
  intros Hok. destruct (SetFlag_view key flag ns.(graph).(GraphItems) (ok_map _ Hok)) as (r & M' & E & _ & Hu).
  pose proof (ok_lists _ Hok key) as Hl. rewrite cached_view in Hl.
  destruct (on_items_spec _ _ _ _ _ _ E Hu Hok) as (E' & Hok' & Hc & Hv & _).
  { by destruct (view _ _). }
  eexists r, _. split; [exact E'|]. split; [exact Hok'|]. split; [|split; [exact Hv|done]].
  intros k. rewrite Hc. case_decide; [|done]. subst. rewrite cached_view. by destruct (view _ _).
Qed.

(** ** Lemmas: flushing *)

Section commit.
Context (cfg : config) (answer : disk).

(** The name of the file of a key. *)
Definition file_of (key : string) : go string :=
  match SplitRrdCacheKey key with
  | Ok (md5, dsType, step) => RrdFileName cfg.(Storage) md5 dsType step
  | Err _ => Panic SliceBounds
  end.

Definition keyed (key : string) : Prop := returns (file_of key).

Lemma keyed_item item :
  lacks "_" item.(GraphItem.DsType) → - 2 ^ 31 <= item.(GraphItem.Step) < 2 ^ 31 → keyed (item_key item).
Proof.
  intros Hd Hs. unfold keyed, file_of, item_key.
  rewrite Split_Form; [|by apply Md5_lacks|done|done]. apply Checksum_returns.
Qed.

(** What a flush of items, oldest first, asks of the file system, the latest first. *)
Definition flush_log (f : string) (items : list GraphItem.t) (exists_ : bool) : list io :=
  UpdateRrd f (omap update_point items) ::
    match items with
    | first :: _ => if exists_ then [] else [CreateRrd f first; InsureDir f]
    | [] => []
    end.

Lemma flushrrd_spec f items ns :
  items ≠ [] →
  let '(r, ns') := flushrrd answer f items ns in
  (∃ fs, ns'.(graph) = with_files fs ns.(graph)) ∧ (∃ log, ns'.(io_log) = log ++ ns.(io_log)) ∧
  ((∀ q, is_ok (answer q) = true) →
    is_ok r = true ∧ f ∈ ns'.(graph).(files) ∧
    ns'.(io_log) = flush_log f items (bool_decide (f ∈ ns.(graph).(files))) ++ ns.(io_log)).
Proof.
  intros Hne. destruct items as [|first items]; [done|]. unfold flushrrd.
  assert (∀ ns : node_state, ∃ fs, ns.(graph) = with_files fs ns.(graph)) as Hrefl.
  { intros ns0. exists ns0.(graph).(files). by destruct ns0 as [[]]. }
  case_decide as Hf; unfold update, run_io.
  - split; [apply (Hrefl ns)|]. split; [by eexists [_]|]. intros Hall. rewrite bool_decide_eq_true_2 by done.
    split; [by destruct (omap _ _)|done].
  - rewrite bool_decide_eq_false_2 by done.
    destruct (answer (InsureDir f)) as [[]|] eqn:E1.
    2: { split; [apply (Hrefl ns)|]. split; [by eexists [_]|]. intros Hall. specialize (Hall (InsureDir f)). by rewrite E1 in Hall. }
    destruct (answer (CreateRrd f first)) as [[]|] eqn:E2.
    2: { split; [apply (Hrefl ns)|]. split; [by eexists [_; _]|]. intros Hall. specialize (Hall (CreateRrd f first)). by rewrite E2 in Hall. }
    split; [by eexists|]. split; [by eexists [_; _; _]|]. intros Hall. split; [by destruct (omap _ _)|]. split; [|done].
    cbn. apply elem_of_union_l. by apply elem_of_singleton.
Qed.

Lemma with_files_ok fs st : graph_ok st → graph_ok (with_files fs st).
Proof. by intros []. Qed.

Lemma commit_spec key ns :
  graph_ok ns.(graph) → keyed key →
  ∃ ns' f, CommitByKey cfg answer key ns = Ret ns' ∧ file_of key = Ret f ∧ graph_ok ns'.(graph) ∧
    (∀ k, cached ns'.(graph) k = if decide (k = key) then [] else cached ns.(graph) k) ∧
    (∀ k, is_Some (view ns'.(graph).(GraphItems) k) ↔ is_Some (view ns.(graph).(GraphItems) k)) ∧
    ns'.(graph).(GraphItems).(GraphItemMap.Size) = ns.(graph).(GraphItems).(GraphItemMap.Size) ∧
    (∃ log, ns'.(io_log) = log ++ ns.(io_log)) ∧
    (cached ns.(graph) key ≠ [] → (∀ q, is_ok (answer q) = true) →
      f ∈ ns'.(graph).(files) ∧
      ns'.(io_log) = flush_log f (reverse (cached ns.(graph) key)) (bool_decide (f ∈ ns.(graph).(files))) ++ ns.(io_log)).
Proof.
  intros Hok [f Hf]. unfold CommitByKey. pose proof Hf as Hf'. unfold file_of in Hf'.
  destruct (SplitRrdCacheKey key) as [[[md5 dsType] step]|]; [|done]. rewrite Hf'. cbn [mbind go_bind].
  destruct (pop_spec key ns Hok) as (ns1 & -> & Hok1 & Hc1 & Hv1 & Hs1 & E1). cbn [mbind go_bind].
  assert (∀ k, is_Some (view ns1.(graph).(GraphItems) k) ↔ is_Some (view ns.(graph).(GraphItems) k)) as Hv.
  { intros k. rewrite Hv1. case_decide; [|done]. subst. by rewrite fmap_is_Some. }
  assert (ns1.(io_log) = ns.(io_log) ∧ ns1.(graph).(files) = ns.(graph).(files)) as [Elog Efiles] by (by rewrite E1).
  rewrite length_reverse. case_decide as Hl.
  { exists ns1, f. split_and!; try done; [by exists []|]. intros Hne. by destruct (cached _ _). }
  unfold FlushFile.
  pose proof (flushrrd_spec f (reverse (cached ns.(graph) key)) (add_disk_counter ns1)) as Hflush.
  destruct (flushrrd answer f _ _) as [r ns2]. destruct Hflush as ((fs & Hg) & (log & Hlog) & Hall).
  { intros E. by rewrite <- length_reverse, E in Hl. }
  exists ns2, f. cbn [snd]. cbn in Hg, Hlog, Hall. rewrite Elog in Hlog, Hall. rewrite Efiles in Hall. rewrite Hg.
  split; [done|]. split; [done|]. split; [by apply with_files_ok|]. split; [done|]. split; [done|]. split; [done|].
  split; [by exists log|]. intros _ Hans. destruct (Hall Hans) as (_ & Hin & ->). by rewrite Hg in Hin.
Qed.

(** Is a list of cached items due? *)
Definition due (force : bool) (now : Z) (l : list GraphItem.t) : bool :=
  force || (FLUSH_MIN_COUNT <=? Z.of_nat (length l)) ||
  match last l with Some back => back.(GraphItem.Timestamp) <=? now -₆₄ FLUSH_MAX_WAIT | None => false end.

Lemma shouldFlush_spec key now ns :
  graph_ok ns.(graph) → shouldFlush key now ns = Ret (due false now (cached ns.(graph) key)).
Proof.
  intros Hok. unfold shouldFlush, GraphItemMap.ItemCnt, GraphItemMap.Back, due, cached.
  rewrite Get_view by apply Hok. cbn.
  destruct (view _ _) as [sl|]; cbn; [|done]. by destruct (FLUSH_MIN_COUNT <=? _).
Qed.

Lemma flush_key_spec node_of late force now pulls ns key :
  graph_ok ns.(graph) → keyed key → force = true ∨ cfg.(MigrateEnabled) = false →
  let d := due force now (cached ns.(graph) key) in
  ∃ ns', flush_key cfg answer node_of late force now (pulls, ns) key = Ret (pulls, ns') ∧ graph_ok ns'.(graph) ∧
    (∀ k, cached ns'.(graph) k = if decide (k = key ∧ d = true) then [] else cached ns.(graph) k) ∧
    ns'.(graph).(GraphItems).(GraphItemMap.Size) = ns.(graph).(GraphItems).(GraphItemMap.Size) ∧
    (∃ log, ns'.(io_log) = log ++ ns.(io_log)) ∧
    (d = true → cached ns.(graph) key ≠ [] → (∀ q, is_ok (answer q) = true) →
      ∃ f, file_of key = Ret f ∧
        UpdateRrd f (omap update_point (reverse (cached ns.(graph) key))) ∈ ns'.(io_log)).
Proof.
  intros Hok Hkey Hmode d. unfold flush_key, GraphItemMap.GetFlag.
  rewrite Get_view by apply Hok. cbn [mbind go_bind].
  assert (negb force && MigrateEnabled cfg = false) as -> by (destruct Hmode as [->| ->]; [done|by rewrite andb_false_r]).
  cbn [andb]. assert ((if force then Ret true else shouldFlush key now ns) = Ret d) as ->.
  { destruct force; [done|]. by apply shouldFlush_spec. }
  cbn [mbind go_bind]. destruct d.
  - destruct (commit_spec key ns Hok Hkey) as (ns' & f & -> & Hf & Hok' & Hc & _ & Hs & Hlog & Hall). cbn [mbind go_bind].
    exists ns'. split; [done|]. split; [done|]. split.
    { intros k. rewrite Hc. destruct (decide (k = key)); [by rewrite decide_True|]. rewrite decide_False; [done|]. by intros []. }
    split; [done|]. split; [done|]. intros _ Hne Hans. exists f. split; [done|].
    destruct (Hall Hne Hans) as [_ ->]. by left.
  - exists ns. split; [done|]. split; [done|]. split; [intros k; by rewrite decide_False by (by intros [])|].
    split; [done|]. split; [by exists []|done].
Qed.

Lemma flush_keys_spec node_of late force now keys pulls ns :
  graph_ok ns.(graph) → NoDup keys → Forall keyed keys → force = true ∨ cfg.(MigrateEnabled) = false →
  ∃ ns', go_foldl (flush_key cfg answer node_of late force now) (pulls, ns) keys = Ret (pulls, ns') ∧ graph_ok ns'.(graph) ∧
    (∀ k, cached ns'.(graph) k =
      if decide (k ∈ keys ∧ due force now (cached ns.(graph) k) = true) then [] else cached ns.(graph) k) ∧
    (∃ log, ns'.(io_log) = log ++ ns.(io_log)) ∧
    (∀ k, k ∈ keys → due force now (cached ns.(graph) k) = true → cached ns.(graph) k ≠ [] →
      (∀ q, is_ok (answer q) = true) →
      ∃ f, file_of k = Ret f ∧ UpdateRrd f (omap update_point (reverse (cached ns.(graph) k))) ∈ ns'.(io_log)).
Proof.
  intros Hok Hnd Hall Hmode. revert ns Hok. induction Hnd as [|key keys Hkey Hnd IH]; intros ns Hok.
  { exists ns. split; [done|]. split; [done|]. split; [|split; [by exists []|]].
    - intros k. rewrite decide_False; [done|]. by intros [?%elem_of_nil _].
    - by intros k ?%elem_of_nil. }
  apply Forall_cons in Hall as [Hk Hall].
  destruct (flush_key_spec node_of late force now pulls ns key Hok Hk Hmode) as (ns1 & E & Hok1 & Hc1 & _ & (log1 & Hlog1) & Hup1).
  cbn [go_foldl]. rewrite E. cbn [mbind go_bind].
  destruct (IH Hall ns1 Hok1) as (ns2 & -> & Hok2 & Hc2 & (log2 & Hlog2) & Hup2).
  assert (∀ k, k ∈ keys → cached ns1.(graph) k = cached ns.(graph) k) as Hsame.
  { intros k Hin. rewrite Hc1. rewrite decide_False; [done|]. by intros [-> _]. }
  exists ns2. split; [done|]. split; [done|]. split; [|split].
  - intros k. rewrite Hc2. destruct (decide (k ∈ keys)) as [Hin|Hout].
    + rewrite Hsame by done. apply decide_ext. rewrite elem_of_cons. naive_solver.
    + rewrite (decide_False (P := k ∈ keys ∧ _)) by naive_solver. rewrite Hc1. apply decide_ext. rewrite elem_of_cons.
      split; [intros [-> ?]; split; [by left|done]|]. intros [[->|?] ?]; [|done]. by split.
  - exists (log2 ++ log1). by rewrite Hlog2, Hlog1, app_assoc.
  - intros k Hin Hd Hne Hans. apply elem_of_cons in Hin as [->|Hin].
    + destruct (Hup1 Hd Hne Hans) as (f & Hf & Hin). exists f. split; [done|]. rewrite Hlog2. by apply elem_of_app; right.
    + rewrite <- (Hsame k Hin) in Hd, Hne |- *. by apply Hup2.
Qed.
End commit.

Lemma KeysByIndex_keys M idx :
  map_ok M → 0 <= idx < M.(GraphItemMap.Size) →
  ∃ keys, GraphItemMap.KeysByIndex idx M = Ret keys ∧ NoDup keys ∧
    ∀ k, k ∈ keys ↔ index_of k M = Z.to_nat idx ∧ is_Some (view M k).
Proof.
  intros Hok Hi. unfold GraphItemMap.KeysByIndex.
  destruct (returns_at_index M.(GraphItemMap.A) idx) as [m Hm]; [rewrite (mo_length _ Hok); lia|].
  rewrite Hm. cbn. eexists. split; [done|]. split; [apply NoDup_fst_map_to_list|].
  apply at_index_Ret in Hm as [_ Hm]. intros k. rewrite list_elem_of_fmap. split.
  - intros ([k' sl] & -> & Hk%elem_of_map_to_list). cbn.
    assert (Z.to_nat idx = index_of k' M) as Ei by (apply (mo_keys _ Hok _ m); [done|by eexists]).
    split; [done|]. unfold view. rewrite <- Ei, Hm. cbn. by rewrite Hk.
  - intros [Ei [sl Hv]]. unfold view in Hv. rewrite Ei, Hm in Hv. cbn in Hv. exists (k, sl).
    split; [done|]. by apply elem_of_map_to_list.
Qed.

(** ** Lemmas: sending *)

Lemma attempts_spec {A} n (calls : list (@call A)) err ns :
  let '(r, ns') := attempts n calls err ns in
  ns'.(graph) = ns.(graph) ∧ ns'.(io_log) = ns.(io_log) ∧
  (is_ok r = true ↔ ∃ i a, (i < n)%nat ∧ calls !! i = Some (Done a) ∧
     ∀ j, (j < i)%nat → ∀ b, calls !! j ≠ Some (Done b)).
Proof.
  revert calls err ns. induction n as [|n IH]; intros calls err ns; cbn [attempts].
  { split; [done|]. split; [done|]. split; [done|]. intros (i & a & Hi & _). lia. }
  destruct calls as [|c calls].
  { split; [done|]. split; [done|]. split; [done|]. by intros (i & a & _ & ? & _). }
  assert (∀ r : result A, (∀ a, c ≠ Done a) →
    (is_ok r = true ↔ ∃ i a, (i < n)%nat ∧ calls !! i = Some (Done a) ∧ ∀ j, (j < i)%nat → ∀ b, calls !! j ≠ Some (Done b)) →
    (is_ok r = true ↔ ∃ i a, (i < S n)%nat ∧ (c :: calls) !! i = Some (Done a) ∧
      ∀ j, (j < i)%nat → ∀ b, (c :: calls) !! j ≠ Some (Done b))) as Hshift.
  { intros r Hc Hr. rewrite Hr. split.
    - intros (i & a & Hi & Ea & Hj). exists (S i), a. split; [lia|]. split; [done|].
      intros [|j] Hj' b; [intros [= E]; by destruct (Hc b)|]. apply Hj. lia.
    - intros ([|i] & a & Hi & Ea & Hj); [injection Ea as E; by destruct (Hc a)|].
      exists i, a. split; [lia|]. split; [done|]. intros j Hj' b. apply (Hj (S j)). lia. }
  destruct c as [a|e|e dials].
  - split; [done|]. split; [done|]. split; [|done]. intros _. exists 0%nat, a. split; [lia|]. split; [done|]. intros; lia.
  - specialize (IH calls e ns). destruct (attempts n calls e ns) as [r ns']. destruct IH as (H1 & H2 & H3).
    split; [done|]. split; [done|]. by apply Hshift.
  - specialize (IH calls e (reconnection dials ns)). destruct (attempts n calls e _) as [r ns']. destruct IH as (H1 & H2 & H3).
    split; [done|]. split; [done|]. by apply Hshift.
Qed.

(** The items of [key] are away: [a0] is the abstract state without them, [a] with them. *)
Definition away (key : string) (L : list GraphItem.t) (a0 a : abs) : Prop :=
  (∀ k, a.(a_cache) k = a0.(a_cache) k ++ (if decide (k = key) then L else [])) ∧
  (∀ md5, a.(a_hist) md5 = a0.(a_hist) md5).

(** Receiving items does the same to both, if they are newer than those that are away. *)
Lemma away_receive cfg key L a0 a it :
  away key L a0 a → (∀ item, it = Some item → item_key item = key → newer L item = true) →
  away key L (abs_receive cfg a0 it) (abs_receive cfg a it).
Proof.
  intros [Hc Hh] Hnew. destruct it as [item|]; [|done]. specialize (Hnew item eq_refl). cbn [abs_receive].
  assert (newer (a.(a_cache) (item_key item)) item = newer (a0.(a_cache) (item_key item)) item) as En.
  { rewrite Hc. case_decide as Hk; [|by rewrite app_nil_r]. specialize (Hnew Hk).
    by destruct (a0.(a_cache) (item_key item)). }
  rewrite En. destruct (_ && _); [|done]. split; cbn [a_cache a_hist].
  - intros k. destruct (decide (k = item_key item)) as [->|Hk].
    + rewrite !fn_lookup_insert, Hc. done.
    + rewrite !fn_lookup_insert_ne by done. apply Hc.
  - intros md5. destruct (decide (md5 = GraphItem.Checksum item)) as [->|Hk].
    + rewrite !fn_lookup_insert, Hh. done.
    + rewrite !fn_lookup_insert_ne by done. apply Hh.
Qed.

Lemma away_foldl cfg key L items a0 a :
  away key L a0 a → (∀ item, Some item ∈ items → item_key item = key → newer L item = true) →
  away key L (foldl (abs_receive cfg) a0 items) (foldl (abs_receive cfg) a items).
Proof.
  revert a0 a. induction items as [|it items IH]; intros a0 a Ha Hnew; [done|]. cbn [foldl]. apply IH.
  - apply away_receive; [done|]. intros item ->. apply Hnew. by left.
  - intros item Hin. apply Hnew. by right.
Qed.

(** The abstract state of a concrete one. *)
Definition abs_of (st : state) : abs := Abs (cached st) (λ md5, GetAllItems md5 st.(HistoryCache)).

(** A key that is in the cache stays in it. *)
Lemma handle_item_view cfg st it st' k :
  graph_ok st → handle_item cfg st it = Ret st' → is_Some (view st.(GraphItems) k) → is_Some (view st'.(GraphItems) k).
Proof.
  intros Hok. destruct it as [item|]; [|by intros [= <-]]. unfold handle_item.
  destruct (IsValidString _ (GraphItem.Endpoint item)); [|by intros [= <-]]. cbn [negb].
  destruct (IsValidString _ (Counter _ _)); [|by intros [= <-]]. cbn [negb]. fold (item_key item).
  set (st1 := incr GraphRpcRecvCnt 1 st). assert (graph_ok st1) as Hok1 by (by apply graph_ok_incr).
  rewrite First_cached by apply Hok1. cbn [mbind go_bind]. rewrite newer_head.
  destruct (newer (cached st1 (item_key item)) item) eqn:En; cbn [negb]; [|by intros [= <-]].
  destruct (PushFront_view cfg.(MigrateEnabled) cfg.(Storage) (λ f, bool_decide (f ∈ st1.(files)))
    (item_key item) item (GraphItem.Checksum item) st1.(GraphItems)) as (M' & sl' & -> & Hu & HL);
    [apply Hok1|unfold GraphItem.Checksum, Checksum; rewrite (proj1 (Md5_shape _)); lia|].
  cbn [mbind go_bind]. assert (graph_ok (with_GraphItems M' st1)) as Hok2.
  { eapply graph_ok_with_GraphItems; [done..|]. cbn. rewrite HL.
    destruct (ok_lists _ Hok1 (item_key item)) as [Hs Hk]. split; [by apply newest_items_cons|by constructor]. }
  destruct (ReceiveItem_spec cfg item _ Hok2) as (st3 & -> & _ & [Hs3 _] & _). cbn [mbind go_bind].
  intros [= <-] Hv. cbn. rewrite Hs3. cbn. destruct Hu as (_ & _ & ->). by case_decide.
Qed.

Lemma handleItems_view cfg items st st' k :
  graph_ok st → handleItems cfg items st = Ret st' → is_Some (view st.(GraphItems) k) → is_Some (view st'.(GraphItems) k).
Proof.
  unfold handleItems. revert st. induction items as [|it items IH]; intros st Hok; cbn [go_foldl]; [by intros [= <-]|].
  destruct (handle_item_refines cfg st (abs_of st) it Hok) as (st1 & E & Hok1 & _); [done|].
  rewrite E. cbn [mbind go_bind]. intros H Hv. apply (IH st1); [done|done|]. by apply (handle_item_view cfg st it).
Qed.

(** The node receives items. *)
Definition receiving (cfg : config) (items : list (option GraphItem.t)) (ns : node_state) : go node_state :=
  g ← handleItems cfg items ns.(graph); Ret (with_graph g ns).

Lemma send_begin_spec key ns sl :
  graph_ok ns.(graph) → view ns.(graph).(GraphItems) key = Some sl →
  ∃ ns', send_begin key ns = Ret (Ok (sl.(SafeLinkedList.Flag), reverse (cached ns.(graph) key)), ns') ∧
    graph_ok ns'.(graph) ∧ is_Some (view ns'.(graph).(GraphItems) key) ∧
    away key (cached ns.(graph) key) (abs_of ns'.(graph)) (abs_of ns.(graph)).
Proof.
  intros Hok Hv. unfold send_begin, GraphItemMap.GetFlag. rewrite Get_view by apply Hok. rewrite Hv. cbn [mbind go_bind].
  destruct (set_flag_spec key (Z.lor sl.(SafeLinkedList.Flag) GRAPH_F_SENDING) ns Hok) as (r & ns1 & -> & Hok1 & Hc1 & Hv1 & E1).
  cbn [mbind go_bind snd]. destruct (pop_spec key ns1 Hok1) as (ns2 & -> & Hok2 & Hc2 & Hv2 & _ & E2). cbn [mbind go_bind fst snd].
  exists ns2. rewrite Hc1. split; [done|]. split; [done|]. split.
  - rewrite Hv2, Hv1, !decide_True by done. rewrite Hv. by eexists.
  - split; cbn [a_cache a_hist abs_of].
    + intros k. rewrite Hc2. case_decide; [by subst|]. by rewrite Hc1, app_nil_r.
    + intros md5. rewrite E2. cbn. by rewrite E1.
Qed.

Lemma send_end_spec key flag items res ns :
  graph_ok ns.(graph) → is_Some (view ns.(graph).(GraphItems) key) →
  list_ok key (cached ns.(graph) key ++ reverse items) →
  ∃ ns', send_end key flag items res ns = Ret (res, ns') ∧ graph_ok ns'.(graph) ∧
    (∀ k, cached ns'.(graph) k = cached ns.(graph) k ++
       (if decide (k = key ∧ is_ok res = false) then reverse items else [])) ∧
    ns'.(graph).(HistoryCache) = ns.(graph).(HistoryCache) ∧
    ∃ sl, view ns'.(graph).(GraphItems) key = Some sl ∧ sl.(SafeLinkedList.Flag) = Z.ldiff flag GRAPH_F_SENDING.
Proof.
  intros Hok [sl Hv] Hl. unfold send_end.
  assert (∃ ns1, (match res with Ok _ => Ret ns
      | Err _ => r ← on_items (GraphItemMap.PushAll key items) ns; Ret (r : result unit * node_state).2 end) = Ret ns1 ∧
    graph_ok ns1.(graph) ∧ (∀ k, cached ns1.(graph) k = cached ns.(graph) k ++
       (if decide (k = key ∧ is_ok res = false) then reverse items else [])) ∧
    ns1.(graph).(HistoryCache) = ns.(graph).(HistoryCache) ∧ is_Some (view ns1.(graph).(GraphItems) key)) as (ns1 & -> & Hok1 & Hc1 & Hh1 & Hv1).
  { destruct res as [u|e].
    - exists ns. split_and!; [done..| |done|by eexists]. intros k. rewrite decide_False by (by intros []). by rewrite app_nil_r.
    - destruct (PushAll_view key items ns.(graph).(GraphItems) (ok_map _ Hok)) as (r & M' & E & _ & Hu).
      rewrite Hv in Hu. cbn [fmap option_fmap option_map] in Hu. rewrite SLL_PushAll_spec in Hu.
      assert (cached ns.(graph) key = sl.(SafeLinkedList.L)) as Ec by (by rewrite cached_view, Hv).
      destruct (on_items_spec _ _ _ _ _ _ E Hu Hok) as (-> & Hok' & Hc & Hv' & _); [by cbn; rewrite <- Ec|].
      cbn [mbind go_bind snd]. eexists. split; [done|]. split; [done|]. split; [|split; [done|]].
      + intros k. rewrite Hc. cbn. destruct (decide (k = key)) as [->|Hk].
        * rewrite decide_True by done. by rewrite Ec.
        * rewrite decide_False by (by intros []). by rewrite app_nil_r.
      + rewrite Hv'. rewrite decide_True by done. by eexists. }
  cbn [mbind go_bind].
  destruct (set_flag_spec key (Z.ldiff flag GRAPH_F_SENDING) ns1 Hok1) as (r & ns2 & -> & Hok2 & Hc2 & Hv2 & E2).
  cbn [mbind go_bind snd]. exists ns2. split; [done|]. split; [done|]. split; [intros k; by rewrite Hc2|].
  split; [by rewrite E2|]. rewrite Hv2, decide_True by done. destruct Hv1 as [sl1 ->]. by eexists.
Qed.

(** ** Properties *)

(** Flushing a shard writes what is due and nothing else: every key of the shard
with six cached items or more, or whose oldest is a day old, or any if
forced, loses its items, which were all asked to be written to its file, oldest first; every
other key keeps its items. *)
Theorem FlushRRD_correct cfg answer node_of late force now idx ns :
  graph_ok ns.(graph) → 0 <= idx < ns.(graph).(GraphItems).(GraphItemMap.Size) →
  force = true ∨ cfg.(MigrateEnabled) = false →
  (∀ k, is_Some (view ns.(graph).(GraphItems) k) → keyed cfg k) →
  ∃ ns', FlushRRD cfg answer node_of late idx force now ns = Ret ([], ns') ∧ graph_ok ns'.(graph) ∧
    (∀ k, cached ns'.(graph) k =
      if decide (index_of k ns.(graph).(GraphItems) = Z.to_nat idx ∧ due force now (cached ns.(graph) k) = true)
      then [] else cached ns.(graph) k) ∧
    (∀ k, index_of k ns.(graph).(GraphItems) = Z.to_nat idx → due force now (cached ns.(graph) k) = true →
      cached ns.(graph) k ≠ [] → (∀ q, is_ok (answer q) = true) →
      ∃ f, file_of cfg k = Ret f ∧ UpdateRrd f (omap update_point (reverse (cached ns.(graph) k))) ∈ ns'.(io_log)).
Proof.
  intros Hok Hidx Hmode Hkeyed. unfold FlushRRD.
  destruct (KeysByIndex_keys (set_timeout false ns).(graph).(GraphItems) idx (ok_map _ Hok) Hidx) as (keys & -> & Hnd & Hkeys).
  cbn [mbind go_bind]. cbn in Hkeys.
  destruct (flush_keys_spec cfg answer node_of late force now keys [] (set_timeout false ns)) as (ns' & -> & Hok' & Hc & _ & Hup);
    [done|done| |done|].
  { apply Forall_forall. intros k Hk. apply Hkeyed, Hkeys, Hk. }
  cbn in Hc, Hup.
  assert (∀ k, index_of k ns.(graph).(GraphItems) = Z.to_nat idx → cached ns.(graph) k ≠ [] → k ∈ keys) as Hin.
  { intros k Hi Hne. apply Hkeys. split; [done|]. rewrite cached_view in Hne. by destruct (view _ _). }
  exists ns'. split; [done|]. split; [done|]. split.
  - intros k. rewrite Hc. destruct (cached ns.(graph) k) as [|i l] eqn:El; [by repeat case_decide|].
    apply decide_ext. rewrite Hkeys. split; [naive_solver|]. intros [Hi Hd]. split; [|done]. apply Hkeys, Hin; [done|]. by rewrite El.
  - intros k Hi Hd Hne. by apply Hup, Hne; [apply Hin|].
Qed.

(** C38. Sending the items of a key to another node loses none: whatever the node receives
meanwhile, provided it is newer than what is being sent, if no
attempt succeeds the cache is what it would have been without the send; if one
does, the sent items are gone and only they.  The sending flag is taken back. *)
Theorem send_data_lossless cfg key items calls ns sl :
  graph_ok ns.(graph) → view ns.(graph).(GraphItems) key = Some sl → sl.(SafeLinkedList.L) ≠ [] →
  (∀ item, Some item ∈ items → item_key item = key → newer sl.(SafeLinkedList.L) item = true) →
  let a := foldl (abs_receive cfg) (abs_of ns.(graph)) items in
  ∃ res ns', send_data key calls (receiving cfg items) ns = Ret (res, ns') ∧ graph_ok ns'.(graph) ∧
    (is_ok res = true ↔ ∃ i u, (i < 3)%nat ∧ calls !! i = Some (Done u) ∧
       ∀ j, (j < i)%nat → ∀ b, calls !! j ≠ Some (Done b)) ∧
    (∀ md5, GetAllItems md5 ns'.(graph).(HistoryCache) = a.(a_hist) md5) ∧
    (∀ k, a.(a_cache) k = cached ns'.(graph) k ++
       (if decide (k = key ∧ is_ok res = true) then sl.(SafeLinkedList.L) else [])) ∧
    ∃ sl', view ns'.(graph).(GraphItems) key = Some sl' ∧
      sl'.(SafeLinkedList.Flag) = Z.ldiff sl.(SafeLinkedList.Flag) GRAPH_F_SENDING.
Proof.
  intros Hok Hv Hne Hnew a. assert (cached ns.(graph) key = sl.(SafeLinkedList.L)) as Ec by (by rewrite cached_view, Hv).
  destruct (handleItems_spec cfg items ns.(graph) (abs_of ns.(graph)) Hok) as (st & _ & Hst & Ha); [done|]. fold a in Ha.
  unfold send_data. destruct (send_begin_spec key ns sl Hok Hv) as (ns1 & -> & Hok1 & Hv1 & Haway). cbn [mbind go_bind].
  rewrite length_reverse, Ec, decide_False by (by destruct sl.(SafeLinkedList.L)). rewrite Ec in Haway.
  destruct (handleItems_spec cfg items ns1.(graph) (abs_of ns1.(graph)) Hok1) as (g & E & Hokg & Hg); [done|].
  unfold receiving. rewrite E. cbn [mbind go_bind].
  pose proof (attempts_spec 3 calls "" (with_graph g ns1)) as Hatt.
  destruct (attempts 3 calls "" (with_graph g ns1)) as [res ns2]. destruct Hatt as (Eg & _ & Hres). cbn in Eg.
  destruct (away_foldl cfg key _ items _ _ Haway Hnew) as [Hc Hh]. fold a in Hc, Hh.
  destruct (send_end_spec key sl.(SafeLinkedList.Flag) (reverse sl.(SafeLinkedList.L)) res ns2) as (ns3 & E3 & Hok3 & Hc3 & Hh3 & Hf3).
  - by rewrite Eg.
  - rewrite Eg. by apply (handleItems_view cfg items ns1.(graph)).
  - rewrite Eg, reverse_involutive, (rep_cache _ _ Hg). pose proof (ok_lists _ Hst key) as Hl.
    rewrite (rep_cache _ _ Ha), Hc in Hl. by rewrite decide_True in Hl.
  - exists res, ns3. split; [done|]. split; [done|]. split; [done|]. split; [|split; [|done]].
    + intros md5. rewrite Hh, Hh3, Eg. apply Hg.
    + intros k. rewrite Hc, Hc3, Eg, (rep_cache _ _ Hg), reverse_involutive, <- app_assoc. f_equal.
      destruct (decide (k = key)) as [->|Hk]; [|by rewrite !decide_False by (by intros [])].
      destruct (is_ok res); [by rewrite decide_False, decide_True by naive_solver|].
      by rewrite decide_True, decide_False, app_nil_r by naive_solver.
Qed.

Lemma put_spec key sl st :
  graph_ok st → list_ok key sl.(SafeLinkedList.L) →
  ∃ M, GraphItemMap.Set_ key sl st.(GraphItems) = Ret M ∧ graph_ok (with_GraphItems M st) ∧
    M.(GraphItemMap.Size) = st.(GraphItems).(GraphItemMap.Size) ∧
    ∀ k, view M k = if decide (k = key) then Some sl else view st.(GraphItems) k.
Proof.
  intros Hok Hl. destruct (Set_view key sl st.(GraphItems) (ok_map _ Hok)) as (M & E & Hu).
  exists M. split; [done|]. split; [by eapply graph_ok_with_GraphItems|]. by destruct Hu as (_ & ? & ?).
Qed.

Definition ex_node (st : state) : node_state := NodeState st [] 0 0 (λ _, 0) false.

Lemma ex_list_ok : list_ok (item_key (ex_item 5 120)) [ex_item 6 180; ex_item 5 120].
Proof. split; [repeat constructor|]. repeat (apply Forall_cons; split); [vm_compute; reflexivity..|constructor]. Qed.

Lemma initial_view fs k : view (initial fs).(GraphItems) k = None.
Proof.
  destruct (New_ok (CACHE_TIME / FLUSH_DISK_STEP)) as [_ Hv]; [by split|]. apply Hv.
Qed.

Example FlushRRD_correct_witness :
  ∃ ns idx ns', FlushRRD ex_cfg (λ _, Ok tt) (λ _, Err "none") (λ _, false) idx true 1000 ns = Ret ([], ns') ∧
    cached ns.(graph) (item_key (ex_item 5 120)) = [ex_item 6 180; ex_item 5 120] ∧
    cached ns'.(graph) (item_key (ex_item 5 120)) = [].
Proof.
  set (key := item_key (ex_item 5 120)).
  destruct (put_spec key (SafeLinkedList.mk 0 [ex_item 6 180; ex_item 5 120]) (initial ∅) (graph_initial_ok ∅) ex_list_ok)
    as (M & _ & Hok & Hs & Hv).
  set (ns := ex_node (with_GraphItems M (initial ∅))).
  assert (cached ns.(graph) key = [ex_item 6 180; ex_item 5 120]) as Hc.
  { unfold cached. cbn [ns ex_node graph with_GraphItems GraphItems]. rewrite Hv, decide_True by reflexivity. reflexivity. }
  destruct (FlushRRD_correct ex_cfg (λ _, Ok tt) (λ _, Err "none") (λ _, false) true 1000
    (Z.of_nat (index_of key M)) ns) as (ns' & E & _ & Hc' & _).
  - exact Hok.
  - unfold index_of. change (GraphItems (graph ns)) with M. rewrite Hs. cbn [GraphItems initial].
    pose proof (Z.mod_pos_bound (hashKey key) (GraphItemMap.Size GraphItemMap.init)).
    change (GraphItemMap.Size GraphItemMap.init) with 1800 in *. lia.
  - left. reflexivity.
  - intros k [sl Hk]. change (view M k = Some sl) in Hk. rewrite Hv, initial_view in Hk.
    destruct (decide (k = key)) as [->|]; [|discriminate]. apply keyed_item; [reflexivity|cbn; lia].
  - exists ns, (Z.of_nat (index_of key M)), ns'. split; [exact E|]. split; [exact Hc|]. rewrite Hc'.
    apply decide_True. split; [symmetry; apply Nat2Z.id|reflexivity].
Defined.

Example send_data_lossless_witness :
  ∃ ns res ns', send_data (item_key (ex_item 5 120)) [Failed "timeout"; Shutdown "shutdown" 2; Failed "timeout"]
      (receiving ex_cfg [Some (ex_item 7 240)]) ns = Ret (res, ns') ∧ is_ok res = false ∧
    cached ns'.(graph) (item_key (ex_item 5 120)) = [ex_item 7 240; ex_item 6 180; ex_item 5 120].
Proof.
  set (key := item_key (ex_item 5 120)).
  destruct (put_spec key (SafeLinkedList.mk 0 [ex_item 6 180; ex_item 5 120]) (initial ∅) (graph_initial_ok ∅) ex_list_ok)
    as (M & _ & Hok & Hs & Hv).
  set (ns := ex_node (with_GraphItems M (initial ∅))).
  assert (view M key = Some (SafeLinkedList.mk 0 [ex_item 6 180; ex_item 5 120])) as Hkey.
  { rewrite Hv, decide_True by reflexivity. reflexivity. }
  destruct (send_data_lossless ex_cfg key [Some (ex_item 7 240)] [Failed "timeout"; Shutdown "shutdown" 2; Failed "timeout"]
    ns (SafeLinkedList.mk 0 [ex_item 6 180; ex_item 5 120])) as (res & ns' & E & _ & Hres & _ & Hc & _).
  - exact Hok.
  - exact Hkey.
  - discriminate.
  - intros item Hin _. apply list_elem_of_singleton in Hin. injection Hin as ->. reflexivity.
  - assert (is_ok res = false) as Hf.
    { destruct (is_ok res) eqn:Er; [|reflexivity]. destruct (proj1 Hres eq_refl) as ([|[|[|i]]] & u & Hi & Hd & _); (discriminate || lia). }
    exists ns, res, ns'. split; [exact E|]. split; [exact Hf|]. specialize (Hc key).
    rewrite decide_False in Hc by (intros [_ Ht]; rewrite Hf in Ht; discriminate). rewrite app_nil_r in Hc. rewrite <- Hc.
    assert (cached (with_GraphItems M (initial ∅)) key = [ex_item 6 180; ex_item 5 120]) as Hc0.
    { unfold cached. cbn [with_GraphItems GraphItems]. rewrite Hkey. reflexivity. }
    cbn [foldl abs_receive abs_of a_cache a_hist]. change (cached (graph ns)) with (cached (with_GraphItems M (initial ∅))).
    change (item_key (ex_item 7 240)) with key. rewrite Hc0.
    replace (valid ex_cfg (ex_item 7 240)) with true by (vm_compute; reflexivity).
    cbn [andb newer]. change (GraphItem.Timestamp (ex_item 6 180) <? GraphItem.Timestamp (ex_item 7 240)) with true.
    cbn [a_cache]. rewrite fn_lookup_insert. reflexivity.
Defined.

(** Committing a key empties its list, whatever the file system answers.
If it answers no error, all the items were asked to be written to the file of
the key, oldest first, and the file was made if it was not there; other keys stay. *)
Theorem CommitByKey_correct cfg answer key ns :
  graph_ok ns.(graph) → keyed cfg key →
  ∃ ns' f, CommitByKey cfg answer key ns = Ret ns' ∧ file_of cfg key = Ret f ∧ graph_ok ns'.(graph) ∧
    (∀ k, cached ns'.(graph) k = if decide (k = key) then [] else cached ns.(graph) k) ∧
    (cached ns.(graph) key ≠ [] → (∀ q, is_ok (answer q) = true) →
      f ∈ ns'.(graph).(files) ∧
      ns'.(io_log) = flush_log f (reverse (cached ns.(graph) key)) (bool_decide (f ∈ ns.(graph).(files))) ++ ns.(io_log)).
Proof.
  intros Hok Hk. destruct (commit_spec cfg answer key ns Hok Hk) as (ns' & f & E & Hf & Hok' & Hc & _ & _ & _ & Hall).
  by exists ns', f.
Qed.

Example CommitByKey_correct_witness :
  ∃ ns ns', cached ns.(graph) (item_key (ex_item 5 120)) = [ex_item 6 180; ex_item 5 120] ∧
    CommitByKey ex_cfg (λ _, Err "disk full") (item_key (ex_item 5 120)) ns = Ret ns' ∧
    cached ns'.(graph) (item_key (ex_item 5 120)) = [].
Proof.
  set (key := item_key (ex_item 5 120)).
  destruct (put_spec key (SafeLinkedList.mk 0 [ex_item 6 180; ex_item 5 120]) (initial ∅) (graph_initial_ok ∅) ex_list_ok)
    as (M & _ & Hok & _ & Hv).
  set (ns := ex_node (with_GraphItems M (initial ∅))).
  destruct (CommitByKey_correct ex_cfg (λ _, Err "disk full") key ns) as (ns' & f & E & _ & _ & Hc & _).
  - exact Hok.
  - apply keyed_item; [reflexivity|cbn; lia].
  - exists ns, ns'. split; [|split; [exact E|]].
    + unfold cached. cbn [ns ex_node graph with_GraphItems GraphItems]. rewrite Hv, decide_True by reflexivity. reflexivity.
    + rewrite Hc. apply decide_True. reflexivity.
Defined.
