(* ===== verification/GraphDisk.v ===== *)
(** * Graph: the worker of the disk and its channels
(modules/graph/rrdtool: sync_disk.go, rrdtool.go, migrate.go)

One goroutine, [ioWorker], reads and writes all files.  Others hand it their tasks
over a channel, [io_task_chan], and wait for the answer on a channel of their own.
[step] interleaves the worker and any number of callers; the answer of a caller and
the state of the disk are those of the operations of GraphFlush, one at a time in
the order in which the tasks were sent ([disk_tasks_serial]), and nobody waits for
ever ([disk_tasks_answered]), not even when the worker answers twice. *)

From S2P Require Import Prelude GoFloat GoString Hash Tags Model Containers GraphStore GraphApi GraphSafety GraphQuery GraphFlush.
From stdpp Require Import options.

(** ** Tasks *)

(** [io_task_t]: a method and its arguments. *)
Inductive io_task_t : Type :=
| IO_TASK_M_READ (filename : string)
| IO_TASK_M_WRITE (filename body : string)
| IO_TASK_M_FLUSH (filename : string) (items : list GraphItem.t)
| IO_TASK_M_FETCH (filename cf : string) (start end_ step : Z).

(** What a caller finds when it is answered: an error, and the data that the
worker left in the arguments. *)
Inductive answer : Type :=
| Read (r : result string)
| Wrote (r : result unit)
| Fetched (r : list RRDData.t * option error).

(** What the files answer during a task. *)
Record world : Type := World {
  disk_of : disk;
  content_of : string → result string;
  rrd_of : string → string → Z → Z → Z → result (Z * Z * list float64) }.

(** [writeFile] *)
Definition writeFile (d : disk) (filename body : string) (ns : node_state) : result unit * node_state :=
  let '(r, ns) := run_io d (WriteFile filename body) ns in
  (r, match r with
      | Ok _ => with_graph (with_files ({[filename]} ∪ ns.(graph).(files)) ns.(graph)) ns
      | Err _ => ns
      end).

(** A task done at once, from its first effect to its last. *)
Definition run_task (w : world) (task : io_task_t) (ns : node_state) : answer * node_state :=
  match task with
  | IO_TASK_M_READ filename => (Read (w.(content_of) filename), log_io (ReadRrd filename) ns)
  | IO_TASK_M_WRITE filename body => let '(r, ns) := io_write w.(disk_of) filename body ns in (Wrote r, ns)
  | IO_TASK_M_FLUSH filename items => let '(r, ns) := FlushFile w.(disk_of) filename items ns in (Wrote r, ns)
  | IO_TASK_M_FETCH filename cf start end_ step => (Fetched (fetch w.(rrd_of) filename cf start end_ step), ns)
  end.

(** ** The goroutines *)

(** Where [ioWorker] stands: it waits for a task, is about to answer one, or is
about to answer that the directory could not be made, to write the file all the
same, and to answer again. *)
Inductive worker_state : Type :=
| Idle
| Answer (id : nat) (a : answer)
| AnswerThenWrite (id : nat) (a : answer) (filename body : string) (w : world)
| Writing (id : nat) (filename body : string) (w : world)
| AnswerAgain (id : nat) (a : answer).

(** Where a caller stands: it is about to send its task, about to count it
([disk_counter], for a flush), waits for the answer, or has it. *)
Inductive pc : Type := Sending | Counting | Waiting | Returned (a : answer).

(** A call, with what its channel [done] holds. *)
Record io_call : Type := IoCall { task : io_task_t; at_ : pc; done_chan : list answer }.

(** The capacities of the channels. *)
Definition io_task_cap : nat := 16.
Definition done_cap : nat := 1.

(** [sent] and [served] only record what has happened. *)
Record sys : Type := Sys {
  io_task_chan : list (nat * io_task_t);
  ioWorker : worker_state;
  io_calls : gmap nat io_call;
  node : node_state;
  sent : list (nat * io_task_t);
  served : list (nat * io_task_t * world) }.

Definition with_call (id : nat) (c : io_call) (s : sys) : sys :=
  Sys s.(io_task_chan) s.(ioWorker) (<[id := c]> s.(io_calls)) s.(node) s.(sent) s.(served).
Definition with_worker (v : worker_state) (s : sys) : sys :=
  Sys s.(io_task_chan) v s.(io_calls) s.(node) s.(sent) s.(served).
Definition with_node (ns : node_state) (s : sys) : sys :=
  Sys s.(io_task_chan) s.(ioWorker) s.(io_calls) ns s.(sent) s.(served).
Definition goto (p : pc) (c : io_call) : io_call := IoCall c.(task) p c.(done_chan).

(** The worker begins a task, up to its first answer. *)
Definition begin_task (w : world) (id : nat) (t : io_task_t) (ns : node_state) : worker_state * node_state :=
  match t with
  | IO_TASK_M_READ filename => (Answer id (Read (w.(content_of) filename)), log_io (ReadRrd filename) ns)
  | IO_TASK_M_WRITE filename body =>
      match run_io w.(disk_of) (InsureDir filename) ns with
      | (Err e, ns) => (AnswerThenWrite id (Wrote (Err e)) filename body w, ns)
      | (Ok _, ns) => let '(r, ns) := writeFile w.(disk_of) filename body ns in (Answer id (Wrote r), ns)
      end
  | IO_TASK_M_FLUSH filename items => let '(r, ns) := flushrrd w.(disk_of) filename items ns in (Answer id (Wrote r), ns)
  | IO_TASK_M_FETCH filename cf start end_ step => (Answer id (Fetched (fetch w.(rrd_of) filename cf start end_ step)), ns)
  end.

(** [task.done <- err]: only when there is room. *)
Definition put_done (id : nat) (a : answer) (next : worker_state) (s : sys) : option sys :=
  match s.(io_calls) !! id with
  | Some c =>
      if decide (length c.(done_chan) < done_cap)%nat
      then Some (with_worker next (with_call id (IoCall c.(task) c.(at_) (c.(done_chan) ++ [a])) s))
      else None
  | None => None
  end.

(** A step: a caller comes, sends its task, counts it or takes its answer; or the
worker takes a task, answers, or writes. *)
Inductive label : Type :=
| Call (id : nat) (t : io_task_t)
| Send (id : nat)
| Count (id : nat)
| Return_ (id : nat)
| Take (w : world)
| Put
| Write_.

Definition step (l : label) (s : sys) : option sys :=
  match l with
  | Call id t =>
      match s.(io_calls) !! id with
      | Some _ => None
      | None => Some (with_call id (IoCall t Sending []) s)
      end
  | Send id =>
      match s.(io_calls) !! id with
      | Some (IoCall t Sending d as c) =>
          if decide (length s.(io_task_chan) < io_task_cap)%nat then
            let next := match t with IO_TASK_M_FLUSH _ _ => Counting | _ => Waiting end in
            Some (Sys (s.(io_task_chan) ++ [(id, t)]) s.(ioWorker) (<[id := goto next c]> s.(io_calls)) s.(node)
              (s.(sent) ++ [(id, t)]) s.(served))
          else None
      | _ => None
      end
  | Count id =>
      match s.(io_calls) !! id with
      | Some (IoCall t Counting d as c) => Some (with_node (add_disk_counter s.(node)) (with_call id (goto Waiting c) s))
      | _ => None
      end
  | Return_ id =>
      match s.(io_calls) !! id with
      | Some (IoCall t Waiting (a :: d)) => Some (with_call id (IoCall t (Returned a) d) s)
      | _ => None
      end
  | Take w =>
      match s.(ioWorker), s.(io_task_chan) with
      | Idle, (id, t) :: rest =>
          let '(v, ns) := begin_task w id t s.(node) in
          Some (Sys rest v s.(io_calls) ns s.(sent) (s.(served) ++ [(id, t, w)]))
      | _, _ => None
      end
  | Put =>
      match s.(ioWorker) with
      | Answer id a | AnswerAgain id a => put_done id a Idle s
      | AnswerThenWrite id a filename body w => put_done id a (Writing id filename body w) s
      | _ => None
      end
  | Write_ =>
      match s.(ioWorker) with
      | Writing id filename body w =>
          let '(r, ns) := writeFile w.(disk_of) filename body s.(node) in
          Some (with_worker (AnswerAgain id (Wrote r)) (with_node ns s))
      | _ => None
      end
  end.

Fixpoint steps (ls : list label) (s : sys) : option sys :=
  match ls with [] => Some s | l :: ls => s ← step l s; steps ls s end.

(** Nobody has called yet. *)
Definition start (ns : node_state) : sys := Sys [] Idle ∅ ns [] [].

(** ** What a new file holds (rrdtool.go and vendor/github.com/open-falcon/rrdlite) *)

Record Creator : Type := Creator_ { filename_ : string; start_ : Z; step_ : Z; args : list string }.
Definition NewCreator (filename : string) (start step : Z) : Creator := Creator_ filename start step [].
Definition add_arg (arg : string) (c : Creator) : Creator :=
  Creator_ c.(filename_) c.(start_) c.(step_) (c.(args) ++ [arg]).
Definition DS (name compute : string) (l : list string) (c : Creator) : Creator :=
  add_arg ("DS:" +:+ name +:+ ":" +:+ compute +:+ ":" +:+ join ":" l) c.
Definition RRA (cf : string) (l : list Z) (c : Creator) : Creator :=
  add_arg ("RRA:" +:+ cf +:+ ":" +:+ join ":" (Itoa <$> l)) c.

Definition RRA5PointCnt : Z := 576.
Definition RRA20PointCnt : Z := 504.
Definition RRA180PointCnt : Z := 766.
Definition RRA720PointCnt : Z := 730.

(** The averages of a step, and the averages, maxima and minima of more. *)
Definition three (n cnt : Z) (c : Creator) : Creator :=
  RRA "MIN" [0; n; cnt] (RRA "MAX" [0; n; cnt] (RRA "AVERAGE" [0; n; cnt] c)).

(** [create] up to the call of the library; [CreateRrd] stands for that call. *)
Definition create (now : Z) (filename : string) (item : GraphItem.t) : Creator :=
  three 720 RRA720PointCnt (three 180 RRA180PointCnt (three 20 RRA20PointCnt (three 5 RRA5PointCnt
    (RRA "AVERAGE" [0; 1; RRA1PointCnt]
      (DS "metric" item.(GraphItem.DsType) [Itoa item.(GraphItem.Heartbeat); item.(GraphItem.Min); item.(GraphItem.Max)]
        (NewCreator filename (now -₆₄ 86400) (item.(GraphItem.Step) mod 2 ^ 64))))))).

Example created_args :
  let item := GraphItem.mk "h" "cpu.idle" ∅ f64_zero 120 "GAUGE" 60 120 "U" "U" in
  take 4 (create 90000 "f" item).(args) = ["DS:metric:GAUGE:120:U:U"; "RRA:AVERAGE:0:1:720"; "RRA:AVERAGE:0:5:576"; "RRA:MAX:0:5:576"] ∧
  length (create 90000 "f" item).(args) = 14%nat.
Proof. vm_compute. done. Qed.

(** ** Tasks done one at a time *)

Definition serve (acc : list (nat * answer) * node_state) (x : nat * io_task_t * world) : list (nat * answer) * node_state :=
  let '(id, t, w) := x in
  let '(a, ns) := run_task w t acc.2 in
  (acc.1 ++ [(id, a)], ns).
(** The answers, and the state they leave. *)
Definition replay (ns : node_state) (l : list (nat * io_task_t * world)) : list (nat * answer) * node_state :=
  foldl serve ([], ns) l.

Lemma replay_snoc ns l id t w :
  replay ns (l ++ [(id, t, w)]) =
    ((replay ns l).1 ++ [(id, (run_task w t (replay ns l).2).1)], (run_task w t (replay ns l).2).2).
Proof. unfold replay. rewrite foldl_app. cbn. by destruct (run_task w t _). Qed.

Lemma replay_ids ns l : (replay ns l).1.*1 = l.*1.*1.
Proof.
  induction l as [|[[id t] w] l IH] using rev_ind; [done|].
  rewrite replay_snoc. cbn [fst]. by rewrite !fmap_app, IH.
Qed.

(** A node but for its counter of flushes. *)
Definition uncounted (ns : node_state) : node_state :=
  NodeState ns.(graph) ns.(io_log) 0 ns.(net_counter) ns.(stat_cnt) ns.(flushrrd_timeout).

Definition is_flush (t : io_task_t) : bool := match t with IO_TASK_M_FLUSH _ _ => true | _ => false end.
Definition flushes (l : list (nat * io_task_t)) : nat := length (filter (λ x, is_flush x.2 = true) l).

(** What is left of a write that was answered too early. *)
Definition finish_write (v : worker_state) (ns : node_state) : node_state :=
  match v with
  | AnswerThenWrite _ _ filename body w | Writing _ filename body w => (writeFile w.(disk_of) filename body ns).2
  | _ => ns
  end.
Definition first_answer (v : worker_state) : option (nat * answer) :=
  match v with Answer id a | AnswerThenWrite id a _ _ _ => Some (id, a) | _ => None end.
Definition again (v : worker_state) : option nat :=
  match v with Writing id _ _ _ | AnswerAgain id _ => Some id | _ => None end.

(** The operations on the disk, without their pairs. *)
Lemma writeFile_eq d f b ns :
  writeFile d f b ns =
    (d (WriteFile f b), let ns := log_io (WriteFile f b) ns in
      if is_ok (d (WriteFile f b)) then with_graph (with_files ({[f]} ∪ ns.(graph).(files)) ns.(graph)) ns else ns).
Proof. unfold writeFile, run_io. by destruct (d _). Qed.

Lemma io_write_eq d f b ns :
  io_write d f b ns =
    (match d (InsureDir f) with Err e => Err e | Ok _ => d (WriteFile f b) end,
     (writeFile d f b (log_io (InsureDir f) ns)).2).
Proof. unfold io_write, writeFile, run_io. by destruct (d (InsureDir f)), (d (WriteFile f b)). Qed.

(** Nothing that is done to the disk reads or changes the counter. *)
Lemma writeFile_uncounted d f b ns ns' :
  uncounted ns = uncounted ns' → uncounted (writeFile d f b ns).2 = uncounted (writeFile d f b ns').2.
Proof. destruct ns, ns'. intros [= -> -> -> -> ->]. rewrite !writeFile_eq. by destruct (is_ok _). Qed.
Lemma writeFile_counter d f b ns : (writeFile d f b ns).2.(disk_counter) = ns.(disk_counter).
Proof. rewrite writeFile_eq. by destruct (is_ok _). Qed.

Lemma flushrrd_uncounted d f items ns ns' :
  uncounted ns = uncounted ns' →
  (flushrrd d f items ns).1 = (flushrrd d f items ns').1 ∧
  uncounted (flushrrd d f items ns).2 = uncounted (flushrrd d f items ns').2.
Proof.
  destruct ns as [g io c nc st fl], ns' as [g' io' c' nc' st' fl']. intros [= -> -> -> -> ->].
  destruct items as [|first items]; [done|]. unfold flushrrd, update, run_io. cbn [graph].
  destruct (decide (f ∈ files g')); [done|]. destruct (d (InsureDir f)); [|done]. by destruct (d (CreateRrd f first)).
Qed.
Lemma flushrrd_counter d f items ns : (flushrrd d f items ns).2.(disk_counter) = ns.(disk_counter).
Proof.
  destruct items as [|first items]; [done|]. unfold flushrrd, update, run_io.
  destruct (decide (f ∈ files (graph ns))); [done|]. destruct (d (InsureDir f)); [|done]. by destruct (d (CreateRrd f first)).
Qed.

Lemma begin_task_spec w id t ns v ns' :
  begin_task w id t ns = (v, ns') →
  first_answer v = Some (id, (run_task w t ns).1) ∧ again v = None ∧
  uncounted (finish_write v ns') = uncounted (run_task w t ns).2 ∧ ns'.(disk_counter) = ns.(disk_counter).
Proof.
  destruct t as [f|f b|f items|f cf a b c]; cbn [begin_task run_task].
  - by intros [= <- <-].
  - rewrite io_write_eq. unfold run_io. cbn [fst snd]. destruct (disk_of w (InsureDir f)) as [u|e].
    + pose proof (writeFile_counter (disk_of w) f b (log_io (InsureDir f) ns)) as Hc.
      rewrite writeFile_eq in *. cbn [fst snd] in *. by intros [= <- <-].
    + by intros [= <- <-].
  - pose proof (flushrrd_counter (disk_of w) f items ns) as Hc. unfold FlushFile.
    destruct (flushrrd_uncounted (disk_of w) f items ns (add_disk_counter ns)) as [H1 H2]; [done|].
    destruct (flushrrd _ _ _ ns), (flushrrd _ _ _ (add_disk_counter ns)). cbn in *. intros [= <- <-]. by rewrite H1.
  - by intros [= <- <-].
Qed.
Lemma run_task_uncounted w t ns ns' :
  uncounted ns = uncounted ns' →
  (run_task w t ns).1 = (run_task w t ns').1 ∧ uncounted (run_task w t ns).2 = uncounted (run_task w t ns').2.
Proof.
  intros H. assert (∀ q, uncounted (log_io q ns) = uncounted (log_io q ns')) as Hl.
  { intros q. destruct ns, ns'. by injection H as -> -> -> -> ->. }
  destruct t as [f|f b|f items|f cf a b c]; cbn [run_task].
  - split; [done|apply Hl].
  - rewrite !io_write_eq. cbn [fst snd]. split; [done|]. apply writeFile_uncounted, Hl.
  - unfold FlushFile. destruct (flushrrd_uncounted (disk_of w) f items (add_disk_counter ns) (add_disk_counter ns')) as [H1 H2].
    { destruct ns, ns'. by injection H as -> -> -> -> ->. }
    destruct (flushrrd _ _ _ (add_disk_counter ns)), (flushrrd _ _ _ (add_disk_counter ns')). cbn in *. by rewrite H1.
  - done.
Qed.
Lemma run_task_counter w t ns :
  (run_task w t ns).2.(disk_counter) = if is_flush t then (ns.(disk_counter) + 1) mod 2 ^ 64 else ns.(disk_counter).
Proof.
  destruct t as [f|f b|f items|f cf a b c]; cbn [run_task is_flush]; [done| | |done].
  - rewrite io_write_eq. cbn [snd]. by rewrite writeFile_counter.
  - unfold FlushFile. pose proof (flushrrd_counter (disk_of w) f items (add_disk_counter ns)) as Hc.
    by destruct (flushrrd _ _ _ (add_disk_counter ns)).
Qed.

(** ** The invariant *)

#[local] Arguments flushes : simpl never.
#[local] Arguments replay : simpl never.
#[local] Arguments uncounted : simpl never.

(** Has the caller sent its task, and not been answered yet? *)
Definition pending (p : pc) : bool := match p with Counting | Waiting => true | _ => false end.

(** How many calls are about to count their flush. *)
Definition weigh (f : pc → nat) (m : gmap nat io_call) : nat := map_fold (λ _ c n, (f c.(at_) + n)%nat) 0%nat m.
Definition is_counting (p : pc) : nat := match p with Counting => 1 | _ => 0 end.

Lemma weigh_insert f id c m : m !! id = None → weigh f (<[id := c]> m) = (f c.(at_) + weigh f m)%nat.
Proof. intros Hm. unfold weigh. rewrite map_fold_insert_L; [done| |done]. intros; lia. Qed.
Lemma weigh_update f id c c' m :
  m !! id = Some c → (weigh f (<[id := c']> m) + f c.(at_) = weigh f m + f c'.(at_))%nat.
Proof.
  intros Hm. rewrite <- insert_delete_eq, weigh_insert by apply lookup_delete_eq.
  rewrite <- (insert_delete_id m id c Hm) at 2. rewrite weigh_insert by apply lookup_delete_eq. lia.
Qed.

(** A call whose answer, if it has been given, is among [as_]; [due] says that
it is still to be given. *)
Definition call_ok (as_ : list (nat * answer)) (due : Prop) (id : nat) (c : io_call) : Prop :=
  match c.(at_) with
  | Sending => c.(done_chan) = []
  | Counting | Waiting =>
      (c.(done_chan) = [] ∧ due) ∨ ∃ a, c.(done_chan) = [a] ∧ (id, a) ∈ as_
  | Returned a => (id, a) ∈ as_ ∧ (length c.(done_chan) ≤ 1)%nat
  end.

Definition due_in (s : sys) (id : nat) : Prop :=
  id ∈ s.(io_task_chan).*1 ∨ ∃ a, first_answer s.(ioWorker) = Some (id, a).

Record inv (n0 : node_state) (s : sys) : Prop := Inv {
  i_sent : s.(sent) = s.(served).*1 ++ s.(io_task_chan);
  i_ids : NoDup s.(sent).*1;
  i_known : ∀ id t, (id, t) ∈ s.(sent) → ∃ c, s.(io_calls) !! id = Some c ∧ c.(task) = t ∧ c.(at_) ≠ Sending;
  i_calls : ∀ id c, s.(io_calls) !! id = Some c → call_ok (replay n0 s.(served)).1 (due_in s id) id c;
  i_first : ∀ id a, first_answer s.(ioWorker) = Some (id, a) →
    (id, a) ∈ (replay n0 s.(served)).1 ∧
    ∃ c, s.(io_calls) !! id = Some c ∧ c.(done_chan) = [] ∧ pending c.(at_) = true;
  i_again : ∀ id, again s.(ioWorker) = Some id →
    ∃ c, s.(io_calls) !! id = Some c ∧
      ((∃ a, c.(at_) = Returned a ∧ c.(done_chan) = []) ∨ (∃ a, c.(done_chan) = [a] ∧ pending c.(at_) = true));
  i_node : uncounted (finish_write s.(ioWorker) s.(node)) = uncounted (replay n0 s.(served)).2;
  i_counter : (s.(node).(disk_counter) + Z.of_nat (weigh is_counting s.(io_calls))) mod 2 ^ 64 =
    (n0.(disk_counter) + Z.of_nat (flushes s.(sent))) mod 2 ^ 64;
  i_range : 0 <= s.(node).(disk_counter) < 2 ^ 64 }.

Lemma inv_start n0 : 0 <= n0.(disk_counter) < 2 ^ 64 → inv n0 (start n0).
Proof.
  intros Hr. split; cbn; try done.
  - by constructor.
  - intros id t H. by apply elem_of_nil in H.
Qed.

(** A call that changes leaves the others as they are. *)
Lemma calls_insert_ne (P : nat → io_call → Prop) (m : gmap nat io_call) id c :
  (∀ id' c', id' ≠ id → m !! id' = Some c' → P id' c') → P id c → ∀ id' c', <[id := c]> m !! id' = Some c' → P id' c'.
Proof. intros Hm Hc id' c' H. apply lookup_insert_Some in H as [[<- <-]|[? H]]; auto. Qed.
Lemma calls_insert (P : nat → io_call → Prop) (m : gmap nat io_call) id c :
  (∀ id' c', m !! id' = Some c' → P id' c') → P id c → ∀ id' c', <[id := c]> m !! id' = Some c' → P id' c'.
Proof. intros. eapply (calls_insert_ne P); eauto. Qed.

Lemma known_insert (l : list (nat * io_task_t)) (m : gmap nat io_call) id c c' :
  (∀ id t, (id, t) ∈ l → ∃ c, m !! id = Some c ∧ c.(task) = t ∧ c.(at_) ≠ Sending) →
  m !! id = Some c → c'.(task) = c.(task) → (c.(at_) ≠ Sending → c'.(at_) ≠ Sending) →
  ∀ id' t, (id', t) ∈ l → ∃ c, <[id := c']> m !! id' = Some c ∧ c.(task) = t ∧ c.(at_) ≠ Sending.
Proof.
  intros Hk Hc Ht Ha id' t' Hin. destruct (Hk id' t' Hin) as (c0 & Hc0 & Ht0 & Ha0).
  destruct (decide (id' = id)) as [->|Hne].
  - simplify_eq. exists c'. rewrite lookup_insert_eq. auto.
  - exists c0. by rewrite lookup_insert_ne.
Qed.

Lemma call_ok_mono as_ as' (P P' : Prop) id c :
  (∀ a, (id, a) ∈ as_ → (id, a) ∈ as') → (P → P') → call_ok as_ P id c → call_ok as' P' id c.
Proof. unfold call_ok. destruct (at_ c); naive_solver. Qed.

(** A step of a caller that leaves the worker and the tasks alone. *)
Lemma inv_with_call n0 s id c c' :
  inv n0 s → s.(io_calls) !! id = Some c → c'.(task) = c.(task) → (c.(at_) ≠ Sending → c'.(at_) ≠ Sending) →
  is_counting c'.(at_) = is_counting c.(at_) →
  call_ok (replay n0 s.(served)).1 (due_in s id) id c' →
  (∀ a, first_answer s.(ioWorker) = Some (id, a) → c'.(done_chan) = [] ∧ pending c'.(at_) = true) →
  (again s.(ioWorker) = Some id → (∃ a, c'.(at_) = Returned a ∧ c'.(done_chan) = []) ∨
    (∃ a, c'.(done_chan) = [a] ∧ pending c'.(at_) = true)) →
  inv n0 (with_call id c' s).
Proof.
  intros [] Hc Ht Ha Hw Hok Hf Hg. split; cbn -[Z.pow Z.modulo Z.add Z.of_nat]; try done.
  - by eapply known_insert.
  - by apply calls_insert.
  - intros id' a E. destruct (i_first0 id' a E) as (Hin & c0 & Hc0 & H0). split; [done|].
    destruct (decide (id' = id)) as [->|Hne].
    + exists c'. rewrite lookup_insert_eq. split; [done|]. by eapply Hf.
    + exists c0. by rewrite lookup_insert_ne.
  - intros id' E. destruct (i_again0 id' E) as (c0 & Hc0 & H0).
    destruct (decide (id' = id)) as [->|Hne].
    + exists c'. rewrite lookup_insert_eq. split; [done|]. by apply Hg.
    + exists c0. by rewrite lookup_insert_ne.
  - rewrite <- i_counter0. do 3 f_equal. pose proof (weigh_update is_counting id c c' _ Hc). lia.
Qed.

Lemma inv_Call n0 s id t : inv n0 s → s.(io_calls) !! id = None → inv n0 (with_call id (IoCall t Sending []) s).
Proof.
  intros [] Hn.
  assert (∀ id' c, s.(io_calls) !! id' = Some c → <[id := IoCall t Sending []]> s.(io_calls) !! id' = Some c) as Hkeep.
  { intros id' c Hc. rewrite lookup_insert_ne; [done|]. by intros ->; simplify_eq. }
  split; cbn -[Z.pow Z.modulo Z.add Z.of_nat]; try done.
  - naive_solver.
  - by apply calls_insert.
  - naive_solver.
  - naive_solver.
  - rewrite weigh_insert by done. done.
Qed.

Lemma flushes_snoc l x : flushes (l ++ [x]) = (flushes l + if is_flush x.2 then 1 else 0)%nat.
Proof. unfold flushes. rewrite filter_app, length_app. destruct x as [id t]. cbn. by destruct (is_flush t). Qed.

Lemma inv_Send n0 s id t d :
  inv n0 s → s.(io_calls) !! id = Some (IoCall t Sending d) →
  inv n0 (Sys (s.(io_task_chan) ++ [(id, t)]) s.(ioWorker)
    (<[id := goto (match t with IO_TASK_M_FLUSH _ _ => Counting | _ => Waiting end) (IoCall t Sending d)]> s.(io_calls)) s.(node)
    (s.(sent) ++ [(id, t)]) s.(served)).
Proof.
  intros [] Hc. set (c' := goto _ _).
  assert (pending c'.(at_) = true) as Hp by by destruct t.
  assert (id ∉ s.(sent).*1) as Hnew.
  { intros ([id' t'] & -> & Hin)%list_elem_of_fmap. cbn in Hc. destruct (i_known0 _ _ Hin) as (c & ? & ? & ?). by simplify_eq. }
  split; cbn -[Z.pow Z.modulo Z.add Z.of_nat]; try done.
  - by rewrite i_sent0, app_assoc.
  - rewrite fmap_app. apply NoDup_app. split; [done|]. split; [|by apply NoDup_singleton].
    intros x Hx ->%list_elem_of_singleton. done.
  - intros id' t' [Hin|[= -> ->]%list_elem_of_singleton]%elem_of_app.
    + eapply known_insert; [done|done|done| |done]. done.
    + exists c'. rewrite lookup_insert_eq. split; [done|]. split; [done|]. by destruct (at_ c').
  - apply calls_insert.
    + intros id' c0 H0. eapply call_ok_mono; [|..|by apply i_calls0]; [done|].
      intros [Hin|Hin]; [left|by right]. cbn. rewrite fmap_app. set_solver.
    + pose proof (i_calls0 id _ Hc) as H0. cbn in H0. subst d. unfold call_ok.
      destruct t; left; (split; [done|]); left; cbn; rewrite fmap_app; set_solver.
  - intros id' a E. destruct (i_first0 id' a E) as (Hin & c0 & Hc0 & H0). split; [done|]. exists c0.
    rewrite lookup_insert_ne; [done|]. intros ->. simplify_eq. by destruct H0.
  - intros id' E. destruct (i_again0 id' E) as (c0 & Hc0 & H0). exists c0.
    rewrite lookup_insert_ne; [done|]. intros ->. simplify_eq. naive_solver.
  - pose proof (weigh_update is_counting id _ c' _ Hc) as Hw. cbn [at_ is_counting] in Hw.
    rewrite flushes_snoc. cbn [snd].
    assert (is_counting c'.(at_) = if is_flush t then 1 else 0)%nat as Ec by by destruct t.
    rewrite Ec in Hw. rewrite Nat.add_0_r in Hw. rewrite Hw, !Nat2Z.inj_add, !Z.add_assoc.
    rewrite Z.add_mod, i_counter0, <- Z.add_mod by lia. done.
Qed.

Lemma inv_Count n0 s id t d :
  inv n0 s → s.(io_calls) !! id = Some (IoCall t Counting d) →
  inv n0 (with_node (add_disk_counter s.(node)) (with_call id (goto Waiting (IoCall t Counting d)) s)).
Proof.
  intros [] Hc. pose proof (weigh_update is_counting id _ (IoCall t Waiting d) _ Hc) as Hw. cbn [at_ is_counting] in Hw.
  assert (∀ (P : nat → Prop) (Q : nat → io_call → Prop), (∀ id, P id → ∃ c, s.(io_calls) !! id = Some c ∧ Q id c) →
    (P id → Q id (IoCall t Counting d) → Q id (IoCall t Waiting d)) →
    ∀ id', P id' → ∃ c, <[id := IoCall t Waiting d]> s.(io_calls) !! id' = Some c ∧ Q id' c) as Hmove.
  { intros P Q HP HQ id' H. destruct (HP id' H) as (c & Hc' & HQ'). destruct (decide (id' = id)) as [->|Hne].
    - simplify_eq. exists (IoCall t Waiting d). rewrite lookup_insert_eq. auto.
    - exists c. by rewrite lookup_insert_ne. }
  split; cbn -[Z.pow Z.modulo Z.add Z.of_nat]; try done.
  - by eapply known_insert.
  - apply calls_insert; [done|]. exact (i_calls0 id _ Hc).
  - intros id' a E. destruct (i_first0 id' a E) as [Hin _]. split; [done|].
    apply (Hmove (λ id', first_answer s.(ioWorker) = Some (id', a)) (λ _ c, done_chan c = [] ∧ pending (at_ c) = true)); [|done|done].
    intros id0 E0. by destruct (i_first0 id0 a E0) as [_ ?].
  - apply (Hmove (λ id', again s.(ioWorker) = Some id') (λ _ c, (∃ a, at_ c = Returned a ∧ done_chan c = []) ∨
      ∃ a, done_chan c = [a] ∧ pending (at_ c) = true)); [done|]. intros _ [(a & ? & _)|(a & E & _)]; [done|]. right. by exists a.
  - rewrite <- i_node0. destruct s.(ioWorker); cbn [finish_write]; first [done|by apply writeFile_uncounted].
  - rewrite <- i_counter0. rewrite Zplus_mod_idemp_l. f_equal. unfold goto. cbn [task at_ done_chan]. lia.
  - by apply Z.mod_pos_bound.
Qed.

Lemma inv_Return n0 s id t a d :
  inv n0 s → s.(io_calls) !! id = Some (IoCall t Waiting (a :: d)) →
  inv n0 (with_call id (IoCall t (Returned a) d) s).
Proof.
  intros Hi Hc. pose proof (i_calls _ _ Hi id _ Hc) as [[? _]|(a' & [= -> ->] & Hin)]; [done|].
  eapply inv_with_call; [done|done|done|done|done| | |]; cbn.
  - split; [done|cbn; lia].
  - intros b E. destruct (i_first _ _ Hi id b E) as (_ & c & Hc' & Hd & _). by simplify_eq.
  - intros _. left. by exists a'.
Qed.

Lemma inv_put_done n0 s id a next s' :
  inv n0 s → put_done id a next s = Some s' →
  (s.(ioWorker) = Answer id a ∧ next = Idle ∨
   (∃ f b w, s.(ioWorker) = AnswerThenWrite id a f b w ∧ next = Writing id f b w) ∨
   s.(ioWorker) = AnswerAgain id a ∧ next = Idle) →
  inv n0 s'.
Proof.
  intros Hi Hput Hw. unfold put_done in Hput. destruct (s.(io_calls) !! id) as [[t p d]|] eqn:Hc; [|done].
  cbn [task at_ done_chan] in Hput. case_decide as Hd; [|done]. injection Hput as <-.
  assert (d = []) as -> by by destruct d; [|cbn in Hd; unfold done_cap in Hd; lia]. cbn [app].
  set (c' := IoCall t p [a]).
  assert (∀ P : Prop, call_ok (replay n0 s.(served)).1 P id c') as Hok.
  { intros P. pose proof (i_calls _ _ Hi id _ Hc) as Hco. unfold call_ok in *. cbn [at_ done_chan c'] in *.
    destruct Hw as [[E _]|[(f & b & w & E & _)|[E _]]].
    1,2: destruct (i_first _ _ Hi id a) as (Hin & c & Hc' & _ & Hp); [by rewrite E|]; simplify_eq; cbn in Hp;
      destruct p; (done || (by right; eexists)).
    destruct (i_again _ _ Hi id) as (c & Hc' & [(b & Hp & _)|(b & Hx & _)]); [by rewrite E| |by simplify_eq].
    simplify_eq. cbn in Hp. subst p. destruct Hco as [Hco _]. split; [done|cbn; lia]. }
  destruct Hi. split; cbn -[Z.pow Z.modulo Z.add Z.of_nat]; try done.
  - by eapply known_insert.
  - apply calls_insert_ne.
    + intros id' c0 Hne H0. eapply call_ok_mono; [done| |by apply i_calls0].
      intros [Hin|(b & E)]; [by left|]. exfalso. destruct Hw as [[E' _]|[(f & x & w & E' & _)|[E' _]]]; rewrite E' in E; cbn in E; congruence.
    + apply Hok.
  - intros id' b E. by destruct Hw as [[_ ->]|[(f & x & w & _ & ->)|[_ ->]]].
  - intros id' E. destruct Hw as [[_ ->]|[(f & x & w & E' & ->)|[_ ->]]]; [done| |done]. injection E as <-.
    exists c'. rewrite lookup_insert_eq. split; [done|]. right. exists a. split; [done|].
    destruct (i_first0 id a) as (_ & c & Hc' & _ & Hp); [by rewrite E'|]. by simplify_eq.
  - rewrite <- i_node0. by destruct Hw as [[-> ->]|[(f & x & w & -> & ->)|[-> ->]]].
  - rewrite <- i_counter0. do 3 f_equal. pose proof (weigh_update is_counting id _ c' _ Hc). cbn [at_ c'] in *. lia.
Qed.

Lemma inv_Write n0 s id f b w r ns :
  inv n0 s → s.(ioWorker) = Writing id f b w → writeFile w.(disk_of) f b s.(node) = (r, ns) →
  inv n0 (with_worker (AnswerAgain id (Wrote r)) (with_node ns s)).
Proof.
  intros [] Ew Ef. rewrite Ew in *. pose proof (writeFile_counter w.(disk_of) f b s.(node)) as Hc. rewrite Ef in Hc. cbn in Hc.
  split; cbn -[Z.pow Z.modulo Z.add Z.of_nat]; try done.
  - intros id' c H0. eapply call_ok_mono; [done| |by apply i_calls0].
    intros [Hin|(a & E)]; [by left|]. by rewrite Ew in E.
  - rewrite <- i_node0. cbn [finish_write]. by rewrite Ef.
  - by rewrite Hc.
  - by rewrite Hc.
Qed.

Lemma inv_Take n0 s id t rest w v ns :
  inv n0 s → s.(ioWorker) = Idle → s.(io_task_chan) = (id, t) :: rest → begin_task w id t s.(node) = (v, ns) →
  inv n0 (Sys rest v s.(io_calls) ns s.(sent) (s.(served) ++ [(id, t, w)])).
Proof.
  intros [] Ew Ec Eb. rewrite Ew in *. destruct (begin_task_spec w id t s.(node) v ns Eb) as (Hf & Hg & Hn & Hd).
  destruct (run_task_uncounted w t s.(node) (replay n0 s.(served)).2 i_node0) as [Ha Hu].
  assert (id ∉ (replay n0 s.(served)).1.*1) as Hnew.
  { rewrite replay_ids. rewrite i_sent0, Ec, fmap_app in i_ids0. apply NoDup_app in i_ids0 as (_ & Hx & _).
    intros H. apply (Hx id H). by left. }
  destruct (i_known0 id t) as (c & Hc & Ht & Hs); [rewrite i_sent0, Ec; set_solver|].
  assert (c.(done_chan) = [] ∧ pending c.(at_) = true) as [Hdone Hp].
  { assert (∀ a, (id, a) ∉ (replay n0 s.(served)).1) as Hno.
    { intros a Hin. apply Hnew. apply list_elem_of_fmap. by exists (id, a). }
    pose proof (i_calls0 id c Hc) as Hok. unfold call_ok in Hok. destruct (at_ c); naive_solver. }
  split; cbn -[Z.pow Z.modulo Z.add Z.of_nat]; try done.
  - rewrite i_sent0, Ec, fmap_app, <- app_assoc. done.
  - intros id' c0 H0. rewrite replay_snoc. cbn [fst]. eapply call_ok_mono; [| |by apply i_calls0].
    + intros a Hin. apply elem_of_app. by left.
    + intros [Hin|(a & E)]; [|by rewrite Ew in E]. rewrite Ec in Hin. apply elem_of_cons in Hin as [->|Hin].
      * right. cbn. by eexists.
      * by left.
  - intros id' a E. rewrite Hf in E. injection E as <- <-. split; [|by exists c].
    rewrite replay_snoc. cbn [fst]. rewrite Ha. apply elem_of_app. right. by left.
  - by rewrite Hg.
  - rewrite replay_snoc. cbn [snd]. by rewrite Hn, Hu.
  - by rewrite Hd.
  - by rewrite Hd.
Qed.

Lemma inv_step n0 l s s' : inv n0 s → step l s = Some s' → inv n0 s'.
Proof.
  intros Hi. destruct l as [id t|id|id|id|w| |]; cbn [step].
  - destruct (s.(io_calls) !! id) eqn:E; [done|]. intros [= <-]. by apply inv_Call.
  - destruct (s.(io_calls) !! id) as [[t [| | |] d]|] eqn:E; try done. case_decide; [|done]. intros [= <-]. by apply inv_Send.
  - destruct (s.(io_calls) !! id) as [[t [| | |] d]|] eqn:E; try done. intros [= <-]. by apply inv_Count.
  - destruct (s.(io_calls) !! id) as [[t [| | |] [|a d]]|] eqn:E; try done. intros [= <-]. by apply inv_Return.
  - destruct (s.(ioWorker)) eqn:Ew; try done. destruct (s.(io_task_chan)) as [|[id t] rest] eqn:Ec; [done|].
    destruct (begin_task w id t s.(node)) as [v ns] eqn:Eb. intros [= <-]. by apply inv_Take.
  - destruct (s.(ioWorker)) eqn:Ew; try done; intros E; (eapply inv_put_done; [done..|]); naive_solver.
  - destruct (s.(ioWorker)) eqn:Ew; try done. destruct (writeFile _ _ _ _) as [r ns] eqn:Ef. intros [= <-]. by eapply inv_Write.
Qed.

Lemma inv_steps n0 ls s s' : inv n0 s → steps ls s = Some s' → inv n0 s'.
Proof.
  revert s. induction ls as [|l ls IH]; intros s Hi; cbn [steps]; [by intros [= <-]|].
  destruct (step l s) as [s1|] eqn:E; cbn [mbind option_bind]; [|done]. apply IH. by eapply inv_step.
Qed.

Lemma inv_reached n0 ls s : 0 <= n0.(disk_counter) < 2 ^ 64 → steps ls (start n0) = Some s → inv n0 s.
Proof. intros Hr. apply inv_steps. by apply inv_start. Qed.

(** ** Nobody waits for ever *)

(** A step of what is under way: no new call. *)
Definition internal (l : label) : Prop := match l with Call _ _ => False | _ => True end.

(** Everything sent is done, and everybody has an answer. *)
Definition quiet (s : sys) : Prop :=
  s.(ioWorker) = Idle ∧ s.(io_task_chan) = [] ∧ ∀ id c, s.(io_calls) !! id = Some c → ∃ a, c.(at_) = Returned a.

(** At most so many steps are left. *)
Definition pc_left (p : pc) : nat := match p with Sending => 7 | Counting => 2 | Waiting => 1 | Returned _ => 0 end.
Definition worker_left (v : worker_state) : nat :=
  match v with Idle => 0 | Answer _ _ | AnswerAgain _ _ => 1 | Writing _ _ _ _ => 2 | AnswerThenWrite _ _ _ _ _ => 3 end.
Definition steps_left (s : sys) : nat :=
  (weigh pc_left s.(io_calls) + 4 * length s.(io_task_chan) + worker_left s.(ioWorker))%nat.

Lemma begin_task_left w id t ns : (worker_left (begin_task w id t ns).1 ≤ 3)%nat.
Proof.
  destruct t; cbn [begin_task]; unfold run_io; cbn; repeat case_match; cbn; lia.
Qed.

Lemma step_left l s s' : internal l → step l s = Some s' → (steps_left s' < steps_left s)%nat.
Proof.
  unfold steps_left. destruct l as [id t|id|id|id|w| |]; cbn [step internal]; [done|intros _..].
  - destruct (s.(io_calls) !! id) as [[t [| | |] d]|] eqn:E; try done. case_decide; [|done]. intros [= <-]. cbn -[Nat.mul].
    rewrite length_app. cbn [length]. set (c' := goto _ _). pose proof (weigh_update pc_left id _ c' _ E) as Hw. cbn [at_ pc_left] in Hw.
    assert (pc_left c'.(at_) ≤ 2)%nat by (by destruct t; cbn; lia). lia.
  - destruct (s.(io_calls) !! id) as [[t [| | |] d]|] eqn:E; try done. intros [= <-]. cbn -[Nat.mul].
    set (c' := goto _ _). pose proof (weigh_update pc_left id _ c' _ E) as Hw. cbn [at_ pc_left c' goto] in Hw. lia.
  - destruct (s.(io_calls) !! id) as [[t [| | |] [|a d]]|] eqn:E; try done. intros [= <-]. cbn -[Nat.mul].
    set (c' := IoCall _ _ _). pose proof (weigh_update pc_left id _ c' _ E) as Hw. cbn [at_ pc_left c'] in Hw. lia.
  - destruct (s.(ioWorker)); try done. destruct (s.(io_task_chan)) as [|[id t] rest]; [done|].
    pose proof (begin_task_left w id t s.(node)). destruct (begin_task w id t s.(node)) as [v ns]. intros [= <-]. cbn in *. lia.
  - assert (∀ id a next, put_done id a next s = Some s' →
      weigh pc_left s'.(io_calls) = weigh pc_left s.(io_calls) ∧ s'.(io_task_chan) = s.(io_task_chan) ∧ s'.(ioWorker) = next) as Hput.
    { intros id a next. unfold put_done. destruct (s.(io_calls) !! id) as [c|] eqn:E; [|done]. case_decide; [|done].
      intros [= <-]. cbn. split; [|done]. set (c' := IoCall _ _ _). pose proof (weigh_update pc_left id c c' _ E) as Hw. cbn [at_ c'] in Hw. lia. }
    destruct (s.(ioWorker)); try done; intros (-> & -> & ->)%Hput; cbn; lia.
  - destruct (s.(ioWorker)); try done. destruct (writeFile _ _ _ _) as [r ns]. intros [= <-]. cbn. lia.
Qed.

Lemma steps_left_bound ls s s' : Forall internal ls → steps ls s = Some s' → (length ls + steps_left s' ≤ steps_left s)%nat.
Proof.
  intros Hl. revert s. induction Hl as [|l ls Hl _ IH]; intros s; cbn [steps]; [intros [= <-]; cbn; lia|].
  destruct (step l s) as [s1|] eqn:E; cbn [mbind option_bind]; [|done]. intros H%IH. pose proof (step_left l s s1 Hl E). cbn. lia.
Qed.

Definition some_world : world := World (λ _, Ok tt) (λ _, Ok "") (λ _ _ _ _ _, Ok (0, 0, [])).

(** The channel of the worker's task has room, or its caller makes some. *)
Lemma next_step n0 s : inv n0 s → (∃ l s', internal l ∧ step l s = Some s') ∨ quiet s.
Proof.
  intros Hi.
  assert (∀ id c a next, s.(io_calls) !! id = Some c → c.(done_chan) = [] → ∃ s', put_done id a next s = Some s') as Hput.
  { intros id c a next Hc Hd. unfold put_done. rewrite Hc, Hd. by eexists. }
  assert (∀ id c a, s.(io_calls) !! id = Some c → c.(done_chan) = [a] → pending c.(at_) = true →
    ∃ l s', internal l ∧ step l s = Some s') as Htake.
  { intros id [t p d] a Hc Hd Hp. cbn in Hd, Hp. subst d. destruct p; [done| | |done].
    - eexists (Count id), _. cbn [step]. by rewrite Hc.
    - eexists (Return_ id), _. cbn [step]. by rewrite Hc. }
  pose proof (i_first _ _ Hi) as Hf. pose proof (i_again _ _ Hi) as Hg.
  destruct (s.(ioWorker)) as [|id a|id a f b w|id f b w|id a] eqn:Ew.
  - destruct (s.(io_task_chan)) as [|[id t] rest] eqn:Ec.
    2: { left. eexists (Take some_world), _. cbn [step]. rewrite Ew, Ec. split; [done|].
      by rewrite (surjective_pairing (begin_task _ _ _ _)). }
    destruct (decide (map_Forall (λ _ c, pc_left c.(at_) = 0%nat) s.(io_calls))) as [Hall|Hno].
    + right. split; [done|]. split; [done|]. intros id c Hc. specialize (Hall id c Hc).
      cbn in Hall. destruct (at_ c); [done..|by eexists].
    + left. apply map_not_Forall in Hno as (id & c & Hc & Hne); [|apply _]. pose proof (i_calls _ _ Hi id c Hc) as Hok.
      unfold call_ok, due_in in Hok. rewrite Ew, Ec in Hok. destruct c as [t p d]. cbn in Hok, Hne.
      destruct p as [| | |a]; [| | |done].
      * eexists (Send id), _. cbn [step]. rewrite Hc, Ec, decide_True by (cbn; unfold io_task_cap; lia). done.
      * destruct Hok as [[_ [?%elem_of_nil|(a & ?)]]|(a & -> & _)]; [done|done|by eapply Htake].
      * destruct Hok as [[_ [?%elem_of_nil|(a & ?)]]|(a & -> & _)]; [done|done|by eapply Htake].
  - left. destruct (Hf id a eq_refl) as (_ & c & Hc & Hd & _). destruct (Hput id c a Idle Hc Hd) as [s' E].
    exists Put, s'. cbn [step]. by rewrite Ew.
  - left. destruct (Hf id a eq_refl) as (_ & c & Hc & Hd & _). destruct (Hput id c a (Writing id f b w) Hc Hd) as [s' E].
    exists Put, s'. cbn [step]. by rewrite Ew.
  - left. eexists Write_, _. cbn [step]. rewrite Ew. split; [done|]. by rewrite (surjective_pairing (writeFile _ _ _ _)).
  - left. destruct (Hg id eq_refl) as (c & Hc & [(b & _ & Hd)|(b & Hd & Hpe)]); [|by eapply Htake].
    destruct (Hput id c a Idle Hc Hd) as [s' E]. exists Put, s'. cbn [step]. by rewrite Ew.
Qed.

Lemma stuck_quiet n0 s : inv n0 s → (∀ l, internal l → step l s = None) → quiet s.
Proof. intros Hi Hno. destruct (next_step n0 s Hi) as [(l & s' & Hl & E)|H]; [|done]. by rewrite Hno in E. Qed.

(** ** What the calls are answered *)

Lemma replay_answer n0 l id a :
  (id, a) ∈ (replay n0 l).1 →
  ∃ l1 t w l2, l = l1 ++ (id, t, w) :: l2 ∧ a = (run_task w t (replay n0 l1).2).1.
Proof.
  induction l as [|[[id' t] w] l IH] using rev_ind; [by intros ?%elem_of_nil|].
  rewrite replay_snoc. cbn [fst]. intros [H|[= -> ->]%list_elem_of_singleton]%elem_of_app.
  - destruct (IH H) as (l1 & t' & w' & l2 & -> & ->). exists l1, t', w', (l2 ++ [(id', t, w)]). by rewrite <- app_assoc.
  - by exists l, t, w, [].
Qed.

Lemma replay_counter n0 l :
  0 <= n0.(disk_counter) < 2 ^ 64 →
  (replay n0 l).2.(disk_counter) = (n0.(disk_counter) + Z.of_nat (flushes l.*1)) mod 2 ^ 64.
Proof.
  intros Hr. induction l as [|[[id t] w] l IH] using rev_ind; [cbn; rewrite Z.add_0_r; by rewrite Z.mod_small|].
  rewrite replay_snoc. cbn [snd]. rewrite run_task_counter, fmap_app.
  change ([(id, t, w)].*1) with [(id, t)]. rewrite flushes_snoc, IH. cbn [fst snd].
  destruct (is_flush t); [|by rewrite Nat.add_0_r]. rewrite Zplus_mod_idemp_l. f_equal. lia.
Qed.

Lemma weigh_zero f m : (∀ id c, m !! id = Some c → f c.(at_) = 0%nat) → weigh f m = 0%nat.
Proof.
  induction m as [|id c m Hid IH] using map_ind; intros H; [done|]. rewrite weigh_insert by done.
  rewrite (H id c) by apply lookup_insert_eq. apply IH. intros id' c' H'. apply (H id').
  rewrite lookup_insert_ne; [done|]. intros ->. congruence.
Qed.

Lemma uncounted_eq ns ns' : uncounted ns = uncounted ns' → ns.(disk_counter) = ns'.(disk_counter) → ns = ns'.
Proof. destruct ns, ns'. unfold uncounted. cbn. intros. by simplify_eq. Qed.

(** ** Properties *)

(** C26. The disk tasks of graph are done one at a time: however the goroutines are
interleaved, the worker has done a prefix of the tasks in the order in which they
were sent; a call that has its answer has that of its own task, run as a whole on
the state that the tasks before it left; and when nothing is under way the node is
as if the tasks had been run one after the other, its counter of flushes included. *)
Theorem disk_tasks_serial n0 ls s :
  0 <= n0.(disk_counter) < 2 ^ 64 → steps ls (start n0) = Some s →
  s.(sent) = s.(served).*1 ++ s.(io_task_chan) ∧ NoDup s.(sent).*1 ∧
  (∀ id c a, s.(io_calls) !! id = Some c → c.(at_) = Returned a →
    ∃ l1 w l2, s.(served) = l1 ++ (id, c.(task), w) :: l2 ∧ a = (run_task w c.(task) (replay n0 l1).2).1) ∧
  (quiet s → s.(node) = (replay n0 s.(served)).2).
Proof.
  intros Hr Hs. pose proof (inv_reached n0 ls s Hr Hs) as [].
  split; [done|]. split; [done|]. split.
  - intros id c a Hc Ha. pose proof (i_calls0 id c Hc) as Hok. unfold call_ok in Hok. rewrite Ha in Hok. destruct Hok as [Hin _].
    destruct (replay_answer _ _ _ _ Hin) as (l1 & t & w & l2 & E & ->).
    destruct (i_known0 id t) as (c' & Hc' & <- & _); [rewrite i_sent0, E, fmap_app; set_solver|].
    simplify_eq. by exists l1, w, l2.
  - intros (Ew & Ec & Hall). rewrite Ew in i_node0. rewrite Ec, app_nil_r in i_sent0. apply uncounted_eq; [done|].
    rewrite replay_counter, <- i_sent0, <- i_counter0 by done.
    rewrite weigh_zero, Z.add_0_r by (intros id c Hc; by destruct (Hall id c Hc) as [a ->]). by rewrite Z.mod_small.
Qed.

(** A write to a directory that cannot be made, and a read behind it, of which
the second is sent while the worker is at the first. *)
Definition no_dir : world :=
  World (λ q, match q with InsureDir _ => Err "read-only" | _ => Ok tt end) (λ f, Ok ("content of " +:+ f))
    (λ _ _ _ _ _, Err "no file").
Definition ex_steps : list label := [
  Call 0 (IO_TASK_M_WRITE "a.rrd" "body"); Send 0; Take no_dir; Call 1 (IO_TASK_M_READ "a.rrd"); Send 1;
  Put; Write_; Return_ 0; Put; Take no_dir; Put; Return_ 1].

Lemma ex_ends ns :
  match steps ex_steps (start ns) with
  | Some s => (at_ <$> s.(io_calls) !! 0%nat) = Some (Returned (Wrote (Err "read-only"))) ∧
      (done_chan <$> s.(io_calls) !! 0%nat) = Some [Wrote (Ok tt)]
  | None => False
  end.
Proof. vm_compute. done. Qed.
Lemma ex_begins ns : match steps (take 5 ex_steps) (start ns) with Some _ => True | None => False end.
Proof. vm_compute. done. Qed.

Lemma disk_tasks_serial_witness :
  ∃ s c l1 w l2, steps ex_steps (start (ex_node (initial ∅))) = Some s ∧
    s.(io_calls) !! 0%nat = Some c ∧ c.(at_) = Returned (Wrote (Err "read-only")) ∧ c.(done_chan) = [Wrote (Ok tt)] ∧
    s.(served) = l1 ++ (0%nat, c.(task), w) :: l2 ∧
    Wrote (Err "read-only") = (run_task w c.(task) (replay (ex_node (initial ∅)) l1).2).1.
Proof.
  pose proof (ex_ends (ex_node (initial ∅))) as H.
  destruct (steps ex_steps (start (ex_node (initial ∅)))) as [s|] eqn:E; [destruct H as [Ea Ed]|destruct H].
  destruct (disk_tasks_serial (ex_node (initial ∅)) ex_steps s) as (_ & _ & Hans & _); [cbn; lia|exact E|].
  apply fmap_Some in Ea as (c & Hc & Ea). rewrite Hc in Ed. injection Ed as Ed. symmetry in Ea.
  destruct (Hans 0%nat c _ Hc Ea) as (l1 & w & l2 & Es & Er).
  exists s, c, l1, w, l2. split_and!; (reflexivity || assumption).
Defined.

(** C27. Nobody waits for ever on the disk of graph: from any state that the
goroutines reach, what is under way ends after at most [steps_left] steps, and
where no step is left every task has been done and every call has its answer; so
[ioWorker] is not stopped by the second answer of a write whose directory could
not be made. *)
Theorem disk_tasks_answered n0 ls s :
  0 <= n0.(disk_counter) < 2 ^ 64 → steps ls (start n0) = Some s →
  (∀ ls' s', Forall internal ls' → steps ls' s = Some s' →
    (length ls' ≤ steps_left s)%nat ∧ ((∀ l, internal l → step l s' = None) → quiet s')) ∧
  ∃ ls' s', Forall internal ls' ∧ steps ls' s = Some s' ∧ quiet s'.
Proof.
  intros Hr Hs. pose proof (inv_reached n0 ls s Hr Hs) as Hi. split.
  - intros ls' s' Hl Hs'. pose proof (steps_left_bound ls' s s' Hl Hs'). split; [lia|].
    apply (stuck_quiet n0). by eapply inv_steps.
  - clear Hs. remember (steps_left s) as n eqn:En. assert (steps_left s ≤ n)%nat as Hn by lia. clear En.
    revert s Hi Hn. induction n as [n IH] using lt_wf_ind. intros s Hi Hn.
    destruct (next_step n0 s Hi) as [(l & s1 & Hl & E)|Hq].
    + pose proof (step_left l s s1 Hl E). destruct (IH (steps_left s1)) with (s := s1) as (ls' & s' & Hls & Hs' & Hq);
        [lia|by eapply inv_step|done|].
      exists (l :: ls'), s'. split; [by constructor|]. cbn [steps]. by rewrite E.
    + by exists [], s.
Qed.

Lemma disk_tasks_answered_witness :
  ∃ s, steps (take 5 ex_steps) (start (ex_node (initial ∅))) = Some s ∧
    ∃ ls' s', Forall internal ls' ∧ steps ls' s = Some s' ∧ quiet s'.
Proof.
  pose proof (ex_begins (ex_node (initial ∅))) as H.
  destruct (steps (take 5 ex_steps) (start (ex_node (initial ∅)))) as [s|] eqn:E; [clear H|destruct H].
  exists s. split; [reflexivity|].
  destruct (disk_tasks_answered (ex_node (initial ∅)) (take 5 ex_steps) s) as [_ H]; [cbn; lia|exact E|exact H].
Defined.

(** The worker waits with its second answer until the first is taken. *)
Example second_answer_waits :
  match steps (take 7 ex_steps) (start (ex_node (initial ∅))) with
  | Some s => bool_decide (is_Some (step Put s))
  | None => true
  end = false ∧
  match steps (take 8 ex_steps) (start (ex_node (initial ∅))) with
  | Some s => bool_decide (is_Some (step Put s))
  | None => false
  end = true.
Proof. vm_compute. done. Qed.

(** The file is there though the caller was told that it is not. *)
Example written_after_all :
  match steps ex_steps (start (ex_node (initial ∅))) with
  | Some s => bool_decide ("a.rrd" ∈ s.(node).(graph).(files))
  | None => false
  end = true.
Proof. vm_compute. reflexivity. Qed.
