(* ===== verification/Regex.v ===== *)
(** * Regular expressions (the standard library's regexp, as far as it is used)

The aggregator and the agent match strings against fixed patterns.  A pattern is
a [regex]; [matches] says which strings it describes and [match_string] decides
it by derivatives.  The patterns used only tell ASCII characters apart and are
anchored at both ends, so that matching the bytes of a string is matching its
runes. *)

From S2P Require Import Prelude GoFloat GoString.
From Stdlib Require Import Ascii.
From stdpp Require Import options.

Inductive regex : Type :=
| REmpty
| REps
| RChar (p : ascii → bool)
| RCat (r1 r2 : regex)
| RAlt (r1 r2 : regex)
| RStar (r : regex).

(** The strings a pattern describes. *)
Inductive matches : regex → string → Prop :=
| m_eps : matches REps ""
| m_char p c : p c = true → matches (RChar p) (String c "")
| m_cat r1 r2 s1 s2 : matches r1 s1 → matches r2 s2 → matches (RCat r1 r2) (s1 +:+ s2)
| m_alt_l r1 r2 s : matches r1 s → matches (RAlt r1 r2) s
| m_alt_r r1 r2 s : matches r2 s → matches (RAlt r1 r2) s
| m_star_nil r : matches (RStar r) ""
| m_star_app r s1 s2 : matches r s1 → matches (RStar r) s2 → matches (RStar r) (s1 +:+ s2).
#[export] Hint Constructors matches : go.

(** Constructors that simplify, so that derivatives stay small. *)
Definition cat (r1 r2 : regex) : regex :=
  match r1 with REmpty => REmpty | REps => r2 | _ => RCat r1 r2 end.
Definition alt (r1 r2 : regex) : regex :=
  match r1, r2 with REmpty, _ => r2 | _, REmpty => r1 | _, _ => RAlt r1 r2 end.

Fixpoint nullable (r : regex) : bool :=
  match r with
  | REmpty | RChar _ => false
  | REps | RStar _ => true
  | RCat r1 r2 => nullable r1 && nullable r2
  | RAlt r1 r2 => nullable r1 || nullable r2
  end.

Fixpoint deriv (c : ascii) (r : regex) : regex :=
  match r with
  | REmpty | REps => REmpty
  | RChar p => if p c then REps else REmpty
  | RCat r1 r2 =>
      let d := cat (deriv c r1) r2 in if nullable r1 then alt d (deriv c r2) else d
  | RAlt r1 r2 => alt (deriv c r1) (deriv c r2)
  | RStar r => cat (deriv c r) (RStar r)
  end.

(** [regexp.MatchString] for an anchored pattern *)
Fixpoint match_string (r : regex) (s : string) : bool :=
  match s with "" => nullable r | String c s => match_string (deriv c r) s end.

(** ** The vocabulary of the patterns *)

Definition r_char (c : ascii) : regex := RChar (λ a, bool_decide (a = c)).
Fixpoint r_string (s : string) : regex :=
  match s with "" => REps | String c s => RCat (r_char c) (r_string s) end.
Definition r_plus (r : regex) : regex := RCat r (RStar r).
Definition r_opt (r : regex) : regex := RAlt REps r.
Definition r_cats : list regex → regex := foldr RCat REps.
Definition r_alts : list regex → regex := foldr RAlt REmpty.

Definition is_digit (c : ascii) : bool := bool_decide (is_Some (digit c)).
(** [\d] *)
Definition r_digit : regex := RChar is_digit.

(** ** Correctness of the matcher *)

Lemma matches_eps s : matches REps s ↔ s = "".
Proof. split; [by inversion 1|]. intros ->. constructor. Qed.
Lemma matches_empty s : ¬ matches REmpty s.
Proof. by inversion 1. Qed.
Lemma matches_char p s : matches (RChar p) s ↔ ∃ c, p c = true ∧ s = String c "".
Proof. split; [inversion 1; eauto|]. intros (c & ? & ->). by constructor. Qed.
Lemma matches_cat r1 r2 s :
  matches (RCat r1 r2) s ↔ ∃ s1 s2, s = s1 +:+ s2 ∧ matches r1 s1 ∧ matches r2 s2.
Proof. split; [inversion 1; subst; eauto 6|]. intros (s1 & s2 & -> & ? & ?). by constructor. Qed.
Lemma matches_alt r1 r2 s : matches (RAlt r1 r2) s ↔ matches r1 s ∨ matches r2 s.
Proof. split; [inversion 1; subst; eauto|]. intros [?|?]; eauto with go. Qed.
Lemma matches_star r s :
  matches (RStar r) s ↔ s = "" ∨ ∃ s1 s2, s = s1 +:+ s2 ∧ matches r s1 ∧ matches (RStar r) s2.
Proof.
  split; [inversion 1; subst; [by left|right; eauto 6]|].
  intros [->|(s1 & s2 & -> & ? & ?)]; [apply m_star_nil|by apply m_star_app].
Qed.

(** A non-empty match of a star starts with a non-empty match of its body. *)
Lemma matches_star_cons r c s :
  matches (RStar r) (String c s) ↔
  ∃ s1 s2, s = s1 +:+ s2 ∧ matches r (String c s1) ∧ matches (RStar r) s2.
Proof.
  split.
  - intros H. remember (RStar r) as q eqn:Eq. remember (String c s) as u eqn:Eu. revert c s Eu.
    induction H as [| | | | |q'|q' s1 s2 H1 _ H2 IH]; intros c0 s0 Eu; simplify_eq.
    destruct s1 as [|a s1]; [by apply IH|]. cbn in Eu. simplify_eq. by exists s1, s2.
  - intros (s1 & s2 & -> & ? & ?). apply (m_star_app r (String c s1) s2); done.
Qed.

Lemma matches_smart_cat r1 r2 s : matches (cat r1 r2) s ↔ matches (RCat r1 r2) s.
Proof.
  unfold cat. destruct r1; try done; rewrite matches_cat.
  - split; [by intros ?%matches_empty|]. by intros (? & ? & _ & ?%matches_empty & _).
  - split; [intros H; exists "", s; eauto with go|]. by intros (? & ? & -> & ->%matches_eps & ?).
Qed.

Lemma matches_smart_alt r1 r2 s : matches (alt r1 r2) s ↔ matches (RAlt r1 r2) s.
Proof.
  rewrite matches_alt. assert (¬ matches REmpty s) as He by apply matches_empty.
  unfold alt. destruct r1, r2; try tauto; rewrite matches_alt; tauto.
Qed.

Lemma nullable_spec r : nullable r = true ↔ matches r "".
Proof.
  induction r as [| |p|r1 IH1 r2 IH2|r1 IH1 r2 IH2|r IH]; cbn.
  - split; [done|]. by intros ?%matches_empty.
  - split; [constructor|done].
  - split; [done|]. by intros (c & _ & ?)%matches_char.
  - rewrite andb_true_iff, IH1, IH2, matches_cat. split.
    + intros [??]. by exists "", "".
    + intros ([|] & [|] & E & ? & ?); done.
  - rewrite orb_true_iff, IH1, IH2, matches_alt. done.
  - split; [constructor|done].
Qed.

Lemma deriv_spec c r s : matches (deriv c r) s ↔ matches r (String c s).
Proof.
  revert s. induction r as [| |p|r1 IH1 r2 IH2|r1 IH1 r2 IH2|r IH]; intros s; cbn [deriv].
  - split; by intros ?%matches_empty.
  - split; [by intros ?%matches_empty|]. by intros ?%matches_eps.
  - rewrite matches_char. destruct (p c) eqn:E.
    + rewrite matches_eps. split; [intros ->; eauto|]. intros (? & _ & ?). by simplify_eq.
    + split; [by intros ?%matches_empty|]. intros (? & ? & ?). simplify_eq. congruence.
  - assert (matches (RCat (deriv c r1) r2) s ↔
      ∃ s1 s2, s = s1 +:+ s2 ∧ matches r1 (String c s1) ∧ matches r2 s2) as Hd.
    { rewrite matches_cat. by setoid_rewrite IH1. }
    assert (matches (RCat r1 r2) (String c s) ↔
      (∃ s1 s2, s = s1 +:+ s2 ∧ matches r1 (String c s1) ∧ matches r2 s2) ∨
      matches r1 "" ∧ matches r2 (String c s)) as ->.
    { rewrite matches_cat. split.
      - intros ([|a s1] & s2 & E & H1 & H2); [right; cbn in E; by subst|]. cbn in E. simplify_eq. left; eauto.
      - intros [(s1 & s2 & -> & ? & ?)|[? ?]]; [by exists (String c s1), s2|by exists "", (String c s)]. }
    destruct (nullable r1) eqn:En.
    + rewrite matches_smart_alt, matches_alt, matches_smart_cat, Hd, IH2.
      apply nullable_spec in En. tauto.
    + rewrite matches_smart_cat, Hd. split; [tauto|]. intros [?|[Hn%nullable_spec _]]; [done|congruence].
  - rewrite matches_smart_alt, !matches_alt, IH1, IH2. done.
  - rewrite matches_smart_cat, matches_cat, matches_star_cons. by setoid_rewrite IH.
Qed.

Lemma match_string_spec r s : match_string r s = true ↔ matches r s.
Proof.
  revert r. induction s as [|c s IH]; intros r; cbn [match_string].
  - apply nullable_spec.
  - rewrite IH. apply deriv_spec.
Qed.

(** ** What the vocabulary describes *)

Lemma matches_r_char c s : matches (r_char c) s ↔ s = String c "".
Proof.
  unfold r_char. rewrite matches_char. split; [by intros (a & ->%bool_decide_eq_true & ->)|].
  intros ->. exists c. by rewrite bool_decide_eq_true.
Qed.

Lemma matches_r_string t s : matches (r_string t) s ↔ s = t.
Proof.
  revert s. induction t as [|c t IH]; intros s; cbn [r_string]; [apply matches_eps|].
  rewrite matches_cat. setoid_rewrite matches_r_char. setoid_rewrite IH. split.
  - by intros (? & ? & -> & -> & ->).
  - intros ->. by exists (String c ""), t.
Qed.

Lemma matches_r_plus r s :
  matches (r_plus r) s ↔ ∃ s1 s2, s = s1 +:+ s2 ∧ matches r s1 ∧ matches (RStar r) s2.
Proof. apply matches_cat. Qed.

Lemma matches_r_opt r s : matches (r_opt r) s ↔ s = "" ∨ matches r s.
Proof. unfold r_opt. by rewrite matches_alt, matches_eps. Qed.

Lemma matches_cats_cons r rs s :
  matches (r_cats (r :: rs)) s ↔ ∃ s1 s2, s = s1 +:+ s2 ∧ matches r s1 ∧ matches (r_cats rs) s2.
Proof. apply matches_cat. Qed.

Lemma matches_r_alts rs s : matches (r_alts rs) s ↔ ∃ r, r ∈ rs ∧ matches r s.
Proof.
  induction rs as [|r rs IH].
  - split; [by intros ?%matches_empty|]. by intros (? & ?%not_elem_of_nil & _).
  - change (r_alts (r :: rs)) with (RAlt r (r_alts rs)). rewrite matches_alt, IH.
    setoid_rewrite elem_of_cons. naive_solver.
Qed.

Lemma matches_char_star p s : matches (RStar (RChar p)) s ↔ all_chars p s = true.
Proof.
  induction s as [|c s IH]; cbn [all_chars].
  - split; [done|]. intros _. constructor.
  - rewrite matches_star_cons, andb_true_iff, <- IH. split.
    + intros (s1 & s2 & -> & (a & Ha & E)%matches_char & H2). by simplify_eq.
    + intros [Hp Hs]. exists "", s. split_and!; [done| |done]. apply matches_char. by exists c.
Qed.

Lemma matches_char_plus p s : matches (r_plus (RChar p)) s ↔ s ≠ "" ∧ all_chars p s = true.
Proof.
  unfold r_plus. rewrite matches_cat. setoid_rewrite matches_char_star. split.
  - intros (s1 & s2 & -> & (c & Hc & ->)%matches_char & H2). cbn. by rewrite Hc, H2.
  - destruct s as [|c s]; [by intros []|]. cbn. intros [_ [Hp Hs]%andb_true_iff].
    exists (String c ""), s. split_and!; [done| |done]. apply matches_char. by exists c.
Qed.

Example match_ex : match_string (r_cats [r_plus r_digit; r_opt (r_cats [r_char "."; r_plus r_digit])]) "12.5" = true.
Proof. reflexivity. Qed.
