(* ===== verification/Aggregator.v ===== *)
(** * The aggregator: cluster metrics (modules/aggregator)

A cluster item divides two expressions over the hosts of a group, such as
[($(cpu.busy)+$(cpu.idle))>80] by [$#].  Here are the validation and the parser
of the expressions, the evaluation of an item ([WorkerRun]), and the workers
that evaluate the items of the database, one per item. *)

From S2P Require Import Prelude GoFloat GoString Hash Tags Model Containers Regex.
From Stdlib Require Import Ascii.
From stdpp Require Import options.

(** ** g/items.go *)

Module Cluster.
Record t : Set := mk {
  Id : Z; GroupId : Z; Numerator : string; Denominator : string; Endpoint : string;
  Metric : string; Tags : string; DsType : string; Step : Z; LastUpdate : string }.
End Cluster.

(** ** Expressions (cron/run.go) *)

Definition cleanParam (val : string) : string :=
  let val := TrimSpace val in
  let val := remove_char " " val in
  let val := remove_char (ascii_of_nat 13) val in
  let val := remove_char (ascii_of_nat 10) val in
  remove_char (ascii_of_nat 9) val.

Definition needCompute (val : string) : bool := contains_str "$(" val.

(** [\$\([^\(\)]+\)] *)
Definition not_paren (c : ascii) : bool := bool_decide (c ≠ "("%char ∧ c ≠ ")"%char).
Definition r_counter : regex := r_cats [r_string "$("; r_plus (RChar not_paren); r_char ")"].
(** [(\$\([^\(\)]+\)[+-])*\$\([^\(\)]+\)] *)
Definition r_counters : regex :=
  r_cats [RStar (r_cats [r_counter; r_alts [r_char "+"; r_char "-"]]); r_counter].
(** [(>|=|<|>=|<=)\d+(\.\d+)?] *)
Definition r_compare : regex :=
  r_cats [r_alts [r_string ">"; r_string "="; r_string "<"; r_string ">="; r_string "<="];
          r_plus r_digit; r_opt (r_cats [r_char "."; r_plus r_digit])].

Definition matchMode0 : regex := r_counters.
Definition matchMode1 : regex := r_cats [r_counter; r_compare].
Definition matchMode2 : regex := r_cats [r_char "("; r_counters; r_char ")"; r_compare].
Definition matchMode3 : regex := r_plus r_digit.

Definition expressionValid (val : string) : bool :=
  if contains_str "（" val || contains_str "）" val then false
  else if decide (val = "$#") then true
  else if match_string matchMode0 val then true
  else if match_string matchMode1 val then true
  else if match_string matchMode2 val then true
  else match_string matchMode3 val.

Definition operatorsValid (ops : list string) : bool :=
  forallb (λ op, negb (bool_decide (op ≠ "+" ∧ op ≠ "-"))) ops.

(** [regexp.Split] by the runs of separators [[\$\(\)]+]: the pieces between
them, the empty ones at both ends included. *)
Definition is_sep (c : ascii) : bool := bool_decide (c = "$"%char ∨ c = "("%char ∨ c = ")"%char).
Fixpoint split_seps (in_sep : bool) (s : string) : list string :=
  match s with
  | "" => [""]
  | String c s =>
      if is_sep c then (if in_sep then split_seps true s else "" :: split_seps true s)
      else match split_seps false s with
           | h :: t => String c h :: t
           | [] => [String c ""]
           end
  end.

(** The values at even and at odd places: operands and operators. *)
Fixpoint alternate (i : nat) (vals : list string) : list string * list string :=
  match vals with
  | [] => ([], [])
  | val :: vals =>
      let '(operands, operators) := alternate (S i) vals in
      if decide (Nat.modulo i 2 = 0%nat) then (val :: operands, operators) else (operands, val :: operators)
  end.

(** [items[1 : count-1]] *)
Definition inner_items (items : list string) : go (list string) :=
  let count := length items in
  if decide (2 <= count)%nat then Ret (take (count - 2) (drop 1 items)) else Panic SliceBounds.

Definition parse (expression : string) (needCompute : bool) : go (list string * list string * string) :=
  if negb needCompute then Ret ([], [], "")
  else
    let items := split_seps false expression in
    let count := Z.of_nat (length items) in
    inner ← inner_items items;
    computeMode ← at_index items (count - 1);
    Ret (alternate 0 inner, computeMode).

(** ** Evaluation (cron/computer.go, cron/query.go) *)

Definition queryOperands (counters : list string) (endpoint : string) (valMap : gmap string float64) :
    list float64 :=
  omap (λ counter, valMap !! (endpoint +:+ counter)) counters.

(** [([><=]+)([\d\.]+)]: the leftmost match, its two groups as long as possible. *)
Definition is_cmp (c : ascii) : bool := bool_decide (c = ">"%char ∨ c = "<"%char ∨ c = "="%char).
Definition is_num (c : ascii) : bool := is_digit c || bool_decide (c = "."%char).
Fixpoint span (p : ascii → bool) (s : string) : string * string :=
  match s with
  | "" => ("", "")
  | String c s' => if p c then let '(a, b) := span p s' in (String c a, b) else ("", s)
  end.
Fixpoint find_compare (s : string) : option (string * string) :=
  let '(mode, rest) := span is_cmp s in
  let '(num, _) := span is_num rest in
  if bool_decide (mode ≠ "" ∧ num ≠ "") then Some (mode, num)
  else match s with "" => None | String _ s => find_compare s end.

(** [val, _ := strconv.ParseFloat(s, 64)]: the value that comes with an error. *)
Definition ParseFloat_value (s : string) : float64 :=
  match ParseFloat s with
  | Ok f => f
  | Err e => if decide (e = errRange) then f64_inf (sign_of s).1 else f64_zero
  end.

Definition compareSum (sum : float64) (computeMode : string) : go bool :=
  match find_compare computeMode with
  | None => Panic IndexOutOfRange
  | Some (mode, num) =>
      let val := ParseFloat_value num in
      Ret (if decide (mode = ">") then f64_lt val sum
           else if decide (mode = "<") then f64_lt sum val
           else if decide (mode = "=") then f64_eq sum val
           else if decide (mode = ">=") then f64_le val sum
           else if decide (mode = "<=") then f64_le sum val
           else false)
  end.

(** The loop over [vals[1:]]: [operators[i]] may be out of range. *)
Fixpoint add_up (operators : list string) (i : Z) (vals : list float64) (sum : float64) : go float64 :=
  match vals with
  | [] => Ret sum
  | v :: vals =>
      op ← at_index operators i;
      add_up operators (i + 1) vals (if decide (op = "+") then f64_add sum v else f64_sub sum v)
  end.

Definition compute (operands operators : list string) (computeMode hostname : string)
    (valMap : gmap string float64) : go (result float64) :=
  if decide (length operands = 0%nat) then Ret (Err "counter not found")
  else
    match queryOperands operands hostname valMap with
    | v0 :: vals =>
        if decide (length (v0 :: vals) ≠ length operands) then Ret (Err "value invalid")
        else
          sum ← add_up operators 0 vals v0;
          if decide (computeMode ≠ "") then
            b ← compareSum sum computeMode;
            Ret (Ok (if b : bool then f64_of_Z 1 else f64_zero))
          else Ret (Ok sum)
    | [] => Ret (Err "value invalid")
    end.

(** An answer of the API to [QueryLastPoints]. *)
Record last_resp : Set := LastResp { rEndpoint : string; rCounter : string; rValue : option RRDData.t }.

Definition query_point (begin_ts end_ts : Z) (ret : gmap string float64) (res : last_resp) :
    go (gmap string float64) :=
  v ← deref res.(rValue);
  Ret (if (v.(RRDData.Timestamp) <? begin_ts) || (end_ts <? v.(RRDData.Timestamp)) then ret
       else <[res.(rEndpoint) +:+ res.(rCounter) := v.(RRDData.Value)]> ret).

(** [QueryLastPoints], the remote call, is an argument: its answer for all the
hosts and all the counters. *)
Definition queryCounterLast (QueryLastPoints : list string → list string → result (list last_resp))
    (numeratorOperands denominatorOperands hostnames : list string) (begin_ts end_ts : Z) :
    go (result (gmap string float64)) :=
  let counters := numeratorOperands ++ denominatorOperands in
  match QueryLastPoints hostnames counters with
  | Err e => Ret (Err e)
  | Ok resp => ret ← go_foldl (query_point begin_ts end_ts) ∅ resp; Ret (Ok ret)
  end.

(** ** An item (cron/run.go) *)

Section worker.
Context (HostnamesByID : Z → result (list string))
  (QueryLastPoints : list string → list string → result (list last_resp)).

(** One side of the division for a host: [0] when it is not to be computed. *)
Definition side_value (needed : bool) (p : list string * list string * string) (hostname : string)
    (valueMap : gmap string float64) : go (result float64) :=
  if needed then compute p.1.1 p.1.2 p.2 hostname valueMap else Ret (Ok f64_zero).

(** The body of the loop over the hosts: the two sums and the number of valid hosts. *)
Definition host_values (nn nd : bool) (pn pd : list string * list string * string)
    (valueMap : gmap string float64) (acc : float64 * float64 * Z) (hostname : string) :
    go (float64 * float64 * Z) :=
  let '(numerator, denominator, validCount) := acc in
  n ← side_value nn pn hostname valueMap;
  match n : result float64 with
  | Err _ => Ret acc
  | Ok numeratorVal =>
      d ← side_value nd pd hostname valueMap;
      match d : result float64 with
      | Err _ => Ret acc
      | Ok denominatorVal =>
          Ret (f64_add numerator numeratorVal, f64_add denominator denominatorVal, validCount +₆₄ 1)
      end
  end.

(** A side that is not computed: the number of valid hosts, or a constant. *)
Definition side_constant (needed : bool) (str : string) (sum : float64) (validCount : Z) : result float64 :=
  if needed then Ok sum
  else if decide (str = "$#") then Ok (f64_of_Z validCount)
  else ParseFloat str.

(** [now] is the time of the query and [push_now] the time of the push. *)
Definition WorkerRun (item : Cluster.t) (now push_now : Z) (MetaDataQueue : list JsonMetaData.t) :
    go (list JsonMetaData.t) :=
  let numeratorStr := cleanParam item.(Cluster.Numerator) in
  let denominatorStr := cleanParam item.(Cluster.Denominator) in
  if negb (expressionValid numeratorStr) || negb (expressionValid denominatorStr) then Ret MetaDataQueue
  else
    let nn := needCompute numeratorStr in
    let nd := needCompute denominatorStr in
    if negb nn && negb nd then Ret MetaDataQueue
    else
      pn ← parse numeratorStr nn;
      pd ← parse denominatorStr nd;
      if negb (operatorsValid pn.1.2) || negb (operatorsValid pd.1.2) then Ret MetaDataQueue
      else
        match HostnamesByID item.(Cluster.GroupId) with
        | Err _ | Ok [] => Ret MetaDataQueue
        | Ok hostnames =>
            valueMap ← queryCounterLast QueryLastPoints pn.1.1 pd.1.1 hostnames
                         (now -₆₄ (item.(Cluster.Step) *₆₄ 2)) now;
            match valueMap : result (gmap string float64) with
            | Err _ => Ret MetaDataQueue
            | Ok valueMap =>
                acc ← go_foldl (host_values nn nd pn pd valueMap) (f64_zero, f64_zero, 0) hostnames;
                let '(numerator, denominator, validCount) := acc : float64 * float64 * Z in
                match side_constant nn numeratorStr numerator validCount with
                | Err _ => Ret MetaDataQueue
                | Ok numerator =>
                    match side_constant nd denominatorStr denominator validCount with
                    | Err _ => Ret MetaDataQueue
                    | Ok denominator =>
                        if f64_eq denominator f64_zero then Ret MetaDataQueue
                        else if decide (validCount = 0) then Ret MetaDataQueue
                        else Ret (Sender.Push item.(Cluster.Endpoint) item.(Cluster.Metric) item.(Cluster.Tags)
                               (VFloat64 (f64_div numerator denominator)) item.(Cluster.DsType)
                               [item.(Cluster.Step)] push_now MetaDataQueue)
                    end
                end
            end
        end.
End worker.

(** ** The workers (cron/worker.go, cron/updater.go, db/reader.go)

A worker runs until its channel [Quit] is closed; [running] are the workers whose
goroutine has not been told to quit, [Workers] the table. *)

Record worker : Type := Worker { wId : Z; ClusterItem : Cluster.t }.

Record workers : Type := WorkersState {
  Workers : gmap string worker; running : gset Z; next_id : Z }.

(** [worker.Drop()] for every worker whose key is gone. *)
Definition deleteNoUseWorker (m : gmap string Cluster.t) (st : workers) : workers :=
  let gone := filter (λ kw, m !! kw.1 = None) (map_to_list st.(Workers)) in
  WorkersState (foldl (λ ws kw, delete kw.1 ws) st.(Workers) gone)
    (foldl (λ s kw, s ∖ {[kw.2.(wId)]}) st.(running) gone) st.(next_id).

(** The body of [createWorkerIfNeed]: an item without a worker and with a positive step gets one. *)
Definition create_worker (st : workers) (ki : string * Cluster.t) : workers :=
  match st.(Workers) !! ki.1 with
  | Some _ => st
  | None =>
      if ki.2.(Cluster.Step) <=? 0 then st
      else WorkersState (<[ki.1 := Worker st.(next_id) ki.2]> st.(Workers))
             ({[st.(next_id)]} ∪ st.(running)) (st.(next_id) + 1)
  end.

(** [kvs] visits the items. *)
Definition createWorkerIfNeed (kvs : list (string * Cluster.t)) (st : workers) : workers :=
  foldl create_worker st kvs.

(** The key of an item: its id and its last update. *)
Definition item_key (c : Cluster.t) : string := Itoa c.(Cluster.Id) +:+ c.(Cluster.LastUpdate).

Definition cluster_sql (ids : Z * Z) : string :=
  let sql := "SELECT `id`, `grp_id`, `numerator`, `denominator`, `endpoint`, `metric`, `tags`, `ds_type`, `step`, `last_update` FROM `cluster`" in
  let '(lo, hi) := ids in
  if bool_decide (lo ≠ -1 ∧ hi ≠ -1) then
    sql +:+ " WHERE `id` >= " +:+ Itoa lo +:+ " and `id` <= " +:+ Itoa hi
  else
    let sql := if decide (lo ≠ -1) then sql +:+ " WHERE `id` >= " +:+ Itoa lo else sql in
    if decide (hi ≠ -1) then sql +:+ " WHERE `id` <= " +:+ Itoa hi else sql.

(** The loop over the rows sets [err] at each of them, so that the function
answers the error of the last row, with the items of the others. *)
Definition read_row (acc : gmap string Cluster.t * option error) (row : result Cluster.t) :
    gmap string Cluster.t * option error :=
  match row with
  | Ok c => (<[item_key c := c]> acc.1, None)
  | Err e => (acc.1, Some e)
  end.

Definition ReadClusterMonitorItems (DB : string → result (list (result Cluster.t))) (ids : Z * Z) :
    gmap string Cluster.t * option error :=
  match DB (cluster_sql ids) with
  | Err e => (∅, Some e)
  | Ok rows => foldl read_row (∅, None) rows
  end.

(** [visit] is the order in which the items are visited. *)
Definition updateItems (visit : gmap string Cluster.t → list (string * Cluster.t))
    (DB : string → result (list (result Cluster.t))) (ids : Z * Z) (st : workers) : workers :=
  match ReadClusterMonitorItems DB ids with
  | (_, Some _) => st
  | (items, None) => createWorkerIfNeed (visit items) (deleteNoUseWorker items st)
  end.
