(* ===== verification/AggregatorSafety.v ===== *)
(** * The aggregator: correctness

The expressions as abstract syntax, their printing, and that the validation and
the parser accept and invert it; that no expression that passes the validation
makes the evaluation panic; what [WorkerRun] pushes; and the table of workers. *)

From stdpp Require Import functions.
From S2P Require Import Prelude GoFloat GoString Hash Tags Model Containers Regex Aggregator.
From Stdlib Require Import Ascii.
From stdpp Require Import options.

(** ** Abstract syntax of the expressions *)

(** [$(first) ± $(c) ± ...], with [true] for a plus. *)
Record sum : Set := Sum_ { first : string; rest : list (bool * string) }.

Inductive cmp : Set := Gt | Eq | Lt | Ge | Le.

(** A decimal without sign *)
Record number : Set := Number_ { digits : string; fraction : option string }.

Inductive side : Set :=
| Hosts
| Const (d : string)
| Sum (s : sum)
| Over (c : string) (op : cmp) (n : number)
| SumOver (s : sum) (op : cmp) (n : number).

Definition print_counter (c : string) : string := "$(" +:+ c +:+ ")".
Definition print_op (plus : bool) : string := if plus then "+" else "-".
Fixpoint print_rest (r : list (bool * string)) : string :=
  match r with [] => "" | (b, c) :: r => print_op b +:+ print_counter c +:+ print_rest r end.
Definition print_sum (s : sum) : string := print_counter s.(first) +:+ print_rest s.(rest).
Definition print_cmp (op : cmp) : string :=
  match op with Gt => ">" | Eq => "=" | Lt => "<" | Ge => ">=" | Le => "<=" end.
Definition print_number (n : number) : string :=
  n.(digits) +:+ match n.(fraction) with Some f => "." +:+ f | None => "" end.
Definition print_mode (op : cmp) (n : number) : string := print_cmp op +:+ print_number n.
Definition print (e : side) : string :=
  match e with
  | Hosts => "$#"
  | Const d => d
  | Sum s => print_sum s
  | Over c op n => print_counter c +:+ print_mode op n
  | SumOver s op n => "(" +:+ print_sum s +:+ ")" +:+ print_mode op n
  end.

Definition counter_wf (c : string) : Prop := c ≠ "" ∧ all_chars (λ a, negb (is_sep a)) c = true.
Definition digits_wf (d : string) : Prop := d ≠ "" ∧ all_chars is_digit d = true.
Definition number_wf (n : number) : Prop :=
  digits_wf n.(digits) ∧ match n.(fraction) with Some f => digits_wf f | None => True end.
Definition sum_wf (s : sum) : Prop := counter_wf s.(first) ∧ Forall (λ bc, counter_wf bc.2) s.(rest).
Definition side_wf (e : side) : Prop :=
  match e with
  | Hosts => True
  | Const d => digits_wf d
  | Sum s => sum_wf s
  | Over c _ n => counter_wf c ∧ number_wf n
  | SumOver s _ n => sum_wf s ∧ number_wf n
  end.

(** The parts of an expression that is computed. *)
Definition sum_of (e : side) : option (sum * string) :=
  match e with
  | Sum s => Some (s, "")
  | Over c op n => Some (Sum_ c [], print_mode op n)
  | SumOver s op n => Some (s, print_mode op n)
  | _ => None
  end.
Definition computed (e : side) : bool := bool_decide (is_Some (sum_of e)).

(** ** Strings *)

Lemma all_chars_impl (p q : ascii → bool) s :
  (∀ c, p c = true → q c = true) → all_chars p s = true → all_chars q s = true.
Proof. intros H. induction s as [|c s IH]; cbn; [done|]. rewrite !andb_true_iff. naive_solver. Qed.

Lemma not_sep_not_paren c : negb (is_sep c) = true → not_paren c = true.
Proof.
  unfold is_sep, not_paren. rewrite negb_true_iff, bool_decide_eq_false, bool_decide_eq_true. tauto.
Qed.

Lemma digit_not_special c : is_digit c = true → is_sep c = false ∧ is_cmp c = false ∧ is_num c = true.
Proof.
  intros H. unfold is_num. rewrite H. split_and!; [| |done].
  - unfold is_sep. apply bool_decide_eq_false. intros [->|[->| ->]]; vm_compute in H; done.
  - unfold is_cmp. apply bool_decide_eq_false. intros [->|[->| ->]]; vm_compute in H; done.
Qed.

Lemma all_digits_not_sep d : all_chars is_digit d = true → all_chars (λ a, negb (is_sep a)) d = true.
Proof. apply all_chars_impl. intros c Hc. by destruct (digit_not_special c Hc) as [-> _]. Qed.

Lemma span_all p s c t :
  all_chars p s = true → p c = false → span p (s +:+ String c t) = (s, String c t).
Proof.
  intros Hs Hc. induction s as [|a s IH]; cbn in *; [by rewrite Hc|].
  apply andb_true_iff in Hs as [-> Hs]. by rewrite (IH Hs).
Qed.

Lemma span_spec p s : let '(a, b) := span p s in s = a +:+ b ∧ all_chars p a = true.
Proof.
  induction s as [|c s IH]; cbn; [done|]. destruct (p c) eqn:E; [|done].
  destruct (span p s) as [a b]. destruct IH as [-> Ha]. cbn. by rewrite E, Ha.
Qed.

(** ** The validation *)

Lemma matches_counter c : c ≠ "" → all_chars not_paren c = true → matches r_counter (print_counter c).
Proof.
  intros Hne Hc. unfold r_counter. apply matches_cats_cons. exists "$(", (c +:+ ")").
  split_and!; [done|by apply matches_r_string|]. apply matches_cats_cons. exists c, ")".
  split_and!; [done|by apply matches_char_plus|]. apply matches_cats_cons. exists ")", "".
  split_and!; [done|by apply matches_r_char|constructor].
Qed.

Lemma matches_counter_wf c : counter_wf c → matches r_counter (print_counter c).
Proof.
  intros [Hne Hc]. apply matches_counter; [done|].
  eapply all_chars_impl; [|done]. intros a. apply not_sep_not_paren.
Qed.

(** The pattern groups the operators with the counter before them, the syntax
with the counter after them. *)
Lemma matches_sum_rest c r :
  counter_wf c → Forall (λ bc : bool * string, counter_wf bc.2) r →
  matches r_counters (print_counter c +:+ print_rest r).
Proof.
  intros Hc Hr. revert c Hc. unfold r_counters. induction Hr as [|[b c'] r Hc' Hr IH]; intros c Hc.
  - cbn [print_rest]. rewrite app_string_nil_r. apply matches_cats_cons. exists "", (print_counter c).
    split_and!; [done|constructor|]. apply matches_cats_cons. exists (print_counter c), "".
    split_and!; [by rewrite app_string_nil_r|by apply matches_counter_wf|constructor].
  - cbn [print_rest]. specialize (IH c' Hc'). apply matches_cats_cons in IH as (s1 & s2 & E & H1 & H2).
    cbn [snd] in *. rewrite E. apply matches_cats_cons.
    exists ((print_counter c +:+ print_op b) +:+ s1), s2.
    split_and!; [by rewrite !app_string_assoc|apply m_star_app; [|done]|done].
    apply matches_cats_cons. exists (print_counter c), (print_op b).
    split_and!; [done|by apply matches_counter_wf|]. apply matches_cats_cons. exists (print_op b), "".
    split_and!; [by rewrite app_string_nil_r| |constructor].
    apply matches_r_alts. destruct b.
    + exists (r_char "+"). split; [by left|]. by apply matches_r_char.
    + exists (r_char "-"). split; [right; by left|]. by apply matches_r_char.
Qed.

Lemma matches_digits d : digits_wf d → matches (r_plus r_digit) d.
Proof. intros [Hne Hd]. by apply matches_char_plus. Qed.

Lemma matches_mode op n : number_wf n → matches r_compare (print_mode op n).
Proof.
  intros [Hd Hf]. unfold r_compare. apply matches_cats_cons. exists (print_cmp op), (print_number n).
  split_and!; [done| |].
  - apply matches_r_alts. exists (r_string (print_cmp op)). split; [|by apply matches_r_string].
    destruct op; cbn; set_solver.
  - apply matches_cats_cons. eexists _, _. split; [done|]. split; [by apply matches_digits|].
    apply matches_cats_cons. eexists _, "". split; [by rewrite app_string_nil_r|]. split; [|constructor].
    apply matches_r_opt. destruct (fraction n) as [f|]; [right|by left].
    apply matches_cats_cons. exists ".", f. split_and!; [done|by apply matches_r_char|].
    apply matches_cats_cons. exists f, "". split_and!; [by rewrite app_string_nil_r|by apply matches_digits|constructor].
Qed.

(** Expressions with the full-width parentheses of Chinese keyboards are refused. *)
Definition ascii_parens (s : string) : Prop := contains_str "（" s = false ∧ contains_str "）" s = false.

Lemma print_valid e : side_wf e → ascii_parens (print e) → expressionValid (print e) = true.
Proof.
  intros He [H1 H2]. unfold expressionValid. rewrite H1, H2. cbn [orb].
  destruct e as [|d|s|c op n|s op n]; cbn [side_wf print] in *.
  - done.
  - case_decide; [done|]. do 3 (case_match; [done|]). by apply match_string_spec, matches_digits.
  - case_decide; [done|]. destruct He as [Hf Hr].
    assert (match_string matchMode0 (print_sum s) = true) as ->; [|done].
    apply match_string_spec. by apply matches_sum_rest.
  - case_decide; [done|]. destruct He as [Hc Hn]. case_match; [done|].
    assert (match_string matchMode1 (print_counter c +:+ print_mode op n) = true) as ->; [|done].
    apply match_string_spec. apply matches_cats_cons. eexists _, _. split; [done|].
    split; [by apply matches_counter_wf|]. apply matches_cats_cons. eexists _, "".
    split; [by rewrite app_string_nil_r|]. split; [by apply matches_mode|constructor].
  - case_decide; [done|]. destruct He as [[Hf Hr] Hn]. do 2 (case_match; [done|]).
    assert (match_string matchMode2 ("(" +:+ print_sum s +:+ ")" +:+ print_mode op n) = true) as ->; [|done].
    apply match_string_spec. apply matches_cats_cons. eexists "(", _. split; [done|].
    split; [by apply matches_r_char|]. apply matches_cats_cons. eexists (print_sum s), _. split; [done|].
    split; [by apply matches_sum_rest|]. apply matches_cats_cons. eexists ")", _. split; [done|].
    split; [by apply matches_r_char|]. apply matches_cats_cons. eexists _, "".
    split; [by rewrite app_string_nil_r|]. split; [by apply matches_mode|constructor].
Qed.

(** ** The parser *)

Lemma split_seps_nonempty b s : split_seps b s ≠ [].
Proof. revert b. induction s as [|c s IH]; intros b; cbn; [done|]. repeat case_match; done || apply IH. Qed.

Lemma split_seps_piece b c t x :
  all_chars (λ a, negb (is_sep a)) c = true → is_sep x = true → (c ≠ "" ∨ b = false) →
  split_seps b (c +:+ String x t) = c :: split_seps true t.
Proof.
  intros Hc Hx. revert b. induction c as [|a c IH]; intros b Hb; cbn in *.
  - destruct Hb as [?| ->]; [done|]. by rewrite Hx.
  - apply andb_true_iff in Hc as [Ha Hc]. apply negb_true_iff in Ha. rewrite Ha, IH by auto. done.
Qed.

Lemma split_seps_last b s : all_chars (λ a, negb (is_sep a)) s = true → split_seps b s = [s].
Proof.
  revert b. induction s as [|a s IH]; intros b; cbn; [done|].
  intros [Ha Hs]%andb_true_iff. apply negb_true_iff in Ha. by rewrite Ha, (IH false).
Qed.

(** The last piece is what follows the last separator. *)
Lemma split_seps_tail b u x t :
  is_sep x = true → all_chars (λ a, negb (is_sep a)) t = true →
  ∃ l, split_seps b (u +:+ String x t) = l ++ [t] ∧ (b = false → l ≠ []).
Proof.
  intros Hx Ht. revert b. induction u as [|a u IH]; intros b; cbn.
  - rewrite Hx, split_seps_last by done. destruct b; [by exists []|by exists [""]].
  - destruct (is_sep a) eqn:Ea.
    + destruct (IH true) as (l & -> & _). destruct b; [by exists l|by exists ("" :: l)].
    + destruct (IH false) as (l & -> & Hl). destruct l as [|h l]; [by destruct Hl|].
      by exists (String a h :: l).
Qed.

(** The pieces of the rest of a sum: an operator and a counter in turn. *)
Definition rest_items (r : list (bool * string)) : list string :=
  r ≫= λ bc, [print_op bc.1; bc.2].

Lemma split_seps_counter c t :
  counter_wf c → split_seps true (String "(" (c +:+ String ")" t)) = c :: split_seps true t.
Proof. intros [Hne Hc]. cbn [split_seps is_sep]. change (is_sep "(") with true. by rewrite split_seps_piece by auto. Qed.

Lemma split_seps_rest r t :
  Forall (λ bc : bool * string, counter_wf bc.2) r →
  split_seps true (print_rest r +:+ t) = rest_items r ++ split_seps true t.
Proof.
  induction 1 as [|[b c] r Hc _ IH]; [done|]. cbn [print_rest]. rewrite !app_string_assoc.
  unfold print_counter. rewrite !app_string_assoc.
  assert (print_op b +:+ ("$(" +:+ c +:+ ")" +:+ print_rest r +:+ t)
    = print_op b +:+ String "$" (String "(" (c +:+ String ")" (print_rest r +:+ t)))) as -> by done.
  rewrite split_seps_piece; [|by destruct b|done|left; by destruct b].
  rewrite split_seps_counter, IH by done. done.
Qed.

Lemma split_seps_sum s t :
  sum_wf s → ∀ b, split_seps b (print_sum s +:+ t)
    = (if b then [] else [""]) ++ s.(first) :: rest_items s.(rest) ++ split_seps true t.
Proof.
  intros [Hf Hr] b. unfold print_sum, print_counter. rewrite !app_string_assoc.
  change ("$(" +:+ ?x) with (String "$" (String "(" x)). change (")" +:+ ?x) with (String ")" x).
  assert (split_seps true (String "(" (first s +:+ String ")" (print_rest s.(rest) +:+ t)))
    = s.(first) :: rest_items s.(rest) ++ split_seps true t) as E.
  { by rewrite split_seps_counter, split_seps_rest. }
  destruct b; cbn [app].
  - exact E.
  - change (split_seps false (String "$" ?x)) with ("" :: split_seps true x). by rewrite E.
Qed.

Lemma mode_not_sep op n : number_wf n → all_chars (λ a, negb (is_sep a)) (print_mode op n) = true.
Proof.
  intros [[_ Hd] Hf]. unfold print_mode, print_number. rewrite !all_chars_app, (all_digits_not_sep _ Hd).
  destruct (fraction n) as [f|]; cbn; [rewrite (all_digits_not_sep _ (proj2 Hf))|]; by destruct op.
Qed.

Lemma split_print e s mode :
  side_wf e → sum_of e = Some (s, mode) →
  sum_wf s ∧ split_seps false (print e) = "" :: s.(first) :: rest_items s.(rest) ++ [mode].
Proof.
  intros He Es. destruct e as [|d|s'|c op n|s' op n]; cbn in *; simplify_eq.
  - split; [done|]. pose proof (split_seps_sum s "" He false) as E.
    rewrite app_string_nil_r in E. exact E.
  - destruct He as [Hc Hn]. split; [by split|].
    pose proof (split_seps_sum (Sum_ c []) (print_mode op n) (conj Hc (Forall_nil_2 _)) false) as E.
    unfold print_sum in E. cbn [first rest print_rest] in E. rewrite app_string_nil_r in E.
    etransitivity; [exact E|]. by rewrite split_seps_last by by apply mode_not_sep.
  - destruct He as [Hs Hn]. split; [done|].
    change ("" :: split_seps true (print_sum s +:+ String ")" (print_mode op n))
      = "" :: s.(first) :: rest_items s.(rest) ++ [print_mode op n]).
    rewrite split_seps_sum by done. cbn [app].
    change (split_seps true (String ")" ?x)) with (split_seps true x).
    by rewrite split_seps_last by by apply mode_not_sep.
Qed.

Lemma alternate_items i c r :
  Nat.modulo i 2 = 0%nat → alternate i (c :: rest_items r) = (c :: r.*2, print_op <$> r.*1).
Proof.
  revert i c. induction r as [|[b c'] r IH]; intros i c Hi.
  - cbn. by rewrite decide_True.
  - change (rest_items ((b, c') :: r)) with (print_op b :: c' :: rest_items r).
    cbn [alternate].
    assert (Nat.modulo (S i) 2 = 1%nat) as H1 by (rewrite (Nat.Div0.add_mod 1 i), Hi; done).
    assert (Nat.modulo (S (S i)) 2 = 0%nat) as H2 by (rewrite (Nat.Div0.add_mod 2 i), Hi; done).
    specialize (IH (S (S i)) c' H2). cbn [alternate] in IH.
    rewrite IH, decide_False by lia. by rewrite decide_True.
Qed.

Lemma parse_print e s mode :
  side_wf e → sum_of e = Some (s, mode) →
  parse (print e) true = Ret (s.(first) :: s.(rest).*2, print_op <$> s.(rest).*1, mode).
Proof.
  intros He Es. destruct (split_print e s mode He Es) as [_ E]. unfold parse. cbn [negb]. rewrite E.
  set (l := s.(first) :: rest_items s.(rest)).
  change ("" :: s.(first) :: rest_items s.(rest) ++ [mode]) with ([""] ++ l ++ [mode]).
  assert (inner_items ([""] ++ l ++ [mode]) = Ret l) as ->.
  { unfold inner_items. rewrite decide_True by (rewrite !length_app; cbn; lia). f_equal.
    change (drop 1 ([""] ++ l ++ [mode])) with (l ++ [mode]). apply take_app_length'.
    rewrite !length_app. cbn. lia. }
  cbn [mbind go_bind]. rewrite app_assoc.
  assert (at_index (([""] ++ l) ++ [mode]) (Z.of_nat (length (([""] ++ l) ++ [mode])) - 1) = Ret mode) as ->.
  { apply at_index_Ret. rewrite (length_app _ [mode]). cbn [length]. split; [lia|].
    replace (Z.to_nat _) with (length ([""] ++ l)) by lia. by apply list_lookup_middle. }
  cbn [mbind go_bind]. unfold l. by rewrite alternate_items.
Qed.

(** ** The evaluation of one host *)

Definition apply_op (plus : bool) : float64 → float64 → float64 := if plus then f64_add else f64_sub.

(** The value of a sum for a host that has a value for every counter. *)
Definition sum_value (vm : gmap string float64) (h : string) (s : sum) : option float64 :=
  v0 ← vm !! (h +:+ s.(first));
  vs ← mapM (λ c, vm !! (h +:+ c)) s.(rest).*2;
  Some (foldl (λ a bv, apply_op bv.1 a bv.2) v0 (zip s.(rest).*1 vs)).

Definition number_value (n : number) : float64 := ParseFloat_value (print_number n).
Definition holds (op : cmp) (v w : float64) : bool :=
  match op with
  | Gt => f64_lt w v | Eq => f64_eq v w | Lt => f64_lt v w | Ge => f64_le w v | Le => f64_le v w
  end.
Definition f64_of_bool (b : bool) : float64 := if b then f64_of_Z 1 else f64_zero.

Definition side_of (e : side) (vm : gmap string float64) (h : string) : option float64 :=
  match e with
  | Hosts | Const _ => Some f64_zero
  | Sum s => sum_value vm h s
  | Over c op n => v ← sum_value vm h (Sum_ c []); Some (f64_of_bool (holds op v (number_value n)))
  | SumOver s op n => v ← sum_value vm h s; Some (f64_of_bool (holds op v (number_value n)))
  end.

Lemma queryOperands_spec counters h vm :
  match mapM (λ c, vm !! (h +:+ c)) counters with
  | Some l => queryOperands counters h vm = l ∧ length l = length counters
  | None => (length (queryOperands counters h vm) < length counters)%nat
  end.
Proof.
  assert (length (queryOperands counters h vm) <= length counters)%nat as Hle.
  { unfold queryOperands. clear. induction counters as [|c cs IH]; cbn; [lia|]. case_match; cbn; lia. }
  revert Hle. induction counters as [|c cs IH]; intros Hle; [done|].
  cbn [mapM queryOperands omap list_omap] in *. destruct (vm !! (h +:+ c)) as [v|]; cbn [mbind option_bind].
  - specialize (IH ltac:(cbn in Hle; unfold queryOperands; lia)).
    destruct (mapM _ cs) as [l|]; cbn [mbind option_bind].
    + destruct IH as [E Hl]. split; [by f_equal|cbn; lia].
    + cbn in *. unfold queryOperands in IH. lia.
  - cbn in *. clear IH. assert (length (queryOperands cs h vm) <= length cs)%nat; [|unfold queryOperands in *; lia].
    unfold queryOperands. clear. induction cs as [|c cs IH]; cbn; [lia|]. case_match; cbn; lia.
Qed.

Lemma add_up_spec pre bs vs v :
  length bs = length vs →
  add_up (pre ++ (print_op <$> bs)) (Z.of_nat (length pre)) vs v
    = Ret (foldl (λ a bv, apply_op bv.1 a bv.2) v (zip bs vs)).
Proof.
  revert pre vs v. induction bs as [|b bs IH]; intros pre [|w vs] v Hl; [done..|].
  cbn [fmap list_fmap add_up zip zip_with foldl fst snd].
  rewrite (at_index_of_nat _ _ (print_op b)) by by apply list_lookup_middle.
  cbn [mbind go_bind]. specialize (IH (pre ++ [print_op b]) vs).
  rewrite <- app_assoc, length_app, Nat2Z.inj_add in IH. cbn [app length] in IH.
  rewrite IH by (cbn in Hl; lia). f_equal. f_equal. destruct b; [by rewrite decide_True|by rewrite decide_False].
Qed.

Lemma span_number n : number_wf n → span is_num (print_number n) = (print_number n, "").
Proof.
  intros [[_ Hd] Hf]. assert (all_chars is_num (print_number n) = true) as Ha.
  { unfold print_number. rewrite all_chars_app.
    assert (∀ d, all_chars is_digit d = true → all_chars is_num d = true) as Hn.
    { intros d. apply all_chars_impl. intros c Hc. by apply digit_not_special in Hc as (_ & _ & ->). }
    rewrite (Hn _ Hd). destruct (fraction n) as [f|]; cbn; [|done]. by apply Hn, Hf. }
  induction (print_number n) as [|c s IH]; cbn in *; [done|].
  apply andb_true_iff in Ha as [-> Ha]. by rewrite (IH Ha).
Qed.

Lemma number_starts n : number_wf n → ∃ c t, print_number n = String c t ∧ is_cmp c = false.
Proof.
  intros [[Hne Hd] _]. unfold print_number. destruct (digits n) as [|c d]; [done|].
  exists c. eexists. split; [done|]. cbn in Hd. apply andb_true_iff in Hd as [Hc _].
  by apply digit_not_special in Hc as (_ & -> & _).
Qed.

Lemma find_compare_mode op n :
  number_wf n → find_compare (print_mode op n) = Some (print_cmp op, print_number n).
Proof.
  intros Hn. destruct (number_starts n Hn) as (c & t & E & Hc).
  assert (span is_cmp (print_mode op n) = (print_cmp op, print_number n)) as Hs.
  { unfold print_mode. rewrite E. apply span_all; [by destruct op|done]. }
  assert (∀ s, find_compare s = let '(mode, r) := span is_cmp s in let '(num, _) := span is_num r in
    if bool_decide (mode ≠ "" ∧ num ≠ "") then Some (mode, num)
    else match s with "" => None | String _ s => find_compare s end) as -> by by intros [].
  rewrite Hs, (span_number n Hn). rewrite bool_decide_eq_true_2; [done|].
  split; [by destruct op|]. by rewrite E.
Qed.

Lemma compareSum_mode op n v :
  number_wf n → compareSum v (print_mode op n) = Ret (holds op v (number_value n)).
Proof. intros Hn. unfold compareSum. rewrite find_compare_mode by done. by destruct op. Qed.

(** The error of a host that lacks a counter *)
Definition of_value (v : option float64) : result float64 :=
  match v with Some v => Ok v | None => Err "value invalid" end.

Lemma compute_spec s mode h vm :
  compute (s.(first) :: s.(rest).*2) (print_op <$> s.(rest).*1) mode h vm =
    match sum_value vm h s with
    | None => Ret (Err "value invalid")
    | Some v => if decide (mode ≠ "") then b ← compareSum v mode; Ret (Ok (f64_of_bool b)) else Ret (Ok v)
    end.
Proof.
  unfold compute. rewrite decide_False by done.
  pose proof (queryOperands_spec (s.(first) :: s.(rest).*2) h vm) as H.
  unfold sum_value. cbn [mapM] in H. destruct (vm !! (h +:+ first s)) as [v0|]; cbn [mbind option_bind] in *.
  2:{ destruct (queryOperands _ h vm); [done|]. by rewrite decide_True by (cbn in *; lia). }
  destruct (mapM _ (rest s).*2) as [vs|] eqn:Ev; cbn [mbind option_bind] in *.
  2:{ destruct (queryOperands _ h vm); [done|]. by rewrite decide_True by (cbn in *; lia). }
  destruct H as [-> Hl]. rewrite decide_False by (cbn in *; lia).
  assert (length (rest s).*1 = length vs) as Hlen by (cbn in Hl; rewrite !length_fmap in *; lia).
  pose proof (add_up_spec [] (rest s).*1 vs v0 Hlen) as E. change (add_up (print_op <$> (rest s).*1) 0 vs v0 = Ret (foldl (λ a bv, apply_op bv.1 a bv.2) v0 (zip (rest s).*1 vs))) in E. rewrite E.
  done.
Qed.

Lemma side_compute e s mode h vm :
  side_wf e → sum_of e = Some (s, mode) →
  compute (s.(first) :: s.(rest).*2) (print_op <$> s.(rest).*1) mode h vm = Ret (of_value (side_of e vm h)).
Proof.
  intros He Es. rewrite compute_spec. destruct e as [|d|s'|c op n|s' op n]; cbn [side_wf sum_of side_of] in *; simplify_eq.
  - destruct (sum_value vm h s) as [v|]; [|done]. by rewrite decide_False by auto.
  - destruct (sum_value vm h _) as [v|]; cbn [mbind option_bind]; [|done].
    rewrite decide_True by by destruct op. by rewrite compareSum_mode by apply He.
  - destruct (sum_value vm h _) as [v|]; cbn [mbind option_bind]; [|done].
    rewrite decide_True by by destruct op. by rewrite compareSum_mode by apply He.
Qed.

Lemma contains_digits d : all_chars is_digit d = true → needCompute d = false.
Proof.
  unfold needCompute. induction d as [|c d IH]; [done|]. cbn [all_chars]. intros [Hc Hd]%andb_true_iff.
  cbn [contains_str]. rewrite (IH Hd), orb_false_r. cbn [String.prefix].
  destruct (ascii_dec "$" c) as [<-|]; [|done]. vm_compute in Hc. done.
Qed.

Lemma needCompute_app u t : needCompute (u +:+ "$(" +:+ t) = true.
Proof.
  unfold needCompute. induction u as [|c u IH].
  - destruct t; reflexivity.
  - change (String.prefix "$(" (String c (u +:+ "$(" +:+ t)) || contains_str "$(" (u +:+ "$(" +:+ t) = true).
    rewrite IH. apply orb_true_r.
Qed.

Lemma needCompute_print e : side_wf e → needCompute (print e) = computed e.
Proof.
  intros He. destruct e as [|d|s|c op n|s op n]; [reflexivity|..].
  - cbn in He. destruct He as [_ Hd]. by apply contains_digits.
  - cbn [print]. unfold print_sum, print_counter. rewrite !app_string_assoc. apply (needCompute_app "").
  - cbn [print]. unfold print_counter. rewrite !app_string_assoc. apply (needCompute_app "").
  - cbn [print]. unfold print_sum, print_counter. rewrite !app_string_assoc. apply (needCompute_app "(").
Qed.

(** ** No expression makes the evaluation panic *)

Lemma matches_counters_end s : matches r_counters s → ∃ u, s = u +:+ ")".
Proof.
  intros (s1 & s2 & -> & _ & (c & e & -> & Hc & ->%matches_eps)%matches_cats_cons)%matches_cats_cons.
  apply matches_cats_cons in Hc as (a & b & -> & _ & Hb).
  apply matches_cats_cons in Hb as (b1 & b2 & -> & _ & (b3 & b4 & -> & ->%matches_r_char & ->%matches_eps)%matches_cats_cons).
  exists (s1 +:+ a +:+ b1). by rewrite !app_string_assoc, !app_string_nil_r.
Qed.

Lemma matches_digits_inv d : matches (r_plus r_digit) d → digits_wf d.
Proof. by intros [??]%matches_char_plus. Qed.

Lemma matches_mode_inv m : matches r_compare m → ∃ op n, m = print_mode op n ∧ number_wf n.
Proof.
  intros (a & b & -> & Ha & (d & f & -> & Hd%matches_digits_inv & Hf)%matches_cats_cons)%matches_cats_cons.
  assert (∃ op, a = print_cmp op) as [op ->].
  { apply matches_r_alts in Ha as (r & Hr & Ha). rewrite !elem_of_cons, elem_of_nil in Hr.
    destruct Hr as [->|[->|[->|[->|[->|[]]]]]]; apply matches_r_string in Ha as ->;
      [by exists Gt|by exists Eq|by exists Lt|by exists Ge|by exists Le]. }
  apply matches_cats_cons in Hf as (f' & e & -> & Hf & ->%matches_eps).
  apply matches_r_opt in Hf as [->|Hf].
  - exists op, (Number_ d None). split; [|by split]. unfold print_mode, print_number. cbn.
    done.
  - apply matches_cats_cons in Hf as (p & f & -> & ->%matches_r_char & (f1 & f2 & -> & Hf%matches_digits_inv & ->%matches_eps)%matches_cats_cons).
    exists op, (Number_ d (Some f1)). split; [|by split]. unfold print_mode, print_number. cbn [digits fraction].
    by rewrite !app_string_nil_r.
Qed.

(** What the parser takes for the comparison is empty or one. *)
Definition mode_ok (mode : string) : Prop := mode = "" ∨ ∃ op n, mode = print_mode op n ∧ number_wf n.

Lemma valid_mode s :
  expressionValid s = true → needCompute s = true →
  ∃ l mode, split_seps false s = l ++ [mode] ∧ l ≠ [] ∧ mode_ok mode.
Proof.
  unfold expressionValid. destruct (_ || _); [done|]. case_decide as Hh; [by subst|].
  assert (∀ u mode, s = u +:+ String ")" mode → mode_ok mode →
    ∃ l mode, split_seps false s = l ++ [mode] ∧ l ≠ [] ∧ mode_ok mode) as Hend.
  { intros u mode -> Hm. destruct (split_seps_tail false u ")" mode) as (l & E & Hl); [done| |].
    - destruct Hm as [->|(op & n & -> & Hn)]; [done|by apply mode_not_sep].
    - exists l, mode. split_and!; [done|by apply Hl|done]. }
  destruct (match_string matchMode0 s) eqn:E0.
  { intros _ _. apply match_string_spec, matches_counters_end in E0 as [u ->].
    eapply (Hend u ""); [done|by left]. }
  destruct (match_string matchMode1 s) eqn:E1.
  { intros _ _. apply match_string_spec, matches_cats_cons in E1 as (c & m & -> & Hc & Hm).
    apply matches_cats_cons in Hm as (m' & e & -> & Hm & ->%matches_eps).
    apply matches_cats_cons in Hc as (a & b & -> & _ & Hb).
    apply matches_cats_cons in Hb as (b1 & b2 & -> & _ & (b3 & b4 & -> & ->%matches_r_char & ->%matches_eps)%matches_cats_cons).
    apply (Hend (a +:+ b1) m'); [by rewrite !app_string_assoc, app_string_nil_r|].
    right. by apply matches_mode_inv. }
  destruct (match_string matchMode2 s) eqn:E2.
  { intros _ _. apply match_string_spec, matches_cats_cons in E2 as (o & m & -> & Ho & Hm).
    apply matches_cats_cons in Hm as (a & b & -> & Ha & Hb).
    apply matches_cats_cons in Hb as (p & b2 & -> & ->%matches_r_char & (m' & e & -> & Hm & ->%matches_eps)%matches_cats_cons).
    apply (Hend (o +:+ a) m'); [by rewrite !app_string_assoc, app_string_nil_r|].
    right. by apply matches_mode_inv. }
  intros [_ Hd]%match_string_spec%matches_char_plus. by rewrite contains_digits.
Qed.

Lemma alternate_lengths i vals :
  let '(a, b) := alternate i vals in
  (length a <= length b + (if decide (Nat.modulo i 2 = 0) then 1 else 0))%nat ∧
  (length b <= length a + (if decide (Nat.modulo i 2 = 0) then 0 else 1))%nat.
Proof.
  revert i. induction vals as [|v vals IH]; intros i; [cbn; lia|]. cbn [alternate]. specialize (IH (S i)).
  destruct (alternate (S i) vals) as [a b].
  assert (Nat.modulo (S i) 2 = (1 - Nat.modulo i 2))%nat as Hm.
  { pose proof (Nat.mod_upper_bound i 2). rewrite (Nat.Div0.add_mod 1 i).
    destruct (Nat.modulo i 2) as [|[|]] eqn:E; [done|done|lia]. }
  rewrite Hm in IH. pose proof (Nat.mod_upper_bound i 2).
  repeat case_decide; cbn [length]; lia.
Qed.

Lemma parse_returns s :
  expressionValid s = true → needCompute s = true →
  ∃ operands operators mode, parse s true = Ret (operands, operators, mode) ∧ mode_ok mode ∧
    (length operands <= length operators + 1)%nat.
Proof.
  intros Hv Hn. destruct (valid_mode s Hv Hn) as (l & mode & E & Hl & Hm). unfold parse. cbn [negb]. rewrite E.
  unfold inner_items. rewrite decide_True by (rewrite length_app; destruct l; [done|cbn; lia]).
  cbn [mbind go_bind].
  assert (at_index (l ++ [mode]) (Z.of_nat (length (l ++ [mode])) - 1) = Ret mode) as ->.
  { apply at_index_Ret. rewrite length_app. cbn [length]. split; [lia|].
    replace (Z.to_nat _) with (length l) by lia. by apply list_lookup_middle. }
  cbn [mbind go_bind]. pose proof (alternate_lengths 0 (take (length (l ++ [mode]) - 2) (drop 1 (l ++ [mode])))) as H.
  destruct (alternate _ _) as [operands operators]. exists operands, operators, mode.
  split_and!; [done|done|]. destruct H as [H _]. rewrite decide_True in H by done. lia.
Qed.

Lemma add_up_returns ops i vs v :
  0 <= i → (Z.to_nat i + length vs <= length ops)%nat → returns (add_up ops i vs v).
Proof.
  revert i v. induction vs as [|w vs IH]; intros i v Hi Hl; cbn [add_up]; [apply returns_Ret|].
  cbn in Hl. apply returns_bind; [apply returns_at_index; lia|]. intros op _. apply IH; lia.
Qed.

Lemma compute_returns operands operators mode h vm :
  mode_ok mode → (length operands <= length operators + 1)%nat → returns (compute operands operators mode h vm).
Proof.
  intros Hm Hl. unfold compute. case_decide; [apply returns_Ret|].
  destruct (queryOperands operands h vm) as [|v0 vs]; [apply returns_Ret|]. case_decide as Hlen; [apply returns_Ret|].
  apply returns_bind; [apply add_up_returns; cbn in *; lia|]. intros sum _. case_decide as Hne; [|apply returns_Ret].
  destruct Hm as [->|(op & n & -> & Hn)]; [done|]. rewrite compareSum_mode by done. apply returns_Ret.
Qed.

(** ** An item *)

Section worker_run.
Context (HostnamesByID : Z → result (list string))
  (QueryLastPoints : list string → list string → result (list last_resp)).

(** The API answers points, never null. *)
Definition no_nil (resp : list last_resp) : Prop := Forall (λ r, is_Some r.(rValue)) resp.
Context (resp_ok : ∀ hs cs resp, QueryLastPoints hs cs = Ok resp → no_nil resp).

(** The points of the answer that are recent, by host and counter. *)
Definition recent (begin_ts end_ts : Z) (v : RRDData.t) : Prop :=
  begin_ts <= v.(RRDData.Timestamp) <= end_ts.
Definition last_values (begin_ts end_ts : Z) (resp : list last_resp) : gmap string float64 :=
  foldl (λ vm r, match r.(rValue) with
    | Some v => if decide (begin_ts <= v.(RRDData.Timestamp) <= end_ts)
                then <[r.(rEndpoint) +:+ r.(rCounter) := v.(RRDData.Value)]> vm else vm
    | None => vm end) ∅ resp.

Lemma query_points_spec begin_ts end_ts resp m :
  no_nil resp →
  go_foldl (query_point begin_ts end_ts) m resp = Ret (foldl (λ vm r, match r.(rValue) with
    | Some v => if decide (begin_ts <= v.(RRDData.Timestamp) <= end_ts)
                then <[r.(rEndpoint) +:+ r.(rCounter) := v.(RRDData.Value)]> vm else vm
    | None => vm end) m resp).
Proof.
  intros Hr. revert m. induction Hr as [|r resp [v Hv] _ IH]; intros m; [done|].
  cbn [go_foldl foldl]. unfold query_point at 2. rewrite Hv. cbn [mbind go_bind deref].
  rewrite IH. f_equal. f_equal.
  destruct (Z.ltb_spec v.(RRDData.Timestamp) begin_ts), (Z.ltb_spec end_ts v.(RRDData.Timestamp)); cbn [orb];
    case_decide; done || lia.
Qed.

Lemma host_loop_returns nn nd pn pd vm hosts acc :
  (∀ h, returns (side_value nn pn h vm)) → (∀ h, returns (side_value nd pd h vm)) →
  returns (go_foldl (host_values nn nd pn pd vm) acc hosts).
Proof.
  intros Hn Hd. destruct (go_foldl_returns (λ _, True) (host_values nn nd pn pd vm) hosts acc) as (s & -> & _);
    [|done|apply returns_Ret].
  intros [[n d] c] h _ _. unfold host_values. destruct (Hn h) as [rn ->]. cbn [mbind go_bind].
  destruct rn as [v|]; [|by eexists]. destruct (Hd h) as [rd ->]. cbn [mbind go_bind].
  destruct rd; by eexists.
Qed.

Lemma side_value_returns needed str :
  expressionValid str = true → needCompute str = needed →
  ∃ p, parse str needed = Ret p ∧ ∀ h vm, returns (side_value needed p h vm).
Proof.
  intros Hv Hn. destruct needed.
  - destruct (parse_returns str Hv Hn) as (operands & operators & mode & E & Hm & Hl).
    exists (operands, operators, mode). split; [done|]. intros h vm. by apply compute_returns.
  - exists ([], [], ""). split; [done|]. intros. apply returns_Ret.
Qed.

(** Whatever the two expressions of an item are, and whatever the API
answers for the hosts and their counters, evaluating the item does not panic:
the validation keeps out every expression that the parser, the loop over the
operators or the comparison could not handle. *)
Theorem WorkerRun_no_panic item now push_now q :
  returns (WorkerRun HostnamesByID QueryLastPoints item now push_now q).
Proof using resp_ok.
  unfold WorkerRun. set (sn := cleanParam _). set (sd := cleanParam _).
  destruct (expressionValid sn) eqn:Evn; [|apply returns_Ret].
  destruct (expressionValid sd) eqn:Evd; [|apply returns_Ret]. cbn [negb orb].
  destruct (_ && _); [apply returns_Ret|].
  destruct (side_value_returns (needCompute sn) sn Evn eq_refl) as (pn & -> & Hn). cbn [mbind go_bind].
  destruct (side_value_returns (needCompute sd) sd Evd eq_refl) as (pd & -> & Hd). cbn [mbind go_bind].
  destruct (_ || _); [apply returns_Ret|].
  destruct (HostnamesByID _) as [[|h hosts]|]; [apply returns_Ret| |apply returns_Ret].
  unfold queryCounterLast. destruct (QueryLastPoints _ _) as [resp|] eqn:Er; [|apply returns_Ret].
  rewrite query_points_spec by (by eapply resp_ok). cbn [mbind go_bind].
  apply returns_bind; [by apply host_loop_returns|]. intros [[n d] c] _.
  repeat case_match; apply returns_Ret.
Qed.

(** *** What is pushed *)

Definition parts (e : side) : list string * list string * string :=
  match sum_of e with
  | Some (s, mode) => (s.(first) :: s.(rest).*2, print_op <$> s.(rest).*1, mode)
  | None => ([], [], "")
  end.

Lemma parse_parts e : side_wf e → parse (print e) (computed e) = Ret (parts e).
Proof.
  intros He. unfold computed, parts. destruct (sum_of e) as [[s mode]|] eqn:Es; [|done].
  change (bool_decide (is_Some (Some (s, mode)))) with true. by apply parse_print.
Qed.

Lemma parts_value e h vm : side_wf e → side_value (computed e) (parts e) h vm = Ret (of_value (side_of e vm h)).
Proof.
  intros He. unfold side_value, computed, parts. destruct (sum_of e) as [[s mode]|] eqn:Es.
  - change (bool_decide (is_Some (Some (s, mode)))) with true. by apply side_compute.
  - by destruct e.
Qed.

Lemma parts_operators e : operatorsValid (parts e).1.2 = true.
Proof.
  unfold parts. destruct (sum_of e) as [[s mode]|]; [|done]. cbn [fst snd]. unfold operatorsValid.
  induction (rest s).*1 as [|[] bs IH]; [done|exact IH..].
Qed.

(** The pairs of values of the hosts that have a value for every counter. *)
Definition valid_values (en ed : side) (vm : gmap string float64) (hosts : list string) :
    list (float64 * float64) :=
  omap (λ h, n ← side_of en vm h; d ← side_of ed vm h; Some (n, d)) hosts.

Definition total (e : side) (sum : float64) (count : Z) : option float64 :=
  match e with
  | Hosts => Some (f64_of_Z count)
  | Const d => match ParseFloat d with Ok f => Some f | Err _ => None end
  | _ => Some sum
  end.

Definition quotient (en ed : side) (vm : gmap string float64) (hosts : list string) : option float64 :=
  let vals := valid_values en ed vm hosts in
  n ← total en (foldl f64_add f64_zero vals.*1) (Z.of_nat (length vals));
  d ← total ed (foldl f64_add f64_zero vals.*2) (Z.of_nat (length vals));
  if f64_eq d f64_zero || bool_decide (vals = []) then None else Some (f64_div n d).

Lemma host_values_spec en ed vm n d c h :
  side_wf en → side_wf ed →
  host_values (computed en) (computed ed) (parts en) (parts ed) vm (n, d, c) h =
    Ret (match side_of en vm h, side_of ed vm h with
      | Some vn, Some vd => (f64_add n vn, f64_add d vd, c +₆₄ 1)
      | _, _ => (n, d, c)
      end).
Proof.
  intros Hen Hed. unfold host_values. rewrite (parts_value en) by done.
  destruct (side_of en vm h) as [vn|]; cbn [mbind go_bind of_value]; [|done].
  rewrite (parts_value ed) by done. by destruct (side_of ed vm h) as [vd|].
Qed.

Lemma host_loop en ed vm hosts n d c :
  side_wf en → side_wf ed → 0 <= c → c + Z.of_nat (length hosts) < 2 ^ 63 →
  go_foldl (host_values (computed en) (computed ed) (parts en) (parts ed) vm) (n, d, c) hosts =
    let vals := valid_values en ed vm hosts in
    Ret (foldl f64_add n vals.*1, foldl f64_add d vals.*2, c + Z.of_nat (length vals)).
Proof.
  intros Hen Hed. cbv zeta. revert n d c. induction hosts as [|h hosts IH]; intros n d c Hc Hl.
  { cbn. by rewrite Z.add_0_r. }
  cbn [length] in Hl. cbn [go_foldl]. rewrite host_values_spec by done. cbn [mbind go_bind].
  cbn [valid_values omap list_omap].
  destruct (side_of en vm h) as [vn|]; cbn [mbind option_bind]; [|apply IH; lia].
  destruct (side_of ed vm h) as [vd|]; cbn [mbind option_bind]; [|apply IH; lia].
  rewrite wrap64_id by (unfold int64; lia). rewrite IH by lia. fold (valid_values en ed vm hosts).
  cbn [fmap list_fmap foldl fst snd length]. f_equal. f_equal. lia.
Qed.

Lemma side_constant_total e sum count :
  side_wf e → side_constant (computed e) (print e) sum count
    = match total e sum count with Some v => Ok v | None => side_constant (computed e) (print e) sum count end.
Proof.
  intros He. unfold side_constant. destruct e as [|d|s|c op n|s op n]; try reflexivity.
  change (computed (Const d)) with false. cbn [print total]. rewrite decide_False by (intros ->; by destruct He).
  by destruct (ParseFloat d).
Qed.

Lemma side_constant_None e sum count :
  side_wf e → total e sum count = None → ∃ err, side_constant (computed e) (print e) sum count = Err err.
Proof.
  intros He. destruct e as [|d|s|c op n|s op n]; try done. cbn [total]. intros Hp. unfold side_constant.
  change (computed (Const d)) with false. cbn [print]. rewrite decide_False by (intros ->; by destruct He).
  destruct (ParseFloat d); [done|by eexists].
Qed.

(** C32. An item whose sides are expressions of the syntax pushes one point: the
quotient of the two sides over the hosts of its group that have a recent value
for every counter, where a sum is the sum of its values over these hosts, a
comparison counts them, [$#] is their number and a constant itself; and nothing
when there is no such host, or the divisor is zero. *)
Theorem WorkerRun_correct item now push_now q en ed hosts resp :
  side_wf en → side_wf ed → ascii_parens (print en) → ascii_parens (print ed) →
  cleanParam item.(Cluster.Numerator) = print en → cleanParam item.(Cluster.Denominator) = print ed →
  computed en || computed ed = true →
  HostnamesByID item.(Cluster.GroupId) = Ok hosts → hosts ≠ [] → Z.of_nat (length hosts) < 2 ^ 63 →
  QueryLastPoints hosts ((parts en).1.1 ++ (parts ed).1.1) = Ok resp →
  let vm := last_values (now -₆₄ (item.(Cluster.Step) *₆₄ 2)) now resp in
  WorkerRun HostnamesByID QueryLastPoints item now push_now q =
    Ret (match quotient en ed vm hosts with
      | Some v => Sender.Push item.(Cluster.Endpoint) item.(Cluster.Metric) item.(Cluster.Tags) (VFloat64 v)
                    item.(Cluster.DsType) [item.(Cluster.Step)] push_now q
      | None => q
      end).
Proof using resp_ok.
  intros Hen Hed Han Had En Ed Hcomp Eh Hne Hlen Er vm. unfold WorkerRun. rewrite En, Ed.
  rewrite !print_valid, !needCompute_print by done. cbn [negb orb].
  assert (negb (computed en) && negb (computed ed) = false) as -> by (by rewrite <- negb_orb, Hcomp).
  rewrite (parse_parts en), (parse_parts ed) by done. cbn [mbind go_bind].
  rewrite !parts_operators. cbn [negb orb]. rewrite Eh. destruct hosts as [|h0 hosts]; [done|].
  unfold queryCounterLast. rewrite Er. rewrite query_points_spec by (by eapply resp_ok). cbn [mbind go_bind].
  fold (last_values (now -₆₄ (item.(Cluster.Step) *₆₄ 2)) now resp). fold vm.
  rewrite host_loop by (done || lia). cbv zeta. cbn [mbind go_bind]. rewrite Z.add_0_l. unfold quotient.
  set (vals := valid_values en ed vm (h0 :: hosts)). set (count := Z.of_nat (length vals)).
  set (sumn := foldl f64_add f64_zero vals.*1). set (sumd := foldl f64_add f64_zero vals.*2).
  destruct (total en sumn count) as [n|] eqn:Etn; cbn [mbind option_bind].
  2:{ by destruct (side_constant_None en sumn count Hen Etn) as [? ->]. }
  rewrite (side_constant_total en) by done. rewrite Etn.
  destruct (total ed sumd count) as [d|] eqn:Etd; cbn [mbind option_bind].
  2:{ by destruct (side_constant_None ed sumd count Hed Etd) as [? ->]. }
  rewrite (side_constant_total ed) by done. rewrite Etd.
  destruct (f64_eq d f64_zero); [done|]. cbn [orb]. unfold count. 
  case_decide as Hc; destruct (bool_decide_reflect (vals = [])) as [Hv|Hv].
  - done.
  - destruct vals; [done|cbn in Hc; lia].
  - by rewrite Hv in Hc.
  - done.
Qed.
End worker_run.

Definition ex_hosts : list string := ["a"; "b"; "c"].
Definition ex_api (hs cs : list string) : result (list last_resp) :=
  Ok [LastResp "a" "cpu.busy" (Some (RRDData.mk 990 (f64_of_Z 70))); LastResp "a" "cpu.nice" (Some (RRDData.mk 990 (f64_of_Z 20)));
      LastResp "b" "cpu.busy" (Some (RRDData.mk 990 (f64_of_Z 10))); LastResp "b" "cpu.nice" (Some (RRDData.mk 990 (f64_of_Z 5)));
      LastResp "c" "cpu.busy" (Some (RRDData.mk 100 (f64_of_Z 99)))].
Definition ex_cluster : Cluster.t :=
  Cluster.mk 7 1 "($(cpu.busy) + $(cpu.nice)) > 80" "$#" "cluster" "busy.hosts" "" "GAUGE" 60 "2017-01-01".
Definition ex_over : side := SumOver (Sum_ "cpu.busy" [(true, "cpu.nice")]) Gt (Number_ "80" None).

Lemma ex_api_ok hs cs resp : ex_api hs cs = Ok resp → no_nil resp.
Proof. intros [= <-]. repeat constructor; by eexists. Qed.

Example WorkerRun_no_panic_witness : returns (WorkerRun (λ _, Ok ex_hosts) ex_api ex_cluster 1000 1001 []).
Proof. apply WorkerRun_no_panic. exact ex_api_ok. Defined.

(** Two hosts report recently, one of them is over 80. *)
Example WorkerRun_correct_witness :
  WorkerRun (λ _, Ok ex_hosts) ex_api ex_cluster 1000 1001 [] =
    Ret (Sender.Push "cluster" "busy.hosts" "" (VFloat64 (f64_div (f64_of_Z 1) (f64_of_Z 2))) "GAUGE" [60] 1001 []).
Proof.
  rewrite (WorkerRun_correct (λ _, Ok ex_hosts) ex_api ex_api_ok ex_cluster 1000 1001 [] ex_over Hosts ex_hosts
    (match ex_api [] [] with Ok l => l | Err _ => [] end)).
  - vm_compute. reflexivity.
  - vm_compute. repeat (constructor || discriminate).
  - exact I.
  - vm_compute. split; reflexivity.
  - vm_compute. split; reflexivity.
  - vm_compute. reflexivity.
  - vm_compute. reflexivity.
  - vm_compute. reflexivity.
  - reflexivity.
  - discriminate.
  - vm_compute. reflexivity.
  - reflexivity.
Defined.

(** The expressions of the syntax are valid, and the parser takes their
printed form apart into the counters, the operators and the comparison they were
printed from. *)
Theorem expression_roundtrip e s mode :
  side_wf e → ascii_parens (print e) → sum_of e = Some (s, mode) →
  expressionValid (print e) = true ∧ needCompute (print e) = true ∧
  parse (print e) true = Ret (s.(first) :: s.(rest).*2, print_op <$> s.(rest).*1, mode).
Proof.
  intros He Ha Es. split_and!; [by apply print_valid| |by apply parse_print].
  rewrite needCompute_print by done. apply bool_decide_eq_true. by eexists.
Qed.

Example expression_roundtrip_witness :
  parse "($(cpu.busy)+$(cpu.nice))>80" true = Ret (["cpu.busy"; "cpu.nice"], ["+"], ">80").
Proof.
  apply (expression_roundtrip ex_over (Sum_ "cpu.busy" [(true, "cpu.nice")]) ">80").
  - vm_compute. repeat (constructor || discriminate).
  - vm_compute. split; reflexivity.
  - reflexivity.
Defined.


(** ** The workers *)

(** A worker per key, each with its own goroutine, and no goroutine besides. *)
Record workers_ok (st : workers) : Prop := WorkersOk {
  wo_item : ∀ k w, st.(Workers) !! k = Some w → w.(wId) < st.(next_id) ∧ 0 < w.(ClusterItem).(Cluster.Step);
  wo_inj : ∀ k1 k2 w1 w2, st.(Workers) !! k1 = Some w1 → st.(Workers) !! k2 = Some w2 → w1.(wId) = w2.(wId) → k1 = k2;
  wo_running : ∀ i, i ∈ st.(running) ↔ ∃ k w, st.(Workers) !! k = Some w ∧ w.(wId) = i }.

Definition no_workers : workers := WorkersState ∅ ∅ 0.

Inductive update_step : workers → workers → Prop :=
| update_step_intro visit DB ids st : (∀ m, ranges (visit m) m) → update_step st (updateItems visit DB ids st).

Lemma deleteNoUseWorker_spec m st :
  workers_ok st →
  workers_ok (deleteNoUseWorker m st) ∧
  ∀ k, (deleteNoUseWorker m st).(Workers) !! k = match m !! k with Some _ => st.(Workers) !! k | None => None end.
Proof.
  intros Hok. unfold deleteNoUseWorker. set (gone := filter _ _).
  assert (∀ k w, (k, w) ∈ gone ↔ st.(Workers) !! k = Some w ∧ m !! k = None) as Hgone.
  { intros k w. unfold gone. rewrite list_elem_of_filter, elem_of_map_to_list. cbn. tauto. }
  assert (∀ (ws : gmap string worker) k, foldl (λ ws kw, delete kw.1 ws) ws gone !! k
    = if decide (k ∈ gone.*1) then None else ws !! k) as Hdel.
  { clear. induction gone as [|[k' w'] gone IH]; intros ws k; [done|]. cbn [foldl fst snd]. rewrite IH.
    cbn [fmap list_fmap fst]. destruct (decide (k ∈ gone.*1)) as [Hin|Hni].
    - by rewrite decide_True by by right.
    - destruct (decide (k = k')) as [->|Hne].
      + by rewrite lookup_delete_eq, decide_True by left.
      + rewrite lookup_delete_ne by done. by rewrite decide_False by (by apply not_elem_of_cons). }
  assert (∀ (s : gset Z) i, i ∈ foldl (λ s kw, s ∖ {[kw.2.(wId)]}) s gone ↔ i ∈ s ∧ i ∉ (wId ∘ snd) <$> gone) as Hrun.
  { clear. induction gone as [|[k' w'] gone IH]; intros s i; cbn [foldl fst snd]; [set_solver|].
    rewrite IH. cbn [fmap list_fmap]. set_solver. }
  assert (∀ k, foldl (λ ws kw, delete kw.1 ws) st.(Workers) gone !! k
    = match m !! k with Some _ => st.(Workers) !! k | None => None end) as Htab.
  { intros k. rewrite Hdel. case_decide as Hk.
    - apply list_elem_of_fmap in Hk as ([k' w] & -> & [_ Hm]%Hgone). cbn. by rewrite Hm.
    - destruct (m !! k) eqn:Em; [done|]. destruct (st.(Workers) !! k) as [w|] eqn:Ew; [|done].
      destruct Hk. apply list_elem_of_fmap. exists (k, w). split; [done|]. by apply Hgone. }
  split; [|exact Htab]. destruct Hok as [H1 H2 H3]. split; cbn [Workers running next_id].
  - intros k w. rewrite Htab. destruct (m !! k); [apply H1|done].
  - intros k1 k2 w1 w2. rewrite !Htab. destruct (m !! k1), (m !! k2); try done. apply H2.
  - intros i. rewrite Hrun, H3. split.
    + intros [(k & w & Hw & Hi) Hni]. exists k, w. split; [|done]. rewrite Htab.
      destruct (m !! k) eqn:Em; [done|]. destruct Hni. apply list_elem_of_fmap. exists (k, w). split; [done|]. by apply Hgone.
    + intros (k & w & Hw & Hi). rewrite Htab in Hw. destruct (m !! k) eqn:Em; [|done]. split; [eauto|].
      intros ([k' w'] & Ei & [Hw' Hm']%Hgone)%list_elem_of_fmap. cbn in Ei.
      assert (k = k') by (eapply H2; [exact Hw|exact Hw'|congruence]). congruence.
Qed.

Lemma create_worker_spec st k c :
  workers_ok st → workers_ok (create_worker st (k, c)) ∧
  (∀ k', k' ≠ k → (create_worker st (k, c)).(Workers) !! k' = st.(Workers) !! k') ∧
  (create_worker st (k, c)).(Workers) !! k =
    match st.(Workers) !! k with
    | Some w => Some w
    | None => if c.(Cluster.Step) <=? 0 then None else Some (Worker st.(next_id) c)
    end.
Proof.
  intros Hok. unfold create_worker. cbn [fst snd]. destruct (st.(Workers) !! k) as [w|] eqn:Ew; [done|].
  destruct (Z.leb_spec c.(Cluster.Step) 0) as [Hs|Hs]; [done|]. cbn [Workers].
  split_and!; [|intros k' Hk; by rewrite lookup_insert_ne|by rewrite lookup_insert_eq].
  destruct Hok as [H1 H2 H3]. split; cbn [Workers running next_id].
  - intros k' w' [[<- <-]|[Hk Hw]]%lookup_insert_Some; cbn; [lia|]. apply H1 in Hw. lia.
  - intros k1 k2 w1 w2 [[<- <-]|[Hk1 Hw1]]%lookup_insert_Some [[<- <-]|[Hk2 Hw2]]%lookup_insert_Some; cbn; [done|..].
    + apply H1 in Hw2. lia.
    + apply H1 in Hw1. lia.
    + by eapply H2.
  - intros i. rewrite elem_of_union, elem_of_singleton, H3. split.
    + intros [->|(k' & w' & Hw & Hi)]; [exists k; eexists; by rewrite lookup_insert_eq|].
      exists k', w'. split; [|done]. rewrite lookup_insert_ne; [done|]. intros ->. congruence.
    + intros (k' & w' & [[<- <-]|[Hk Hw]]%lookup_insert_Some & Hi); [by left|right; eauto].
Qed.

Lemma createWorkerIfNeed_spec kvs st :
  workers_ok st → NoDup kvs.*1 →
  workers_ok (createWorkerIfNeed kvs st) ∧
  (∀ k w, st.(Workers) !! k = Some w → (createWorkerIfNeed kvs st).(Workers) !! k = Some w) ∧
  (∀ k, st.(Workers) !! k = None → k ∉ kvs.*1 → (createWorkerIfNeed kvs st).(Workers) !! k = None) ∧
  (∀ k c, st.(Workers) !! k = None → (k, c) ∈ kvs →
     ClusterItem <$> (createWorkerIfNeed kvs st).(Workers) !! k = if c.(Cluster.Step) <=? 0 then None else Some c).
Proof.
  intros Hok Hnd. revert st Hok. induction kvs as [|[k0 c0] kvs IH]; intros st Hok.
  { split_and!; try done. by intros ? ? ? ?%not_elem_of_nil. }
  cbn in Hnd. apply NoDup_cons in Hnd as [Hni Hnd].
  destruct (create_worker_spec st k0 c0 Hok) as (Hok' & Hother & Hk0).
  destruct (IH Hnd _ Hok') as (Hok2 & Hold & Hnone & Hnew).
  change (createWorkerIfNeed ((k0, c0) :: kvs) st) with (createWorkerIfNeed kvs (create_worker st (k0, c0))).
  split_and!; [done|..].
  - intros k w Hw. apply Hold. destruct (decide (k = k0)) as [->|Hne]; [by rewrite Hk0, Hw|by rewrite Hother].
  - intros k Hk Hin. cbn in Hin. apply not_elem_of_cons in Hin as [Hne Hin]. apply Hnone; [by rewrite Hother|done].
  - intros k c Hk [[= -> ->]|Hin]%elem_of_cons.
    + rewrite Hk in Hk0. destruct (Z.leb_spec c0.(Cluster.Step) 0).
      * by rewrite (Hnone k0 Hk0 Hni).
      * by rewrite (Hold k0 _ Hk0).
    + apply Hnew; [|done]. rewrite Hother; [done|]. intros ->. destruct Hni. apply list_elem_of_fmap. by exists (k0, c).
Qed.

Lemma updateItems_spec visit DB ids st :
  (∀ m, ranges (visit m) m) → workers_ok st →
  workers_ok (updateItems visit DB ids st) ∧
  ∀ items, ReadClusterMonitorItems DB ids = (items, None) → ∀ k,
    ClusterItem <$> (updateItems visit DB ids st).(Workers) !! k =
      match items !! k with
      | None => None
      | Some c => match st.(Workers) !! k with
                  | Some w => Some w.(ClusterItem)
                  | None => if c.(Cluster.Step) <=? 0 then None else Some c
                  end
      end.
Proof.
  intros Hvis Hok. unfold updateItems. destruct (ReadClusterMonitorItems DB ids) as [items [e|]]; [split; done|].
  destruct (deleteNoUseWorker_spec items st Hok) as [Hok1 H1].
  destruct (createWorkerIfNeed_spec (visit items) _ Hok1 (ranges_NoDup _ _ (Hvis items))) as (Hok2 & Hold & Hnone & Hnew).
  split; [done|]. intros ? [= <-] k. specialize (H1 k). destruct (items !! k) as [c|] eqn:Ec.
  - destruct (st.(Workers) !! k) as [w|] eqn:Ew; [by rewrite (Hold _ _ H1)|].
    apply Hnew; [done|]. by apply (ranges_elem_of _ _ _ _ (Hvis items)).
  - rewrite Hnone; [done|done|]. intros ([k' c] & -> & Hin%(ranges_elem_of _ _ _ _ (Hvis items)))%list_elem_of_fmap.
    cbn in Ec. congruence.
Qed.

(** In every reachable state of the aggregator there is one goroutine per
worker of the table and no other; and an update makes the table that of the
items of the database: an item that is gone loses its worker, one that is there
keeps the worker it had, and a new one gets a worker if its step is positive.
(When the database, or the last of its rows, answers an error, nothing changes.) *)
Theorem updateItems_correct visit DB ids st :
  rtc update_step no_workers st → (∀ m, ranges (visit m) m) →
  let st' := updateItems visit DB ids st in
  (∀ i, i ∈ st'.(running) ↔ ∃ k w, st'.(Workers) !! k = Some w ∧ w.(wId) = i) ∧
  ((ReadClusterMonitorItems DB ids).2 ≠ None → st' = st) ∧
  (∀ k w, st'.(Workers) !! k = Some w → 0 < w.(ClusterItem).(Cluster.Step)) ∧
  ∀ items, ReadClusterMonitorItems DB ids = (items, None) → ∀ k,
    ClusterItem <$> st'.(Workers) !! k =
      match items !! k with
      | None => None
      | Some c => match st.(Workers) !! k with
                  | Some w => Some w.(ClusterItem)
                  | None => if c.(Cluster.Step) <=? 0 then None else Some c
                  end
      end.
Proof.
  intros Hr Hvis. assert (workers_ok st) as Hok.
  { assert (workers_ok no_workers) as H0 by (split; cbn; [done|done|set_solver]).
    induction Hr as [|s1 s2 s3 Hs _ IH]; [done|]. apply IH. destruct Hs. by apply updateItems_spec. }
  destruct (updateItems_spec visit DB ids st Hvis Hok) as [[H1 H2 H3] Hk].
  split_and!; [done| | |done].
  - unfold updateItems. by destruct (ReadClusterMonitorItems DB ids) as [? []].
  - intros k w Hw. by apply H1 in Hw as [_ ?].
Qed.

Example updateItems_correct_witness :
  ClusterItem <$> (updateItems map_to_list (λ _, Ok [Err "bad row"; Ok ex_cluster]) (-1, -1) no_workers).(Workers) !! "72017-01-01"
  = Some ex_cluster.
Proof.
  destruct (updateItems_correct map_to_list (λ _, Ok [Err "bad row"; Ok ex_cluster]) (-1, -1) no_workers) as (_ & _ & _ & H).
  - constructor.
  - intros. apply ranges_map_to_list.
  - rewrite (H {["72017-01-01" := ex_cluster]}); [vm_compute; reflexivity|]. vm_compute. reflexivity.
Defined.
