(* ===== verification/Hbs.v ===== *)
(** * The heartbeat server: configuration for judges and agents (modules/hbs)

- [db]: the queries of db/*.go.  A database is a record of answers: each query
  gives a list of rows, where a row whose [Scan] fails is [None];
- [Cache]: the tables of cache/*.go, reloaded by [LoopInit], and the agents that
  reported; the statements executed against the database are logged;
- templates inherit from one another: [ParentIds] walks up, [CalcInheritStrategies]
  lets younger templates override the strategies of older ones;
- the remote calls of rpc/hbs.go and rpc/agent.go. *)

From S2P Require Import Prelude GoFloat GoString Hash Tags Model.
From Stdlib Require Import Ascii.
From stdpp Require Import options.

(** ** The database (db/*.go) *)

Definition query (R : Type) : Type := string → result (list (option R)).

(** [for rows.Next()]: rows that cannot be scanned are skipped. *)
Definition scan_rows {R S} (f : S → R → S) (s : S) (rows : list (option R)) : S :=
  foldl (λ s row, match row with Some r => f s r | None => s end) s rows.

(** The columns of the queries. *)
Record StrategyRow : Set := StrategyRow_ {
  sId : Z; sMetric : string; sTags : string; sFunc : string; sOp : string; sRight : float64;
  sMaxStep : Z; sPriority : Z; sNote : string; sTid : Z }.
Record ExpressionRow : Set := ExpressionRow_ {
  eId : Z; eExp : string; eFunc : string; eOp : string; eRight : float64;
  eMaxStep : Z; ePriority : Z; eNote : string; eActionId : Z }.

Record database : Type := Database {
  grp_host : query (Z * Z);
  host : query (Z * string);
  plugin_dir : query (Z * string);
  grp_tpl : query (Z * Z);
  tpl : query Template.t;
  host_tpl : query (Z * Z);
  strategy : query StrategyRow;
  builtin : query (string * string);
  expression : query ExpressionRow }.

Definition QueryHostGroups (DB : database) : result (gmap Z (list Z)) :=
  rows ← DB.(grp_host) "select grp_id, host_id from grp_host";
  Ok (scan_rows (λ m r, group_append r.2 r.1 m) ∅ rows).

Definition QueryHosts (DB : database) : result (gmap string Z) :=
  rows ← DB.(host) "select id, hostname from host";
  Ok (scan_rows (λ m r, <[r.2 := r.1]> m) ∅ rows).

Definition QueryMonitoredHosts (DB : database) (now : Z) : result (gmap Z Host.t) :=
  rows ← DB.(host) ("select id, hostname from host where maintain_begin > " +:+ Itoa now
                    +:+ " or maintain_end < " +:+ Itoa now);
  Ok (scan_rows (λ m r, <[r.1 := Host.mk r.1 r.2]> m) ∅ rows).

Definition QueryPlugins (DB : database) : result (gmap Z (list string)) :=
  rows ← DB.(plugin_dir) "select grp_id, dir from plugin_dir";
  Ok (scan_rows (λ m r, group_append r.1 r.2 m) ∅ rows).

Definition QueryGroupTemplates (DB : database) : result (gmap Z (list Z)) :=
  rows ← DB.(grp_tpl) "select grp_id, tpl_id from grp_tpl";
  Ok (scan_rows (λ m r, group_append r.1 r.2 m) ∅ rows).

Definition QueryTemplates (DB : database) : result (gmap Z Template.t) :=
  rows ← DB.(tpl) "select id, tpl_name, parent_id, action_id, create_user from tpl";
  Ok (scan_rows (λ m t, <[t.(Template.Id) := t]> m) ∅ rows).

Definition QueryHostTemplateIds (DB : database) : result (gmap Z (list Z)) :=
  rows ← DB.(host_tpl)
    "select a.tpl_id, b.host_id from grp_tpl as a inner join grp_host as b on a.grp_id=b.grp_id";
  Ok (scan_rows (λ m r, group_append r.2 r.1 m) ∅ rows).

(** The tags of a strategy, [k1=v1,k2=v2]. *)
Definition strategy_tags (tags : string) : tagmap :=
  if decide (tags = "") then ∅
  else foldl (λ tt tag, match split2 "=" tag with [k; v] => <[k := v]> tt | _ => tt end)
         ∅ (split "," tags).

(** [now] is the time of day, as [15:04] *)
Definition strategies_sql (now : string) : string :=
  "select s.id, s.metric, s.tags, s.func, s.op, s.right_value, s.max_step, s.priority, s.note, s.tpl_id"
  +:+ " from strategy as s where (s.run_begin='' and s.run_end='') "
  +:+ "or (s.run_begin <= '" +:+ now +:+ "' and s.run_end > '" +:+ now +:+ "')"
  +:+ "or (s.run_begin > s.run_end and !(s.run_begin > '" +:+ now +:+ "' and s.run_end < '" +:+ now +:+ "'))".

(** A strategy without a template has no action: it is dropped. *)
Definition strategy_of_row (tpls : gmap Z Template.t) (r : StrategyRow) : option Strategy.t :=
  t ← tpls !! r.(sTid);
  Some (Strategy.mk r.(sId) r.(sMetric) (strategy_tags r.(sTags)) r.(sFunc) r.(sOp) r.(sRight)
          r.(sMaxStep) r.(sPriority) r.(sNote) (Some t)).

Definition QueryStrategies (DB : database) (now : string) (tpls : gmap Z Template.t) :
    result (gmap Z Strategy.t) :=
  if decide (size tpls = 0%nat) then Err "illegal argument"
  else
    rows ← DB.(strategy) (strategies_sql now);
    Ok (scan_rows (λ m r,
      match strategy_of_row tpls r with
      | Some s => <[s.(Strategy.Id) := s]> m
      | None => m
      end) ∅ rows).

Definition builtin_sql (tids : string) : string :=
  "select metric, tags from strategy where tpl_id in (" +:+ tids
  +:+ ") and metric in ('net.port.listen', 'proc.num', 'du.bs', 'url.check.health')".

(** The rows without repetition: the list so far, and the set of what it prints. *)
Definition builtin_row (acc : list BuiltinMetric.t * gset string) (r : string * string) :
    list BuiltinMetric.t * gset string :=
  let k := r.1 +:+ r.2 in
  if decide (k ∈ acc.2) then acc else (acc.1 ++ [BuiltinMetric.mk r.1 r.2], {[k]} ∪ acc.2).

Definition QueryBuiltinMetrics (DB : database) (tids : string) : result (list BuiltinMetric.t) :=
  rows ← DB.(builtin) (builtin_sql tids);
  Ok (scan_rows builtin_row ([], ∅) rows).1.

(** [each(metric=qps k1=v1 k2=v2)]: the part between the first ["("] and the
first [")"], cut at spaces; slicing panics when they are not in this order. *)
Fixpoint expression_tags (exp : string) (arr : list string) (tags : tagmap) : result tagmap :=
  match arr with
  | [] => Ok tags
  | item :: arr =>
      match split "=" item with
      | [k; v] => expression_tags exp arr (<[TrimSpace k := TrimSpace v]> tags)
      | _ => Err ("parse " +:+ exp +:+ " fail")
      end
  end.

Definition parseExpression (exp : string) : go (result (string * tagmap)) :=
  let left := index_char "(" exp in
  let right := index_char ")" exp in
  inner ← go_slice exp (left + 1) right;
  let tagStrs := TrimSpace inner in
  let arr := Fields tagStrs in
  if decide (length arr < 2)%nat then Ret (Err ("tag not enough. exp: " +:+ exp))
  else Ret (
    tags ← expression_tags exp arr ∅;
    match tags !! "metric" with
    | None => Err ("no metric give of " +:+ exp)
    | Some metric => Ok (metric, delete "metric" tags)
    end).

Definition expression_row (ret : list Expression.t) (row : option ExpressionRow) : go (list Expression.t) :=
  match row with
  | None => Ret ret
  | Some e =>
      p ← parseExpression e.(eExp);
      Ret (match p : result (string * tagmap) with
        | Err _ => ret
        | Ok (metric, tags) =>
            ret ++ [Expression.mk e.(eId) metric tags e.(eFunc) e.(eOp) e.(eRight)
                      e.(eMaxStep) e.(ePriority) e.(eNote) e.(eActionId)]
        end)
  end.

Definition QueryExpressions (DB : database) : go (result (list Expression.t)) :=
  match DB.(expression) "select id, expression, func, op, right_value, max_step, priority, note, action_id from expression where action_id>0 and pause=0" with
  | Err e => Ret (Err e)
  | Ok rows => ret ← go_foldl expression_row [] rows; Ret (Ok ret)
  end.

(** The statement of [UpdateAgent]; [Hosts] is the setting of that name. *)
Definition UpdateAgent (Hosts : string) (agentInfo : AgentUpdateInfo.t) : string :=
  let r := agentInfo.(AgentUpdateInfo.ReportRequest) in
  let ip := r.(AgentReportRequest.IP) in
  let av := r.(AgentReportRequest.AgentVersion) in
  let pv := r.(AgentReportRequest.PluginVersion) in
  if decide (Hosts = "") then
    "insert into host(hostname, ip, agent_version, plugin_version) values ('"
    +:+ r.(AgentReportRequest.Hostname) +:+ "', '" +:+ ip +:+ "', '" +:+ av +:+ "', '" +:+ pv
    +:+ "') on duplicate key update ip='" +:+ ip +:+ "', agent_version='" +:+ av
    +:+ "', plugin_version='" +:+ pv +:+ "'"
  else
    "update host set ip='" +:+ ip +:+ "', agent_version='" +:+ av +:+ "', plugin_version='" +:+ pv
    +:+ "' where hostname='" +:+ r.(AgentReportRequest.Hostname) +:+ "'".

(** ** The caches (cache/*.go) *)

Record cache : Type := Cache {
  GroupPlugins : gmap Z (list string);
  GroupTemplates : gmap Z (list Z);
  HostGroupsMap : gmap Z (list Z);
  HostMap : gmap string Z;
  TemplateCache : gmap Z Template.t;
  Strategies : gmap Z Strategy.t;
  HostTemplateIds : gmap Z (list Z);
  ExpressionCache : list Expression.t;
  MonitoredHosts : gmap Z Host.t;
  Agents : gmap string AgentUpdateInfo.t;
  exec_log : list string }.

(** [m, err := Query...; if err != nil { return }; this.M = m]: a failed query
leaves the table as it was. *)
Definition reload {A} (old : A) (r : result A) : A := match r with Ok m => m | Err _ => old end.

Definition with_tables (gp : gmap Z (list string)) (gt hg : gmap Z (list Z)) (hm : gmap string Z)
    (tc : gmap Z Template.t) (ss : gmap Z Strategy.t) (ht : gmap Z (list Z)) (es : list Expression.t)
    (mh : gmap Z Host.t) (c : cache) : cache :=
  Cache gp gt hg hm tc ss ht es mh c.(Agents) c.(exec_log).

(** One round of [Init] and [LoopInit]: the tables in their order, the
strategies against the templates just loaded.  [now] and [clock] are the time of
the queries, in seconds and as [15:04]. *)
Definition Init (DB : database) (now : Z) (clock : string) (c : cache) : go cache :=
  let gp := reload c.(GroupPlugins) (QueryPlugins DB) in
  let gt := reload c.(GroupTemplates) (QueryGroupTemplates DB) in
  let hg := reload c.(HostGroupsMap) (QueryHostGroups DB) in
  let hm := reload c.(HostMap) (QueryHosts DB) in
  let tc := reload c.(TemplateCache) (QueryTemplates DB) in
  let ss := reload c.(Strategies) (QueryStrategies DB clock tc) in
  let ht := reload c.(HostTemplateIds) (QueryHostTemplateIds DB) in
  es ← QueryExpressions DB;
  let es := reload c.(ExpressionCache) es in
  let mh := reload c.(MonitoredHosts) (QueryMonitoredHosts DB now) in
  Ret (with_tables gp gt hg hm tc ss ht es mh c).

(** *** cache/agents.go *)

Definition with_Agents (m : gmap string AgentUpdateInfo.t) (c : cache) : cache :=
  Cache c.(GroupPlugins) c.(GroupTemplates) c.(HostGroupsMap) c.(HostMap) c.(TemplateCache)
    c.(Strategies) c.(HostTemplateIds) c.(ExpressionCache) c.(MonitoredHosts) m c.(exec_log).
Definition exec (sql : string) (c : cache) : cache :=
  Cache c.(GroupPlugins) c.(GroupTemplates) c.(HostGroupsMap) c.(HostMap) c.(TemplateCache)
    c.(Strategies) c.(HostTemplateIds) c.(ExpressionCache) c.(MonitoredHosts) c.(Agents)
    (c.(exec_log) ++ [sql]).

(** An agent is written to the database only when it is new or reports another
version or address. *)
Definition agent_changed (old : option AgentUpdateInfo.t) (req : AgentReportRequest.t) : bool :=
  match old with
  | None => true
  | Some agentInfo =>
      let r := agentInfo.(AgentUpdateInfo.ReportRequest) in
      bool_decide (r.(AgentReportRequest.AgentVersion) ≠ req.(AgentReportRequest.AgentVersion)
        ∨ r.(AgentReportRequest.IP) ≠ req.(AgentReportRequest.IP)
        ∨ r.(AgentReportRequest.PluginVersion) ≠ req.(AgentReportRequest.PluginVersion))
  end.

Definition Put (Hosts : string) (now : Z) (req : AgentReportRequest.t) (c : cache) : cache :=
  let val := AgentUpdateInfo.mk now req in
  let hostname := req.(AgentReportRequest.Hostname) in
  if agent_changed (c.(Agents) !! hostname) req
  then let c := exec (UpdateAgent Hosts val) c in
       with_Agents (<[hostname := val]> c.(Agents)) c
  else c.

(** [deleteStaleAgents]; [keys] are the agents in the order of the visit. *)
Definition delete_stale (before : Z) (m : gmap string AgentUpdateInfo.t) (key : string) :
    go (gmap string AgentUpdateInfo.t) :=
  curr ← deref (m !! key);
  Ret (if curr.(AgentUpdateInfo.LastUpdate) <? before
       then delete curr.(AgentUpdateInfo.ReportRequest).(AgentReportRequest.Hostname) m
       else m).

Definition deleteStaleAgents (now : Z) (keys : list string) (c : cache) : go cache :=
  m ← go_foldl (delete_stale (now -₆₄ 3600 * 24)) c.(Agents) keys;
  Ret (with_Agents m c).

(** *** cache/plugins.go *)

(** The plugins of a host: those of its groups, without repetition, sorted. *)
Definition GetPlugins (hostname : string) (c : cache) : list string :=
  match c.(HostMap) !! hostname with
  | None => []
  | Some hid =>
      match c.(HostGroupsMap) !! hid with
      | None => []
      | Some gids =>
          let pluginDirs : gset string :=
            foldl (λ s gid, match c.(GroupPlugins) !! gid with
                            | Some plugins => foldl (λ s p, {[p]} ∪ s) s plugins
                            | None => s end) ∅ gids in
          sort_strings (elements pluginDirs)
      end
  end.

(** ** Templates that inherit (cache/strategies.go)

[ParentIds] walks from a template to its ancestors: the loop takes a step per
template and gives up at the tenth. *)

(** [Some None] is the cycle the loop gives up on; [None] is no outcome within
[fuel] steps. *)
Fixpoint parent_loop (fuel : nat) (allTpls : gmap Z Template.t) (tid : Z) (depth : Z) (ret : list Z) :
    option (option (list Z)) :=
  match fuel with
  | O => None
  | S fuel =>
      if tid <=? 0 then Some (Some ret)
      else match allTpls !! tid with
        | None => Some (Some ret)
        | Some t =>
            if depth + 1 =? 10 then Some None
            else parent_loop fuel allTpls t.(Template.ParentId) (depth + 1) (ret ++ [tid])
        end
  end.

(** [desc[sz-i-1] = item] for each element of [ret] *)
Definition descending (ret : list Z) : list Z :=
  let sz := length ret in
  foldl (λ desc ix, <[(sz - ix.1 - 1)%nat := ix.2]> desc) (replicate sz 0) (imap pair ret).

Definition ParentIds_fuel (fuel : nat) (allTpls : gmap Z Template.t) (tid : Z) : option (list Z) :=
  r ← parent_loop fuel allTpls tid 0 [];
  Some (match r : option (list Z) with
    | None => []
    | Some ret => if decide (length ret <= 1)%nat then ret else descending ret
    end).

(** Ten steps are enough: see [ParentIds_correct]. *)
Definition ParentIds (allTpls : gmap Z Template.t) (tid : Z) : list Z :=
  default [] (ParentIds_fuel 10 allTpls tid).

(** ** Strategies of the hosts (rpc/hbs.go) *)

Definition slice_int_contains (list : list Z) (target : Z) : bool := existsb (Z.eqb target) list.

Fixpoint same_elements (a b : list Z) : bool :=
  match a, b with
  | x :: a, y :: b => if decide (x = y) then same_elements a b else false
  | _, _ => true
  end.
Definition slice_int_eq (a b : list Z) : bool :=
  if decide (length a ≠ length b) then false else same_elements a b.

Definition slice_int_lt (a b : list Z) : bool := forallb (slice_int_contains b) a.

(** [Tpl2Strategies]; [kvs] is the order of the visit of the strategies. *)
Definition Tpl2Strategies (kvs : list (Z * Strategy.t)) : gmap Z (list Strategy.t) :=
  foldl (λ ret ks, match ks.2.(Strategy.Tpl) with
    | None => ret
    | Some t => group_append t.(Template.Id) ks.2 ret
    end) ∅ kvs.

Definition tpl_buckets (allTpls : gmap Z Template.t) (tids : list Z) : list (list Z) :=
  filter (λ ids, ids ≠ []) (ParentIds allTpls <$> tids).

(** The inner loop over [j]: is the [i]-th bucket valid? *)
Fixpoint bucket_valid (i : nat) (bi : list Z) (j : nat) (buckets : list (list Z)) : bool :=
  match buckets with
  | [] => true
  | bj :: buckets =>
      if decide (i = j) then bucket_valid i bi (S j) buckets
      else if slice_int_eq bi bj then true
      else if slice_int_lt bi bj then false
      else bucket_valid i bi (S j) buckets
  end.

Definition uniq_tpl_buckets (buckets : list (list Z)) : list (list Z) :=
  (filter (λ ib, bucket_valid ib.1 ib.2 0 buckets = true) (imap pair buckets)).*2.

Definition strategy_uuid (s : Strategy.t) : string :=
  "metric:" +:+ s.(Strategy.Metric) +:+ "/tags:" +:+ SortedTags s.(Strategy.Tags).

Definition the_tid_stras (tpl2Strategies : gmap Z (list Strategy.t)) (tid : Z) :
    gmap string (list Strategy.t) :=
  match tpl2Strategies !! tid with
  | Some stras => foldl (λ m s, group_append (strategy_uuid s) s m) ∅ stras
  | None => ∅
  end.

(** The strategies of a younger template override those of its ancestors. *)
Definition bucket_stras_map (tpl2Strategies : gmap Z (list Strategy.t)) (bucket : list Z) :
    gmap string (list Strategy.t) :=
  foldl (λ m tid, assign_all (map_to_list (the_tid_stras tpl2Strategies tid)) m) ∅ bucket.

Definition set_Tpl (tpl : option Template.t) (s : Strategy.t) : Strategy.t :=
  Strategy.mk s.(Strategy.Id) s.(Strategy.Metric) s.(Strategy.Tags) s.(Strategy.Func)
    s.(Strategy.Operator) s.(Strategy.RightValue) s.(Strategy.MaxStep) s.(Strategy.Priority)
    s.(Strategy.Note) tpl.

(** The body of the last loops: a strategy is answered once, with the youngest
template of its bucket. *)
Definition answer_strategy (allTpls : gmap Z Template.t) (last_tid : Z)
    (acc : list Strategy.t * gset Z) (s : Strategy.t) : go (list Strategy.t * gset Z) :=
  let '(strategies, exists_by_id) := acc in
  if decide (s.(Strategy.Id) ∈ exists_by_id) then Ret acc
  else
    t ← deref s.(Strategy.Tpl);
    let valStrategy := if decide (t.(Template.Id) ≠ last_tid) then set_Tpl (allTpls !! last_tid) s else s in
    Ret (strategies ++ [valStrategy], {[s.(Strategy.Id)]} ∪ exists_by_id).

(** A visiting order for the map of each bucket. *)
Definition visitor : Type := nat → gmap string (list Strategy.t) → list (string * list Strategy.t).

Definition answer_bucket (allTpls : gmap Z Template.t) (tpl2Strategies : gmap Z (list Strategy.t))
    (visit : visitor) (acc : list Strategy.t * gset Z) (ib : nat * list Z) : go (list Strategy.t * gset Z) :=
  let m := bucket_stras_map tpl2Strategies ib.2 in
  last_tid ← at_index ib.2 (Z.of_nat (length ib.2) - 1);
  go_foldl (answer_strategy allTpls last_tid) acc (mjoin (visit ib.1 m).*2).

Definition CalcInheritStrategies (visit : visitor) (allTpls : gmap Z Template.t) (tids : list Z)
    (tpl2Strategies : gmap Z (list Strategy.t)) : go (list Strategy.t) :=
  let uniq := uniq_tpl_buckets (tpl_buckets allTpls tids) in
  r ← go_foldl (answer_bucket allTpls tpl2Strategies visit) ([], ∅) (imap pair uniq);
  Ret (r : list Strategy.t * gset Z).1.

(** The body of the loop of [GetStrategies] over the hosts. *)
Definition host_strategy (visit : Z → visitor) (hosts : gmap Z Host.t) (tpls : gmap Z Template.t)
    (tpl2Strategies : gmap Z (list Strategy.t)) (hostStrategies : list HostStrategy.t)
    (hidTids : Z * list Z) : go (list HostStrategy.t) :=
  match hosts !! hidTids.1 with
  | None => Ret hostStrategies
  | Some h =>
      ss ← CalcInheritStrategies (visit hidTids.1) tpls hidTids.2 tpl2Strategies;
      if decide (length ss <= 0)%nat then Ret hostStrategies
      else Ret (hostStrategies ++ [HostStrategy.mk h.(Host.Name) ss])
  end.

(** [GetStrategies]; [kvs] and [hids] are the orders in which the strategies and
the hosts are visited. *)
Definition GetStrategies (visit : Z → visitor) (kvs : list (Z * Strategy.t)) (hids : list (Z * list Z))
    (c : cache) : go (list HostStrategy.t) :=
  if decide (size c.(HostTemplateIds) = 0%nat) then Ret []
  else if decide (size c.(MonitoredHosts) = 0%nat) then Ret []
  else if decide (size c.(TemplateCache) = 0%nat) then Ret []
  else if decide (size c.(Strategies) = 0%nat) then Ret []
  else go_foldl (host_strategy visit c.(MonitoredHosts) c.(TemplateCache) (Tpl2Strategies kvs)) [] hids.

Definition GetExpressions (c : cache) : list Expression.t := c.(ExpressionCache).

(** ** The remote calls of agents (rpc/agent.go) *)

(** The templates of a host and their ancestors, unless it has none; [ToSlice] lists a set. *)
Definition builtin_tids (ToSlice : nat → gset Z → list Z) (gids : list Z) (c : cache) : option (list Z) :=
  let tidSet : gset Z :=
    foldl (λ s gid, match c.(GroupTemplates) !! gid with
                    | Some tids => foldl (λ s tid, {[tid]} ∪ s) s tids
                    | None => s end) ∅ gids in
  let tidSlice := ToSlice 0%nat tidSet in
  if decide (length tidSlice = 0%nat) then None
  else
    Some (ToSlice 1%nat
      (foldl (λ s tid, foldl (λ s pid, {[pid]} ∪ s) s (ParentIds c.(TemplateCache) tid)) tidSet tidSlice)).

Definition GetBuiltinMetrics (DB : database) (ToSlice : nat → gset Z → list Z) (hostname : string)
    (c : cache) : result (list BuiltinMetric.t) :=
  match c.(HostMap) !! hostname with
  | None => Ok []
  | Some hid =>
      match c.(HostGroupsMap) !! hid with
      | None => Ok []
      | Some gids =>
          match builtin_tids ToSlice gids c with
          | None => Ok []
          | Some tids => QueryBuiltinMetrics DB (join "," (Itoa <$> tids))
          end
      end
  end.

(** [sort.Sort(BuiltinMetricSlice(items))] and the digest of what the items print. *)
Definition sort_metrics (items : list BuiltinMetric.t) : list BuiltinMetric.t :=
  merge_sort (λ a b, String.le (BuiltinMetric.String a) (BuiltinMetric.String b)) items.

Definition DigestBuiltinMetrics (sorted : list BuiltinMetric.t) : string :=
  Md5 (String.concat "" (BuiltinMetric.String <$> sorted)).

Record BuiltinMetricResponse : Type := BuiltinMetricResponse_ {
  bMetrics : list BuiltinMetric.t; bChecksum : string; bTimestamp : Z }.

Definition BuiltinMetrics (DB : database) (ToSlice : nat → gset Z → list Z)
    (hostname checksum : string) (now : Z) (c : cache) (reply : BuiltinMetricResponse) : BuiltinMetricResponse :=
  if decide (hostname = "") then reply
  else
    match GetBuiltinMetrics DB ToSlice hostname c with
    | Err _ => reply
    | Ok metrics =>
        let sorted := sort_metrics metrics in
        let digest := if decide (0 < length metrics)%nat then DigestBuiltinMetrics sorted else "" in
        BuiltinMetricResponse_ (if decide (checksum = digest) then [] else sorted) digest now
    end.

Record AgentPluginsResponse : Type := AgentPluginsResponse_ { Plugins : list string; pTimestamp : Z }.

Definition MinePlugins (hostname : string) (now : Z) (c : cache) (reply : AgentPluginsResponse) :
    AgentPluginsResponse :=
  if decide (hostname = "") then reply else AgentPluginsResponse_ (GetPlugins hostname c) now.

(** The code it replies with, [0] unless the host has no name. *)
Definition ReportStatus (Hosts : string) (now : Z) (args : AgentReportRequest.t) (c : cache) : Z * cache :=
  if decide (args.(AgentReportRequest.Hostname) = "") then (1, c) else (0, Put Hosts now args c).

Definition TrustableIps (Trustable : list string) : string := join "," Trustable.
