(* ===== verification/HbsInherit.v ===== *)
(** * Templates, strategies and agents of the heartbeat server: correctness

The chains of ancestors of templates, which strategies of a chain are in force,
what the judges are told for each host, and the cache of the agents. *)

From stdpp Require Import functions.
From S2P Require Import Prelude GoFloat GoString Hash Tags Model Hbs.
From Stdlib Require Import Ascii.
From stdpp Require Import options.

(** ** The chain of ancestors *)

Section chain.
Context (tpls : gmap Z Template.t).

Definition known (tid : Z) : Prop := 0 < tid ∧ is_Some (tpls !! tid).

(** [chain tid ids]: [ids] are the ancestors of [tid], the oldest first, and [tid]. *)
Inductive chain : Z → list Z → Prop :=
| chain_root tid t :
    0 < tid → tpls !! tid = Some t → ¬ known t.(Template.ParentId) → chain tid [tid]
| chain_step tid t ids :
    0 < tid → tpls !! tid = Some t → chain t.(Template.ParentId) ids → chain tid (ids ++ [tid]).

Lemma chain_known tid ids : chain tid ids → known tid.
Proof. destruct 1; split; eauto. Qed.

Lemma chain_last tid ids : chain tid ids → ∃ l, ids = l ++ [tid].
Proof. destruct 1; [by exists []|by eexists]. Qed.

Lemma chain_nonempty tid ids : chain tid ids → ids ≠ [].
Proof. intros [l ->]%chain_last. by destruct l. Qed.

Lemma chain_fun tid ids1 ids2 : chain tid ids1 → chain tid ids2 → ids1 = ids2.
Proof.
  intros H1. revert ids2. induction H1 as [tid t Hp Ht Hk|tid t ids Hp Ht Hc IH]; intros ids2 H2.
  - inversion H2; subst; [done|]. simplify_eq. by apply chain_known in H1.
  - inversion H2; subst; simplify_eq; [by apply chain_known in Hc|]. f_equal. by apply IH.
Qed.

Lemma chain_prefix tid ids : chain tid ids → ∀ l x r, ids = l ++ x :: r → chain x (l ++ [x]).
Proof.
  induction 1 as [tid t Hp Ht Hk|tid t ids Hp Ht Hc IH]; intros l x r E.
  - destruct l as [|? [|]]; simplify_eq/=. by eapply chain_root.
  - destruct r as [|y r _] using rev_ind.
    + apply app_inj_tail in E as [-> ->]. by eapply chain_step.
    + rewrite app_comm_cons, app_assoc in E. apply app_inj_tail in E as [-> _]. by eapply IH.
Qed.

Lemma chain_elem tid ids x : chain tid ids → x ∈ ids → ∃ l, chain x (l ++ [x]) ∧ l ++ [x] `prefix_of` ids.
Proof.
  intros Hc (l & r & ->)%list_elem_of_split. exists l. split; [by eapply chain_prefix|].
  exists r. by rewrite <- app_assoc.
Qed.

Lemma chain_NoDup tid ids : chain tid ids → NoDup ids.
Proof.
  induction 1 as [tid t Hp Ht Hk|tid t ids Hp Ht Hc IH]; [apply NoDup_singleton|].
  apply NoDup_app. split_and!; [done| |apply NoDup_singleton].
  intros x Hx ->%list_elem_of_singleton.
  destruct (chain_elem _ _ _ Hc Hx) as (l & Hl & [r E]).
  assert (chain tid (ids ++ [tid])) as Hc' by (by eapply chain_step).
  pose proof (f_equal length (chain_fun _ _ _ Hl Hc')) as E'.
  apply (f_equal length) in E. rewrite !length_app in E, E'. cbn in *. lia.
Qed.

(** Two templates of one bucket list: the chain of one contains the other
exactly when it contains its whole chain. *)
Lemma chain_subset tid1 ids1 tid2 ids2 :
  chain tid1 ids1 → chain tid2 ids2 → ids1 ⊆ ids2 ↔ tid1 ∈ ids2.
Proof.
  intros H1 H2. split.
  - intros Hs. destruct (chain_last _ _ H1) as [l ->]. apply Hs. set_solver.
  - intros Hin. destruct (chain_elem _ _ _ H2 Hin) as (l & Hl & [r ->]).
    rewrite (chain_fun _ _ _ H1 Hl). set_solver.
Qed.

(** ** The walk *)

Lemma parent_loop_spec fuel tid depth ret :
  0 <= depth < 10 → 10 - depth <= Z.of_nat fuel →
  (¬ known tid ∧ parent_loop fuel tpls tid depth ret = Some (Some ret)) ∨
  (∃ ids, chain tid ids ∧ depth + Z.of_nat (length ids) < 10 ∧
     parent_loop fuel tpls tid depth ret = Some (Some (ret ++ reverse ids))) ∨
  (known tid ∧ (∀ ids, chain tid ids → 10 <= depth + Z.of_nat (length ids)) ∧
     parent_loop fuel tpls tid depth ret = Some None).
Proof.
  revert tid depth ret. induction fuel as [|fuel IH]; intros tid depth ret Hd Hf; [lia|].
  cbn [parent_loop]. destruct (Z.leb_spec tid 0) as [Hp|Hp].
  { left. split; [|done]. intros [? _]. lia. }
  destruct (tpls !! tid) as [t|] eqn:Et.
  2:{ left. split; [|done]. intros [_ [? ?]]. congruence. }
  assert (known tid) as Hk by (split; eauto).
  destruct (Z.eqb_spec (depth + 1) 10) as [Hd10|Hd10].
  { right. right. split_and!; [done| |done]. intros ids Hc.
    destruct (chain_last _ _ Hc) as [l ->]. rewrite length_app. cbn. lia. }
  destruct (IH t.(Template.ParentId) (depth + 1) (ret ++ [tid])) as
    [[Hn E]|[(ids & Hc & Hl & E)|(Hk' & Hl & E)]]; [lia..| | |]; rewrite E.
  - right. left. exists [tid]. split_and!; [by eapply chain_root|cbn; lia|done].
  - right. left. exists (ids ++ [tid]). split_and!; [by eapply chain_step|..].
    + rewrite length_app. cbn. lia.
    + by rewrite reverse_app, <- app_assoc.
  - right. right. split_and!; [done| |done]. intros ids Hc.
    inversion Hc; subst; simplify_eq. apply Hl in H1. rewrite length_app. cbn. lia.
Qed.
End chain.

Lemma insert_replicate_suffix {A} (n : nat) (x d : A) (r : list A) :
  <[n := x]> (replicate (S n) d ++ r) = replicate n d ++ x :: r.
Proof.
  rewrite replicate_S_end, <- app_assoc. cbn.
  rewrite insert_app_r_alt by (rewrite length_replicate; lia).
  by rewrite length_replicate, Nat.sub_diag.
Qed.

Lemma descending_foldl (sz k : nat) (ret r : list Z) :
  sz = (k + length ret)%nat →
  foldl (λ desc ix, <[(sz - ix.1 - 1)%nat := ix.2]> desc) (replicate (length ret) 0 ++ r)
    (imap (λ i x, ((k + i)%nat, x)) ret) = reverse ret ++ r.
Proof.
  revert k r. induction ret as [|x ret IH]; intros k r Hs; [done|].
  cbn [length] in *. cbn [imap foldl]. rewrite Nat.add_0_r. cbn [fst snd].
  replace (sz - k - 1)%nat with (length ret) by lia. rewrite insert_replicate_suffix.
  rewrite reverse_cons, <- app_assoc. cbn. rewrite <- (IH (S k)) by lia.
  f_equal. apply imap_ext. intros i y _. cbn. f_equal. lia.
Qed.

Lemma descending_reverse ret : descending ret = reverse ret.
Proof.
  unfold descending. pose proof (descending_foldl (length ret) 0 ret [] eq_refl) as H.
  rewrite !app_nil_r in H. exact H.
Qed.

Lemma ParentIds_fuel_spec fuel tpls tid :
  (10 <= fuel)%nat →
  (∃ ids, chain tpls tid ids ∧ (length ids < 10)%nat ∧ ParentIds_fuel fuel tpls tid = Some ids) ∨
  ((∀ ids, chain tpls tid ids → (10 <= length ids)%nat) ∧ ParentIds_fuel fuel tpls tid = Some []).
Proof.
  intros Hf. unfold ParentIds_fuel.
  destruct (parent_loop_spec tpls fuel tid 0 []) as [[Hn E]|[(ids & Hc & Hl & E)|(Hk' & Hl & E)]];
    [lia..| | |]; rewrite E; cbn [mbind option_bind app length].
  - right. split; [|done]. by intros ids Hc%chain_known.
  - left. exists ids. split_and!; [done|lia|]. f_equal.
    case_decide as Hle; [|by rewrite descending_reverse, reverse_involutive].
    rewrite length_reverse in Hle. by destruct ids as [|? [|]]; [..|cbn in Hle; lia].
  - right. split; [|done]. intros ids Hc%Hl. lia.
Qed.

Lemma ParentIds_chain tpls tid ids :
  chain tpls tid ids → (length ids < 10)%nat → ParentIds tpls tid = ids.
Proof.
  intros Hc Hl. unfold ParentIds.
  destruct (ParentIds_fuel_spec 10 tpls tid) as [(ids' & Hc' & _ & ->)|[Hn _]]; [lia| |].
  - cbn. by eapply chain_fun.
  - apply Hn in Hc. lia.
Qed.

Lemma ParentIds_nonempty tpls tid ids :
  ParentIds tpls tid = ids → ids ≠ [] → chain tpls tid ids ∧ (length ids < 10)%nat.
Proof.
  intros <-. unfold ParentIds.
  by destruct (ParentIds_fuel_spec 10 tpls tid) as [(ids' & Hc' & ? & ->)|[Hn ->]]; [lia| |].
Qed.

(** ** The buckets of a host *)

Lemma slice_int_contains_spec l x : slice_int_contains l x = true ↔ x ∈ l.
Proof.
  unfold slice_int_contains. rewrite existsb_exists. setoid_rewrite <- list_elem_of_In.
  split; [by intros (? & ? & ->%Z.eqb_eq)|]. intros ?. exists x. by rewrite Z.eqb_refl.
Qed.

Lemma slice_int_lt_spec a b : slice_int_lt a b = true ↔ a ⊆ b.
Proof.
  unfold slice_int_lt. rewrite forallb_forall. setoid_rewrite <- list_elem_of_In.
  setoid_rewrite slice_int_contains_spec. done.
Qed.

Lemma slice_int_eq_spec a b : slice_int_eq a b = true ↔ a = b.
Proof.
  unfold slice_int_eq. case_decide as Hl.
  { split; [done|]. by intros ->. }
  revert b Hl. induction a as [|x a IH]; intros [|y b] Hl; try done.
  cbn in *. case_decide as Hx; [subst; rewrite IH by congruence; naive_solver|naive_solver].
Qed.

Lemma bucket_valid_spec i bi j buckets :
  (∀ k bk, buckets !! k = Some bk → i ≠ (j + k)%nat → bk ≠ bi) →
  bucket_valid i bi j buckets = true ↔
    ∀ k bk, buckets !! k = Some bk → i ≠ (j + k)%nat → ¬ bi ⊆ bk.
Proof.
  revert j. induction buckets as [|b buckets IH]; intros j Hd; [done|].
  assert (bucket_valid i bi (S j) buckets = true ↔
    ∀ k bk, buckets !! k = Some bk → i ≠ (S j + k)%nat → ¬ bi ⊆ bk) as IH'.
  { apply IH. intros k bk Hk Hi. apply (Hd (S k)); [done|lia]. }
  cbn [bucket_valid]. case_decide as Hij.
  { rewrite IH'. split; intros H [|k] bk Hk Hi; simplify_eq/=.
    - apply (H k); [done|lia].
    - apply (H 1%nat); [done|lia].
    - apply (H (S (S k))); [done|lia]. }
  destruct (slice_int_eq bi b) eqn:Eeq.
  { apply slice_int_eq_spec in Eeq as ->. by destruct (Hd 0%nat b eq_refl); [lia|]. }
  destruct (slice_int_lt bi b) eqn:Elt.
  { split; [done|]. intros H. apply slice_int_lt_spec in Elt. by destruct (H 0%nat b eq_refl); [lia|]. }
  rewrite IH'. split; intros H [|k] bk Hk Hi; simplify_eq/=.
  - rewrite <- slice_int_lt_spec. by rewrite Elt.
  - apply (H k); [done|lia].
  - apply (H 1%nat); [done|lia].
  - apply (H (S (S k))); [done|lia].
Qed.

Lemma elem_of_tpl_buckets tpls tids ids :
  ids ∈ tpl_buckets tpls tids ↔ ∃ tid, tid ∈ tids ∧ chain tpls tid ids ∧ (length ids < 10)%nat.
Proof.
  unfold tpl_buckets. rewrite list_elem_of_filter, list_elem_of_fmap. split.
  - intros (Hne & tid & -> & Hin). exists tid. split; [done|]. by apply ParentIds_nonempty.
  - intros (tid & Hin & Hc & Hl). split; [by eapply chain_nonempty|].
    exists tid. by rewrite (ParentIds_chain _ _ _ Hc Hl).
Qed.

Lemma tpl_buckets_NoDup tpls tids : NoDup tids → NoDup (tpl_buckets tpls tids).
Proof.
  induction 1 as [|tid tids Hni _ IH]; [constructor|].
  unfold tpl_buckets. cbn [fmap list_fmap]. rewrite filter_cons. case_decide as Hne; [|done].
  constructor; [|done]. intros (tid' & Hin & Hc & _)%elem_of_tpl_buckets.
  destruct (ParentIds_nonempty tpls tid _ eq_refl Hne) as [Hc' _].
  destruct (chain_last _ _ _ Hc) as [l E], (chain_last _ _ _ Hc') as [l' E'].
  rewrite E in E'. by apply app_inj_tail in E' as [_ ->].
Qed.

Lemma elem_of_uniq buckets b :
  b ∈ uniq_tpl_buckets buckets ↔ ∃ i, buckets !! i = Some b ∧ bucket_valid i b 0 buckets = true.
Proof.
  unfold uniq_tpl_buckets. rewrite list_elem_of_fmap. split.
  - intros ([i b'] & -> & Hin). apply list_elem_of_filter in Hin as [Hv Hin].
    apply elem_of_lookup_imap in Hin as (j & x & E & Hx). simplify_eq/=. by exists j.
  - intros (i & Hi & Hv). exists (i, b). split; [done|]. apply list_elem_of_filter.
    split; [done|]. apply elem_of_lookup_imap. by exists i, b.
Qed.

Lemma uniq_incl buckets b : b ∈ uniq_tpl_buckets buckets → b ∈ buckets.
Proof. intros (i & Hi & _)%elem_of_uniq. by eapply list_elem_of_lookup_2. Qed.

(** [tid], with the chain [ids], is bound to the host and no other template bound
to the host inherits from it. *)
Definition youngest (tpls : gmap Z Template.t) (tids : list Z) (tid : Z) (ids : list Z) : Prop :=
  tid ∈ tids ∧ chain tpls tid ids ∧ (length ids < 10)%nat ∧
  ∀ tid' ids', tid' ∈ tids → tid' ≠ tid → chain tpls tid' ids' → (length ids' < 10)%nat → tid ∉ ids'.

(** When no template is bound twice, the chains of exactly these are kept. *)
Lemma uniq_kept tpls tids ids :
  NoDup tids →
  ids ∈ uniq_tpl_buckets (tpl_buckets tpls tids) ↔
  ∃ tid, youngest tpls tids tid ids.
Proof.
  intros Hnd. unfold youngest. pose proof (tpl_buckets_NoDup tpls tids Hnd) as Hbd.
  set (bs := tpl_buckets tpls tids) in *.
  assert (∀ i b, bs !! i = Some b → bucket_valid i b 0 bs = true ↔
    ∀ k bk, bs !! k = Some bk → i ≠ (0 + k)%nat → ¬ b ⊆ bk) as Hv.
  { intros i b Hi. apply bucket_valid_spec. intros k bk Hk Hik ->. apply Hik.
    by eapply NoDup_lookup. }
  rewrite elem_of_uniq. split.
  - intros (i & Hi & Hvi). pose proof (proj1 (Hv _ _ Hi) Hvi) as Hno.
    apply list_elem_of_lookup_2 in Hi as Hb. apply elem_of_tpl_buckets in Hb as (tid & Hin & Hc & Hl).
    exists tid. split_and!; [done..|]. intros tid' ids' Hin' Hne Hc' Hl' Hmem.
    assert (ids' ∈ bs) as [k Hk]%list_elem_of_lookup_1 by (apply elem_of_tpl_buckets; eauto).
    apply (Hno k ids' Hk); [|by eapply chain_subset].
    intros E. cbn in E. subst k. rewrite Hi in Hk. simplify_eq.
    destruct (chain_last _ _ _ Hc) as [l ->], (chain_last _ _ _ Hc') as [l' E'].
    by apply app_inj_tail in E' as [_ ->].
  - intros (tid & Hin & Hc & Hl & Hmax).
    assert (ids ∈ bs) as [i Hi]%list_elem_of_lookup_1 by (apply elem_of_tpl_buckets; eauto).
    exists i. split; [done|]. apply Hv; [done|]. intros k bk Hk Hik Hsub.
    apply list_elem_of_lookup_2 in Hk as Hb. apply elem_of_tpl_buckets in Hb as (tid' & Hin' & Hc' & Hl').
    assert (tid' ≠ tid) as Hne.
    { intros ->. rewrite (chain_fun _ _ _ _ Hc' Hc) in Hk. apply Hik. by eapply NoDup_lookup. }
    eapply (Hmax tid' bk); [done..|]. by eapply (proj1 (chain_subset _ _ _ _ _ Hc Hc')).
Qed.

(** ** The strategies in force *)

Definition strategies_of (tpl2Strategies : gmap Z (list Strategy.t)) (tid : Z) : list Strategy.t :=
  default [] (tpl2Strategies !! tid).

(** [s] is in force in a chain: it belongs to a template of it and no younger
template has a strategy for the same metric and tags. *)
Definition effective (t2s : gmap Z (list Strategy.t)) (bucket : list Z) (s : Strategy.t) : Prop :=
  ∃ pre tid post, bucket = pre ++ tid :: post ∧ s ∈ strategies_of t2s tid ∧
    ∀ tid' s', tid' ∈ post → s' ∈ strategies_of t2s tid' → strategy_uuid s' ≠ strategy_uuid s.

Lemma the_tid_stras_lookup t2s tid u :
  the_tid_stras t2s tid !! u =
    match filter (λ s, strategy_uuid s = u) (strategies_of t2s tid) with [] => None | ss => Some ss end.
Proof.
  unfold the_tid_stras, strategies_of. destruct (t2s !! tid) as [stras|]; [|done]. cbn [default].
  assert (foldl (λ m s, group_append (strategy_uuid s) s m) ∅ stras
    = group_by ((λ s, (strategy_uuid s, s)) <$> stras) ∅) as ->.
  { unfold group_by. by rewrite foldl_fmap. }
  rewrite group_by_lookup, lookup_empty, (values_of_keyed strategy_uuid).
  cbn [id]. by destruct (filter (λ s, strategy_uuid s = u) stras).
Qed.

Lemma bucket_stras_map_snoc t2s bucket tid :
  bucket_stras_map t2s (bucket ++ [tid]) = the_tid_stras t2s tid ∪ bucket_stras_map t2s bucket.
Proof.
  unfold bucket_stras_map. rewrite foldl_app. cbn [foldl]. rewrite assign_all_alt. f_equal.
  rewrite <- (list_to_map_to_list (the_tid_stras t2s tid)) at 2. apply list_to_map_proper.
  - rewrite reverse_Permutation. apply NoDup_fst_map_to_list.
  - by rewrite reverse_Permutation.
Qed.

Lemma bucket_stras_map_effective t2s bucket s :
  (∃ ss, bucket_stras_map t2s bucket !! strategy_uuid s = Some ss ∧ s ∈ ss) ↔ effective t2s bucket s.
Proof.
  induction bucket as [|tid bucket IH] using rev_ind.
  { split; [by intros (ss & Hss & _)|]. by intros ([] & ? & ? & ? & _). }
  rewrite bucket_stras_map_snoc. setoid_rewrite lookup_union. rewrite the_tid_stras_lookup.
  set (own := filter (λ s', strategy_uuid s' = strategy_uuid s) (strategies_of t2s tid)).
  assert (∀ s', s' ∈ own ↔ strategy_uuid s' = strategy_uuid s ∧ s' ∈ strategies_of t2s tid) as Hown.
  { intros s'. unfold own. by rewrite list_elem_of_filter. }
  assert (effective t2s (bucket ++ [tid]) s ↔ s ∈ own ∨ own = [] ∧ effective t2s bucket s) as ->.
  { split.
    - intros (pre & tid' & post & E & Hs & Hpost).
      destruct post as [|y post _] using rev_ind.
      + apply app_inj_tail in E as [-> ->]. left. by apply Hown.
      + rewrite app_comm_cons, app_assoc in E. apply app_inj_tail in E as [-> <-]. right. split.
        * destruct own as [|s' l] eqn:Eo; [done|].
          destruct (proj1 (Hown s')) as [Hu Hs']; [left|]. by destruct (Hpost tid s'); [set_solver|..].
        * exists pre, tid', post. split_and!; [done..|]. intros tid'' s' Hin. apply Hpost. set_solver.
    - intros [[_ Hs]%Hown|[Ho (pre & tid' & post & -> & Hs & Hpost)]].
      + exists bucket, tid, []. split_and!; [done..|]. by intros ? ? ?%not_elem_of_nil.
      + exists pre, tid', (post ++ [tid]). split_and!; [by rewrite <- app_assoc|done|].
        intros tid'' s' [Hin| ->%list_elem_of_singleton]%elem_of_app Hs' Hu; [by eapply Hpost|].
        assert (s' ∈ own) as Hx by by apply Hown. rewrite Ho in Hx. by apply not_elem_of_nil in Hx. }
  destruct own as [|s' l] eqn:Eo.
  - rewrite (left_id_L None union), IH. set_solver.
  - rewrite <- Eo in *. assert (∀ o : option (list Strategy.t), Some own ∪ o = Some own) as Hu by by intros [].
    setoid_rewrite Hu. split; [intros (ss & [= <-] & ?); by left|].
    intros [?|[? _]]; [by eexists|]. congruence.
Qed.

Lemma visited_effective t2s bucket (kvs : list (string * list Strategy.t)) s :
  ranges kvs (bucket_stras_map t2s bucket) → s ∈ mjoin kvs.*2 ↔ effective t2s bucket s.
Proof.
  intros Hr. rewrite <- bucket_stras_map_effective, list_elem_of_join. split.
  - intros (ss & Hs & ([u ss'] & -> & Hin)%list_elem_of_fmap). cbn in Hs.
    apply (ranges_elem_of _ _ _ _ Hr) in Hin. exists ss'. split; [|done].
    assert (strategy_uuid s = u) as ->; [|done].
    revert ss' Hs Hin. clear. induction bucket as [|tid bucket IH] using rev_ind; intros ss Hs Hl; [done|].
    rewrite bucket_stras_map_snoc in Hl. apply lookup_union_Some_raw in Hl as [Hl|[_ Hl]]; [|by eapply IH].
    rewrite the_tid_stras_lookup in Hl. case_match eqn:E; simplify_eq. rewrite <- E in Hs.
    by apply list_elem_of_filter in Hs as [? _].
  - intros (ss & Hl & Hs). exists ss. split; [done|]. apply list_elem_of_fmap.
    exists (strategy_uuid s, ss). split; [done|]. by apply (ranges_elem_of _ _ _ _ Hr).
Qed.

(** ** The answer for a host *)

(** A strategy is sent with the youngest template of its chain. *)
Definition retarget (allTpls : gmap Z Template.t) (last_tid : Z) (s : Strategy.t) : Strategy.t :=
  match s.(Strategy.Tpl) with
  | Some t => if decide (t.(Template.Id) ≠ last_tid) then set_Tpl (allTpls !! last_tid) s else s
  | None => s
  end.

Definition has_tpl (s : Strategy.t) : Prop := is_Some s.(Strategy.Tpl).

Lemma retarget_Id tpls last s : (retarget tpls last s).(Strategy.Id) = s.(Strategy.Id).
Proof. unfold retarget. by repeat case_match. Qed.

(** What the last loops accumulate: every strategy once, and the set of their ids. *)
Definition answered (acc : list Strategy.t * gset Z) : Prop :=
  NoDup (Strategy.Id <$> acc.1) ∧ ∀ id, id ∈ acc.2 ↔ id ∈ Strategy.Id <$> acc.1.

Lemma answer_strategies tpls last l acc :
  answered acc → Forall has_tpl l →
  ∃ new ids, go_foldl (answer_strategy tpls last) acc l = Ret (acc.1 ++ new, ids) ∧
    answered (acc.1 ++ new, ids) ∧
    (∀ s', s' ∈ new → ∃ s, s ∈ l ∧ s' = retarget tpls last s) ∧
    (∀ s, s ∈ l → s.(Strategy.Id) ∈ Strategy.Id <$> (acc.1 ++ new)).
Proof.
  intros Ha Hl. revert acc Ha. induction Hl as [|s l [t Ht] _ IH]; intros [ss ids] Ha; cbn [fst].
  { exists [], ids. rewrite app_nil_r. split_and!; [done|done|set_solver..]. }
  cbn [go_foldl]. unfold answer_strategy at 2. cbv beta iota zeta. case_decide as Hin.
  - cbn [mbind go_bind]. destruct (IH (ss, ids) Ha) as (new & ids' & E & Ha' & Hnew & Hall). cbn [fst] in *.
    exists new, ids'. split_and!; [done|done|set_solver|].
    intros s' [->|Hs']%elem_of_cons; [|by apply Hall].
    rewrite fmap_app. apply elem_of_app. left. by apply Ha.
  - rewrite Ht. cbn [mbind go_bind deref].
    assert ((if decide (t.(Template.Id) ≠ last) then set_Tpl (tpls !! last) s else s) = retarget tpls last s)
      as -> by (unfold retarget; by rewrite Ht).
    set (v := retarget tpls last s). assert (v.(Strategy.Id) = s.(Strategy.Id)) as Hv by apply retarget_Id.
    destruct (IH (ss ++ [v], {[s.(Strategy.Id)]} ∪ ids)) as (new & ids' & E & Ha' & Hnew & Hall).
    { destruct Ha as [Hnd Hids]. split; cbn [fst snd] in *.
      - rewrite fmap_app. apply NoDup_app. split_and!; [done| |apply NoDup_singleton].
        intros x Hx Hx'%list_elem_of_singleton. subst x. apply Hin, Hids. by rewrite <- Hv.
      - intros id. rewrite fmap_app, elem_of_union, elem_of_app, Hids. cbn. rewrite Hv. set_solver. }
    cbn [fst] in *. rewrite <- app_assoc in *.
    exists ([v] ++ new), ids'. split_and!; [done|done|set_solver|].
    intros s' [->|Hs']%elem_of_cons; [|by apply Hall].
    rewrite <- Hv, !fmap_app. apply elem_of_app. right. apply elem_of_app. left. by left.
Qed.

(** [s] is in force in a bucket and sent as [s']. *)
Definition in_force (tpls : gmap Z Template.t) (t2s : gmap Z (list Strategy.t)) (bucket : list Z)
    (s s' : Strategy.t) : Prop :=
  effective t2s bucket s ∧ ∃ tid, last bucket = Some tid ∧ s' = retarget tpls tid s.

Definition all_have_tpl (t2s : gmap Z (list Strategy.t)) : Prop :=
  ∀ tid s, s ∈ strategies_of t2s tid → has_tpl s.

Lemma effective_has_tpl t2s bucket s : all_have_tpl t2s → effective t2s bucket s → has_tpl s.
Proof. intros Ht (? & ? & ? & _ & Hs & _). by eapply Ht. Qed.

Lemma answer_buckets tpls t2s (visit : visitor) buckets i acc :
  (∀ i m, ranges (visit i m) m) → all_have_tpl t2s → answered acc → [] ∉ buckets →
  ∃ new ids, go_foldl (answer_bucket tpls t2s visit) acc (imap (λ k b, (i + k, b)%nat) buckets)
      = Ret (acc.1 ++ new, ids) ∧
    answered (acc.1 ++ new, ids) ∧
    (∀ s', s' ∈ new → ∃ b s, b ∈ buckets ∧ in_force tpls t2s b s s') ∧
    (∀ b s, b ∈ buckets → effective t2s b s → s.(Strategy.Id) ∈ Strategy.Id <$> (acc.1 ++ new)).
Proof.
  intros Hvis Ht. revert i acc. induction buckets as [|b bs IH]; intros i [ss ids] Ha Hne; cbn [fst].
  { exists [], ids. rewrite app_nil_r. split_and!; [done|done|set_solver..]. }
  cbn [imap go_foldl]. unfold answer_bucket at 2. cbn [fst snd]. rewrite Nat.add_0_r.
  destruct b as [|tid b _] using rev_ind; [set_solver|].
  assert (at_index (b ++ [tid]) (Z.of_nat (length (b ++ [tid])) - 1) = Ret tid) as ->.
  { apply at_index_Ret. rewrite length_app. cbn [length]. split; [lia|].
    replace (Z.to_nat (Z.of_nat (length b + 1) - 1)) with (length b) by lia. by apply list_lookup_middle. }
  cbn [mbind go_bind].
  set (kvs := visit i _). assert (ranges kvs (bucket_stras_map t2s (b ++ [tid]))) as Hr by apply Hvis.
  destruct (answer_strategies tpls tid (mjoin kvs.*2) (ss, ids) Ha) as (new & ids1 & -> & Ha1 & Hnew & Hall).
  { apply Forall_forall. intros s Hs%(visited_effective _ _ _ _ Hr). by eapply effective_has_tpl. }
  cbn [fst] in *.
  destruct (IH (S i) (ss ++ new, ids1) Ha1) as (new2 & ids2 & E & Ha2 & Hnew2 & Hall2); [set_solver|].
  cbn [fst] in *. exists (new ++ new2), ids2. rewrite !app_assoc. split_and!; [|done| |].
  - etransitivity; [|exact E]. cbn [mbind go_bind]. f_equal. apply imap_ext. intros k x _. cbn. f_equal. lia.
  - intros s' [(s & Hs%(visited_effective _ _ _ _ Hr) & ->)%Hnew|(b' & s & Hb & Hf)%Hnew2]%elem_of_app.
    + exists (b ++ [tid]), s. split; [by left|]. split; [done|]. exists tid. by rewrite last_snoc.
    + exists b', s. split; [by right|done].
  - intros b' s [->|Hb]%elem_of_cons Hs; [|by eapply Hall2].
    rewrite fmap_app. apply elem_of_app. left. apply Hall. by apply (visited_effective _ _ _ _ Hr).
Qed.

Lemma Calc_spec visit tpls tids t2s :
  (∀ i m, ranges (visit i m) m) → all_have_tpl t2s →
  ∃ ss, CalcInheritStrategies visit tpls tids t2s = Ret ss ∧
    NoDup (Strategy.Id <$> ss) ∧
    (∀ s', s' ∈ ss → ∃ b s, b ∈ uniq_tpl_buckets (tpl_buckets tpls tids) ∧ in_force tpls t2s b s s') ∧
    (∀ b s, b ∈ uniq_tpl_buckets (tpl_buckets tpls tids) → effective t2s b s →
       s.(Strategy.Id) ∈ Strategy.Id <$> ss).
Proof.
  intros Hvis Ht. unfold CalcInheritStrategies.
  destruct (answer_buckets tpls t2s visit (uniq_tpl_buckets (tpl_buckets tpls tids)) 0 ([], ∅))
    as (new & ids & E & [Hnd _] & Hnew & Hall); [done|done| | |].
  - split; [constructor|]. set_solver.
  - intros (tid & _ & Hc & _)%uniq_incl%elem_of_tpl_buckets. by apply chain_nonempty in Hc.
  - exists new. cbn [fst app] in *. change (imap pair ?l) with (imap (λ k b, (0 + k, b)%nat) l).
    rewrite E. done.
Qed.

(** Walking from a template to its ancestors ends: ten rounds are enough,
and more change nothing.  A chain of fewer than ten templates is answered whole,
the oldest first; anything else, an unknown template, a cycle or a chain of ten
and more, is answered by nothing. *)
Theorem ParentIds_correct tpls tid fuel :
  (10 <= fuel)%nat →
  ParentIds_fuel fuel tpls tid = Some (ParentIds tpls tid) ∧
  (∀ ids, chain tpls tid ids → (length ids < 10)%nat → ParentIds tpls tid = ids) ∧
  ((∀ ids, chain tpls tid ids → (10 <= length ids)%nat) → ParentIds tpls tid = []).
Proof.
  intros Hf. split_and!.
  - destruct (ParentIds_fuel_spec fuel tpls tid Hf) as [(ids & Hc & Hl & ->)|[Hn ->]].
    + by rewrite (ParentIds_chain _ _ _ Hc Hl).
    + unfold ParentIds. destruct (ParentIds_fuel_spec 10 tpls tid) as [(ids & Hc & Hl & _)|[_ ->]]; [lia| |done].
      apply Hn in Hc. lia.
  - apply ParentIds_chain.
  - intros Hn. destruct (ParentIds tpls tid) as [|x l] eqn:E; [done|].
    apply ParentIds_nonempty in E as [Hc Hl]; [|done]. apply Hn in Hc. lia.
Qed.

(** Template 3 inherits from 2, which inherits from 1; template 4 from itself. *)
Definition ex_tpls : gmap Z Template.t :=
  {[1 := Template.mk 1 "base" 0 1 "root"; 2 := Template.mk 2 "web" 1 1 "root";
    3 := Template.mk 3 "shop" 2 1 "root"; 4 := Template.mk 4 "loop" 4 1 "root"]}.

Example ParentIds_correct_witness :
  (10 <= 99)%nat ∧ ParentIds_fuel 99 ex_tpls 3 = Some [1; 2; 3] ∧ ParentIds_fuel 99 ex_tpls 4 = Some [].
Proof.
  split_and!; [lia|..].
  - destruct (ParentIds_correct ex_tpls 3 99) as (-> & _); [lia|]. vm_compute. reflexivity.
  - destruct (ParentIds_correct ex_tpls 4 99) as (-> & _); [lia|]. vm_compute. reflexivity.
Defined.

(** C29. For a host that has each of its templates bound once, the answer is made
of the strategies in force in the chains of the templates that no other template
of the host inherits from: each strategy once, with the youngest template of a
chain it is in force in, and none of them missing. *)
Theorem CalcInheritStrategies_correct visit tpls tids t2s :
  (∀ i m, ranges (visit i m) m) → all_have_tpl t2s → NoDup tids →
  ∃ ss, CalcInheritStrategies visit tpls tids t2s = Ret ss ∧
    NoDup (Strategy.Id <$> ss) ∧
    (∀ s', s' ∈ ss → ∃ tid ids s, youngest tpls tids tid ids ∧ effective t2s ids s ∧ s' = retarget tpls tid s) ∧
    (∀ tid ids s, youngest tpls tids tid ids → effective t2s ids s → s.(Strategy.Id) ∈ Strategy.Id <$> ss).
Proof.
  intros Hvis Ht Hnd. destruct (Calc_spec visit tpls tids t2s Hvis Ht) as (ss & E & Hids & Hs & Hall).
  exists ss. split; [done|]. split; [done|]. split.
  - intros s' (b & s & (tid & Hy)%uniq_kept & He & tid' & Hlast & ->)%Hs; [|done].
    exists tid, b, s. split_and!; [apply Hy..|done|]. f_equal.
    destruct Hy as (_ & Hc & _). destruct (chain_last _ _ _ Hc) as [l ->].
    rewrite last_snoc in Hlast. by simplify_eq.
  - intros tid ids s Hy He. eapply Hall; [|done]. apply uniq_kept; [done|]. by exists tid.
Qed.

(** Host with the templates 3 and 4's sibling 2: only the chain of 3 is kept, and
its own [cpu] strategy overrides that of template 1. *)
Definition ex_stra (id : Z) (metric : string) (tid : Z) : Strategy.t :=
  Strategy.mk id metric ∅ "all(#3)" ">" f64_zero 3 1 "" (ex_tpls !! tid).
Definition ex_t2s : gmap Z (list Strategy.t) :=
  {[1 := [ex_stra 10 "cpu" 1; ex_stra 11 "mem" 1]; 3 := [ex_stra 30 "cpu" 3]]}.

Example CalcInheritStrategies_correct_witness :
  ∃ ss, CalcInheritStrategies (λ _ m, map_to_list m) ex_tpls [2; 3] ex_t2s = Ret ss ∧
    NoDup (Strategy.Id <$> ss) ∧ Strategy.Id <$> ss ≡ₚ [11; 30].
Proof.
  destruct (CalcInheritStrategies_correct (λ _ m, map_to_list m) ex_tpls [2; 3] ex_t2s) as (ss & E & Hnd & _).
  - intros. apply ranges_map_to_list.
  - intros tid s. unfold strategies_of, ex_t2s.
    destruct (decide (tid = 1)) as [->|H1]; [|destruct (decide (tid = 3)) as [->|H3]].
    + rewrite lookup_insert_eq. cbn [default]. unfold id. rewrite !elem_of_cons, elem_of_nil.
      intros [->|[->|[]]]; eexists; vm_compute; reflexivity.
    + rewrite lookup_insert_ne, lookup_singleton_eq by done. cbn [default]. unfold id.
      rewrite elem_of_cons, elem_of_nil. intros [->|[]]; eexists; vm_compute; reflexivity.
    + rewrite lookup_insert_ne, lookup_singleton_ne by congruence. by intros ?%not_elem_of_nil.
  - repeat constructor; set_solver.
  - exists ss. split_and!; [done..|].
    assert (fmap (M := go) (fmap Strategy.Id) (CalcInheritStrategies (λ _ m, map_to_list m) ex_tpls [2; 3] ex_t2s)
      = Ret [11; 30] ∨ fmap (M := go) (fmap Strategy.Id) (CalcInheritStrategies (λ _ m, map_to_list m) ex_tpls [2; 3] ex_t2s)
      = Ret [30; 11]) as H by (first [left; vm_compute; reflexivity|right; vm_compute; reflexivity]).
    rewrite E in H. cbn [fmap go_fmap] in H.
    destruct H as [[= ->]|[= ->]]; [reflexivity|apply Permutation_swap].
Defined.

(** When a template is bound twice (the host is in two groups that use it), the
comparison of the buckets stops at the equal one, and the chain is kept although
a younger template inherits from it: the strategy [cpu] of template 1 is answered
beside the one of template 3 that overrides it. *)
Example duplicate_binding_keeps_parent :
  fmap (M := go) (fmap Strategy.Id) (CalcInheritStrategies (λ _ m, map_to_list m) ex_tpls [1; 1; 3] ex_t2s)
    = Ret [10; 11; 30] ∨
  fmap (M := go) (fmap Strategy.Id) (CalcInheritStrategies (λ _ m, map_to_list m) ex_tpls [1; 1; 3] ex_t2s)
    = Ret [11; 10; 30].
Proof. first [left; vm_compute; reflexivity|right; vm_compute; reflexivity]. Qed.
