(* ===== verification/HbsSafety.v ===== *)
(** * The heartbeat server as a whole: its reachable caches, and what the judges
get from them

The cache is a state machine whose steps are the reloads of the tables, the
reports of the agents and the daily cleaning.  Its invariant is what makes
[GetStrategies] answer without a panic, and the answer is followed into the
strategies of the judge. *)

From stdpp Require Import functions.
From S2P Require Import Prelude GoFloat GoString Hash Tags Model JudgeStore JudgeEngine JudgeSafety Hbs HbsInherit.
From Stdlib Require Import Ascii.
From stdpp Require Import options.

(** ** The invariant *)

(** Every table is keyed by what its entries say of themselves, and every
strategy has a template. *)
Record cache_ok (c : cache) : Prop := CacheOk {
  ok_TemplateCache : ∀ i t, c.(TemplateCache) !! i = Some t → t.(Template.Id) = i;
  ok_Strategies : ∀ i s, c.(Strategies) !! i = Some s → s.(Strategy.Id) = i ∧ has_tpl s;
  ok_Agents : ∀ h a, c.(Agents) !! h = Some a →
    a.(AgentUpdateInfo.ReportRequest).(AgentReportRequest.Hostname) = h }.

Definition empty_cache : cache := Cache ∅ ∅ ∅ ∅ ∅ ∅ ∅ [] ∅ ∅ [].

Section hbs.
Context (Hosts : string).

Inductive step : cache → cache → Prop :=
| step_Init DB now clock c c' : Init DB now clock c = Ret c' → step c c'
| step_ReportStatus now args c : step c (ReportStatus Hosts now args c).2
| step_deleteStaleAgents now keys c c' :
    keys ≡ₚ (map_to_list c.(Agents)).*1 → deleteStaleAgents now keys c = Ret c' → step c c'.

Definition reachable : cache → Prop := rtc step empty_cache.
End hbs.

Lemma scan_rows_inv {R S} (P : S → Prop) (f : S → R → S) s rows :
  (∀ s r, P s → P (f s r)) → P s → P (scan_rows f s rows).
Proof.
  intros Hf. unfold scan_rows. revert s. induction rows as [|[r|] rows IH]; intros s Hs; cbn; auto.
Qed.

Lemma reload_inv {A} (P : A → Prop) old r : P old → (∀ m, r = Ok m → P m) → P (reload old r).
Proof. destruct r; cbn; auto. Qed.

Lemma QueryTemplates_keyed DB m :
  QueryTemplates DB = Ok m → ∀ i t, m !! i = Some t → t.(Template.Id) = i.
Proof.
  intros (rows & _ & [= <-])%result_bind_Ok. apply scan_rows_inv; [|done].
  intros m t Hm i t' [[<- <-]|[_ ?]]%lookup_insert_Some; eauto.
Qed.

Lemma QueryStrategies_ok DB clock tpls m :
  QueryStrategies DB clock tpls = Ok m → ∀ i s, m !! i = Some s → s.(Strategy.Id) = i ∧ has_tpl s.
Proof.
  unfold QueryStrategies. case_decide; [done|].
  intros (rows & _ & [= <-])%result_bind_Ok. apply scan_rows_inv; [|done].
  intros m r Hm i s. unfold strategy_of_row.
  destruct (tpls !! sTid r) as [t|]; cbn [mbind option_bind]; [|apply Hm].
  intros [[<- <-]|[_ ?]]%lookup_insert_Some; [|by apply Hm]. split; [done|]. by eexists.
Qed.

(** The cleaning: an agent stays exactly when its entry is recent enough. *)
Lemma delete_stale_loop before keys (m : gmap string AgentUpdateInfo.t) :
  NoDup keys → (∀ k, k ∈ keys → is_Some (m !! k)) →
  (∀ h a, m !! h = Some a → a.(AgentUpdateInfo.ReportRequest).(AgentReportRequest.Hostname) = h) →
  ∃ m', go_foldl (delete_stale before) m keys = Ret m' ∧
    ∀ h, m' !! h = if decide (h ∈ keys)
      then a ← m !! h; if a.(AgentUpdateInfo.LastUpdate) <? before then None else Some a
      else m !! h.
Proof.
  intros Hnd. revert m. induction Hnd as [|k keys Hk _ IH]; intros m Hin Hok.
  { exists m. split; [done|]. intros h. by rewrite decide_False by apply not_elem_of_nil. }
  destruct (Hin k) as [a Ha]; [left|]. cbn [go_foldl]. unfold delete_stale at 2. rewrite Ha.
  cbn [mbind go_bind deref]. rewrite (Hok _ _ Ha).
  set (m1 := if AgentUpdateInfo.LastUpdate a <? before then delete k m else m).
  assert (∀ h, h ≠ k → m1 !! h = m !! h) as Hother.
  { intros h Hh. unfold m1. case_match; [by rewrite lookup_delete_ne|done]. }
  destruct (IH m1) as (m' & -> & Hm').
  { intros h Hh. rewrite Hother by congruence. apply Hin. by right. }
  { intros h a'. unfold m1. case_match; [rewrite lookup_delete_Some; naive_solver|apply Hok]. }
  exists m'. split; [done|]. intros h. rewrite Hm'.
  destruct (decide (h = k)) as [->|Hne].
  - rewrite decide_False by done. rewrite decide_True by left. rewrite Ha. cbn.
    unfold m1. case_match; [by rewrite lookup_delete_eq|done].
  - rewrite Hother by done. apply decide_ext. set_solver.
Qed.

Lemma deleteStaleAgents_spec now keys c :
  cache_ok c → keys ≡ₚ (map_to_list c.(Agents)).*1 →
  ∃ m, deleteStaleAgents now keys c = Ret (with_Agents m c) ∧
    ∀ h, m !! h = a ← c.(Agents) !! h;
      if a.(AgentUpdateInfo.LastUpdate) <? now -₆₄ 3600 * 24 then None else Some a.
Proof.
  intros Hok Hk. assert (∀ h, h ∈ keys ↔ is_Some (c.(Agents) !! h)) as Hin.
  { intros h. rewrite Hk, list_elem_of_fmap. split.
    - intros ([h' a] & -> & Ha%elem_of_map_to_list). by exists a.
    - intros [a Ha]. exists (h, a). by rewrite elem_of_map_to_list. }
  destruct (delete_stale_loop (now -₆₄ 3600 * 24) keys c.(Agents)) as (m & E & Hm).
  - rewrite Hk. apply NoDup_fst_map_to_list.
  - intros k. by apply Hin.
  - apply Hok.
  - exists m. unfold deleteStaleAgents. rewrite E. split; [done|]. intros h. rewrite Hm.
    case_decide as Hd; [done|]. destruct (_ !! h) eqn:Eh; [|done]. destruct Hd. apply Hin. by eexists.
Qed.

Lemma cache_step_ok Hosts c c' : step Hosts c c' → cache_ok c → cache_ok c'.
Proof.
  destruct 1 as [DB now clock c c' E|now args c|now keys c c' Hk E]; intros Hok.
  - unfold Init in E. go_inv E. simplify_eq. destruct Hok as [H1 H2 H3]. split; cbn.
    + apply reload_inv; [done|]. by apply QueryTemplates_keyed.
    + apply reload_inv; [done|]. by apply QueryStrategies_ok.
    + done.
  - unfold ReportStatus, Put. repeat case_match; [done| |done]. destruct Hok as [H1 H2 H3]. split; cbn; [done..|].
    intros h a [[<- <-]|[_ ?]]%lookup_insert_Some; [done|by apply H3].
  - destruct (deleteStaleAgents_spec now keys c Hok Hk) as (m & E' & Hm). rewrite E in E'. simplify_eq.
    destruct Hok as [H1 H2 H3]. split; cbn; [done..|]. intros h a. rewrite Hm.
    intros (a' & Ha & Hif)%bind_Some. case_match; simplify_eq. by apply H3.
Qed.

Lemma cache_reachable_ok Hosts c : reachable Hosts c → cache_ok c.
Proof.
  intros H. assert (cache_ok empty_cache) as H0 by by split.
  induction H as [|c1 c2 c3 Hs _ IH]; [done|]. apply IH. by eapply cache_step_ok.
Qed.

(** ** The strategies of the hosts *)

Lemma Tpl2Strategies_elem kvs tid s :
  s ∈ strategies_of (Tpl2Strategies kvs) tid ↔
  s ∈ kvs.*2 ∧ ∃ t, s.(Strategy.Tpl) = Some t ∧ t.(Template.Id) = tid.
Proof.
  unfold Tpl2Strategies, strategies_of.
  induction kvs as [|[i s'] kvs IH] using rev_ind.
  { cbn. rewrite lookup_empty. cbn. rewrite elem_of_nil. tauto. }
  rewrite foldl_app, fmap_app, elem_of_app. cbn [foldl snd fmap list_fmap].
  set (m := foldl _ _ _) in *. destruct (Strategy.Tpl s') as [t|] eqn:Et.
  - rewrite group_append_lookup. case_decide as Hd; cbn [default].
    + change (id ?l) with l. rewrite elem_of_app, IH, list_elem_of_singleton. subst tid. split.
      * intros [[? ?]| ->]; [tauto|]. split; [by right|]. by eexists.
      * intros [[?| ->] ?]; [tauto|by right].
    + rewrite IH. split; [tauto|]. intros [[?| ->%list_elem_of_singleton] (t' & Ht & <-)]; [eauto|]. simplify_eq.
  - rewrite IH. split; [tauto|]. intros [[?| ->%list_elem_of_singleton] (t' & Ht & <-)]; [eauto|]. simplify_eq.
Qed.

Lemma Tpl2Strategies_has_tpl kvs : all_have_tpl (Tpl2Strategies kvs).
Proof. intros tid s [_ (t & Ht & _)]%Tpl2Strategies_elem. by eexists. Qed.

Lemma effective_elem kvs ids s : effective (Tpl2Strategies kvs) ids s → s ∈ kvs.*2.
Proof. by intros (? & tid & ? & _ & [? _]%Tpl2Strategies_elem & _). Qed.

Lemma retarget_Metric tpls last s : (retarget tpls last s).(Strategy.Metric) = s.(Strategy.Metric).
Proof. unfold retarget. by repeat case_match. Qed.

(** The template put into a strategy exists. *)
Lemma retarget_has_tpl tpls tid s : is_Some (tpls !! tid) → has_tpl s → has_tpl (retarget tpls tid s).
Proof. unfold retarget, has_tpl. intros ? [t Ht]. rewrite Ht. case_decide; cbn; [done|by rewrite Ht]. Qed.

(** The templates whose chain is answered, without the assumption that each is bound once. *)
Lemma Calc_sound visit tpls tids kvs :
  (∀ i m, ranges (visit i m) m) →
  ∃ ss, CalcInheritStrategies visit tpls tids (Tpl2Strategies kvs) = Ret ss ∧
    (∀ s', s' ∈ ss → has_tpl s' ∧ ∃ tid ids s, tid ∈ tids ∧ chain tpls tid ids ∧
       effective (Tpl2Strategies kvs) ids s ∧ s' = retarget tpls tid s) ∧
    (NoDup tids → ∀ tid ids s, youngest tpls tids tid ids → effective (Tpl2Strategies kvs) ids s →
       s.(Strategy.Id) ∈ Strategy.Id <$> ss).
Proof.
  intros Hvis. destruct (Calc_spec visit tpls tids (Tpl2Strategies kvs) Hvis) as (ss & E & _ & Hs & Hall);
    [apply Tpl2Strategies_has_tpl|].
  exists ss. split_and!; [done| |].
  - intros s' (b & s & (tid & Hin & Hc & _)%uniq_incl%elem_of_tpl_buckets & He & tid' & Hlast & ->)%Hs.
    destruct (chain_last _ _ _ Hc) as [l El]. rewrite El, last_snoc in Hlast. simplify_eq. split.
    + apply retarget_has_tpl; [by apply chain_known in Hc as [_ ?]|].
      by eapply effective_has_tpl; [apply Tpl2Strategies_has_tpl|].
    + by eexists _, _, s.
  - intros Hnd tid ids s Hy He. eapply Hall; [|done]. apply uniq_kept; [done|]. by exists tid.
Qed.

Lemma hosts_loop visit hosts tpls kvs hids acc :
  (∀ h i m, ranges (visit h i m) m) →
  ∃ hs, go_foldl (host_strategy visit hosts tpls (Tpl2Strategies kvs)) acc hids = Ret (acc ++ hs) ∧
    ∀ h, h ∈ hs ↔ ∃ hid tids host, (hid, tids) ∈ hids ∧ hosts !! hid = Some host ∧
      h.(HostStrategy.Hostname) = host.(Host.Name) ∧ h.(HostStrategy.Strategies) ≠ [] ∧
      CalcInheritStrategies (visit hid) tpls tids (Tpl2Strategies kvs) = Ret h.(HostStrategy.Strategies).
Proof.
  intros Hvis. revert acc. induction hids as [|[hid tids] hids IH]; intros acc.
  { exists []. rewrite app_nil_r. split; [done|]. intros h. split; [by intros ?%not_elem_of_nil|].
    by intros (? & ? & ? & ?%not_elem_of_nil & _). }
  cbn [go_foldl]. unfold host_strategy at 2. cbn [fst snd].
  destruct (hosts !! hid) as [host|] eqn:Eh; cbn [mbind go_bind].
  2:{ destruct (IH acc) as (hs & -> & Hhs). exists hs. split; [done|]. intros h. rewrite Hhs. split.
      - intros (hid' & tids' & host & Hin & Hr). exists hid', tids', host. split; [by right|done].
      - intros (hid' & tids' & host & [[= -> ->]|Hin]%elem_of_cons & Hh & Hr); [congruence|].
        by exists hid', tids', host. }
  destruct (Calc_sound (visit hid) tpls tids kvs (Hvis hid)) as (ss & Ec & _). rewrite Ec. cbn [mbind go_bind].
  case_decide as Hlen; cbn [mbind go_bind].
  - destruct (IH acc) as (hs & -> & Hhs). exists hs. split; [done|]. intros h. rewrite Hhs. split.
    + intros (hid' & tids' & host' & Hin & Hr). exists hid', tids', host'. split; [by right|done].
    + intros (hid' & tids' & host' & [[= -> ->]|Hin]%elem_of_cons & Hh & Hn & Hne & Hr).
      * rewrite Ec in Hr. simplify_eq. destruct (HostStrategy.Strategies h); [done|cbn in Hlen; lia].
      * by exists hid', tids', host'.
  - destruct (IH (acc ++ [HostStrategy.mk host.(Host.Name) ss])) as (hs & -> & Hhs).
    exists (HostStrategy.mk host.(Host.Name) ss :: hs). rewrite <- app_assoc. split; [done|].
    intros h. rewrite elem_of_cons, Hhs. split.
    + intros [->|(hid' & tids' & host' & Hin & Hr)].
      * exists hid, tids, host. cbn. split_and!; [by left|done|done| |done]. by intros ->.
      * exists hid', tids', host'. split; [by right|done].
    + intros (hid' & tids' & host' & [[= -> ->]|Hin]%elem_of_cons & Hh & Hn & Hne & Hr).
      * left. rewrite Ec in Hr. destruct h; cbn in *. simplify_eq. congruence.
      * right. by exists hid', tids', host'.
Qed.

Lemma Calc_nil visit tpls tids kvs :
  (∀ i m, ranges (visit i m) m) → (∀ tid ids s, ¬ (chain tpls tid ids ∧ effective (Tpl2Strategies kvs) ids s)) →
  CalcInheritStrategies visit tpls tids (Tpl2Strategies kvs) = Ret [].
Proof.
  intros Hvis Hno. destruct (Calc_sound visit tpls tids kvs Hvis) as ([|s ss] & -> & Hs & _); [done|].
  destruct (Hs s) as (_ & tid & ids & s' & _ & Hc & He & _); [left|]. by destruct (Hno tid ids s').
Qed.

(** What [GetStrategies] answers: an entry per monitored host with strategies. *)
Lemma GetStrategies_spec visit kvs hids c :
  (∀ h i m, ranges (visit h i m) m) → ranges kvs c.(Strategies) → ranges hids c.(HostTemplateIds) →
  ∃ hs, GetStrategies visit kvs hids c = Ret hs ∧
    ∀ h, h ∈ hs ↔ ∃ hid tids host, c.(HostTemplateIds) !! hid = Some tids ∧ c.(MonitoredHosts) !! hid = Some host ∧
      h.(HostStrategy.Hostname) = host.(Host.Name) ∧ h.(HostStrategy.Strategies) ≠ [] ∧
      CalcInheritStrategies (visit hid) c.(TemplateCache) tids (Tpl2Strategies kvs) = Ret h.(HostStrategy.Strategies).
Proof.
  intros Hvis Hkvs Hhids. unfold GetStrategies.
  assert (∀ P : HostStrategy.t → Prop, (∀ h, ¬ P h) → ∃ hs : list HostStrategy.t, Ret (@nil HostStrategy.t) = Ret hs ∧ ∀ h, h ∈ hs ↔ P h)
    as Hnil.
  { intros P HP. exists []. split; [done|]. intros h. split; [by intros ?%not_elem_of_nil|]. by intros ?%HP. }
  case_decide as H1; [apply map_size_empty_inv in H1; apply Hnil; intros h (? & ? & ? & Hx & _); by rewrite H1 in Hx|].
  case_decide as H2; [apply map_size_empty_inv in H2; apply Hnil; intros h (? & ? & ? & _ & Hx & _); by rewrite H2 in Hx|].
  case_decide as H3.
  { apply map_size_empty_inv in H3. apply Hnil. intros h (hid & ? & ? & _ & _ & _ & Hne & Hx).
    rewrite Calc_nil in Hx; [by simplify_eq|apply Hvis|]. rewrite H3. by intros ? ? ? [[_ [? ?]]%chain_known _]. }
  case_decide as H4.
  { apply map_size_empty_inv in H4. apply Hnil. intros h (hid & ? & ? & _ & _ & _ & Hne & Hx).
    rewrite Calc_nil in Hx; [by simplify_eq|apply Hvis|]. intros ? ? s [_ He%effective_elem].
    apply list_elem_of_fmap in He as ([i s'] & _ & Hin%(ranges_elem_of _ _ _ _ Hkvs)). by rewrite H4 in Hin. }
  destruct (hosts_loop visit c.(MonitoredHosts) c.(TemplateCache) kvs hids [] Hvis) as (hs & -> & Hhs).
  exists hs. split; [done|]. intros h. rewrite Hhs. by setoid_rewrite (ranges_elem_of _ _ _ _ Hhids).
Qed.

(** ** From the database to the judge *)

Lemma strategies_for_elem hss it s :
  s ∈ strategies_for hss it ↔ ∃ h, h ∈ hss ∧ h.(HostStrategy.Hostname) = it.(JudgeItem.Endpoint) ∧
    s ∈ h.(HostStrategy.Strategies) ∧ s.(Strategy.Metric) = it.(JudgeItem.Metric).
Proof.
  unfold strategies_for. rewrite list_elem_of_bind. split.
  - intros (h & Hs & Hh). exists h. case_decide; [|by apply not_elem_of_nil in Hs].
    apply list_elem_of_filter in Hs as [??]. done.
  - intros (h & Hh & Hn & Hs & Hm). exists h. split; [|done]. rewrite decide_True by done.
    by apply list_elem_of_filter.
Qed.

Lemma Id_inj c kvs s1 s2 :
  cache_ok c → ranges kvs c.(Strategies) → s1 ∈ kvs.*2 → s2 ∈ kvs.*2 →
  s1.(Strategy.Id) = s2.(Strategy.Id) → s1 = s2.
Proof.
  intros Hok Hr ([i1 x1] & -> & H1%(ranges_elem_of _ _ _ _ Hr))%list_elem_of_fmap
    ([i2 x2] & -> & H2%(ranges_elem_of _ _ _ _ Hr))%list_elem_of_fmap E.
  apply (ok_Strategies _ Hok) in H1 as H1'. apply (ok_Strategies _ Hok) in H2 as H2'.
  destruct H1' as [E1 _], H2' as [E2 _]. cbn in *. congruence.
Qed.

(** What the judge holds for the endpoint of an item, in terms of the answers. *)
Lemma judged_lookup visit kvs hids c hs st0 it :
  (∀ h i m, ranges (visit h i m) m) → ranges kvs c.(Strategies) → ranges hids c.(HostTemplateIds) →
  map_Forall (λ _ h, lacks "/" h.(Host.Name)) c.(MonitoredHosts) → lacks "/" it.(JudgeItem.Endpoint) →
  GetStrategies visit kvs hids c = Ret hs →
  default [] ((syncStrategies (Ok hs) st0).(StrategyMap) !!
    (it.(JudgeItem.Endpoint) +:+ "/" +:+ it.(JudgeItem.Metric))) = strategies_for hs it.
Proof.
  intros Hvis Hkvs Hhids Hnames Hep E.
  destruct (GetStrategies_spec visit kvs hids c Hvis Hkvs Hhids) as (hs' & E' & Hhs). rewrite E in E'. simplify_eq.
  cbn [syncStrategies]. rewrite rebuildStrategyMap_lookup; [done|apply Forall_forall|done].
  intros h (hid & tids & host & _ & Hh & -> & _)%Hhs. by apply (Hnames hid).
Qed.

(** A strategy in force on the youngest template of a host is judged. *)
Lemma in_force_judged visit kvs hids c hs it hid host tids tid ids s :
  cache_ok c →
  (∀ h i m, ranges (visit h i m) m) → ranges kvs c.(Strategies) → ranges hids c.(HostTemplateIds) →
  GetStrategies visit kvs hids c = Ret hs →
  c.(HostTemplateIds) !! hid = Some tids → c.(MonitoredHosts) !! hid = Some host →
  host.(Host.Name) = it.(JudgeItem.Endpoint) → NoDup tids → youngest c.(TemplateCache) tids tid ids →
  effective (Tpl2Strategies kvs) ids s → s.(Strategy.Metric) = it.(JudgeItem.Metric) →
  ∃ tid', retarget c.(TemplateCache) tid' s ∈ strategies_for hs it.
Proof.
  intros Hok Hvis Hkvs Hhids E Ht Hh Hn Hnd Hy He Hm.
  destruct (GetStrategies_spec visit kvs hids c Hvis Hkvs Hhids) as (hs' & E' & Hhs). rewrite E in E'. simplify_eq.
  destruct (Calc_sound (visit hid) c.(TemplateCache) tids kvs (Hvis hid)) as (ss & Ec & Hs & Hall).
  specialize (Hall Hnd tid ids s Hy He). apply list_elem_of_fmap in Hall as (s' & Eid & Hs').
  destruct (Hs s' Hs') as (_ & tid' & ids' & s2 & _ & _ & He2 & ->). rewrite retarget_Id in Eid.
  assert (s2 = s) as ->.
  { eapply Id_inj; [done|done|by eapply effective_elem..|done]. }
  exists tid'. apply strategies_for_elem. exists (HostStrategy.mk host.(Host.Name) ss). cbn.
  split_and!; [|done|done|by rewrite retarget_Metric]. apply Hhs. exists hid, tids, host. cbn.
  split_and!; [done..| |done]. intros Ess. rewrite Ess in Hs'. by apply not_elem_of_nil in Hs'.
Qed.


(** A database with one template, one strategy and one host. *)
Definition ex_DB : database := Database
  (λ _, Ok [Some (1, 5)]) (λ _, Ok [Some (5, "web"); None]) (λ _, Ok [Some (1, "sys")]) (λ _, Ok [Some (1, 1)])
  (λ _, Ok [Some (Template.mk 1 "base" 0 1 "root")]) (λ _, Ok [Some (1, 5)])
  (λ _, Ok [Some (StrategyRow_ 10 "cpu" "core=0" "all(#3)" ">" f64_zero 3 1 "" 1)])
  (λ _, Ok []) (λ _, Ok []).
Definition ex_cache : cache :=
  match Init ex_DB 1500000000 "12:00" empty_cache with Ret c => c | Panic _ => empty_cache end.
Definition ex_item : JudgeItem.t := JudgeItem.mk "web" "cpu" f64_zero 60 "GAUGE" {["core" := "0"]}.

Lemma ex_cache_reachable : reachable "" ex_cache.
Proof. apply rtc_once. apply (step_Init "" ex_DB 1500000000 "12:00"). vm_compute. reflexivity. Qed.


(** ** The agents *)

(** [deleteStaleAgents] forgets exactly the agents whose entry is older than
a day; but a report that repeats what is known does not renew the entry, so an
agent that reports without a change is forgotten after a day although it is
alive, and nothing was written to the database for its report. *)
Theorem unchanged_agent_forgotten Hosts c now keys args old :
  reachable Hosts c → keys ≡ₚ (map_to_list c.(Agents)).*1 →
  args.(AgentReportRequest.Hostname) ≠ "" →
  c.(Agents) !! args.(AgentReportRequest.Hostname) = Some old →
  old.(AgentUpdateInfo.ReportRequest) = args →
  old.(AgentUpdateInfo.LastUpdate) < now -₆₄ 3600 * 24 →
  ReportStatus Hosts now args c = (0, c) ∧
  ∃ m, deleteStaleAgents now keys c = Ret (with_Agents m c) ∧
    m !! args.(AgentReportRequest.Hostname) = None ∧
    ∀ h a, m !! h = Some a ↔ c.(Agents) !! h = Some a ∧ now -₆₄ 3600 * 24 <= a.(AgentUpdateInfo.LastUpdate).
Proof.
  intros Hok%cache_reachable_ok Hk Hne Hold Hreq Hlast. split.
  - unfold ReportStatus, Put, agent_changed. rewrite decide_False by done. rewrite Hold, Hreq.
    by rewrite bool_decide_eq_false_2 by naive_solver.
  - destruct (deleteStaleAgents_spec now keys c Hok Hk) as (m & E & Hm). exists m. split_and!; [done|..].
    + rewrite Hm, Hold. cbn [mbind option_bind]. by destruct (Z.ltb_spec old.(AgentUpdateInfo.LastUpdate) (now -₆₄ 3600 * 24)); [|lia].
    + intros h a. rewrite Hm, bind_Some. split.
      * intros (a' & Ha & Hif). case_match eqn:El; simplify_eq. by apply Z.ltb_ge in El.
      * intros [Ha Hle]. exists a. split; [done|]. by destruct (Z.ltb_spec a.(AgentUpdateInfo.LastUpdate) (now -₆₄ 3600 * 24)); [lia|].
Qed.

Definition ex_report : AgentReportRequest.t := AgentReportRequest.mk "web" "10.0.0.1" "5.1.0" "v1".
Definition ex_reported : cache := (ReportStatus "" 1500000000 ex_report empty_cache).2.

Example unchanged_agent_forgotten_witness :
  (ReportStatus "" 1500086401 ex_report ex_reported).2 = ex_reported ∧
  ∃ m, deleteStaleAgents 1500086401 ["web"] ex_reported = Ret (with_Agents m ex_reported) ∧ m !! "web" = None.
Proof.
  destruct (unchanged_agent_forgotten "" ex_reported 1500086401 ["web"] ex_report
    (AgentUpdateInfo.mk 1500000000 ex_report)) as (E & m & Em & Hm & _).
  - apply rtc_once. apply (step_ReportStatus "" 1500000000 ex_report).
  - vm_compute. reflexivity.
  - discriminate.
  - vm_compute. reflexivity.
  - reflexivity.
  - vm_compute. reflexivity.
  - split; [by rewrite E|]. exists m. split; [exact Em|exact Hm].
Defined.

(** ** The expressions *)

Lemma parseExpression_panics exp : lacks ")" exp → parseExpression exp = Panic SliceBounds.
Proof.
  intros Hl%index_char_lacks. unfold parseExpression. rewrite Hl.
  assert (-1 <= index_char "(" exp) as Hp.
  { clear Hl. induction exp as [|a exp IH]; cbn; [lia|]. repeat case_match; lia. }
  by rewrite go_slice_panics by lia.
Qed.

(** One expression without a closing parenthesis in the database takes the
whole server down: the reload of the caches panics, whatever the rest of the
database answers. *)
Theorem Init_panics_on_expression DB now clock c rows i e :
  (∀ sql, DB.(expression) sql = Ok rows) → rows !! i = Some (Some e) →
  (∀ j e', (j < i)%nat → rows !! j = Some (Some e') → returns (parseExpression e'.(eExp))) →
  lacks ")" e.(eExp) →
  Init DB now clock c = Panic SliceBounds.
Proof.
  intros HDB Hi Hbefore He. unfold Init, QueryExpressions. rewrite HDB.
  assert (∀ ret, go_foldl expression_row ret rows = Panic SliceBounds) as ->; [|done]. clear HDB.
  revert i Hi Hbefore. induction rows as [|row rows IH]; intros i Hi Hbefore ret; [done|].
  destruct i as [|i]; cbn in Hi.
  - simplify_eq. cbn [go_foldl]. unfold expression_row at 2. by rewrite parseExpression_panics.
  - cbn [go_foldl]. assert (∃ ret', expression_row ret row = Ret ret') as [ret' ->].
    { destruct row as [e'|]; [|by eexists]. unfold expression_row.
      destruct (Hbefore 0%nat e') as [p ->]; [lia|done|]. by eexists. }
    cbn [mbind go_bind]. apply (IH i Hi). intros j e' Hj Hl. apply (Hbefore (S j) e'); [lia|done].
Qed.

Definition ex_bad_DB : database := Database
  (λ _, Ok []) (λ _, Ok []) (λ _, Ok []) (λ _, Ok []) (λ _, Ok []) (λ _, Ok []) (λ _, Ok []) (λ _, Ok [])
  (λ _, Ok [Some (ExpressionRow_ 1 "each(metric=qps srv=a)" "all(#3)" ">" f64_zero 3 1 "" 1);
            Some (ExpressionRow_ 2 "each(metric=qps srv=b" "all(#3)" ">" f64_zero 3 1 "" 1)]).

Example Init_panics_on_expression_witness :
  Init ex_bad_DB 1500000000 "12:00" empty_cache = Panic SliceBounds.
Proof.
  apply (Init_panics_on_expression _ _ _ _ [Some (ExpressionRow_ 1 "each(metric=qps srv=a)" "all(#3)" ">" f64_zero 3 1 "" 1);
            Some (ExpressionRow_ 2 "each(metric=qps srv=b" "all(#3)" ">" f64_zero 3 1 "" 1)] 1
            (ExpressionRow_ 2 "each(metric=qps srv=b" "all(#3)" ">" f64_zero 3 1 "" 1)).
  - reflexivity.
  - reflexivity.
  - intros [|[|j]] e' Hj He'; [|lia..]. cbn in He'. simplify_eq. eexists. vm_compute. reflexivity.
  - vm_compute. reflexivity.
Defined.

(** ** Plugins and built-in metrics *)

Lemma foldl_union_elem `{Countable A} {B} (f : B → gset A) (l : list B) s x :
  x ∈ foldl (λ s b, f b ∪ s) s l ↔ x ∈ s ∨ ∃ b, b ∈ l ∧ x ∈ f b.
Proof.
  revert s. induction l as [|b l IH]; intros s; cbn [foldl].
  - set_solver.
  - rewrite IH. set_solver.
Qed.

Lemma foldl_table_elem `{Countable A} (m : gmap Z (list A)) gids s x :
  x ∈ foldl (λ s gid, match m !! gid with
                      | Some l => foldl (λ s a, {[a]} ∪ s) s l
                      | None => s end : gset A) s gids ↔
  x ∈ s ∨ ∃ gid l, gid ∈ gids ∧ m !! gid = Some l ∧ x ∈ l.
Proof.
  revert s. induction gids as [|gid gids IH]; intros s; cbn [foldl].
  - set_solver.
  - rewrite IH. destruct (m !! gid) as [l|] eqn:E.
    + rewrite (foldl_union_elem (λ a, {[a]})). split.
      * intros [[?|(b & Hb & ->%elem_of_singleton)]|(g & l' & ? & ? & ?)]; [by left|right..].
        -- exists gid, l. split_and!; [left|done|done].
        -- exists g, l'. split_and!; [by right|done|done].
      * intros [?|(g & l' & [->|?]%elem_of_cons & ? & ?)]; [by left; left|left; right|right; eauto].
        simplify_eq. exists x. set_solver.
    + split; [|intros [?|(g & l' & [->|?]%elem_of_cons & ? & ?)]; [by left|congruence|right; eauto]].
      intros [?|(g & l' & ? & ? & ?)]; [by left|right]. exists g, l'. split_and!; [by right|done|done].
Qed.

(** The plugins of a host are those of its groups: sorted, each once. *)
Lemma GetPlugins_spec hostname c :
  Sorted String.le (GetPlugins hostname c) ∧ NoDup (GetPlugins hostname c) ∧
  ∀ dir, dir ∈ GetPlugins hostname c ↔ ∃ hid gids gid l,
    c.(HostMap) !! hostname = Some hid ∧ c.(HostGroupsMap) !! hid = Some gids ∧ gid ∈ gids ∧
    c.(GroupPlugins) !! gid = Some l ∧ dir ∈ l.
Proof.
  unfold GetPlugins. destruct (HostMap c !! hostname) as [hid|].
  2:{ split_and!; [constructor|constructor|]. intros dir. split; [by intros ?%not_elem_of_nil|naive_solver]. }
  destruct (HostGroupsMap c !! hid) as [gids|] eqn:Eg.
  2:{ split_and!; [constructor|constructor|]. intros dir. split; [by intros ?%not_elem_of_nil|naive_solver]. }
  split_and!.
  - apply sort_strings_Sorted.
  - apply sort_strings_NoDup, NoDup_elements.
  - intros dir. rewrite sort_strings_Permutation, elem_of_elements, foldl_table_elem. set_solver.
Qed.

Lemma sort_metrics_Sorted l : Sorted String.le (BuiltinMetric.String <$> sort_metrics l).
Proof.
  unfold sort_metrics. set (R := λ a b, String.le (BuiltinMetric.String a) (BuiltinMetric.String b)).
  assert (Total R) by (intros a b; unfold R; apply (total String.le)).
  induction (Sorted_merge_sort R l) as [|a l' _ IH H']; constructor; [done|]. destruct H'; by constructor.
Qed.

Lemma sort_metrics_strings l1 l2 :
  l1 ≡ₚ l2 → BuiltinMetric.String <$> sort_metrics l1 = BuiltinMetric.String <$> sort_metrics l2.
Proof.
  intros Hp. apply (Sorted_unique String.le); [apply sort_metrics_Sorted..|].
  unfold sort_metrics. by rewrite !merge_sort_Permutation, Hp.
Qed.

(** An agent that knows the checksum of its built-in metrics is answered no
metric, whatever the order in which the database lists them, and any other
checksum is answered them all, sorted; a checksum is answered along. *)
Theorem BuiltinMetrics_correct DB ToSlice hostname now c reply metrics checksum :
  hostname ≠ "" → GetBuiltinMetrics DB ToSlice hostname c = Ok metrics → metrics ≠ [] →
  let answer := BuiltinMetrics DB ToSlice hostname checksum now c reply in
  answer.(bChecksum) = DigestBuiltinMetrics (sort_metrics metrics) ∧
  (∀ known, known ≡ₚ metrics → checksum = DigestBuiltinMetrics (sort_metrics known) → answer.(bMetrics) = []) ∧
  (checksum ≠ answer.(bChecksum) → answer.(bMetrics) ≡ₚ metrics ∧
     Sorted String.le (BuiltinMetric.String <$> answer.(bMetrics))).
Proof.
  intros Hh Em Hne answer. unfold answer, BuiltinMetrics.
  rewrite decide_False by done. rewrite Em. rewrite (decide_True (P := (0 < length metrics)%nat))
    by (destruct metrics; [done|cbn; lia]). cbn [bChecksum bMetrics]. split_and!; [done|..].
  - intros known Hp ->. rewrite decide_True; [done|]. unfold DigestBuiltinMetrics. by rewrite (sort_metrics_strings _ _ Hp).
  - intros Hd. rewrite decide_False by done. split; [apply merge_sort_Permutation|apply sort_metrics_Sorted].
Qed.

Definition ex_builtin_DB : database := Database
  (λ _, Ok [Some (1, 5)]) (λ _, Ok [Some (5, "web")]) (λ _, Ok []) (λ _, Ok [Some (1, 1)])
  (λ _, Ok [Some (Template.mk 1 "base" 0 1 "root")]) (λ _, Ok [Some (1, 5)]) (λ _, Ok [])
  (λ _, Ok [Some ("proc.num", "name=sshd"); Some ("net.port.listen", "port=22"); Some ("proc.num", "name=sshd")])
  (λ _, Ok []).

Example BuiltinMetrics_correct_witness :
  bMetrics (BuiltinMetrics ex_builtin_DB (λ _, elements) "web" "" 60 ex_cache (BuiltinMetricResponse_ [] "" 0))
  ≡ₚ [BuiltinMetric.mk "proc.num" "name=sshd"; BuiltinMetric.mk "net.port.listen" "port=22"].
Proof.
  destruct (BuiltinMetrics_correct ex_builtin_DB (λ _, elements) "web" 60 ex_cache (BuiltinMetricResponse_ [] "" 0)
    [BuiltinMetric.mk "proc.num" "name=sshd"; BuiltinMetric.mk "net.port.listen" "port=22"] "") as (Hc & _ & H).
  - discriminate.
  - vm_compute. reflexivity.
  - discriminate.
  - apply H. rewrite Hc. vm_compute. discriminate.
Defined.
