(* ===== verification/Nodata.v ===== *)
(** * Absent data (modules/nodata)

Nodata watches counters that must report: [config] expands the rules of the
database into one [NodataConfig] per counter, [collector] asks the API for the
last point of each, [judge] decides every minute which counters are late and
fills the gap with mock points, and [sender] posts these to transfer. *)

From S2P Require Import Prelude GoFloat GoString Hash Tags Model Containers Hbs.
From Stdlib Require Import Ascii.
From stdpp Require Import options.

Module NodataConfig.
Record t : Set := mk {
  Id : Z; Name : string; ObjType : string; Endpoint : string; Metric : string; Tags : tagmap;
  Type_ : string; Step : Z; Mock : float64 }.
End NodataConfig.

(** ** The rules (config/service) *)

Module MockCfg.
Record t : Set := mk {
  Id : Z; Name : string; Obj : string; ObjType : string; Metric : string; Tags : tagmap;
  Type_ : string; Step : Z; Mock : float64 }.
End MockCfg.

(** A row of the table mockcfg, with its tags as text. *)
Record MockRow : Set := MockRow_ {
  mId : Z; mName : string; mObj : string; mObjType : string; mMetric : string; mTags : string;
  mType : string; mStep : Z; mMock : float64 }.

Definition newline : string := String (ascii_of_nat 10) "".

Definition checkMockCfg (mc : MockCfg.t) : option error :=
  if decide (mc.(MockCfg.Metric) = "") then Some "bad mockcfg, metric empty"
  else if decide (mc.(MockCfg.Type_) ≠ "GAUGE") then Some ("bad mockcfg, type illegal, type=" +:+ mc.(MockCfg.Type_))
  else if mc.(MockCfg.Step) <? 1 then Some ("bad mockcfg, step illegal, step=" +:+ Itoa mc.(MockCfg.Step))
  else None.

Definition isSpuerNodataCfg (A B : NodataConfig.t) : bool :=
  if bool_decide (A.(NodataConfig.ObjType) = "group" ∧ B.(NodataConfig.ObjType) = "host") then false else true.

Definition getEndpointFromHosts (hosts : string) : list string :=
  filter (λ nh, nh ≠ "") (TrimSpace <$> split (ascii_of_nat 10) hosts).

Definition hosts_sql (now : Z) (grpName : string) : string :=
  "SELECT host.id, host.hostname FROM grp_host AS gh "
  +:+ " INNER JOIN host ON host.id=gh.host_id AND (host.maintain_begin > " +:+ Itoa now
  +:+ " OR host.maintain_end < " +:+ Itoa now +:+ ")"
  +:+ " INNER JOIN grp ON grp.id=gh.grp_id AND grp.grp_name='" +:+ grpName +:+ "'".

Section service.
Context (DB_hosts : query (Z * string)) (DB_mockcfg : query MockRow) (now : Z).

(** The hosts of a group; an error of the connection or the query gives none. *)
Definition GetHostsFromGroup (grpName : string) : gmap string Z :=
  match DB_hosts (hosts_sql now grpName) with
  | Err _ => ∅
  | Ok rows => scan_rows (λ hosts r, if bool_decide (r.1 < 0 ∨ r.2 = "") then hosts else <[r.2 := r.1]> hosts) ∅ rows
  end.

(** The names are trimmed to see whether they are empty, and used as they are. *)
Definition group_hosts (hosts : gset string) (grp : string) : gset string :=
  let ngrp := TrimSpace grp in
  if decide (ngrp = "") then hosts
  else hosts ∪ filter (λ hostname, hostname ≠ "") (dom (GetHostsFromGroup grp)).

Definition getEndpointFromGroups (grps : string) : list string :=
  elements (foldl group_hosts ∅ (split (ascii_of_nat 10) grps)).

Definition getEndpoint (objType obj : string) : list string :=
  if decide (objType = "host") then getEndpointFromHosts obj
  else if decide (objType = "group") then getEndpointFromGroups obj
  else if decide (objType = "other") then getEndpointFromHosts obj
  else [].

(** A config for each endpoint; a conflict is decided by [isSpuerNodataCfg]. *)
Definition put_config (t : MockCfg.t) (ret : gmap string NodataConfig.t) (ep : string) : gmap string NodataConfig.t :=
  let uuid := PK ep t.(MockCfg.Metric) t.(MockCfg.Tags) in
  let ncfg := NodataConfig.mk t.(MockCfg.Id) t.(MockCfg.Name) t.(MockCfg.ObjType) ep t.(MockCfg.Metric)
    t.(MockCfg.Tags) t.(MockCfg.Type_) t.(MockCfg.Step) t.(MockCfg.Mock) in
  match ret !! uuid with
  | None => <[uuid := ncfg]> ret
  | Some val => if isSpuerNodataCfg val ncfg then ret else <[uuid := ncfg]> ret
  end.

Definition mock_row (ret : gmap string NodataConfig.t) (r : MockRow) : gmap string NodataConfig.t :=
  let t := MockCfg.mk r.(mId) r.(mName) r.(mObj) r.(mObjType) r.(mMetric) (DictedTagstring r.(mTags))
    r.(mType) r.(mStep) r.(mMock) in
  match checkMockCfg t with
  | Some _ => ret
  | None => foldl (put_config t) ret (getEndpoint t.(MockCfg.ObjType) t.(MockCfg.Obj))
  end.

Definition GetMockCfgFromDB : gmap string NodataConfig.t :=
  match DB_mockcfg "SELECT id,name,obj,obj_type,metric,tags,dstype,step,mock FROM mockcfg" with
  | Err _ => ∅
  | Ok rows => scan_rows mock_row ∅ rows
  end.
End service.

(** [syncNdConfig]; [configs] are visited in some order. *)
Definition put_ndc (nm : gmap string NodataConfig.t) (ndc : NodataConfig.t) : gmap string NodataConfig.t :=
  if decide (ndc.(NodataConfig.Endpoint) = "") then nm
  else <[PK ndc.(NodataConfig.Endpoint) ndc.(NodataConfig.Metric) ndc.(NodataConfig.Tags) := ndc]> nm.
Definition syncNdConfig (configs : list (string * NodataConfig.t)) : gmap string NodataConfig.t :=
  foldl put_ndc ∅ configs.*2.

(** ** The state of the service *)

Module DataItem.
Record t : Set := mk { Ts : Z; Value : float64; FStatus : string; FTs : Z }.
End DataItem.

Module NodataStatus.
Record t : Set := mk { Key : string; Status : string; Cnt : Z; Ts : Z }.
End NodataStatus.

Record state : Type := State {
  NdConfigMap : gmap string NodataConfig.t;
  ItemMap : gmap string (SafeListLimited.t DataItem.t);
  StatusMap : gmap string NodataStatus.t;
  MockMap : gmap string JsonMetaData.t }.

Definition SetNdConfigMap (m : gmap string NodataConfig.t) (st : state) : state :=
  State m st.(ItemMap) st.(StatusMap) st.(MockMap).
Definition with_ItemMap (m : gmap string (SafeListLimited.t DataItem.t)) (st : state) : state :=
  State st.(NdConfigMap) m st.(StatusMap) st.(MockMap).
Definition with_StatusMap (m : gmap string NodataStatus.t) (st : state) : state :=
  State st.(NdConfigMap) st.(ItemMap) m st.(MockMap).
Definition with_MockMap (m : gmap string JsonMetaData.t) (st : state) : state :=
  State st.(NdConfigMap) st.(ItemMap) st.(StatusMap) m.

Definition GetNdConfig (key : string) (st : state) : option NodataConfig.t := st.(NdConfigMap) !! key.

(** ** The collector (collector/*.go) *)

Definition GetFirstItem (key : string) (st : state) : option DataItem.t :=
  l ← st.(ItemMap) !! key; SafeListLimited.Front l.

Definition AddItem (key : string) (val : DataItem.t) (st : state) : state :=
  let l := match st.(ItemMap) !! key with Some l => l | None => SafeListLimited.New 3 end in
  with_ItemMap (<[key := (SafeListLimited.PushFrontViolently val l).2]> st.(ItemMap)) st.

(** A point of the answer of the API: endpoint, counter and value. *)
Definition last_point : Type := option (string * string * option RRDData.t).

Definition store_point (fts : Z) (st : state) (glr : last_point) : state :=
  match glr with
  | Some (endpoint, counter, Some v) =>
      AddItem (PK2 endpoint counter) (DataItem.mk v.(RRDData.Timestamp) v.(RRDData.Value) "OK" fts) st
  | _ => st
  end.

(** The parameters of the query for a batch of keys. *)
Definition last_args (fetchKeys : list string) (st : state) : list (string * string) :=
  omap (λ key, ndcfg ← GetNdConfig key st;
    Some (ndcfg.(NodataConfig.Endpoint), Tags.Counter ndcfg.(NodataConfig.Metric) ndcfg.(NodataConfig.Tags)))
    fetchKeys.

(** [queryLastPoints], the remote call, is an argument; the size is that of the answer. *)
Definition fetchItemsAndStore (queryLastPoints : list (string * string) → result (list last_point))
    (fts : Z) (fetchKeys : list string) (st : state) : Z * option error * state :=
  if decide (length fetchKeys < 1)%nat then (0, None, st)
  else
    let args := last_args fetchKeys st in
    if decide (length args < 1)%nat then (0, None, st)
    else match queryLastPoints args with
      | Err e => (0, Some e, st)
      | Ok resp => (Z.of_nat (length resp), None, foldl (store_point fts) st resp)
      end.

(** The batches of the loop of [collectDataOnce]. *)
Fixpoint batches {A} (fuel : nat) (batch : Z) (keys : list A) : option (list (list A)) :=
  match keys with
  | [] => Some []
  | _ =>
      match fuel with
      | O => None
      | S fuel =>
          let leftLen := Z.of_nat (length keys) in
          let size := if leftLen <? batch then leftLen else batch in
          rest ← batches fuel batch (drop (Z.to_nat size) keys);
          Some (take (Z.to_nat size) keys :: rest)
      end
  end.

Definition collect_batch (Batch : Z) : Z := if (Batch <? 100) || (1000 <? Batch) then 200 else Batch.

(** How many answers [collectDataOnce] waits for. *)
Definition batchCnt (keysLen batch : Z) : Z := Z.quot (keysLen + batch - 1) batch.

(** [collectDataOnce] with its goroutines one after the other; [keys] is the
order of the keys, and [fts] the time of each batch.  It counts the answers it
waits for; [None] is waiting for ever. *)
Definition collectDataOnce (queryLastPoints : list (string * string) → result (list last_point))
    (fts : nat → Z) (Batch : Z) (keys : list string) (st : state) : option (Z * state) :=
  let batch := collect_batch Batch in
  bs ← batches (length keys) batch keys;
  let run acc ib :=
    let '(sizes, st) := acc : list Z * state in
    let '(size, _, st) := fetchItemsAndStore queryLastPoints (fts (ib : nat * list string).1) ib.2 st in
    (sizes ++ [size], st) in
  let '(sizes, st) := foldl run ([], st) (imap pair bs) in
  let n := batchCnt (Z.of_nat (length keys)) batch in
  if n <=? Z.of_nat (length sizes) then Some (foldl Z.add 0 (take (Z.to_nat n) sizes), st) else None.

(** ** The judge (judge/*.go) *)

Definition LastTs (key : string) (st : state) : Z :=
  match st.(StatusMap) !! key with None => 0 | Some v => v.(NodataStatus.Ts) end.

Definition TurnOk (key : string) (ts : Z) (st : state) : state :=
  with_StatusMap (<[key := match st.(StatusMap) !! key with
    | None => NodataStatus.mk key "OK" 0 ts
    | Some ns => NodataStatus.mk ns.(NodataStatus.Key) "OK" 0 ts end]> st.(StatusMap)) st.

Definition TurnNodata (key : string) (ts : Z) (st : state) : state :=
  with_StatusMap (<[key := match st.(StatusMap) !! key with
    | None => NodataStatus.mk key "NODATA" 1 ts
    | Some ns => NodataStatus.mk ns.(NodataStatus.Key) "NODATA" (ns.(NodataStatus.Cnt) +₆₄ 1) ts end]> st.(StatusMap)) st.

Definition GetNodataStatus (key : string) (st : state) : NodataStatus.t :=
  default (NodataStatus.mk "" "" 0 0) (st.(StatusMap) !! key).

(** The mock point lies a whole period or more before the present. *)
Definition genTs (nowTs step : Z) : go Z :=
  let step := if step <? 1 then 60 else step in
  r ← go_rem nowTs step;
  Ret (nowTs -₆₄ r -₆₄ 2 *₆₄ step).

Definition getTimeout (step : Z) : Z := if step <? 60 then 180 else step *₆₄ 3.

(** [0.000001] *)
Definition minfloat64 : float64 := f64_of_decimal false 1 (-6).
Definition f64_opp : float64 → float64 := SpecFloat.SFopp.

Definition fCompare (left right : float64) : Z :=
  let sub := f64_sub left right in
  if f64_lt (f64_opp minfloat64) sub && f64_lt sub minfloat64 then 0
  else if f64_le minfloat64 sub then 1
  else -1.

Definition AddMock (key endpoint metric tags : string) (ts : Z) (dstype : string) (step : Z) (value : float64)
    (st : state) : state :=
  with_MockMap (<[key := JsonMetaData.mk metric endpoint ts step (VFloat64 value) dstype tags]> st.(MockMap)) st.

Definition genMock (ts : Z) (key : string) (ndcfg : NodataConfig.t) (st : state) : state :=
  AddMock key ndcfg.(NodataConfig.Endpoint) ndcfg.(NodataConfig.Metric) (SortedTags ndcfg.(NodataConfig.Tags)) ts
    ndcfg.(NodataConfig.Type_) ndcfg.(NodataConfig.Step) ndcfg.(NodataConfig.Mock) st.

(** A late counter: at most one mock point per period. *)
Definition nodata (now : Z) (key : string) (ndcfg : NodataConfig.t) (st : state) : go state :=
  let step := ndcfg.(NodataConfig.Step) in
  if LastTs key st +₆₄ step <=? now then
    ts ← genTs now step;
    Ret (genMock ts key ndcfg (TurnNodata key now st))
  else Ret st.

Definition judge_key (now : Z) (st : state) (key : string) : go state :=
  match GetNdConfig key st with
  | None => Ret st
  | Some ndcfg =>
      let step := ndcfg.(NodataConfig.Step) in
      match GetFirstItem key st with
      | None => Ret st
      | Some item =>
          let lastTs := now -₆₄ getTimeout step in
          if bool_decide (item.(DataItem.FStatus) ≠ "OK") || (item.(DataItem.FTs) <? lastTs) then Ret st
          else if fCompare ndcfg.(NodataConfig.Mock) item.(DataItem.Value) =? 0 then nodata now key ndcfg st
          else if item.(DataItem.Ts) <? lastTs then nodata now key ndcfg st
          else Ret (TurnOk key now st)
      end
  end.

(** [judge]; [keys] is the order of the keys of the configuration. *)
Definition judge (now : Z) (keys : list string) (st : state) : go state :=
  go_foldl (judge_key now) st keys.

(** ** The sender (sender/sender.go) *)

(** The loop of [sendMock]: the batches it posts, in order, and how many points
were accepted; [post] answers for each batch.  [None] is no end within [fuel]
rounds. *)
Fixpoint send_loop (fuel : nat) (batch : Z) (mocks : list JsonMetaData.t) (i : Z)
    (post : list JsonMetaData.t → option error) (sent : list (list JsonMetaData.t)) (cnt : Z) :
    option (go (list (list JsonMetaData.t) * Z)) :=
  let mockSize := Z.of_nat (length mocks) in
  match fuel with
  | O => None
  | S fuel =>
      if i <? mockSize then
        let leftLen := mockSize - i in
        let sendSize := if leftLen <? batch then leftLen else batch in
        (* mocks[i : i+sendSize] *)
        if bool_decide (0 <= i ∧ i <= i + sendSize ∧ i + sendSize <= mockSize) then
          let fetchMocks := take (Z.to_nat sendSize) (drop (Z.to_nat i) mocks) in
          let size := Z.of_nat (length fetchMocks) in
          let '(cntonce, err) := if size <? 1 then (0, None)
                                 else match post fetchMocks with
                                      | None => (size, None)
                                      | Some e => (0, Some e)
                                      end : Z * option error in
          send_loop fuel batch mocks (i + sendSize) post (sent ++ [fetchMocks])
            (match err with None => cnt +₆₄ cntonce | Some _ => cnt end)
        else Some (Panic SliceBounds)
      else Some (Ret (sent, cnt))
  end.

(** [sendMock]: the points are read, then the map is cleared; [between] is what
the judge does meanwhile, and [visit] the order of the points. *)
Definition sendMock (fuel : nat) (batch : Z) (visit : list (string * JsonMetaData.t)) (between : state → state)
    (post : list JsonMetaData.t → option error) (st : state) :
    option (go (list (list JsonMetaData.t) * Z * state)) :=
  let mocks := visit.*2 in
  let st := with_MockMap ∅ (between st) in
  r ← send_loop fuel batch mocks 0 post [] 0;
  Some (x ← r; Ret (x, st)).
