(* ===== verification/NodataSafety.v ===== *)
(** * Absent data: correctness

Which rule wins for a counter, what the collector fetches, when the judge mocks
a point and that mock points of a counter never fall into one period, and when
the sending of the mock points ends. *)

From stdpp Require Import functions.
From S2P Require Import Prelude GoFloat GoString Hash Tags Model Containers Hbs Nodata.
From Stdlib Require Import Ascii.
From stdpp Require Import options.

(** ** Batches *)

Lemma batches_spec {A} fuel batch (keys : list A) :
  1 <= batch → (length keys <= fuel)%nat →
  ∃ bs, batches fuel batch keys = Some bs ∧ mjoin bs = keys ∧
    Forall (λ b, b ≠ [] ∧ Z.of_nat (length b) <= batch) bs ∧
    Z.of_nat (length bs) = (Z.of_nat (length keys) + batch - 1) / batch.
Proof.
  intros Hb. revert keys. induction fuel as [|fuel IH]; intros keys Hf.
  { destruct keys; [|cbn in Hf; lia]. exists []. split_and!; [done..|]. cbn. rewrite Z.div_small; lia. }
  destruct keys as [|k keys].
  { exists []. split_and!; [done..|]. cbn. rewrite Z.div_small; lia. }
  cbn [batches]. set (l := k :: keys) in *. set (n := Z.of_nat (length l)).
  assert (1 <= n) as Hn by (unfold n, l; cbn; lia).
  set (size := if n <? batch then n else batch).
  assert (1 <= size <= n ∧ size <= batch ∧ (size = batch ∨ size = n)) as Hs
    by (unfold size; destruct (Z.ltb_spec n batch); lia).
  destruct (IH (drop (Z.to_nat size) l)) as (bs & -> & Hj & Hall & Hlen).
  { rewrite length_drop. unfold n in *. lia. }
  cbn [mbind option_bind]. exists (take (Z.to_nat size) l :: bs). split_and!; [done| | |].
  - change (take (Z.to_nat size) l ++ mjoin bs = l). by rewrite Hj, take_drop.
  - constructor; [|done]. split.
    + intros E. apply (f_equal length) in E. rewrite length_take in E. cbn in E. unfold n in *. lia.
    + rewrite length_take. lia.
  - cbn [length]. rewrite Nat2Z.inj_succ, Hlen, length_drop, Nat2Z.inj_sub by (unfold n in *; lia).
    fold n. rewrite Z2Nat.id by lia. unfold size. destruct (Z.ltb_spec n batch) as [Hlt|Hge].
    + rewrite Z.sub_diag, Z.div_small by lia. rewrite <- (Z.div_unique (n + batch - 1) batch 1 (n - 1)); lia.
    + rewrite <- Z.add_1_r, <- (Z.div_add (n - batch + batch - 1) 1 batch) by lia. f_equal. lia.
Qed.

(** ** The sender *)

Lemma send_loop_spec batch mocks post fuel i sent cnt :
  1 <= batch → 0 <= i <= Z.of_nat (length mocks) → Z.of_nat (length mocks) - i < Z.of_nat fuel →
  0 <= cnt → cnt + (Z.of_nat (length mocks) - i) < 2 ^ 63 →
  ∃ bs, send_loop fuel batch mocks i post sent cnt =
      Some (Ret (sent ++ bs,
        cnt + foldr Z.add 0 ((λ b, if post b then 0 else Z.of_nat (length b)) <$> bs))) ∧
    mjoin bs = drop (Z.to_nat i) mocks ∧
    Forall (λ b, b ≠ [] ∧ Z.of_nat (length b) <= batch) bs.
Proof.
  intros Hb. revert i sent cnt. induction fuel as [|fuel IH]; intros i sent cnt Hi Hf Hc Hcl; [lia|].
  cbn [send_loop]. destruct (Z.ltb_spec i (Z.of_nat (length mocks))) as [Hlt|Hge].
  2:{ exists []. rewrite app_nil_r, Z.add_0_r. split_and!; [done| |done].
      symmetry. apply drop_ge. lia. }
  set (n := Z.of_nat (length mocks)) in *.
  set (size := if n - i <? batch then n - i else batch).
  assert (1 <= size <= n - i ∧ size <= batch) as Hs
    by (unfold size; destruct (Z.ltb_spec (n - i) batch); lia).
  rewrite bool_decide_eq_true_2 by lia.
  set (b := take (Z.to_nat size) (drop (Z.to_nat i) mocks)).
  assert (Z.of_nat (length b) = size) as Hlen.
  { unfold b. rewrite length_take, length_drop. unfold n in *. lia. }
  rewrite Hlen. destruct (Z.ltb_spec size 1); [lia|].
  assert (drop (Z.to_nat i) mocks = b ++ drop (Z.to_nat (i + size)) mocks) as Hd.
  { unfold b. rewrite <- (take_drop (Z.to_nat size) (drop (Z.to_nat i) mocks)) at 1. f_equal.
    rewrite drop_drop. f_equal. lia. }
  assert (∀ cnt', 0 <= cnt' → cnt' + (n - (i + size)) < 2 ^ 63 →
    ∃ bs, send_loop fuel batch mocks (i + size) post (sent ++ [b]) cnt' =
      Some (Ret (sent ++ b :: bs,
        cnt' + foldr Z.add 0 ((λ b, if post b then 0 else Z.of_nat (length b)) <$> bs))) ∧
      mjoin (b :: bs) = drop (Z.to_nat i) mocks ∧
      Forall (λ b, b ≠ [] ∧ Z.of_nat (length b) <= batch) (b :: bs)) as IH'.
  { intros cnt' H1 H2. destruct (IH (i + size) (sent ++ [b]) cnt') as (bs & E & Hj & Hall); [lia..|].
    exists bs. rewrite E, <- app_assoc. split_and!; [done|by change (b ++ mjoin bs = drop (Z.to_nat i) mocks); rewrite Hd, Hj|].
    constructor; [|done]. split; [|lia]. intros ->. cbn in Hlen. lia. }
  destruct (post b) eqn:Ep.
  - destruct (IH' cnt) as (bs & E & Hj & Hall); [lia..|]. exists (b :: bs). rewrite E.
    split_and!; [|done|done]. cbn [fmap list_fmap foldr]. by rewrite Ep.
  - rewrite wrap64_id by (unfold int64; lia).
    destruct (IH' (cnt + size)) as (bs & E & Hj & Hall); [lia..|]. exists (b :: bs). rewrite E.
    split_and!; [|done|done]. cbn [fmap list_fmap foldr]. rewrite Ep, Hlen. do 3 f_equal. lia.
Qed.

Lemma send_loop_stuck mocks post fuel i sent cnt :
  0 <= i < Z.of_nat (length mocks) → send_loop fuel 0 mocks i post sent cnt = None.
Proof.
  intros Hi. revert sent cnt. induction fuel as [|fuel IH]; intros sent cnt; [done|].
  cbn [send_loop]. destruct (Z.ltb_spec i (Z.of_nat (length mocks))); [|lia].
  destruct (Z.ltb_spec (Z.of_nat (length mocks) - i) 0); [lia|].
  rewrite bool_decide_eq_true_2 by lia. rewrite Z.add_0_r. cbn [Z.to_nat take length]. cbv beta iota zeta.
  apply IH.
Qed.

(** With a positive batch size, sending ends after a round per batch: every
point of the map is posted in exactly one batch, no batch is larger than asked
for, and the number answered is that of the points whose batch was accepted.
With a batch size of zero, which the configuration does not exclude, the first
point makes the loop run for ever. *)
Theorem sendMock_terminates batch visit between post st fuel :
  ranges visit st.(MockMap) → Z.of_nat (length visit) < Z.of_nat fuel → Z.of_nat fuel < 2 ^ 63 →
  (1 <= batch → ∃ bs, sendMock fuel batch visit between post st =
      Some (Ret (bs, foldr Z.add 0 ((λ b, if post b then 0 else Z.of_nat (length b)) <$> bs),
                 with_MockMap ∅ (between st))) ∧
    mjoin bs ≡ₚ (map_to_list st.(MockMap)).*2 ∧
    Forall (λ b, b ≠ [] ∧ Z.of_nat (length b) <= batch) bs) ∧
  (st.(MockMap) ≠ ∅ → ∀ fuel', sendMock fuel' 0 visit between post st = None).
Proof.
  intros Hv Hf Hf2. split.
  - intros Hb. destruct (send_loop_spec batch visit.*2 post fuel 0 [] 0) as (bs & E & Hj & Hall);
      rewrite ?length_fmap; [lia..|].
    exists bs. unfold sendMock. rewrite E. cbn [mbind option_bind go_bind app]. rewrite Z.add_0_l.
    split_and!; [done| |done]. rewrite Hj. cbn [Z.to_nat drop]. by rewrite Hv.
  - intros Hne fuel'. unfold sendMock. rewrite send_loop_stuck; [done|].
    rewrite length_fmap. rewrite (ranges_length _ _ Hv).
    assert (size st.(MockMap) ≠ 0%nat) by (intros E; by apply map_size_empty_inv in E). lia.
Qed.

(** ** Which rule wins *)

Section rules.
Context (DB_hosts : query (Z * string)) (DB_mockcfg : query MockRow) (now : Z).

(** The rule of a row, if it passes the checks. *)
Definition rule_of (r : MockRow) : option MockCfg.t :=
  let t := MockCfg.mk r.(mId) r.(mName) r.(mObj) r.(mObjType) r.(mMetric) (DictedTagstring r.(mTags))
    r.(mType) r.(mStep) r.(mMock) in
  match checkMockCfg t with None => Some t | Some _ => None end.

Definition config_of (t : MockCfg.t) (ep : string) : string * NodataConfig.t :=
  (PK ep t.(MockCfg.Metric) t.(MockCfg.Tags),
   NodataConfig.mk t.(MockCfg.Id) t.(MockCfg.Name) t.(MockCfg.ObjType) ep t.(MockCfg.Metric)
     t.(MockCfg.Tags) t.(MockCfg.Type_) t.(MockCfg.Step) t.(MockCfg.Mock)).

(** All configs that the rows ask for, in order, with their keys. *)
Definition candidates (rows : list (option MockRow)) : list (string * NodataConfig.t) :=
  row ← rows;
  match row ≫= rule_of with
  | Some t => config_of t <$> getEndpoint DB_hosts now t.(MockCfg.ObjType) t.(MockCfg.Obj)
  | None => []
  end.

(** The first config stays, unless it comes from a group and a host has its own. *)
Fixpoint winner (val : NodataConfig.t) (l : list NodataConfig.t) : NodataConfig.t :=
  match l with
  | [] => val
  | ncfg :: l => winner (if isSpuerNodataCfg val ncfg then val else ncfg) l
  end.

Definition put_candidate (m : gmap string NodataConfig.t) (c : string * NodataConfig.t) :=
  match m !! c.1 with
  | None => <[c.1 := c.2]> m
  | Some val => if isSpuerNodataCfg val c.2 then m else <[c.1 := c.2]> m
  end.

Lemma GetMockCfgFromDB_candidates rows :
  (∀ sql, DB_mockcfg sql = Ok rows) →
  GetMockCfgFromDB DB_hosts DB_mockcfg now = foldl put_candidate ∅ (candidates rows).
Proof.
  intros E. unfold GetMockCfgFromDB. rewrite E. unfold scan_rows, candidates.
  generalize (∅ : gmap string NodataConfig.t). clear E. induction rows as [|row rows IH]; intros m; [done|].
  cbn [foldl]. rewrite bind_cons, foldl_app, IH. f_equal. destruct row as [r|]; [|done].
  unfold mock_row, rule_of. cbn [mbind option_bind]. destruct (checkMockCfg _); [done|].
  by rewrite foldl_fmap.
Qed.

Lemma put_candidates_lookup l m k :
  foldl put_candidate m l !! k =
    match m !! k, values_of k l with
    | Some val, vs => Some (winner val vs)
    | None, v :: vs => Some (winner v vs)
    | None, [] => None
    end.
Proof.
  revert m. induction l as [|[k' c] l IH]; intros m; cbn [foldl].
  { cbn. by destruct (m !! k). }
  rewrite IH, values_of_cons. unfold put_candidate. cbn [fst snd].
  destruct (decide (k' = k)) as [->|Hne].
  - destruct (m !! k) as [val|] eqn:Em; [|by rewrite lookup_insert_eq].
    cbn [winner]. destruct (isSpuerNodataCfg val c); [by rewrite Em|by rewrite lookup_insert_eq].
  - destruct (m !! k') as [val|]; [|by rewrite lookup_insert_ne].
    destruct (isSpuerNodataCfg val c); [done|by rewrite lookup_insert_ne].
Qed.

Lemma winner_elem val l : winner val l ∈ val :: l.
Proof.
  revert val. induction l as [|c l IH]; intros val; cbn [winner]; [by left|].
  destruct (isSpuerNodataCfg val c); [specialize (IH val)|specialize (IH c)]; set_solver.
Qed.

Lemma winner_not_group val l :
  val.(NodataConfig.ObjType) ≠ "group" → winner val l = val.
Proof.
  intros Hv. revert Hv. induction l as [|c l IH]; intros Hv; cbn [winner]; [done|].
  unfold isSpuerNodataCfg. rewrite bool_decide_eq_false_2 by tauto. by apply IH.
Qed.

Lemma winner_host val l :
  (∃ c, c ∈ val :: l ∧ c.(NodataConfig.ObjType) = "host") →
  (winner val l).(NodataConfig.ObjType) ≠ "group".
Proof.
  revert val. induction l as [|c l IH]; intros val (c' & Hin & Hh); cbn [winner].
  { apply list_elem_of_singleton in Hin as ->. by rewrite Hh. }
  destruct (decide (val.(NodataConfig.ObjType) = "group")) as [Hg|Hg].
  - assert (c' ∈ c :: l) as Hin' by (apply elem_of_cons in Hin as [->|]; [congruence|done]).
    unfold isSpuerNodataCfg. destruct (bool_decide_reflect (val.(NodataConfig.ObjType) = "group" ∧ c.(NodataConfig.ObjType) = "host")) as [[_ Hc]|Hn].
    + rewrite winner_not_group by congruence. congruence.
    + apply IH. exists c'. split; [|done]. apply elem_of_cons in Hin' as [->|]; [tauto|by right].
  - unfold isSpuerNodataCfg. rewrite bool_decide_eq_false_2 by tauto. by rewrite winner_not_group.
Qed.

(** The configuration of a counter is the one of the first rule that asks for
it, and when a rule for a host asks for it, it is not the one of a group: it is
one of the configurations asked for by valid rules; and a counter that no valid
rule asks for has none. *)
Theorem GetMockCfgFromDB_correct rows k :
  (∀ sql, DB_mockcfg sql = Ok rows) →
  let asked := values_of k (candidates rows) in
  let cfg := GetMockCfgFromDB DB_hosts DB_mockcfg now !! k in
  (cfg = None ↔ asked = []) ∧
  (∀ c, cfg = Some c → c ∈ asked ∧ (c.(NodataConfig.Type_) = "GAUGE" ∧ 1 <= c.(NodataConfig.Step)) ∧
     k = PK c.(NodataConfig.Endpoint) c.(NodataConfig.Metric) c.(NodataConfig.Tags)) ∧
  (∀ c, cfg = Some c → (∃ c', c' ∈ asked ∧ c'.(NodataConfig.ObjType) = "host") →
     c.(NodataConfig.ObjType) ≠ "group") ∧
  (∀ c0 l, asked = c0 :: l → c0.(NodataConfig.ObjType) ≠ "group" → cfg = Some c0).
Proof.
  intros E asked cfg. unfold cfg. rewrite (GetMockCfgFromDB_candidates rows E), put_candidates_lookup, lookup_empty.
  fold asked. assert (∀ c, c ∈ asked → (c.(NodataConfig.Type_) = "GAUGE" ∧ 1 <= c.(NodataConfig.Step)) ∧
    k = PK c.(NodataConfig.Endpoint) c.(NodataConfig.Metric) c.(NodataConfig.Tags)) as Hwf.
  { intros c Hc%elem_of_values_of. apply list_elem_of_bind in Hc as (row & Hc & _).
    destruct (row ≫= rule_of) as [t|] eqn:Er; [|by apply not_elem_of_nil in Hc].
    apply list_elem_of_fmap in Hc as (ep & [= -> ->] & _). split; [|done]. cbn.
    apply bind_Some in Er as (r & _ & Er). unfold rule_of in Er. destruct (checkMockCfg _) eqn:Ec; [done|].
    injection Er as <-. unfold checkMockCfg in Ec. repeat case_match; simplify_eq.
    split; [by apply dec_stable|]. cbn in *. by apply Z.ltb_ge. }
  destruct asked as [|c0 l] eqn:Ea.
  - split_and!; [done|naive_solver..].
  - split_and!; [done| | |].
    + intros c [= <-]. pose proof (winner_elem c0 l) as Hin. split; [done|]. by apply Hwf.
    + intros c [= <-]. apply winner_host.
    + intros ? ? [= <- <-] Hg. by rewrite winner_not_group.
Qed.
End rules.

(** ** The judge *)

(** What [judge] looks at and changes of one counter. *)
Record view : Type := View { vStatus : option NodataStatus.t; vMock : option JsonMetaData.t }.
Definition view_of (key : string) (st : state) : view := View (st.(StatusMap) !! key) (st.(MockMap) !! key).

(** The last collection succeeded and is not too old. *)
Definition fetched (now : Z) (cfg : NodataConfig.t) (item : DataItem.t) : bool :=
  bool_decide (item.(DataItem.FStatus) = "OK") &&
  (now -₆₄ getTimeout cfg.(NodataConfig.Step) <=? item.(DataItem.FTs)).

(** The last point is a mock one, or too old. *)
Definition late (now : Z) (cfg : NodataConfig.t) (item : DataItem.t) : bool :=
  (fCompare cfg.(NodataConfig.Mock) item.(DataItem.Value) =? 0) ||
  (item.(DataItem.Ts) <? now -₆₄ getTimeout cfg.(NodataConfig.Step)).

Definition last_turn (v : view) : Z := match v.(vStatus) with None => 0 | Some s => s.(NodataStatus.Ts) end.

Definition mock_point (now : Z) (cfg : NodataConfig.t) : JsonMetaData.t :=
  let step := cfg.(NodataConfig.Step) in
  JsonMetaData.mk cfg.(NodataConfig.Metric) cfg.(NodataConfig.Endpoint)
    (now -₆₄ Z.rem now step -₆₄ 2 *₆₄ step) step (VFloat64 cfg.(NodataConfig.Mock)) cfg.(NodataConfig.Type_)
    (SortedTags cfg.(NodataConfig.Tags)).

(** The counter is due for a mock point. *)
Definition due (now : Z) (cfg : NodataConfig.t) (item : DataItem.t) (v : view) : bool :=
  fetched now cfg item && late now cfg item && (last_turn v +₆₄ cfg.(NodataConfig.Step) <=? now).

Definition turn (status : string) (cnt : Z → Z) (key : string) (now : Z) (s : option NodataStatus.t) : NodataStatus.t :=
  match s with
  | None => NodataStatus.mk key status (cnt 0) now
  | Some s => NodataStatus.mk s.(NodataStatus.Key) status (cnt s.(NodataStatus.Cnt)) now
  end.

Definition judge_view (now : Z) (key : string) (cfg : option NodataConfig.t) (item : option DataItem.t) (v : view) : view :=
  match cfg, item with
  | Some cfg, Some item =>
      if negb (fetched now cfg item) then v
      else if late now cfg item then
        if last_turn v +₆₄ cfg.(NodataConfig.Step) <=? now
        then View (Some (turn "NODATA" (λ c, c +₆₄ 1) key now v.(vStatus))) (Some (mock_point now cfg))
        else v
      else View (Some (turn "OK" (λ _, 0) key now v.(vStatus))) v.(vMock)
  | _, _ => v
  end.

(** The steps of the configuration are positive, as [checkMockCfg] asks. *)
Definition config_ok (st : state) : Prop :=
  map_Forall (λ _ c, 1 <= c.(NodataConfig.Step)) st.(NdConfigMap).

Lemma nodata_spec now key cfg st :
  1 <= cfg.(NodataConfig.Step) →
  nodata now key cfg st =
    Ret (if LastTs key st +₆₄ cfg.(NodataConfig.Step) <=? now
         then genMock (now -₆₄ Z.rem now cfg.(NodataConfig.Step) -₆₄ 2 *₆₄ cfg.(NodataConfig.Step)) key cfg (TurnNodata key now st)
         else st).
Proof.
  intros Hs. unfold nodata. case_match; [|done]. unfold genTs.
  destruct (Z.ltb_spec (NodataConfig.Step cfg) 1); [lia|]. unfold go_rem. by rewrite decide_False by lia.
Qed.

Lemma judge_key_spec now key st :
  config_ok st →
  ∃ st', judge_key now st key = Ret st' ∧
    st'.(NdConfigMap) = st.(NdConfigMap) ∧ st'.(ItemMap) = st.(ItemMap) ∧
    view_of key st' = judge_view now key (GetNdConfig key st) (GetFirstItem key st) (view_of key st) ∧
    ∀ k, k ≠ key → view_of k st' = view_of k st.
Proof.
  intros Hok. unfold judge_key, judge_view.
  destruct (GetNdConfig key st) as [cfg|] eqn:Ec; [|by exists st]. pose proof (Hok _ _ Ec) as Hstep.
  destruct (GetFirstItem key st) as [item|]; [|by exists st].
  unfold fetched, late. set (lastTs := now -₆₄ getTimeout (NodataConfig.Step cfg)).
  rewrite negb_andb, <- bool_decide_not. rewrite Z.leb_antisym, negb_involutive.
  destruct (_ || _); [by exists st|]. cbn beta in Hstep.
  assert (∃ st', nodata now key cfg st = Ret st' ∧ st'.(NdConfigMap) = st.(NdConfigMap) ∧ st'.(ItemMap) = st.(ItemMap) ∧
    view_of key st' = (if last_turn (view_of key st) +₆₄ cfg.(NodataConfig.Step) <=? now
        then View (Some (turn "NODATA" (λ c, c +₆₄ 1) key now (view_of key st).(vStatus))) (Some (mock_point now cfg))
        else view_of key st) ∧
    ∀ k, k ≠ key → view_of k st' = view_of k st) as Hnd.
  { rewrite nodata_spec by done. eexists. split; [done|].
    change (last_turn (view_of key st)) with (LastTs key st). case_match; [|done].
    split_and!; [done..| |].
    - unfold view_of. cbn. rewrite !lookup_insert_eq. by destruct (StatusMap st !! key).
    - intros k Hk. unfold view_of. cbn. by rewrite !lookup_insert_ne by done. }
  destruct (fCompare _ _ =? 0); cbn [orb]; [done|].
  destruct (DataItem.Ts item <? lastTs); [done|].
  exists (TurnOk key now st). split_and!; [done..| |].
  - unfold view_of. cbn. rewrite !lookup_insert_eq. by destruct (StatusMap st !! key).
  - intros k Hk. unfold view_of. cbn. by rewrite !lookup_insert_ne by done.
Qed.

Lemma judge_spec now keys st :
  NoDup keys → config_ok st →
  ∃ st', judge now keys st = Ret st' ∧
    st'.(NdConfigMap) = st.(NdConfigMap) ∧ st'.(ItemMap) = st.(ItemMap) ∧
    ∀ k, view_of k st' = if decide (k ∈ keys)
      then judge_view now k (GetNdConfig k st) (GetFirstItem k st) (view_of k st) else view_of k st.
Proof.
  intros Hnd. revert st. induction Hnd as [|key keys Hni _ IH]; intros st Hok.
  { exists st. split_and!; [done..|]. intros k. by rewrite decide_False by apply not_elem_of_nil. }
  destruct (judge_key_spec now key st Hok) as (st1 & E1 & Hc1 & Hi1 & Hv1 & Ho1).
  destruct (IH st1) as (st2 & E2 & Hc2 & Hi2 & Hv2); [unfold config_ok; by rewrite Hc1|].
  exists st2. unfold judge. cbn [go_foldl]. rewrite E1. cbn [mbind go_bind]. split_and!; [done|congruence..|].
  intros k. rewrite Hv2. assert (GetNdConfig k st1 = GetNdConfig k st) as -> by (unfold GetNdConfig; by rewrite Hc1).
  assert (GetFirstItem k st1 = GetFirstItem k st) as -> by (unfold GetFirstItem; by rewrite Hi1).
  destruct (decide (k = key)) as [->|Hne].
  - rewrite decide_False by done. by rewrite decide_True by left.
  - rewrite Ho1 by done. apply decide_ext. rewrite elem_of_cons. tauto.
Qed.

(** C31. A run of the judge touches each configured counter independently of the
others.  A counter whose collection failed or is too old stays as it is; one
whose last point is late or a mock one gets a mock point and turns to NODATA when
a period has passed since its last turn, and stays as it is otherwise; any other
counter turns to OK. *)
Theorem judge_correct now keys st :
  NoDup keys → config_ok st →
  ∃ st', judge now keys st = Ret st' ∧
    (∀ k, k ∉ keys → view_of k st' = view_of k st) ∧
    ∀ k cfg, k ∈ keys → GetNdConfig k st = Some cfg →
      match GetFirstItem k st with
      | None => view_of k st' = view_of k st
      | Some item =>
          (fetched now cfg item = false → view_of k st' = view_of k st) ∧
          (due now cfg item (view_of k st) = true →
             view_of k st' = View (Some (turn "NODATA" (λ c, c +₆₄ 1) k now (st.(StatusMap) !! k))) (Some (mock_point now cfg))) ∧
          (late now cfg item = true → due now cfg item (view_of k st) = false → view_of k st' = view_of k st) ∧
          (fetched now cfg item = true → late now cfg item = false →
             view_of k st' = View (Some (turn "OK" (λ _, 0) k now (st.(StatusMap) !! k))) (st.(MockMap) !! k))
      end.
Proof.
  intros Hnd Hok. destruct (judge_spec now keys st Hnd Hok) as (st' & E & _ & _ & Hv). exists st'. split_and!; [done|..].
  - intros k Hk. by rewrite Hv, decide_False.
  - intros k cfg Hk Ec. rewrite Hv, decide_True by done. rewrite Ec. unfold judge_view, due.
    destruct (GetFirstItem k st) as [item|]; [|done].
    destruct (fetched now cfg item), (late now cfg item), (last_turn (view_of k st) +₆₄ NodataConfig.Step cfg <=? now);
      cbn [negb andb]; split_and!; done.
Qed.

(** ** Mock points over time *)

Section periods.
(** The period of each counter, which no synchronisation changes. *)
Context (period : string → Z).

Definition periods_ok (m : gmap string NodataConfig.t) : Prop :=
  map_Forall (λ k c, c.(NodataConfig.Step) = period k ∧ 1 <= period k < 2 ^ 60) m.

(** The counters that get a mock point in a run of the judge, with its time. *)
Definition new_mocks (now : Z) (keys : list string) (st : state) : list (string * Z) :=
  omap (λ k, cfg ← GetNdConfig k st; item ← GetFirstItem k st;
    if due now cfg item (view_of k st) then Some (k, (mock_point now cfg).(JsonMetaData.Timestamp)) else None) keys.

(** The service over time: its state, the time, and all the mock points so far. *)
Inductive nodata_step : state * Z * list (string * Z) → state * Z * list (string * Z) → Prop :=
| step_judge st now log now' keys st' :
    now <= now' < 2 ^ 61 → NoDup keys → judge now' keys st = Ret st' →
    nodata_step (st, now, log) (st', now', log ++ new_mocks now' keys st)
| step_collect st now log q fts keys :
    nodata_step (st, now, log) ((fetchItemsAndStore q fts keys st).2, now, log)
| step_sync st now log m :
    periods_ok m → nodata_step (st, now, log) (SetNdConfigMap m st, now, log)
| step_send st now log : nodata_step (st, now, log) (with_MockMap ∅ st, now, log).

Definition start : state * Z * list (string * Z) := (State ∅ ∅ ∅ ∅, 0, []).

(** The time of a mock point: the start of a period, two periods ago. *)
Definition mock_ts (p now : Z) : Z := now - now mod p - 2 * p.

Lemma mock_ts_mono p t1 t2 : 1 <= p → t1 <= t2 → mock_ts p t1 <= mock_ts p t2.
Proof.
  intros Hp Ht. unfold mock_ts. pose proof (Z.div_mod t1 p). pose proof (Z.div_mod t2 p).
  pose proof (Z.div_le_mono t1 t2 p). nia.
Qed.

Lemma mock_ts_next p t1 t2 : 1 <= p → t1 + p <= t2 → mock_ts p t1 + p <= mock_ts p t2.
Proof.
  intros Hp Ht. pose proof (mock_ts_mono p (t1 + 1 * p) t2 Hp) as H.
  assert (mock_ts p (t1 + 1 * p) = mock_ts p t1 + p) as E; [|lia].
  unfold mock_ts. rewrite Z.mod_add by lia. lia.
Qed.

Record world_ok (st : state) (now : Z) (log : list (string * Z)) : Prop := WorldOk {
  w_now : 0 <= now < 2 ^ 61;
  w_config : periods_ok st.(NdConfigMap);
  w_status : ∀ k s, st.(StatusMap) !! k = Some s → 0 <= s.(NodataStatus.Ts) <= now;
  w_log : ∀ k ts, (k, ts) ∈ log → ∃ s, st.(StatusMap) !! k = Some s ∧
    1 <= period k ∧ ts <= mock_ts (period k) s.(NodataStatus.Ts);
  w_spaced : ∀ i j k t1 t2, (i < j)%nat → log !! i = Some (k, t1) → log !! j = Some (k, t2) → t1 + period k <= t2 }.

Lemma mock_point_ts now cfg :
  0 <= now < 2 ^ 61 → 1 <= cfg.(NodataConfig.Step) < 2 ^ 60 →
  (mock_point now cfg).(JsonMetaData.Timestamp) = mock_ts cfg.(NodataConfig.Step) now.
Proof.
  intros Hn Hs. unfold mock_point, mock_ts. cbn [JsonMetaData.Timestamp]. rewrite Z.rem_mod_nonneg by lia.
  pose proof (Z.mod_pos_bound now (NodataConfig.Step cfg)).
  rewrite !wrap64_id; unfold int64; rewrite ?wrap64_id; unfold int64; lia.
Qed.

Lemma world_ok_frame st st' now log :
  st'.(NdConfigMap) = st.(NdConfigMap) → st'.(StatusMap) = st.(StatusMap) → world_ok st now log → world_ok st' now log.
Proof. intros E1 E2 [H1 H2 H3 H4 H5]. split; rewrite ?E1, ?E2; done. Qed.

Lemma AddItem_frame key v st :
  (AddItem key v st).(NdConfigMap) = st.(NdConfigMap) ∧ (AddItem key v st).(StatusMap) = st.(StatusMap).
Proof. done. Qed.

Lemma store_points_frame fts resp st :
  (foldl (store_point fts) st resp).(NdConfigMap) = st.(NdConfigMap) ∧
  (foldl (store_point fts) st resp).(StatusMap) = st.(StatusMap).
Proof.
  revert st. induction resp as [|r resp IH]; intros st; [done|]. cbn [foldl].
  destruct (IH (store_point fts st r)) as [-> ->]. by destruct r as [[[] []]|].
Qed.

Lemma fetch_frame q fts keys st :
  (fetchItemsAndStore q fts keys st).2.(NdConfigMap) = st.(NdConfigMap) ∧
  (fetchItemsAndStore q fts keys st).2.(StatusMap) = st.(StatusMap).
Proof. unfold fetchItemsAndStore. repeat case_match; try done. apply store_points_frame. Qed.

Lemma new_mocks_elem now keys st k ts :
  (k, ts) ∈ new_mocks now keys st ↔ k ∈ keys ∧ ∃ cfg item, GetNdConfig k st = Some cfg ∧ GetFirstItem k st = Some item ∧
    due now cfg item (view_of k st) = true ∧ ts = (mock_point now cfg).(JsonMetaData.Timestamp).
Proof.
  unfold new_mocks. rewrite list_elem_of_omap. split.
  - intros (k' & Hk & (cfg & Ec & (item & Ei & Hd)%bind_Some)%bind_Some). case_match; simplify_eq.
    split; [done|]. eauto 6.
  - intros (Hk & cfg & item & Ec & Ei & Hd & ->). exists k. split; [done|]. rewrite Ec, Ei. cbn. by rewrite Hd.
Qed.

Lemma new_mocks_once now keys st i j k t1 t2 :
  NoDup keys → new_mocks now keys st !! i = Some (k, t1) → new_mocks now keys st !! j = Some (k, t2) → i = j.
Proof.
  intros Hnd. assert (NoDup (new_mocks now keys st).*1) as Hn.
  { unfold new_mocks. induction Hnd as [|k' keys' Hni _ IH]; [constructor|]. cbn [omap list_omap].
    destruct (GetNdConfig k' st ≫= _) as [[k2 t]|] eqn:E; [|done]. cbn. constructor; [|done].
    apply bind_Some in E as (cfg & _ & (item & _ & Hd)%bind_Some). case_match; simplify_eq.
    intros ([k3 t3] & -> & (Hin & _)%new_mocks_elem)%list_elem_of_fmap. done. }
  intros Hi Hj. apply (NoDup_lookup _ i j k Hn); rewrite list_lookup_fmap; [by rewrite Hi|by rewrite Hj].
Qed.

Lemma periods_config_ok st : periods_ok st.(NdConfigMap) → config_ok st.
Proof. intros H k c Hk. destruct (H k c Hk). lia. Qed.

Lemma due_view now k cfg item v :
  due now cfg item v = true → ∃ s, (judge_view now k (Some cfg) (Some item) v).(vStatus) = Some s ∧ s.(NodataStatus.Ts) = now.
Proof.
  unfold due, judge_view. intros [[-> ->]%andb_true_iff ->]%andb_true_iff. cbn. eexists. split; [done|].
  unfold turn. by case_match.
Qed.

Lemma judge_world_ok st now log now' keys st' :
  now <= now' < 2 ^ 61 → NoDup keys → judge now' keys st = Ret st' →
  world_ok st now log → world_ok st' now' (log ++ new_mocks now' keys st).
Proof.
  intros Hnow Hnd E [Hn Hc Hs Hl Hsp].
  destruct (judge_spec now' keys st Hnd (periods_config_ok st Hc)) as (st2 & E2 & Hc2 & _ & Hv).
  rewrite E in E2. simplify_eq.
  assert (∀ k, (st2.(StatusMap) !! k = st.(StatusMap) !! k) ∨ ∃ s, st2.(StatusMap) !! k = Some s ∧ s.(NodataStatus.Ts) = now') as Hturn.
  { intros k. specialize (Hv k). change (st2.(StatusMap) !! k) with (view_of k st2).(vStatus). rewrite Hv.
    case_decide; [|by left]. unfold judge_view. repeat case_match; subst; cbn; auto; right; eexists; split; try done;
      unfold turn; by case_match. }
  assert (∀ k ts, (k, ts) ∈ new_mocks now' keys st → ∃ cfg s, GetNdConfig k st = Some cfg ∧
    ts = mock_ts (period k) now' ∧ 1 <= period k ∧ st2.(StatusMap) !! k = Some s ∧ s.(NodataStatus.Ts) = now' ∧
    last_turn (view_of k st) + period k <= now') as Hnew.
  { intros k ts (Hk & cfg & item & Ec & Ei & Hd & ->)%new_mocks_elem. destruct (Hc k cfg Ec) as [Hstep Hp].
    specialize (Hv k). rewrite decide_True, Ec, Ei in Hv by done.
    destruct (due_view now' k cfg item (view_of k st) Hd) as (s & Hs1 & Hs2). rewrite <- Hv in Hs1.
    exists cfg, s. split_and!; [done| |lia|done|done|].
    - rewrite mock_point_ts, Hstep by lia. done.
    - unfold due in Hd. apply andb_true_iff in Hd as [_ Hd%Z.leb_le]. rewrite Hstep in Hd.
      assert (0 <= last_turn (view_of k st) <= now) as Hlt.
      { unfold last_turn, view_of. cbn. destruct (st.(StatusMap) !! k) as [s'|] eqn:Es; [by apply Hs in Es|lia]. }
      rewrite wrap64_id in Hd by (unfold int64; lia). done. }
  split.
  - lia.
  - by rewrite Hc2.
  - intros k s Hk. destruct (Hturn k) as [Et|(s' & Hs' & Hts)]; [rewrite Et in Hk; apply Hs in Hk; lia|].
    rewrite Hs' in Hk. simplify_eq. lia.
  - intros k ts [Hin|Hin]%elem_of_app.
    + destruct (Hl k ts Hin) as (s & Hk & Hp & Hle). destruct (Hturn k) as [Et|(s' & Hs' & Hts)].
      * exists s. by rewrite Et.
      * exists s'. split_and!; [done|done|]. etransitivity; [exact Hle|]. apply mock_ts_mono; [done|].
        apply Hs in Hk. lia.
    + destruct (Hnew k ts Hin) as (cfg & s & _ & -> & Hp & Hk & Hts & _). exists s. rewrite Hts. done.
  - intros i j k t1 t2 Hij H1 H2.
    apply lookup_app_Some in H1 as [H1|[Hi1 H1]], H2 as [H2|[Hi2 H2]].
    + by eapply Hsp.
    + apply list_elem_of_lookup_2 in H1, H2. destruct (Hnew k t2 H2) as (cfg & s & _ & -> & Hp & _ & _ & Hgap).
      destruct (Hl k t1 H1) as (s1 & Hs1 & _ & Hle). unfold last_turn, view_of in Hgap. cbn in Hgap. rewrite Hs1 in Hgap.
      pose proof (mock_ts_next (period k) s1.(NodataStatus.Ts) now' Hp Hgap). lia.
    + apply lookup_lt_Some in H2. lia.
    + pose proof (new_mocks_once now' keys st _ _ k t1 t2 Hnd H1 H2). lia.
Qed.

Lemma nodata_step_ok w1 w2 :
  nodata_step w1 w2 → world_ok w1.1.1 w1.1.2 w1.2 → world_ok w2.1.1 w2.1.2 w2.2.
Proof.
  destruct 1 as [st now log now' keys st' Hn Hnd E|st now log q fts keys|st now log m Hm|st now log]; cbn [fst snd]; intros Hok.
  - by eapply judge_world_ok.
  - destruct (fetch_frame q fts keys st) as [E1 E2]. by eapply world_ok_frame.
  - destruct Hok as [H1 H2 H3 H4 H5]. by split.
  - by apply (world_ok_frame st).
Qed.

End periods.

(** ** The collector *)

(** The lists hold three points. *)
Definition items_ok (st : state) : Prop := map_Forall (λ _ l, l.(SafeListLimited.maxSize) = 3) st.(ItemMap).

Lemma AddItem_spec key v st :
  items_ok st → items_ok (AddItem key v st) ∧ GetFirstItem key (AddItem key v st) = Some v ∧
  ∀ k, k ≠ key → GetFirstItem k (AddItem key v st) = GetFirstItem k st.
Proof.
  intros Hok. unfold AddItem. set (l := match ItemMap st !! key with Some l => l | None => SafeListLimited.New 3 end).
  assert (l.(SafeListLimited.maxSize) = 3) as Hm.
  { unfold l. destruct (ItemMap st !! key) as [l'|] eqn:E; [by apply Hok in E|done]. }
  assert (SafeListLimited.maxSize (SafeListLimited.PushFrontViolently v l).2 = 3 ∧
    SafeListLimited.Front (SafeListLimited.PushFrontViolently v l).2 = Some v) as [H1 H2].
  { unfold SafeListLimited.PushFrontViolently. case_match eqn:E; [|done]. split; [done|].
    rewrite Hm in E. apply Z.ltb_lt in E. unfold SafeListLimited.Front, SafeList.Front, SafeListLimited.with_SL. cbn [snd SafeListLimited.SL].
    unfold SafeList.Len, SafeList.PushFront in *. destruct (SafeListLimited.SL l) as [|w ws]; [cbn [length] in E; lia|].
    unfold SafeList.PopBack.
    destruct (last (v :: w :: ws)); done. }
  split_and!.
  - apply map_Forall_insert_2; done.
  - unfold GetFirstItem. cbn. by rewrite lookup_insert_eq.
  - intros k Hk. unfold GetFirstItem. cbn. by rewrite lookup_insert_ne.
Qed.

Section collect.
(** An API that knows the last point of each counter. *)
Context (last_of : string → string → option RRDData.t).
Definition api (args : list (string * string)) : result (list last_point) :=
  Ok ((λ a, Some (a.1, a.2, last_of a.1 a.2)) <$> args).

(** What is stored for a configured counter. *)
Definition point_of (cfg : NodataConfig.t) (fts : Z) : option DataItem.t :=
  v ← last_of cfg.(NodataConfig.Endpoint) (Tags.Counter cfg.(NodataConfig.Metric) cfg.(NodataConfig.Tags));
  Some (DataItem.mk v.(RRDData.Timestamp) v.(RRDData.Value) "OK" fts).

(** Every configuration is kept under the key of its counter ([syncNdConfig]). *)
Definition keyed (st : state) : Prop :=
  map_Forall (λ k c, k = PK c.(NodataConfig.Endpoint) c.(NodataConfig.Metric) c.(NodataConfig.Tags)) st.(NdConfigMap).

Lemma store_points_spec fts keys st st0 :
  items_ok st → keyed st → st0.(NdConfigMap) = st.(NdConfigMap) →
  let st' := foldl (store_point fts) st ((λ a, Some (a.1, a.2, last_of a.1 a.2)) <$> last_args keys st0) in
  items_ok st' ∧ st'.(NdConfigMap) = st.(NdConfigMap) ∧
  ∀ k, GetFirstItem k st' =
    match (if decide (k ∈ keys) then cfg ← GetNdConfig k st; point_of cfg fts else None) with
    | Some p => Some p
    | None => GetFirstItem k st
    end.
Proof.
  cbv zeta. revert st. induction keys as [|key keys IH]; intros st Hok Hk Hc.
  { split_and!; [done..|]. intros k. by rewrite decide_False by apply not_elem_of_nil. }
  unfold last_args. cbn [omap list_omap]. fold (last_args keys st0).
  assert (GetNdConfig key st0 = GetNdConfig key st) as -> by (unfold GetNdConfig; by rewrite Hc).
  destruct (GetNdConfig key st) as [cfg|] eqn:Ecfg; cbn [mbind option_bind].
  2:{ destruct (IH st Hok Hk Hc) as (H1 & H2 & H3). split_and!; [done..|]. intros k. rewrite H3.
      destruct (decide (k = key)) as [->|Hne].
      - rewrite Ecfg. cbn [mbind option_bind]. by repeat case_decide.
      - assert (k ∈ key :: keys ↔ k ∈ keys) as Hiff by (rewrite elem_of_cons; tauto).
        by rewrite (decide_ext _ _ _ _ Hiff). }
  cbn [fmap list_fmap foldl fst snd store_point].
  set (c := Tags.Counter _ _). assert (PK2 (NodataConfig.Endpoint cfg) c = key) as Ekey.
  { unfold c. rewrite PK2_Counter. symmetry. by apply Hk. }
  rewrite Ekey.
  set (st1 := match last_of (NodataConfig.Endpoint cfg) c with
    | Some v => AddItem key (DataItem.mk v.(RRDData.Timestamp) v.(RRDData.Value) "OK" fts) st | None => st end).
  change (match last_of (NodataConfig.Endpoint cfg) c with Some _ => _ | None => _ end) with st1.
  assert (items_ok st1 ∧ st1.(NdConfigMap) = st.(NdConfigMap) ∧ ∀ k, GetFirstItem k st1 =
    if decide (k = key) then match point_of cfg fts with Some p => Some p | None => GetFirstItem k st end
    else GetFirstItem k st) as (Hok1 & Hc1 & Hf1).
  { unfold st1, point_of. fold c. destruct (last_of _ c) as [v|]; cbn [mbind option_bind].
    - destruct (AddItem_spec key (DataItem.mk v.(RRDData.Timestamp) v.(RRDData.Value) "OK" fts) st Hok) as (H1 & H2 & H3).
      split_and!; [done..|]. intros k. case_decide as Hd; [by subst|by apply H3].
    - split_and!; [done..|]. intros k. by case_decide. }
  destruct (IH st1 Hok1) as (H1 & H2 & H3).
  { unfold keyed. by rewrite Hc1. } { congruence. }
  split_and!; [done|congruence|]. intros k. rewrite H3, Hf1.
  assert (GetNdConfig k st1 = GetNdConfig k st) as -> by (unfold GetNdConfig; by rewrite Hc1).
  destruct (decide (k = key)) as [->|Hne].
  - rewrite (decide_True (P := key ∈ key :: keys)) by left. rewrite Ecfg. cbn [mbind option_bind].
    case_decide; destruct (point_of cfg fts); done.
  - assert (k ∈ key :: keys ↔ k ∈ keys) as Hiff by (rewrite elem_of_cons; tauto).
    by rewrite (decide_ext _ _ _ _ Hiff).
Qed.

Lemma fetch_spec fts keys st :
  items_ok st → keyed st →
  let st' := (fetchItemsAndStore api fts keys st).2 in
  items_ok st' ∧ st'.(NdConfigMap) = st.(NdConfigMap) ∧
  ∀ k, GetFirstItem k st' =
    match (if decide (k ∈ keys) then cfg ← GetNdConfig k st; point_of cfg fts else None) with
    | Some p => Some p
    | None => GetFirstItem k st
    end.
Proof.
  intros Hok Hk. pose proof (store_points_spec fts keys st st Hok Hk eq_refl) as H. unfold fetchItemsAndStore.
  case_decide as Hl.
  { destruct keys; [|cbn in Hl; lia]. exact H. }
  case_decide as Ha; [|exact H]. destruct (last_args keys st) eqn:E; [|cbn in Ha; lia]. exact H.
Qed.

Definition run_batch (fts : nat → Z) (acc : list Z * state) (ib : nat * list string) : list Z * state :=
  let '(sizes, st) := acc in
  let '(size, _, st) := fetchItemsAndStore api (fts ib.1) ib.2 st in (sizes ++ [size], st).

Lemma run_batches fts bs j acc :
  items_ok acc.2 → keyed acc.2 →
  let r := foldl (run_batch fts) acc (imap (λ i b, ((j + i)%nat, b)) bs) in
  length r.1 = (length acc.1 + length bs)%nat ∧ r.2.(NdConfigMap) = acc.2.(NdConfigMap) ∧
  (∀ k cfg, k ∈ mjoin bs → GetNdConfig k acc.2 = Some cfg → ∃ i, ∀ p, point_of cfg (fts i) = Some p → GetFirstItem k r.2 = Some p) ∧
  (∀ k, k ∉ mjoin bs → GetFirstItem k r.2 = GetFirstItem k acc.2).
Proof.
  cbv zeta. revert j acc. induction bs as [|b bs IH]; intros j [sizes st] Hok Hk.
  { cbn. split_and!; [lia|done|by intros ? ? ?%not_elem_of_nil|done]. }
  cbn [imap foldl]. cbn [snd] in *.
  destruct (fetch_spec (fts (j + 0)%nat) b st Hok Hk) as (H1 & H2 & H3).
  assert (∃ sz, run_batch fts (sizes, st) ((j + 0)%nat, b) = (sizes ++ [sz], (fetchItemsAndStore api (fts (j + 0)%nat) b st).2)) as [sz ->].
  { unfold run_batch. cbn [fst snd]. destruct (fetchItemsAndStore _ _ _ _) as [[sz e] st']. by exists sz. }
  set (st1 := (fetchItemsAndStore api (fts (j + 0)%nat) b st).2) in *.
  destruct (IH (S j) (sizes ++ [sz], st1)) as (L1 & L2 & L3 & L4); [done|by unfold keyed; cbn; rewrite H2|].
  assert (imap ((λ i b, ((j + i)%nat, b)) ∘ S) bs = imap (λ i b, ((S j + i)%nat, b)) bs) as ->.
  { apply imap_ext. intros i x _. cbn. f_equal. lia. }
  set (r := foldl (run_batch fts) _ _) in *. cbn [fst snd] in *.
  split_and!.
  - rewrite L1, length_app. cbn. lia.
  - by rewrite L2.
  - intros k cfg Hin Ec. destruct (decide (k ∈ mjoin bs)) as [Hin'|Hni].
    + apply (L3 k cfg Hin'). unfold GetNdConfig. by rewrite H2.
    + change (mjoin (b :: bs)) with (b ++ mjoin bs) in Hin. apply elem_of_app in Hin as [Hin|]; [|done].
      exists (j + 0)%nat. intros p Hp. rewrite (L4 k Hni), H3, decide_True by done. rewrite Ec. cbn [mbind option_bind]. by rewrite Hp.
  - intros k Hni. change (mjoin (b :: bs)) with (b ++ mjoin bs) in Hni. apply not_elem_of_app in Hni as [Hb Hbs].
    by rewrite (L4 k Hbs), H3, decide_False.
Qed.

Lemma batchCnt_spec n batch : 0 <= n → 1 <= batch → batchCnt n batch = (n + batch - 1) / batch.
Proof. intros. unfold batchCnt. apply Z.quot_div_nonneg; lia. Qed.

End collect.

(** ** Concrete runs *)

Definition ex_ncfg : NodataConfig.t :=
  NodataConfig.mk 1 "alive" "host" "web" "agent.alive" ∅ "GAUGE" 60 (f64_of_Z (-1)).
Definition ex_late : state := State {["web/agent.alive" := ex_ncfg]}
  {["web/agent.alive" := SafeListLimited.mk 3 [DataItem.mk 1000 (f64_of_Z 1) "OK" 1990]]} ∅ ∅.
Definition ex_mock : JsonMetaData.t := mock_point 2000 ex_ncfg.

Example sendMock_terminates_witness :
  ∃ bs, sendMock 5 2 [("a", ex_mock); ("b", ex_mock); ("c", ex_mock)] id (λ b, None)
    (State ∅ ∅ ∅ (list_to_map [("a", ex_mock); ("b", ex_mock); ("c", ex_mock)]))
    = Some (Ret (bs, foldr Z.add 0 ((λ b, Z.of_nat (length b)) <$> bs), State ∅ ∅ ∅ ∅)).
Proof.
  destruct (sendMock_terminates 2 [("a", ex_mock); ("b", ex_mock); ("c", ex_mock)] id (λ b, None)
    (State ∅ ∅ ∅ (list_to_map [("a", ex_mock); ("b", ex_mock); ("c", ex_mock)])) 5) as [H _].
  - unfold ranges. cbn [MockMap]. symmetry. apply map_to_list_to_map.
    apply (bool_decide_unpack _). vm_compute. exact I.
  - vm_compute. reflexivity.
  - vm_compute. reflexivity.
  - destruct H as (bs & E & _); [vm_compute; discriminate|]. exists bs. exact E.
Defined.

(** A group and a host ask for the same counter: the host's rule wins. *)
Definition ex_rows : list (option MockRow) :=
  [Some (MockRow_ 1 "of-group" "web-servers" "group" "agent.alive" "" "GAUGE" 60 (f64_of_Z (-1)));
   Some (MockRow_ 2 "of-host" "web" "host" "agent.alive" "" "GAUGE" 60 (f64_of_Z (-2)))].

Example GetMockCfgFromDB_correct_witness :
  ∃ c, GetMockCfgFromDB (λ _, Ok [Some (5, "web")]) (λ _, Ok ex_rows) 1500000000 !! "web/agent.alive" = Some c ∧
    c.(NodataConfig.ObjType) ≠ "group".
Proof.
  destruct (GetMockCfgFromDB_correct (λ _, Ok [Some (5, "web")]) (λ _, Ok ex_rows) 1500000000 ex_rows "web/agent.alive"
    (λ _, eq_refl)) as (_ & _ & H & _).
  destruct (GetMockCfgFromDB (λ _, Ok [Some (5, "web")]) (λ _, Ok ex_rows) 1500000000 !! "web/agent.alive") as [c|] eqn:E;
    [|vm_compute in E; discriminate].
  exists c. split; [reflexivity|]. apply H; [reflexivity|].
  exists (NodataConfig.mk 2 "of-host" "host" "web" "agent.alive" ∅ "GAUGE" 60 (f64_of_Z (-2))). split; [|reflexivity].
  vm_compute. right. left.
Defined.

Example judge_correct_witness :
  ∃ st', judge 2000 ["web/agent.alive"] ex_late = Ret st' ∧ st'.(MockMap) !! "web/agent.alive" = Some ex_mock.
Proof.
  destruct (judge_correct 2000 ["web/agent.alive"] ex_late) as (st' & E & _ & H).
  - repeat constructor. by intros ?%not_elem_of_nil.
  - apply (bool_decide_unpack _). vm_compute. exact I.
  - exists st'. split; [exact E|]. destruct (H "web/agent.alive" ex_ncfg) as (_ & Hdue & _); [by left|reflexivity|].
    assert (view_of "web/agent.alive" st' = View (Some (NodataStatus.mk "web/agent.alive" "NODATA" 1 2000)) (Some ex_mock))
      as Hv by (apply Hdue; vm_compute; reflexivity).
    exact (f_equal vMock Hv).
Defined.


