(* ===== verification/Redis.v ===== *)
(** * Lists in redis

The queues between the judge and alarm, and inside alarm, are lists kept by
redis.  The server is not part of the program: the interface [Redis] names the
commands that the program sends, and [RedisLaws] what it relies on: [LPUSH]
adds at the head, [RPOP] takes from the tail, [BRPOP] takes from the first list
of several that is not empty, and a command that fails changes nothing.
[Server] is an implementation that satisfies the laws: lists in memory, and a
network that loses some of the commands. *)

From S2P Require Import Prelude GoFloat GoString Hash Tags Model Json.
From Stdlib Require Import Ascii.
From stdpp Require Import options.

(** An element of a list: JSON, or a text that is not. *)
Inductive text : Type :=
| Text (s : string)
| Encoded (j : json).

(** The answer to a command, as redigo gives it. *)
Inductive reply (A : Type) : Type :=
| Got (a : A)
| ErrNil
| Failed.
Arguments Got {A} _. Arguments ErrNil {A}. Arguments Failed {A}.

Class Redis (R : Type) := {
  (* the elements of a list, its head first *)
  content : R → string → list text;
  LPUSH : string → text → R → bool * R;
  RPOP : string → R → reply text * R;
  (* [ErrNil] when the command still waits for an element *)
  BRPOP : list string → R → reply (string * text) * R }.

Definition unchanged `{Redis R} (r r' : R) : Prop := ∀ q, content r' q = content r q.
Definition pushed `{Redis R} (q : string) (x : text) (r r' : R) : Prop :=
  content r' q = x :: content r q ∧ ∀ q', q' ≠ q → content r' q' = content r q'.
Definition popped `{Redis R} (q : string) (x : text) (r r' : R) : Prop :=
  content r q = content r' q ++ [x] ∧ ∀ q', q' ≠ q → content r' q' = content r q'.

Class RedisLaws (R : Type) `{Redis R} := {
  LPUSH_law q x r : let '(ok, r') := LPUSH q x r in if ok : bool then pushed q x r r' else unchanged r r';
  RPOP_law q r : match RPOP q r with
    | (Got x, r') => popped q x r r'
    | (ErrNil, r') => content r q = [] ∧ unchanged r r'
    | (Failed, r') => unchanged r r'
    end;
  BRPOP_law qs r : match BRPOP qs r with
    | (Got (q, x), r') => popped q x r r' ∧ ∃ before after, qs = before ++ q :: after ∧
                            Forall (λ q', content r q' = []) before
    | (ErrNil, r') => Forall (λ q, content r q = []) qs ∧ unchanged r r'
    | (Failed, r') => unchanged r r'
    end }.

(** A network that loses no command. *)
Class RedisUp (R : Type) `{Redis R} := {
  LPUSH_up q x r : (LPUSH q x r).1 = true;
  RPOP_up q r : (RPOP q r).1 ≠ Failed }.

(** ** Popping everything

The loop shared by the readers of a list: pop until the list is empty or the
command fails, skip what is not JSON of the type asked for. *)
Section pop.
Context `{Redis R} `{Json A}.

Definition Unmarshal_text (x : text) : result A :=
  match x with Text _ => Err errUnmarshal | Encoded j => Unmarshal j end.

(** The values among some texts. *)
Definition decoded (l : list text) : list A :=
  omap (λ x, match Unmarshal_text x with Ok a => Some a | Err _ => None end) l.

Fixpoint popAll (fuel : nat) (queue : string) (ret : list A) (r : R) : option (list A * R) :=
  match fuel with
  | O => None
  | S fuel =>
      match RPOP queue r with
      | (Failed, r) | (ErrNil, r) => Some (ret, r)
      | (Got reply, r) =>
          match reply with
          | Text "" | Text "nil" => popAll fuel queue ret r
          | _ =>
              match Unmarshal_text reply with
              | Err _ => popAll fuel queue ret r
              | Ok a => popAll fuel queue (ret ++ [a]) r
              end
          end
      end
  end.
End pop.

(** ** What popping everything does *)
Section pop_spec.
Context {R} `{HR : Redis R} {HL : RedisLaws R} `{Json A}.
Implicit Types (r : R).

Lemma decoded_app l1 l2 : decoded (A:=A) (l1 ++ l2) = decoded l1 ++ decoded l2.
Proof. apply omap_app. Qed.

Lemma popAll_step (fuel : nat) queue (ret : list A) r :
  popAll (S fuel) queue ret r =
    match RPOP queue r with
    | (Failed, r) | (ErrNil, r) => Some (ret, r)
    | (Got x, r) => popAll fuel queue (ret ++ decoded [x]) r
    end.
Proof.
  cbn [popAll]. destruct (RPOP queue r) as [[x| |] r1]; try done.
  assert (match Unmarshal_text (A:=A) x with Err _ => popAll fuel queue ret r1
          | Ok a => popAll fuel queue (ret ++ [a]) r1 end = popAll fuel queue (ret ++ decoded [x]) r1) as Hx.
  { unfold decoded. cbn. destruct (Unmarshal_text x); cbn; by rewrite ?app_nil_r. }
  rewrite <- Hx. destruct x as [s|j]; [|done]. by repeat case_match.
Qed.

(** The loop ends: every turn but the last takes an element.  The values come in
the order in which they were pushed, the oldest first; what was not popped
because the network failed is still there. *)
Lemma popAll_spec fuel queue (ret : list A) r :
  (length (content r queue) < fuel)%nat →
  ∃ taken r', popAll fuel queue ret r = Some (ret ++ decoded taken, r') ∧
    content r queue = content r' queue ++ reverse taken ∧
    (∀ q, q ≠ queue → content r' q = content r q) ∧
    (RedisUp R → content r' queue = []).
Proof using HL.
  revert ret r. induction fuel as [|fuel IH]; intros ret r Hf; [lia|].
  rewrite popAll_step. pose proof (RPOP_law queue r) as Hpop.
  destruct (RPOP queue r) as [[x| |] r1] eqn:E.
  - destruct Hpop as [Hc Ho].
    destruct (IH (ret ++ decoded [x]) r1) as (taken & r' & -> & Hq & Hoth & Hup).
    { rewrite Hc, length_app in Hf. cbn in Hf. lia. }
    exists (x :: taken), r'. split_and!; [| | |done].
    + by rewrite <- app_assoc, <- decoded_app.
    + by rewrite Hc, Hq, reverse_cons, app_assoc.
    + intros q Hne. by rewrite Hoth, Ho.
  - destruct Hpop as [Hc Hu]. exists [], r1. rewrite app_nil_r. split_and!; [done| |by intros|].
    + rewrite Hu. by rewrite app_nil_r.
    + intros _. by rewrite Hu.
  - exists [], r1. rewrite app_nil_r. split_and!; [done| |by intros|].
    + rewrite Hpop. by rewrite app_nil_r.
    + intros HUp. pose proof (RPOP_up queue r) as Hn. by rewrite E in Hn.
Qed.
End pop_spec.

(** ** An implementation of the interface *)

Module Server.
(** The lists, and the number of commands received so far. *)
Record t : Type := mk { lists : gmap string (list text); commands : nat }.
Definition list_of (s : t) (q : string) : list text := default [] (s.(lists) !! q).

Section server.
(** Does the n-th command reach the server? *)
Context (up : nat → bool).

Definition tick (s : t) : t := mk s.(lists) (S s.(commands)).
Definition lpush (q : string) (x : text) (s : t) : bool * t :=
  if up s.(commands) then (true, mk (<[q := x :: list_of s q]> s.(lists)) (S s.(commands)))
  else (false, tick s).
Definition rpop (q : string) (s : t) : reply text * t :=
  if up s.(commands) then
    match last (list_of s q) with
    | None => (ErrNil, tick s)
    | Some x => (Got x, mk (<[q := take (length (list_of s q) - 1) (list_of s q)]> s.(lists)) (S s.(commands)))
    end
  else (Failed, tick s).
Fixpoint brpop (qs : list string) (s : t) : reply (string * text) * t :=
  match qs with
  | [] => (ErrNil, tick s)
  | q :: qs =>
      match last (list_of s q) with
      | None => brpop qs s
      | Some x => (Got (q, x), mk (<[q := take (length (list_of s q) - 1) (list_of s q)]> s.(lists)) (S s.(commands)))
      end
  end.
Definition brpop_net (qs : list string) (s : t) : reply (string * text) * t :=
  if up s.(commands) then brpop qs s else (Failed, tick s).
End server.

Lemma list_of_insert q l s n q' :
  list_of (mk (<[q := l]> s) n) q' = if decide (q = q') then l else list_of (mk s n) q'.
Proof. unfold list_of. cbn. rewrite lookup_insert. by case_decide. Qed.

Lemma pop_last (l : list text) x : last l = Some x → l = take (length l - 1) l ++ [x].
Proof.
  intros [l' ->]%last_Some. rewrite length_app. cbn. replace (length l' + 1 - 1)%nat with (length l') by lia.
  by rewrite take_app_length.
Qed.
End Server.

Definition server (up : nat → bool) : Redis Server.t := {|
  content := Server.list_of; LPUSH := Server.lpush up; RPOP := Server.rpop up; BRPOP := Server.brpop_net up |}.

Lemma server_popped up q x s n :
  last (Server.list_of s q) = Some x →
  popped (H := server up) q x s
    (Server.mk (<[q := take (length (Server.list_of s q) - 1) (Server.list_of s q)]> s.(Server.lists)) n).
Proof.
  intros Hl. split.
  - cbn [content server]. rewrite Server.list_of_insert, decide_True by done. by apply Server.pop_last.
  - intros q' Hq. cbn [content server]. by rewrite Server.list_of_insert, decide_False.
Qed.

#[export] Instance server_laws up : RedisLaws Server.t (H := server up).
Proof.
  split.
  - intros q x s. cbn [LPUSH server]. unfold Server.lpush. destruct (up _); [|done].
    split; [|intros q' Hq]; cbn [content server]; rewrite Server.list_of_insert; by case_decide.
  - intros q s. cbn [RPOP server]. unfold Server.rpop. destruct (up _); [|done].
    destruct (last (Server.list_of s q)) as [x|] eqn:E; [by apply server_popped|].
    by apply last_None in E.
  - intros qs s. cbn [BRPOP server]. unfold Server.brpop_net. destruct (up _); [|done].
    induction qs as [|q qs IH]; [done|]. cbn [Server.brpop].
    destruct (last (Server.list_of s q)) as [x|] eqn:E.
    + split; [by apply server_popped|]. by exists [], qs.
    + apply last_None in E. destruct (Server.brpop qs s) as [[[q' x]| |] s'].
      * destruct IH as (Hp & before & after & -> & Hb). split; [done|].
        exists (q :: before), after. split; [done|]. by constructor.
      * destruct IH as [HF Hu]. split; [by constructor|done].
      * done.
Qed.

#[export] Instance server_up : RedisUp Server.t (H := server (λ _, true)).
Proof. split; [done|]. intros q s. cbn. unfold Server.rpop. by destruct (last _). Qed.
