(* ===== verification/Alarm.v ===== *)
(** * Alarm: from events to messages (modules/alarm)

[cron] pops the events that judge pushed, most urgent queue first, records them
in the database and tells the users of the teams concerned: at once when the
event is urgent ([consumeHighEvents]), else through a queue per medium whose
messages are combined every minute ([combineSms], [combineMail], [combineIM]).
[redi] writes and reads the queues of ready messages, [api] asks the API for
actions and users and falls back on what it answered last.

Redis is used through the interface of [Redis]; what the API, a callback or the
link service answers is an argument indexed by the number of requests made so
far; the statements for the database are recorded in the state. *)

From S2P Require Import Prelude GoFloat GoString Hash Tags Model Json Redis.
From Stdlib Require Import Ascii.
From stdpp Require Import options.

(** ** Data (model, cron/model.go, api) *)

Module Sms.
Record t : Set := mk { Tos : string; Content : string }.
#[global] Instance json : Json t := json_struct (mk "" "") [
  field_of "tos" Tos (λ x a, mk x a.(Content)); field_of "content" Content (λ x a, mk a.(Tos) x) ].
End Sms.

Module IM.
Record t : Set := mk { Tos : string; Content : string }.
#[global] Instance json : Json t := json_struct (mk "" "") [
  field_of "tos" Tos (λ x a, mk x a.(Content)); field_of "content" Content (λ x a, mk a.(Tos) x) ].
End IM.

Module Mail.
Record t : Set := mk { Tos : string; Subject : string; Content : string }.
#[global] Instance json : Json t := json_struct (mk "" "" "") [
  field_of "tos" Tos (λ x a, mk x a.(Subject) a.(Content));
  field_of "subject" Subject (λ x a, mk a.(Tos) x a.(Content));
  field_of "content" Content (λ x a, mk a.(Tos) a.(Subject) x) ].
End Mail.

Module SmsDto.
Record t : Set := mk { Priority : Z; Metric : string; Content : string; Phone : string; Status : string }.
#[global] Instance json : Json t := json_struct (mk 0 "" "" "" "") [
  field_of "priority" Priority (λ x '(mk _ b c d e), mk x b c d e);
  field_of "metric" Metric (λ x '(mk a _ c d e), mk a x c d e);
  field_of "content" Content (λ x '(mk a b _ d e), mk a b x d e);
  field_of "phone" Phone (λ x '(mk a b c _ e), mk a b c x e);
  field_of "status" Status (λ x '(mk a b c d _), mk a b c d x) ].
End SmsDto.

Module ImDto.
Record t : Set := mk { Priority : Z; Metric : string; Content : string; IM : string; Status : string }.
#[global] Instance json : Json t := json_struct (mk 0 "" "" "" "") [
  field_of "priority" Priority (λ x '(mk _ b c d e), mk x b c d e);
  field_of "metric" Metric (λ x '(mk a _ c d e), mk a x c d e);
  field_of "content" Content (λ x '(mk a b _ d e), mk a b x d e);
  field_of "im" IM (λ x '(mk a b c _ e), mk a b c x e);
  field_of "status" Status (λ x '(mk a b c d _), mk a b c d x) ].
End ImDto.

Module MailDto.
Record t : Set := mk {
  Priority : Z; Metric : string; Subject : string; Content : string; Email : string; Status : string }.
#[global] Instance json : Json t := json_struct (mk 0 "" "" "" "" "") [
  field_of "priority" Priority (λ x '(mk _ b c d e f), mk x b c d e f);
  field_of "metric" Metric (λ x '(mk a _ c d e f), mk a x c d e f);
  field_of "subject" Subject (λ x '(mk a b _ d e f), mk a b x d e f);
  field_of "content" Content (λ x '(mk a b c _ e f), mk a b c x e f);
  field_of "email" Email (λ x '(mk a b c d _ f), mk a b c d x f);
  field_of "status" Status (λ x '(mk a b c d e _), mk a b c d e x) ].
End MailDto.

Module User.
Record t : Set := mk {
  ID : Z; Name : string; Cnname : string; Passwd : string; Email : string; Phone : string;
  IM : string; QQ : string; Role : Z }.
End User.

Module Action.
Record t : Set := mk {
  Id : Z; Uic : string; Url : string; Callback : Z;
  BeforeCallbackSms : Z; BeforeCallbackMail : Z; AfterCallbackSms : Z; AfterCallbackMail : Z }.
End Action.

(** A statement for the database: its table and its columns with their values. *)
Inductive arg : Set :=
| AString (s : string)
| AInt (z : Z).

Inductive statement : Set :=
| Insert (table : string) (row : list (string * arg))
| Update (table : string) (sets : list (string * arg)) (id : string)
| DeleteOlder (table : string) (before : string) (limit : Z).

(** ** Configuration and state *)

Record config : Set := Config {
  HighQueues : list string; LowQueues : list string;
  UserIMQueue : string; UserSmsQueue : string; UserMailQueue : string; Dashboard : string }.

Definition SMS_QUEUE_NAME : string := "/sms".
Definition IM_QUEUE_NAME : string := "/im".
Definition MAIL_QUEUE_NAME : string := "/mail".

Record state (R : Type) : Type := State {
  redis : R;
  Users : gmap string (list User.t);
  Actions : gmap Z Action.t;
  (* the requests to the API and to callbacks made so far *)
  calls : nat;
  (* the callbacks requested, with their parameters *)
  requests : list (string * list (string * string));
  statements : list statement }.
Arguments State {R}. Arguments redis {R}. Arguments Users {R}. Arguments Actions {R}.
Arguments calls {R}. Arguments requests {R}. Arguments statements {R}.

(** What the surroundings answer: the time zone's rendering of a time, the
replies of the n-th request, and the orders in which maps and sets are visited. *)
Record env : Type := Env {
  format_time : Z → string;
  curl_team : nat → string → option (list User.t);
  curl_action : nat → Z → option Action.t;
  curl_callback : nat → string → list (string * string) → string * option error;
  store_link : nat → string → result string;
  visit_users : nat → gmap string User.t → list (string * User.t);
  visit_set : nat → nat → gset string → list string;
  visit_tags : nat → tagmap → list (string * string) }.

(** ** Texts (cron/builder.go, g/eventdto.go) *)

Definition crlf : string := String (ascii_of_nat 13) (String (ascii_of_nat 10) "").

Section texts.
Context (cfg : config) (E : env).

Definition Link (event : Event.t) : go string :=
  tplId ← Event.TplId event;
  if decide (tplId ≠ 0) then Ret (cfg.(Dashboard) +:+ "/portal/template/view/" +:+ Itoa tplId)
  else
    let eid := Event.ExpressionId event in
    if decide (eid ≠ 0) then Ret (cfg.(Dashboard) +:+ "/portal/expression/view/" +:+ Itoa eid)
    else Ret "".

Definition BuildCommonSMSContent (event : Event.t) : go string :=
  priority ← Event.Priority event;
  note ← Event.Note event;
  func ← Event.Func event;
  metric ← Event.Metric event;
  operator ← Event.Operator event;
  right ← Event.RightValue event;
  Ret ("[P" +:+ Itoa priority +:+ "][" +:+ event.(Event.Status) +:+ "][" +:+ event.(Event.Endpoint) +:+ "][]["
       +:+ note +:+ " " +:+ func +:+ " " +:+ metric +:+ " " +:+ SortedTags event.(Event.PushedTags) +:+ " "
       +:+ ReadableFloat event.(Event.LeftValue) +:+ operator +:+ ReadableFloat right +:+ "][O"
       +:+ Itoa event.(Event.CurrentStep) +:+ " " +:+ E.(format_time) event.(Event.EventTime) +:+ "]").

Definition BuildCommonIMContent : Event.t → go string := BuildCommonSMSContent.

Definition BuildCommonMailContent (event : Event.t) : go string :=
  link ← Link event;
  priority ← Event.Priority event;
  metric ← Event.Metric event;
  func ← Event.Func event;
  operator ← Event.Operator event;
  right ← Event.RightValue event;
  note ← Event.Note event;
  maxStep ← Event.MaxStep event;
  Ret (event.(Event.Status) +:+ crlf +:+ "P" +:+ Itoa priority +:+ crlf
       +:+ "Endpoint:" +:+ event.(Event.Endpoint) +:+ crlf
       +:+ "Metric:" +:+ metric +:+ crlf
       +:+ "Tags:" +:+ SortedTags event.(Event.PushedTags) +:+ crlf
       +:+ func +:+ ": " +:+ ReadableFloat event.(Event.LeftValue) +:+ operator +:+ ReadableFloat right +:+ crlf
       +:+ "Note:" +:+ note +:+ crlf
       +:+ "Max:" +:+ Itoa maxStep +:+ ", Current:" +:+ Itoa event.(Event.CurrentStep) +:+ crlf
       +:+ "Timestamp:" +:+ E.(format_time) event.(Event.EventTime) +:+ crlf
       +:+ link +:+ crlf).

Definition GenerateSmsContent : Event.t → go string := BuildCommonSMSContent.
Definition GenerateMailContent : Event.t → go string := BuildCommonMailContent.
Definition GenerateIMContent : Event.t → go string := BuildCommonIMContent.
End texts.

(** ** Operations on the state *)

Section alarm.
Context {R : Type} `{Redis R} (cfg : config) (E : env).
Abbreviation state := (state R).

Definition set_redis (r : R) (st : state) : state :=
  State r st.(Users) st.(Actions) st.(calls) st.(requests) st.(statements).
Definition set_Users (m : gmap string (list User.t)) (st : state) : state :=
  State st.(redis) m st.(Actions) st.(calls) st.(requests) st.(statements).
Definition set_Actions (m : gmap Z Action.t) (st : state) : state :=
  State st.(redis) st.(Users) m st.(calls) st.(requests) st.(statements).
Definition called (st : state) : state :=
  State st.(redis) st.(Users) st.(Actions) (S st.(calls)) st.(requests) st.(statements).
Definition request (url : string) (params : list (string * string)) (st : state) : state :=
  State st.(redis) st.(Users) st.(Actions) (S st.(calls)) (st.(requests) ++ [(url, params)]) st.(statements).
Definition execute (s : statement) (st : state) : state :=
  State st.(redis) st.(Users) st.(Actions) st.(calls) st.(requests) (st.(statements) ++ [s]).

(** *** redi/msg_writer.go *)

Definition lpush (queue : string) (message : text) (st : state) : state :=
  set_redis (LPUSH queue message st.(redis)).2 st.

(** [json.Marshal] and [lpush]; an error of the former is logged *)
Definition write `{Json A} (queue : string) (a : A) (st : state) : state :=
  match Marshal a with
  | Ok bs => lpush queue (Encoded bs) st
  | Err _ => st
  end.

Definition WriteSmsModel (sms : option Sms.t) (st : state) : state :=
  match sms with Some sms => write SMS_QUEUE_NAME sms st | None => st end.
Definition WriteIMModel (im : option IM.t) (st : state) : state :=
  match im with Some im => write IM_QUEUE_NAME im st | None => st end.
Definition WriteMailModel (mail : option Mail.t) (st : state) : state :=
  match mail with Some mail => write MAIL_QUEUE_NAME mail st | None => st end.

Definition WriteSms (tos : list string) (content : string) (st : state) : state :=
  if decide (length tos = 0%nat) then st
  else WriteSmsModel (Some (Sms.mk (join "," tos) content)) st.
Definition WriteIM (tos : list string) (content : string) (st : state) : state :=
  if decide (length tos = 0%nat) then st
  else WriteIMModel (Some (IM.mk (join "," tos) content)) st.
Definition WriteMail (tos : list string) (subject content : string) (st : state) : state :=
  if decide (length tos = 0%nat) then st
  else WriteMailModel (Some (Mail.mk (join "," tos) subject content)) st.

(** *** redi/msg_reader.go: each reader with its queue *)

Definition pop_all `{Json A} (fuel : nat) (queue : string) (st : state) : option (list A * state) :=
  match popAll fuel queue [] st.(redis) with
  | Some (l, r) => Some (l, set_redis r st)
  | None => None
  end.

Definition PopAllSms (fuel : nat) (st : state) : option (list Sms.t * state) := pop_all fuel SMS_QUEUE_NAME st.
Definition PopAllIM (fuel : nat) (st : state) : option (list IM.t * state) := pop_all fuel IM_QUEUE_NAME st.
Definition PopAllMail (fuel : nat) (st : state) : option (list Mail.t * state) := pop_all fuel MAIL_QUEUE_NAME st.

(** *** api/uic.go *)

Definition CurlUic (team : string) (st : state) : option (list User.t) * state :=
  if decide (team = "") then (Some [], st) else (E.(curl_team) st.(calls) team, called st).

Definition UsersOf (team : string) (st : state) : option (list User.t) * state :=
  let '(users, st) := CurlUic team st in
  match users with
  | Some l => (users, set_Users (<[team := l]> st.(Users)) st)
  | None => (st.(Users) !! team, st)
  end.

(** the body of the loop over the teams *)
Definition team_users (m : gmap string User.t * state) (team : string) : gmap string User.t * state :=
  let '(userMap, st) := m in
  if decide (team = "") then (userMap, st)
  else
    let '(users, st) := UsersOf team st in
    match users with
    | None => (userMap, st)
    | Some users => (foldl (λ m user, <[user.(User.Name) := user]> m) userMap users, st)
    end.

Definition GetUsers (teams : string) (st : state) : gmap string User.t * state :=
  foldl team_users (∅, st) (split "," teams).

Definition add_nonempty (s : string) (X : gset string) : gset string :=
  if decide (s ≠ "") then {[s]} ∪ X else X.

Definition ParseTeams (teams : string) (st : state) : list string * list string * list string * state :=
  if decide (teams = "") then ([], [], [], st)
  else
    let '(userMap, st) := GetUsers teams st in
    let users := (E.(visit_users) st.(calls) userMap).*2 in
    let phoneSet := foldl (λ X user, add_nonempty user.(User.Phone) X) ∅ users in
    let mailSet := foldl (λ X user, add_nonempty user.(User.Email) X) ∅ users in
    let imSet := foldl (λ X user, add_nonempty user.(User.IM) X) ∅ users in
    let ToSlice i X := E.(visit_set) st.(calls) i X in
    (ToSlice 0%nat phoneSet, ToSlice 1%nat mailSet, ToSlice 2%nat imSet, st).

(** *** api/portal.go *)

Definition CurlAction (id : Z) (st : state) : option Action.t * state :=
  if id <=? 0 then (None, st) else (E.(curl_action) st.(calls) id, called st).

Definition GetAction (id : Z) (st : state) : option Action.t * state :=
  let '(action, st) := CurlAction id st in
  match action with
  | Some a => (action, set_Actions (<[id := a]> st.(Actions)) st)
  | None => (st.(Actions) !! id, st)
  end.

(** *** cron/callback.go *)

Definition Callback (event : Event.t) (action : Action.t) (st : state) : go (string * state) :=
  if decide (action.(Action.Url) = "") then Ret ("callback url is blank", st)
  else
    let L := (λ kv, kv.1 +:+ ":" +:+ kv.2) <$> E.(visit_tags) st.(calls) event.(Event.PushedTags) in
    let tags := join "," L in
    metric ← Event.Metric event;
    priority ← Event.Priority event;
    tpl_id ← Event.TplId event;
    let params := [
      ("endpoint", event.(Event.Endpoint)); ("metric", metric); ("status", event.(Event.Status));
      ("step", Itoa event.(Event.CurrentStep)); ("priority", Itoa priority);
      ("time", E.(format_time) event.(Event.EventTime)); ("tpl_id", Itoa tpl_id);
      ("exp_id", Itoa (Event.ExpressionId event)); ("stra_id", Itoa (Event.StrategyId event)); ("tags", tags) ] in
    let '(resp, e) := E.(curl_callback) st.(calls) action.(Action.Url) params in
    let success := match e with Some e => "fail:" +:+ e | None => "success" end in
    Ret ("curl " +:+ action.(Action.Url) +:+ " " +:+ success +:+ ". resp: " +:+ resp,
         request action.(Action.Url) params st).

Definition HandleCallback (event : Event.t) (action : Action.t) (st : state) : go state :=
  let teams := action.(Action.Uic) in
  before ←
    (if decide (teams ≠ "") then
       let '(phones, mails, ims, st) := ParseTeams teams st in
       smsContent ← GenerateSmsContent E event;
       mailContent ← GenerateMailContent cfg E event;
       imContent ← GenerateIMContent E event;
       let st :=
         if decide (action.(Action.BeforeCallbackSms) = 1)
         then WriteIM ims imContent (WriteSms phones smsContent st) else st in
       let st :=
         if decide (action.(Action.BeforeCallbackMail) = 1)
         then WriteMail mails smsContent mailContent st else st in
       Ret (phones, mails, ims, st)
     else Ret ([], [], [], st));
  let '(phones, mails, ims, st) := before in
  called ← Callback event action st;
  let '(message, st) := called in
  if decide (teams ≠ "") then
    let st :=
      if decide (action.(Action.AfterCallbackSms) = 1)
      then WriteIM ims message (WriteSms phones message st) else st in
    Ret (if decide (action.(Action.AfterCallbackMail) = 1) then WriteMail mails message message st else st)
  else Ret st.

(** *** cron/event_consumer.go *)

Definition consumeHighEvents (event : Event.t) (action : Action.t) (st : state) : go state :=
  if decide (action.(Action.Uic) = "") then Ret st
  else
    let '(phones, mails, ims, st) := ParseTeams action.(Action.Uic) st in
    smsContent ← GenerateSmsContent E event;
    mailContent ← GenerateMailContent cfg E event;
    imContent ← GenerateIMContent E event;
    priority ← Event.Priority event;
    let st := if priority <? 3 then WriteSms phones smsContent st else st in
    Ret (WriteMail mails smsContent mailContent (WriteIM ims imContent st)).

(** One message per user, in the order in which the map is visited. *)
Definition write_users `{Json A} (queue : string) (dto : User.t → A) (userMap : gmap string User.t) (st : state) : state :=
  foldl (λ st kv, write queue (dto kv.2) st) st (E.(visit_users) st.(calls) userMap).

Definition ParseUserSms (event : Event.t) (action : Action.t) (st : state) : go state :=
  let '(userMap, st) := GetUsers action.(Action.Uic) st in
  content ← GenerateSmsContent E event;
  metric ← Event.Metric event;
  let status := event.(Event.Status) in
  priority ← Event.Priority event;
  Ret (write_users cfg.(UserSmsQueue)
         (λ user, SmsDto.mk priority metric content user.(User.Phone) status) userMap st).

Definition ParseUserMail (event : Event.t) (action : Action.t) (st : state) : go state :=
  let '(userMap, st) := GetUsers action.(Action.Uic) st in
  metric ← Event.Metric event;
  subject ← GenerateSmsContent E event;
  content ← GenerateMailContent cfg E event;
  let status := event.(Event.Status) in
  priority ← Event.Priority event;
  Ret (write_users cfg.(UserMailQueue)
         (λ user, MailDto.mk priority metric subject content user.(User.Email) status) userMap st).

Definition ParseUserIm (event : Event.t) (action : Action.t) (st : state) : go state :=
  let '(userMap, st) := GetUsers action.(Action.Uic) st in
  content ← GenerateIMContent E event;
  metric ← Event.Metric event;
  let status := event.(Event.Status) in
  priority ← Event.Priority event;
  Ret (write_users cfg.(UserIMQueue)
         (λ user, ImDto.mk priority metric content user.(User.IM) status) userMap st).

Definition consumeLowEvents (event : Event.t) (action : Action.t) (st : state) : go state :=
  if decide (action.(Action.Uic) = "") then Ret st
  else
    priority ← Event.Priority event;
    st ← (if priority <? 3 then ParseUserSms event action st else Ret st);
    st ← ParseUserIm event action st;
    ParseUserMail event action st.

Definition consume (event : Event.t) (isHigh : bool) (st : state) : go state :=
  actionId ← Event.ActionId event;
  if actionId <=? 0 then Ret st
  else
    let '(action, st) := GetAction actionId st in
    match action with
    | None => Ret st
    | Some action =>
        st ← (if decide (action.(Action.Callback) = 1) then HandleCallback event action st else Ret st);
        if isHigh then consumeHighEvents event action st else consumeLowEvents event action st
    end.

(** *** cron/combiner.go *)

Definition popAllSmsDto (fuel : nat) (st : state) : option (list SmsDto.t * state) := pop_all fuel cfg.(UserSmsQueue) st.
Definition popAllMailDto (fuel : nat) (st : state) : option (list MailDto.t * state) := pop_all fuel cfg.(UserMailQueue) st.
Definition popAllImDto (fuel : nat) (st : state) : option (list ImDto.t * state) := pop_all fuel cfg.(UserIMQueue) st.

(** [fmt.Sprintf("%d%s%s%s", Priority, Status, receiver, Metric)] *)
Definition dto_key (priority : Z) (status receiver metric : string) : string :=
  Itoa priority +:+ status +:+ receiver +:+ metric.

Definition sms_key (d : SmsDto.t) : string :=
  dto_key d.(SmsDto.Priority) d.(SmsDto.Status) d.(SmsDto.Phone) d.(SmsDto.Metric).
Definition im_key (d : ImDto.t) : string :=
  dto_key d.(ImDto.Priority) d.(ImDto.Status) d.(ImDto.IM) d.(ImDto.Metric).
Definition mail_key (d : MailDto.t) : string :=
  dto_key d.(MailDto.Priority) d.(MailDto.Status) d.(MailDto.Email) d.(MailDto.Metric).

Definition dtoMap {A} (key : A → string) (dtos : list A) : gmap string (list A) :=
  group_by ((λ d, (key d, d)) <$> dtos) ∅.

(** [strings.Split(s, "][")] *)
Fixpoint split_brackets (s : string) : list string :=
  match s with
  | "" => [""]
  | String "]" (String "[" s) => "" :: split_brackets s
  | String a s =>
      match split_brackets s with
      | h :: t => String a h :: t
      | [] => [String a ""]
      end
  end.

(** The third part of a short message: its endpoint. *)
Definition example_endpoint (first : string) : go string :=
  let t := split_brackets first in
  if 3 <=? Z.of_nat (length t) then at_index t 2 else Ret "".

Definition combined_text (priority : Z) (status : string) (size : nat) (metric eg : string)
    (link : result string) : string :=
  match (match link with Ok path => if decide (path = "") then None else Some path | Err _ => None end) with
  | None =>
      "[P" +:+ Itoa priority +:+ "][" +:+ status +:+ "] " +:+ Itoa (Z.of_nat size) +:+ " " +:+ metric
      +:+ ".  e.g. " +:+ eg +:+ ". detail in email"
  | Some path =>
      "[P" +:+ Itoa priority +:+ "][" +:+ status +:+ "] " +:+ Itoa (Z.of_nat size) +:+ " " +:+ metric
      +:+ " e.g. " +:+ eg +:+ " " +:+ cfg.(Dashboard) +:+ "/portal/links/" +:+ path +:+ " "
  end.

Definition LinkToSMS (content : string) (st : state) : result string * state :=
  (E.(store_link) st.(calls) content, called st).

Definition combineSms_group (arr : list SmsDto.t) (st : state) : go state :=
  let size := length arr in
  d0 ← at_index arr 0;
  if decide (size = 1%nat) then Ret (WriteSms [d0.(SmsDto.Phone)] d0.(SmsDto.Content) st)
  else
    let content := join ",," (SmsDto.Content <$> arr) in
    eg ← example_endpoint d0.(SmsDto.Content);
    let '(link, st) := LinkToSMS content st in
    Ret (WriteSms [d0.(SmsDto.Phone)]
           (combined_text d0.(SmsDto.Priority) d0.(SmsDto.Status) size d0.(SmsDto.Metric) eg link) st).

Definition combineIM_group (arr : list ImDto.t) (st : state) : go state :=
  let size := length arr in
  d0 ← at_index arr 0;
  if decide (size = 1%nat) then Ret (WriteIM [d0.(ImDto.IM)] d0.(ImDto.Content) st)
  else
    let content := join ",," (ImDto.Content <$> arr) in
    eg ← example_endpoint d0.(ImDto.Content);
    let '(link, st) := LinkToSMS content st in
    Ret (WriteIM [d0.(ImDto.IM)]
           (combined_text d0.(ImDto.Priority) d0.(ImDto.Status) size d0.(ImDto.Metric) eg link) st).

Definition combineMail_group (arr : list MailDto.t) (st : state) : go state :=
  let size := length arr in
  d0 ← at_index arr 0;
  if decide (size = 1%nat)
  then Ret (WriteMail [d0.(MailDto.Email)] d0.(MailDto.Subject) d0.(MailDto.Content) st)
  else
    let subject := "[P" +:+ Itoa d0.(MailDto.Priority) +:+ "][" +:+ d0.(MailDto.Status) +:+ "] "
                   +:+ Itoa (Z.of_nat size) +:+ " " +:+ d0.(MailDto.Metric) in
    let content := join crlf (MailDto.Content <$> arr) in
    Ret (WriteMail [d0.(MailDto.Email)] subject content st).

(** The three combiners: [visit] is the order in which the groups are visited. *)
Definition combine {A} (key : A → string) (group : list A → state → go state)
    (visit : gmap string (list A) → list (string * list A)) (popped : option (list A * state)) : option (go state) :=
  match popped with
  | None => None
  | Some (dtos, st) =>
      if decide (length dtos = 0%nat) then Some (Ret st)
      else Some (go_foldl (λ st kv, group kv.2 st) st (visit (dtoMap key dtos)))
  end.

Definition combineSms (fuel : nat) visit (st : state) : option (go state) :=
  combine sms_key combineSms_group visit (popAllSmsDto fuel st).
Definition combineIM (fuel : nat) visit (st : state) : option (go state) :=
  combine im_key combineIM_group visit (popAllImDto fuel st).
Definition combineMail (fuel : nat) visit (st : state) : option (go state) :=
  combine mail_key combineMail_group visit (popAllMailDto fuel st).

(** *** model/event/event_operation.go *)

Definition counterGen (metric tags : string) : string :=
  if decide (tags ≠ "") then metric +:+ "/" +:+ tags else metric.

Definition event_cond (eve : Event.t) : go string :=
  operator ← Event.Operator eve;
  right ← Event.RightValue eve;
  Ret (FormatG eve.(Event.LeftValue) +:+ " " +:+ operator +:+ " " +:+ FormatG right).

Definition insertEvent (eve : Event.t) (st : state) : go state :=
  let status := if decide (eve.(Event.Status) = "OK") then 1 else 0 in
  cond ← event_cond eve;
  Ret (execute (Insert "events" [
    ("event_caseId", AString eve.(Event.Id)); ("step", AInt eve.(Event.CurrentStep)); ("cond", AString cond);
    ("status", AInt status); ("timestamp", AString (E.(format_time) eve.(Event.EventTime)))]) st).

Definition tpl_creator (eve : Event.t) : string :=
  match Event.Tpl eve with Some tpl => tpl.(Template.Creator) | None => "" end.

(** [cases]: the process status of the rows of [event_cases] with the event's id. *)
Definition InsertEvent (cases : list string) (eve : Event.t) (st : state) : go state :=
  let time := E.(format_time) eve.(Event.EventTime) in
  metric ← Event.Metric eve;
  func ← Event.Func eve;
  cond ← event_cond eve;
  note ← Event.Note eve;
  max_step ← Event.MaxStep eve;
  priority ← Event.Priority eve;
  template_id ← Event.TplId eve;
  let st :=
    match cases with
    | [] =>
        execute (Insert "event_cases" [
          ("id", AString eve.(Event.Id)); ("endpoint", AString eve.(Event.Endpoint));
          ("metric", AString (counterGen metric (SortedTags eve.(Event.PushedTags))));
          ("func", AString func); ("cond", AString cond); ("note", AString note);
          ("max_step", AInt max_step); ("current_step", AInt eve.(Event.CurrentStep));
          ("priority", AInt priority); ("status", AString eve.(Event.Status));
          ("timestamp", AString time); ("update_at", AString time);
          ("tpl_creator", AString (tpl_creator eve)); ("expression_id", AInt (Event.ExpressionId eve));
          ("strategy_id", AInt (Event.StrategyId eve)); ("template_id", AInt template_id)]) st
    | process_status :: _ =>
        let sets := [
          ("update_at", AString time); ("max_step", AInt max_step);
          ("current_step", AInt eve.(Event.CurrentStep)); ("note", AString note); ("cond", AString cond);
          ("status", AString eve.(Event.Status)); ("func", AString func); ("priority", AInt priority);
          ("tpl_creator", AString (tpl_creator eve)); ("expression_id", AInt (Event.ExpressionId eve));
          ("strategy_id", AInt (Event.StrategyId eve)); ("template_id", AInt template_id)] in
        (* reopen case *)
        let sets :=
          if decide (process_status = "resolved" ∨ process_status = "ignored")
          then sets ++ [("process_status", AString "unresolved"); ("process_note", AInt 0)] else sets in
        let sets :=
          if decide (eve.(Event.CurrentStep) = 1) then sets ++ [("timestamp", AString time)] else sets in
        execute (Update "event_cases" sets eve.(Event.Id)) st
    end in
  insertEvent eve st.

(** [now] and durations are nanoseconds. *)
Definition CleanExpiredEvent (now retention_days delete_batch : Z) (st : state) : state :=
  let before := now + wrap64 (- retention_days * 24) *₆₄ 3600000000000 in
  execute (DeleteOlder "events" (E.(format_time) (before / 1000000000)) delete_batch) st.

(** *** cron/event_reader.go *)

(** The answers to a pop: an event, an error, or the command still waits. *)
Inductive pop_result : Type :=
| Popped (event : Event.t)
| PopError
| Waiting.

Definition popEvent (select : string → list string) (queues : list string) (st : state) : go (pop_result * state) :=
  let '(reply, r) := BRPOP queues st.(redis) in
  let st := set_redis r st in
  match reply with
  | Failed => Ret (PopError, st)
  | ErrNil => Ret (Waiting, st)
  | Got (_, x) =>
      match Unmarshal_text x with
      | Err _ => Ret (PopError, st)
      | Ok event => st ← InsertEvent (select event.(Event.Id)) event st; Ret (Popped event, st)
      end
  end.

(** One turn of the endless loops of [ReadHighEvent] and [ReadLowEvent]. *)
Definition ReadEvent (isHigh : bool) (select : string → list string) (st : state) : go state :=
  let queues := if isHigh then cfg.(HighQueues) else cfg.(LowQueues) in
  if decide (length queues = 0%nat) then Ret st
  else
    r ← popEvent select queues st;
    match r.1 with
    | Popped event => consume event isHigh r.2
    | PopError | Waiting => Ret r.2
    end.
Definition ReadHighEvent : (string → list string) → state → go state := ReadEvent true.
Definition ReadLowEvent : (string → list string) → state → go state := ReadEvent false.
End alarm.

(** ** Sending ready messages (cron/*_sender.go)

A sender takes all the messages that are ready and starts a goroutine for each,
after it has put a token in a channel of [cap] places; the goroutine posts its
message and takes a token out. *)
Section sender.
Context {M : Type} (cap : nat).

Record sender : Type := Sender {
  (* popped and not yet handed to a goroutine *)
  pending : list M;
  (* the tokens in the channel *)
  tokens : nat;
  (* the messages of the goroutines that run *)
  running : list M;
  (* the messages posted, in order *)
  posted : list M }.

(** A step and the messages it popped. *)
Inductive sender_step : sender → list M → sender → Prop :=
| SPop l s : s.(pending) = [] →
    sender_step s l (Sender l s.(tokens) s.(running) s.(posted))
| SStart m l s : s.(pending) = m :: l → (s.(tokens) < cap)%nat →
    sender_step s [] (Sender l (S s.(tokens)) (s.(running) ++ [m]) s.(posted))
| SDone r1 m r2 n s : s.(running) = r1 ++ m :: r2 → s.(tokens) = S n →
    sender_step s [] (Sender s.(pending) n (r1 ++ r2) (s.(posted) ++ [m])).

(** The states that a sender reaches from its start, with all it popped so far. *)
Inductive sends : list M → sender → Prop :=
| sends_start : sends [] (Sender [] 0 [] [])
| sends_step popped s l s' : sends popped s → sender_step s l s' → sends (popped ++ l) s'.
End sender.
Arguments sender M : clear implicits.

(** The three senders. *)
Definition ConsumeSms (cap : nat) : sender Sms.t → list Sms.t → sender Sms.t → Prop := sender_step cap.
Definition ConsumeIM (cap : nat) : sender IM.t → list IM.t → sender IM.t → Prop := sender_step cap.
Definition ConsumeMail (cap : nat) : sender Mail.t → list Mail.t → sender Mail.t → Prop := sender_step cap.
