(* ===== verification/AlarmEvents.v ===== *)
(** * From judge to alarm: the events on the queues

The judge pushes encoded events to the queues of their priorities, alarm pops
and decodes them.  The file shows that the events of a judge that got its
strategies from hbs (each with a template, every integer in range) survive the
way, and that none of them makes alarm panic: [judge_event_reaches_alarm]. *)

From stdpp Require Import functions.
From S2P Require Import Prelude GoFloat GoString Hash Tags Model Json JudgeStore JudgeEngine JudgeSafety Redis Alarm.
From Stdlib Require Import Ascii.
From stdpp Require Import options.

(** ** What alarm needs of an event *)

(** An event is about a strategy with a template, or about an expression. *)
Definition deliverable (e : Event.t) : Prop :=
  (∃ s, e.(Event.Strategy) = Some s ∧ e.(Event.Expression) = None ∧ is_Some s.(Strategy.Tpl)) ∨
  (e.(Event.Strategy) = None ∧ is_Some e.(Event.Expression)).

Definition good_event (e : Event.t) : Prop := event_ints e ∧ marshalable e = true ∧ deliverable e.

Lemma deliverable_subject e : deliverable e → Event.has_subject e.
Proof. unfold deliverable, Event.has_subject. intros [(s & -> & _)|[_ ?]]; [left; by eexists|by right]. Qed.

Lemma deliverable_ActionId e : deliverable e → returns (Event.ActionId e).
Proof.
  unfold Event.ActionId. intros [(s & -> & -> & t & Ht)|[_ [x ->]]]; cbn; [rewrite Ht|]; by eexists.
Qed.

Lemma deliverable_TplId e : deliverable e → returns (Event.TplId e).
Proof. unfold Event.TplId. intros [(s & -> & _ & t & Ht)|[-> _]]; cbn; [rewrite Ht|]; by eexists. Qed.

#[export] Hint Resolve deliverable_subject deliverable_ActionId deliverable_TplId : go.

(** [json.Marshal] refuses exactly the events that judge cannot push. *)
Lemma event_finite e : json_finite (json_enc e) = marshalable e.
Proof.
  destruct e as [id s x st ep lv cs et tags]. unfold marshalable.
  assert (∀ s : Strategy.t, json_finite (json_enc s) = f64_is_finite s.(Strategy.RightValue)) as Hs.
  { intros [i m tg f o rv ms p n tpl]. pose proof (strings_finite tg) as Ht. cbn -[json_map] in *.
    rewrite Ht. destruct tpl as [[]|]; cbn; by rewrite ?andb_true_r. }
  assert (∀ x : Expression.t, json_finite (json_enc x) = f64_is_finite x.(Expression.RightValue)) as Hx.
  { intros [i m tg f o rv ms p n a]. pose proof (strings_finite tg) as Ht. cbn -[json_map] in *.
    rewrite Ht. by rewrite ?andb_true_r. }
  pose proof (strings_finite tags) as Ht.
  assert (json_finite (json_enc s) = match s with Some s => f64_is_finite s.(Strategy.RightValue) | None => true end) as Hs'.
  { destruct s as [s|]; [apply Hs|done]. }
  assert (json_finite (json_enc x) = match x with Some x => f64_is_finite x.(Expression.RightValue) | None => true end) as Hx'.
  { destruct x as [x|]; [apply Hx|done]. }
  cbn -[json_map json_pointer] in *. rewrite Ht, Hs', Hx'.
  destruct (f64_is_finite lv); (destruct s as [s|]; [destruct (f64_is_finite (Strategy.RightValue s))|]);
    (destruct x as [x|]; [destruct (f64_is_finite (Expression.RightValue x))|]); done.
Qed.

(** ** The events of the judge *)

Definition good_strategy (s : Strategy.t) : Prop := strategy_ints s ∧ is_Some s.(Strategy.Tpl).

(** The strategies and expressions known are good, and so are the events pushed. *)
Record judge_good (st : JudgeEngine.state) : Prop := JudgeGood {
  jg_strategies : map_Forall (λ _ l, Forall good_strategy l) st.(StrategyMap);
  jg_expressions : map_Forall (λ _ l, Forall expression_ints l) st.(ExpressionMap);
  jg_events : Forall (λ qe, good_event qe.2) st.(JudgeEngine.redis) }.

Section judge.
Context (cfg : JudgeEngine.config).
Implicit Types st : JudgeEngine.state.

Lemma sendEvent_good e st st' :
  (marshalable e = true → good_event e) → sendEvent cfg e st = Ret st' → judge_good st → judge_good st'.
Proof.
  unfold sendEvent. intros He Hs [H1 H2 H3]. destruct (marshalable e); cbn in Hs; [|by simplify_eq].
  go_inv Hs. simplify_eq. split; [done..|]. cbn. apply Forall_app. split; [done|].
  apply Forall_singleton. by apply He.
Qed.

Lemma sendEventIfNeed_good vs t now e M st st' :
  (∀ s k, int64 k → marshalable e = true → good_event (Event.set_CurrentStep k (Event.set_Status s e))) →
  sendEventIfNeed cfg vs t now e M st = Ret st' → judge_good st → judge_good st'.
Proof.
  intros He Hs Hst. unfold sendEventIfNeed in Hs.
  assert (∀ s k st', int64 k → sendEvent cfg (Event.set_CurrentStep k (Event.set_Status s e)) st = Ret st' →
    judge_good st') as Hsend.
  { intros s k st1 Hk E. eapply sendEvent_good; [|exact E|done]. intros Hm. apply He; [done|]. by destruct e. }
  destruct t.
  - go_inv Hs. case_match.
    + case_match; [by simplify_eq|]. go_inv Hs. case_match; [by simplify_eq|]. case_match; [by simplify_eq|].
      eapply Hsend; [|done]. auto with go.
    + case_decide; [by simplify_eq|]. eapply Hsend; [|done]. by apply int64_small.
  - go_inv Hs. destruct v; [|by simplify_eq]. eapply Hsend; [|done]. by apply int64_small.
Qed.

Lemma judgeItemWithStrategy_good L s it now st st' :
  good_strategy s → int64 it.(JudgeItem.Timestamp) →
  judgeItemWithStrategy cfg L s it now st = Ret st' → judge_good st → judge_good st'.
Proof.
  intros [Hi Ht] Hts Hs Hst. unfold judgeItemWithStrategy in Hs. go_inv Hs. destruct v as [fn|]; [|by simplify_eq].
  go_inv Hs. destruct (isEnough v); cbn in Hs; [|by simplify_eq].
  eapply sendEventIfNeed_good; [|done..]. intros str k Hk Hm. split_and!; [|done|].
  - unfold event_ints; cbn. split_and!; [done..| |done]. by intros ? [= <-].
  - left. by exists s.
Qed.

Lemma judgeItemWithExpression_good L x it now st st' :
  expression_ints x → int64 it.(JudgeItem.Timestamp) →
  judgeItemWithExpression cfg L x it now st = Ret st' → judge_good st → judge_good st'.
Proof.
  intros Hi Hts Hs Hst. unfold judgeItemWithExpression in Hs. go_inv Hs. destruct v as [fn|]; [|by simplify_eq].
  go_inv Hs. destruct (isEnough v); cbn in Hs; [|by simplify_eq].
  eapply sendEventIfNeed_good; [|done..]. intros str k Hk Hm. split_and!; [|done|].
  - unfold event_ints; cbn. split_and!; [done..|]. by intros ? [= <-].
  - right. split; [done|]. by eexists.
Qed.

Lemma CheckStrategy_good L it now st st' :
  int64 it.(JudgeItem.Timestamp) → CheckStrategy cfg L it now st = Ret st' → judge_good st → judge_good st'.
Proof.
  intros Hts Hs Hst. unfold CheckStrategy in Hs. destruct (_ !! _) as [l|] eqn:E; [|by simplify_eq].
  pose proof (jg_strategies _ Hst _ _ E) as Hl. cbn in Hl. rewrite Forall_forall in Hl.
  eapply (go_foldl_inv judge_good); [|exact Hst|exact Hs].
  intros s a s' Ha Hs' Ha'. cbn beta in Ha'. destruct (related _ _); cbn in Ha'; [|by simplify_eq].
  eapply judgeItemWithStrategy_good; eauto.
Qed.

Lemma CheckExpression_good kvs L it now st st' :
  int64 it.(JudgeItem.Timestamp) → CheckExpression cfg kvs L it now st = Ret st' → judge_good st → judge_good st'.
Proof.
  intros Hts Hs Hst. unfold CheckExpression in Hs. case_decide; [by simplify_eq|]. go_inv Hs. simplify_eq.
  apply (go_foldl_inv (λ hs : gset Z * JudgeEngine.state, judge_good hs.2) _ _ (∅, st) v) in E; [done| |done].
  intros hs key hs' _ Hhs Hk. cbn beta in Hk. destruct (_ !! key) as [exps|] eqn:Ek; [|by simplify_eq].
  pose proof (jg_expressions _ Hst _ _ Ek) as Hl. cbn in Hl. rewrite Forall_forall in Hl.
  apply (go_foldl_inv (λ hs : gset Z * JudgeEngine.state, judge_good hs.2) _ _ hs hs') in Hk; [done| |done].
  intros [h s] x [h' s'] Hx%filterRelatedExpressions_elem Hs' Hx'. cbn in *. case_decide; [by simplify_eq|].
  go_inv Hx'. simplify_eq. eapply judgeItemWithExpression_good; eauto.
Qed.

Lemma judge_good_history M st : judge_good st → judge_good (set_HistoryBigMap M st).
Proof. by intros []. Qed.

Lemma Send_good items now st st' :
  Forall (λ it, ∀ i, it.1 = Some i → int64 i.(JudgeItem.Timestamp)) items →
  Send cfg items now st = Ret st' → judge_good st → judge_good st'.
Proof.
  intros Hi Hs Hst. rewrite Forall_forall in Hi.
  eapply (go_foldl_inv judge_good); [|exact Hst|exact Hs]. intros s [[i|] kvs] s' Hin Hs' Ha; [|done].
  specialize (Hi _ Hin i eq_refl). unfold send_item in Ha. cbn in Ha. go_inv Ha.
  unfold PushFrontAndMaintain in Ha. go_inv Ha.
  assert (∀ L st1, judge_good st1 → ∀ st2, Judge cfg kvs L i now st1 = Ret st2 → judge_good st2) as HJ.
  { intros L st1 H1 st2 HJ. unfold Judge in HJ. go_inv HJ.
    eapply CheckExpression_good; [done..|]. by eapply CheckStrategy_good. }
  destruct (JudgeItemMap.Get _ _) as [L|].
  - go_inv Ha. destruct v1 as [L' []]; [|simplify_eq; by apply judge_good_history].
    eapply HJ; [|exact Ha]. by apply judge_good_history.
  - eapply HJ; [|exact Ha]. by apply judge_good_history.
Qed.
End judge.

(** ** A judge that is fed by hbs *)

Definition good_strategies (hss : list HostStrategy.t) : Prop :=
  strategies_ok hss ∧ Forall (λ hs, Forall good_strategy hs.(HostStrategy.Strategies)) hss.
Definition good_expressions (xs : list (Expression.t * list (string * string))) : Prop :=
  expressions_ok xs ∧ Forall (λ x, expression_ints x.1) xs.
Definition good_items (items : list (option JudgeItem.t * list (string * string))) : Prop :=
  Forall item_ok items ∧ Forall (λ it, ∀ i, it.1 = Some i → int64 i.(JudgeItem.Timestamp)) items.

(** The steps of the judge, with strategies that have a template and integers in range. *)
Inductive fed_step (cfg : JudgeEngine.config) : JudgeEngine.state → JudgeEngine.state → Prop :=
| fed_Send items now st st' :
    good_items items → Send cfg items now st = Ret st' → fed_step cfg st st'
| fed_syncStrategies reply st :
    reply_ok good_strategies reply → fed_step cfg st (syncStrategies reply st)
| fed_syncExpression reply st :
    reply_ok good_expressions reply → fed_step cfg st (syncExpression reply st)
| fed_cleanStale now visit st st' :
    (∀ M, ranges (visit M) M) → cleanStale now visit st = Ret st' → fed_step cfg st st'.

Definition fed_reachable (cfg : JudgeEngine.config) : JudgeEngine.state → Prop := rtc (fed_step cfg) initial.

(** A judge that is fed is a judge. *)
Lemma fed_is_reachable cfg st : fed_reachable cfg st → reachable cfg st.
Proof.
  apply rtc_subrel. intros st1 st2 [items now ?? [] ?|reply ? Hr|reply ? Hr|]; [by eapply step_Send|..|by eapply step_cleanStale].
  - apply step_syncStrategies. destruct reply; [by destruct Hr|done].
  - apply step_syncExpression. destruct reply; [by destruct Hr|done].
Qed.

Lemma syncStrategies_good reply st :
  reply_ok good_strategies reply → judge_good st → judge_good (syncStrategies reply st).
Proof.
  destruct reply as [hss|]; [|done]. intros [_ Hg] [].
  split; [|done..]. cbn. apply group_by_Forall.
  rewrite Forall_forall in Hg. apply Forall_forall. intros s ([k s'] & -> & (hs & Hs & Hin)%list_elem_of_bind)%list_elem_of_fmap.
  apply list_elem_of_fmap in Hs as (s & ? & Hs). simplify_eq. specialize (Hg _ Hin). cbn in Hg.
  rewrite Forall_forall in Hg. by apply Hg.
Qed.

Lemma syncExpression_good reply st :
  reply_ok good_expressions reply → judge_good st → judge_good (syncExpression reply st).
Proof.
  destruct reply as [xs|]; [|done]. intros [_ Hg] [].
  split; [done| |done]. cbn. apply group_by_Forall.
  rewrite Forall_forall in Hg. apply Forall_forall. intros s ([k s'] & -> & (x & Hs & Hin)%list_elem_of_bind)%list_elem_of_fmap.
  apply list_elem_of_fmap in Hs as (k' & ? & Hs). simplify_eq. by apply (Hg _ Hin).
Qed.

Lemma fed_good cfg st : fed_reachable cfg st → judge_good st.
Proof.
  apply (rtc_ind_r (R := fed_step cfg) judge_good initial).
  { split; cbn; [apply map_Forall_empty..|constructor]. }
  intros st1 st2 _ [items now ?? [] E|reply ? Hr|reply ? Hr|now visit ?? Hv E] IH.
  - by eapply Send_good.
  - by apply syncStrategies_good.
  - by apply syncExpression_good.
  - unfold cleanStale in E. eapply (go_foldl_inv judge_good); [|exact IH|exact E].
    intros s k s' _ Hs Hk. go_inv Hk. simplify_eq. by apply judge_good_history.
Qed.

(** ** No event of the judge makes alarm panic *)

(** Goes through the steps of a computation that cannot panic. *)
Ltac go_steps := repeat (apply returns_bind; [solve [eauto with go]|intros ? _]).

Section texts.
Context (cfg : Alarm.config) (E : env).

Lemma SmsContent_returns e : deliverable e → returns (GenerateSmsContent E e).
Proof.
  intros He. unfold GenerateSmsContent, BuildCommonSMSContent, Event.Priority, Event.Note, Event.Func,
    Event.Metric, Event.Operator, Event.RightValue. go_steps. by eexists.
Qed.

Lemma MailContent_returns e : deliverable e → returns (GenerateMailContent cfg E e).
Proof.
  intros He. unfold GenerateMailContent, BuildCommonMailContent, Link, Event.Priority, Event.Note, Event.Func,
    Event.Metric, Event.Operator, Event.RightValue, Event.MaxStep.
  apply returns_bind; [|intros ? _; go_steps; by eexists].
  go_steps. repeat case_decide; by eexists.
Qed.

Lemma cond_returns e : deliverable e → returns (event_cond e).
Proof. intros He. unfold event_cond, Event.Operator, Event.RightValue. go_steps. by eexists. Qed.
End texts.

#[export] Hint Resolve SmsContent_returns MailContent_returns cond_returns : go.

Lemma attribute_go {A} (fs : Strategy.t → A) (fe : Expression.t → A) e :
  deliverable e → returns (Event.attribute fs fe e).
Proof. eauto with go. Qed.

Section alarm.
Context {R} `{HR : Redis R} (cfg : Alarm.config) (E : env).
Implicit Types st : Alarm.state R.

Lemma InsertEvent_returns cases e st : deliverable e → returns (InsertEvent E cases e st).
Proof.
  intros He. unfold InsertEvent, Event.Metric, Event.Func, Event.Note, Event.MaxStep, Event.Priority.
  go_steps. unfold insertEvent. go_steps. by eexists.
Qed.

Lemma Callback_returns e action st : deliverable e → returns (Callback E e action st).
Proof.
  intros He. unfold Callback, Event.Metric, Event.Priority. case_decide; [by eexists|]. go_steps.
  destruct (curl_callback _ _ _ _). by eexists.
Qed.

Lemma HandleCallback_returns e action st : deliverable e → returns (HandleCallback cfg E e action st).
Proof.
  intros He. unfold HandleCallback. apply returns_bind.
  - case_decide; [|by eexists]. destruct (ParseTeams _ _ _) as [[[phones mails] ims] st1]. go_steps. by eexists.
  - intros [[[phones mails] ims] st1] _. apply returns_bind; [by apply Callback_returns|].
    intros [message st2] _. case_decide; by eexists.
Qed.

Lemma consume_returns e isHigh st : deliverable e → returns (consume cfg E e isHigh st).
Proof.
  intros He. unfold consume. go_steps. case_match; [by eexists|].
  destruct (GetAction E a st) as [[action|] st1]; [|by eexists]. apply returns_bind.
  { case_decide; [by apply HandleCallback_returns|by eexists]. }
  intros st2 _. destruct isHigh; unfold consumeHighEvents, consumeLowEvents; (case_decide; [by eexists|]).
  - destruct (ParseTeams _ _ _) as [[[phones mails] ims] st3]. unfold Event.Priority. go_steps. by eexists.
  - assert (∀ st, returns (ParseUserIm cfg E e action st)) as HIm.
    { intros. unfold ParseUserIm, Event.Metric, Event.Priority. destruct (GetUsers _ _ _). go_steps. by eexists. }
    assert (∀ st, returns (ParseUserMail cfg E e action st)) as HMail.
    { intros. unfold ParseUserMail, Event.Metric, Event.Priority. destruct (GetUsers _ _ _). go_steps. by eexists. }
    assert (∀ st, returns (ParseUserSms cfg E e action st)) as HSms.
    { intros. unfold ParseUserSms, Event.Metric, Event.Priority. destruct (GetUsers _ _ _). go_steps. by eexists. }
    unfold Event.Priority. go_steps. apply returns_bind; [case_match; [done|by eexists]|intros st3 _].
    apply returns_bind; [done|by intros st4 _].
Qed.

End alarm.

(** ** The queues *)

(** The elements of a queue on which the events [l] wait, the oldest first out. *)
Definition encoded (l : list Event.t) : list text := reverse ((λ e, Encoded (json_enc e)) <$> l).

Lemma encoded_pop l c x :
  encoded l = c ++ [x] → ∃ e rest, l = e :: rest ∧ x = Encoded (json_enc e) ∧ c = encoded rest.
Proof.
  unfold encoded. destruct l as [|e rest].
  - intros E. symmetry in E. by apply app_nil in E as [_ ?].
  - rewrite fmap_cons, reverse_cons. intros [<- [= <-]]%app_inj_tail. by exists e, rest.
Qed.

Lemma encoded_nil l : encoded l = [] → l = [].
Proof. unfold encoded. destruct l; [done|]. rewrite fmap_cons, reverse_cons. by intros [_ ?]%app_nil. Qed.

Lemma good_event_Unmarshal e : good_event e → Unmarshal_text (Encoded (json_enc e)) = Ok e.
Proof. intros [Hi _]. by apply json_roundtrip. Qed.

Lemma InsertEvent_redis {R} E cases e (st st' : Alarm.state R) :
  InsertEvent E cases e st = Ret st' → st'.(redis) = st.(redis).
Proof.
  unfold InsertEvent, insertEvent. intros Hs. do 8 go_inv Hs. simplify_eq. by destruct cases.
Qed.

(** C4. The events that wait on alarm's queues are those of the judge.  The judge
that got strategies with templates pushed them; a pop answers the oldest event
of the first queue that is not empty, as the judge made it, and leaves the
others; recording it in the database and telling the users about it never
panics. *)
Theorem judge_event_reaches_alarm `{RedisLaws R} jcfg jst cfg E select isHigh (st : Alarm.state R) waiting :
  fed_reachable jcfg jst →
  let queues := if isHigh : bool then cfg.(HighQueues) else cfg.(LowQueues) in
  (∀ q, q ∈ queues → ∃ gone, values_of q jst.(JudgeEngine.redis) = gone ++ waiting q) →
  (∀ q, q ∈ queues → content st.(redis) q = encoded (waiting q)) →
  ∃ res st', popEvent E select queues st = Ret (res, st') ∧
    match res with
    | Popped e => ∃ q before after rest, queues = before ++ q :: after ∧ Forall (λ q', waiting q' = []) before ∧
        waiting q = e :: rest ∧ content st'.(redis) q = encoded rest ∧
        (∀ q', q' ≠ q → content st'.(redis) q' = content st.(redis) q') ∧
        returns (consume cfg E e isHigh st')
    | Waiting => Forall (λ q, waiting q = []) queues ∧ unchanged st.(redis) st'.(redis)
    | PopError => unchanged st.(redis) st'.(redis)
    end.
Proof.
  intros Hfed queues Hwait Hcont. pose proof (jg_events _ (fed_good _ _ Hfed)) as Hgood.
  rewrite Forall_forall in Hgood. unfold popEvent.
  pose proof (BRPOP_law queues st.(redis)) as Hpop. destruct (BRPOP queues _) as [[[q x]| |] r].
  - destruct Hpop as [[Hc Ho] (before & after & Eq & Hb)].
    assert (q ∈ queues) as Hq by (rewrite Eq; set_solver). rewrite (Hcont q Hq) in Hc.
    apply encoded_pop in Hc as (e & rest & Hw & -> & Hr).
    assert (good_event e) as He.
    { destruct (Hwait q Hq) as [gone Hg]. apply (Hgood (q, e)). apply elem_of_values_of. rewrite Hg, Hw. set_solver. }
    rewrite good_event_Unmarshal by done. destruct He as (_ & _ & He).
    destruct (InsertEvent_returns E (select e.(Event.Id)) e (set_redis r st) He) as [st' Hst']. rewrite Hst'. cbn.
    exists (Popped e), st'. split; [done|]. apply InsertEvent_redis in Hst'. cbn in Hst'.
    exists q, before, after, rest. rewrite Hst'. split_and!; try done; [|by apply consume_returns].
    apply Forall_forall. intros q' Hq'. rewrite Forall_forall in Hb.
    apply encoded_nil. rewrite <- Hcont by (rewrite Eq; set_solver). by apply Hb.
  - exists Waiting, (set_redis r st). destruct Hpop as [HF Hu]. split_and!; [done| |done].
    apply Forall_forall. intros q Hq. rewrite Forall_forall in HF. apply encoded_nil. rewrite <- Hcont by done. by apply HF.
  - by exists PopError, (set_redis r st).
Qed.

(** ** A run: the judge pushes an event, alarm pops it *)

Definition ex_tpl_strategy : Strategy.t :=
  Strategy.mk 7 "cpu" ∅ "all(#1)" ">" (f64_of_Z 3) 3 1 "" (Some (Template.mk 5 "base" 0 2 "root")).
Definition ex_judge : JudgeEngine.state :=
  match Send ex_cfg ex_items 130 (syncStrategies (Ok [HostStrategy.mk "host" [ex_tpl_strategy]]) initial) with
  | Ret st => st | Panic _ => initial end.

Lemma ex_tpl_ok : strategy_ok ex_tpl_strategy ∧ good_strategy ex_tpl_strategy.
Proof.
  split; [split; [|unfold int64; cbn; lia]|split; [|by eexists]].
  - exists (Ok (AllFunction 1 ">" (f64_of_Z 3))). split; [vm_compute; reflexivity|].
    intros fn [= <-]. repeat constructor; cbn; lia.
  - unfold strategy_ints, int64. cbn. split_and!; try lia. intros ? [= <-].
    unfold template_ints, int64. cbn. lia.
Qed.

Lemma ex_fed : fed_reachable ex_cfg ex_judge.
Proof.
  apply (rtc_l _ _ (syncStrategies (Ok [HostStrategy.mk "host" [ex_tpl_strategy]]) initial)).
  - apply fed_syncStrategies. split; apply Forall_singleton, Forall_singleton; apply ex_tpl_ok.
  - apply rtc_once. apply (fed_Send _ ex_items 130); [split|vm_compute; reflexivity].
    + by repeat constructor.
    + apply Forall_singleton. intros ? [= <-]. unfold int64. cbn. lia.
Qed.

Definition ex_alarm_cfg : Alarm.config :=
  Config ["event:p0"; "event:p1"] ["event:p3"] "/queue/user/im" "/queue/user/sms" "/queue/user/mail" "http://d".
Definition ex_env : env := Env Itoa
  (λ _ team, if decide (team = "ops") then Some [User.mk 1 "ann" "" "" "ann@x" "13800" "ann" "" 0] else None)
  (λ _ id, Some (Action.mk id "ops" "" 0 0 0 0 0)) (λ _ _ _, ("ok", None)) (λ _ _, Ok "abc")
  (λ _ m, map_to_list m) (λ _ _ X, elements X) (λ _ m, map_to_list m).
Definition ex_queue : list Event.t := values_of "event:p1" ex_judge.(JudgeEngine.redis).
Definition ex_alarm : Alarm.state Server.t :=
  State (Server.mk {["event:p1" := encoded ex_queue]} 0) ∅ ∅ 0 [] [].

Example judge_event_reaches_alarm_witness :
  ∃ e st', popEvent (H := server (λ _, true)) ex_env (λ _, []) ex_alarm_cfg.(HighQueues) ex_alarm = Ret (Popped e, st') ∧
    ex_queue = [e] ∧ returns (consume (H := server (λ _, true)) ex_alarm_cfg ex_env e true st').
Proof.
  destruct (judge_event_reaches_alarm (H0 := server_laws (λ _, true)) ex_cfg ex_judge ex_alarm_cfg ex_env (λ _, []) true
    ex_alarm (λ q, values_of q ex_judge.(JudgeEngine.redis))) as (res & st' & E & Hres).
  - apply ex_fed.
  - intros q _. by exists [].
  - intros q [->|[->|?%not_elem_of_nil]%elem_of_cons]%elem_of_cons; [vm_compute; reflexivity..|done].
  - destruct res as [e| |].
    + exists e, st'. split; [exact E|]. destruct Hres as (q & before & after & rest & Eq & _ & Hw & _ & _ & Hc).
      split; [|exact Hc]. revert E. vm_compute. congruence.
    + exfalso. revert E. vm_compute. congruence.
    + exfalso. revert E. vm_compute. congruence.
Defined.
