(* ===== verification/AlarmCombine.v ===== *)
(** * Alarm: combining messages

[combineSms], [combineMail] and [combineIM] are one algorithm with three
instances, a [medium] each.  The theorems: popping takes every message that can
be read, each one ends up in exactly one combined message, and when no receiver
is the beginning of another one the combined messages go to the receivers of the
messages they stand for ([combine_correct]); without that condition they may not
([combine_misdirects]). *)

From stdpp Require Import functions.
From S2P Require Import Prelude GoFloat GoString Hash Tags Model Json Redis Alarm.
From Stdlib Require Import Ascii.
From stdpp Require Import options.

(** ** The key of a group *)

Lemma app_inv_first s1 s2 c1 c2 t1 t2 :
  lacks c1 s1 → lacks c2 s1 → lacks c1 s2 → lacks c2 s2 →
  s1 +:+ String c1 t1 = s2 +:+ String c2 t2 → s1 = s2 ∧ String c1 t1 = String c2 t2.
Proof.
  revert s2. induction s1 as [|a s1 IH]; intros [|b s2]; cbn [String.append]; [done| | |].
  - intros _ _ [Hb _]%lacks_cons _ [= -> _]. done.
  - intros _ [Ha _]%lacks_cons _ _ [= -> _]. done.
  - intros [_ ?]%lacks_cons [_ ?]%lacks_cons [_ ?]%lacks_cons [_ ?]%lacks_cons [= -> E].
    destruct (IH s2) as [-> ?]; done.
Qed.

Definition is_status (s : string) : Prop := s = "OK" ∨ s = "PROBLEM".

Lemma dto_key_inj p1 s1 r1 m1 p2 s2 r2 m2 :
  int64 p1 → int64 p2 → is_status s1 → is_status s2 → ((∃ u, r2 = r1 +:+ u) ∨ (∃ u, r1 = r2 +:+ u) → r1 = r2) →
  dto_key p1 s1 r1 m1 = dto_key p2 s2 r2 m2 → p1 = p2 ∧ s1 = s2 ∧ r1 = r2 ∧ m1 = m2.
Proof.
  intros Hp1 Hp2 Hs1 Hs2 Hr. unfold dto_key.
  assert (∀ c p, c = "O"%char ∨ c = "P"%char → lacks c (Itoa p)) as Hl.
  { intros c p [->| ->]; apply Itoa_lacks; done. }
  assert (∀ s, is_status s → ∃ c t, s = String c t ∧ (c = "O"%char ∨ c = "P"%char)) as Hst.
  { intros s [->| ->]; eauto. }
  destruct (Hst _ Hs1) as (c1 & t1 & E1 & Hc1), (Hst _ Hs2) as (c2 & t2 & E2 & Hc2).
  rewrite E1, E2. intros [Ep E]%app_inv_first; try (by apply Hl).
  assert (s1 +:+ r1 +:+ m1 = s2 +:+ r2 +:+ m2) as E' by (by rewrite E1, E2).
  apply Itoa_inj in Ep; [|done..]. rewrite <- E1, <- E2.
  assert (s1 = s2) as <- by (destruct Hs1 as [->| ->], Hs2 as [->| ->]; done).
  apply append_inv_head in E'. assert (r1 = r2) as <- by (by eapply Hr, append_eq).
  apply append_inv_head in E'. done.
Qed.

(** ** One combiner *)

(** What the three combiners differ in. *)
Record medium (A M : Type) : Type := Medium {
  key : A → string;
  priority : A → Z; status : A → string; receiver : A → string; metric : A → string;
  (* the text that a combined message has for its parts, when it tells them *)
  body : list A → M → Prop;
  Tos : M → string }.
Arguments key {A M}. Arguments priority {A M}. Arguments status {A M}. Arguments receiver {A M}.
Arguments metric {A M}. Arguments body {A M}. Arguments Tos {A M}.

Definition by_key {A M} (md : medium A M) : Prop :=
  ∀ a, md.(key) a = dto_key (md.(priority) a) (md.(status) a) (md.(receiver) a) (md.(metric) a).

(** [m] is the message made of the messages [arr]. *)
Definition stands_for {A M} (md : medium A M) (arr : list A) (m : M) : Prop :=
  (∃ a, head arr = Some a ∧ md.(Tos) m = md.(receiver) a) ∧ md.(body) arr m.

(** Each of [dtos] is in exactly one of the groups that [ms] stand for; the
messages of a group are those of its key, in their order. *)
Definition combined {A M} (md : medium A M) (dtos : list A) (ms : list M) : Prop :=
  ∃ groups : list (list A), mjoin groups ≡ₚ dtos ∧ Forall2 (stands_for md) groups ms ∧
    Forall (λ arr, ∃ k, arr = filter (λ a, md.(key) a = k) dtos) groups.

(** No receiver is the beginning of another one. *)
Definition told_apart {A M} (md : medium A M) (dtos : list A) : Prop :=
  Forall (λ a, int64 (md.(priority) a) ∧ is_status (md.(status) a)) dtos ∧
  ∀ a b u, a ∈ dtos → b ∈ dtos → md.(receiver) b = md.(receiver) a +:+ u → md.(receiver) a = md.(receiver) b.

(** Every message of the group of [m] was meant for the receiver of [m], and is
about the same metric, with the same priority and status. *)
Definition addressed {A M} (md : medium A M) (arr : list A) (m : M) : Prop :=
  ∀ a, a ∈ arr → md.(Tos) m = md.(receiver) a ∧
    ∀ b, b ∈ arr → md.(priority) a = md.(priority) b ∧ md.(status) a = md.(status) b ∧ md.(metric) a = md.(metric) b.

Section medium.
Context {A M : Type} (md : medium A M) (Hkey : by_key md).

Lemma dtoMap_lookup (key : A → string) dtos k :
  dtoMap key dtos !! k = match filter (λ a, key a = k) dtos with [] => None | l => Some l end.
Proof.
  unfold dtoMap. rewrite group_by_lookup, values_of_keyed, lookup_empty. by case_match.
Qed.

Lemma groups_spec (dtos : list A) kvs :
  ranges kvs (dtoMap md.(key) dtos) →
  mjoin kvs.*2 ≡ₚ dtos ∧
  Forall (λ arr, arr ≠ [] ∧ ∃ k, arr = filter (λ a, md.(key) a = k) dtos) kvs.*2.
Proof.
  intros Hr. assert (∀ k l, (k, l) ∈ kvs ↔ dtoMap md.(key) dtos !! k = Some l) as Hin.
  { intros. by apply ranges_elem_of. }
  split.
  - assert (∀ kvs ds, NoDup kvs.*1 → (∀ k l, (k, l) ∈ kvs → l = filter (λ a, md.(key) a = k) ds) →
      (∀ a, a ∈ ds → md.(key) a ∈ kvs.*1) → mjoin kvs.*2 ≡ₚ ds) as Hg.
    { clear. induction kvs as [|[k l] kvs IH]; intros ds Hnd Hl Hds.
      - destruct ds as [|a ds]; [done|]. specialize (Hds a ltac:(by left)). by apply not_elem_of_nil in Hds.
      - cbn [fmap list_fmap mjoin list_join] in *. apply NoDup_cons in Hnd as [Hk Hnd].
        rewrite (Hl k l) by (by left). rewrite (IH (filter (λ a, md.(key) a ≠ k) ds) Hnd).
        + clear. induction ds as [|a ds IH]; [done|]. rewrite !filter_cons.
          destruct (decide (md.(key) a = k)) as [Hk|Hk].
          * rewrite decide_False by tauto. cbn. by rewrite IH.
          * rewrite decide_True by done. by rewrite <- Permutation_middle, IH.
        + intros k' l' Hkl. rewrite (Hl k' l') by (by right). rewrite list_filter_filter.
          apply list_filter_iff. intros a. split; [|tauto]. intros <-. split; [done|]. intros E. apply Hk.
          apply list_elem_of_fmap. exists (md.(key) a, l'). by rewrite <- E.
        + intros a [Ha Hin]%list_elem_of_filter. specialize (Hds a Hin).
          by apply elem_of_cons in Hds as [?|?]. }
    apply Hg.
    + by eapply ranges_NoDup.
    + intros k l Hkl%Hin. rewrite dtoMap_lookup in Hkl. by case_match; simplify_eq.
    + intros a Ha. apply list_elem_of_fmap. exists (md.(key) a, filter (λ b, md.(key) b = md.(key) a) dtos).
      split; [done|]. apply Hin. rewrite dtoMap_lookup.
      assert (a ∈ filter (λ b, md.(key) b = md.(key) a) dtos) as Hf by (by apply list_elem_of_filter).
      case_match; [by apply not_elem_of_nil in Hf|done].
  - apply Forall_forall. intros arr ([k l] & -> & Hkl%Hin)%list_elem_of_fmap. rewrite dtoMap_lookup in Hkl.
    case_match eqn:E; simplify_eq. split; [done|]. exists k. by rewrite E.
Qed.

Lemma same_key dtos a b :
  told_apart md dtos → a ∈ dtos → b ∈ dtos → md.(key) a = md.(key) b →
  md.(priority) a = md.(priority) b ∧ md.(status) a = md.(status) b ∧
  md.(receiver) a = md.(receiver) b ∧ md.(metric) a = md.(metric) b.
Proof using Hkey.
  intros [Hs Hr] Ha Hb. rewrite !Hkey. rewrite Forall_forall in Hs.
  destruct (Hs a Ha), (Hs b Hb). apply dto_key_inj; [done..|].
  intros [[u E]|[u E]]; [by eapply Hr|]. symmetry. by eapply Hr.
Qed.

Lemma addressed_spec dtos ms groups :
  told_apart md dtos → Forall2 (stands_for md) groups ms →
  Forall (λ arr, ∃ k, arr = filter (λ a, md.(key) a = k) dtos) groups → Forall2 (addressed md) groups ms.
Proof using Hkey.
  intros Ht HF Hg. induction HF as [|arr m groups ms [(a0 & Hhead & Hto) _] HF IH]; [constructor|].
  apply Forall_cons in Hg as [[k ->] Hg]. constructor; [|auto].
  assert (∀ a, a ∈ filter (λ a, md.(key) a = k) dtos → md.(key) a = k ∧ a ∈ dtos) as Hin.
  { intros a. by intros [??]%list_elem_of_filter. }
  assert (a0 ∈ filter (λ a, md.(key) a = k) dtos) as [Hk0 H0]%Hin by (by apply head_Some_elem_of).
  intros a [Hka Ha]%Hin. split.
  - rewrite Hto. by apply (same_key dtos a0 a Ht H0 Ha); congruence.
  - intros b [Hkb Hb]%Hin. by destruct (same_key dtos a b Ht Ha Hb) as (? & ? & _ & ?); [congruence|].
Qed.

(** *** The loop over the groups *)
Context {R : Type} `{HR : Redis R} `{Json M} (queue : string) (group : list A → Alarm.state R → go (Alarm.state R)).

(** A group that is not empty pushes one message that stands for it. *)
Definition pushes_one : Prop := ∀ arr st, arr ≠ [] →
  ∃ m st', group arr st = Ret st' ∧ stands_for md arr m ∧
    pushed queue (Encoded (json_enc m)) st.(redis) st'.(redis).

Lemma loop_spec kvs st :
  pushes_one → Forall (λ arr, arr ≠ []) kvs.*2 →
  ∃ ms st', go_foldl (λ st (kv : string * list A), group kv.2 st) st kvs = Ret st' ∧
    Forall2 (stands_for md) kvs.*2 ms ∧
    content st'.(redis) queue = reverse ((λ m, Encoded (json_enc m)) <$> ms) ++ content st.(redis) queue ∧
    ∀ q, q ≠ queue → content st'.(redis) q = content st.(redis) q.
Proof using.
  intros Hg. revert st. induction kvs as [|[k arr] kvs IH]; intros st Hne.
  - exists [], st. split_and!; [done|constructor|done|done].
  - apply Forall_cons in Hne as [Harr Hne]. destruct (Hg arr st Harr) as (m & st1 & E & Hm & Hp & Ho).
    destruct (IH st1 Hne) as (ms & st' & E' & HF & Hq & Hq'). exists (m :: ms), st'. split_and!.
    + cbn [go_foldl]. cbn [snd] in *. rewrite E. exact E'.
    + by constructor.
    + rewrite Hq, Hp, fmap_cons, reverse_cons, <- app_assoc. done.
    + intros q Hne'. by rewrite Hq', Ho.
Qed.

(** The combiner: what it popped is in the messages it pushed. *)
Lemma combine_spec `{Json A} {HL : RedisLaws R} {HUp : RedisUp R} (user : string) visit fuel st :
  pushes_one → user ≠ queue → (length (content st.(redis) user) < fuel)%nat → (∀ m, ranges (visit m) m) →
  let dtos := decoded (reverse (content st.(redis) user)) in
  ∃ ms st', combine md.(key) group visit (pop_all fuel user st) = Some (Ret st') ∧
    content st'.(redis) user = [] ∧
    content st'.(redis) queue = reverse ((λ m, Encoded (json_enc m)) <$> ms) ++ content st.(redis) queue ∧
    combined md dtos ms ∧ (told_apart md dtos → ∃ groups, mjoin groups ≡ₚ dtos ∧ Forall2 (addressed md) groups ms).
Proof using Hkey.
  intros Hg Hne Hf Hvisit dtos. unfold combine, pop_all.
  destruct (popAll_spec fuel user ([] : list A) st.(redis) Hf) as (taken & r & E & Hc & Ho & Hup).
  specialize (Hup HUp). rewrite E. cbn [app]. rewrite Hup in Hc. cbn in Hc.
  assert (decoded taken = dtos) as Hd by (unfold dtos; by rewrite Hc, reverse_involutive).
  rewrite Hd. set (st1 := set_redis r st).
  destruct (groups_spec dtos (visit (dtoMap md.(key) dtos)) (Hvisit _)) as [Hj HF].
  destruct (loop_spec (visit (dtoMap md.(key) dtos)) st1 Hg) as (ms & st' & E' & Hms & Hq & Hq').
  { eapply Forall_impl; [exact HF|]. by intros arr []. }
  assert (Forall (λ arr, ∃ k, arr = filter (λ a, md.(key) a = k) dtos) (visit (dtoMap md.(key) dtos)).*2) as Hk.
  { eapply Forall_impl; [exact HF|]. by intros arr []. }
  exists ms, st'. split_and!.
  - case_decide as Hl; [|by rewrite E']. apply nil_length_inv in Hl. rewrite Hl in E'.
    pose proof (ranges_length _ _ (Hvisit (dtoMap md.(key) (@nil A)))) as Hlen.
    unfold dtoMap in E', Hlen. cbn in E', Hlen. rewrite map_size_empty in Hlen.
    apply nil_length_inv in Hlen. rewrite Hlen in E'. cbn in E'. congruence.
  - rewrite Hq' by done. done.
  - rewrite Hq. unfold st1. cbn. by rewrite Ho.
  - by exists (visit (dtoMap md.(key) dtos)).*2.
  - intros Ht. exists (visit (dtoMap md.(key) dtos)).*2. split; [done|]. by apply addressed_spec with dtos.
Qed.
End medium.

(** ** The three media *)

Definition mail_medium : medium MailDto.t Mail.t := {|
  key := mail_key; priority := MailDto.Priority; status := MailDto.Status; receiver := MailDto.Email;
  metric := MailDto.Metric; Tos := Mail.Tos;
  body arr m :=
    match arr with
    | [d] => m.(Mail.Subject) = d.(MailDto.Subject) ∧ m.(Mail.Content) = d.(MailDto.Content)
    | _ => m.(Mail.Content) = join crlf (MailDto.Content <$> arr)
    end |}.

(** A combined short message tells how many there are, and where to read them. *)
Definition sms_medium (cfg : config) : medium SmsDto.t Sms.t := {|
  key := sms_key; priority := SmsDto.Priority; status := SmsDto.Status; receiver := SmsDto.Phone;
  metric := SmsDto.Metric; Tos := Sms.Tos;
  body arr m :=
    match arr with
    | [d] => m.(Sms.Content) = d.(SmsDto.Content)
    | d :: _ => ∃ eg link, m.(Sms.Content) =
        combined_text cfg d.(SmsDto.Priority) d.(SmsDto.Status) (length arr) d.(SmsDto.Metric) eg link
    | [] => False
    end |}.

Definition im_medium (cfg : config) : medium ImDto.t IM.t := {|
  key := im_key; priority := ImDto.Priority; status := ImDto.Status; receiver := ImDto.IM;
  metric := ImDto.Metric; Tos := IM.Tos;
  body arr m :=
    match arr with
    | [d] => m.(IM.Content) = d.(ImDto.Content)
    | d :: _ => ∃ eg link, m.(IM.Content) =
        combined_text cfg d.(ImDto.Priority) d.(ImDto.Status) (length arr) d.(ImDto.Metric) eg link
    | [] => False
    end |}.

Section media.
Context {R : Type} `{HR : Redis R} {HL : RedisLaws R} {HUp : RedisUp R} (cfg : config) (E : env).

Lemma write_pushed `{Json A} queue (a : A) (st : Alarm.state R) :
  json_finite (json_enc a) = true →
  pushed queue (Encoded (json_enc a)) st.(redis) (write queue a st).(redis).
Proof using HL HUp.
  intros Ha. unfold write, Marshal. rewrite Ha. unfold lpush. cbn [redis set_redis].
  pose proof (LPUSH_law queue (Encoded (json_enc a)) st.(redis)) as Hp.
  pose proof (LPUSH_up queue (Encoded (json_enc a)) st.(redis)) as Hu.
  destruct (LPUSH _ _ _) as [ok r]. cbn in *. by rewrite Hu in Hp.
Qed.

Lemma example_endpoint_returns s : returns (example_endpoint s).
Proof.
  unfold example_endpoint. cbv zeta. destruct (Z.leb_spec 3 (Z.of_nat (length (split_brackets s)))); [|by eexists].
  apply returns_at_index. lia.
Qed.

Lemma mail_pushes_one : pushes_one mail_medium (R := R) MAIL_QUEUE_NAME combineMail_group.
Proof using HL HUp.
  intros [|d arr] st Hne; [done|]. unfold combineMail_group. change (at_index (d :: arr) 0) with (Ret d). cbn [mbind go_bind].
  destruct arr as [|d' arr]; cbn [length]; (case_decide; [|]); try done.
  - exists (Mail.mk d.(MailDto.Email) d.(MailDto.Subject) d.(MailDto.Content)). eexists. split; [done|].
    split; [|by apply write_pushed]. split; [by exists d|done].
  - eexists (Mail.mk d.(MailDto.Email) _ _). eexists. split; [done|].
    split; [|by apply write_pushed]. split; [by exists d|done].
Qed.

Lemma sms_pushes_one : pushes_one (sms_medium cfg) (R := R) SMS_QUEUE_NAME (combineSms_group cfg E).
Proof using HL HUp.
  intros [|d arr] st Hne; [done|]. unfold combineSms_group. change (at_index (d :: arr) 0) with (Ret d). cbn [mbind go_bind].
  destruct arr as [|d' arr]; cbn [length]; (case_decide; [|]); try done.
  - exists (Sms.mk d.(SmsDto.Phone) d.(SmsDto.Content)). eexists. split; [done|].
    split; [|by apply write_pushed]. split; [by exists d|done].
  - destruct (example_endpoint_returns d.(SmsDto.Content)) as [eg ->]. cbn [mbind go_bind LinkToSMS].
    eexists (Sms.mk d.(SmsDto.Phone) _). eexists. split; [done|].
    split; [|by apply (write_pushed SMS_QUEUE_NAME _ (called st))]. split; [by exists d|]. cbn. eauto.
Qed.

Lemma im_pushes_one : pushes_one (im_medium cfg) (R := R) IM_QUEUE_NAME (combineIM_group cfg E).
Proof using HL HUp.
  intros [|d arr] st Hne; [done|]. unfold combineIM_group. change (at_index (d :: arr) 0) with (Ret d). cbn [mbind go_bind].
  destruct arr as [|d' arr]; cbn [length]; (case_decide; [|]); try done.
  - exists (IM.mk d.(ImDto.IM) d.(ImDto.Content)). eexists. split; [done|].
    split; [|by apply write_pushed]. split; [by exists d|done].
  - destruct (example_endpoint_returns d.(ImDto.Content)) as [eg ->]. cbn [mbind go_bind LinkToSMS].
    eexists (IM.mk d.(ImDto.IM) _). eexists. split; [done|].
    split; [|by apply (write_pushed IM_QUEUE_NAME _ (called st))]. split; [by exists d|]. cbn. eauto.
Qed.
End media.

(** What a run of a combiner must do to the messages that wait on the queue [user]. *)
Definition combines {R A M} `{Redis R} `{Json A} `{Json M} (md : medium A M) (user queue : string)
    (st : Alarm.state R) (run : option (go (Alarm.state R))) : Prop :=
  let dtos := decoded (reverse (content st.(redis) user)) in
  ∃ ms st', run = Some (Ret st') ∧ content st'.(redis) user = [] ∧
    content st'.(redis) queue = reverse ((λ m, Encoded (json_enc m)) <$> ms) ++ content st.(redis) queue ∧
    combined md dtos ms ∧ (told_apart md dtos → ∃ groups, mjoin groups ≡ₚ dtos ∧ Forall2 (addressed md) groups ms).

(** C22. When redis is up a combiner ends, empties its queue and loses nothing:
every message that was waiting there, and can be read, is in exactly one of the
messages written, together with the others of its key in the order of their
arrival; a mail holds the contents of all its parts.  When no receiver is the
beginning of another one, the message written goes to the receiver of each of
its parts, which agree on priority, status and metric. *)
Theorem combine_correct {R} `{HR : Redis R} {HL : RedisLaws R} {HUp : RedisUp R} (cfg : config) (E : env) fuel
    vm vs vi (st : Alarm.state R) :
  (∀ m, ranges (vm m) m) → (∀ m, ranges (vs m) m) → (∀ m, ranges (vi m) m) →
  cfg.(UserMailQueue) ≠ MAIL_QUEUE_NAME → cfg.(UserSmsQueue) ≠ SMS_QUEUE_NAME → cfg.(UserIMQueue) ≠ IM_QUEUE_NAME →
  (∀ q, length (content st.(redis) q) < fuel)%nat →
  combines mail_medium cfg.(UserMailQueue) MAIL_QUEUE_NAME st (combineMail cfg fuel vm st) ∧
  combines (sms_medium cfg) cfg.(UserSmsQueue) SMS_QUEUE_NAME st (combineSms cfg E fuel vs st) ∧
  combines (im_medium cfg) cfg.(UserIMQueue) IM_QUEUE_NAME st (combineIM cfg E fuel vi st).
Proof.
  intros Hvm Hvs Hvi Hm Hs Hi Hf. split_and!.
  - apply (combine_spec mail_medium); try done. apply mail_pushes_one.
  - apply (combine_spec (sms_medium cfg)); try done. apply sms_pushes_one.
  - apply (combine_spec (im_medium cfg)); try done. apply im_pushes_one.
Qed.

(** ** Concrete runs *)

Definition up : Redis Server.t := server (λ _, true).
Definition no_answers : env := Env Itoa (λ _ _, None) (λ _ _, None) (λ _ _ _, ("", None)) (λ _ _, Err "down")
  (λ _ m, map_to_list m) (λ _ _ X, elements X) (λ _ m, map_to_list m).
Definition ex_config : config :=
  Config ["event:p0"] ["event:p3"] "/queue/user/im" "/queue/user/sms" "/queue/user/mail" "http://d".
Definition ex_queued (l : list MailDto.t) : Alarm.state Server.t :=
  State (Server.mk {["/queue/user/mail" := reverse ((λ d, Encoded (json_enc d)) <$> l)]} 0) ∅ ∅ 0 [] [].
Definition ex_mails : list MailDto.t := [
  MailDto.mk 3 "cpu" "s1" "c1" "ann@x" "PROBLEM"; MailDto.mk 3 "mem" "s2" "c2" "ann@x" "PROBLEM";
  MailDto.mk 3 "cpu" "s3" "c3" "ann@x" "PROBLEM" ].

Example combine_correct_witness :
  ∃ st', combineMail (H := up) ex_config 9 map_to_list (ex_queued ex_mails) = Some (Ret st') ∧
    content (Redis := up) st'.(redis) "/queue/user/mail" = [] ∧
    content (Redis := up) st'.(redis) "/mail" = [
      Encoded (json_enc (Mail.mk "ann@x" "s2" "c2"));
      Encoded (json_enc (Mail.mk "ann@x" "[P3][PROBLEM] 2 cpu" ("c1" +:+ crlf +:+ "c3")))].
Proof.
  destruct (combine_correct (HR := up) (HL := server_laws _) (HUp := server_up) ex_config no_answers 9
    map_to_list map_to_list map_to_list (ex_queued ex_mails)) as [(ms & st' & E & Hq & Hm & _) _].
  - intros m. apply ranges_map_to_list.
  - intros m. apply ranges_map_to_list.
  - intros m. apply ranges_map_to_list.
  - discriminate.
  - discriminate.
  - discriminate.
  - intros q. cbn. unfold Server.list_of. cbn. destruct (decide (q = "/queue/user/mail")) as [->|Hne].
    + rewrite lookup_singleton_eq. vm_compute. lia.
    + rewrite lookup_singleton_ne by done. cbn. lia.
  - exists st'. split; [exact E|]. split; [exact Hq|].
    revert E. vm_compute. intros [= <-]. reflexivity.
Defined.

(** The keys of two messages may be equal although their receivers differ: the
mail of ["b@x.c"] about ["omcpu"] goes to ["b@x.com"] only, who gets both. *)
Example combine_misdirects :
  ∃ st', combineMail (H := up) ex_config 9 map_to_list (ex_queued [
      MailDto.mk 3 "cpu" "s1" "c1" "b@x.com" "PROBLEM"; MailDto.mk 3 "omcpu" "s2" "c2" "b@x.c" "PROBLEM" ]) = Some (Ret st') ∧
    content (Redis := up) st'.(redis) "/mail" = [
      Encoded (json_enc (Mail.mk "b@x.com" "[P3][PROBLEM] 2 cpu" ("c1" +:+ crlf +:+ "c2")))].
Proof. eexists. split; [vm_compute; reflexivity|]. vm_compute. reflexivity. Qed.
