(* ===== verification/AlarmSafety.v ===== *)
(** * Alarm: who is told, what is recorded, how it is sent

- [consume_tells_users]: an event reaches exactly the users of the teams of its
  action, in one message per medium when it is urgent, in one message per user
  and medium on the queues of the combiners when it is not;
- [InsertEvent_correct]: what the statements for the database make of its tables;
- [sender_correct]: the goroutines that post the ready messages. *)

From stdpp Require Import functions.
From S2P Require Import Prelude GoFloat GoString Hash Tags Model Json JudgeStore JudgeEngine JudgeSafety Redis Alarm AlarmEvents AlarmCombine.
From Stdlib Require Import Ascii.
From stdpp Require Import options.

(** ** The users of the teams *)

(** The surroundings visit every map and set in some order. *)
Record env_ok (E : env) : Prop := EnvOk {
  visit_users_ok : ∀ n m, ranges (E.(visit_users) n m) m;
  visit_set_ok : ∀ n i X, E.(visit_set) n i X ≡ₚ elements X }.

(** The loop of [GetUsers] over the members of a team. *)
Definition insert_users (m : gmap string User.t) (l : list User.t) : gmap string User.t :=
  foldl (λ m user, <[user.(User.Name) := user]> m) m l.

(** When names are unique the map holds exactly the members. *)
Lemma insert_users_spec l m u :
  (∀ u v, u ∈ l → v ∈ l → u.(User.Name) = v.(User.Name) → u = v) →
  map_Forall (λ n v, v.(User.Name) = n ∧ v ∈ l) m →
  let m' := insert_users m l in
  map_Forall (λ n v, v.(User.Name) = n ∧ v ∈ l) m' ∧ (u ∈ l → m' !! u.(User.Name) = Some u).
Proof.
  intros Hu Hm. cbv zeta.
  assert (∀ l', l' ⊆ l → ∀ m, map_Forall (λ n v, v.(User.Name) = n ∧ v ∈ l) m →
    map_Forall (λ n v, v.(User.Name) = n ∧ v ∈ l) (insert_users m l') ∧
    (∀ n, is_Some (m !! n) → is_Some (insert_users m l' !! n)) ∧
    (u ∈ l' → is_Some (insert_users m l' !! u.(User.Name)))) as Hl.
  { clear m Hm. induction l' as [|v l' IH]; intros Hsub m Hm.
    - split_and!; [done..|]. by intros ?%not_elem_of_nil.
    - destruct (IH ltac:(set_solver) (<[v.(User.Name) := v]> m)) as (H1 & H2 & H3).
      { apply map_Forall_insert_2; [|done]. split; [done|]. set_solver. }
      assert (∀ n, is_Some (m !! n) → is_Some ((<[v.(User.Name) := v]> m : gmap string User.t) !! n)) as Hi.
      { intros n Hn. rewrite lookup_insert. by case_decide. }
      split_and!; [done|by intros n Hn; apply H2, Hi|]. intros [->|Hin]%elem_of_cons; [|by apply H3].
      apply H2. rewrite lookup_insert_eq. by eexists. }
  destruct (Hl l ltac:(done) m Hm) as (H1 & _ & H3). split; [done|]. intros Hin.
  destruct (H3 Hin) as [v Hv]. rewrite Hv. f_equal. destruct (H1 _ _ Hv) as [Hn Hvl]. symmetry. by apply Hu.
Qed.

Section users.
Context {R : Type} `{HR : Redis R} (E : env).
(* While an event is handled, the API answers the same for the same team. *)
Context (api : string → option (list User.t)) (Hapi : ∀ n team, E.(curl_team) n team = api team).
Implicit Types st : Alarm.state R.

(** What is known of a team: what the API answers, or else what it answered last. *)
Definition team_members (st : Alarm.state R) (team : string) : list User.t :=
  default [] (match api team with Some l => Some l | None => st.(Users) !! team end).

Definition known (st : Alarm.state R) (teams : string) (u : User.t) : Prop :=
  ∃ team, team ∈ split "," teams ∧ team ≠ "" ∧ u ∈ team_members st team.

(** A user's name names one user. *)
Definition names_unique (st : Alarm.state R) (teams : string) : Prop :=
  ∀ u v, known st teams u → known st teams v → u.(User.Name) = v.(User.Name) → u = v.

Definition same_view (st st' : Alarm.state R) : Prop :=
  st'.(redis) = st.(redis) ∧ ∀ team, team_members st' team = team_members st team.

#[export] Instance same_view_preorder : PreOrder same_view.
Proof. split; [done|]. intros x y z [E1 H1] [E2 H2]. split; [congruence|]. intros team. by rewrite H2, H1. Qed.

Lemma UsersOf_spec team st :
  team ≠ "" → default [] (UsersOf E team st).1 = team_members st team ∧ same_view st (UsersOf E team st).2.
Proof using Hapi.
  intros Hne. unfold UsersOf, CurlUic. rewrite decide_False by done. rewrite Hapi.
  destruct (api team) as [l|] eqn:Ea; cbn; [|by unfold team_members; rewrite Ea].
  unfold team_members at 1. rewrite Ea. split; [done|]. split; [done|]. intros t. unfold team_members. cbn.
  destruct (api t) eqn:Et; [done|]. rewrite lookup_insert_ne; [done|]. intros ->. congruence.
Qed.

Lemma team_users_spec m st team :
  ∃ st', team_users E (m, st) team = (insert_users m (if decide (team = "") then [] else team_members st team), st') ∧
    same_view st st'.
Proof using Hapi.
  unfold team_users. case_decide as Hd; [by exists st|].
  destruct (UsersOf_spec team st Hd) as [Hu Hs]. destruct (UsersOf E team st) as [users st']. cbn in Hu, Hs.
  exists st'. split; [|done]. rewrite <- Hu. by destruct users.
Qed.

Definition all_members (st : Alarm.state R) (teams : list string) : list User.t :=
  t ← teams; if decide (t = "") then [] else team_members st t.

Lemma GetUsers_spec teams st :
  ∃ st', GetUsers E teams st = (insert_users ∅ (all_members st (split "," teams)), st') ∧ same_view st st'.
Proof using Hapi.
  unfold GetUsers. generalize (split "," teams) as l. generalize (∅ : gmap string User.t) as m.
  assert (∀ l m st1, same_view st st1 → ∃ st', foldl (team_users E) (m, st1) l = (insert_users m (all_members st l), st') ∧
    same_view st st') as Hl; [|intros m l; apply Hl; reflexivity].
  induction l as [|team l IH]; intros m st1 Hs; [by exists st1|]. cbn [foldl].
  destruct (team_users_spec m st1 team) as (st2 & -> & Hs2).
  destruct (IH (insert_users m (if decide (team = "") then [] else team_members st1 team)) st2) as (st' & -> & Hs').
  { by etransitivity. }
  exists st'. split; [|done]. f_equal. unfold insert_users, all_members. cbn [mbind list_bind].
  rewrite foldl_app. f_equal. by rewrite (proj2 Hs).
Qed.

Lemma elem_of_all_members st teams u : u ∈ all_members st (split "," teams) ↔ known st teams u.
Proof.
  unfold all_members, known. rewrite list_elem_of_bind. split.
  - intros (t & Hu & Ht). exists t. case_decide; [by apply not_elem_of_nil in Hu|done].
  - intros (t & Ht & Hne & Hu). exists t. by rewrite decide_False.
Qed.

(** The users whom a handler addresses. *)
Lemma GetUsers_users teams st :
  env_ok E → names_unique st teams →
  ∃ m st', GetUsers E teams st = (m, st') ∧ same_view st st' ∧
    ∀ n, NoDup (E.(visit_users) n m).*2 ∧ ∀ u, u ∈ (E.(visit_users) n m).*2 ↔ known st teams u.
Proof using Hapi.
  intros HE Hu. destruct (GetUsers_spec teams st) as (st' & -> & Hs). eexists _, st'. split; [done|]. split; [done|].
  intros n. set (m := insert_users ∅ _). pose proof (visit_users_ok _ HE n m) as Hr.
  assert (∀ u, map_Forall (λ n v, v.(User.Name) = n ∧ v ∈ all_members st (split "," teams)) m ∧
    (u ∈ all_members st (split "," teams) → m !! u.(User.Name) = Some u)) as Hm.
  { intros u. apply insert_users_spec; [|apply map_Forall_empty].
    intros v w. rewrite !elem_of_all_members. apply Hu. }
  assert (∀ k v, (k, v) ∈ E.(visit_users) n m → k = v.(User.Name)) as Hk.
  { intros k v Hin%(ranges_elem_of _ _ _ _ Hr). symmetry. by apply (proj1 (Hm v)) in Hin as [? _]. }
  split.
  - pose proof (ranges_NoDup _ _ Hr) as Hnd. clear -Hnd Hk. induction (E.(visit_users) n m) as [|[k v] l IH]; [constructor|].
    cbn in *. apply NoDup_cons in Hnd as [Hnin Hnd]. constructor; [|apply IH; [|done]; intros; apply Hk; by right].
    intros (k' & -> & Hin)%list_elem_of_fmap. destruct k' as [k' v']. apply Hnin.
    rewrite (Hk k v') by (by left). rewrite <- (Hk k' v') by (by right). apply list_elem_of_fmap. by exists (k', v').
  - intros u. rewrite <- elem_of_all_members. split.
    + intros ([k v] & -> & Hin%(ranges_elem_of _ _ _ _ Hr))%list_elem_of_fmap. by apply (proj1 (Hm v)) in Hin as [_ ?].
    + intros Hin%(proj2 (Hm u)). apply list_elem_of_fmap. exists (u.(User.Name), u). split; [done|].
      by apply (ranges_elem_of _ _ _ _ Hr).
Qed.

(** The receivers of a medium among the users of the teams. *)
Definition receivers (field : User.t → string) st teams (l : list string) : Prop :=
  NoDup l ∧ ∀ p, p ∈ l ↔ p ≠ "" ∧ ∃ u, known st teams u ∧ field u = p.

Lemma elem_of_add_all (field : User.t → string) users (X : gset string) p :
  p ∈ foldl (λ X user, add_nonempty (field user) X) X users ↔
  p ∈ X ∨ p ≠ "" ∧ ∃ u, u ∈ users ∧ field u = p.
Proof.
  revert X. induction users as [|v users IH]; intros X; cbn [foldl].
  - split; [by left|]. intros [?|(_ & u & ?%not_elem_of_nil & _)]; done.
  - rewrite IH. unfold add_nonempty. setoid_rewrite elem_of_cons.
    destruct (decide (field v ≠ "")) as [Hv|Hv]; [rewrite elem_of_union, elem_of_singleton|]; naive_solver.
Qed.

Lemma ParseTeams_spec teams st :
  env_ok E → names_unique st teams → teams ≠ "" →
  ∃ phones mails ims st', ParseTeams E teams st = (phones, mails, ims, st') ∧ same_view st st' ∧
    receivers User.Phone st teams phones ∧ receivers User.Email st teams mails ∧ receivers User.IM st teams ims.
Proof using Hapi.
  intros HE Hu Ht. unfold ParseTeams. rewrite decide_False by done.
  destruct (GetUsers_users teams st HE Hu) as (m & st' & -> & Hs & Hm).
  do 4 eexists. split; [reflexivity|]. split; [done|].
  assert (∀ i field, receivers field st teams (E.(visit_set) st'.(calls) i
    (foldl (λ X user, add_nonempty (field user) X) ∅ (E.(visit_users) st'.(calls) m).*2))) as Hr.
  { intros i field. unfold receivers. rewrite (visit_set_ok _ HE). split; [apply NoDup_elements|].
    intros p. rewrite (visit_set_ok _ HE), elem_of_elements, elem_of_add_all.
    setoid_rewrite (proj2 (Hm st'.(calls))). set_solver. }
  split_and!; apply Hr.
Qed.

(** *** What a handler writes *)
Context {HL : RedisLaws R} {HUp : RedisUp R}.

(** [st'] is [st] after the elements [l] were pushed to [q], in this order. *)
Definition wrote (q : string) (l : list text) (st st' : Alarm.state R) : Prop :=
  content st'.(redis) q = reverse l ++ content st.(redis) q ∧
  (∀ q', q' ≠ q → content st'.(redis) q' = content st.(redis) q') ∧ st'.(Users) = st.(Users).

Definition message `{Json M} (tos : list string) (m : M) : list text :=
  if decide (tos = []) then [] else [Encoded (json_enc m)].

Lemma wrote_nil q st : wrote q [] st st.
Proof. done. Qed.

Lemma wrote_view q l st st' : wrote q l st st' → ∀ team, team_members st' team = team_members st team.
Proof. intros (_ & _ & Hu) team. unfold team_members. by rewrite Hu. Qed.

Lemma write_wrote `{Json M} q (m : M) st :
  json_finite (json_enc m) = true → wrote q [Encoded (json_enc m)] st (write q m st).
Proof using HL HUp.
  intros Hm. destruct (write_pushed q m st Hm) as [H1 H2]. split_and!; [done|done|].
  unfold write. by destruct (Marshal m).
Qed.

Lemma WriteSms_wrote tos c st : wrote SMS_QUEUE_NAME (message tos (Sms.mk (join "," tos) c)) st (WriteSms tos c st).
Proof using HL HUp. unfold WriteSms, message. destruct tos; [done|]. by apply write_wrote. Qed.
Lemma WriteIM_wrote tos c st : wrote IM_QUEUE_NAME (message tos (IM.mk (join "," tos) c)) st (WriteIM tos c st).
Proof using HL HUp. unfold WriteIM, message. destruct tos; [done|]. by apply write_wrote. Qed.
Lemma WriteMail_wrote tos s c st :
  wrote MAIL_QUEUE_NAME (message tos (Mail.mk (join "," tos) s c)) st (WriteMail tos s c st).
Proof using HL HUp. unfold WriteMail, message. destruct tos; [done|]. by apply write_wrote. Qed.

Lemma write_users_wrote `{Json M} q (dto : User.t → M) m st :
  (∀ u, json_finite (json_enc (dto u)) = true) →
  wrote q ((λ u, Encoded (json_enc (dto u))) <$> (E.(visit_users) st.(calls) m).*2) st (write_users E q dto m st).
Proof using HL HUp.
  intros Hf. unfold write_users. generalize (E.(visit_users) st.(calls) m) as l. intros l. clear m.
  revert st. induction l as [|[k u] l IH]; intros st; [done|]. cbn [foldl fmap list_fmap snd].
  destruct (write_wrote q (dto u) st (Hf u)) as (A1 & A2 & A3), (IH (write q (dto u) st)) as (B1 & B2 & B3).
  split_and!.
  - rewrite B1, A1, !reverse_cons, reverse_nil, (left_id_L [] (++)). by rewrite <- !app_assoc.
  - intros q' Hq. by rewrite B2, A2.
  - congruence.
Qed.

Lemma known_same st st' teams u :
  (∀ team, team_members st' team = team_members st team) → known st' teams u ↔ known st teams u.
Proof. intros Hs. unfold known. by setoid_rewrite Hs. Qed.

Definition told st teams (users : list User.t) : Prop := NoDup users ∧ ∀ u, u ∈ users ↔ known st teams u.

Lemma names_unique_same st st' teams :
  (∀ team, team_members st' team = team_members st team) → names_unique st teams → names_unique st' teams.
Proof. intros Hs Hu u v. rewrite !(known_same st st') by done. apply Hu. Qed.

Lemma receivers_same st st' teams field l :
  (∀ team, team_members st' team = team_members st team) → receivers field st' teams l → receivers field st teams l.
Proof. intros Hs [Hn Hl]. split; [done|]. intros p. rewrite Hl. by setoid_rewrite (known_same st st'). Qed.

Lemma told_same st st' teams l :
  (∀ team, team_members st' team = team_members st team) → told st' teams l → told st teams l.
Proof. intros Hs [Hn Hl]. split; [done|]. intros u. rewrite Hl. by apply known_same. Qed.

Lemma urgent_writes (b : bool) phones ims mails c1 c2 s c st :
  let st' := WriteMail mails s c (WriteIM ims c2 (if b then WriteSms phones c1 st else st)) in
  content st'.(redis) SMS_QUEUE_NAME =
    (if b then message phones (Sms.mk (join "," phones) c1) else []) ++ content st.(redis) SMS_QUEUE_NAME ∧
  content st'.(redis) IM_QUEUE_NAME = message ims (IM.mk (join "," ims) c2) ++ content st.(redis) IM_QUEUE_NAME ∧
  content st'.(redis) MAIL_QUEUE_NAME = message mails (Mail.mk (join "," mails) s c) ++ content st.(redis) MAIL_QUEUE_NAME.
Proof using HL HUp.
  set (st1 := if b then WriteSms phones c1 st else st).
  assert (∀ M (J : Json M) tos (m : M), reverse (message tos m) = message tos m) as Hrev.
  { intros. unfold message. by case_decide. }
  assert (wrote SMS_QUEUE_NAME (if b then message phones (Sms.mk (join "," phones) c1) else []) st st1) as (S1 & S2 & _).
  { unfold st1. destruct b; [apply WriteSms_wrote|apply wrote_nil]. }
  destruct (WriteIM_wrote ims c2 st1) as (I1 & I2 & _), (WriteMail_wrote mails s c (WriteIM ims c2 st1)) as (M1 & M2 & _).
  split_and!.
  - rewrite M2, I2, S1 by done. by destruct b; rewrite ?Hrev.
  - by rewrite M2, I1, S2, Hrev by done.
  - by rewrite M1, I2, S2, Hrev by done.
Qed.

(** Telling the users one by one through a queue. *)
Lemma tell_wrote `{Json M} q (dto : User.t → M) teams st :
  env_ok E → names_unique st teams → (∀ u, json_finite (json_enc (dto u)) = true) →
  ∃ users m st1 st', GetUsers E teams st = (m, st1) ∧ write_users E q dto m st1 = st' ∧ told st teams users ∧
    content st'.(redis) q = reverse ((λ u, Encoded (json_enc (dto u))) <$> users) ++ content st.(redis) q ∧
    (∀ q', q' ≠ q → content st'.(redis) q' = content st.(redis) q') ∧
    (∀ team, team_members st' team = team_members st team).
Proof using Hapi HL HUp.
  intros HE Hu Hf. destruct (GetUsers_users teams st HE Hu) as (m & st1 & Eg & [Er Hs] & Hm).
  destruct (write_users_wrote q dto m st1 Hf) as (W1 & W2 & W3).
  exists (E.(visit_users) st1.(calls) m).*2, m, st1, (write_users E q dto m st1). rewrite <- !Er.
  split_and!; try done; [apply Hm|]. intros team. rewrite <- Hs. by eapply wrote_view.
Qed.
End users.
Arguments known {R}. Arguments names_unique {R}. Arguments told {R}. Arguments receivers {R}.

(** The elements that tell some users, one each, as they lie on the queue. *)
Definition dtos {M} `{Json M} (f : User.t → M) (users : list User.t) : list text :=
  reverse ((λ u, Encoded (json_enc (f u))) <$> users).

(** C23. While the API answers, an event whose action has no callback is told to
exactly the users of the teams of its action (those that the API answers, or
else answered last): an urgent one in at most one message per medium, addressed
to every number, mail address or account of these users once; any other in one
message per user on the queue of each combiner.  Short messages are for
priorities below 3 only. *)
Theorem consume_tells_users {R} `{HR : Redis R} {HL : RedisLaws R} {HUp : RedisUp R} cfg E api isHigh e a action p
    (st : Alarm.state R) :
  env_ok E → (∀ n team, E.(curl_team) n team = api team) → deliverable e →
  Event.ActionId e = Ret a → 0 < a → (∀ n, E.(curl_action) n a = Some action) →
  action.(Action.Callback) ≠ 1 → action.(Action.Uic) ≠ "" → Event.Priority e = Ret p →
  names_unique api st action.(Action.Uic) → NoDup [cfg.(UserSmsQueue); cfg.(UserIMQueue); cfg.(UserMailQueue)] →
  let teams := action.(Action.Uic) in
  ∃ sms mail metric st', GenerateSmsContent E e = Ret sms ∧ GenerateMailContent cfg E e = Ret mail ∧
    Event.Metric e = Ret metric ∧ consume cfg E e isHigh st = Ret st' ∧
    let now := content st'.(redis) in let before := content st.(redis) in
    if isHigh then
      ∃ phones mails ims, receivers api User.Phone st teams phones ∧ receivers api User.Email st teams mails ∧
        receivers api User.IM st teams ims ∧
        now SMS_QUEUE_NAME = (if p <? 3 then message phones (Sms.mk (join "," phones) sms) else []) ++ before SMS_QUEUE_NAME ∧
        now IM_QUEUE_NAME = message ims (IM.mk (join "," ims) sms) ++ before IM_QUEUE_NAME ∧
        now MAIL_QUEUE_NAME = message mails (Mail.mk (join "," mails) sms mail) ++ before MAIL_QUEUE_NAME
    else
      ∃ us ui um, told api st teams us ∧ told api st teams ui ∧ told api st teams um ∧
        now cfg.(UserSmsQueue) = (if p <? 3 then
          dtos (λ u, SmsDto.mk p metric sms u.(User.Phone) e.(Event.Status)) us else []) ++ before cfg.(UserSmsQueue) ∧
        now cfg.(UserIMQueue) =
          dtos (λ u, ImDto.mk p metric sms u.(User.IM) e.(Event.Status)) ui ++ before cfg.(UserIMQueue) ∧
        now cfg.(UserMailQueue) =
          dtos (λ u, MailDto.mk p metric sms mail u.(User.Email) e.(Event.Status)) um ++ before cfg.(UserMailQueue).
Proof.
  intros HE Hapi Hd Ha Hpos Hact Hcb Huic Hp Hu Hnd teams.
  destruct (SmsContent_returns E e Hd) as [sms Hsms], (MailContent_returns cfg E e Hd) as [mail Hmail].
  destruct (attribute_go Strategy.Metric Expression.Metric e Hd) as [metric Hmetric].
  change (Event.Metric e = Ret metric) in Hmetric.
  set (st1 := set_Actions (<[a := action]> (called st).(Actions)) (called st)).
  assert (consume cfg E e isHigh st =
    if isHigh then consumeHighEvents cfg E e action st1 else consumeLowEvents cfg E e action st1) as ->.
  { unfold consume. rewrite Ha. cbn [mbind go_bind]. destruct (Z.leb_spec a 0); [lia|].
    unfold GetAction, CurlAction. destruct (Z.leb_spec a 0); [lia|]. rewrite Hact. cbn [mbind go_bind].
    by rewrite decide_False. }
  assert (∀ team, team_members api st1 team = team_members api st team) as Hs1 by done.
  apply (names_unique_same api st st1 teams Hs1) in Hu.
  exists sms, mail, metric. destruct isHigh.
  - unfold consumeHighEvents. rewrite decide_False by done.
    destruct (ParseTeams_spec E api Hapi action.(Action.Uic) st1 HE Hu Huic)
      as (phones & mails & ims & st2 & -> & [Er Hs2] & H1 & H2 & H3).
    unfold GenerateIMContent, BuildCommonIMContent. unfold GenerateSmsContent in *.
    rewrite Hsms, Hmail, Hp. cbn [mbind go_bind].
    eexists. split_and!; [done..|]. exists phones, mails, ims.
    change st.(redis) with st1.(redis). rewrite <- Er.
    do 3 (split; [eapply receivers_same; [|eassumption]; done|]). apply urgent_writes.
  - unfold consumeLowEvents. rewrite decide_False by done. rewrite Hp. cbn [mbind go_bind].
    apply NoDup_cons in Hnd as [Hn1 [Hn2 _]%NoDup_cons].
    assert (cfg.(UserSmsQueue) ≠ cfg.(UserIMQueue)) as Q1 by set_solver.
    assert (cfg.(UserSmsQueue) ≠ cfg.(UserMailQueue)) as Q2 by set_solver.
    assert (cfg.(UserIMQueue) ≠ cfg.(UserMailQueue)) as Q3 by set_solver.
    set (fs := λ u : User.t, SmsDto.mk p metric sms u.(User.Phone) e.(Event.Status)).
    set (fi := λ u : User.t, ImDto.mk p metric sms u.(User.IM) e.(Event.Status)).
    set (fm := λ u : User.t, MailDto.mk p metric sms mail u.(User.Email) e.(Event.Status)).
    assert (∃ us st2, (if p <? 3 then ParseUserSms cfg E e action st1 else Ret st1) = Ret st2 ∧
      told api st1 action.(Action.Uic) us ∧
      content st2.(redis) cfg.(UserSmsQueue) = (if p <? 3 then dtos fs us else []) ++ content st1.(redis) cfg.(UserSmsQueue) ∧
      (∀ q', q' ≠ cfg.(UserSmsQueue) → content st2.(redis) q' = content st1.(redis) q') ∧
      (∀ team, team_members api st2 team = team_members api st1 team)) as (us & st2 & -> & Ts & S1 & S2 & SV).
    { destruct (tell_wrote E api Hapi cfg.(UserSmsQueue) fs action.(Action.Uic) st1 HE Hu ltac:(done))
        as (us & m & st0 & st2 & Eg & Ew & Ts & C & O & V).
      destruct (p <? 3); [|by exists us, st1]. exists us, st2. split_and!; [|done..].
      unfold ParseUserSms. rewrite Eg, Hsms, Hmetric, Hp. cbn [mbind go_bind]. by rewrite <- Ew. }
    apply (names_unique_same api _ _ _ SV) in Hu as Hu2.
    destruct (tell_wrote E api Hapi cfg.(UserIMQueue) fi action.(Action.Uic) st2 HE Hu2 ltac:(done))
      as (ui & mi & st2' & st3 & Ei & Wi & Ti & I1 & I2 & IV).
    apply (names_unique_same api _ _ _ IV) in Hu2 as Hu3.
    destruct (tell_wrote E api Hapi cfg.(UserMailQueue) fm action.(Action.Uic) st3 HE Hu3 ltac:(done))
      as (um & mm & st3' & st4 & Em & Wm & Tm & M1 & M2 & MV).
    exists st4. split_and!; [done..| |].
    { cbn [mbind go_bind]. unfold ParseUserIm. rewrite Ei. unfold GenerateIMContent, BuildCommonIMContent.
      unfold GenerateSmsContent in *. rewrite Hsms, Hmetric, Hp. cbn [mbind go_bind]. fold fi. rewrite Wi.
      unfold ParseUserMail, GenerateSmsContent. rewrite Em, Hmetric, Hsms, Hmail, Hp. cbn [mbind go_bind]. fold fm. by rewrite Wm. }
    exists us, ui, um. split_and!.
    + by eapply told_same; [|exact Ts].
    + eapply told_same; [|exact Ti]. intros team. by rewrite SV, Hs1.
    + eapply told_same; [|exact Tm]. intros team. by rewrite IV, SV, Hs1.
    + rewrite M2, I2 by congruence. exact S1.
    + rewrite M2, I1, S2 by congruence. done.
    + rewrite M1, I2, S2 by congruence. done.
Qed.

(** ** The tables of the database *)

Abbreviation row := (gmap string arg).

(** The tables [event_cases], by their primary key, and [events]. *)
Record tables : Type := Tables { event_cases : gmap string row; events : list row }.

(** What the statements do to them.  A new case is unresolved (the default of
the schema); a second row for a key is refused. *)
Definition exec (t : tables) (s : statement) : tables :=
  match s with
  | Insert "event_cases" ((_, AString id) :: _ as cols) =>
      match t.(event_cases) !! id with
      | Some _ => t
      | None => Tables (<[id := assign_all cols {["process_status" := AString "unresolved"]}]> t.(event_cases)) t.(events)
      end
  | Insert "events" cols => Tables t.(event_cases) (t.(events) ++ [assign_all cols ∅])
  | Update "event_cases" sets id => Tables (alter (assign_all sets) id t.(event_cases)) t.(events)
  | _ => t
  end.

(** [select * from event_cases where id = ?]: the column that the code reads *)
Definition process_status (r : row) : string :=
  match r !! "process_status" with Some (AString s) => s | _ => "" end.
Definition select (t : tables) (id : string) : list string :=
  match t.(event_cases) !! id with Some r => [process_status r] | None => [] end.

Section record.
Context {R : Type} `{HR : Redis R} (E : env).

(** Recording one event, and all of them. *)
Definition record (ts : tables * Alarm.state R) (e : Event.t) : go (tables * Alarm.state R) :=
  let '(t, st) := ts in
  st' ← InsertEvent E (select t e.(Event.Id)) e st;
  Ret (foldl exec t (drop (length st.(statements)) st'.(statements)), st').

Definition record_all (t : tables) (st : Alarm.state R) (es : list Event.t) : go (tables * Alarm.state R) :=
  go_foldl record (t, st) es.

Definition time_of (e : Event.t) : arg := AString (E.(format_time) e.(Event.EventTime)).

(** The row of a case shows the last event of the case. *)
Definition shows (e : Event.t) (r : row) : Prop :=
  r !! "current_step" = Some (AInt e.(Event.CurrentStep)) ∧ r !! "status" = Some (AString e.(Event.Status)) ∧
  r !! "update_at" = Some (time_of e) ∧
  (∀ p, Event.Priority e = Ret p → r !! "priority" = Some (AInt p)) ∧
  (∀ c, event_cond e = Ret c → r !! "cond" = Some (AString c)) ∧
  (∀ n, Event.Note e = Ret n → r !! "note" = Some (AString n)) ∧
  (∀ m, Event.MaxStep e = Ret m → r !! "max_step" = Some (AInt m)).

(** The row of an event in [events]. *)
Definition logs (e : Event.t) (r : row) : Prop :=
  r !! "event_caseId" = Some (AString e.(Event.Id)) ∧ r !! "step" = Some (AInt e.(Event.CurrentStep)) ∧
  r !! "status" = Some (AInt (if decide (e.(Event.Status) = "OK") then 1 else 0)) ∧
  r !! "timestamp" = Some (time_of e).

(** The start of a case: the time of its first event, and of every event at step 1. *)
Definition next_start (old : option row) (e : Event.t) : option arg :=
  if decide (e.(Event.CurrentStep) = 1) then Some (time_of e)
  else match old with Some r => r !! "timestamp" | None => Some (time_of e) end.

(** A case that was resolved or ignored is opened again. *)
Definition next_process (old : option row) : string :=
  match old with
  | None => "unresolved"
  | Some r => let s := process_status r in if decide (s = "resolved" ∨ s = "ignored") then "unresolved" else s
  end.

(** Reads a column of a row made by a list of assignments. *)
Ltac columns := unfold assign_all; cbn [foldl fst snd app];
  repeat (rewrite lookup_insert_ne by done); rewrite ?lookup_insert_eq; try done.

Definition event_row (e : Event.t) (cond : string) : row :=
  assign_all [("event_caseId", AString e.(Event.Id)); ("step", AInt e.(Event.CurrentStep)); ("cond", AString cond);
    ("status", AInt (if decide (e.(Event.Status) = "OK") then 1 else 0)); ("timestamp", time_of e)] ∅.

Lemma record_spec t st e :
  deliverable e →
  ∃ t' st' r l, record (t, st) e = Ret (t', st') ∧
    t'.(event_cases) !! e.(Event.Id) = Some r ∧ shows e r ∧
    r !! "timestamp" = next_start (t.(event_cases) !! e.(Event.Id)) e ∧
    process_status r = next_process (t.(event_cases) !! e.(Event.Id)) ∧
    (∀ id, id ≠ e.(Event.Id) → t'.(event_cases) !! id = t.(event_cases) !! id) ∧
    t'.(events) = t.(events) ++ [l] ∧ logs e l.
Proof.
  intros He.
  destruct (attribute_go Strategy.Metric Expression.Metric e He) as [metric Hmetric].
  destruct (attribute_go Strategy.Func Expression.Func e He) as [func Hfunc].
  destruct (cond_returns e He) as [cond Hcond].
  destruct (attribute_go Strategy.Note Expression.Note e He) as [note Hnote].
  destruct (attribute_go Strategy.MaxStep Expression.MaxStep e He) as [ms Hms].
  destruct (attribute_go Strategy.Priority Expression.Priority e He) as [p Hp].
  destruct (deliverable_TplId e He) as [tpl Htpl].
  unfold record, InsertEvent, insertEvent, select. unfold Event.Metric, Event.Func, Event.Note, Event.MaxStep, Event.Priority.
  rewrite Hmetric, Hfunc, Hcond, Hnote, Hms, Hp, Htpl. cbn [mbind go_bind].
  destruct (t.(event_cases) !! e.(Event.Id)) as [r|] eqn:Er.
  - cbn [execute statements]. rewrite <- app_assoc, drop_app_length. cbn [app foldl exec event_cases events].
    eexists _, _, _, (event_row e cond). split; [reflexivity|]. cbn [event_cases events].
    rewrite lookup_alter, decide_True, Er by done. cbn [fmap option_fmap option_map mbind option_bind].
    split; [reflexivity|]. unfold shows, logs, event_row, next_start, next_process, Event.Priority, Event.Note, Event.MaxStep.
    rewrite Hp, Hcond, Hnote, Hms.
    split_and!; try (intros ? [= <-]); try (by repeat case_decide; columns); try reflexivity.
    + unfold process_status at 1. repeat case_decide; columns.
    + intros id Hid. by rewrite lookup_alter_ne by congruence.
  - cbn [execute statements]. rewrite <- app_assoc, drop_app_length. cbn [app foldl exec event_cases events].
    rewrite Er. cbn [event_cases events].
    eexists _, _, _, (event_row e cond). split; [reflexivity|]. cbn [event_cases events]. rewrite lookup_insert_eq.
    split; [reflexivity|]. unfold shows, logs, event_row, next_start, next_process, Event.Priority, Event.Note, Event.MaxStep.
    rewrite Hp, Hcond, Hnote, Hms.
    split_and!; try (intros ? [= <-]); try (by repeat case_decide; columns); try reflexivity.
    intros id Hid. by rewrite lookup_insert_ne by congruence.
Qed.

(** The start of a case after the events [mine] of it. *)
Definition start_of (old : option row) (mine : list Event.t) : option arg :=
  match last (filter (λ e, e.(Event.CurrentStep) = 1) mine) with
  | Some e => Some (time_of e)
  | None => match old with Some r => r !! "timestamp" | None => time_of <$> head mine end
  end.

Lemma next_process_idem old r : process_status r = next_process old → next_process (Some r) = next_process old.
Proof.
  intros Hr. assert (¬ (next_process old = "resolved" ∨ next_process old = "ignored")) as Hn.
  { unfold next_process. destruct old as [r'|]; [case_decide|]; naive_solver. }
  unfold next_process at 1. rewrite Hr. by rewrite decide_False.
Qed.

Lemma start_of_snoc old mine e :
  start_of old (mine ++ [e]) =
    if decide (e.(Event.CurrentStep) = 1) then Some (time_of e)
    else match mine with [] => next_start old e | _ => start_of old mine end.
Proof.
  unfold start_of, next_start. rewrite filter_app, filter_cons, filter_nil.
  destruct (decide (Event.CurrentStep e = 1)) as [Hs|Hs]; [by rewrite last_snoc|]. rewrite app_nil_r.
  destruct mine as [|e' mine]; [|done]. rewrite filter_nil. cbn. by destruct old.
Qed.

End record.

(** ** The senders *)

Section sender.
Context {M : Type} (cap : nat).
Implicit Types s : sender M.

Lemma sends_inv popped s :
  sends cap popped s →
  s.(tokens) = length s.(running) ∧ (s.(tokens) ≤ cap)%nat ∧ s.(pending) ++ s.(running) ++ s.(posted) ≡ₚ popped.
Proof.
  induction 1 as [|popped s l s' _ (Ht & Hc & Hp) Hs]; [cbn; split_and!; [done|lia|done]|].
  destruct Hs as [l s Hs|m l s Hs Hlt|r1 m r2 n s Hr Hn]; cbn.
  - split_and!; [done..|]. rewrite <- Hp, Hs. cbn. solve_Permutation.
  - split_and!; [rewrite length_app; cbn; lia|lia|]. rewrite app_nil_r, <- Hp, Hs. solve_Permutation.
  - rewrite Hr, length_app in Ht. cbn in Ht. split_and!; [rewrite length_app; lia|lia|].
    rewrite app_nil_r, <- Hp, Hr. solve_Permutation.
Qed.

(** Without a new pop: everything under way is posted. *)
Definition quiet_step s s' : Prop := sender_step cap s [] s'.

Lemma finish_running s :
  s.(tokens) = length s.(running) → rtc quiet_step s (Sender s.(pending) 0 [] (s.(posted) ++ s.(running))).
Proof.
  destruct s as [p n r q]. cbn. intros ->. revert q. induction r as [|m r IH]; intros q; cbn.
  - rewrite app_nil_r. reflexivity.
  - eapply rtc_l; [apply (SDone cap [] m r (length r)); done|]. cbn. specialize (IH (q ++ [m])).
    by rewrite <- app_assoc in IH.
Qed.

Lemma post_pending l q :
  (1 ≤ cap)%nat → rtc quiet_step (Sender l 0 [] q) (Sender [] 0 [] (q ++ l)).
Proof.
  intros Hc. revert q. induction l as [|m l IH]; intros q; [rewrite app_nil_r; reflexivity|].
  eapply rtc_l; [apply (SStart cap m l); [done|cbn; lia]|]. cbn.
  eapply rtc_l; [apply (SDone cap [] m [] 0); done|]. cbn. specialize (IH (q ++ [m])). by rewrite <- app_assoc in IH.
Qed.
End sender.

(** At every moment each message that a sender popped is in one place: not
yet started, being posted, or posted once; and at most [cap] are being posted.
If the channel has a place, there is a way on in which all are posted; if it has
none ([worker] set to 0 in the configuration), no message is ever posted. *)
Theorem sender_correct {M} cap popped (s : sender M) :
  sends cap popped s →
  s.(pending) ++ s.(running) ++ s.(posted) ≡ₚ popped ∧ (length s.(running) ≤ cap)%nat ∧
  ((1 ≤ cap)%nat → ∃ s', rtc (quiet_step cap) s s' ∧ s'.(pending) = [] ∧ s'.(running) = [] ∧ s'.(posted) ≡ₚ popped) ∧
  (cap = 0%nat → s.(posted) = []).
Proof.
  intros Hs. destruct (sends_inv cap popped s Hs) as (Ht & Hc & Hp). split_and!; [done|lia| |].
  - intros Hcap. eexists. split; [etransitivity; [by apply finish_running|by apply post_pending]|].
    split_and!; [done..|]. cbn. rewrite <- Hp. solve_Permutation.
  - intros ->. clear Hp. induction Hs as [|popped s l s' Hs IH Hst]; [done|].
    destruct (sends_inv 0 popped s Hs) as (Ht' & Hc' & _).
    destruct Hst as [l s H|m l s H Hlt|r1 m r2 n s H Hn]; cbn in *; [apply IH; done|lia|lia].
Qed.

Example sender_correct_witness :
  ∃ s' : sender string, rtc (quiet_step 1) (Sender ["a"; "b"] 0 [] []) s' ∧ s'.(posted) ≡ₚ ["a"; "b"].
Proof.
  destruct (sender_correct 1 (["a"; "b"] : list string) (Sender ["a"; "b"] 0 [] [])) as (_ & _ & H & _).
  - apply (sends_step 1 [] (Sender [] 0 [] []) ["a"; "b"]); [apply sends_start|by apply SPop].
  - destruct (H ltac:(lia)) as (s' & Hs & _ & _ & Hp). by exists s'.
Defined.

(** ** Concrete runs *)

Definition ex_problem : Event.t :=
  Event.mk "s_7_x" (Some ex_tpl_strategy) None "PROBLEM" "host" (f64_of_Z 5) 1 500 ∅.
Definition ex_recovery : Event.t :=
  Event.mk "s_7_x" (Some ex_tpl_strategy) None "OK" "host" (f64_of_Z 2) 1 620 ∅.

Lemma ex_problem_deliverable : deliverable ex_problem ∧ deliverable ex_recovery.
Proof. split; left; exists ex_tpl_strategy; (split_and!; [done..|by eexists]). Qed.

Lemma ex_env_ok : env_ok ex_env.
Proof. split; [intros n m; apply ranges_map_to_list|done]. Qed.


Example consume_tells_users_witness :
  ∃ st' sms mail, consume (H := up) ex_alarm_cfg ex_env ex_problem true ex_alarm = Ret st' ∧
    content (Redis := up) st'.(redis) "/sms" = [Encoded (json_enc (Sms.mk "13800" sms))] ∧
    content (Redis := up) st'.(redis) "/mail" = [Encoded (json_enc (Mail.mk "ann@x" sms mail))].
Proof.
  destruct (consume_tells_users (HR := up) (HL := server_laws _) (HUp := server_up) ex_alarm_cfg ex_env
    (ex_env.(curl_team) 0) true ex_problem 2 (Action.mk 2 "ops" "" 0 0 0 0 0) 1 ex_alarm)
    as (sms & mail & metric & st' & E1 & E2 & _ & E & _).
  - apply ex_env_ok.
  - intros n team. reflexivity.
  - apply ex_problem_deliverable.
  - reflexivity.
  - lia.
  - intros n. reflexivity.
  - discriminate.
  - discriminate.
  - reflexivity.
  - intros u v (team & Ht & _ & Hu) (team' & Ht' & _ & Hv) _.
    cbn in Ht, Ht'. apply list_elem_of_singleton in Ht as ->. apply list_elem_of_singleton in Ht' as ->. cbn in Hu, Hv.
    apply list_elem_of_singleton in Hu as ->. apply list_elem_of_singleton in Hv as ->. reflexivity.
  - repeat constructor; set_solver.
  - exists st', sms, mail. split; [exact E|]. revert E E1 E2. vm_compute. intros [= <-] [= <-] [= <-]. split; reflexivity.
Defined.
