(* ===== verification/ConnPool.v ===== *)
(** * The pools of connections to the other services

vendor/github.com/toolkits/conn_pool (conn_pool.go and rpc_conn_pool), and the
pools that transfer and gateway make of it: common/backend_pool
(rpc_backends.go for RPC servers, tsdb_backends.go for OpenTSDB) and
modules/transfer/sender/conn_pools.go.

A pool is shared by the goroutines that call its server.  Its methods hold its
lock, so each is one step; a call takes a connection in one step ([Call_begin])
and gives it back, or drops it, in a later one ([Call_end]): between the two
any other call may begin or end.  The network is [wire]: how many sockets were
opened so far, each with its number, and on which of them Close was called. *)

From S2P Require Import Prelude GoString Transfer.
From Stdlib Require Import Ascii.
From stdpp Require Import options.

(** ** Connections *)

Record wire : Type := Wire { dialed : nat; closes : list nat }.

(** [RpcClient] and [TsdbClient], the implementations of the interface [NConn]:
a socket and its name.  Their method Close has a value receiver: the assignment
[this.cli = nil] changes a copy, so a client never counts as closed. *)
Module Conn.
Record t : Type := mk { cli : nat; name : string }.
#[global] Instance eq_dec : EqDecision t.
Proof. solve_decision. Defined.
Definition Closed (c : t) : bool := false.
Definition Close (c : t) (w : wire) : wire := Wire w.(dialed) (w.(closes) ++ [c.(cli)]).
End Conn.

(** The function [New] of a pool: a connection or an error, and the network after it. *)
Definition opener : Type := string → wire → option Conn.t * option error * wire.

(** ** The pool *)

Record ConnPool : Type := Pool {
  Name : string; Address : string; MaxConns : Z; MaxIdle : Z; Cnt : Z;
  active : Z; free : list Conn.t; all : gmap string Conn.t }.

Definition NewConnPool (name address : string) (maxConns maxIdle : Z) : ConnPool :=
  Pool name address maxConns maxIdle 0 0 [] ∅.

Definition with_active n (p : ConnPool) : ConnPool :=
  Pool p.(Name) p.(Address) p.(MaxConns) p.(MaxIdle) p.(Cnt) n p.(free) p.(all).
Definition with_free f (p : ConnPool) : ConnPool :=
  Pool p.(Name) p.(Address) p.(MaxConns) p.(MaxIdle) p.(Cnt) p.(active) f p.(all).
Definition with_all a (p : ConnPool) : ConnPool :=
  Pool p.(Name) p.(Address) p.(MaxConns) p.(MaxIdle) p.(Cnt) p.(active) p.(free) a.
Definition with_Cnt n (p : ConnPool) : ConnPool :=
  Pool p.(Name) p.(Address) p.(MaxConns) p.(MaxIdle) n p.(active) p.(free) p.(all).

Definition Proc (p : ConnPool) : string :=
  "Name:" +:+ p.(Name) +:+ ",Cnt:" +:+ Itoa p.(Cnt) +:+ ",active:" +:+ Itoa p.(active) +:+
  ",all:" +:+ Itoa (Z.of_nat (size p.(all))) +:+ ",free:" +:+ Itoa (Z.of_nat (length p.(free))).

Definition ErrMaxConn : error := "maximum connections reached".

Definition overMax (p : ConnPool) : bool := p.(MaxConns) <=? p.(active).
Definition overMaxIdle (p : ConnPool) : bool := p.(MaxIdle) <=? wrap32 (Z.of_nat (length p.(free))).
Definition increActive (p : ConnPool) : ConnPool := with_active (wrap32 (p.(active) + 1)) p.
Definition decreActive (p : ConnPool) : ConnPool := with_active (wrap32 (p.(active) - 1)) p.

Definition fetchFree (p : ConnPool) : option Conn.t * ConnPool :=
  match p.(free) with [] => (None, p) | c :: f => (Some c, with_free f p) end.
Definition addFree (c : Conn.t) (p : ConnPool) : ConnPool := with_free (p.(free) ++ [c]) p.

(** The name of the connection that is the [cnt]th of the pool [name], opened at [now]. *)
Definition conn_name (name : string) (cnt now : Z) : string :=
  name +:+ "_" +:+ Itoa cnt +:+ "_" +:+ Itoa now.

Definition newConn (New : opener) (now : Z) (p : ConnPool) (w : wire) : go (result Conn.t * ConnPool * wire) :=
  match New (conn_name p.(Name) p.(Cnt) now) w with
  | (conn, Some err, w') => Ret (Err err, p, match conn with Some c => Conn.Close c w' | None => w' end)
  | (conn, None, w') =>
      c ← deref conn;
      Ret (Ok c, with_all (<[c.(Conn.name) := c]> p.(all)) (with_Cnt (p.(Cnt) +₆₄ 1) p), w')
  end.

Definition deleteConn (c : Conn.t) (p : ConnPool) (w : wire) : ConnPool * wire :=
  (with_all (delete c.(Conn.name) p.(all)) p, Conn.Close c w).

Definition Fetch (New : opener) (now : Z) (p : ConnPool) (w : wire) : go (result Conn.t * ConnPool * wire) :=
  match fetchFree p with
  | (Some c, p') => Ret (Ok c, p', w)
  | (None, p') =>
      if overMax p' then Ret (Err ErrMaxConn, p', w)
      else newConn New now p' w ≫= λ r, match r with
        | (Err e, p'', w') => Ret (Err e, p'', w')
        | (Ok c, p'', w') => Ret (Ok c, increActive p'', w')
        end
  end.

Definition ForceClose (c : Conn.t) (p : ConnPool) (w : wire) : ConnPool * wire :=
  let (p', w') := deleteConn c p w in (decreActive p', w').

Definition Release (c : Conn.t) (p : ConnPool) (w : wire) : ConnPool * wire :=
  if overMaxIdle p then let (p', w') := deleteConn c p w in (decreActive p', w')
  else (addFree c p, w).

(** [Destroy]; [kvs] is the order in which the map [all] is visited. *)
Definition close_open (w : wire) (c : Conn.t) : wire := if Conn.Closed c then w else Conn.Close c w.
Definition Pool_Destroy (kvs : list (string * Conn.t)) (p : ConnPool) (w : wire) : ConnPool * wire :=
  (with_all ∅ (with_free [] (with_active 0 p)), foldl close_open (foldl close_open w p.(free)) kvs.*2).

(** ** The pools of RPC servers *)

(** The functions [New] that createOneRpcPool, createOneJsonrpcPool and
newTsdbConnPool install: the address is resolved and dialed, with the error of
each if it fails. *)
Definition dial (resolve connect : option error) : opener := λ name w,
  match resolve with
  | Some err => (None, Some err, w)
  | None => match connect with
            | Some err => (None, Some err, w)
            | None => (Some (Conn.mk w.(dialed) name), None, Wire (S w.(dialed)) w.(closes))
            end
  end.

Record SafeRpcConnPools : Type := Pools {
  M : gmap string ConnPool; Pools_MaxConns : Z; Pools_MaxIdle : Z; ConnTimeout : Z; CallTimeout : Z }.
Definition with_M m (ps : SafeRpcConnPools) : SafeRpcConnPools :=
  Pools m ps.(Pools_MaxConns) ps.(Pools_MaxIdle) ps.(ConnTimeout) ps.(CallTimeout).

Definition createOneRpcPool (name address : string) (maxConns maxIdle : Z) : ConnPool :=
  NewConnPool name address (wrap32 maxConns) (wrap32 maxIdle).

(** [CreateSafeRpcConnPools]; [CreateSafeJsonrpcConnPools] differs from it only
in the codec of its connections. *)
Definition create_pool (maxConns maxIdle : Z) (m : gmap string ConnPool) (address : string) : gmap string ConnPool :=
  match m !! address with
  | Some _ => m
  | None => <[address := createOneRpcPool address address maxConns maxIdle]> m
  end.
Definition CreateSafeRpcConnPools (maxConns maxIdle connTimeout callTimeout : Z) (cluster : list string) :
    SafeRpcConnPools :=
  Pools (foldl (create_pool maxConns maxIdle) ∅ cluster) maxConns maxIdle connTimeout callTimeout.

Definition Get (address : string) (ps : SafeRpcConnPools) : option ConnPool := ps.(M) !! address.

(** The first half of [Call]: taking a connection. *)
Definition Call_begin (New : opener) (now : Z) (addr : string) (ps : SafeRpcConnPools) (w : wire) :
    go (result Conn.t * SafeRpcConnPools * wire) :=
  match Get addr ps with
  | None => Ret (Err (addr +:+ " has no connection pool"), ps, w)
  | Some p => Fetch New now p w ≫= λ r, match r with
      | (Err e, p', w') =>
          Ret (Err (addr +:+ " get connection fail: conn <nil>, err " +:+ e +:+ ". proc: " +:+ Proc p'),
            with_M (<[addr := p']> ps.(M)) ps, w')
      | (Ok c, p', w') => Ret (Ok c, with_M (<[addr := p']> ps.(M)) ps, w')
      end
  end.

(** How the request made on a connection ends. *)
Inductive outcome : Set :=
| TimedOut
| Answered (err : option error).

(** The [select] of Call and of Send: what becomes of the connection, and the error. *)
Definition finish (who : string) (o : outcome) (c : Conn.t) (p : ConnPool) (w : wire) :
    option error * ConnPool * wire :=
  match o with
  | TimedOut => let (p', w') := ForceClose c p w in (Some (who +:+ ", call timeout"), p', w')
  | Answered (Some err) =>
      let (p', w') := ForceClose c p w in
      (Some (who +:+ ", call failed, err " +:+ err +:+ ". proc: " +:+ Proc p'), p', w')
  | Answered None => let (p', w') := Release c p w in (None, p', w')
  end.

(** The second half of [Call]; the pool is the one that its first half found. *)
Definition Call_end (o : outcome) (addr : string) (c : Conn.t) (ps : SafeRpcConnPools) (w : wire) :
    option error * SafeRpcConnPools * wire :=
  match Get addr ps with
  | None => (None, ps, w)
  | Some p => let '(err, p', w') := finish addr o c p w in (err, with_M (<[addr := p']> ps.(M)) ps, w')
  end.

(** A call during which no other one uses the pools. *)
Definition Call (New : opener) (now : Z) (o : outcome) (addr : string) (ps : SafeRpcConnPools) (w : wire) :
    go (option error * SafeRpcConnPools * wire) :=
  Call_begin New now addr ps w ≫= λ r, match r with
    | (Err e, ps', w') => Ret (Some e, ps', w')
    | (Ok c, ps', w') => Ret (Call_end o addr c ps' w')
    end.

(** [Destroy] of all pools; [kvs] and [orders] are the orders in which the maps are visited. *)
Definition Destroy (kvs : list (string * ConnPool)) (orders : string → list (string * Conn.t))
    (ps : SafeRpcConnPools) (w : wire) : SafeRpcConnPools * wire :=
  foldl (λ s addr, match s.1.(M) !! addr with
    | Some p => (with_M (delete addr s.1.(M)) s.1, (Pool_Destroy (orders addr) p s.2).2)
    | None => s
    end) (ps, w) kvs.*1.
Definition Proc_all (kvs : list (string * ConnPool)) : list string := Proc <$> kvs.*2.

(** ** The pool of OpenTSDB *)

Definition newTsdbConnPool (address : string) (maxConns maxIdle : Z) : ConnPool :=
  NewConnPool "tsdb" address (wrap32 maxConns) (wrap32 maxIdle).

Record TsdbConnPoolHelper : Type := Helper {
  h_pool : ConnPool; h_maxConns : Z; h_maxIdle : Z; h_connTimeout : Z; h_callTimeout : Z; h_address : string }.
Definition with_pool q (t : TsdbConnPoolHelper) : TsdbConnPoolHelper :=
  Helper q t.(h_maxConns) t.(h_maxIdle) t.(h_connTimeout) t.(h_callTimeout) t.(h_address).

Definition NewTsdbConnPoolHelper (address : string) (maxConns maxIdle connTimeout callTimeout : Z) :
    TsdbConnPoolHelper :=
  Helper (newTsdbConnPool address maxConns maxIdle) maxConns maxIdle connTimeout callTimeout address.

(** The halves of [Send]: taking a connection, and giving it back once the data are written. *)
Definition Send_begin (New : opener) (now : Z) (t : TsdbConnPoolHelper) (w : wire) :
    go (result Conn.t * TsdbConnPoolHelper * wire) :=
  Fetch New now t.(h_pool) w ≫= λ r, match r with
    | (Err e, p', w') => Ret (Err ("get connection fail: err " +:+ e +:+ ". proc: " +:+ Proc p'), with_pool p' t, w')
    | (Ok c, p', w') => Ret (Ok c, with_pool p' t, w')
    end.
Definition Send_end (o : outcome) (c : Conn.t) (t : TsdbConnPoolHelper) (w : wire) :
    option error * TsdbConnPoolHelper * wire :=
  let '(err, p', w') := finish t.(h_address) o c t.(h_pool) w in (err, with_pool p' t, w').

(** ** The pools of transfer *)

(** What [initConnPools] reads of the configuration of a cluster. *)
Record limits : Type := Limits { l_MaxConns : Z; l_MaxIdle : Z; l_ConnTimeout : Z; l_CallTimeout : Z }.

(** The addresses of the judge nodes, and those of all hosts of the graph nodes, as sets. *)
Definition judgeInstances (cluster : gmap string string) : gset string :=
  list_to_set (map_to_list cluster).*2.
Definition graphInstances (clusterList : gmap string (list string)) : gset string :=
  list_to_set (mjoin (map_to_list clusterList).*2).

(** [initConnPools]; [js] and [gs] are the orders in which ToSlice lists the two
sets, [tsdb] is the configuration of OpenTSDB where it is enabled. *)
Definition initConnPools (jl gl : limits) (tsdb : option (string * limits)) (js gs : list string) :
    SafeRpcConnPools * option TsdbConnPoolHelper * SafeRpcConnPools :=
  (CreateSafeRpcConnPools jl.(l_MaxConns) jl.(l_MaxIdle) jl.(l_ConnTimeout) jl.(l_CallTimeout) js,
   (λ al : string * limits, NewTsdbConnPoolHelper al.1 al.2.(l_MaxConns) al.2.(l_MaxIdle)
      al.2.(l_ConnTimeout) al.2.(l_CallTimeout)) <$> tsdb,
   CreateSafeRpcConnPools gl.(l_MaxConns) gl.(l_MaxIdle) gl.(l_ConnTimeout) gl.(l_CallTimeout) gs).

(** ** The interleaving of calls *)

Record state : Type := State { pools : SafeRpcConnPools; net : wire; calls : list (string * Conn.t) }.

(** A call begins, at any address, time and answer of the network; a call under way ends. *)
Inductive step : state → state → Prop :=
| SBegin resolve connect now addr ps w cs r ps' w' :
    Call_begin (dial resolve connect) now addr ps w = Ret (r, ps', w') →
    step (State ps w cs)
      (State ps' w' (match r with Ok c => (addr, c) :: cs | Err _ => cs end))
| SEnd o addr c ps w l1 l2 err ps' w' :
    Call_end o addr c ps w = (err, ps', w') →
    step (State ps w (l1 ++ (addr, c) :: l2)) (State ps' w' (l1 ++ l2)).

Definition start (ps : SafeRpcConnPools) : state := State ps (Wire 0 []) [].

Definition ex_pools : SafeRpcConnPools := CreateSafeRpcConnPools 1 1 1000 5000 ["h:1"].

Example second_call_reuses :
  (Call (dial None None) 100 (Answered None) "h:1" ex_pools (Wire 0 []) ≫= λ r,
    Call_begin (dial None None) 200 "h:1" r.1.2 r.2 ≫= λ r', Ret (r.1.1, r'.1.1)) =
  Ret (None, Ok (Conn.mk 0 "h:1_0_100")).
Proof. vm_compute. reflexivity. Qed.

(** ** The names of connections *)

Lemma conn_name_inj name c1 c2 t1 t2 :
  int64 c1 → int64 c2 → conn_name name c1 t1 = conn_name name c2 t2 → c1 = c2.
Proof.
  intros H1 H2 E. unfold conn_name in E. apply append_inv_head in E.
  change ("_" +:+ ?s) with (String "_" s) in E. injection E as E.
  apply app_inv_lacks in E as [E _]; [by apply Itoa_inj|by apply Itoa_lacks..].
Qed.

(** ** One pool

[used] are the connections of a pool that calls hold, [free] those that wait in it. *)

Definition live (used : list Conn.t) (p : ConnPool) : list Conn.t := p.(free) ++ used.

Record pool_inv (n : nat) (used : list Conn.t) (p : ConnPool) : Prop := {
  inv_names : NoDup (Conn.name <$> live used p);
  inv_numbered c : c ∈ live used p → ∃ k t, 0 <= k < p.(Cnt) ∧ c.(Conn.name) = conn_name p.(Name) k t;
  inv_Cnt : 0 <= p.(Cnt) <= Z.of_nat n;
  inv_all m c : p.(all) !! m = Some c ↔ c ∈ live used p ∧ c.(Conn.name) = m;
  inv_active : p.(active) = Z.of_nat (length (live used p));
  inv_max : p.(active) <= p.(MaxConns) `max` 0;
  inv_idle : Z.of_nat (length p.(free)) <= p.(MaxIdle) `max` 0;
  inv_int32 : p.(MaxConns) < 2 ^ 31 ∧ p.(MaxIdle) < 2 ^ 31 }.

Lemma pool_inv_perm n used used' p : used ≡ₚ used' → pool_inv n used p → pool_inv n used' p.
Proof.
  intros Hp [Hn Hk Hc Ha Hact Hm Hi H32].
  assert (live used p ≡ₚ live used' p) as Hl by (unfold live; by rewrite Hp).
  split; try done; [by rewrite <- Hl|intros c; rewrite <- Hl; apply Hk|intros m c; rewrite <- Hl; apply Ha|].
  by rewrite <- Hl.
Qed.

Lemma pool_inv_mono n n' used p : (n ≤ n')%nat → pool_inv n used p → pool_inv n' used p.
Proof. intros Hn []. split; try done; lia. Qed.

Lemma pool_inv_new n name address maxConns maxIdle :
  pool_inv n [] (NewConnPool name address (wrap32 maxConns) (wrap32 maxIdle)).
Proof.
  assert (∀ z, wrap32 z < 2 ^ 31) as Hw.
  { intros z. unfold wrap32. pose proof (Z.mod_pos_bound (z + 2 ^ 31) (2 ^ 32)). lia. }
  split; cbn; try lia; [constructor|intros c ?%elem_of_nil; done| |done].
  intros m c. rewrite lookup_empty, elem_of_nil. naive_solver.
Qed.

Lemma wrap32_small z : 0 <= z < 2 ^ 31 → wrap32 z = z.
Proof. intros. unfold wrap32. rewrite Z.mod_small; lia. Qed.

(** *** Taking a connection *)

(** What Fetch does to a pool whose invariant holds: it answers the first free
connection, opens one when none is free and the pool is not full, or errs. *)
Lemma Fetch_ok n used p resolve connect now w :
  pool_inv n used p → n = w.(dialed) → Z.of_nat n < 2 ^ 63 - 1 →
  ∃ r p' w', Fetch (dial resolve connect) now p w = Ret (r, p', w') ∧
    w'.(closes) = w.(closes) ∧
    match r with
    | Ok c => pool_inv w'.(dialed) (c :: used) p' ∧
        (p.(free) = c :: p'.(free) ∧ w' = w ∨
         p.(free) = [] ∧ p'.(free) = [] ∧ c.(Conn.cli) = w.(dialed) ∧ w'.(dialed) = S w.(dialed))
    | Err e => p' = p ∧ w' = w ∧ p.(free) = [] ∧
        (p.(MaxConns) <= Z.of_nat (length used) ∧ e = ErrMaxConn ∨ resolve = Some e ∨ resolve = None ∧ connect = Some e)
    end ∧ p'.(MaxConns) = p.(MaxConns) ∧ p'.(MaxIdle) = p.(MaxIdle).
Proof.
  intros Hp -> Hlt. pose proof Hp as [Hn Hk Hc Ha Hact Hm Hi [H1 H2]].
  unfold Fetch, fetchFree. destruct (p.(free)) as [|c f] eqn:Ef; cbn beta iota.
  2:{ exists (Ok c), (with_free f p), w. split_and!; try done; [|by left].
      assert (live (c :: used) (with_free f p) ≡ₚ live used p) as Hl.
      { unfold live. cbn. rewrite Ef. by rewrite <- Permutation_middle. }
      split; cbn [Name MaxConns MaxIdle Cnt active all with_free]; try done.
      - by rewrite Hl.
      - intros c'. rewrite Hl. apply Hk.
      - intros m c'. rewrite Hl. apply Ha.
      - by rewrite Hl.
      - cbn in *. lia. }
  unfold live in *. rewrite Ef in *. cbn [app] in *.
  unfold overMax. destruct (Z.leb_spec (MaxConns p) (active p)) as [Hge|Hlt'].
  { eexists (Err _), p, w. split_and!; try done. left. split; [lia|done]. }
  unfold newConn, dial. destruct resolve as [e|].
  { eexists (Err _), p, w. split_and!; try done. by right; left. }
  destruct connect as [e|].
  { eexists (Err _), p, w. split_and!; try done. by right; right. }
  set (c := Conn.mk w.(dialed) (conn_name p.(Name) p.(Cnt) now)).
  eexists (Ok c), _, _. split_and!; [done..| |right; by cbn|done|done]. cbn [dialed].
  assert (∀ c', c' ∈ used → c'.(Conn.name) ≠ c.(Conn.name)) as Hnew.
  { intros c' (k & t & Hkk & E)%Hk. rewrite E. cbn. intros E'%conn_name_inj; unfold int64 in *; lia. }
  assert (p.(Cnt) +₆₄ 1 = p.(Cnt) + 1) as EC by (apply wrap64_id; unfold int64; lia).
  assert (wrap32 (p.(active) + 1) = p.(active) + 1) as EA by (apply wrap32_small; lia).
  split; cbn [Name MaxConns MaxIdle Cnt active free all with_free with_all with_Cnt with_active increActive];
    unfold live; cbn [free with_Cnt with_active with_all increActive]; rewrite ?Ef, ?EC, ?EA; cbn [app].
  - rewrite fmap_cons, NoDup_cons. split; [|done]. rewrite list_elem_of_fmap. intros (c' & E & Hc').
    by apply (Hnew c' Hc').
  - intros c' [->|Hc']%elem_of_cons; [exists p.(Cnt), now; split; [lia|done]|].
    destruct (Hk c' Hc') as (k & t & ? & ?). exists k, t. split; [lia|done].
  - lia.
  - intros m c'. rewrite lookup_insert, elem_of_cons. case_decide as Em.
    + subst m. split; [intros [= <-]; auto|]. intros [[->|Hc'] E]; [done|]. by apply Hnew in Hc'.
    + rewrite Ha. split; [naive_solver|]. intros [[->|Hc'] E]; [done|]. done.
  - cbn. lia.
  - lia.
  - cbn. lia.
  - done.
Qed.

(** *** Giving a connection back *)

Lemma drop_ok n used c p w : pool_inv n (c :: used) p → pool_inv n used (decreActive (deleteConn c p w).1).
Proof.
  intros [Hn Hk Hc Ha Hact Hm Hi [H1 H2]].
  assert (live (c :: used) p ≡ₚ c :: live used p) as Hl by (unfold live; by rewrite <- Permutation_middle).
  rewrite Hl in Hn, Hact. setoid_rewrite Hl in Hk. setoid_rewrite Hl in Ha.
  rewrite fmap_cons, NoDup_cons in Hn. destruct Hn as [Hnew Hn]. cbn [length] in Hact.
  assert (wrap32 (p.(active) - 1) = p.(active) - 1) as EA by (apply wrap32_small; lia).
  split; cbn [Name MaxConns MaxIdle Cnt active free all with_all with_active decreActive deleteConn fst];
    unfold live in *; cbn [free with_active with_all decreActive deleteConn fst] in *; rewrite ?EA; try done; try lia.
  - intros c' Hc'. apply Hk. by right.
  - intros m c'. rewrite lookup_delete. case_decide as Em.
    + subst m. split; [done|]. intros [Hc' E]. destruct Hnew. rewrite list_elem_of_fmap. by exists c'.
    + rewrite Ha, elem_of_cons. split; [|naive_solver]. intros [[->|?] E]; done.
Qed.

Lemma keep_ok n used c p :
  pool_inv n (c :: used) p → overMaxIdle p = false → pool_inv n used (addFree c p).
Proof.
  intros [Hn Hk Hc Ha Hact Hm Hi [H1 H2]] Ho. unfold overMaxIdle in Ho. apply Z.leb_gt in Ho.
  assert (live used (addFree c p) = live (c :: used) p) as Hl.
  { unfold live. cbn. by rewrite <- app_assoc. }
  unfold live in Hact. rewrite length_app in Hact.
  rewrite wrap32_small in Ho by lia.
  split; cbn [Name MaxConns MaxIdle Cnt active all with_free addFree]; try rewrite Hl; try done; try lia.
  - unfold live. rewrite length_app. cbn in *. lia.
  - cbn. rewrite length_app. cbn. lia.
Qed.

Lemma finish_ok who n used o c p w :
  pool_inv n (c :: used) p →
  ∃ err p' w', finish who o c p w = (err, p', w') ∧ pool_inv n used p' ∧ w'.(dialed) = w.(dialed) ∧
    (err = None ↔ o = Answered None) ∧ p'.(MaxConns) = p.(MaxConns) ∧ p'.(MaxIdle) = p.(MaxIdle) ∧
    (w'.(closes) = w.(closes) ++ [c.(Conn.cli)] ∧ p'.(free) = p.(free) ∨
     err = None ∧ w' = w ∧ p'.(free) = p.(free) ++ [c]).
Proof.
  intros Hp. pose proof (drop_ok _ _ _ _ w Hp) as Hd.
  destruct o as [|[err|]]; cbn [finish ForceClose deleteConn].
  1,2: eexists (Some _), _, _; split_and!; [done..|by split|done|done|by left].
  unfold Release. destruct (overMaxIdle p) eqn:Eo.
  - eexists None, _, _. split_and!; [done..|by left].
  - eexists None, _, _. split_and!; [done|by apply keep_ok|done..|by right].
Qed.

(** ** All pools *)

(** The connections that wait in the pools. *)
Definition idle (m : gmap string ConnPool) : list Conn.t := mjoin ((free ∘ snd) <$> map_to_list m).

Lemma idle_insert m k p : idle (<[k := p]> m) ≡ₚ p.(free) ++ idle (delete k m).
Proof.
  unfold idle. rewrite <- insert_delete_eq, map_to_list_insert by apply lookup_delete_eq. done.
Qed.

Lemma idle_lookup m k p : m !! k = Some p → idle m ≡ₚ p.(free) ++ idle (delete k m).
Proof. intros H. rewrite <- (insert_id m k p) at 1 by done. apply idle_insert. Qed.

Record good (cluster : list string) (maxConns maxIdle : Z) (s : state) : Prop := {
  good_sockets : s.(net).(closes) ++ (Conn.cli <$> idle s.(pools).(M)) ++ (Conn.cli <$> s.(calls).*2) ≡ₚ
    seq 0 s.(net).(dialed);
  good_dom addr : is_Some (s.(pools).(M) !! addr) ↔ addr ∈ cluster;
  good_calls addr : values_of addr s.(calls) ≠ [] → addr ∈ cluster;
  good_pool addr p : s.(pools).(M) !! addr = Some p →
    pool_inv s.(net).(dialed) (values_of addr s.(calls)) p ∧
    p.(MaxConns) = wrap32 maxConns ∧ p.(MaxIdle) = wrap32 maxIdle }.

Lemma create_lookup maxConns maxIdle cluster m addr :
  foldl (create_pool maxConns maxIdle) m cluster !! addr =
    match m !! addr with
    | Some p => Some p
    | None => if decide (addr ∈ cluster) then Some (createOneRpcPool addr addr maxConns maxIdle) else None
    end.
Proof.
  revert m. induction cluster as [|a cluster IH]; intros m; cbn [foldl]; [by destruct (m !! addr)|].
  rewrite IH. unfold create_pool. destruct (m !! a) as [q|] eqn:Ea.
  - destruct (m !! addr) eqn:E; [done|]. assert (addr ≠ a) by congruence.
    repeat case_decide; set_solver.
  - rewrite lookup_insert. destruct (decide (a = addr)) as [->|Hne].
    + rewrite Ea. by rewrite decide_True by set_solver.
    + destruct (m !! addr); [done|]. repeat case_decide; set_solver.
Qed.

Lemma good_start cluster maxConns maxIdle connTimeout callTimeout :
  good cluster maxConns maxIdle (start (CreateSafeRpcConnPools maxConns maxIdle connTimeout callTimeout cluster)).
Proof.
  assert (∀ addr p, foldl (create_pool maxConns maxIdle) ∅ cluster !! addr = Some p →
    addr ∈ cluster ∧ p = createOneRpcPool addr addr maxConns maxIdle) as Hp.
  { intros addr p. rewrite create_lookup, lookup_empty. case_decide; naive_solver. }
  split; cbn; [|intros addr|done|intros addr p [_ ->]%Hp].
  - assert (idle (foldl (create_pool maxConns maxIdle) ∅ cluster) = []) as ->; [|done].
    unfold idle. apply join_nil, Forall_fmap, Forall_forall. intros [addr p] H%elem_of_map_to_list.
    by apply Hp in H as [_ ->].
  - rewrite create_lookup, lookup_empty. case_decide; split; try done.
  - split; [apply pool_inv_new|done].
Qed.

(** What a step does to the pool of its address keeps all of them good: the
sockets it moves are those of that pool and of its own call. *)
Lemma good_step cluster maxConns maxIdle s addr p p' cs w' :
  good cluster maxConns maxIdle s → s.(pools).(M) !! addr = Some p →
  (s.(net).(dialed) ≤ w'.(dialed))%nat →
  pool_inv w'.(dialed) (values_of addr cs) p' → p'.(MaxConns) = p.(MaxConns) → p'.(MaxIdle) = p.(MaxIdle) →
  (∀ a, a ≠ addr → values_of a cs = values_of a s.(calls)) →
  (∀ rest, s.(net).(closes) ++ (Conn.cli <$> p.(free)) ++ rest ++ (Conn.cli <$> s.(calls).*2) ≡ₚ seq 0 s.(net).(dialed) →
     w'.(closes) ++ (Conn.cli <$> p'.(free)) ++ rest ++ (Conn.cli <$> cs.*2) ≡ₚ seq 0 w'.(dialed)) →
  good cluster maxConns maxIdle (State (with_M (<[addr := p']> s.(pools).(M)) s.(pools)) w' cs).
Proof.
  intros [Hs Hd Hc Hg] Hp Hle Hp' H1 H2 Hcs Hsock.
  destruct (Hg _ _ Hp) as (_ & Hmc & Hmi).
  split; cbn [pools net calls M with_M].
  - rewrite idle_insert, fmap_app, <- app_assoc. apply Hsock. rewrite <- Hs.
    by rewrite (idle_lookup _ _ _ Hp), fmap_app, <- app_assoc.
  - intros a. rewrite <- Hd, lookup_insert. case_decide as E; [|done]. subst a. rewrite Hp. by split.
  - intros a Ha. destruct (decide (a = addr)) as [->|Hne]; [by apply Hd; eexists|]. rewrite Hcs in Ha by done. auto.
  - intros a q. rewrite lookup_insert. case_decide as E.
    + intros [= <-]. subst a. split_and!; [done|congruence..].
    + intros Hq. rewrite Hcs by done. destruct (Hg a q Hq) as (Hi & ? & ?). split_and!; [|done..].
      by eapply pool_inv_mono.
Qed.

Lemma step_dialed s s' : step s s' → (s.(net).(dialed) ≤ s'.(net).(dialed))%nat.
Proof.
  intros [resolve connect now addr ps w cs r ps' w' H|o addr c ps w l1 l2 err ps' w' H]; cbn.
  - unfold Call_begin, Fetch, fetchFree, newConn, dial in H.
    destruct (Get addr ps) as [p|]; [|by simplify_eq].
    destruct (free p); [destruct (overMax p); [|destruct resolve; [|destruct connect]]|];
      cbn in H; simplify_eq; cbn; lia.
  - unfold Call_end, finish, ForceClose, Release, deleteConn in H. destruct (Get addr ps) as [p|]; [|by simplify_eq].
    destruct o as [|[]]; [| |destruct (overMaxIdle p)]; simplify_eq; cbn; lia.
Qed.

Lemma good_preserved cluster maxConns maxIdle s s' :
  good cluster maxConns maxIdle s → Z.of_nat s'.(net).(dialed) < 2 ^ 63 - 1 → step s s' →
  good cluster maxConns maxIdle s'.
Proof.
  intros Hg Hlt Hst. pose proof (step_dialed _ _ Hst) as Hle.
  destruct Hst as [resolve connect now addr ps w cs r ps' w' H|o addr c ps w l1 l2 err ps' w' H];
    cbn [net] in *.
  - unfold Call_begin, Get in H. destruct (ps.(M) !! addr) as [p|] eqn:Ep; [|by simplify_eq].
    destruct (good_pool _ _ _ _ Hg addr p Ep) as (Hp & _). cbn in Hp.
    destruct (Fetch_ok _ _ _ resolve connect now w Hp eq_refl ltac:(lia)) as (r' & p' & w1 & E & Hcl & Hr & H1 & H2).
    rewrite E in H. cbn [mbind go_bind] in H. destruct r' as [c|e]; simplify_eq.
    + destruct Hr as [Hp' Hr].
      apply (good_step _ _ _ (State ps w cs) addr p); try done; cbn [net calls pools].
      * rewrite values_of_cons, decide_True by done. done.
      * intros a Ha. by rewrite values_of_cons, decide_False by done.
      * intros rest Hs. rewrite Hcl, fmap_cons. cbn [snd]. rewrite fmap_cons.
        destruct Hr as [[Ef ->]|(Ef & Ef' & Ec & Ed)].
        -- rewrite Ef, fmap_cons in Hs. rewrite <- Hs. solve_Permutation.
        -- rewrite Ef in Hs. rewrite Ef', Ec, Ed, seq_S, <- Hs. solve_Permutation.
    + destruct Hr as (-> & -> & _).
      apply (good_step _ _ _ (State ps w cs) addr p); done.
  - unfold Call_end, Get in H.
    assert (values_of addr (l1 ++ (addr, c) :: l2) ≡ₚ c :: values_of addr (l1 ++ l2)) as Hv.
    { rewrite !values_of_app, values_of_cons, decide_True by done. by rewrite <- Permutation_middle. }
    assert (is_Some (ps.(M) !! addr)) as [p Ep].
    { apply (good_dom _ _ _ _ Hg), (good_calls _ _ _ _ Hg). cbn [calls]. intros E. rewrite E in Hv.
      by apply Permutation_nil_cons in Hv. }
    rewrite Ep in H. destruct (good_pool _ _ _ _ Hg addr p Ep) as (Hp & _). cbn [net calls] in Hp.
    apply (pool_inv_perm _ _ _ _ Hv) in Hp.
    destruct (finish_ok addr _ _ o _ _ w Hp) as (err' & p' & w1 & E & Hp' & Hd & _ & H1 & H2 & Hr).
    rewrite E in H. simplify_eq.
    apply (good_step _ _ _ (State ps w (l1 ++ (addr, c) :: l2)) addr p); try done; cbn [net calls pools].
    + by rewrite Hd.
    + intros a Ha. by rewrite !values_of_app, values_of_cons, decide_False by done.
    + intros rest. rewrite !fmap_app. cbn [fmap list_fmap snd]. intros Hs.
      rewrite Hd, <- Hs. destruct Hr as [[-> ->]|(_ & -> & ->)]; [|rewrite fmap_app]; solve_Permutation.
Qed.

Lemma good_reachable cluster maxConns maxIdle s0 s :
  rtc step s0 s → good cluster maxConns maxIdle s0 → Z.of_nat s.(net).(dialed) < 2 ^ 63 - 1 →
  good cluster maxConns maxIdle s.
Proof.
  intros Hr Hg. revert s Hr. refine (rtc_ind_r _ s0 _ _); [done|].
  intros s s' _ Hst IH Hlt. pose proof (step_dialed _ _ Hst). eapply good_preserved; [apply IH; lia|done..].
Qed.

(** A socket that waits in a pool is open. *)
Lemma socket_once s addr p c f :
  s.(net).(closes) ++ (Conn.cli <$> idle s.(pools).(M)) ++ (Conn.cli <$> s.(calls).*2) ≡ₚ seq 0 s.(net).(dialed) →
  s.(pools).(M) !! addr = Some p → p.(free) = c :: f → c.(Conn.cli) ∉ s.(net).(closes).
Proof.
  intros Hs Hp Hf Hin. assert (NoDup (seq 0 s.(net).(dialed))) as Hnd by apply NoDup_seq.
  rewrite <- Hs in Hnd. apply NoDup_app in Hnd as (_ & Hnd & _). apply (Hnd _ Hin).
  rewrite (idle_lookup _ _ _ Hp), Hf. set_solver.
Qed.

(** C25. However calls begin, overlap, fail and time out: each socket that was opened
waits in a pool, serves one call, or was closed once; a pool knows exactly its
connections, counts them, has at most MaxConns of them and at most MaxIdle
idle; a call gets an open connection that serves no other call whenever fewer
than MaxConns calls of its address are under way and the server can be reached,
and is told that the maximum is reached otherwise. *)
Theorem pools_safe cluster maxConns maxIdle connTimeout callTimeout s :
  let s0 := start (CreateSafeRpcConnPools maxConns maxIdle connTimeout callTimeout cluster) in
  rtc step s0 s → Z.of_nat s.(net).(dialed) < 2 ^ 63 - 1 →
  s.(net).(closes) ++ (Conn.cli <$> idle s.(pools).(M)) ++ (Conn.cli <$> s.(calls).*2) ≡ₚ seq 0 s.(net).(dialed) ∧
  ∀ addr, match Get addr s.(pools) with
  | None => addr ∉ cluster ∧ values_of addr s.(calls) = []
  | Some p => let used := values_of addr s.(calls) in let conns := p.(free) ++ used in
      addr ∈ cluster ∧ (∀ m c, p.(all) !! m = Some c ↔ c ∈ conns ∧ c.(Conn.name) = m) ∧
      p.(active) = Z.of_nat (length conns) ∧ p.(active) <= wrap32 maxConns `max` 0 ∧
      Z.of_nat (length p.(free)) <= wrap32 maxIdle `max` 0 ∧
      ∀ now, ∃ r p' w', Fetch (dial None None) now p s.(net) = Ret (r, p', w') ∧
        if decide (Z.of_nat (length used) < wrap32 maxConns)
        then ∃ c, r = Ok c ∧ c.(Conn.cli) ∉ w'.(closes) ∧ c ∉ used
        else r = Err ErrMaxConn
  end.
Proof.
  intros s0 Hr Hlt. pose proof (good_reachable _ _ _ _ _ Hr (good_start _ _ _ _ _) Hlt) as Hg.
  split; [apply Hg|]. intros addr. unfold Get. destruct (s.(pools).(M) !! addr) as [p|] eqn:Ep.
  2:{ assert (addr ∉ cluster) as Hn by (intros Hin; apply (good_dom _ _ _ _ Hg) in Hin as [? ?]; congruence).
      split; [done|]. destruct (values_of addr s.(calls)) eqn:E; [done|]. destruct Hn. apply (good_calls _ _ _ _ Hg).
      by rewrite E. }
  destruct (good_pool _ _ _ _ Hg addr p Ep) as (Hp & Hmc & Hmi).
  pose proof Hp as [Hn Hk Hc Ha Hact Hm Hi H32]. rewrite Hmc in Hm. rewrite Hmi in Hi. cbv zeta.
  split_and!; [apply (good_dom _ _ _ _ Hg); by eexists|done..|]. intros now.
  destruct (Fetch_ok _ _ _ None None now s.(net) Hp eq_refl Hlt) as (r & p' & w' & E & Hcl & Hres & Hmc' & _).
  exists r, p', w'. split; [done|]. rewrite <- Hmc. destruct r as [c|e].
  - destruct Hres as [Hp' Hres]. rewrite decide_True.
    + exists c. split_and!; [done| |].
      * rewrite Hcl. pose proof (good_sockets _ _ _ _ Hg) as Hs. intros Hin.
        destruct Hres as [[Ef _]|(_ & _ & Ec & _)].
        -- eapply (socket_once s addr p c); done.
        -- assert (c.(Conn.cli) ∈ seq 0 s.(net).(dialed)) as H by (rewrite <- Hs; set_solver).
           rewrite elem_of_seq in H. lia.
      * destruct Hp' as [Hn' _ _ _ _ _ _ _]. unfold live in Hn'. rewrite <- Permutation_middle, fmap_cons, NoDup_cons in Hn'.
        intros Hu. destruct Hn' as [[] _]. rewrite list_elem_of_fmap. exists c. split; [done|]. set_solver.
    + destruct Hp' as [_ _ _ _ Hact' Hm' _ _]. unfold live in *. rewrite length_app in *. cbn [length] in *.
      destruct Hres as [[Ef _]|(Ef & Ef' & _)]; rewrite ?Ef, ?Ef', Hmc', ?Hmc in *; cbn [length] in *; lia.
  - destruct Hres as (_ & _ & _ & [[Hge ->]|[?|[_ ?]]]); [|done..]. by rewrite decide_False by lia.
Qed.

Definition ex_state : state :=
  let ps := CreateSafeRpcConnPools 2 1 1000 5000 ["h:1"] in
  match Call_begin (dial None None) 100 "h:1" ps (Wire 0 []) with
  | Ret (Ok c, ps', w') => State ps' w' [("h:1", c)]
  | _ => start ps
  end.

Lemma ex_state_reached :
  rtc step (start (CreateSafeRpcConnPools 2 1 1000 5000 ["h:1"])) ex_state.
Proof. apply rtc_once. by apply (SBegin None None 100 "h:1" _ (Wire 0 []) [] (Ok (Conn.mk 0 "h:1_0_100"))). Qed.

Example pools_safe_witness :
  rtc step (start (CreateSafeRpcConnPools 2 1 1000 5000 ["h:1"])) ex_state ∧
  match Get "h:1" ex_state.(pools) with
  | Some p => p.(active) = 1 ∧ ∀ now, ∃ r p' w', Fetch (dial None None) now p ex_state.(net) = Ret (r, p', w') ∧ is_ok r = true
  | None => False
  end.
Proof.
  split; [apply ex_state_reached|].
  destruct (pools_safe ["h:1"] 2 1 1000 5000 ex_state ex_state_reached ltac:(vm_compute; reflexivity)) as [_ H].
  specialize (H "h:1"). destruct (Get "h:1" ex_state.(pools)) as [p|] eqn:E.
  2:{ revert E. vm_compute. discriminate. }
  destruct H as (_ & _ & _ & _ & _ & Hf). split; [revert E; vm_compute; by intros [= <-]|].
  intros now. destruct (Hf now) as (r & p' & w' & Er & Hr). exists r, p', w'. split; [done|].
  rewrite decide_True in Hr by (vm_compute; reflexivity). destruct Hr as (c & -> & _). done.
Defined.

(** Destroying a pool while a call uses it makes the count of connections
negative when the call ends: one more than MaxConns may be open from then on. *)
Example destroyed_in_use :
  let p := NewConnPool "h" "h" 1 1 in let c := Conn.mk 0 "h_0_7" in
  (Fetch (dial None None) 7 p (Wire 0 []) ≫= λ r, let '(_, p1, w1) := r in
    let (p2, w2) := Pool_Destroy [("h_0_7", c)] p1 w1 in
    Ret (ForceClose c p2 w2).1.(active)) = Ret (-1).
Proof. reflexivity. Qed.
