(* ===== verification/Gateway.v ===== *)
(** * Gateway: forwarding points to the transfers

modules/gateway: it receives points as transfer does (receiver/rpc,
receiver/socket), keeps them in one queue (sender/sender.go) and sends them in
batches to one of the transfers of its configuration (sender/send_tasks.go),
over JSON-RPC.

The last section composes the two services: what gateway accepts is encoded,
decoded and received by transfer. *)

From stdpp Require Import functions.
From S2P Require Import Prelude GoFloat GoString Hash Tags Model Json Containers Transfer SendTasks ConnPool.
From Stdlib Require Import Ascii.
From stdpp Require Import options.

(** ** State *)

Definition DefaultSendQueueMaxSize : Z := 1024000.

Module TransferConfig.
Record t : Type := mk {
  Enabled : bool; Batch : Z; Retry : Z; ConnTimeout : Z; CallTimeout : Z; MaxConns : Z; MaxIdle : Z;
  Cluster : gmap string string }.
End TransferConfig.

(** The meters of goperfcounter that the code marks; a meter is the sum of what it was marked with. *)
Inductive meter : Set :=
| MRecv | MRpcRecv | MHttpRecv | MSocketRecv | MSendDrop | MSend | MSendFail.
#[export] Instance meter_eq_dec : EqDecision meter.
Proof. solve_decision. Defined.

Abbreviation meters := (meter → Z).
Abbreviation Meter := (IncrBy (C := meter)).

Record gateway : Type := Gw { SenderQueue : SafeListLimited.t MetaData.t; pfc : meters }.

(** ** Receiving *)

(** The checks and the conversion of one point at the time [now]; none when it is invalid. *)
Definition gateway_item (now : Z) (v : option MetricValue.t) : option MetaData.t :=
  v ← v;
  if decide (v.(MetricValue.Metric) = "kernel.hostname") then None
  else if decide (v.(MetricValue.Metric) = "" ∨ v.(MetricValue.Endpoint) = "") then None
  else if decide (v.(MetricValue.Type_) ≠ COUNTER ∧ v.(MetricValue.Type_) ≠ GAUGE
                  ∧ v.(MetricValue.Type_) ≠ DERIVE) then None
  else if is_empty_value v.(MetricValue.Value) then None
  else if v.(MetricValue.Step) <=? 0 then None
  else if 510 <? slen v.(MetricValue.Metric) + slen v.(MetricValue.Tags) then None
  else match SplitTagsString v.(MetricValue.Tags) with
  | (Some _, _) => None
  | (None, tags) =>
      let ts :=
        if (v.(MetricValue.Timestamp) <=? 0) || (now *₆₄ 2 <? v.(MetricValue.Timestamp))
        then now else v.(MetricValue.Timestamp) in
      vv ← float_of_value v.(MetricValue.Value);
      Some (MetaData.mk v.(MetricValue.Metric) v.(MetricValue.Endpoint) ts v.(MetricValue.Step)
              vv v.(MetricValue.Type_) tags)
  end.

Definition Push2SendQueue (items : list MetaData.t) (st : gateway) : gateway :=
  foldl (λ st item,
    let '(isOk, Q) := SafeListLimited.PushFront item st.(SenderQueue) in
    Gw Q (if isOk : bool then st.(pfc) else Meter MSendDrop 1 st.(pfc))) st items.

Definition gateway_body (now : Z) (acc : list MetaData.t * Z) (v : option MetricValue.t) : list MetaData.t * Z :=
  match gateway_item now v with
  | Some fv => (acc.1 ++ [fv], acc.2)
  | None => (acc.1, acc.2 +₆₄ 1)
  end.

(** [RecvMetricValues]; [elapsed] is the time that it takes, in nanoseconds. *)
Definition RecvMetricValues (cfg : TransferConfig.t) (now : Z) (args : list (option MetricValue.t)) (from : string)
    (elapsed : Z) (st : gateway) : TransferResponse * gateway :=
  let '(items, invalid) := foldl (gateway_body now) ([], 0) args in
  let cnt := Z.of_nat (length items) in
  let p := Meter MRecv cnt st.(pfc) in
  let p :=
    if decide (from = "rpc") then Meter MRpcRecv cnt p
    else if decide (from = "http") then Meter MHttpRecv cnt p else p in
  let st := Gw st.(SenderQueue) p in
  (Response "ok" (Z.of_nat (length args)) invalid (Z.quot elapsed 1000000),
   if cfg.(TransferConfig.Enabled) then Push2SendQueue items st else st).

(** [Transfer.Update] *)
Definition Update (cfg : TransferConfig.t) (now : Z) (args : list (option MetricValue.t)) (elapsed : Z)
    (st : gateway) : TransferResponse * gateway := RecvMetricValues cfg now args "rpc" elapsed st.

(** [socketTelnetHandle] on the bytes received until the connection ends: its
loop over the lines, and convertLine2MetaData, are the code of transfer. *)
Definition socketTelnetHandle (cfg : TransferConfig.t) (input : string) (st : gateway) : gateway :=
  let items := telnet_items (read_lines input) in
  let count := Z.of_nat (length items) in
  let st := Gw st.(SenderQueue) (Meter MRecv count (Meter MSocketRecv count st.(pfc))) in
  if cfg.(TransferConfig.Enabled) then Push2SendQueue items st else st.

(** ** Sending *)

(** The variables that [initConnPools] fills: the hosts in the order in which
the cluster was visited, their addresses, and their counters of sent and of
failed items. *)
Record hosts : Type := Hosts {
  TransferHostnames : list string; TransferMap : gmap string string;
  TransferSendCnt : gmap string Z; TransferSendFailCnt : gmap string Z }.

(** [initConnPools]; [kvs] and [kvs'] are the orders of its two visits of the cluster. *)
Definition initConnPools (cfg : TransferConfig.t) (kvs kvs' : list (string * string)) : hosts * SafeRpcConnPools :=
  (Hosts kvs.*1 (assign_all kvs ∅)
     (assign_all ((λ kv, (kv.1, 0)) <$> kvs') ∅) (assign_all ((λ kv, (kv.1, 0)) <$> kvs') ∅),
   CreateSafeRpcConnPools cfg.(TransferConfig.MaxConns) cfg.(TransferConfig.MaxIdle)
     cfg.(TransferConfig.ConnTimeout) cfg.(TransferConfig.CallTimeout) kvs.*2).

(** [startSendTasks]: the size of the semaphore *)
Definition concurrent (cfg : TransferConfig.t) : Z :=
  wrap32 (cfg.(TransferConfig.MaxConns) * wrap32 (Z.of_nat (size cfg.(TransferConfig.Cluster)))).

Definition retry (cfg : TransferConfig.t) : Z :=
  if cfg.(TransferConfig.Retry) <? 1 then 1 else cfg.(TransferConfig.Retry).

(** What a goroutine meets in its round [j] at its [i]-th host: the random
number of the round, the number of calls to the host that are under way, and
the answer to its own call. *)
Record circumstances : Type := Circ {
  rint : nat → Z; under_way : nat → nat → Z; answer : nat → nat → result unit }.
#[export] Instance circumstances_inhabited : Inhabited circumstances := populate (Circ (λ _, 0) (λ _ _, 0) (λ _ _, Ok tt)).

(** A goroutine: the calls that it made, as host, address and success, and the counters. *)
Record sending : Type := Sending { sendOk : bool; called : list (string * string * bool); hs : hosts }.

Section send.
Context (cfg : TransferConfig.t) (count : Z) (o : circumstances).

(** The body of the inner loop; the loop goes on unless the batch was sent. *)
Definition try_host (j : nat) (s : sending) (i : nat) : go (sending * bool) :=
  idx ← go_rem (Z.of_nat i +₆₄ o.(rint) j) (Z.of_nat (length s.(hs).(TransferHostnames)));
  host ← at_index s.(hs).(TransferHostnames) idx;
  let addr := default "" (s.(hs).(TransferMap) !! host) in
  if cfg.(TransferConfig.MaxConns) <=? o.(under_way) j i then Ret (s, true)
  else match o.(answer) j i with
  | Ok _ =>
      cnt ← deref (s.(hs).(TransferSendCnt) !! host);
      Ret (Sending true (s.(called) ++ [(host, addr, true)])
             (Hosts s.(hs).(TransferHostnames) s.(hs).(TransferMap)
                (<[host := cnt +₆₄ count]> s.(hs).(TransferSendCnt)) s.(hs).(TransferSendFailCnt)), false)
  | Err _ =>
      cnt ← deref (s.(hs).(TransferSendFailCnt) !! host);
      Ret (Sending false (s.(called) ++ [(host, addr, false)])
             (Hosts s.(hs).(TransferHostnames) s.(hs).(TransferMap)
                s.(hs).(TransferSendCnt) (<[host := cnt +₆₄ count]> s.(hs).(TransferSendFailCnt))), true)
  end.

(** A round over all hosts, and the rounds. *)
Definition round (s : sending) (j : nat) : go (sending * bool) :=
  s' ← go_loop (try_host j) s (seq 0 (length s.(hs).(TransferHostnames)));
  Ret (s', negb s'.(sendOk)).
Definition send_batch (h : hosts) : go sending :=
  go_loop round (Sending false [] h) (seq 0 (Z.to_nat (retry cfg))).
End send.

(** The statistic of a goroutine: [Send] or [SendFail]. *)
Definition send_outcome (cfg : TransferConfig.t) (h : hosts) (o : circumstances) : option bool :=
  match send_batch cfg 0 o h with Ret s => Some s.(sendOk) | Panic _ => None end.

(** The task, as those of transfer: the loops differ in how a batch is sent. *)
Definition forward2TransferTask (cfg : TransferConfig.t) (h : hosts) : task → label → task → Prop :=
  SendTasks.step (A := MetaData.t) cfg.(TransferConfig.Batch) (concurrent cfg) MSend MSendFail (send_outcome cfg h).

Definition convert (v : MetaData.t) : MetricValue.t :=
  MetricValue.mk v.(MetaData.Endpoint) v.(MetaData.Metric) (VFloat64 v.(MetaData.Value)) v.(MetaData.Step)
    v.(MetaData.CounterType) (SortedTags v.(MetaData.Tags)) v.(MetaData.Timestamp).

(** ** The points as JSON *)

(** A value without a static type: the decoder makes every number a [float64]. *)
#[export] Instance json_value : Json value := {
  json_zero := VOther;
  json_enc v :=
    match v with VString s => JString s | VFloat64 f => JFloat f | VInt64 n | VInt n => JInt n | VOther => JNull end;
  json_dec old j :=
    match j with
    | JString s => Ok (VString s)
    | JFloat f => Ok (VFloat64 f)
    | JInt z => Ok (VFloat64 (f64_of_Z z))
    | _ => Ok VOther
    end }.

Definition metric_value_fields : list (field MetricValue.t) :=
  let mk := MetricValue.mk in [
  field_of "endpoint" MetricValue.Endpoint (λ x '(MetricValue.mk _ b c d e f g), mk x b c d e f g);
  field_of "metric" MetricValue.Metric (λ x '(MetricValue.mk a _ c d e f g), mk a x c d e f g);
  field_of "value" MetricValue.Value (λ x '(MetricValue.mk a b _ d e f g), mk a b x d e f g);
  field_of "step" MetricValue.Step (λ x '(MetricValue.mk a b c _ e f g), mk a b c x e f g);
  field_of "counterType" MetricValue.Type_ (λ x '(MetricValue.mk a b c d _ f g), mk a b c d x f g);
  field_of "tags" MetricValue.Tags (λ x '(MetricValue.mk a b c d e _ g), mk a b c d e x g);
  field_of "timestamp" MetricValue.Timestamp (λ x '(MetricValue.mk a b c d e f _), mk a b c d e f x) ].
#[export] Instance json_metric_value : Json MetricValue.t :=
  json_struct (MetricValue.mk "" "" VOther 0 "" "" 0) metric_value_fields.

(** The arguments of the call [Transfer.Update], as gateway writes and transfer reads them. *)
Definition write_args (items : list MetaData.t) : result json :=
  let j := JArray (json_enc ∘ convert <$> items) in
  if json_finite j then Ok j else Err errUnsupported.
Definition read_args (j : json) : result (list (option MetricValue.t)) :=
  match j with JArray l => mapM Unmarshal l | _ => Err errUnmarshal end.

(** ** The length of printed tags

The tags of an accepted point are printed in at most the characters in which
they came: a point within the limit of gateway is within that of transfer. *)

Definition pair_size (kv : string * string) : nat := (String.length kv.1 + String.length kv.2 + 2)%nat.
Definition tags_size (m : tagmap) : nat := sum_list (pair_size <$> map_to_list m).

Lemma string_length_app s t : String.length (s +:+ t) = (String.length s + String.length t)%nat.
Proof. induction s as [|a s IH]; [done|]. cbn. by rewrite IH. Qed.

Lemma tags_size_insert_new m k v : m !! k = None → tags_size (<[k := v]> m) = (pair_size (k, v) + tags_size m)%nat.
Proof. intros H. unfold tags_size. by rewrite map_to_list_insert. Qed.

Lemma tags_size_delete m k : (tags_size (delete k m) ≤ tags_size m)%nat.
Proof.
  destruct (m !! k) as [v|] eqn:E; [|by rewrite delete_id].
  rewrite <- (insert_id m k v E) at 2. rewrite <- insert_delete_eq, tags_size_insert_new by apply lookup_delete_eq. lia.
Qed.

Lemma tags_size_insert m k v : (tags_size (<[k := v]> m) ≤ pair_size (k, v) + tags_size m)%nat.
Proof.
  rewrite <- insert_delete_eq, tags_size_insert_new by apply lookup_delete_eq. pose proof (tags_size_delete m k). lia.
Qed.

Lemma join_size l : l ≠ [] → S (String.length (join "," l)) = sum_list (S ∘ String.length <$> l).
Proof.
  intros Hne. destruct l as [|s l]; [done|]. clear Hne. revert s. induction l as [|t l IH]; intros s; [cbn; lia|].
  change (join "," (s :: t :: l)) with (s +:+ "," +:+ join "," (t :: l)).
  rewrite !string_length_app. specialize (IH t). cbn [fmap list_fmap sum_list sum_list_with] in *. cbn in *. lia.
Qed.

Lemma sum_list_perm (l1 l2 : list nat) : l1 ≡ₚ l2 → sum_list l1 = sum_list l2.
Proof. induction 1; cbn in *; lia. Qed.

Lemma SortedTags_size tags : tags ≠ ∅ → S (String.length (SortedTags tags)) = tags_size tags.
Proof.
  intros Hne. rewrite SortedTags_pairs, join_size.
  - unfold tags_size. rewrite <- list_fmap_compose. etransitivity.
    2:{ apply sum_list_perm. rewrite <- (KeysOfMap_ranges tags). reflexivity. }
    f_equal. apply list_fmap_ext. intros _ [k v] _. unfold compose, tag_pair, pair_size. cbn [fst snd]. rewrite !string_length_app. cbn. lia.
  - intros ?%fmap_nil_inv%fmap_nil_inv%KeysOfMap_nil. done.
Qed.

Lemma split_size c s : sum_list (S ∘ String.length <$> split c s) = S (String.length s).
Proof.
  induction s as [|a s IH]; [done|]. cbn [split]. case_decide; [cbn in *; lia|].
  destruct (split c s); cbn in *; lia.
Qed.

Lemma remove_char_size c s : (String.length (remove_char c s) ≤ String.length s)%nat.
Proof. induction s as [|a s IH]; [done|]. cbn. case_decide; cbn; lia. Qed.

Lemma split_tags_size l d m :
  split_tags l d = (None, m) → (tags_size m ≤ sum_list (S ∘ String.length <$> l) + tags_size d)%nat.
Proof.
  revert d. induction l as [|tag l IH]; cbn [split_tags]; intros d; [intros [= <-]; cbn; lia|].
  destruct (split2_spec "=" tag) as [[_ ->]|(k & v & _ & E & ->)]; [done|].
  intros Hm%IH. pose proof (tags_size_insert d k v).
  assert (String.length tag = (String.length k + S (String.length v))%nat) by (by rewrite E, string_length_app).
  unfold pair_size in *. cbn in *. lia.
Qed.

Lemma SplitTagsString_size s tags :
  SplitTagsString s = (None, tags) → slen (SortedTags tags) <= slen s.
Proof.
  intros H. destruct (decide (tags = ∅)) as [->|Hne].
  { change (SortedTags ∅) with "". cbn. lia. } apply SortedTags_size in Hne.
  unfold SplitTagsString in H. case_decide; [by simplify_eq|]. apply split_tags_size in H.
  rewrite split_size in H. pose proof (remove_char_size " " s).
  replace (tags_size ∅) with 0%nat in H by done. lia.
Qed.

Lemma SplitTagsString_Dicted s tags : SplitTagsString s = (None, tags) → DictedTagstring s = tags.
Proof.
  unfold SplitTagsString, DictedTagstring. intros H. destruct (decide (s = "")) as [->|Hs]; [by injection H as <-|].
  case_decide as Hr; [injection H as <-; by rewrite Hr|]. rewrite split_tags_spec in H.
  destruct (list_find _ _) as [[i tag]|]; by simplify_eq.
Qed.

Lemma SplitTagsString_wf s tags : SplitTagsString s = (None, tags) → tags_wf tags.
Proof.
  unfold SplitTagsString. case_decide; [intros [= <-]; by apply map_Forall_empty|].
  rewrite split_tags_spec. destruct (list_find _ _) as [[i tag]|]; [done|]. intros [= <-].
  apply foldl_dict_tag_wf; [auto with go| |by apply map_Forall_empty]. apply split_lacks_other. auto with go.
Qed.

(** ** From gateway to transfer *)

#[export] Instance json_value_laws : JsonLaws value (λ v, match v with VInt64 _ | VInt _ => False | _ => True end).
Proof. by intros [] ?. Qed.

Definition metric_value_ok (v : MetricValue.t) : Prop :=
  match v.(MetricValue.Value) with VInt64 _ | VInt _ => False | _ => True end ∧
  int64 v.(MetricValue.Step) ∧ int64 v.(MetricValue.Timestamp).
#[export] Instance json_metric_value_laws : JsonLaws MetricValue.t metric_value_ok.
Proof. intros [] (H1 & H2 & H3). cbn in H1, H2, H3. unfold json_metric_value. struct_laws. Qed.
#[export] Instance json_metric_value_ptr_laws :
  JsonLaws (option MetricValue.t) (λ p, ∀ v, p = Some v → metric_value_ok v).
Proof. by apply json_pointer_laws. Qed.

(** The integers of a point that was decoded have their width. *)
Definition point_ok (v : MetricValue.t) : Prop := int64 v.(MetricValue.Step) ∧ int64 v.(MetricValue.Timestamp).

(** What gateway accepts satisfies the checks of transfer, and is not changed by them. *)
Lemma transfer_accepts now now' v item :
  point_ok v → 0 < now ≤ now' → now' * 2 < 2 ^ 63 →
  gateway_item now (Some v) = Some item →
  metric_value_ok (convert item) ∧ recv_item now' (Some (convert item)) = Some item.
Proof.
  intros [Hs Ht] Hn Hn' H. unfold gateway_item in H. cbn [mbind option_bind] in H.
  do 3 (case_decide; [done|]). destruct (is_empty_value _); [done|].
  destruct (Z.leb_spec (MetricValue.Step v) 0); [done|].
  destruct (Z.ltb_spec 510 (slen v.(MetricValue.Metric) + slen v.(MetricValue.Tags))) as [|Hlen]; [done|].
  destruct (SplitTagsString _) as [[]tags] eqn:Etags; [done|].
  destruct (float_of_value _) as [vv|]; [|done]. cbn in H.
  set (ts := if _ : bool then now else _) in H. injection H as <-.
  assert (0 < ts <= now' * 2) as Hts.
  { subst ts. rewrite wrap64_id by (unfold int64; lia).
    destruct (Z.leb_spec v.(MetricValue.Timestamp) 0); cbn [orb]; [lia|].
    destruct (Z.ltb_spec (now * 2) v.(MetricValue.Timestamp)); lia. }
  unfold convert. cbn [MetaData.Endpoint MetaData.Metric MetaData.Value MetaData.Step MetaData.CounterType
    MetaData.Tags MetaData.Timestamp]. split; [split_and!; cbn; [done|done|unfold int64; lia]|].
  unfold recv_item. cbn [mbind option_bind MetricValue.Endpoint MetricValue.Metric MetricValue.Value
    MetricValue.Step MetricValue.Type_ MetricValue.Tags MetricValue.Timestamp is_empty_value float_of_value].
  rewrite !decide_False by done. pose proof (SplitTagsString_size _ _ Etags).
  destruct (Z.leb_spec (MetricValue.Step v) 0); [lia|].
  destruct (Z.ltb_spec 510 (slen v.(MetricValue.Metric) + slen (SortedTags tags))); [lia|].
  rewrite wrap64_id by (unfold int64; lia).
  destruct (Z.leb_spec ts 0); [lia|]. destruct (Z.ltb_spec (now' * 2) ts); [lia|]. cbn.
  by rewrite DictedTagstring_SortedTags_wf by (by eapply SplitTagsString_wf).
Qed.

Lemma mapM_Ok {A B} (f : A → result B) l l' : Forall2 (λ a b, f a = Ok b) l l' → mapM f l = Ok l'.
Proof. induction 1 as [|a b l l' Hf _ IH]; [done|]. cbn. by rewrite Hf, IH. Qed.

(** An item that gateway accepted from its RPC or HTTP interface, at some time until [now']. *)
Definition accepted_until (now' : Z) (item : MetaData.t) : Prop :=
  ∃ now v, 0 < now <= now' ∧ point_ok v ∧ gateway_item now (Some v) = Some item.

Lemma recv_body_all now' args items n :
  Forall2 (λ v item, recv_item now' v = Some item) args items →
  ∀ acc, foldl (recv_body now') (acc, n) args = (acc ++ items, n).
Proof.
  induction 1 as [|v item args items Hv _ IH]; intros acc; [by rewrite app_nil_r|].
  cbn. unfold recv_body at 2. rewrite Hv. cbn. rewrite IH. by rewrite <- app_assoc.
Qed.

Lemma value_finite item : json_finite (json_enc (convert item)) = f64_is_finite item.(MetaData.Value).
Proof. cbn. by rewrite !andb_true_r. Qed.

(** C39. A batch of points that gateway accepted by RPC or HTTP can be written as
JSON exactly when all their values are finite; what transfer then reads of it
are these points, all valid, with the same metric, endpoint, time, step, type,
value and tags that gateway read, as long as the clock of transfer is not
behind.  One value that is not finite, which gateway accepts as the text NaN or
Inf, keeps the whole batch from being sent. *)
Theorem gateway_reaches_transfer now' batch :
  now' * 2 < 2 ^ 63 → Forall (accepted_until now') batch →
  match write_args batch with
  | Ok j => Forall (λ item, f64_is_finite item.(MetaData.Value) = true) batch ∧
      ∃ args, read_args j = Ok args ∧ foldl (recv_body now') ([], 0) args = (batch, 0)
  | Err _ => Exists (λ item, f64_is_finite item.(MetaData.Value) = false) batch
  end.
Proof.
  intros Hn HF. unfold write_args. cbn [json_finite].
  assert (forallb json_finite (json_enc ∘ convert <$> batch) =
    forallb (λ item, f64_is_finite item.(MetaData.Value)) batch) as ->.
  { clear. induction batch as [|item batch IH]; [done|]. change (?f <$> item :: ?l) with (f item :: (f <$> l)).
    cbn [forallb]. rewrite <- IH. unfold compose. by rewrite value_finite. }
  destruct (forallb _ batch) eqn:E.
  - split; [apply Forall_forall; intros item Hi; apply (proj1 (forallb_forall _ _) E); by apply list_elem_of_In|].
    exists (Some ∘ convert <$> batch). split.
    + apply mapM_Ok, Forall2_fmap, Forall_Forall2_diag. eapply Forall_impl; [exact HF|].
      intros item (now & v & Hnow & Hp & Hi). unfold compose, Unmarshal.
      change (json_enc (convert item)) with (json_enc (Some (convert item))).
      apply (json_roundtrip (Some (convert item))). intros ? [= <-].
      by apply (transfer_accepts now now' v).
    + rewrite (recv_body_all now' _ batch); [done|]. apply Forall2_fmap_l, Forall_Forall2_diag.
      eapply Forall_impl; [exact HF|]. intros item (now & v & Hnow & Hp & Hi).
      by apply (transfer_accepts now now' v).
  - clear HF. induction batch as [|item batch IH]; [done|]. cbn [forallb] in E.
    destruct (f64_is_finite _) eqn:Ef; [right; by apply IH|by left].
Qed.

Definition ex_point (value : string) : MetricValue.t :=
  MetricValue.mk "h" "cpu.idle" (VString value) 60 GAUGE "b=2, a=1" 1000.

Lemma ex_accepted value item :
  gateway_item 1500 (Some (ex_point value)) = Some item → accepted_until 2000 item.
Proof. intros H. exists 1500, (ex_point value). split; [lia|]. split; [|done]. split; vm_compute; split; congruence. Qed.

Example gateway_reaches_transfer_witness :
  ∃ item j args, gateway_item 1500 (Some (ex_point "42.5")) = Some item ∧ write_args [item] = Ok j ∧
    read_args j = Ok args ∧ foldl (recv_body 2000) ([], 0) args = ([item], 0).
Proof.
  destruct (gateway_item 1500 (Some (ex_point "42.5"))) as [item|] eqn:E;
    [|exfalso; revert E; vm_compute; discriminate].
  pose proof (gateway_reaches_transfer 2000 [item] ltac:(lia) ltac:(constructor; [by eapply ex_accepted|constructor])) as H.
  destruct (write_args [item]) as [j|] eqn:Ew.
  - destruct H as (_ & args & Ha & Hf). by exists item, j, args.
  - exfalso. clear H. revert E. vm_compute. intros [= <-]. revert Ew. vm_compute. discriminate.
Defined.

Example not_a_number_blocks_its_batch :
  ∃ items e, omap (gateway_item 1500) [Some (ex_point "42.5"); Some (ex_point "NaN")] = items ∧
    length items = 2%nat ∧ write_args items = Err e.
Proof. eexists _, _. split; [reflexivity|]. split; vm_compute; reflexivity. Qed.

(** ** The loop over the hosts: specification *)

(** The calls of a list up to the first that succeeds. *)
Fixpoint until_success (l : list (string * string * bool)) : list (string * string * bool) :=
  match l with
  | [] => []
  | c :: l => c :: (if c.2 then [] else until_success l)
  end.

(** How many of the calls went to the host [h] with the result [b]. *)
Definition times (h : string) (b : bool) (l : list (string * string * bool)) : nat :=
  length (filter (λ c, c.1.1 = h ∧ c.2 = b) l).

Section spec.
Context (cfg : TransferConfig.t) (count : Z) (o : circumstances) (names : list string) (addrs : gmap string string).

(** The host of the [i]-th visit of round [j], and the calls that the rounds
would make if none succeeded: hosts with too many calls under way are skipped. *)
Definition host_at (j i : nat) : string :=
  default "" (names !! Z.to_nat ((Z.of_nat i + o.(rint) j) mod Z.of_nat (length names))).
Definition visit (j i : nat) : list (string * string * bool) :=
  if cfg.(TransferConfig.MaxConns) <=? o.(under_way) j i then []
  else [(host_at j i, default "" (addrs !! host_at j i), is_ok (o.(answer) j i))].
Definition plan_round (j : nat) (vs : list nat) : list (string * string * bool) := vs ≫= visit j.
Definition plan (js : list nat) : list (string * string * bool) :=
  js ≫= λ j, plan_round j (seq 0 (length names)).

(** What a call does to a goroutine and the counters. *)
Definition record (s : sending) (c : string * string * bool) : sending :=
  let '(h, addr, b) := c in
  let add (m : gmap string Z) := alter (λ z, z +₆₄ count) h m in
  let hs := s.(hs) in
  Sending b (s.(called) ++ [c])
    (Hosts hs.(TransferHostnames) hs.(TransferMap)
       (if b then add hs.(TransferSendCnt) else hs.(TransferSendCnt))
       (if b then hs.(TransferSendFailCnt) else add hs.(TransferSendFailCnt))).

(** Every host has its two counters, as after [initConnPools]. *)
Record wired (h : hosts) : Prop := {
  wired_names : h.(TransferHostnames) = names;
  wired_addrs : h.(TransferMap) = addrs;
  wired_ok n : n ∈ names → is_Some (h.(TransferSendCnt) !! n);
  wired_fail n : n ∈ names → is_Some (h.(TransferSendFailCnt) !! n) }.

Lemma insert_alter (m : gmap string Z) k x f : m !! k = Some x → <[k := f x]> m = alter f k m.
Proof.
  intros Hk. apply map_eq. intros k'. rewrite lookup_insert, lookup_alter. case_decide; [|done].
  subst. by rewrite Hk.
Qed.

Lemma wired_record s c : wired s.(hs) → wired (record s c).(hs).
Proof.
  destruct c as [[h addr] b]. intros [H1 H2 H3 H4]. split; cbn; try done; intros n Hn; destruct b;
    rewrite ?lookup_alter; try case_decide; subst; rewrite ?fmap_is_Some; auto.
Qed.

Lemma wired_records l s : wired s.(hs) → wired (foldl record s l).(hs).
Proof. revert s. induction l as [|c l IH]; intros s H; [done|]. by apply IH, wired_record. Qed.

(** The random numbers of a round leave room for the index of a host. *)
Definition rint_ok (j : nat) : Prop := 0 <= o.(rint) j <= 2 ^ 63 - Z.of_nat (length names).

Lemma host_at_in j i : names ≠ [] → host_at j i ∈ names ∧
  names !! Z.to_nat ((Z.of_nat i + o.(rint) j) mod Z.of_nat (length names)) = Some (host_at j i).
Proof.
  intros Hne. unfold host_at. destruct names as [|n ns] eqn:E; [done|]. rewrite <- E.
  destruct (lookup_lt_is_Some_2 names (Z.to_nat ((Z.of_nat i + o.(rint) j) mod Z.of_nat (length names)))) as [h Hh].
  { pose proof (Z.mod_pos_bound (Z.of_nat i + o.(rint) j) (Z.of_nat (length names))). rewrite E in *. cbn in *. lia. }
  rewrite Hh. split; [|done]. by eapply list_elem_of_lookup_2.
Qed.

Lemma try_host_spec j i s :
  rint_ok j → (i < length names)%nat → wired s.(hs) →
  try_host cfg count o j s i =
    Ret (match visit j i with [] => (s, true) | c :: _ => (record s c, negb c.2) end).
Proof.
  intros [Hr1 Hr2] Hi [Hn Ha Hok Hfail]. assert (names ≠ []) as Hne by (intros ->; cbn in Hi; lia).
  destruct (host_at_in j i Hne) as [Hin Hat].
  unfold try_host, go_rem. rewrite Hn, Ha, wrap64_id by (unfold int64; lia).
  rewrite decide_False by lia. cbn [mbind go_bind]. rewrite Z.rem_mod_nonneg by lia.
  rewrite <- (Z2Nat.id (_ mod _)) by (apply Z.mod_pos_bound; lia).
  rewrite (at_index_of_nat _ _ _ Hat). cbn [mbind go_bind]. unfold visit.
  destruct (_ <=? _); [done|]. destruct (Hok _ Hin) as [z1 E1]. destruct (Hfail _ Hin) as [z2 E2].
  destruct (o.(answer) j i); cbn [is_ok].
  - rewrite E1. cbn. rewrite Hn, Ha. by rewrite (insert_alter _ _ _ (λ z, z +₆₄ count) E1).
  - rewrite E2. cbn. rewrite Hn, Ha. by rewrite (insert_alter _ _ _ (λ z, z +₆₄ count) E2).
Qed.

Lemma sendOk_until l s : s.(sendOk) = false → (foldl record s (until_success l)).(sendOk) = existsb snd l.
Proof.
  revert s. induction l as [|[[h a] b] l IH]; intros s Hs; [done|]. cbn. destruct b; [done|]. by apply IH.
Qed.

Lemma called_records l s : (foldl record s l).(called) = s.(called) ++ l.
Proof.
  revert s. induction l as [|[[h a] b] l IH]; intros s; [by rewrite app_nil_r|]. cbn [foldl]. rewrite IH. cbn.
  by rewrite <- app_assoc.
Qed.

Lemma until_app l1 l2 :
  until_success (l1 ++ l2) = if existsb snd l1 then until_success l1 else l1 ++ until_success l2.
Proof.
  induction l1 as [|[[h a] b] l1 IH]; [done|]. cbn. destruct b; [done|]. rewrite IH. cbn. by destruct (existsb _ _).
Qed.

Lemma until_none l : existsb snd l = false → until_success l = l.
Proof. intros H. rewrite <- (app_nil_r l) at 1. rewrite until_app, H. cbn. by rewrite app_nil_r. Qed.

Lemma round_spec j vs s :
  rint_ok j → Forall (λ i, i < length names)%nat vs → wired s.(hs) →
  go_loop (try_host cfg count o j) s vs = Ret (foldl record s (until_success (plan_round j vs))).
Proof.
  intros Hr HF. revert s. induction HF as [|i vs Hi _ IH]; intros s Hw; [done|].
  cbn [go_loop]. rewrite try_host_spec by done. cbn [mbind go_bind].
  unfold plan_round. cbn [mbind list_bind]. fold (plan_round j vs). unfold visit.
  destruct (_ <=? _); cbn [app until_success snd fst negb foldl]; [by apply IH|].
  destruct (o.(answer) j i); cbn [is_ok negb]; [done|]. rewrite IH by (by apply wired_record). done.
Qed.

Lemma round_eq j s :
  rint_ok j → s.(sendOk) = false → wired s.(hs) →
  let l := plan_round j (seq 0 (length names)) in
  round cfg count o s j = Ret (foldl record s (until_success l), negb (existsb snd l)).
Proof.
  intros Hj Hs Hw. unfold round. rewrite (wired_names _ Hw), round_spec; [|done| |done].
  - cbn [mbind go_bind]. by rewrite sendOk_until.
  - apply Forall_forall. intros i. rewrite elem_of_seq. lia.
Qed.

Lemma rounds_spec js s :
  Forall rint_ok js → s.(sendOk) = false → wired s.(hs) →
  go_loop (round cfg count o) s js = Ret (foldl record s (until_success (plan js))).
Proof.
  intros HF. revert s. induction HF as [|j js Hj _ IH]; intros s Hs Hw; [done|].
  cbn [go_loop]. rewrite round_eq by done. cbn [mbind go_bind snd fst].
  unfold plan. cbn [mbind list_bind]. fold (plan js). rewrite until_app.
  set (l := plan_round j _). destruct (existsb snd l) eqn:E; [done|]. cbn [negb].
  rewrite IH; [by rewrite (until_none l E), foldl_app|by rewrite sendOk_until|by apply wired_records].
Qed.
(** A round goes around all hosts, from one chosen at random. *)
Lemma round_rotates j : 0 <= o.(rint) j → host_at j <$> seq 0 (length names) ≡ₚ names.
Proof.
  intros Hr. destruct (decide (names = [])) as [E|Hne]; [by rewrite E|].
  set (n := Z.of_nat (length names)). assert (0 < n) as Hn by (subst n; destruct names; [done|cbn; lia]).
  set (k := Z.to_nat (o.(rint) j mod n)).
  assert (Z.of_nat k = o.(rint) j mod n ∧ (k < length names)%nat) as [Hk Hk'].
  { pose proof (Z.mod_pos_bound (o.(rint) j) n Hn). subst k n. lia. }
  transitivity (drop k names ++ take k names); [|by rewrite Permutation_app_comm, take_drop].
  apply reflexive_eq. apply list_eq. intros i. rewrite list_lookup_fmap.
  destruct (decide (i < length names)%nat) as [Hi|Hi].
  2:{ rewrite !lookup_ge_None_2; [done|rewrite length_app, length_drop, length_take; lia|rewrite length_seq; lia]. }
  rewrite lookup_seq_lt by done. cbn. destruct (host_at_in j i Hne) as [_ <-].
  fold n. rewrite <- Zplus_mod_idemp_r, <- Hk.
  destruct (decide (i + k < length names)%nat) as [Hlt|Hge].
  - rewrite Z.mod_small by (subst n; lia). rewrite lookup_app_l by (rewrite length_drop; lia).
    rewrite lookup_drop. f_equal. lia.
  - replace (Z.of_nat i + Z.of_nat k) with (Z.of_nat (i + k - length names) + 1 * n) by (subst n; lia).
    rewrite Z_mod_plus_full, Z.mod_small by (subst n; lia).
    rewrite lookup_app_r by (rewrite length_drop; lia). rewrite length_drop, lookup_take_lt by lia. f_equal. lia.
Qed.

Definition count_after (z : Z) (n : nat) : Z := wrap64 (z + count * Z.of_nat n).

Lemma count_after_S z n : int64 z → count_after (z +₆₄ count) n = count_after z (S n).
Proof. intros _. unfold count_after. rewrite wrap64_add_l. f_equal. lia. Qed.

Lemma records_counts l s h z1 z2 :
  s.(hs).(TransferSendCnt) !! h = Some z1 → s.(hs).(TransferSendFailCnt) !! h = Some z2 → int64 z1 → int64 z2 →
  let hs' := (foldl record s l).(hs) in
  hs'.(TransferSendCnt) !! h = Some (count_after z1 (times h true l)) ∧
  hs'.(TransferSendFailCnt) !! h = Some (count_after z2 (times h false l)).
Proof.
  revert s z1 z2. induction l as [|[[h' a] b] l IH]; intros s z1 z2 H1 H2 I1 I2.
  { cbn. unfold count_after. rewrite H1, H2. cbn. rewrite Z.mul_0_r, !Z.add_0_r, !wrap64_id by done. done. }
  cbn [foldl]. unfold times in *. rewrite !filter_cons. cbn [fst snd].
  destruct b; [rewrite (decide_False (P := _ ∧ true = false)) by naive_solver|
    rewrite (decide_False (P := _ ∧ false = true)) by naive_solver];
    destruct (decide (h' = h)) as [->|Hne].
  - rewrite decide_True by done. cbn [length]. rewrite <- count_after_S by done.
    apply IH; auto with go; cbn; by rewrite ?lookup_alter_eq, ?H1, ?H2.
  - rewrite decide_False by naive_solver. apply IH; auto; cbn; by rewrite lookup_alter_ne.
  - rewrite decide_True by done. cbn [length]. rewrite <- count_after_S by done.
    apply IH; auto with go; cbn; by rewrite ?lookup_alter_eq, ?H1, ?H2.
  - rewrite decide_False by naive_solver. apply IH; auto; cbn; by rewrite lookup_alter_ne.
Qed.
End spec.

(** A goroutine ends.  Round after round it calls the hosts, each once a round
in an order that starts at random, but those with too many calls under way; it
stops at the first success, and a batch counts as failed only when every call
of all rounds failed.  The counters of a
host grow by the size of the batch with each call to it. *)
Theorem send_batch_correct cfg count o h :
  let names := h.(TransferHostnames) in let addrs := h.(TransferMap) in
  let rounds := seq 0 (Z.to_nat (retry cfg)) in
  Forall (rint_ok o names) rounds →
  (∀ n, n ∈ names → ∃ z1 z2, h.(TransferSendCnt) !! n = Some z1 ∧ h.(TransferSendFailCnt) !! n = Some z2 ∧
     int64 z1 ∧ int64 z2) →
  (1 ≤ length rounds)%nat ∧ (∀ j, j ∈ rounds → host_at o names j <$> seq 0 (length names) ≡ₚ names) ∧
  ∃ s, send_batch cfg count o h = Ret s ∧
    let all := plan cfg o names addrs rounds in
    s.(called) = until_success all ∧ s.(sendOk) = existsb snd all ∧
    ∀ n z1 z2, n ∈ names → h.(TransferSendCnt) !! n = Some z1 → h.(TransferSendFailCnt) !! n = Some z2 →
      s.(hs).(TransferSendCnt) !! n = Some (count_after count z1 (times n true s.(called))) ∧
      s.(hs).(TransferSendFailCnt) !! n = Some (count_after count z2 (times n false s.(called))).
Proof.
  intros names addrs rounds Hr Hc. split; [|split].
  - subst rounds. rewrite length_seq. unfold retry. destruct (Z.ltb_spec cfg.(TransferConfig.Retry) 1); lia.
  - intros j Hj. apply round_rotates. rewrite Forall_forall in Hr. by apply Hr.
  - assert (wired names addrs h) as Hw.
    { split; [done|done|..]; intros n Hn; destruct (Hc n Hn) as (z1 & z2 & H1 & H2 & _); by eexists. }
    eexists. split; [apply (rounds_spec cfg count o names addrs); done|]. cbv zeta. split_and!.
    + rewrite called_records. done.
    + by rewrite sendOk_until.
    + intros n z1 z2 Hn H1 H2. destruct (Hc n Hn) as (? & ? & E1 & E2 & ? & ?). simplify_eq.
      rewrite called_records. by apply records_counts.
Qed.

Definition ex_cluster : TransferConfig.t := TransferConfig.mk true 200 2 1000 5000 32 32 {["t1" := "h1:1"; "t2" := "h2:1"]}.
Definition ex_hosts : hosts := (initConnPools ex_cluster [("t1", "h1:1"); ("t2", "h2:1")] [("t1", "h1:1"); ("t2", "h2:1")]).1.

(** The first round starts at [t2], where a call fails; [t1] is busy; the second succeeds at [t1]. *)
Definition ex_circumstances : circumstances :=
  Circ (λ j, match j with O => 5 | _ => 8 end) (λ j i, match j, i with O, 1%nat => 32 | _, _ => 0 end)
    (λ j i, match j with O => Err "timeout" | _ => Ok tt end).

Example send_batch_correct_witness :
  ∃ s, send_batch ex_cluster 7 ex_circumstances ex_hosts = Ret s ∧ s.(sendOk) = true ∧
    s.(called) = [("t2", "h2:1", false); ("t1", "h1:1", true)].
Proof.
  destruct (send_batch_correct ex_cluster 7 ex_circumstances ex_hosts) as (_ & _ & s & Hs & Hc & Hk & _).
  - repeat constructor; cbn; lia.
  - intros n [->|[->|[]%not_elem_of_nil]%elem_of_cons]%elem_of_cons; exists 0, 0; split_and!; try done.
  - exists s. split; [exact Hs|]. rewrite Hc, Hk. split; vm_compute; reflexivity.
Defined.

(** The index of a host overflows when the random number is within the number
of hosts of the greatest integer: the goroutine panics, and gateway with it. *)
Example rint_overflow :
  let h := (initConnPools ex_cluster [("a", "a"); ("b", "b"); ("c", "c")] [("a", "a"); ("b", "b"); ("c", "c")]).1 in
  send_batch ex_cluster 7 (Circ (λ _, 2 ^ 63 - 1) (λ _ _, 0) (λ _ _, Err "timeout")) h = Panic IndexOutOfRange.
Proof. vm_compute. reflexivity. Qed.

(** ** The receiver compared with that of transfer *)

(** Gateway accepts what transfer accepts, as the same item, unless a tag has no [=]. *)
Lemma gateway_item_strict now v :
  gateway_item now v =
    v' ← v; match (SplitTagsString v'.(MetricValue.Tags)).1 with None => recv_item now v | Some _ => None end.
Proof.
  destruct v as [v|]; [|done]. unfold gateway_item, recv_item. cbn [mbind option_bind].
  destruct (SplitTagsString v.(MetricValue.Tags)) as [[e|]tags] eqn:E; cbn [fst].
  - repeat case_decide; try done. destruct (is_empty_value _); [done|]. destruct (_ <=? 0); [done|]. by destruct (510 <? _).
  - by rewrite (SplitTagsString_Dicted _ _ E).
Qed.

Lemma Push2SendQueue_queue items st :
  (Push2SendQueue items st).(SenderQueue) = push_all items st.(SenderQueue).
Proof.
  revert st. induction items as [|item items IH]; intros st; [done|].
  unfold Push2SendQueue, push_all in *. cbn [foldl]. rewrite IH.
  by destruct (SafeListLimited.PushFront item (SenderQueue st)).
Qed.
