(* ===== verification/Agent.v ===== *)
(** * Agent: collecting points and sending them

modules/agent: the JSON-RPC client (g/rpc.go) that it uses for the heartbeat
server and the transfers, the choice of a transfer and the default tags
(g/transfer.go, g/var.go), the collection of points (cron/collector.go) and the
functions that make them from what the kernel reports (funcs/).  The
readings of the kernel, which vendor/github.com/toolkits/nux parses, the runs of
[du] and [curl] and the network are arguments.

The last sections compose agent and transfer. *)

From S2P Require Import Prelude GoFloat GoString Hash Tags Model Json Transfer ConnPool Gateway.
From Stdlib Require Import Ascii.
From stdpp Require Import options.

(** ** The RPC client *)

Record SingleConnRpcClient : Type := Client { rpcClient : option nat; RpcServer : string }.

(** [close]: the connection, if there is one, is closed and forgotten. *)
Definition close (c : SingleConnRpcClient) (w : wire) : SingleConnRpcClient * wire :=
  match c.(rpcClient) with
  | Some cli => (Client None c.(RpcServer), Wire w.(dialed) (w.(closes) ++ [cli]))
  | None => (c, w)
  end.

(** The loop of [serverConn]: [retry] counts the dials, the answers of which are
[dials]; [naps] are the seconds that it sleeps after each failure. *)
Fixpoint serverConn_loop (fuel retry : nat) (dials : nat → option error) (naps : list Z) (c : SingleConnRpcClient)
    (w : wire) : option (option error * list Z * SingleConnRpcClient * wire) :=
  match fuel with
  | O => None
  | S fuel =>
      match dials retry with
      | Some err =>
          if (3 <? retry)%nat then Some (Some err, naps, c, w)
          else serverConn_loop fuel (S retry) dials (naps ++ [2 ^ Z.of_nat retry]) c w
      | None => Some (None, naps, Client (Some w.(dialed)) c.(RpcServer), Wire (S w.(dialed)) w.(closes))
      end
  end.

Definition serverConn (fuel : nat) (dials : nat → option error) (c : SingleConnRpcClient) (w : wire) :
    option (option error * list Z * SingleConnRpcClient * wire) :=
  match c.(rpcClient) with
  | Some _ => Some (None, [], c, w)
  | None => serverConn_loop fuel 1 dials [] c w
  end.

(** [Call]; [o] is how the call of net/rpc ends.  A call that times out closes
the connection and answers no error. *)
Definition Client_Call (fuel : nat) (dials : nat → option error) (o : outcome) (c : SingleConnRpcClient) (w : wire) :
    option (option error * SingleConnRpcClient * wire) :=
  '(err, _, c, w) ← serverConn fuel dials c w;
  match err with
  | Some err => Some (Some err, c, w)
  | None =>
      match o with
      | TimedOut => let (c', w') := close c w in Some (None, c', w')
      | Answered (Some err) => let (c', w') := close c w in Some (Some err, c', w')
      | Answered None => Some (None, c, w)
      end
  end.

(** The dials of one call: as many as [serverConn] makes. *)
Definition dial_fuel : nat := 4.

(** ** Sending to a transfer *)

(** What the world answers to the attempts to send: the dials of the [n]-th
attempt, and how its call ends. *)
Record answers : Type := Answers { dials_of : nat → nat → option error; ends_of : nat → outcome }.

Record links : Type := Links { TransferClients : gmap string SingleConnRpcClient; sockets : wire }.

Definition getTransferClient (addr : string) (l : links) : option SingleConnRpcClient := l.(TransferClients) !! addr.

Definition initTransferClient (addr : string) (l : links) : SingleConnRpcClient * links :=
  let c := Client None addr in (c, Links (<[addr := c]> l.(TransferClients)) l.(sockets)).

(** The body of the loop of [SendMetrics]: the [n]-th attempt, at the [i]-th
address; [tried] are the attempts made, each with what [updateMetrics] answered. *)
Definition try_transfer (addrs : list string) (a : answers) (s : links * list (string * bool)) (i : nat) :
    go (links * list (string * bool) * bool) :=
  let '(l, tried) := s in
  addr ← at_index addrs (Z.of_nat i);
  let '(c, l) := match getTransferClient addr l with Some c => (c, l) | None => initTransferClient addr l end in
  let n := length tried in
  match Client_Call dial_fuel (a.(dials_of) n) (a.(ends_of) n) c l.(sockets) with
  | Some (err, c', w') =>
      let ok := match err with None => true | Some _ => false end in
      Ret (Links (<[addr := c']> l.(TransferClients)) w', tried ++ [(addr, ok)], negb ok)
  | None => Ret (l, tried, false)
  end.

(** [SendMetrics]; [perm] is the random permutation of the indices of the addresses. *)
Definition SendMetrics (addrs : list string) (perm : list nat) (a : answers) (l : links) :
    go (links * list (string * bool)) :=
  go_loop (try_transfer addrs a) (l, []) perm.

(** The default tags as text; [kvs] is the order in which the map is visited. *)
Definition default_tags (kvs : list (string * string)) : string :=
  join "," ((λ kv, kv.1 +:+ "=" +:+ kv.2) <$> kvs).

Definition with_Tags (tags : string) (v : MetricValue.t) : MetricValue.t :=
  MetricValue.mk v.(MetricValue.Endpoint) v.(MetricValue.Metric) v.(MetricValue.Value) v.(MetricValue.Step)
    v.(MetricValue.Type_) tags v.(MetricValue.Timestamp).

Definition add_default_tags (dt : string) (x : MetricValue.t) : MetricValue.t :=
  with_Tags (if decide (x.(MetricValue.Tags) = "") then dt else x.(MetricValue.Tags) +:+ "," +:+ dt) x.

(** [SendToTransfer]: what it sends, or nothing; a pointer that is nil panics
when there are default tags. *)
Definition SendToTransfer (kvs : list (string * string)) (metrics : list (option MetricValue.t)) :
    go (option (list (option MetricValue.t))) :=
  if decide (metrics = []) then Ret None
  else if decide (0 < length kvs)%nat then
    metrics ← go_foldl (λ l x, x ← deref x; Ret (l ++ [Some (add_default_tags (default_tags kvs) x)])) [] metrics;
    Ret (Some metrics)
  else Ret (Some metrics).

(** ** Collecting *)

(** The loop over the metrics of one function: those of the configuration's
[ignore] that are set to true are left out. *)
Definition keep_metrics (ignoreMetrics : gmap string bool) (items : list MetricValue.t) : list MetricValue.t :=
  filter (λ mv, ignoreMetrics !! mv.(MetricValue.Metric) ≠ Some true) items.

Definition stamp (sec : Z) (hostname : string) (now : Z) (mv : MetricValue.t) : MetricValue.t :=
  MetricValue.mk hostname mv.(MetricValue.Metric) mv.(MetricValue.Value) sec mv.(MetricValue.Type_)
    mv.(MetricValue.Tags) now.

(** A tick of [collect]: the functions answered [items]. *)
Definition collect (sec : Z) (hostname : result string) (ignoreMetrics : gmap string bool)
    (items : list (list MetricValue.t)) (now : Z) : list MetricValue.t :=
  match hostname with
  | Err _ => []
  | Ok hostname => stamp sec hostname now <$> (items ≫= keep_metrics ignoreMetrics)
  end.

(** ** Making points *)

Definition NewMetricValue (metric : string) (val : value) (dataType : string) (tags : list string) : MetricValue.t :=
  MetricValue.mk "" metric val 0 dataType (if decide (0 < length tags)%nat then join "," tags else "") 0.
Definition GaugeValue (metric : string) (val : value) (tags : list string) : MetricValue.t :=
  NewMetricValue metric val "GAUGE" tags.
Definition CounterValue (metric : string) (val : value) (tags : list string) : MetricValue.t :=
  NewMetricValue metric val "COUNTER" tags.

(** Subtraction of [uint64]. *)
Definition sub_u64 (a b : Z) : Z := (a - b) mod 2 ^ 64.
Definition add_u64 (a b : Z) : Z := (a + b) mod 2 ^ 64.
Definition f64_100 : float64 := f64_of_Z 100.

(** *** CPU *)

(** What nux reads of /proc/stat. *)
Record CpuUsage : Type := Usage {
  User : Z; Nice : Z; System : Z; Idle : Z; Iowait : Z; Irq : Z; SoftIrq : Z; Steal : Z; Guest : Z; Total : Z }.
Record ProcStat : Type := Stat { Cpu : CpuUsage; Ctxt : Z }.

(** [procStatHistory]: the last two readings, the newest first. *)
Abbreviation proc_history := (option ProcStat * option ProcStat)%type.

Definition UpdateCpuStat (ps : result ProcStat) (h : proc_history) : proc_history :=
  match ps with Err _ => h | Ok ps => (Some ps, h.1) end.

Definition deltaTotal (h : proc_history) : go Z :=
  match h.2 with
  | None => Ret 0
  | Some old => new ← deref h.1; Ret (sub_u64 new.(Cpu).(Total) old.(Cpu).(Total))
  end.

(** [CpuIdle], [CpuUser] and the others: the share of a field of the time
between the two readings, in percent. *)
Definition cpu_share (f : CpuUsage → Z) (h : proc_history) : go float64 :=
  dt ← deltaTotal h;
  if decide (dt = 0) then Ret f64_zero
  else
    new ← deref h.1; old ← deref h.2;
    let invQuotient := f64_div f64_100 (f64_of_Z dt) in
    Ret (f64_mul (f64_of_Z (sub_u64 (f new.(Cpu)) (f old.(Cpu)))) invQuotient).

Definition CurrentCpuSwitches (h : proc_history) : go Z := new ← deref h.1; Ret new.(Ctxt).
Definition CpuPrepared (h : proc_history) : bool := bool_decide (is_Some h.2).

Definition cpu_gauge (metric : string) (v : float64) : MetricValue.t := GaugeValue metric (VFloat64 v) [].

Definition CpuMetrics (h : proc_history) : go (list MetricValue.t) :=
  if CpuPrepared h then
    cpuIdleVal ← cpu_share Idle h;
    user ← cpu_share User h; nice ← cpu_share Nice h; system ← cpu_share System h;
    iowait ← cpu_share Iowait h; irq ← cpu_share Irq h; softirq ← cpu_share SoftIrq h;
    steal ← cpu_share Steal h; guest ← cpu_share Guest h; switches ← CurrentCpuSwitches h;
    Ret [cpu_gauge "cpu.idle" cpuIdleVal; cpu_gauge "cpu.busy" (f64_sub f64_100 cpuIdleVal);
         cpu_gauge "cpu.user" user; cpu_gauge "cpu.nice" nice; cpu_gauge "cpu.system" system;
         cpu_gauge "cpu.iowait" iowait; cpu_gauge "cpu.irq" irq; cpu_gauge "cpu.softirq" softirq;
         cpu_gauge "cpu.steal" steal; cpu_gauge "cpu.guest" guest;
         CounterValue "cpu.switches" (VInt switches) []]
  else Ret [].

(** *** Disks *)

(** What nux reads of /proc/diskstats; [TS] is the time of the reading, in nanoseconds. *)
Record DiskStats : Type := Disk {
  Device : string; ReadRequests : Z; ReadMerged : Z; ReadSectors : Z; MsecRead : Z;
  WriteRequests : Z; WriteMerged : Z; WriteSectors : Z; MsecWrite : Z;
  IosInProgress : Z; MsecTotal : Z; MsecWeightedTotal : Z; TS : Z }.

(** [diskStatsMap]: the last two readings of each device, the newest first. *)
Abbreviation disk_pair := (option DiskStats * option DiskStats)%type.

Definition put_disk (m : gmap string disk_pair) (ds : DiskStats) : gmap string disk_pair :=
  <[ds.(Device) := (Some ds, (default (None, None) (m !! ds.(Device))).1)]> m.
Definition UpdateDiskStats (dsList : result (list DiskStats)) (m : gmap string disk_pair) : gmap string disk_pair :=
  match dsList with Err _ => m | Ok l => foldl put_disk m l end.

(** [IOReadRequests] and the others, by the field that they compare. *)
Definition io_delta (f : DiskStats → Z) (arr : disk_pair) : go Z :=
  new ← deref arr.1; old ← deref arr.2; Ret (sub_u64 (f new) (f old)).
(** The milliseconds between the readings, as a [uint64]. *)
Definition io_TS (arr : disk_pair) : go Z :=
  new ← deref arr.1; old ← deref arr.2; Ret (Z.quot (new.(TS) -₆₄ old.(TS)) 1000000 mod 2 ^ 64).

Definition IODelta (device : string) (f : disk_pair → go Z) (m : gmap string disk_pair) : go Z :=
  match m !! device with
  | None => Ret 0
  | Some val => match val.2 with None => Ret 0 | Some _ => f val end
  end.

Definition ShouldHandleDevice (device : string) : bool :=
  let normal := (slen device =? 3) && (HasPrefix device "sd" || HasPrefix device "vd") in
  let aws := (4 <=? slen device) && HasPrefix device "xvd" in
  normal || aws.

(** The averages per operation, [0.0] when there was none. *)
Definition per_io (n_io sum : Z) : float64 :=
  if decide (n_io = 0) then f64_zero else f64_div (f64_of_Z sum) (f64_of_Z n_io).

Definition utilization (use duration : Z) : float64 :=
  let tmp := f64_div (f64_mul (f64_of_Z use) f64_100) (f64_of_Z duration) in
  if f64_lt f64_100 tmp then f64_100 else tmp.

(** The points of one device. *)
Definition io_points (m : gmap string disk_pair) (device : string) : go (list MetricValue.t) :=
  let tags := "device=" +:+ device in
  rio ← IODelta device (io_delta ReadRequests) m;
  wio ← IODelta device (io_delta WriteRequests) m;
  delta_rsec ← IODelta device (io_delta ReadSectors) m;
  delta_wsec ← IODelta device (io_delta WriteSectors) m;
  ruse ← IODelta device (io_delta MsecRead) m;
  wuse ← IODelta device (io_delta MsecWrite) m;
  use ← IODelta device (io_delta MsecTotal) m;
  let n_io := add_u64 rio wio in
  duration ← IODelta device io_TS m;
  weighted ← IODelta device (io_delta MsecWeightedTotal) m;
  let gauge metric v := GaugeValue metric (VFloat64 v) [tags] in
  Ret [gauge "disk.io.read_bytes" (f64_mul (f64_of_Z delta_rsec) (f64_of_Z 512));
       gauge "disk.io.write_bytes" (f64_mul (f64_of_Z delta_wsec) (f64_of_Z 512));
       gauge "disk.io.avgrq_sz" (per_io n_io (add_u64 delta_rsec delta_wsec));
       gauge "disk.io.avgqu-sz" (f64_div (f64_of_Z weighted) (f64_of_Z 1000));
       gauge "disk.io.await" (per_io n_io (add_u64 ruse wuse));
       gauge "disk.io.svctm" (per_io n_io use);
       gauge "disk.io.util" (utilization use duration)].

(** [IOStatsMetrics]; [kvs] is the order in which the map is visited. *)
Definition IOStatsMetrics (kvs : list (string * disk_pair)) (m : gmap string disk_pair) : go (list MetricValue.t) :=
  go_foldl (λ L device,
    if ShouldHandleDevice device then l ← io_points m device; Ret (L ++ l) else Ret L) [] kvs.*1.

Definition DiskIOMetrics (dsList : result (list DiskStats)) : list MetricValue.t :=
  match dsList with
  | Err _ => []
  | Ok l => ds ← l;
      if ShouldHandleDevice ds.(Device) then
        let counter metric v := CounterValue metric (VInt v) ["device=" +:+ ds.(Device)] in
        [counter "disk.io.read_requests" ds.(ReadRequests); counter "disk.io.read_merged" ds.(ReadMerged);
         counter "disk.io.read_sectors" ds.(ReadSectors); counter "disk.io.msec_read" ds.(MsecRead);
         counter "disk.io.write_requests" ds.(WriteRequests); counter "disk.io.write_merged" ds.(WriteMerged);
         counter "disk.io.write_sectors" ds.(WriteSectors); counter "disk.io.msec_write" ds.(MsecWrite);
         counter "disk.io.ios_in_progress" ds.(IosInProgress); counter "disk.io.msec_total" ds.(MsecTotal);
         counter "disk.io.msec_weighted_total" ds.(MsecWeightedTotal)]
      else []
  end.

(** *** Memory and file systems *)

Record Mem : Type := MemInfo {
  Buffers : Z; Cached : Z; MemTotal : Z; MemFree : Z; SwapTotal : Z; SwapUsed : Z; SwapFree : Z }.

(** [part] in percent of [total], [0.0] of nothing. *)
Definition percent (part total : Z) : float64 :=
  if decide (total = 0) then f64_zero else f64_div (f64_mul (f64_of_Z part) f64_100) (f64_of_Z total).

Definition MemMetrics (m : result Mem) : list MetricValue.t :=
  match m with
  | Err _ => []
  | Ok m =>
      let memFree := add_u64 (add_u64 m.(MemFree) m.(Buffers)) m.(Cached) in
      let memUsed := sub_u64 m.(MemTotal) memFree in
      let gauge metric v := GaugeValue metric (VInt v) [] in
      let pgauge metric v := GaugeValue metric (VFloat64 v) [] in
      [gauge "mem.memtotal" m.(MemTotal); gauge "mem.memused" memUsed; gauge "mem.memfree" memFree;
       gauge "mem.swaptotal" m.(SwapTotal); gauge "mem.swapused" m.(SwapUsed); gauge "mem.swapfree" m.(SwapFree);
       pgauge "mem.memfree.percent" (percent memFree m.(MemTotal));
       pgauge "mem.memused.percent" (percent memUsed m.(MemTotal));
       pgauge "mem.swapfree.percent" (percent m.(SwapFree) m.(SwapTotal));
       pgauge "mem.swapused.percent" (percent m.(SwapUsed) m.(SwapTotal))]
  end.

Record DeviceUsage : Type := DevUsage {
  FsFile : string; FsVfstype : string; BlocksAll : Z; BlocksUsed : Z; BlocksFree : Z;
  BlocksUsedPercent : float64; BlocksFreePercent : float64;
  InodesAll : Z; InodesUsed : Z; InodesFree : Z; InodesUsedPercent : float64; InodesFreePercent : float64 }.

Definition device_points (du : DeviceUsage) : list MetricValue.t :=
  let tags := "mount=" +:+ du.(FsFile) +:+ ",fstype=" +:+ du.(FsVfstype) in
  let gauge metric v := GaugeValue metric (VInt v) [tags] in
  let pgauge metric v := GaugeValue metric (VFloat64 v) [tags] in
  [gauge "df.bytes.total" du.(BlocksAll); gauge "df.bytes.used" du.(BlocksUsed); gauge "df.bytes.free" du.(BlocksFree);
   pgauge "df.bytes.used.percent" du.(BlocksUsedPercent); pgauge "df.bytes.free.percent" du.(BlocksFreePercent);
   gauge "df.inodes.total" du.(InodesAll); gauge "df.inodes.used" du.(InodesUsed); gauge "df.inodes.free" du.(InodesFree);
   pgauge "df.inodes.used.percent" du.(InodesUsedPercent); pgauge "df.inodes.free.percent" du.(InodesFreePercent)].

(** The body of the loop over the mount points: the points so far, and the
blocks in all and in use.  A mount point is its device, its file and its type. *)
Definition add_device (mine : list string) (usage : string * string * string → result DeviceUsage)
    (acc : list MetricValue.t * Z * Z) (mp : string * string * string) : list MetricValue.t * Z * Z :=
  let '(L, diskTotal, diskUsed) := acc in
  if decide (mine ≠ [] ∧ mp.1.2 ∉ mine) then acc
  else match usage mp with
  | Err _ => acc
  | Ok du =>
      if decide (du.(BlocksAll) = 0) then acc
      else (L ++ device_points du, add_u64 diskTotal du.(BlocksAll), add_u64 diskUsed du.(BlocksUsed))
  end.

Definition DeviceMetrics (mine : list string) (mountPoints : result (list (string * string * string)))
    (usage : string * string * string → result DeviceUsage) : list MetricValue.t :=
  match mountPoints with
  | Err _ => []
  | Ok mps =>
      let '(L, diskTotal, diskUsed) := foldl (add_device mine usage) ([], 0, 0) mps in
      if decide ((0 < length L)%nat ∧ 0 < diskTotal) then
        L ++ [GaugeValue "df.statistics.total" (VFloat64 (f64_of_Z diskTotal)) [];
              GaugeValue "df.statistics.used" (VFloat64 (f64_of_Z diskUsed)) [];
              GaugeValue "df.statistics.used.percent"
                (VFloat64 (f64_div (f64_mul (f64_of_Z diskUsed) f64_100) (f64_of_Z diskTotal))) []]
      else L
  end.

(** *** What the heartbeat server asks for *)

Definition URL_CHECK_HEALTH : string := "url.check.health".
Definition NET_PORT_LISTEN : string := "net.port.listen".
Definition DU_BS : string := "du.bs".
Definition PROC_NUM : string := "proc.num".

Record Proc_ : Type := Process { Pid : Z; Proc_Name : string; Cmdline : string }.

(** [is_a]; [kvs] is the order in which the conditions are visited. *)
Fixpoint is_a (p : Proc_) (kvs : list (Z * string)) : bool :=
  match kvs with
  | [] => true
  | (key, val) :: kvs =>
      if decide (key = 1) then if decide (val ≠ p.(Proc_Name)) then false else is_a p kvs
      else if decide (key = 2) then if contains_str val p.(Cmdline) then is_a p kvs else false
      else is_a p kvs
  end.

(** [ProcMetrics]; [kvs] is the order of the visit of [reportProcs]. *)
Definition ProcMetrics (kvs : list (string * gmap Z string)) (ps : result (list Proc_)) : list MetricValue.t :=
  if decide (kvs = []) then []
  else match ps with
  | Err _ => []
  | Ok ps => (λ kv, GaugeValue PROC_NUM
      (VInt (foldl (λ cnt p, if is_a p (map_to_list kv.2) then cnt + 1 else cnt) 0 ps)) [kv.1]) <$> kvs
  end.

Definition PortMetrics (reportPorts : list Z) (tcp udp : result (list Z)) : list MetricValue.t :=
  match reportPorts, tcp, udp with
  | _ :: _, Ok allTcpPorts, Ok allUdpPorts =>
      (λ port, GaugeValue NET_PORT_LISTEN
        (VInt (if decide (port ∈ allTcpPorts ∨ port ∈ allUdpPorts) then 1 else 0)) ["port=" +:+ Itoa port]) <$> reportPorts
  | _, _, _ => []
  end.

(** [strconv.ParseUint(s, 10, 64)] *)
Definition ParseUint64 (s : string) : result Z :=
  z ← parse_digits s; if decide (z < 2 ^ 64) then Ok z else Err errRange.

(** [DuMetrics]; [du] is the output of the command for a path. *)
Definition DuMetrics (paths : list string) (du : string → result string) : go (list MetricValue.t) :=
  go_foldl (λ L path,
    match du path with
    | Err _ => Ret L
    | Ok out =>
        let arr := Fields out in
        if decide (length arr = 1%nat) then Ret L
        else
          s ← at_index arr 0;
          match ParseUint64 s with
          | Err _ => Ret L
          | Ok size => Ret (L ++ [GaugeValue DU_BS (VInt size) ["path=" +:+ path]])
          end
    end) [] paths.

(** [UrlMetrics]; [kvs] is the order of the visit, [probe] the answer of [probeUrl]. *)
Definition UrlMetrics (kvs : list (string * string)) (hostname : result string) (probe : string → string → bool) :
    list MetricValue.t :=
  let hostname := match hostname with Ok h => h | Err _ => "None" end in
  (λ kv, GaugeValue URL_CHECK_HEALTH (VInt (if probe kv.1 kv.2 then 1 else 0))
     ["url=" +:+ kv.1 +:+ ",timeout=" +:+ kv.2 +:+ ",src=" +:+ hostname]) <$> kvs.

(** ** The points as JSON *)

(** The arguments of [Transfer.Update]; a float that is not finite has no JSON,
and the call then fails before anything is sent. *)
Definition write_values (mvs : list (option MetricValue.t)) : result json :=
  let j := JArray (json_enc <$> mvs) in
  if json_finite j then Ok j else Err errUnsupported.

(** How a call of [Transfer.Update] with these arguments ends. *)
Definition update_end (mvs : list (option MetricValue.t)) (o : outcome) : outcome :=
  match write_values mvs with Err e => Answered (Some e) | Ok _ => o end.
