(* ===== verification/AgentSafety.v ===== *)
(** * Agent: theorems

The RPC client keeps track of its connection, and [SendMetrics] tries the
transfers one after the other; what agent collects is received by transfer as
it was collected, with the tags of its configuration; a disk that was read only
once makes a batch that cannot be sent. *)

From S2P Require Import Prelude GoFloat GoString Hash Tags Model Json Transfer ConnPool Gateway Agent.
From Stdlib Require Import Ascii SpecFloat.
From stdpp Require Import options.

(** ** The RPC client *)

Lemma serverConn_loop_spec fuel retry dials naps c w :
  (1 ≤ retry ≤ 4)%nat → (4 - retry < fuel)%nat →
  ∃ err naps' c' w', serverConn_loop fuel retry dials naps c w = Some (err, naps', c', w') ∧
    (length naps' ≤ length naps + (4 - retry))%nat ∧ RpcServer c' = RpcServer c ∧
    match err with
    | Some _ => c' = c ∧ w' = w ∧ ∀ i, (retry ≤ i ≤ 4)%nat → dials i ≠ None
    | None => rpcClient c' = Some w.(dialed) ∧ w' = Wire (S w.(dialed)) w.(closes)
    end.
Proof.
  revert retry naps. induction fuel as [|fuel IH]; intros retry naps Hr Hf; [lia|]. cbn [serverConn_loop].
  destruct (dials retry) as [err|] eqn:Ed.
  - destruct (Nat.ltb_spec 3 retry) as [Hlt|Hlt].
    + exists (Some err), naps, c, w. split_and!; try done; [lia|]. intros i Hi. by replace i with retry by lia; rewrite Ed.
    + destruct (IH (S retry) (naps ++ [2 ^ Z.of_nat retry])) as (e & naps' & c' & w' & -> & Hl & Hs & He); [lia..|].
      exists e, naps', c', w'. rewrite length_app in Hl. cbn in Hl. split_and!; try done; [lia|].
      destruct e; [|done]. destruct He as (-> & -> & Hall). split_and!; try done. intros i Hi.
      destruct (decide (i = retry)) as [->|]; [by rewrite Ed|]. apply Hall. lia.
  - exists None, naps. eexists _, _. split_and!; [done|lia|done..].
Qed.

(** The sockets of a client. *)
Definition held (c : SingleConnRpcClient) : list nat := match c.(rpcClient) with Some n => [n] | None => [] end.

(** A call always ends, after at most four dials.  It answers no error when the
server answered none, or did not answer in time; it keeps its connection in the
first case only, and closes it otherwise. *)
Lemma Client_Call_spec dials o c w :
  ∃ err c' w', Client_Call dial_fuel dials o c w = Some (err, c', w') ∧ RpcServer c' = RpcServer c ∧
    (∃ opened closed, w'.(dialed) = (w.(dialed) + length opened)%nat ∧ opened = seq w.(dialed) (length opened) ∧
       w'.(closes) = w.(closes) ++ closed ∧ held c ++ opened ≡ₚ closed ++ held c') ∧
    (err = None → o = Answered None ∨ o = TimedOut) ∧
    (held c' ≠ [] → err = None ∧ o = Answered None) ∧
    ((∃ i, (1 ≤ i ≤ 4)%nat ∧ dials i = None) → err = match o with TimedOut => None | Answered e => e end).
Proof.
  unfold Client_Call.
  assert (∃ err naps c1 w1, serverConn dial_fuel dials c w = Some (err, naps, c1, w1) ∧ RpcServer c1 = RpcServer c ∧
    match err with
    | Some _ => c1 = c ∧ w1 = w ∧ held c = [] ∧ ∀ i, (1 ≤ i ≤ 4)%nat → dials i ≠ None
    | None => held c = held c1 ∧ held c1 ≠ [] ∧ w1 = w ∨
        held c = [] ∧ held c1 = [w.(dialed)] ∧ w1 = Wire (S w.(dialed)) w.(closes)
    end) as (err & naps & c1 & w1 & -> & Hs & H).
  { unfold serverConn, held. destruct (rpcClient c) as [n|] eqn:Ec.
    - exists None, [], c, w. split_and!; try done. left. by rewrite Ec.
    - destruct (serverConn_loop_spec dial_fuel 1 dials [] c w) as (err & naps & c1 & w1 & -> & _ & Hs & H);
        [lia|unfold dial_fuel; lia|]. exists err, naps, c1, w1. split_and!; try done. destruct err.
      + naive_solver.
      + right. destruct H as [-> ->]. done. }
  cbn [mbind option_bind]. destruct err as [err|].
  { destruct H as (-> & -> & Hh & Hd). exists (Some err), c, w. rewrite Hh. split_and!; try done.
    - exists [], []. cbn. rewrite app_nil_r, Nat.add_0_r. done.
    - intros (i & Hi & Hn). by apply Hd in Hi. }
  assert (∃ opened, w1.(dialed) = (w.(dialed) + length opened)%nat ∧ opened = seq w.(dialed) (length opened) ∧
    w1.(closes) = w.(closes) ∧ held c ++ opened = held c1 ∧ held c1 ≠ []) as (opened & H1 & H2 & H3 & H4 & H5).
  { destruct H as [(Hh & Hn & ->)|(Hh & Hh1 & ->)].
    - exists []. rewrite app_nil_r, Nat.add_0_r. done.
    - exists [w.(dialed)]. rewrite Hh, Hh1. cbn. split_and!; try done. lia. }
  assert (close c1 w1 = (Client None c1.(RpcServer), Wire w1.(dialed) (w1.(closes) ++ held c1))) as Hcl.
  { unfold close, held in *. by destruct (rpcClient c1). }
  destruct o as [|[e|]]; rewrite ?Hcl; eexists _, _, _; (split; [reflexivity|]); split_and!; try done;
    try (exists opened, (held c1); cbn; rewrite H3, H4, app_nil_r; by split_and!); try auto.
  exists opened, []. rewrite app_nil_r, H3, H4. by split_and!.
Qed.

(** ** Choosing a transfer *)

(** The sockets of all clients, and that none is lost: each one opened belongs
to one client or was closed once. *)
Definition all_held (m : gmap string SingleConnRpcClient) : list nat := mjoin ((held ∘ snd) <$> map_to_list m).
Definition conserved (l : Agent.links) : Prop :=
  l.(sockets).(closes) ++ all_held l.(TransferClients) ≡ₚ seq 0 l.(sockets).(dialed).

Lemma all_held_insert m k c : all_held (<[k := c]> m) ≡ₚ held c ++ all_held (delete k m).
Proof. unfold all_held. by rewrite <- insert_delete_eq, map_to_list_insert by apply lookup_delete_eq. Qed.

Lemma all_held_lookup m k : all_held m ≡ₚ default [] (held <$> m !! k) ++ all_held (delete k m).
Proof.
  destruct (m !! k) as [c|] eqn:E; cbn; [|by rewrite delete_id].
  rewrite <- (insert_id m k c E) at 1. apply all_held_insert.
Qed.

Lemma conserved_call l addr c c' w' opened closed :
  conserved l → held c = default [] (held <$> l.(TransferClients) !! addr) →
  w'.(dialed) = (l.(sockets).(dialed) + length opened)%nat → opened = seq l.(sockets).(dialed) (length opened) →
  w'.(closes) = l.(sockets).(closes) ++ closed → held c ++ opened ≡ₚ closed ++ held c' →
  conserved (Links (<[addr := c']> l.(TransferClients)) w').
Proof.
  unfold conserved. intros Hl Hc Hd Ho Hcl Hp. cbn. rewrite Hd, Hcl, seq_app, Nat.add_0_l, <- Ho, <- Hl, all_held_insert. cbn.
  rewrite (all_held_lookup (TransferClients l) addr), <- Hc.
  transitivity (closes (sockets l) ++ (closed ++ held c') ++ all_held (delete addr (TransferClients l)));
    [solve_Permutation|]. rewrite <- Hp. solve_Permutation.
Qed.

Section send.
Context (addrs : list string) (a : answers).

(** What the attempts so far show. *)
Definition honest (tried : list (string * bool)) : Prop := ∀ n addr b, tried !! n = Some (addr, b) →
  (b = true → a.(ends_of) n = Answered None ∨ a.(ends_of) n = TimedOut) ∧
  ((∃ i, (1 ≤ i ≤ 4)%nat ∧ a.(dials_of) n i = None) →
     b = match a.(ends_of) n with Answered (Some _) => false | _ => true end).

Lemma try_transfer_spec l tried i addr :
  addrs !! i = Some addr → conserved l → honest tried →
  ∃ l' ok, try_transfer addrs a (l, tried) i = Ret (l', tried ++ [(addr, ok)], negb ok) ∧
    conserved l' ∧ honest (tried ++ [(addr, ok)]).
Proof.
  intros Hi Hl Ht. unfold try_transfer. rewrite (at_index_of_nat _ _ _ Hi). cbn [mbind go_bind].
  set (cl := match getTransferClient addr l with Some c => (c, l) | None => initTransferClient addr l end).
  assert (∃ c m, cl = (c, Links m l.(sockets)) ∧ (∀ c', <[addr := c']> m = <[addr := c']> l.(TransferClients)) ∧
    held c = default [] (held <$> l.(TransferClients) !! addr)) as (c & m & -> & Hm & Hc).
  { subst cl. unfold getTransferClient, initTransferClient. destruct (TransferClients l !! addr) as [c|] eqn:E.
    - exists c, l.(TransferClients). split_and!; [by destruct l|done..].
    - exists (Client None addr), (<[addr := Client None addr]> l.(TransferClients)). split_and!; [done| |done].
      intros c'. apply insert_insert_eq. }
  cbn [sockets]. set (n := length tried).
  destruct (Client_Call_spec (a.(dials_of) n) (a.(ends_of) n) c l.(sockets))
    as (err & c' & w' & -> & _ & (opened & closed & H1 & H2 & H3 & H4) & He & _ & Hdial).
  eexists _, _. split; [done|]. cbn [TransferClients]. rewrite Hm. split; [by eapply conserved_call|].
  intros k addr' b Hk. apply lookup_snoc_Some in Hk as [[Hlt Hk]|[Hk Heq]]; [by eapply Ht|].
  subst k. injection Heq as <- <-. fold n. split.
  - destruct err; [done|]. auto.
  - intros Hd. specialize (Hdial Hd). destruct (ends_of a n) as [|[e|]]; by subst err.
Qed.

Lemma SendMetrics_loop js l tried :
  Forall (λ i, i < length addrs)%nat js → conserved l → honest tried →
  ∃ l' more, go_loop (try_transfer addrs a) (l, tried) js = Ret (l', tried ++ more) ∧ conserved l' ∧
    honest (tried ++ more) ∧ more.*1 = take (length more) (omap (addrs !!.) js) ∧
    (Forall (λ t, t.2 = false) more ∧ length more = length js ∨
     ∃ failed addr, more = failed ++ [(addr, true)] ∧ Forall (λ t, t.2 = false) failed).
Proof.
  intros HF. revert l tried. induction HF as [|i js Hi _ IH]; intros l tried Hl Ht.
  { exists l, []. rewrite app_nil_r. split_and!; try done. by left. }
  destruct (lookup_lt_is_Some_2 addrs i Hi) as [addr Ha].
  destruct (try_transfer_spec l tried i addr Ha Hl Ht) as (l1 & ok & E & Hl1 & Ht1).
  cbn [go_loop]. rewrite E. cbn [mbind go_bind fst snd]. destruct ok; cbn [negb].
  - exists l1, [(addr, true)]. split_and!; [done..| |]; cbn; [by rewrite Ha|]. right. by exists [], addr.
  - destruct (IH l1 _ Hl1 Ht1) as (l2 & more & E2 & Hl2 & Ht2 & Hm & Hor).
    exists l2, ((addr, false) :: more). rewrite E2. rewrite <- app_assoc in *. cbn [app] in *.
    split_and!; [done..| |].
    + cbn. rewrite Ha. by rewrite Hm at 1.
    + destruct Hor as [[Hf Hlen]|(failed & addr' & -> & Hf)]; [left|right].
      * split; [by constructor|cbn; lia].
      * exists ((addr, false) :: failed), addr'. split; [done|by constructor].
Qed.
End send.

Lemma omap_lookup_seq {A} (xs : list A) : omap (xs !!.) (seq 0 (length xs)) = xs.
Proof.
  induction xs as [|x xs IH]; [done|]. cbn [length seq].
  change (x :: omap ((x :: xs) !!.) (seq 1 (length xs)) = x :: xs). f_equal. rewrite <- fmap_S_seq.
  transitivity (omap (xs !!.) (seq 0 (length xs))); [|done]. clear IH. generalize (seq 0 (length xs)). intros js. induction js as [|j js IHj]; [done|]. cbn. by rewrite IHj.
Qed.

(** C21. Sending a batch always ends.  It tries the transfers in a random order,
each at most once, until one attempt succeeds; if none does all were tried.
An attempt counts as a success when the transfer answered, and also when it
did not answer in time; it fails when the answer is an error or four dials
fail.  No socket is lost: each belongs to a client or was closed once. *)
Theorem SendMetrics_correct addrs perm a l :
  perm ≡ₚ seq 0 (length addrs) → conserved l →
  ∃ l' tried, SendMetrics addrs perm a l = Ret (l', tried) ∧ conserved l' ∧ honest a tried ∧
    tried.*1 = take (length tried) (omap (addrs !!.) perm) ∧ omap (addrs !!.) perm ≡ₚ addrs ∧
    (Forall (λ t, t.2 = false) tried ∧ length tried = length addrs ∨
     ∃ failed addr, tried = failed ++ [(addr, true)] ∧ Forall (λ t, t.2 = false) failed).
Proof.
  intros Hp Hl.
  assert (Forall (λ i, i < length addrs)%nat perm) as HF.
  { rewrite Hp. apply Forall_forall. intros i. rewrite elem_of_seq. lia. }
  destruct (SendMetrics_loop addrs a perm l [] HF Hl) as (l' & tried & E & Hl' & Ht & Hm & Hor).
  { intros n addr b. by rewrite lookup_nil. }
  exists l', tried. split_and!; try done.
  - by rewrite Hp, omap_lookup_seq.
  - by rewrite Hp, length_seq in Hor.
Qed.

Example SendMetrics_correct_witness :
  ∃ l' tried, SendMetrics ["t1"; "t2"] [1%nat; 0%nat] (Answers (λ n i, match n with O => Some "refused" | _ => None end) (λ _, TimedOut))
    (Links ∅ (Wire 0 [])) = Ret (l', tried) ∧ conserved l' ∧ length tried = 2%nat.
Proof.
  destruct (SendMetrics_correct ["t1"; "t2"] [1%nat; 0%nat]
    (Answers (λ n i, match n with O => Some "refused" | _ => None end) (λ _, TimedOut)) (Links ∅ (Wire 0 [])))
    as (l' & tried & E & Hl & _); [apply Permutation_swap|vm_compute; reflexivity|].
  exists l', tried. split; [exact E|]. split; [exact Hl|].
  revert E. vm_compute. by intros [= _ <-].
Defined.

(** ** The default tags *)

Lemma split_sep c s t : split c (s +:+ String c t) = split c s ++ split c t.
Proof.
  induction s as [|a s IH]; cbn; [by rewrite decide_True|].
  case_decide; [by rewrite IH|]. rewrite IH. destruct (split c s) eqn:E; [|done].
  by destruct (split_nonempty c s).
Qed.

Lemma remove_char_app c s t : remove_char c (s +:+ t) = remove_char c s +:+ remove_char c t.
Proof. induction s as [|a s IH]; [done|]. cbn. rewrite IH. by case_decide. Qed.

Lemma DictedTagstring_fold s : s ≠ "" → DictedTagstring s = foldl dict_tag ∅ (split "," (remove_char " " s)).
Proof. intros Hs. unfold DictedTagstring. by rewrite decide_False. Qed.

(** The tags after a text of tags add to those before it, and win over them. *)
Lemma DictedTagstring_app s kvs :
  kvs ≠ [] → Forall (λ kv, tag_wf kv.1 kv.2) kvs →
  DictedTagstring (if decide (s = "") then default_tags kvs else s +:+ "," +:+ default_tags kvs) =
    assign_all kvs (DictedTagstring s).
Proof.
  intros Hne HF. assert (remove_char " " (default_tags kvs) = default_tags kvs) as Hr.
  { apply remove_char_id, lacks_join; [done|]. apply Forall_fmap. eapply Forall_impl; [exact HF|].
    intros [k v] Hkv. by apply (tag_pair_lacks k v). }
  assert (split "," (default_tags kvs) = (λ kv, tag_pair kv.1 kv.2) <$> kvs) as Hs.
  { apply split_join; [by destruct kvs|]. apply Forall_fmap. eapply Forall_impl; [exact HF|].
    intros [k v] Hkv. by apply (tag_pair_lacks k v). }
  assert (default_tags kvs ≠ "") as Hd.
  { intros E. rewrite E in Hs. destruct kvs as [|[k v] [|]]; [done|by destruct k|done]. }
  destruct (decide (s = "")) as [->|Hne'].
  - rewrite DictedTagstring_fold by done. rewrite Hr, Hs. by apply foldl_dict_tag.
  - rewrite DictedTagstring_fold by (by destruct s). rewrite remove_char_app. change ("," +:+ ?t) with (String "," t).
    cbn [remove_char]. rewrite decide_False by done. rewrite split_sep, foldl_app, Hr, Hs.
    rewrite <- DictedTagstring_fold by done. by apply foldl_dict_tag.
Qed.

Lemma assign_all_union kvs (dt m : tagmap) : ranges kvs dt → assign_all kvs m = dt ∪ m.
Proof.
  intros Hr%assign_all_ranges. rewrite assign_all_alt in *. by rewrite map_union_empty in Hr; rewrite Hr.
Qed.

(** ** From agent to transfer *)

(** The number that transfer finds in a point. *)
Definition number (v : value) : option float64 :=
  match v with
  | VFloat64 f => if f64_is_finite f then Some f else None
  | VInt n | VInt64 n => Some (f64_of_Z n)
  | _ => None
  end.

Definition with_Value (f : float64) (mv : MetricValue.t) : MetricValue.t :=
  MetricValue.mk mv.(MetricValue.Endpoint) mv.(MetricValue.Metric) (VFloat64 f) mv.(MetricValue.Step)
    mv.(MetricValue.Type_) mv.(MetricValue.Tags) mv.(MetricValue.Timestamp).

Lemma dec_field_eq `{Json B} {A} n (get : A → B) (set : B → A → A) x a b :
  json_dec (get x) (json_enc (get a)) = Ok b →
  f_dec (field_of n get set) x (f_enc (field_of n get set) a) = Ok (set b x).
Proof. intros E. cbn. by rewrite E. Qed.

(** Integers and floats are the same to the reader. *)
Lemma decode_point mv f :
  number mv.(MetricValue.Value) = Some f → int64 mv.(MetricValue.Step) → int64 mv.(MetricValue.Timestamp) →
  json_finite (json_enc mv) = true ∧ Unmarshal (json_enc mv) = Ok (Some (with_Value f mv)).
Proof.
  intros Hn Hs Ht. split.
  - destruct mv as [e m v st ty tg ts]. cbn in *. rewrite !andb_true_r. destruct v; try done. cbn in *.
    by destruct (f64_is_finite f0).
  - change (Unmarshal (json_enc mv)) with (a ← json_dec json_zero (json_enc mv); Ok (Some a)).
    destruct mv as [e m v st ty tg ts]. cbn in Hn, Hs, Ht.
    assert (json_dec json_zero (json_enc (MetricValue.mk e m v st ty tg ts)) =
      Ok (with_Value f (MetricValue.mk e m v st ty tg ts))) as ->; [|done].
    cbn [json_dec json_enc json_zero json_metric_value json_struct].
    rewrite struct_dec_enc by (vm_compute; reflexivity). unfold metric_value_fields.
    cbn [foldl mbind result_bind].
    do 2 (erewrite dec_field_of by (reflexivity || (cbn; tauto)); cbn [foldl mbind result_bind]).
    rewrite (dec_field_eq _ _ _ _ _ (VFloat64 f)) by (cbn; destruct v; cbn in Hn; repeat case_match; by simplify_eq).
    cbn [mbind result_bind].
    do 4 (erewrite dec_field_of by (reflexivity || (cbn; tauto)); cbn [foldl mbind result_bind]).
    reflexivity.
Qed.

Section reach.
Context (kvs : list (string * string)) (dt : tagmap) (Hr : ranges kvs dt) (Hwf : tags_wf dt).

(** The tags of a point with the default tags after them. *)
Definition all_tags (s : string) : string :=
  if decide (kvs = []) then s else if decide (s = "") then default_tags kvs else s +:+ "," +:+ default_tags kvs.

(** What transfer accepts, once agent has added host, time and default tags. *)
Record sendable (mv : MetricValue.t) : Prop := {
  s_metric : mv.(MetricValue.Metric) ≠ "" ∧ mv.(MetricValue.Metric) ≠ "kernel.hostname";
  s_type : mv.(MetricValue.Type_) = GAUGE ∨ mv.(MetricValue.Type_) = COUNTER;
  s_value : is_Some (number mv.(MetricValue.Value));
  s_size : slen mv.(MetricValue.Metric) + slen (all_tags mv.(MetricValue.Tags)) <= 510 }.

(** A point with its host, period and time. *)
Record complete (now' : Z) (mv : MetricValue.t) : Prop := {
  c_host : mv.(MetricValue.Endpoint) ≠ "";
  c_step : 0 < mv.(MetricValue.Step) < 2 ^ 63;
  c_time : 0 < mv.(MetricValue.Timestamp) <= now' * 2 }.

Definition received_point (mv : MetricValue.t) : MetaData.t :=
  MetaData.mk mv.(MetricValue.Metric) mv.(MetricValue.Endpoint) mv.(MetricValue.Timestamp) mv.(MetricValue.Step)
    (default f64_zero (number mv.(MetricValue.Value))) mv.(MetricValue.Type_) (dt ∪ DictedTagstring mv.(MetricValue.Tags)).

Lemma all_tags_Dicted s : DictedTagstring (all_tags s) = dt ∪ DictedTagstring s.
Proof using Hr Hwf.
  unfold all_tags. case_decide as Hk.
  - assert (dt = ∅) as ->; [|by rewrite (left_id_L ∅ (∪))].
    rewrite Hk in Hr. apply Permutation_nil_l in Hr. by apply map_to_list_empty_iff.
  - rewrite DictedTagstring_app; [by apply assign_all_union|done|by eapply Forall_ranges].
Qed.

Lemma SendToTransfer_spec mvs :
  mvs ≠ [] → SendToTransfer kvs (Some <$> mvs) =
    Ret (Some ((λ mv, Some (with_Tags (all_tags mv.(MetricValue.Tags)) mv)) <$> mvs)).
Proof using Type.
  intros Hne. unfold SendToTransfer. rewrite decide_False by (by destruct mvs). unfold all_tags.
  destruct (decide (kvs = [])) as [E|Hk].
  - rewrite decide_False by (rewrite E; cbn; lia). do 2 f_equal. apply list_fmap_ext. intros _ [] _. done.
  - rewrite decide_True by (clear -Hk; destruct kvs; [done|cbn; lia]).
    assert (∀ acc, go_foldl (λ l x, x ← deref x; Ret (l ++ [Some (add_default_tags (default_tags kvs) x)])) acc
      (Some <$> mvs) = Ret (acc ++ ((λ mv, Some (add_default_tags (default_tags kvs) mv)) <$> mvs))) as ->; [|done].
    clear. induction mvs as [|mv mvs IH]; intros acc; [cbn; by rewrite app_nil_r|].
    cbn [fmap list_fmap go_foldl deref mbind go_bind]. rewrite IH. by rewrite <- app_assoc.
Qed.

Lemma recv_sendable now' mv f :
  sendable mv → complete now' mv → number mv.(MetricValue.Value) = Some f → now' * 2 < 2 ^ 63 →
  recv_item now' (Some (with_Value f (with_Tags (all_tags mv.(MetricValue.Tags)) mv))) = Some (received_point mv).
Proof using Hr Hwf.
  intros [[Hm1 Hm2] Hty _ Hlen] [Hh Hsec Hnow] Hf Hn'. unfold recv_item.
  cbn [with_Tags with_Value mbind option_bind MetricValue.Endpoint MetricValue.Metric MetricValue.Value
    MetricValue.Step MetricValue.Type_ MetricValue.Tags MetricValue.Timestamp is_empty_value float_of_value].
  rewrite !decide_False by naive_solver.
  destruct (Z.leb_spec mv.(MetricValue.Step) 0); [lia|].
  destruct (Z.ltb_spec 510 (slen mv.(MetricValue.Metric) + slen (all_tags mv.(MetricValue.Tags)))); [lia|].
  rewrite wrap64_id by (unfold int64; lia).
  destruct (Z.leb_spec mv.(MetricValue.Timestamp) 0); [lia|].
  destruct (Z.ltb_spec (now' * 2) mv.(MetricValue.Timestamp)); [lia|]. cbn.
  unfold received_point. by rewrite all_tags_Dicted, Hf.
Qed.

(** Points that are complete: as a batch with the default tags they have a JSON,
of which transfer reads the points again and takes every one. *)
Lemma sent_points_received now' mvs :
  mvs ≠ [] → Forall sendable mvs → Forall (complete now') mvs → now' * 2 < 2 ^ 63 →
  ∃ batch j args,
    SendToTransfer kvs (Some <$> mvs) = Ret (Some batch) ∧
    write_values batch = Ok j ∧ read_args j = Ok args ∧
    foldl (recv_body now') ([], 0) args = (received_point <$> mvs, 0).
Proof using Hr Hwf.
  intros Hne HF HC Hn'. rewrite Forall_forall in HF, HC.
  set (final := λ mv, with_Tags (all_tags mv.(MetricValue.Tags)) mv).
  set (value_of := λ mv, default f64_zero (number mv.(MetricValue.Value))).
  assert (∀ mv, mv ∈ mvs → number mv.(MetricValue.Value) = Some (value_of mv) ∧
    json_finite (json_enc (final mv)) = true ∧
    Unmarshal (json_enc (final mv)) = Ok (Some (with_Value (value_of mv) (final mv)))) as Hd.
  { intros mv Hmv. destruct (s_value _ (HF mv Hmv)) as [f Hf]. destruct (HC mv Hmv).
    unfold value_of. rewrite Hf. split; [done|]. apply decode_point; cbn; [done|unfold int64; lia..]. }
  exists (Some ∘ final <$> mvs), (JArray (json_enc <$> (Some ∘ final <$> mvs))),
    ((λ mv, Some (with_Value (value_of mv) (final mv))) <$> mvs).
  split_and!.
  - by apply SendToTransfer_spec.
  - unfold write_values. cbn [json_finite]. rewrite (proj2 (forallb_forall _ _)); [done|].
    intros j Hj%list_elem_of_In. apply list_elem_of_fmap in Hj as (x & -> & Hx).
    apply list_elem_of_fmap in Hx as (mv & -> & Hx). by apply Hd.
  - apply mapM_Ok. rewrite <- list_fmap_compose. apply Forall2_fmap, Forall_Forall2_diag, Forall_forall.
    intros mv Hmv. by apply Hd.
  - rewrite (recv_body_all now' _ (received_point <$> mvs)); [done|].
    apply Forall2_fmap, Forall_Forall2_diag, Forall_forall. intros mv Hmv.
    apply recv_sendable; [by apply HF|by apply HC|by apply Hd|done].
Qed.
End reach.


Definition ex_points : list MetricValue.t :=
  [GaugeValue "load.1min" (VFloat64 (f64_of_Z 2)) []; CounterValue "net.if.in.bytes" (VInt 7) ["iface=eth0"];
   GaugeValue "mem.memtotal" (VInt 9) []].


(** ** A disk that was read once *)

(** The readings of a device among all those that succeeded. *)
Definition readings (d : string) (rs : list (result (list DiskStats))) : nat :=
  length (filter (λ ds, ds.(Device) = d) (r ← rs; match r with Ok l => l | Err _ => [] end)).

(** What is known of a device after [n] readings. *)
Definition pair_ok (n : nat) (p : option disk_pair) : Prop :=
  match n with
  | O => p = None
  | 1%nat => ∃ ds, p = Some (Some ds, None)
  | _ => ∃ ds ds', p = Some (Some ds, Some ds')
  end.

Lemma pair_ok_put m ds d n :
  pair_ok n (m !! d) → pair_ok ((if decide (ds.(Device) = d) then 1 else 0) + n) (put_disk m ds !! d).
Proof.
  unfold put_disk. rewrite lookup_insert. intros H. case_decide as E; [|done]. rewrite E.
  destruct n as [|[|n]]; cbn in *; [|destruct H as [x ->]|destruct H as (x & y & ->)].
  - rewrite H. by eexists.
  - cbn. by eexists _, _.
  - cbn. by eexists _, _.
Qed.

Lemma pair_ok_readings d rs : pair_ok (readings d rs) (foldl (λ m r, UpdateDiskStats r m) ∅ rs !! d).
Proof.
  unfold readings. set (l := rs ≫= _).
  assert (foldl (λ m r, UpdateDiskStats r m) ∅ rs = foldl put_disk ∅ l) as ->.
  { subst l. generalize (∅ : gmap string disk_pair). induction rs as [|r rs IH]; intros m; [done|].
    cbn [mbind list_bind foldl]. rewrite foldl_app, <- IH. by destruct r. }
  clearbody l. clear rs. induction l as [|ds l IH] using rev_ind; [done|].
  rewrite foldl_app, filter_app, length_app, filter_cons, filter_nil. cbn [foldl].
  apply (pair_ok_put _ ds) in IH. case_decide; cbn [length]; by rewrite Nat.add_comm.
Qed.

Section disks.
Context (rs : list (result (list DiskStats))).
Let m : gmap string disk_pair := foldl (λ m r, UpdateDiskStats r m) ∅ rs.

Lemma IODelta_returns d f :
  (∀ p, is_Some p.1 → is_Some p.2 → returns (f p)) → returns (IODelta d f m).
Proof.
  intros Hf. unfold IODelta. pose proof (pair_ok_readings d rs) as H. fold m in H.
  destruct (readings d rs) as [|[|n]]; cbn in H.
  - rewrite H. by eexists.
  - destruct H as [x ->]. by eexists.
  - destruct H as (x & y & ->). cbn. by apply Hf.
Qed.

Lemma io_delta_returns f p : is_Some p.1 → is_Some p.2 → returns (io_delta f p).
Proof. intros [x Hx] [y Hy]. unfold io_delta. rewrite Hx, Hy. by eexists. Qed.
Lemma io_TS_returns p : is_Some p.1 → is_Some p.2 → returns (io_TS p).
Proof. intros [x Hx] [y Hy]. unfold io_TS. rewrite Hx, Hy. by eexists. Qed.

Lemma io_points_returns d : returns (io_points m d).
Proof.
  unfold io_points. cbv zeta.
  repeat (apply returns_bind; [apply IODelta_returns; apply io_delta_returns || apply io_TS_returns|intros ? _]).
  apply returns_Ret.
Qed.

Lemma IOStatsMetrics_returns kvs : returns (IOStatsMetrics kvs m).
Proof.
  unfold IOStatsMetrics. destruct (go_foldl_returns (λ _, True)
    (λ L d, if ShouldHandleDevice d then l ← io_points m d; Ret (L ++ l) else Ret L) kvs.*1 []) as (L & HL & _); [|done|by exists L].
  intros L d _ _. destruct (ShouldHandleDevice d); [|by eexists].
  destruct (io_points_returns d) as [l ->]. by eexists.
Qed.

(** The utilization of a device that was read once is not a number. *)
Lemma io_points_once d l :
  readings d rs = 1%nat → io_points m d = Ret l →
  GaugeValue "disk.io.util" (VFloat64 f64_nan) ["device=" +:+ d] ∈ l.
Proof.
  intros Hr. pose proof (pair_ok_readings d rs) as H. rewrite Hr in H. fold m in H. destruct H as [ds Hd].
  assert (∀ f, IODelta d f m = Ret 0) as H0 by (intros f; unfold IODelta; by rewrite Hd).
  unfold io_points. rewrite !H0. cbn [mbind go_bind]. intros [= <-].
  replace (utilization 0 0) with f64_nan by (vm_compute; reflexivity). set_solver.
Qed.

Lemma IOStatsMetrics_once kvs d L :
  d ∈ kvs.*1 → ShouldHandleDevice d = true → readings d rs = 1%nat → IOStatsMetrics kvs m = Ret L →
  GaugeValue "disk.io.util" (VFloat64 f64_nan) ["device=" +:+ d] ∈ L.
Proof.
  intros Hd Hs Hr. unfold IOStatsMetrics. generalize (@nil MetricValue.t).
  assert (∀ ds acc L, go_foldl (λ L d, if ShouldHandleDevice d then l ← io_points m d; Ret (L ++ l) else Ret L) acc ds = Ret L →
    ∀ mv, mv ∈ acc → mv ∈ L) as Hmono.
  { induction ds as [|d' ds IH]; intros acc L' E mv Hmv; cbn [go_foldl] in E; [by injection E as <-|].
    apply go_bind_Ret in E as (acc' & E' & E). eapply IH; [exact E|].
    destruct (ShouldHandleDevice d'); [|by injection E' as <-].
    apply go_bind_Ret in E' as (l & _ & [= <-]). set_solver. }
  induction kvs.*1 as [|d' ds IH]; intros acc E; [by apply not_elem_of_nil in Hd|].
  cbn [go_foldl] in E. apply go_bind_Ret in E as (acc' & E' & E).
  apply elem_of_cons in Hd as [<-|Hd]; [|by eapply IH].
  rewrite Hs in E'. apply go_bind_Ret in E' as (l & El & [= <-]).
  eapply Hmono; [exact E|]. apply elem_of_app. right. by apply io_points_once.
Qed.
End disks.

Lemma write_values_nan batch mv :
  Some mv ∈ batch → mv.(MetricValue.Value) = VFloat64 f64_nan → write_values batch = Err errUnsupported.
Proof.
  intros Hin Hv. unfold write_values. cbn [json_finite].
  assert (forallb json_finite (json_enc <$> batch) = false) as ->; [|done].
  apply not_true_iff_false. intros H. rewrite forallb_forall in H.
  specialize (H (json_enc (Some mv))). assert (json_finite (json_enc (Some mv)) = true) as Hf.
  { apply H, list_elem_of_In, list_elem_of_fmap. by eexists. }
  destruct mv as [e me v st ty tg ts]. cbn in Hv. subst v. cbn in Hf. done.
Qed.

(** The statistics of disks never panic.  But a disk that was read once, as
one that was just attached, has a utilization that is not a number: as long as
this point is not ignored the whole batch of the tick, with the points of cpu,
memory and network, has no JSON, and sending it fails at every transfer. *)
Theorem new_disk_blocks_batch rs dkvs d kvs sec host ignoreMetrics items now :
  let m := foldl (λ m r, UpdateDiskStats r m) ∅ rs in
  ranges dkvs m →
  ∃ L, IOStatsMetrics dkvs m = Ret L ∧
    (ShouldHandleDevice d = true → readings d rs = 1%nat → ignoreMetrics !! "disk.io.util" ≠ Some true → L ∈ items →
     ∃ batch, SendToTransfer kvs (Some <$> collect sec (Ok host) ignoreMetrics items now) = Ret (Some batch) ∧
       ∀ addrs perm a o l, perm ≡ₚ seq 0 (length addrs) → conserved l →
         (∀ n, a.(ends_of) n = update_end batch (o n)) →
         ∃ l' tried, SendMetrics addrs perm a l = Ret (l', tried) ∧ Forall (λ t, t.2 = false) tried).
Proof.
  intros m Hr. destruct (IOStatsMetrics_returns rs dkvs) as [L HL]. fold m in HL. exists L. split; [done|].
  intros Hd Hone Hign Hin.
  assert (d ∈ dkvs.*1) as Hdk.
  { pose proof (pair_ok_readings d rs) as H. rewrite Hone in H. destruct H as [ds H].
    apply list_elem_of_fmap. exists (d, (Some ds, None)). split; [done|]. by apply (ranges_elem_of _ _ _ _ Hr). }
  pose proof (IOStatsMetrics_once rs dkvs d L Hdk Hd Hone HL) as Hnan.
  set (mv := GaugeValue "disk.io.util" (VFloat64 f64_nan) ["device=" +:+ d]) in Hnan.
  set (mvs := collect sec (Ok host) ignoreMetrics items now).
  assert (stamp sec host now mv ∈ mvs) as Hmv.
  { unfold mvs, collect. apply list_elem_of_fmap. exists mv. split; [done|].
    apply list_elem_of_bind. exists L. split; [|done]. apply list_elem_of_filter. done. }
  eexists. split; [apply SendToTransfer_spec; intros E; rewrite E in Hmv; by apply not_elem_of_nil in Hmv|].
  intros addrs perm a o l Hp Hl Ha.
  assert (write_values ((λ mv, Some (with_Tags (all_tags kvs mv.(MetricValue.Tags)) mv)) <$> mvs) = Err errUnsupported) as He.
  { eapply write_values_nan; [apply list_elem_of_fmap; eexists; split; [reflexivity|exact Hmv]|done]. }
  unfold update_end in Ha. rewrite He in Ha.
  destruct (SendMetrics_loop addrs a perm l []) as (l' & tried & E & _ & Hh & _ & Hor); [|done|by intros n ? ?; rewrite lookup_nil|].
  { rewrite Hp. apply Forall_forall. intros i. rewrite elem_of_seq. lia. }
  exists l', tried. split; [exact E|]. destruct Hor as [[Hf _]|(failed & addr & -> & _)]; [done|exfalso].
  destruct (Hh (length failed) addr true) as [Ht _]; [by apply list_lookup_middle|].
  rewrite Ha in Ht. by destruct (Ht eq_refl).
Qed.

Definition ex_disk : DiskStats := Disk "sdb" 1 2 3 4 5 6 7 8 0 9 10 1000.
Definition ex_disks : gmap string disk_pair := foldl (λ m r, UpdateDiskStats r m) ∅ [Ok [ex_disk]].

Example new_disk_blocks_batch_witness :
  ∃ L batch l' tried, IOStatsMetrics (map_to_list ex_disks) ex_disks = Ret L ∧
    SendToTransfer [] (Some <$> collect 60 (Ok "h") ∅ [ex_points; L] 1000) = Ret (Some batch) ∧
    SendMetrics ["t1"] [0%nat] (Answers (λ _ _, None) (λ _, update_end batch (Answered None))) (Links ∅ (Wire 0 [])) =
      Ret (l', tried) ∧ Forall (λ t, t.2 = false) tried.
Proof.
  destruct (IOStatsMetrics (map_to_list ex_disks) ex_disks) as [L|] eqn:EL; [|exfalso; revert EL; vm_compute; discriminate].
  destruct (new_disk_blocks_batch [Ok [ex_disk]] (map_to_list ex_disks) "sdb" [] 60 "h" ∅ [ex_points; L] 1000)
    as (L' & HL' & H); [apply ranges_map_to_list|].
  fold ex_disks in HL'. rewrite EL in HL'. injection HL' as <-.
  destruct H as (batch & Hb & H); [reflexivity|vm_compute; reflexivity|by rewrite lookup_empty|right; left|].
  destruct (H ["t1"] [0%nat] (Answers (λ _ _, None) (λ _, update_end batch (Answered None))) (λ _, Answered None)
    (Links ∅ (Wire 0 []))) as (l' & tried & E & Hf); [done|vm_compute; reflexivity|done|].
  exists L, batch, l', tried. by split_and!.
Defined.

(** ** Pushing points *)

(** A list of points with a [null] in it, as a plugin may print, panics when
there are default tags. *)
Example null_point_panics : SendToTransfer [("dc", "x")] [None] = Panic NilDereference.
Proof. reflexivity. Qed.

(** An output of [du] without a field panics. *)
Example blank_du_panics : DuMetrics ["/data"] (λ _, Ok "") = Panic IndexOutOfRange.
Proof. reflexivity. Qed.

(** A counter of the kernel that goes back, as that of the waits for input and
output may, makes a share of the time far beyond a hundred percent. *)
Definition ex_stat (iowait total : Z) : ProcStat := Stat (Usage 0 0 0 0 iowait 0 0 0 0 total) 0.
Example iowait_goes_back :
  ∃ v, cpu_share Iowait (Some (ex_stat 99 1100), Some (ex_stat 100 1000)) = Ret v ∧
    f64_lt (f64_of_Z (10 ^ 18)) v = true.
Proof. eexists. split; [vm_compute; reflexivity|vm_compute; reflexivity]. Qed.
