(* ===== verification/AgentSync.v ===== *)
(** * Agent: what it takes from the heartbeat server

modules/agent/cron (builtin.go, plugin.go, ips.go), modules/agent/plugins
(plugins.go, reader.go, scheduler.go) and the variables of g/var.go that they
set: the ports, processes, paths and URLs to report, the plugins to run, the
addresses to trust.

Each loop asks the server once a period; the model is one turn of a loop, with
the answer of the call as an argument.  A call that times out answers no error
and leaves the reply as it was: empty. *)

From S2P Require Import Prelude GoFloat GoString Hash Tags Model Hbs Agent.
From Stdlib Require Import Ascii.
From stdpp Require Import options.

(** ** The calls *)

(** How a call of [HbsClient] ends: with a reply, an error, or too late. *)
Inductive call_end (R : Type) : Type :=
| Replied (reply : R)
| Refused (err : error)
| TooLate.
Arguments Replied {R} _. Arguments Refused {R} _. Arguments TooLate {R}.

(** What the caller sees: the error and the reply, which is [zero] before the call. *)
Definition seen {R} (zero : R) (e : call_end R) : option error * R :=
  match e with Replied r => (None, r) | Refused err => (Some err, zero) | TooLate => (None, zero) end.

(** ** What to report *)

Record reports : Type := Reports {
  reportUrls : gmap string string; reportPorts : list Z;
  reportProcs : gmap string (gmap Z string); duPaths : list string }.

Definition parse_url (tags : string) (urls : gmap string string) : gmap string string :=
  match split "," tags with
  | [a; b] =>
      match split "=" a, split "=" b with
      | [_; url], [_; stime] =>
          match ParseInt 64 stime with Ok _ => <[url := stime]> urls | Err _ => urls end
      | _, _ => urls
      end
  | _ => urls
  end.

Definition parse_port (tags : string) (ports : list Z) : list Z :=
  match split "=" tags with
  | [_; p] => match ParseInt 64 p with Ok port => ports ++ [port] | Err _ => ports end
  | _ => ports
  end.

Definition parse_path (tags : string) (paths : list string) : list string :=
  match split "=" tags with [_; p] => paths ++ [TrimSpace p] | _ => paths end.

(** [s[n:]] of a string that is known to have [n] characters. *)
Fixpoint drop_chars (n : nat) (s : string) : string :=
  match n, s with S n, String _ s => drop_chars n s | _, _ => s end.

Definition parse_cond (tmpMap : gmap Z string) (a : string) : gmap Z string :=
  if HasPrefix a "name=" then <[1 := TrimSpace (drop_chars 5 a)]> tmpMap
  else if HasPrefix a "cmdline=" then <[2 := TrimSpace (drop_chars 8 a)]> tmpMap
  else tmpMap.
Definition parse_proc (tags : string) : gmap Z string := foldl parse_cond ∅ (split "," tags).

(** The body of the loop over the metrics; the four names are different. *)
Definition parse_metric (r : reports) (metric : BuiltinMetric.t) : reports :=
  let tags := metric.(BuiltinMetric.Tags) in
  let name := metric.(BuiltinMetric.Metric) in
  if decide (name = URL_CHECK_HEALTH) then
    Reports (parse_url tags r.(reportUrls)) r.(reportPorts) r.(reportProcs) r.(duPaths)
  else if decide (name = NET_PORT_LISTEN) then
    Reports r.(reportUrls) (parse_port tags r.(reportPorts)) r.(reportProcs) r.(duPaths)
  else if decide (name = DU_BS) then
    Reports r.(reportUrls) r.(reportPorts) r.(reportProcs) (parse_path tags r.(duPaths))
  else if decide (name = PROC_NUM) then
    Reports r.(reportUrls) r.(reportPorts) (<[tags := parse_proc tags]> r.(reportProcs)) r.(duPaths)
  else r.

Definition no_reports : reports := Reports ∅ [] ∅ [].
Definition parse_metrics (metrics : list BuiltinMetric.t) : reports := foldl parse_metric no_reports metrics.

(** The variables of [syncBuiltinMetrics], and those that it sets for others. *)
Record builtin : Type := Builtin { timestamp : Z; checksum : string; reported : reports }.
Definition initial_builtin : builtin := Builtin (-1) "nil" no_reports.

Definition zero_builtin : BuiltinMetricResponse := BuiltinMetricResponse_ [] "" 0.

(** A turn of [syncBuiltinMetrics]. *)
Definition syncBuiltinMetrics (hostname : result string) (call : call_end BuiltinMetricResponse) (s : builtin) : builtin :=
  match hostname with
  | Err _ => s
  | Ok _ =>
      let '(err, resp) := seen zero_builtin call in
      if err then s
      else if resp.(bTimestamp) <=? s.(timestamp) then s
      else if decide (resp.(bChecksum) = s.(checksum)) then s
      else Builtin resp.(bTimestamp) resp.(bChecksum) (parse_metrics resp.(bMetrics))
  end.

(** ** Trusted addresses *)

Definition SetTrustableIps (ipStr : string) : list string := split "," ipStr.

(** A turn of [syncTrustableIps]. *)
Definition syncTrustableIps (call : call_end string) (ips : list string) : list string :=
  let '(err, reply) := seen "" call in if err then ips else SetTrustableIps reply.

(** [strings.LastIndex(s, c)] for a character, or [-1]. *)
Fixpoint last_index (c : ascii) (i found : Z) (s : string) : Z :=
  match s with "" => found | String a s => last_index c (i + 1) (if decide (a = c) then i else found) s end.
Definition LastIndex (c : ascii) (s : string) : Z := last_index c 0 (-1) s.

Definition IsTrustable (ips : list string) (remoteAddr : string) : go bool :=
  let idx := LastIndex ":" remoteAddr in
  ip ← (if 0 <? idx then go_slice remoteAddr 0 idx else Ret remoteAddr);
  Ret (if decide (ip = "127.0.0.1") then true else bool_decide (ip ∈ ips)).

(** ** Plugins *)

Module Plugin.
Record t : Type := mk { FilePath : string; MTime : Z; Cycle : Z }.
End Plugin.

(** A [PluginScheduler] with its goroutine, which runs until [Quit] is closed. *)
Record scheduler : Type := Scheduler { s_Plugin : Plugin.t; quit : bool }.

(** The two maps of plugins.go; a scheduler is a pointer to one of [schedulers]. *)
Record plugins : Type := PluginState {
  Plugins : gmap string Plugin.t; PluginsWithScheduler : gmap string nat; schedulers : list scheduler }.

(** [time.NewTicker] panics unless its period is positive. *)
Definition NewPluginScheduler (p : Plugin.t) (st : plugins) : go (nat * plugins) :=
  if p.(Plugin.Cycle) *₆₄ 1000000000 <=? 0 then Panic NonPositiveTicker
  else Ret (length st.(schedulers),
         PluginState st.(Plugins) st.(PluginsWithScheduler) (st.(schedulers) ++ [Scheduler p false])).

(** [Stop] closes a channel, which panics when it is closed already. *)
Definition Stop (id : nat) (st : plugins) : go plugins :=
  s ← deref (st.(schedulers) !! id);
  if s.(quit) then Panic CloseOfClosedChannel
  else Ret (PluginState st.(Plugins) st.(PluginsWithScheduler) (<[id := Scheduler s.(s_Plugin) true]> st.(schedulers))).

Definition deletePlugin (key : string) (st : plugins) : go plugins :=
  st ← match st.(PluginsWithScheduler) !! key with
       | Some v => st ← Stop v st; Ret (PluginState st.(Plugins) (delete key st.(PluginsWithScheduler)) st.(schedulers))
       | None => Ret st
       end;
  Ret (PluginState (delete key st.(Plugins)) st.(PluginsWithScheduler) st.(schedulers)).

(** [DelNoUsePlugins]; [kvs] is the order in which [Plugins] is visited. *)
Definition del_no_use (newPlugins : gmap string Plugin.t) (st : plugins) (kv : string * Plugin.t) : go plugins :=
  match newPlugins !! kv.1 with
  | Some newPlugin => if decide (kv.2.(Plugin.MTime) ≠ newPlugin.(Plugin.MTime)) then deletePlugin kv.1 st else Ret st
  | None => deletePlugin kv.1 st
  end.
Definition DelNoUsePlugins (kvs : list (string * Plugin.t)) (newPlugins : gmap string Plugin.t) (st : plugins) : go plugins :=
  go_foldl (del_no_use newPlugins) st kvs.

(** [AddNewPlugins]; [kvs] is the order in which [newPlugins] is visited. *)
Definition add_new (st : plugins) (kv : string * Plugin.t) : go plugins :=
  let add :=
    let st := PluginState (<[kv.1 := kv.2]> st.(Plugins)) st.(PluginsWithScheduler) st.(schedulers) in
    r ← NewPluginScheduler kv.2 st;
    let '(sch, st) := r : nat * plugins in
    Ret (PluginState st.(Plugins) (<[kv.1 := sch]> st.(PluginsWithScheduler)) st.(schedulers)) in
  match st.(Plugins) !! kv.1 with
  | Some old => if decide (kv.2.(Plugin.MTime) = old.(Plugin.MTime)) then Ret st else add
  | None => add
  end.
Definition AddNewPlugins (kvs : list (string * Plugin.t)) (st : plugins) : go plugins := go_foldl add_new st kvs.

Definition ClearAllPlugins (kvs : list (string * Plugin.t)) (st : plugins) : go plugins :=
  go_foldl (λ st kv, deletePlugin kv.1 st) st kvs.

(** *** Reading the directories *)

(** [filepath.Clean] of a path, by its components. *)
Definition clean_step (rooted : bool) (stack : list string) (c : string) : list string :=
  if decide (c = "" ∨ c = ".") then stack
  else if decide (c = "..") then
    match stack with
    | top :: rest => if decide (top = "..") then c :: stack else rest
    | [] => if rooted then [] else [c]
    end
  else c :: stack.
Definition Clean (path : string) : string :=
  let rooted := HasPrefix path "/" in
  let s := join "/" (reverse (foldl (clean_step rooted) [] (split "/" path))) in
  if rooted then "/" +:+ s else if decide (s = "") then "." else s.
(** [filepath.Join] of two non-empty names *)
Definition Join (a b : string) : string := Clean (a +:+ "/" +:+ b).

Record file : Type := File { f_Name : string; f_IsDir : bool; f_ModTime : Z }.

(** The body of the loop over the files of a directory: a plugin is a file [$cycle_$name]. *)
Definition list_file (relativePath : string) (ret : gmap string Plugin.t) (f : file) : gmap string Plugin.t :=
  if f.(f_IsDir) then ret
  else match split "_" f.(f_Name) with
  | a :: _ :: _ =>
      match Atoi a with
      | Ok cycle =>
          let fpath := Join relativePath f.(f_Name) in
          <[fpath := Plugin.mk fpath f.(f_ModTime) cycle]> ret
      | Err _ => ret
      end
  | _ => ret
  end.

(** [ListPlugins]; [ls] lists a directory under that of the plugins, if there is one. *)
Definition ListPlugins (ls : string → option (list file)) (relativePath : string) : gmap string Plugin.t :=
  if decide (relativePath = "") then ∅
  else match ls relativePath with None => ∅ | Some fs => foldl (list_file relativePath) ∅ fs end.

Definition desired (ls : string → option (list file)) (pluginDirs : list string) : gmap string Plugin.t :=
  foldl (λ m p, assign_all (map_to_list (ListPlugins ls (trim_char "/" p))) m) ∅ pluginDirs.

Definition zero_plugins : AgentPluginsResponse := AgentPluginsResponse_ [] 0.

(** A turn of [syncMinePlugins]; the three orders are those of the visits. *)
Definition syncMinePlugins (ls : string → option (list file))
    (clear del : gmap string Plugin.t → list (string * Plugin.t)) (add : list (string * Plugin.t))
    (hostname : result string) (call : call_end AgentPluginsResponse) (s : Z * plugins) : go (Z * plugins) :=
  let '(timestamp, st) := s in
  match hostname with
  | Err _ => Ret s
  | Ok _ =>
      let '(err, resp) := seen zero_plugins call in
      if err then Ret s
      else if resp.(pTimestamp) <=? timestamp then Ret s
      else
        let pluginDirs := resp.(Hbs.Plugins) in
        st ← (if decide (length pluginDirs = 0%nat) then ClearAllPlugins (clear st.(Plugins)) st else Ret st);
        st ← DelNoUsePlugins (del st.(Plugins)) (desired ls pluginDirs) st;
        st ← AddNewPlugins add st;
        Ret (resp.(pTimestamp), st)
  end.

(** ** The metrics that the server asks for *)

(** What a turn of [syncBuiltinMetrics] meets: the server answers from its
caches and database at some time, refuses, or answers too late. *)
Inductive turn : Type :=
| Asked (DB : database) (ToSlice : nat → gset Z → list Z) (c : cache) (now : Z)
| Failed (err : error)
| Late.

Section builtin.
Context (hostname : string).

Definition play (s : builtin) (t : turn) : builtin :=
  syncBuiltinMetrics (Ok hostname)
    (match t with
     | Asked DB ToSlice c now => Replied (BuiltinMetrics DB ToSlice hostname s.(checksum) now c zero_builtin)
     | Failed err => Refused err
     | Late => TooLate
     end) s.

(** The lists of metrics that the server had for the host, sorted. *)
Definition learned (ts : list turn) : list (list BuiltinMetric.t) :=
  t ← ts; match t with
          | Asked DB ToSlice c _ =>
              match GetBuiltinMetrics DB ToSlice hostname c with Ok metrics => [sort_metrics metrics] | Err _ => [] end
          | _ => []
          end.

Definition digest_of (l : list BuiltinMetric.t) : string :=
  if decide (0 < length l)%nat then DigestBuiltinMetrics l else "".

Lemma digest_not c l : is_hex c = false → contains_char c (digest_of l) = false.
Proof. unfold digest_of. case_decide; [|done]. intros Hc. by apply Md5_lacks. Qed.

Lemma digest_nil l : digest_of l = "" → l = [].
Proof.
  unfold digest_of. case_decide as H; [|destruct l; [done|cbn in H; lia]]. intros E.
  destruct (Md5_shape (String.concat "" (BuiltinMetric.String <$> l))) as [Hl _].
  unfold DigestBuiltinMetrics in E. rewrite E in Hl. done.
Qed.

Lemma digest_of_sorted metrics :
  (if decide (0 < length metrics)%nat then DigestBuiltinMetrics (sort_metrics metrics) else "") =
    digest_of (sort_metrics metrics).
Proof.
  unfold digest_of. assert (length (sort_metrics metrics) = length metrics) as ->; [|done].
  apply Permutation_length, merge_sort_Permutation.
Qed.

(** What agent reports is what it parsed of the last list whose digest it keeps. *)
Definition knows (s : builtin) (ls : list (list BuiltinMetric.t)) : Prop :=
  s.(checksum) = "nil" ∨
  ∃ l, (l = [] ∨ l ∈ ls) ∧ s.(checksum) = digest_of l ∧ s.(reported) = parse_metrics l.

Lemma knows_mono s ls ls' : knows s ls → knows s (ls ++ ls').
Proof. intros [H|(l & Hl & H)]; [by left|]. right. exists l. split; [set_solver|done]. Qed.

Lemma knows_play s ls t : hostname ≠ "" → knows s ls → knows (play s t) (ls ++ learned [t]).
Proof.
  intros Hh Hk%(knows_mono _ _ (learned [t])). unfold play, syncBuiltinMetrics.
  destruct t as [DB ToSlice c now|err|]; cbn [seen]; [|done|].
  - unfold BuiltinMetrics. rewrite decide_False by done.
    destruct (GetBuiltinMetrics DB ToSlice hostname c) as [metrics|err] eqn:E.
    + cbn [bTimestamp bChecksum bMetrics]. destruct (now <=? _); [done|].
      set (d := if decide (0 < length metrics)%nat then _ else _).
      destruct (decide (d = checksum s)) as [Hc|Hc]; [done|].
      right. exists (sort_metrics metrics). cbn [checksum reported]. rewrite decide_False by done.
      split_and!; [right|..|done].
      * unfold learned. cbn [mbind list_bind]. rewrite E. set_solver.
      * apply digest_of_sorted.
    + destruct (_ <=? _); [done|]. case_decide; [done|]. right. exists []. split_and!; [by left|done..].
  - destruct (_ <=? _); [done|]. case_decide; [done|]. right. exists []. split_and!; [by left|done..].
Qed.

Lemma knows_plays ts : hostname ≠ "" → knows (foldl play initial_builtin ts) (learned ts).
Proof.
  intros Hh. induction ts as [|t ts IH] using rev_ind; [by left|].
  rewrite foldl_app. unfold learned. rewrite bind_app. by apply (knows_play _ _ t) in IH.
Qed.
End builtin.

(** What a list of metrics asks for, by what the parser makes of it. *)
Lemma parse_metrics_procs ms r tags :
  r.(reportProcs) !! tags = Some (parse_proc tags) ∨ BuiltinMetric.mk PROC_NUM tags ∈ ms →
  (foldl parse_metric r ms).(reportProcs) !! tags = Some (parse_proc tags).
Proof.
  revert r. induction ms as [|[name t] ms IH]; intros r [H|H]; [done|by apply not_elem_of_nil in H|..]; cbn [foldl]; apply IH.
  - left. unfold parse_metric. cbn. repeat case_decide; try done. cbn. rewrite lookup_insert. by case_decide; subst.
  - apply elem_of_cons in H as [[= <- <-]|H]; [left|by right].
    unfold parse_metric. cbn. apply lookup_insert_eq.
Qed.

Lemma parse_metrics_ports ms r p :
  int64 p → p ∈ r.(reportPorts) ∨ BuiltinMetric.mk NET_PORT_LISTEN ("port=" +:+ Itoa p) ∈ ms →
  p ∈ (foldl parse_metric r ms).(reportPorts).
Proof.
  intros Hp.
  assert (split "=" ("port=" +:+ Itoa p) = ["port"; Itoa p]) as Hs.
  { etransitivity; [apply (split_app "=" "port" (Itoa p)); done|]. by rewrite split_lacks by (by apply Itoa_lacks). }
  revert Hs. generalize ("port=" +:+ Itoa p). intros tags Hs. revert r.
  induction ms as [|[name t] ms IH]; intros r [H|H]; [done|by apply not_elem_of_nil in H|..]; cbn [foldl]; apply IH.
  - left. unfold parse_metric. cbn. repeat case_decide; try done. cbn. unfold parse_port. repeat case_match; set_solver.
  - apply elem_of_cons in H as [[= <- <-]|H]; [left|by right]. unfold parse_metric. cbn [BuiltinMetric.Metric BuiltinMetric.Tags].
    rewrite decide_False, decide_True by done. cbn [reportPorts]. unfold parse_port. rewrite Hs.
    rewrite (ParseInt_Itoa 64 p) by (unfold int64 in Hp; lia). set_solver.
Qed.

(** C9. From the heartbeat server to agent.  Whatever was answered, refused or
lost before, an answer that is newer than the last one taken leaves agent with
the metrics that the server has for its host, although the server does not send
them again when the checksum shows that agent has them: every port and every
process that is asked for is reported.  Two lists of the server for the host
must not have the same MD5 digest. *)
Theorem agent_knows_its_metrics hostname ts DB ToSlice c now metrics :
  hostname ≠ "" → GetBuiltinMetrics DB ToSlice hostname c = Ok metrics →
  let s := foldl (play hostname) initial_builtin ts in
  s.(timestamp) < now →
  (∀ l1 l2, l1 ∈ learned hostname (ts ++ [Asked DB ToSlice c now]) → l2 ∈ learned hostname (ts ++ [Asked DB ToSlice c now]) →
     DigestBuiltinMetrics l1 = DigestBuiltinMetrics l2 → l1 = l2) →
  let r := (play hostname s (Asked DB ToSlice c now)).(reported) in
  r = parse_metrics (sort_metrics metrics) ∧
  (∀ tags, BuiltinMetric.mk PROC_NUM tags ∈ metrics → r.(reportProcs) !! tags = Some (parse_proc tags)) ∧
  (∀ p, int64 p → BuiltinMetric.mk NET_PORT_LISTEN ("port=" +:+ Itoa p) ∈ metrics → p ∈ r.(reportPorts)).
Proof.
  intros Hh E s Hnow Hcol r.
  assert (r = parse_metrics (sort_metrics metrics)) as Hr.
  2:{ split; [done|]. rewrite Hr. split; intros x; [intros Hx|intros Hi Hx];
        [apply parse_metrics_procs|apply parse_metrics_ports; [done|]]; right; unfold sort_metrics; by rewrite merge_sort_Permutation. }
  pose proof (knows_plays hostname ts Hh) as Hk. fold s in Hk.
  subst r. unfold play, syncBuiltinMetrics. cbn [seen]. unfold BuiltinMetrics. rewrite decide_False by done. rewrite E.
  cbn [bTimestamp bChecksum bMetrics]. destruct (Z.leb_spec now s.(timestamp)); [lia|].
  rewrite digest_of_sorted. set (sorted := sort_metrics metrics).
  destruct (decide (digest_of sorted = checksum s)) as [Hc|Hc]; [|by rewrite decide_False].
  assert (sorted ∈ learned hostname (ts ++ [Asked DB ToSlice c now])) as Hs.
  { unfold learned. rewrite bind_app. cbn [mbind list_bind]. rewrite E. set_solver. }
  destruct Hk as [Hk|(l & Hl & Hk & Hrep)].
  - exfalso. pose proof (digest_not "n" sorted eq_refl) as Hn. rewrite Hc, Hk in Hn. done.
  - rewrite Hrep. f_equal. rewrite Hk in Hc. destruct Hl as [->|Hl].
    + symmetry. apply digest_nil. by rewrite Hc.
    + destruct (decide (l = [])) as [->|Hne]; [symmetry; apply digest_nil; by rewrite Hc|].
      assert (sorted ≠ []) as Hne'.
      { intros E0. rewrite E0 in Hc. symmetry in Hc. by apply digest_nil in Hc. }
      symmetry. apply Hcol; [done|unfold learned; rewrite bind_app; apply elem_of_app; by left|].
      assert (∀ l : list BuiltinMetric.t, l ≠ [] → (0 < length l)%nat) as Hpos by (intros [|]; [done|cbn; lia]).
      unfold digest_of in Hc. rewrite !decide_True in Hc by auto. exact Hc.
Qed.

Definition ex_sync_DB : database := Database
  (λ _, Ok [Some (1, 5)]) (λ _, Ok [Some (5, "web")]) (λ _, Ok []) (λ _, Ok [Some (1, 1)])
  (λ _, Ok [Some (Template.mk 1 "base" 0 1 "root")]) (λ _, Ok [Some (1, 5)]) (λ _, Ok [])
  (λ _, Ok [Some ("proc.num", "name=sshd"); Some ("net.port.listen", "port=22")])
  (λ _, Ok []).
Definition ex_sync_cache : cache :=
  match Init ex_sync_DB 1500000000 "12:00" (Cache ∅ ∅ ∅ ∅ ∅ ∅ ∅ [] ∅ ∅ []) with
  | Ret c => c
  | Panic _ => Cache ∅ ∅ ∅ ∅ ∅ ∅ ∅ [] ∅ ∅ []
  end.
Definition ex_asked (now : Z) : turn := Asked ex_sync_DB (λ _, elements) ex_sync_cache now.

Example agent_knows_its_metrics_witness :
  let s := foldl (play "web") initial_builtin [Late; ex_asked 100; Failed "refused"] in
  let r := (play "web" s (ex_asked 160)).(reported) in
  r.(reportProcs) !! "name=sshd" = Some {[1 := "sshd"]} ∧ 22 ∈ r.(reportPorts).
Proof.
  destruct (agent_knows_its_metrics "web" [Late; ex_asked 100; Failed "refused"] ex_sync_DB (λ _, elements) ex_sync_cache
    160 [BuiltinMetric.mk "proc.num" "name=sshd"; BuiltinMetric.mk "net.port.listen" "port=22"]) as (_ & Hp & Ho).
  - discriminate.
  - vm_compute. reflexivity.
  - vm_compute. reflexivity.
  - assert (learned "web" ([Late; ex_asked 100; Failed "refused"] ++ [Asked ex_sync_DB (λ _, elements) ex_sync_cache 160]) =
      [[BuiltinMetric.mk "net.port.listen" "port=22"; BuiltinMetric.mk "proc.num" "name=sshd"];
       [BuiltinMetric.mk "net.port.listen" "port=22"; BuiltinMetric.mk "proc.num" "name=sshd"]]) as ->
      by (vm_compute; reflexivity).
    intros l1 l2 H1 H2 _. apply elem_of_cons in H1 as [->|[->|[]%not_elem_of_nil]%elem_of_cons];
      apply elem_of_cons in H2 as [->|[->|[]%not_elem_of_nil]%elem_of_cons]; reflexivity.
  - split.
    + etransitivity; [apply (Hp "name=sshd"); left|vm_compute; reflexivity].
    + apply Ho; [unfold int64; lia|right; left].
Defined.

(** ** Plugins *)

(** The goroutines that run are exactly those of the plugins, one for each. *)
Record plugins_ok (st : plugins) : Prop := {
  ok_live k id : st.(PluginsWithScheduler) !! k = Some id →
    ∃ p, st.(Plugins) !! k = Some p ∧ st.(schedulers) !! id = Some (Scheduler p false);
  ok_scheduled k p : st.(Plugins) !! k = Some p → is_Some (st.(PluginsWithScheduler) !! k);
  ok_own k1 k2 id : st.(PluginsWithScheduler) !! k1 = Some id → st.(PluginsWithScheduler) !! k2 = Some id → k1 = k2;
  ok_stopped id s : st.(schedulers) !! id = Some s → s.(quit) = false →
    ∃ k, st.(PluginsWithScheduler) !! k = Some id }.

Lemma plugins_ok_empty : plugins_ok (PluginState ∅ ∅ []).
Proof. split; cbn; intros *; rewrite ?lookup_empty, ?lookup_nil; done. Qed.

Lemma deletePlugin_ok st key :
  plugins_ok st →
  ∃ ss, deletePlugin key st = Ret (PluginState (delete key st.(Plugins)) (delete key st.(PluginsWithScheduler)) ss) ∧
    plugins_ok (PluginState (delete key st.(Plugins)) (delete key st.(PluginsWithScheduler)) ss).
Proof.
  intros [Hl Hs Ho Hq]. unfold deletePlugin. destruct (PluginsWithScheduler st !! key) as [id|] eqn:E.
  - destruct (Hl key id E) as (p & Hp & Hid). unfold Stop. rewrite Hid. cbn [deref mbind go_bind quit].
    cbn [Plugins PluginsWithScheduler schedulers s_Plugin]. eexists. split; [done|].
    assert (id < length st.(schedulers))%nat as Hlt by (by eapply lookup_lt_Some).
    split; cbn [Plugins PluginsWithScheduler schedulers].
    + intros k id' [Hne Hk]%lookup_delete_Some. destruct (Hl k id' Hk) as (p' & Hp' & Hid').
      exists p'. rewrite lookup_delete_ne by done. split; [done|].
      rewrite list_lookup_insert_ne; [done|]. intros <-. apply Hne. by eapply Ho.
    + intros k p' [Hne Hk]%lookup_delete_Some. rewrite lookup_delete_ne by done. by eapply Hs.
    + intros k1 k2 id' [_ H1]%lookup_delete_Some [_ H2]%lookup_delete_Some. by eapply Ho.
    + intros id' s Hs' Hq'. destruct (decide (id' = id)) as [->|Hne].
      { rewrite list_lookup_insert_eq in Hs' by done. by simplify_eq. }
      rewrite list_lookup_insert_ne in Hs' by done. destruct (Hq id' s Hs' Hq') as [k Hk]. exists k.
      rewrite lookup_delete_ne; [done|]. intros <-. congruence.
  - cbn [mbind go_bind]. exists st.(schedulers). rewrite (delete_id (PluginsWithScheduler st)) by done. split; [done|].
    assert (Plugins st !! key = None) as Hn.
    { destruct (Plugins st !! key) eqn:E'; [|done]. apply Hs in E' as [? ?]. congruence. }
    rewrite (delete_id (Plugins st)) by done. by split.
Qed.

(** A plugin whose period, in nanoseconds and as an [int64], is positive. *)
Definition cycle_ok (p : Plugin.t) : Prop := 0 < p.(Plugin.Cycle) *₆₄ 1000000000.

Lemma add_new_ok st k q :
  plugins_ok st → (st.(Plugins) !! k = None → cycle_ok q) →
  (∀ p, st.(Plugins) !! k = Some p → p.(Plugin.MTime) = q.(Plugin.MTime)) →
  ∃ st', add_new st (k, q) = Ret st' ∧ plugins_ok st' ∧
    match st.(Plugins) !! k with
    | Some _ => st' = st
    | None => st'.(Plugins) = <[k := q]> st.(Plugins) ∧
        ∃ id, st'.(PluginsWithScheduler) = <[k := id]> st.(PluginsWithScheduler)
    end.
Proof.
  intros [Hl Hs Ho Hq] Hc Hm. unfold add_new. cbn [fst snd]. destruct (Plugins st !! k) as [p|] eqn:E.
  { rewrite decide_True by (by rewrite (Hm p)). by exists st. }
  unfold NewPluginScheduler. specialize (Hc eq_refl). unfold cycle_ok in Hc.
  destruct (Z.leb_spec (q.(Plugin.Cycle) *₆₄ 1000000000) 0) as [Hle|_]; [lia|].
  cbn [mbind go_bind Plugins PluginsWithScheduler schedulers]. eexists. split; [done|].
  assert (∀ k' id, PluginsWithScheduler st !! k' = Some id → (id < length st.(schedulers))%nat) as Hlt.
  { intros k' id H. apply Hl in H as (p & _ & H). by eapply lookup_lt_Some. }
  assert (PluginsWithScheduler st !! k = None) as Hk.
  { destruct (PluginsWithScheduler st !! k) as [id|] eqn:E'; [|done]. apply Hl in E' as (p & ? & _). congruence. }
  split; [|split; [done|by eexists]]. split; cbn [Plugins PluginsWithScheduler schedulers].
  - intros k' id [[<- <-]|[Hne H]]%lookup_insert_Some.
    + exists q. split; [apply lookup_insert_eq|]. by apply list_lookup_middle.
    + destruct (Hl k' id H) as (p & Hp & Hid). exists p. rewrite lookup_insert_ne by done. split; [done|].
      rewrite lookup_app_l; [done|by eapply Hlt].
  - intros k' p. rewrite !lookup_insert. case_decide; [by eexists|]. apply Hs.
  - intros k1 k2 id [[<- <-]|[Hn1 H1]]%lookup_insert_Some [[<- E2]|[Hn2 H2]]%lookup_insert_Some; try done.
    + apply Hlt in H2. lia.
    + subst. apply Hlt in H1. lia.
    + by eapply Ho.
  - intros id s Hs' Hq'. apply lookup_snoc_Some in Hs' as [[Hlt' Hs']|[-> _]].
    + destruct (Hq id s Hs' Hq') as [k' Hk']. exists k'. rewrite lookup_insert_ne; [done|]. intros <-. congruence.
    + exists k. apply lookup_insert_eq.
Qed.

(** Is the plugin [p] of the key [k] out of use, or changed? *)
Definition dropped (new : gmap string Plugin.t) (k : string) (p : Plugin.t) : bool :=
  match new !! k with Some q => bool_decide (p.(Plugin.MTime) ≠ q.(Plugin.MTime)) | None => true end.

Lemma del_no_use_dropped new st kv :
  del_no_use new st kv = if dropped new kv.1 kv.2 then deletePlugin kv.1 st else Ret st.
Proof.
  unfold del_no_use, dropped. destruct (new !! kv.1) as [q|]; [|done]. case_bool_decide as H1; case_decide as H2; done.
Qed.

Lemma DelNoUsePlugins_ok new kvs st :
  plugins_ok st →
  ∃ st', DelNoUsePlugins kvs new st = Ret st' ∧ plugins_ok st' ∧
    ∀ k, ((∃ p, (k, p) ∈ kvs ∧ dropped new k p = true) → st'.(Plugins) !! k = None) ∧
         ((∀ p, (k, p) ∈ kvs → dropped new k p = false) →
            st'.(Plugins) !! k = st.(Plugins) !! k ∧ st'.(PluginsWithScheduler) !! k = st.(PluginsWithScheduler) !! k) ∧
         (st.(Plugins) !! k = None → st'.(Plugins) !! k = None).
Proof.
  unfold DelNoUsePlugins. revert st. induction kvs as [|[key p] kvs IH]; intros st Hst.
  { exists st. split_and!; try done. intros k. split_and!; try done. intros (p & []%not_elem_of_nil & _). }
  cbn [go_foldl]. rewrite del_no_use_dropped. cbn [fst snd]. destruct (dropped new key p) eqn:Ed.
  - destruct (deletePlugin_ok st key Hst) as (ss & -> & Hst1). cbn [mbind go_bind].
    destruct (IH _ Hst1) as (st' & -> & Hst' & Hk). exists st'. split_and!; [done..|]. intros k.
    destruct (Hk k) as (H1 & H2 & H3). cbn [Plugins PluginsWithScheduler] in *. split_and!.
    + intros (p' & [[= -> ->]|Hin]%elem_of_cons & Hp'); [apply H3, lookup_delete_eq|apply H1; eauto].
    + intros Hall. destruct (decide (k = key)) as [->|Hne].
      { rewrite (Hall p) in Ed by left. done. }
      destruct H2 as [-> ->]; [intros p' Hp'; apply Hall; by right|]. by rewrite !lookup_delete_ne.
    + intros Hn. apply H3. rewrite lookup_delete. by case_decide.
  - cbn [mbind go_bind]. destruct (IH st Hst) as (st' & -> & Hst' & Hk). exists st'. split_and!; [done..|]. intros k.
    destruct (Hk k) as (H1 & H2 & H3). split_and!; [|intros Hall; apply H2; intros p' Hp'; apply Hall; by right|done].
    intros (p' & [[= -> ->]|Hin]%elem_of_cons & Hp'); [congruence|apply H1; eauto].
Qed.

Lemma AddNewPlugins_ok kvs st :
  plugins_ok st → NoDup kvs.*1 →
  (∀ k q, (k, q) ∈ kvs → (st.(Plugins) !! k = None → cycle_ok q) ∧
     ∀ p, st.(Plugins) !! k = Some p → p.(Plugin.MTime) = q.(Plugin.MTime)) →
  ∃ st', AddNewPlugins kvs st = Ret st' ∧ plugins_ok st' ∧
    ∀ k, match st.(Plugins) !! k with
         | Some p => st'.(Plugins) !! k = Some p ∧ st'.(PluginsWithScheduler) !! k = st.(PluginsWithScheduler) !! k
         | None => (∀ q, (k, q) ∈ kvs → st'.(Plugins) !! k = Some q) ∧ (k ∉ kvs.*1 → st'.(Plugins) !! k = None)
         end.
Proof.
  unfold AddNewPlugins. revert st. induction kvs as [|[key q] kvs IH]; intros st Hst Hnd Hin.
  { exists st. split_and!; try done. intros k. destruct (Plugins st !! k) eqn:E; [done|]. split; [|done].
    intros q []%not_elem_of_nil. }
  rewrite fmap_cons, NoDup_cons in Hnd. destruct Hnd as [Hnew Hnd]. cbn [fst] in Hnew.
  destruct (Hin key q) as [Hc Hm]; [by left|]. destruct (add_new_ok st key q Hst Hc Hm) as (st1 & E1 & Hst1 & H1).
  cbn [go_foldl]. rewrite E1. cbn [mbind go_bind].
  assert (∀ k, k ≠ key → st1.(Plugins) !! k = st.(Plugins) !! k ∧
    st1.(PluginsWithScheduler) !! k = st.(PluginsWithScheduler) !! k) as Hne.
  { intros k Hk. destruct (Plugins st !! key); [by subst|]. destruct H1 as (-> & id & ->).
    by rewrite !lookup_insert_ne. }
  destruct (IH st1 Hst1 Hnd) as (st' & -> & Hst' & Hk).
  { intros k q' Hq'. assert (k ≠ key) as Hkk.
    { intros ->. apply Hnew. apply list_elem_of_fmap. by exists (key, q'). }
    destruct (Hne k Hkk) as [-> _]. apply Hin. by right. }
  exists st'. split_and!; [done..|]. intros k. specialize (Hk k). destruct (decide (k = key)) as [->|Hkk].
  - destruct (Plugins st !! key) as [p|] eqn:E.
    + subst st1. by rewrite E in Hk.
    + destruct H1 as (Hp & id & _). rewrite Hp, lookup_insert_eq in Hk. destruct Hk as [Hk _]. split.
      * intros q' [[= ->]|Hq']%elem_of_cons; [done|]. destruct Hnew. apply list_elem_of_fmap. by exists (key, q').
      * intros Hn. destruct Hn. rewrite fmap_cons. left.
  - destruct (Hne k Hkk) as [E1' E2]. rewrite E1', E2 in Hk. destruct (Plugins st !! k); [done|].
    destruct Hk as [Hk1 Hk2]. split.
    + intros q' [[= -> ->]|Hq']%elem_of_cons; [done|]. by apply Hk1.
    + intros Hn. apply Hk2. intros Hn'. apply Hn. rewrite fmap_cons. by right.
Qed.

Lemma ClearAllPlugins_Del kvs st : ClearAllPlugins kvs st = DelNoUsePlugins kvs ∅ st.
Proof.
  unfold ClearAllPlugins, DelNoUsePlugins. revert st. induction kvs as [|kv kvs IH]; intros st; [done|].
  cbn [go_foldl]. rewrite del_no_use_dropped. unfold dropped. rewrite lookup_empty.
  destruct (deletePlugin kv.1 st); [|done]. apply IH.
Qed.

(** The states that agent reaches: each turn with any answer, any directories
and any orders of visiting, as long as it does not panic. *)
Record orders_ok (clear del : gmap string Plugin.t → list (string * Plugin.t)) : Prop := {
  clear_ok m : ranges (clear m) m; del_ok m : ranges (del m) m }.

Inductive synced : Z * plugins → Prop :=
| synced_start : synced (-1, PluginState ∅ ∅ [])
| synced_turn ls clear del add hostname call s s' :
    synced s → orders_ok clear del →
    ranges add (desired ls (seen zero_plugins call).2.(Hbs.Plugins)) →
    syncMinePlugins ls clear del add hostname call s = Ret s' → synced s'.

(** Visiting all plugins, [DelNoUsePlugins] keeps those that are not dropped. *)
Lemma purge_ok new kvs st :
  plugins_ok st → ranges kvs st.(Plugins) →
  ∃ st', DelNoUsePlugins kvs new st = Ret st' ∧ plugins_ok st' ∧
    ∀ k, match st.(Plugins) !! k with
         | Some p => if dropped new k p then st'.(Plugins) !! k = None
                     else st'.(Plugins) !! k = Some p ∧ st'.(PluginsWithScheduler) !! k = st.(PluginsWithScheduler) !! k
         | None => st'.(Plugins) !! k = None
         end.
Proof.
  intros Hst Hr. destruct (DelNoUsePlugins_ok new kvs st Hst) as (st' & E & Hst' & Hk).
  exists st'. split_and!; [done..|]. intros k. destruct (Hk k) as (H1 & H2 & H3).
  destruct (Plugins st !! k) as [p|] eqn:Ep; [|by apply H3].
  assert (∀ p', (k, p') ∈ kvs ↔ p' = p) as Hp.
  { intros p'. rewrite (ranges_elem_of _ _ _ _ Hr), Ep. naive_solver. }
  destruct (dropped new k p) eqn:Ed.
  - apply H1. exists p. split; [by apply Hp|done].
  - apply H2. intros p' ->%Hp. done.
Qed.

(** One accepted turn. *)
Lemma syncMinePlugins_ok ls clear del add resp ts st h :
  plugins_ok st → orders_ok clear del →
  let new := desired ls resp.(Hbs.Plugins) in
  ranges add new → ts < resp.(pTimestamp) →
  (∀ k q, new !! k = Some q → cycle_ok q ∨ ∃ p, st.(Plugins) !! k = Some p ∧ dropped new k p = false) →
  ∃ st', syncMinePlugins ls clear del add (Ok h) (Replied resp) (ts, st) = Ret (resp.(pTimestamp), st') ∧
    plugins_ok st' ∧
    ∀ k, match new !! k with
         | None => st'.(Plugins) !! k = None
         | Some q =>
             match st.(Plugins) !! k with
             | Some p => if decide (p.(Plugin.MTime) = q.(Plugin.MTime))
                 then st'.(Plugins) !! k = Some p ∧ st'.(PluginsWithScheduler) !! k = st.(PluginsWithScheduler) !! k
                 else st'.(Plugins) !! k = Some q
             | None => st'.(Plugins) !! k = Some q
             end
         end.
Proof.
  intros Hst [Hcl Hdel] new Hadd Hts Hcyc. unfold syncMinePlugins. cbn [seen].
  destruct (Z.leb_spec resp.(pTimestamp) ts); [lia|]. fold new.
  assert (∃ st1, (if decide (length resp.(Hbs.Plugins) = 0%nat) then ClearAllPlugins (clear st.(Plugins)) st else Ret st) = Ret st1 ∧
    plugins_ok st1 ∧ (st1 = st ∨ new = ∅ ∧ ∀ k, st1.(Plugins) !! k = None)) as (st1 & -> & Hst1 & H1).
  { case_decide as Hl; [|exists st; by auto].
    rewrite ClearAllPlugins_Del. destruct (purge_ok ∅ (clear st.(Plugins)) st Hst (Hcl _)) as (st1 & -> & Hst1 & Hk).
    exists st1. split_and!; [done..|]. right. split.
    - unfold new. by destruct (Hbs.Plugins resp).
    - intros k. specialize (Hk k). unfold dropped in Hk. rewrite lookup_empty in Hk. by destruct (Plugins st !! k). }
  cbn [mbind go_bind]. destruct (purge_ok new (del st1.(Plugins)) st1 Hst1 (Hdel _)) as (st2 & -> & Hst2 & H2).
  cbn [mbind go_bind].
  assert (∀ k, match st.(Plugins) !! k with
         | Some p => if dropped new k p then st2.(Plugins) !! k = None
                     else st2.(Plugins) !! k = Some p ∧ st2.(PluginsWithScheduler) !! k = st.(PluginsWithScheduler) !! k
         | None => st2.(Plugins) !! k = None end) as H2'.
  { destruct H1 as [->|[En Hn]]; [done|]. intros k. specialize (H2 k). rewrite Hn in H2. unfold dropped. rewrite En, lookup_empty.
    by destruct (Plugins st !! k). }
  clear H2. unfold dropped in H2'.
  destruct (AddNewPlugins_ok add st2 Hst2) as (st' & -> & Hst' & H3).
  { apply (ranges_NoDup _ _ Hadd). }
  { intros k q Hq%(ranges_elem_of _ _ _ _ Hadd). specialize (H2' k). rewrite Hq in H2'. split.
    - intros Hn. destruct (Hcyc k q Hq) as [|(p & Hp & Hd)]; [done|]. unfold dropped in Hd. rewrite Hq in Hd.
      rewrite Hp, Hd in H2'. destruct H2'. congruence.
    - intros p Hp. destruct (Plugins st !! k) as [p'|]; [|congruence].
      destruct (bool_decide _) eqn:Ed; [congruence|]. destruct H2' as [H2' _]. rewrite Hp in H2'. injection H2' as ->.
      apply bool_decide_eq_false in Ed. by apply dec_stable in Ed. }
  exists st'. cbn [mbind go_bind]. split_and!; [done..|]. intros k. specialize (H2' k). specialize (H3 k).
  destruct (new !! k) as [q|] eqn:Eq.
  - assert ((k, q) ∈ add) as Hin by (by apply (ranges_elem_of _ _ _ _ Hadd)).
    destruct (Plugins st !! k) as [p|].
    + destruct (decide (p.(Plugin.MTime) = q.(Plugin.MTime))) as [He|Hne].
      * rewrite bool_decide_false in H2' by (by intros ?). destruct H2' as [H2a H2b]. rewrite H2a, H2b in H3. done.
      * rewrite bool_decide_true in H2' by done. rewrite H2' in H3. by apply H3.
    + rewrite H2' in H3. by apply H3.
  - assert (k ∉ add.*1) as Hn.
    { intros ([k' q] & E & Hin)%list_elem_of_fmap. cbn in E. subst k'.
      apply (ranges_elem_of _ _ _ _ Hadd) in Hin. congruence. }
    destruct (Plugins st !! k) as [p|]; rewrite H2' in H3; by apply H3.
Qed.

Lemma syncMinePlugins_skip ls clear del add hostname call ts st :
  (∃ e, hostname = Err e) ∨ (∃ e, call = Refused e) ∨ (seen zero_plugins call).2.(pTimestamp) <= ts →
  syncMinePlugins ls clear del add hostname call (ts, st) = Ret (ts, st).
Proof.
  intros H. unfold syncMinePlugins. destruct hostname as [h|e]; [|done].
  destruct call as [r|e|]; cbn [seen snd] in *; [|done|]; destruct (Z.leb_spec (pTimestamp r) ts) || destruct (Z.leb_spec (pTimestamp zero_plugins) ts); try done;
    destruct H as [[? ?]|[[? ?]|?]]; done || lia.
Qed.

(** A turn that returns had a ticker for each plugin that it added. *)
Lemma AddNewPlugins_needs kvs st st' :
  NoDup kvs.*1 → AddNewPlugins kvs st = Ret st' → ∀ k q, (k, q) ∈ kvs → st.(Plugins) !! k = None → cycle_ok q.
Proof.
  unfold AddNewPlugins. revert st. induction kvs as [|[key q0] kvs IH]; intros st Hnd E k q Hin Hk;
    [by apply not_elem_of_nil in Hin|].
  rewrite fmap_cons, NoDup_cons in Hnd. destruct Hnd as [Hnew Hnd]. cbn [go_foldl] in E.
  apply go_bind_Ret in E as (st1 & E1 & E). unfold add_new, NewPluginScheduler in E1. cbn [fst snd] in E1.
  apply elem_of_cons in Hin as [[= -> ->]|Hin].
  - rewrite Hk in E1. unfold cycle_ok. destruct (Z.leb_spec (q0.(Plugin.Cycle) *₆₄ 1000000000) 0); [done|lia].
  - eapply IH; [done|exact E|exact Hin|]. assert (k ≠ key).
    { intros ->. apply Hnew, list_elem_of_fmap. by exists (key, q). }
    destruct (Plugins st !! key) as [p|]; [destruct (decide _); [by injection E1 as <-|]|];
      (destruct (_ <=? 0); [done|]; injection E1 as <-; cbn; by rewrite lookup_insert_ne).
Qed.

Lemma syncMinePlugins_needs ls clear del add resp ts st h s' :
  plugins_ok st → orders_ok clear del →
  let new := desired ls resp.(Hbs.Plugins) in
  ranges add new → ts < resp.(pTimestamp) →
  syncMinePlugins ls clear del add (Ok h) (Replied resp) (ts, st) = Ret s' →
  ∀ k q, new !! k = Some q → cycle_ok q ∨ ∃ p, st.(Plugins) !! k = Some p ∧ dropped new k p = false.
Proof.
  intros Hst [Hcl Hdel] new Hadd Hts E k q Hq. unfold syncMinePlugins in E. cbn [seen] in E.
  destruct (Z.leb_spec resp.(pTimestamp) ts); [lia|]. fold new in E.
  case_decide as Hl; [unfold new in Hq; by destruct (Hbs.Plugins resp)|]. cbn [mbind go_bind] in E.
  destruct (purge_ok new (del st.(Plugins)) st Hst (Hdel _)) as (st2 & E2 & _ & H2). rewrite E2 in E. cbn [mbind go_bind] in E.
  apply go_bind_Ret in E as (st3 & E3 & _). specialize (H2 k).
  destruct (Plugins st !! k) as [p|]; [destruct (dropped new k p) eqn:Ed; [|right; by exists p]|];
    left; (eapply AddNewPlugins_needs; [apply (ranges_NoDup _ _ Hadd)|exact E3|by apply (ranges_elem_of _ _ _ _ Hadd)|done]).
Qed.

Lemma synced_ok s : synced s → plugins_ok s.2.
Proof.
  induction 1 as [|ls clear del add hostname call [ts st] s' _ IH Ho Hadd E]; [apply plugins_ok_empty|]. cbn [snd] in IH.
  assert (∃ resp, seen zero_plugins call = (None, resp) ∧
    syncMinePlugins ls clear del add hostname call (ts, st) = syncMinePlugins ls clear del add hostname (Replied resp) (ts, st) ∨
    ∃ e, call = Refused e) as (resp & [[Hs He]|[e ->]]).
  { destruct call as [r|e|]; [exists r; by left|exists zero_plugins; right; by exists e|exists zero_plugins; by left]. }
  2:{ rewrite syncMinePlugins_skip in E by eauto. by injection E as <-. }
  rewrite He in E. rewrite Hs in Hadd. cbn [snd] in Hadd. destruct hostname as [h|e].
  2:{ rewrite syncMinePlugins_skip in E by eauto. by injection E as <-. }
  destruct (decide (ts < resp.(pTimestamp))) as [Hlt|Hge].
  2:{ rewrite syncMinePlugins_skip in E by (right; right; cbn; lia). by injection E as <-. }
  pose proof (syncMinePlugins_needs ls clear del add resp ts st h s' IH Ho Hadd Hlt E) as Hc.
  destruct (syncMinePlugins_ok ls clear del add resp ts st h IH Ho Hadd Hlt Hc) as (st' & E' & Hst' & _).
  rewrite E' in E. by injection E as <-.
Qed.

(** C8. Whatever answers, directories and times came before, an answer that is
newer than the last one taken makes agent run exactly the plugins of the
directories in it, each in one goroutine of its own: a plugin that did not
change goes on undisturbed, a changed one is stopped and started again, one
that is gone is stopped.  The turn panics exactly when a plugin to start has no
positive period, as a file 0_x has. *)
Theorem syncMinePlugins_correct ls clear del add resp ts st h :
  synced (ts, st) → orders_ok clear del →
  let new := desired ls resp.(Hbs.Plugins) in
  ranges add new → ts < resp.(pTimestamp) →
  let turn := syncMinePlugins ls clear del add (Ok h) (Replied resp) (ts, st) in
  (returns turn ↔ ∀ k q, new !! k = Some q → cycle_ok q ∨ ∃ p, st.(Plugins) !! k = Some p ∧ dropped new k p = false) ∧
  ∀ ts' st', turn = Ret (ts', st') →
    (∀ k, match new !! k with
          | None => st'.(Plugins) !! k = None
          | Some q =>
              match st.(Plugins) !! k with
              | Some p => if decide (p.(Plugin.MTime) = q.(Plugin.MTime))
                  then st'.(Plugins) !! k = Some p ∧ st'.(PluginsWithScheduler) !! k = st.(PluginsWithScheduler) !! k
                  else st'.(Plugins) !! k = Some q
              | None => st'.(Plugins) !! k = Some q
              end
          end) ∧
    (∀ k p, st'.(Plugins) !! k = Some p → ∃ id, st'.(PluginsWithScheduler) !! k = Some id ∧
       st'.(schedulers) !! id = Some (Scheduler p false)) ∧
    (∀ id p, st'.(schedulers) !! id = Some (Scheduler p false) →
       ∃ k, st'.(PluginsWithScheduler) !! k = Some id ∧ st'.(Plugins) !! k = Some p ∧
         ∀ k', st'.(PluginsWithScheduler) !! k' = Some id → k' = k).
Proof.
  intros Hs%synced_ok Ho new Hadd Hts turn. cbn [snd] in Hs.
  split; [split; [intros [s' E]; exact (syncMinePlugins_needs _ _ _ _ _ _ _ _ _ Hs Ho Hadd Hts E)|]|].
  - intros Hc. destruct (syncMinePlugins_ok ls clear del add resp ts st h Hs Ho Hadd Hts Hc) as (st' & E & _). by eexists.
  - intros ts' st' E. pose proof (syncMinePlugins_needs _ _ _ _ _ _ _ _ _ Hs Ho Hadd Hts E) as Hc.
    destruct (syncMinePlugins_ok ls clear del add resp ts st h Hs Ho Hadd Hts Hc) as (st1 & E1 & Hst' & Hk).
    unfold turn in E. rewrite E1 in E. injection E as _ <-. destruct Hst' as [Hl Hsc Hown Hst]. split_and!; [done| |].
    + intros k p Hp. destruct (Hsc k p Hp) as [id Hid]. exists id. split; [done|].
      destruct (Hl k id Hid) as (p' & Hp' & Hi). congruence.
    + intros id p Hid. destruct (Hst id _ Hid eq_refl) as [k Hk']. exists k.
      destruct (Hl k id Hk') as (p' & Hp' & Hi). split_and!; [done|congruence|].
      intros k' Hk1. by eapply Hown.
Qed.

Definition ex_ls (mtime : Z) (dir : string) : option (list file) :=
  if decide (dir = "sys/ntp") then Some [File "60_ntp.py" false mtime; File "README" false 5; File "lib_1" true 6] else None.
Definition ex_order (m : gmap string Plugin.t) : list (string * Plugin.t) := map_to_list m.
Definition ex_turn (mtime now : Z) : Z * plugins → go (Z * plugins) :=
  syncMinePlugins (ex_ls mtime) ex_order ex_order (map_to_list (desired (ex_ls mtime) ["/sys/ntp/"]))
    (Ok "h") (Replied (AgentPluginsResponse_ ["/sys/ntp/"] now)).
Definition ex_synced : Z * plugins :=
  match ex_turn 7 100 (-1, PluginState ∅ ∅ []) with Ret s => s | Panic _ => (0, PluginState ∅ ∅ []) end.

Lemma ex_orders : orders_ok ex_order ex_order.
Proof. split; intros m; apply ranges_map_to_list. Qed.

Lemma ex_synced_ok : synced ex_synced.
Proof.
  apply (synced_turn (ex_ls 7) ex_order ex_order (map_to_list (desired (ex_ls 7) ["/sys/ntp/"])) (Ok "h")
    (Replied (AgentPluginsResponse_ ["/sys/ntp/"] 100)) (-1, PluginState ∅ ∅ [])); [constructor|apply ex_orders|apply ranges_map_to_list|].
  vm_compute. reflexivity.
Qed.

(** The plugin was changed: its first goroutine is stopped, a second one runs. *)
Example syncMinePlugins_correct_witness :
  ∃ st', ex_turn 9 160 ex_synced = Ret (160, st') ∧
    st'.(Plugins) !! "sys/ntp/60_ntp.py" = Some (Plugin.mk "sys/ntp/60_ntp.py" 9 60).
Proof.
  destruct (syncMinePlugins_correct (ex_ls 9) ex_order ex_order (map_to_list (desired (ex_ls 9) ["/sys/ntp/"]))
    (AgentPluginsResponse_ ["/sys/ntp/"] 160) ex_synced.1 ex_synced.2 "h") as [_ H].
  - exact ex_synced_ok.
  - exact ex_orders.
  - apply ranges_map_to_list.
  - vm_compute. reflexivity.
  - destruct (ex_turn 9 160 ex_synced) as [[ts st']|] eqn:E; [|exfalso; revert E; vm_compute; discriminate].
    exists st'. destruct (H ts st' E) as [Hk _]. specialize (Hk "sys/ntp/60_ntp.py"). split.
    + revert E. vm_compute. intros [= <- <-]. reflexivity.
    + revert Hk. clear. intros Hk. exact Hk.
Defined.

Example zero_cycle_panics :
  AddNewPlugins [("a/0_x", Plugin.mk "a/0_x" 1 0)] (PluginState ∅ ∅ []) = Panic NonPositiveTicker.
Proof. reflexivity. Qed.

(** ** Corner cases *)

(** An answer that is too late empties the trusted addresses. *)
Example late_is_empty :
  syncTrustableIps TooLate ["10.0.0.1"; "10.0.0.2"] = [""].
Proof. reflexivity. Qed.

(** A process to count without a name or a command line counts all processes. *)
Example no_condition_counts_all :
  is_a (Process 1 "sshd" "sshd -D") (map_to_list (parse_proc "app=web")) = true.
Proof. vm_compute. reflexivity. Qed.
