(* ===== verification/AgentPlugin.v ===== *)
(** * Agent: running a plugin
(modules/agent/plugins/scheduler.go)

A plugin is a program that prints points as JSON.  Its scheduler runs it once a
period, kills it when it takes too long, keeps what it complains of in a file,
and sends what it prints.  [plugin_reaches_transfer] follows the points to
transfer; [PluginRun_panics] says when a plugin brings agent down. *)

From S2P Require Import Prelude GoFloat GoString Hash Tags Model Json Redis Transfer ConnPool Gateway Hbs Agent AgentSafety AgentSync.
From stdpp Require Import options.

(** ** The process *)

(** How a command ends under [sys.CmdRunWithTimeout]: it was not started, it
ended in time, or it was killed, or could not be. *)
Inductive fate : Type :=
| NotStarted
| Exited (err : option error)
| Overran (kill_err : option error).

Record process : Type := Process { stdout : text; stderr : string; ended : fate }.

(** [err, isTimeout := sys.CmdRunWithTimeout(cmd, timeout)]; the process of a
command that was not started is nil. *)
Definition CmdRunWithTimeout (p : process) : go (option error * bool) :=
  match p.(ended) with
  | NotStarted => Panic NilDereference
  | Exited err => Ret (err, false)
  | Overran err => Ret (err, true)
  end.

Definition is_blank (t : text) : bool := match t with Text "" => true | _ => false end.

(** [json.Unmarshal] into a slice of pointers to points. *)
Definition read_metrics (t : text) : result (list (option MetricValue.t)) :=
  match t with
  | Text _ => Err errUnmarshal
  | Encoded JNull => Ok []
  | Encoded (JArray l) => mapM Unmarshal l
  | Encoded _ => Err errUnmarshal
  end.

(** A pointer that is nil brings agent down when there are default tags to be added. *)
Lemma SendToTransfer_panics kvs metrics :
  match SendToTransfer kvs metrics with
  | Ret _ => kvs = [] ∨ None ∉ metrics
  | Panic p => kvs ≠ [] ∧ None ∈ metrics ∧ p = NilDereference
  end.
Proof.
  unfold SendToTransfer. case_decide as Em; [right; rewrite Em; apply not_elem_of_nil|].
  case_decide as Ek; [|left; destruct kvs; [done|cbn in Ek; lia]].
  assert (kvs ≠ []) as Hk by by destruct kvs; [cbn in Ek; lia|].
  set (F := λ (l : list (option MetricValue.t)) x, x ← deref x; Ret (l ++ [Some (add_default_tags (default_tags kvs) x)])).
  assert (∀ acc, match go_foldl F acc metrics with
    Ret _ => None ∉ metrics | Panic p => None ∈ metrics ∧ p = NilDereference end) as HF.
  { clear. induction metrics as [|[m|] metrics IH]; intros acc; cbn [go_foldl];
      [apply not_elem_of_nil| |split; [by left|done]].
    change (F acc (Some m)) with (Ret (acc ++ [Some (add_default_tags (default_tags kvs) m)])). cbn [mbind go_bind].
    specialize (IH (acc ++ [Some (add_default_tags (default_tags kvs) m)])).
    destruct (go_foldl F _ metrics); [by inversion 1; simplify_eq|]. destruct IH. by split; [right|]. }
  specialize (HF []). destruct (go_foldl F [] metrics); cbn [mbind go_bind]; tauto.
Qed.

(** ** A run *)

Section plugin.
#[local] Set Default Proof Using "Type*".
(** The directories of the configuration, and the default tags in the order of the visit. *)
Context (Dir LogDir : string) (default_kvs : list (string * string)).
(** What there is: files, and what a program does within so many milliseconds;
[write_log] is the error of writing a file. *)
Context (IsExist : string → bool) (exec : string → Z → process) (write_log : string → string → option error).

(** What is sent, and the file written with its text. *)
Record effects : Type := Effects { sent : option (list (option MetricValue.t)); logged : option (string * string) }.

Definition timeout_of (p : Plugin.t) : Z := p.(Plugin.Cycle) *₆₄ 1000 -₆₄ 500.

(** The error of the command is overwritten by that of writing the file. *)
Definition PluginRun (plugin : Plugin.t) : go effects :=
  let fpath := Join Dir plugin.(Plugin.FilePath) in
  if negb (IsExist fpath) then Ret (Effects None None)
  else
    let cmd := exec fpath (timeout_of plugin) in
    r ← CmdRunWithTimeout cmd;
    let '(err, isTimeout) := r : option error * bool in
    let errStr := cmd.(stderr) in
    let logFile := Join LogDir (plugin.(Plugin.FilePath) +:+ ".stderr.log") in
    let '(err, log) := if decide (errStr = "") then (err, None) else (write_log logFile errStr, Some (logFile, errStr)) in
    if isTimeout then Ret (Effects None log)
    else
      match err with
      | Some _ => Ret (Effects None log)
      | None =>
          if is_blank cmd.(stdout) then Ret (Effects None log)
          else
            match read_metrics cmd.(stdout) with
            | Err _ => Ret (Effects None log)
            | Ok metrics => batch ← SendToTransfer default_kvs metrics; Ret (Effects batch log)
            end
      end.

(** [Schedule]: a run for each tick, until the scheduler is told to quit. *)
Inductive wake : Set := Tick | Quit.
Fixpoint Schedule (plugin : Plugin.t) (wakes : list wake) : go (list effects) :=
  match wakes with
  | Tick :: wakes => e ← PluginRun plugin; es ← Schedule plugin wakes; Ret (e :: es)
  | Quit :: _ | [] => Ret []
  end.

(** ** What becomes of a run *)

(** The command ended in time, and as far as [PluginRun] can see without an error. *)
Definition succeeded (plugin : Plugin.t) : bool :=
  let fpath := Join Dir plugin.(Plugin.FilePath) in
  let cmd := exec fpath (timeout_of plugin) in
  IsExist fpath &&
  match cmd.(ended) with
  | Exited err =>
      if decide (cmd.(stderr) = "") then bool_decide (err = None)
      else bool_decide (write_log (Join LogDir (plugin.(Plugin.FilePath) +:+ ".stderr.log")) cmd.(stderr) = None)
  | _ => false
  end.

Definition output (plugin : Plugin.t) : text :=
  (exec (Join Dir plugin.(Plugin.FilePath)) (timeout_of plugin)).(stdout).

(** When a plugin brings agent down: its file cannot be started, or it prints a
point that is null and there are default tags. *)
Lemma PluginRun_panics plugin p :
  PluginRun plugin = Panic p ↔
  p = NilDereference ∧ IsExist (Join Dir plugin.(Plugin.FilePath)) = true ∧
  ((exec (Join Dir plugin.(Plugin.FilePath)) (timeout_of plugin)).(ended) = NotStarted ∨
   succeeded plugin = true ∧ default_kvs ≠ [] ∧
   ∃ metrics, read_metrics (output plugin) = Ok metrics ∧ None ∈ metrics).
Proof.
  unfold PluginRun, succeeded, output. set (cmd := exec _ _). destruct (IsExist _); cbn [negb andb]; [|naive_solver].
  unfold CmdRunWithTimeout. destruct cmd.(ended) as [|err|err] eqn:Ee; cbn [mbind go_bind].
  - split; [intros [= <-]; auto|by intros (-> & _)].
  - set (seen_err := if decide (cmd.(stderr) = "") then err else write_log (Join LogDir (plugin.(Plugin.FilePath) +:+ ".stderr.log")) cmd.(stderr)).
    assert ((if decide (cmd.(stderr) = "") then bool_decide (err = None)
      else bool_decide (write_log (Join LogDir (plugin.(Plugin.FilePath) +:+ ".stderr.log")) cmd.(stderr) = None)) =
      bool_decide (seen_err = None)) as -> by (unfold seen_err; by case_decide).
    match goal with |- context [let '(_, _) := ?q in _] => set (pair := q) end.
    assert (pair = (seen_err, pair.2)) as -> by (unfold pair, seen_err; by case_decide).
    destruct seen_err as [e|]; [naive_solver|].
    destruct (is_blank cmd.(stdout)) eqn:Eb.
    { destruct (stdout cmd) as [[|]|]; naive_solver. }
    destruct (read_metrics cmd.(stdout)) as [metrics|e]; [|naive_solver].
    pose proof (SendToTransfer_panics default_kvs metrics) as Hp.
    destruct (SendToTransfer default_kvs metrics) as [b|q]; cbn [mbind go_bind]; naive_solver.
  - case_decide; naive_solver.
Qed.

Lemma PluginRun_sends plugin metrics :
  succeeded plugin = true → read_metrics (output plugin) = Ok metrics → metrics ≠ [] →
  ∃ log, PluginRun plugin = (batch ← SendToTransfer default_kvs metrics; Ret (Effects batch log)).
Proof.
  unfold PluginRun, succeeded, output. set (cmd := exec _ _). intros Hs Hr Hne.
  apply andb_true_iff in Hs as [-> Hs]. cbn [negb]. unfold CmdRunWithTimeout.
  destruct cmd.(ended) as [|err|err]; [done| |done]. cbn [mbind go_bind].
  assert (is_blank cmd.(stdout) = false) as Hb by by destruct (stdout cmd).
  case_decide; apply bool_decide_eq_true in Hs; rewrite Hs, Hb, Hr; by eexists.
Qed.
End plugin.


Definition ex_plugin : Plugin.t := Plugin.mk "sys/60_app.py" 0 60.
Definition ex_printed : MetricValue.t := MetricValue.mk "h" "app.up" (VInt 1) 60 "GAUGE" "" 1000.
(** A plugin that prints a point, complains, and ends with an error. *)
Definition ex_run (path : string) (timeout : Z) : process :=
  Process (Encoded (JArray [json_enc ex_printed])) "oops" (Exited (Some "exit status 1")).


(** The same plugin is not heard when its complaint cannot be written. *)
Example unwritten_complaint :
  PluginRun "plugin" "logs" [] (λ _, true) ex_run (λ _ _, Some "disk full") ex_plugin =
  Ret (Effects None (Some ("logs/sys/60_app.py.stderr.log", "oops"))).
Proof. vm_compute. reflexivity. Qed.

(** A file that cannot be executed brings agent down. *)
Example not_executable :
  Schedule "plugin" "logs" [] (λ _, true) (λ _ _, Process (Text "") "" NotStarted) (λ _ _, None) ex_plugin [Tick; Quit] =
  Panic NilDereference.
Proof. vm_compute. reflexivity. Qed.
