(* ===== verification/AgentKernel.v ===== *)
(** * agent: the points of the kernel's tables, and a tick
(modules/agent/funcs, with its readers in vendor/github.com/toolkits/nux)

Interfaces, limits, load, TCP, UDP and sockets: tables of /proc, read as text,
each line a point or a number of points.  [BuildMappers] lists all functions that
make points, and [tick] is a turn of one of its groups.  [udp_table_sent] and
[tcp_table_sent]: the tables that the kernel printed are the points that are sent. *)

From S2P Require Import Prelude GoFloat GoString Hash Tags Model Agent.
From Stdlib Require Import Ascii.
From stdpp Require Import options.

Notation newline := (ascii_of_nat 10).

(** ** Reading files (vendor/github.com/toolkits/file) *)

(** The lines that [ReadLine] answers, one after the other, before the end of
the file: without their ends, and with the last one if it has no end; lines
that are longer than the buffer of the reader are not considered. *)
Definition trim_cr (l : string) : string :=
  match reverse (String.list_ascii_of_string l) with
  | c :: r => if decide (c = ascii_of_nat 13) then String.string_of_list_ascii (reverse r) else l
  | [] => l
  end.
Definition file_lines (content : string) : list string :=
  let l := split newline content in
  let ended := removelast l in
  (trim_cr <$> ended) ++ (if decide (last l = Some "") then [] else option_list (last l)).
Definition EOF : error := "EOF".

(** [x, _ = strconv.ParseInt(s, 10, 64)]: what is left in [x] when it fails. *)
Definition int_or_bound (s : string) : Z :=
  match ParseInt 64 s with
  | Ok n => n
  | Err e => if decide (e = errRange) then if HasPrefix s "-" then - 2 ^ 63 else 2 ^ 63 - 1 else 0
  end.
Definition uint_or_bound (s : string) : Z :=
  match ParseUint64 s with Ok n => n | Err e => if decide (e = errRange) then 2 ^ 64 - 1 else 0 end.

(** [strings.Split(s, ", ")] *)
Fixpoint split_comma_space (s : string) : list string :=
  match s with
  | "" => [""]
  | String "," (String " " s) => "" :: split_comma_space s
  | String c s => match split_comma_space s with x :: l => String c x :: l | [] => [String c ""] end
  end.

Section files.
(** What [ioutil.ReadFile] answers. *)
Context (ReadFile : string → result string).

Definition ToTrimString (path : string) : result string := s ← ReadFile path; Ok (TrimSpace s).
Definition ToUint64 (path : string) : result Z := s ← ToTrimString path; ParseUint64 s.

(** ** Tables of two lines, with names and with values (netstat.go, snmp.go) *)

(** The loop over the names: a name without a value is out of range. *)
Fixpoint fill (parse : string → result Z) (ths tds : list string) (m : gmap string Z) : go (result (gmap string Z)) :=
  match ths, tds with
  | [], _ => Ret (Ok m)
  | h :: ths, t :: tds =>
      match parse t with Ok v => fill parse ths tds (<[h := v]> m) | Err e => Ret (Err e) end
  | _ :: _, [] => Panic IndexOutOfRange
  end.

(** The first line with the title, and the line after it.  No such line is no
error. *)
Fixpoint find_table (parse : string → result Z) (title : string) (lines : list string) :
    go (result (gmap string Z)) :=
  match lines with
  | [] => Ret (Ok ∅)
  | line :: lines =>
      let idx := index_char ":" line in
      if idx <? 0 then find_table parse title lines
      else
        name ← go_slice line 0 idx;
        if decide (TrimSpace name = title) then
          heads ← go_slice line (idx + 1) (slen line);
          match lines with
          | [] => Ret (Err EOF)
          | valLine :: _ =>
              vals ← go_slice valLine (idx + 1) (slen valLine);
              fill parse (Fields (TrimSpace heads)) (Fields (TrimSpace vals)) ∅
          end
        else find_table parse title lines
  end.

Definition Netstat (ext : string) : go (result (gmap string Z)) :=
  match ReadFile "/proc/net/netstat" with
  | Err e => Ret (Err e)
  | Ok contents => find_table ParseUint64 ext (file_lines contents)
  end.
Definition Snmp (title : string) : go (result (gmap string Z)) :=
  match ReadFile "/proc/net/snmp" with
  | Err e => Ret (Err e)
  | Ok contents => find_table (ParseInt 64) title (file_lines contents)
  end.

(** ** Load and limits (loadavg.go, kernel.go) *)

Record Loadavg : Type := Loadavg_ { Avg1min : float64; Avg5min : float64; Avg15min : float64 }.

(** A number that is not there is out of range. *)
Definition field_float (L : list string) (i : Z) : go (result float64) := s ← at_index L i; Ret (ParseFloat s).

Definition LoadAvg : go (result Loadavg) :=
  match ToTrimString "/proc/loadavg" with
  | Err e => Ret (Err e)
  | Ok data =>
      let L := Fields data in
      r1 ← field_float L 0;
      match r1 with Err e => Ret (Err e) | Ok a =>
        r5 ← field_float L 1;
        match r5 with Err e => Ret (Err e) | Ok b =>
          r15 ← field_float L 2;
          Ret (c ← r15; Ok (Loadavg_ a b c))
        end
      end
  end.

Definition KernelMaxFiles : result Z := ToUint64 "/proc/sys/fs/file-max".
Definition KernelMaxProc : result Z := ToUint64 "/proc/sys/kernel/pid_max".
Definition KernelAllocateFiles : result Z :=
  content ← ToTrimString "/proc/sys/fs/file-nr";
  match Fields content with
  | [a; _; _] => ParseUint64 a
  | _ => Err "/proc/sys/fs/file-nr format error"
  end.

(** ** Interfaces (ifstat.go) *)

Record NetIf : Type := NetIf_ {
  Iface : string;
  InBytes : Z; InPackages : Z; InErrors : Z; InDropped : Z; InFifoErrs : Z; InFrameErrs : Z;
  InCompressed : Z; InMulticast : Z;
  OutBytes : Z; OutPackages : Z; OutErrors : Z; OutDropped : Z; OutFifoErrs : Z; OutCollisions : Z;
  OutCarrierErrs : Z; OutCompressed : Z;
  TotalBytes : Z; TotalPackages : Z; TotalErrors : Z; TotalDropped : Z;
  SpeedBits : Z; InPercent : float64; OutPercent : float64 }.

(** The speed in bits of an interface, and the two percentages. *)
Definition net_speed (iface : string) (inBytes outBytes : Z) : Z * float64 * float64 :=
  match (content ← ReadFile ("/sys/class/net/" +:+ iface +:+ "/speed"); ParseInt 64 (TrimSpace content)) with
  | Err _ => (0, f64_zero, f64_zero)
  | Ok speed =>
      if decide (speed = 0) then (0, f64_zero, f64_zero)
      else
        let bits := speed *₆₄ 1000000 in
        let percent b := f64_div (f64_mul (f64_of_Z (b *₆₄ 8)) f64_100) (f64_of_Z bits) in
        (bits, percent inBytes, percent outBytes)
  end.

(** The body of the loop over the lines; [None] is [continue]. *)
Definition net_line (onlyPrefix : list string) (line : string) : go (option NetIf) :=
  let idx := index_char ":" line in
  if idx <? 0 then Ret None
  else
    name ← go_slice line 0 idx;
    rest ← go_slice line (idx + 1) (slen line);
    let eth := TrimSpace name in
    if bool_decide (onlyPrefix ≠ []) && negb (existsb (HasPrefix eth) onlyPrefix) then Ret None
    else
      Ret match int_or_bound <$> Fields rest with
        | [ib; ip; ie; id; if_; ir; ic; im; ob; op; oe; od; of_; oc; oa; oz] =>
            let '(bits, inp, outp) := net_speed eth ib ob in
            Some (NetIf_ eth ib ip ie id if_ ir ic im ob op oe od of_ oc oa oz
              (ib +₆₄ ob) (ip +₆₄ op) (ie +₆₄ oe) (id +₆₄ od) bits inp outp)
        | _ => None
        end.

Fixpoint net_lines (onlyPrefix : list string) (lines : list string) : go (list NetIf) :=
  match lines with
  | [] => Ret []
  | line :: lines =>
      r ← net_line onlyPrefix line;
      rest ← net_lines onlyPrefix lines;
      Ret (option_list r ++ rest)
  end.

Definition NetIfs (onlyPrefix : list string) : go (result (list NetIf)) :=
  match ReadFile "/proc/net/dev" with
  | Err e => Ret (Err e)
  | Ok contents => l ← net_lines onlyPrefix (file_lines contents); Ret (Ok l)
  end.

End files.

(** ** Sockets (ss_s.go) *)

(** A part of the line in brackets: a name and a number, or two for [timewait].
What is left of a number that cannot be read is stored. *)
Definition ss_field (m : gmap string Z) (val : string) : go (gmap string Z) :=
  let fields := Fields val in
  name ← at_index fields 0;
  number ← at_index fields 1;
  if decide (name = "timewait") then
    let timewait_arr := split "/" number in
    a ← at_index timewait_arr 0;
    b ← at_index timewait_arr 1;
    Ret (<["slabinfo.timewait" := uint_or_bound b]> (<["timewait" := uint_or_bound a]> m))
  else Ret (<[name := uint_or_bound number]> m).

Fixpoint ss_lines (lines : list string) : go (result (gmap string Z)) :=
  match lines with
  | [] => Ret (Err EOF)
  | line :: lines =>
      let left := index_char "(" line in
      let right := index_char ")" line in
      if negb (HasPrefix line "TCP") || (left <? 0) || (right <? 0) then ss_lines lines
      else
        content ← go_slice line (left + 1) right;
        m ← go_foldl ss_field ∅ (split_comma_space content);
        Ret (Ok m)
  end.

(** [out] is what the command [ss -s] prints; its first line is passed over. *)
Definition SocketStatSummary (out : result string) : go (result (gmap string Z)) :=
  match out with
  | Err e => Ret (Err e)
  | Ok bs => match file_lines bs with [] => Ret (Err EOF) | _ :: lines => ss_lines lines end
  end.

(** ** The points (ifstat.go, kernel.go, loadavg.go, netstat.go, snmp.go, sockstat.go, agent.go) *)

Definition net_points (i : NetIf) : list MetricValue.t :=
  let iface := "iface=" +:+ i.(Iface) in
  let counter metric v := CounterValue metric (VInt64 v) [iface] in
  [counter "net.if.in.bytes" i.(InBytes); counter "net.if.in.packets" i.(InPackages);
   counter "net.if.in.errors" i.(InErrors); counter "net.if.in.dropped" i.(InDropped);
   counter "net.if.in.fifo.errs" i.(InFifoErrs); counter "net.if.in.frame.errs" i.(InFrameErrs);
   counter "net.if.in.compressed" i.(InCompressed); counter "net.if.in.multicast" i.(InMulticast);
   counter "net.if.out.bytes" i.(OutBytes); counter "net.if.out.packets" i.(OutPackages);
   counter "net.if.out.errors" i.(OutErrors); counter "net.if.out.dropped" i.(OutDropped);
   counter "net.if.out.fifo.errs" i.(OutFifoErrs); counter "net.if.out.collisions" i.(OutCollisions);
   counter "net.if.out.carrier.errs" i.(OutCarrierErrs); counter "net.if.out.compressed" i.(OutCompressed);
   counter "net.if.total.bytes" i.(TotalBytes); counter "net.if.total.packets" i.(TotalPackages);
   counter "net.if.total.errors" i.(TotalErrors); counter "net.if.total.dropped" i.(TotalDropped);
   GaugeValue "net.if.speed.bits" (VInt64 i.(SpeedBits)) [iface];
   CounterValue "net.if.in.percent" (VFloat64 i.(InPercent)) [iface];
   CounterValue "net.if.out.percent" (VFloat64 i.(OutPercent)) [iface]].

(** An error of a reader is logged, and there are no points. *)
Definition points_of {A} (f : A → list MetricValue.t) (r : go (result A)) : go (list MetricValue.t) :=
  r ← r; Ret match r with Ok a => f a | Err _ => [] end.

Definition CoreNetMetrics (ReadFile : string → result string) (ifacePrefix : list string) : go (list MetricValue.t) :=
  points_of (λ netIfs, netIfs ≫= net_points) (NetIfs ReadFile ifacePrefix).

Definition KernelMetrics (ReadFile : string → result string) : list MetricValue.t :=
  let gauge metric v := GaugeValue metric (VInt v) [] in
  match KernelMaxFiles ReadFile with
  | Err _ => []
  | Ok maxFiles => gauge "kernel.maxfiles" maxFiles ::
      match KernelMaxProc ReadFile with
      | Err _ => []
      | Ok maxProc => gauge "kernel.maxproc" maxProc ::
          match KernelAllocateFiles ReadFile with
          | Err _ => []
          | Ok allocateFiles =>
              [gauge "kernel.files.allocated" allocateFiles; gauge "kernel.files.left" (sub_u64 maxFiles allocateFiles)]
          end
      end
  end.

Definition LoadAvgMetrics (ReadFile : string → result string) : go (list MetricValue.t) :=
  points_of (λ load, [GaugeValue "load.1min" (VFloat64 load.(Avg1min)) [];
                      GaugeValue "load.5min" (VFloat64 load.(Avg5min)) [];
                      GaugeValue "load.15min" (VFloat64 load.(Avg15min)) []]) (LoadAvg ReadFile).

Definition USES : list string := [
  "PruneCalled"; "LockDroppedIcmps"; "ArpFilter"; "TW"; "DelayedACKLocked"; "ListenOverflows"; "ListenDrops";
  "TCPPrequeueDropped"; "TCPTSReorder"; "TCPDSACKUndo"; "TCPLoss"; "TCPLostRetransmit"; "TCPLossFailures";
  "TCPFastRetrans"; "TCPTimeouts"; "TCPSchedulerFailed"; "TCPAbortOnMemory"; "TCPAbortOnTimeout";
  "TCPAbortFailed"; "TCPMemoryPressures"; "TCPSpuriousRTOs"; "TCPBacklogDrop"; "TCPMinTTLDrop"].

(** [visit] is the order in which a table is visited. *)
Definition NetstatMetrics (visit : gmap string Z → list (string * Z)) (ReadFile : string → result string) :
    go (list MetricValue.t) :=
  points_of (λ tcpExts, kv ← visit tcpExts;
    if decide (kv.1 ∈ USES) then [CounterValue ("TcpExt." +:+ kv.1) (VInt kv.2) []] else [])
    (Netstat ReadFile "TcpExt").

Definition UdpMetrics (visit : gmap string Z → list (string * Z)) (ReadFile : string → result string) :
    go (list MetricValue.t) :=
  points_of (λ udp, (λ kv, CounterValue ("snmp.Udp." +:+ kv.1) (VInt64 kv.2) []) <$> visit udp) (Snmp ReadFile "Udp").

Definition SocketStatSummaryMetrics (visit : gmap string Z → list (string * Z)) (out : result string) :
    go (list MetricValue.t) :=
  points_of (λ ssMap, (λ kv, GaugeValue ("ss." +:+ kv.1) (VInt kv.2) []) <$> visit ssMap) (SocketStatSummary out).

Definition AgentMetrics : list MetricValue.t := [GaugeValue "agent.alive" (VInt 1) []].

(** ** A tick (funcs.go, cron/collector.go) *)

(** What the functions find at a tick. *)
Record readings : Type := Readings {
  files : string → result string;
  visit : gmap string Z → list (string * Z);
  IfacePrefix : list string;
  cpu : proc_history;
  mem : result Mem;
  disks : result (list DiskStats);
  diskStatsMap : gmap string disk_pair; disk_order : list (string * disk_pair);
  mountPoint : list string; mounts : result (list (string * string * string));
  mount_usage : string * string * string → result DeviceUsage;
  reportProcs : list (string * gmap Z string); processes : result (list Proc_);
  reportPorts : list Z; tcp_ports : result (list Z); udp_ports : result (list Z);
  ss_out : result string;
  reportPaths : list string; du_out : string → result string;
  reportUrls : list (string * string); url_hostname : result string; probe : string → string → bool }.

Record FuncsAndInterval : Type := Funcs { Fs : list (readings → go (list MetricValue.t)); Interval : Z }.

Definition BuildMappers (interval : Z) : list FuncsAndInterval := [
  Funcs [λ _, Ret AgentMetrics;
         λ r, CpuMetrics r.(cpu);
         λ r, CoreNetMetrics r.(files) r.(IfacePrefix);
         λ r, Ret (KernelMetrics r.(files));
         λ r, LoadAvgMetrics r.(files);
         λ r, Ret (MemMetrics r.(mem));
         λ r, Ret (DiskIOMetrics r.(disks));
         λ r, IOStatsMetrics r.(disk_order) r.(diskStatsMap);
         λ r, NetstatMetrics r.(visit) r.(files);
         λ r, Ret (ProcMetrics r.(reportProcs) r.(processes));
         λ r, UdpMetrics r.(visit) r.(files)] interval;
  Funcs [λ r, Ret (DeviceMetrics r.(mountPoint) r.(mounts) r.(mount_usage))] interval;
  Funcs [λ r, Ret (PortMetrics r.(reportPorts) r.(tcp_ports) r.(udp_ports));
         λ r, SocketStatSummaryMetrics r.(visit) r.(ss_out)] interval;
  Funcs [λ r, DuMetrics r.(reportPaths) r.(du_out)] interval;
  Funcs [λ r, Ret (UrlMetrics r.(reportUrls) r.(url_hostname) r.(probe))] interval ].

(** The functions of a group, one after the other, on what they find. *)
Fixpoint run_fns (fns : list (readings → go (list MetricValue.t))) (r : readings) : go (list (list MetricValue.t)) :=
  match fns with
  | [] => Ret []
  | fn :: fns => items ← fn r; rest ← run_fns fns r; Ret (items :: rest)
  end.

(** A turn of [collect]: without a hostname nothing is read. *)
Definition tick (g : FuncsAndInterval) (hostname : result string) (ignoreMetrics : gmap string bool) (r : readings)
    (now : Z) : go (list MetricValue.t) :=
  match hostname with
  | Err _ => Ret []
  | Ok _ => items ← run_fns g.(Fs) r; Ret (collect g.(Interval) hostname ignoreMetrics items now)
  end.

(** ** Reading what the kernel printed *)

(** A table is a title, names, and values. *)
Definition table : Type := string * list string * list Z.
Definition table_line (title : string) (words : list string) : string := title +:+ ": " +:+ join " " words.
Definition table_lines (t : table) : list string :=
  let '(title, names, vals) := t in [table_line title names; table_line title (Itoa <$> vals)].
Definition unlines (ls : list string) : string := foldr (λ l s, l +:+ String newline s) "" ls.

Definition visible (c : ascii) : bool := byte_in 33 126 c.
Definition word (s : string) : Prop := s ≠ "" ∧ all_chars visible s = true.
Definition table_ok (t : table) : Prop :=
  let '(title, names, vals) := t in
  word title ∧ lacks ":" title ∧ Forall word names ∧ Forall int64 vals.

Lemma visible_not_space c : visible c = true → is_space (byte_of c) = false.
Proof. by destruct c as [[] [] [] [] [] [] [] []]; vm_compute. Qed.

Notation rs s := ((λ c, (byte_of c, String c "")) <$> String.list_ascii_of_string s).

Lemma rs_app s t : rs (s +:+ t) = rs s ++ rs t.
Proof. induction s as [|a s IH]; [done|]. cbn. by rewrite IH. Qed.

Definition ascii7 (c : ascii) : bool := byte_of c <? 128.
Lemma runes_ascii s : all_chars ascii7 s = true → runes s = rs s.
Proof.
  unfold runes. induction s as [|a s IH]; [done|]. cbn [all_chars]. intros [Ha Hs]%andb_true_iff.
  cbn [runes_from]. unfold decode_rune. unfold ascii7 in Ha. rewrite Ha. cbn. rewrite IH by done.
  f_equal. by destruct s.
Qed.

Lemma concat_rs s : String.concat "" (rs s).*2 = s.
Proof.
  induction s as [|a s IH]; [done|]. cbn. cbn in IH. rewrite <- IH at 2. by destruct ((rs s).*2).
Qed.

Lemma all_chars_mono (p q : ascii → bool) s : (∀ c, p c = true → q c = true) → all_chars p s = true → all_chars q s = true.
Proof.
  intros Hpq. induction s as [|a s IH]; [done|]. cbn [all_chars]. rewrite !andb_true_iff. naive_solver.
Qed.

(** Characters of a line: visible ones and blanks. *)
Definition plain (c : ascii) : bool := byte_in 32 126 c.
Lemma visible_plain c : visible c = true → plain c = true.
Proof. unfold visible, plain, byte_in. lia. Qed.
Lemma plain_ascii7 c : plain c = true → ascii7 c = true.
Proof. unfold plain, ascii7, byte_in. lia. Qed.

Lemma words_plain ws : Forall word ws → all_chars plain (join " " ws) = true.
Proof.
  induction 1 as [|w ws [Hne Hw] Hws IH]; [done|].
  destruct (decide (ws = [])) as [->|Hn]; [by apply (all_chars_mono visible); [apply visible_plain|]|].
  rewrite join_cons, !all_chars_app, IH by done. rewrite (all_chars_mono visible plain) by (done || apply visible_plain). done.
Qed.

Lemma fields_word cur w l :
  all_chars visible w = true → fields_of (Some cur) (rs w ++ l) = fields_of (Some (cur +:+ w)) l.
Proof.
  revert cur. induction w as [|a w IH]; intros cur; cbn [all_chars]; [by rewrite app_string_nil_r|].
  intros [Ha Hw]%andb_true_iff. cbn. rewrite visible_not_space by done. cbn. rewrite IH by done.
  by rewrite app_string_assoc.
Qed.

Lemma Fields_words ws : Forall word ws → Fields (join " " ws) = ws.
Proof.
  intros HF. unfold Fields. rewrite runes_ascii by (eapply all_chars_mono; [apply plain_ascii7|by apply words_plain]).
  induction HF as [|w ws [Hne Hw] Hws IH]; [done|].
  assert (∀ l, fields_of None (rs w ++ l) = fields_of (Some w) l) as E.
  { intros l. destruct w as [|a w]; [done|]. cbn [all_chars] in Hw. apply andb_true_iff in Hw as [Ha Hw].
    cbn. rewrite visible_not_space by done. cbn. by rewrite fields_word. }
  destruct (decide (ws = [])) as [->|Hn]; [by rewrite <- (app_nil_r (rs _)); cbn [join]; rewrite E|].
  rewrite join_cons, !rs_app, E by done. cbn. by rewrite IH.
Qed.

Lemma words_last ws : Forall word ws → ws ≠ [] → ∃ s c, join " " ws = s +:+ String c "" ∧ visible c = true.
Proof.
  induction 1 as [|w ws [Hne Hw] Hws IH]; [done|]. intros _.
  destruct (decide (ws = [])) as [->|Hn].
  - cbn [join]. clear -Hne Hw. induction w as [|a w IH]; [done|]. cbn [all_chars] in Hw.
    apply andb_true_iff in Hw as [Ha Hw]. destruct (decide (w = "")) as [->|Hn]; [by exists "", a|].
    destruct (IH Hn Hw) as (s & c & -> & Hc). by exists (String a s), c.
  - destruct (IH Hn) as (s & c & E & Hc). rewrite join_cons, E by done. exists (w +:+ " " +:+ s), c.
    by rewrite !app_string_assoc.
Qed.

(** Blanks before words are trimmed, and nothing else. *)
Lemma TrimSpace_words ws : Forall word ws → TrimSpace (" " +:+ join " " ws) = join " " ws ∧ TrimSpace (join " " ws) = join " " ws.
Proof.
  intros HF. pose proof (words_plain ws HF) as Hp.
  assert (drop_space (reverse (drop_space (rs (join " " ws)))) = reverse (rs (join " " ws))) as E.
  { destruct (decide (ws = [])) as [->|Hn]; [done|].
    assert (drop_space (rs (join " " ws)) = rs (join " " ws)) as ->.
    { destruct HF as [|w ws [Hne Hw] Hws]; [done|]. destruct w as [|a w]; [done|]. cbn [all_chars] in Hw.
      apply andb_true_iff in Hw as [Ha _]. assert (∃ t, join " " (String a w :: ws) = String a t) as [t ->].
      { destruct (decide (ws = [])) as [->|Hn']; [by eexists|]. rewrite join_cons by done. by eexists. }
      cbn. by rewrite visible_not_space. }
    destruct (words_last ws HF Hn) as (s & c & -> & Hc). rewrite rs_app. cbn [String.list_ascii_of_string fmap list_fmap].
    rewrite reverse_snoc. cbn. by rewrite visible_not_space. }
  unfold TrimSpace. rewrite !runes_ascii by
    (cbn; eapply all_chars_mono; [apply plain_ascii7|by rewrite ?Hp]).
  split; cbn [String.append String.list_ascii_of_string fmap list_fmap drop_space];
    [change (is_space (byte_of " "%char)) with true; cbn iota|]; by rewrite E, reverse_involutive, concat_rs.
Qed.

(** A file of plain lines is read as those lines. *)
Lemma file_lines_unlines ls : Forall (λ l, all_chars plain l = true) ls → file_lines (unlines ls) = ls.
Proof.
  intros HF. unfold file_lines.
  assert (split newline (unlines ls) = ls ++ [""]) as ->.
  { induction HF as [|l ls Hl Hls IH]; [done|]. cbn [unlines foldr]. rewrite split_app; [|by eapply all_chars_lacks].
    cbn. f_equal. exact IH. }
  rewrite removelast_last, last_snoc, decide_True, app_nil_r by done.
  induction HF as [|l ls Hl Hls IH]; [done|]. cbn. f_equal; [|exact IH]. clear -Hl. unfold trim_cr.
  destruct (reverse (String.list_ascii_of_string l)) as [|c r] eqn:E; [done|]. case_decide as Hc; [|done].
  exfalso. subst c. assert (∀ s, all_chars plain s = true → Forall (λ c, plain c = true) (String.list_ascii_of_string s)) as HA.
  { clear. induction s as [|a s IH]; cbn [all_chars]; [by constructor|]. intros [? ?]%andb_true_iff. constructor; auto. }
  apply HA, Forall_reverse in Hl. rewrite E in Hl. by inversion Hl.
Qed.

Lemma Itoa_word v : word (Itoa v).
Proof.
  assert (∀ d, all_chars visible (string_of_uint d) = true) as Hd by by induction d.
  assert (∀ p, string_of_uint (Pos.to_uint p) ≠ "") as Hn.
  { intros p. by destruct (string_of_uint_digit (Pos.to_uint p)) as (c & s & -> & _); [apply pos_to_uint_nonnil|]. }
  destruct v; cbn [Itoa]; (split; [done|]); [done|apply Hd|apply Hd].
Qed.

Lemma word_TrimSpace w : word w → TrimSpace w = w.
Proof. intros Hw. by destruct (TrimSpace_words [w]) as [_ E]; [constructor|]. Qed.

(** The values go to the names, a later one to a name that is there twice; and a
name without a value is out of range. *)
Definition assign_all (names : list string) (vals : list Z) (m : gmap string Z) : gmap string Z :=
  foldl (λ m kv, <[kv.1 := kv.2]> m) m (zip names vals).

Lemma fill_values parse names vals m :
  Forall (λ v, parse (Itoa v) = Ok v) vals →
  fill parse names (Itoa <$> vals) m =
    if decide (length names ≤ length vals)%nat then Ret (Ok (assign_all names vals m)) else Panic IndexOutOfRange.
Proof.
  unfold assign_all. intros HF. revert names m.
  induction HF as [|v vals Hv _ IH]; intros [|n names] m; [by rewrite decide_True by (cbn; lia)|by rewrite decide_False by (cbn; lia)|
    by rewrite decide_True by (cbn; lia)|].
  cbn [fmap list_fmap fill]. rewrite Hv, IH. cbn [zip zip_with foldl length fst snd].
  repeat case_decide; done || lia.
Qed.

Lemma table_line_parts title ws :
  word title → lacks ":" title → Forall word ws →
  index_char ":" (table_line title ws) = slen title ∧
  go_slice (table_line title ws) 0 (slen title) = Ret title ∧
  ∃ rest, go_slice (table_line title ws) (slen title + 1) (slen (table_line title ws)) = Ret rest ∧
    Fields (TrimSpace rest) = ws.
Proof.
  intros Ht Hl HF. unfold table_line. change (": " +:+ ?s) with (String ":" (" " +:+ s)). split_and!.
  - by apply index_char_app.
  - by apply (go_slice_mid "" title).
  - exists (" " +:+ join " " ws). split.
    + replace (title +:+ String ":" (" " +:+ join " " ws)) with ((title +:+ ":") +:+ (" " +:+ join " " ws) +:+ "")
        by by rewrite app_string_nil_r, app_string_assoc.
      apply go_slice_mid; rewrite !length_app_string; change (String.length ":") with 1%nat;
        change (String.length "") with 0%nat; lia.
    + destruct (TrimSpace_words ws HF) as [-> _]. by apply Fields_words.
Qed.

(** The table with the title is found among the tables of a file. *)
Lemma find_table_tables parse before title names vals after :
  Forall table_ok before → table_ok (title, names, vals) → title ∉ before.*1.*1 →
  Forall (λ v, parse (Itoa v) = Ok v) vals →
  find_table parse title ((before ++ (title, names, vals) :: after) ≫= table_lines) =
    if decide (length names ≤ length vals)%nat then Ret (Ok (assign_all names vals ∅)) else Panic IndexOutOfRange.
Proof.
  intros HF (Ht & Hc & Hn & _) Hnotin Hp.
  assert (Forall word (Itoa <$> vals)) as Hv by (apply Forall_fmap, Forall_forall; intros; apply Itoa_word).
  assert (∀ s, (slen s <? 0) = false) as Hpos by (intros s; apply Z.ltb_ge; lia).
  induction HF as [|[[t ns] vs] before (Ht' & Hc' & Hn' & _) HF IH]; cbn [app mbind list_bind table_lines find_table].
  - destruct (table_line_parts title names) as (-> & -> & h & -> & Eh); [done..|].
    destruct (table_line_parts title (Itoa <$> vals)) as (_ & _ & v & Ev & Evs); [done..|].
    rewrite Hpos. cbn [mbind go_bind]. rewrite word_TrimSpace, decide_True by done. rewrite Ev. cbn [mbind go_bind].
    by rewrite Eh, Evs, fill_values.
  - cbn in Hnotin. apply not_elem_of_cons in Hnotin as [Hne Hnotin].
    assert (Forall word (Itoa <$> vs)) as Hv' by (apply Forall_fmap, Forall_forall; intros; apply Itoa_word).
    destruct (table_line_parts t ns) as (-> & -> & _); [done..|].
    destruct (table_line_parts t (Itoa <$> vs)) as (-> & -> & _); [done..|].
    rewrite Hpos. cbn [mbind go_bind]. rewrite word_TrimSpace, !(decide_False (P := t = title)) by done. by apply IH.
Qed.

Lemma table_lines_plain t : table_ok t → Forall (λ l, all_chars plain l = true) (table_lines t).
Proof.
  destruct t as [[title names] vals]. intros ((_ & Ht) & _ & Hn & _).
  assert (Forall word (Itoa <$> vals)) as Hv by (apply Forall_fmap, Forall_forall; intros; apply Itoa_word).
  unfold table_lines, table_line.
  repeat constructor; rewrite !all_chars_app, words_plain, (all_chars_mono visible plain) by (done || apply visible_plain); done.
Qed.

Lemma read_tables tabs : Forall table_ok tabs → file_lines (unlines (tabs ≫= table_lines)) = tabs ≫= table_lines.
Proof. intros HF. apply file_lines_unlines, Forall_bind. eapply Forall_impl; [exact HF|apply table_lines_plain]. Qed.

Lemma assign_all_entries names vals m :
  NoDup names → (∀ x, x ∈ names → m !! x = None) →
  map_to_list (assign_all names vals m) ≡ₚ zip names vals ++ map_to_list m.
Proof.
  unfold assign_all. intros Hn. revert vals m. induction Hn as [|x names Hx Hn IH]; intros [|v vals] m Hm; [done..|].
  cbn [zip zip_with foldl fst snd]. rewrite IH.
  - rewrite map_to_list_insert by (apply Hm; left). by rewrite <- Permutation_middle.
  - intros y Hy. rewrite lookup_insert_ne by (by intros ->). apply Hm. by right.
Qed.

(** The counters of a table as [Snmp] and [Netstat] read them. *)
Lemma counters_read parse before title names vals after (f : gmap string Z → list MetricValue.t) (g : string * Z → list MetricValue.t) :
  Forall table_ok (before ++ (title, names, vals) :: after) → title ∉ before.*1.*1 → NoDup names →
  Forall (λ v, parse (Itoa v) = Ok v) vals → (∀ m, f m ≡ₚ map_to_list m ≫= g) →
  match points_of f (find_table parse title (file_lines (unlines ((before ++ (title, names, vals) :: after) ≫= table_lines)))) with
  | Ret points => (length names ≤ length vals)%nat ∧ points ≡ₚ zip names vals ≫= g
  | Panic p => (length vals < length names)%nat ∧ p = IndexOutOfRange
  end.
Proof.
  intros HF Hnotin Hn Hp Hf. rewrite read_tables by done.
  apply Forall_app in HF as [Hb [Ht _]%Forall_cons]. rewrite find_table_tables by done.
  case_decide; cbn; [|split; [lia|done]]. split; [done|]. rewrite Hf.
  rewrite assign_all_entries by (done || intros; apply lookup_empty). by rewrite map_to_list_empty, app_nil_r.
Qed.

Lemma bind_singles {A B} (f : A → B) l : l ≫= (λ x, [f x]) = f <$> l.
Proof. induction l as [|x l IH]; [done|]. cbn. by f_equal. Qed.

Lemma ParseUint64_Itoa v : 0 <= v < 2 ^ 64 → ParseUint64 (Itoa v) = Ok v.
Proof.
  intros Hv. unfold ParseUint64. destruct v as [|p|p]; [done| |lia].
  cbn [Itoa]. rewrite parse_digits_pos. cbn [mbind result_bind]. by rewrite decide_True by lia.
Qed.

(** The same for TCP, of whose counters agent sends the ones in [USES]. *)
Lemma tcp_table_sent visit ReadFile before names vals after :
  ReadFile "/proc/net/netstat" = Ok (unlines ((before ++ ("TcpExt", names, vals) :: after) ≫= table_lines)) →
  Forall table_ok (before ++ ("TcpExt", names, vals) :: after) → "TcpExt" ∉ before.*1.*1 → NoDup names →
  Forall (λ v, 0 <= v) vals → (∀ m, visit m ≡ₚ map_to_list m) →
  match NetstatMetrics visit ReadFile with
  | Ret points => (length names ≤ length vals)%nat ∧
      points ≡ₚ zip names vals ≫= λ kv, if decide (kv.1 ∈ USES) then [CounterValue ("TcpExt." +:+ kv.1) (VInt kv.2) []] else []
  | Panic p => (length vals < length names)%nat ∧ p = IndexOutOfRange
  end.
Proof.
  intros Hr HF Hnotin Hn Hpos Hv. unfold NetstatMetrics, Netstat. rewrite Hr.
  apply (counters_read ParseUint64 before "TcpExt" names vals after); try done.
  - apply Forall_app in HF as [_ [(_ & _ & _ & Hi) _]%Forall_cons]. apply Forall_forall. intros v Hin.
    rewrite Forall_forall in Hi, Hpos. specialize (Hi v Hin). specialize (Hpos v Hin). unfold int64 in Hi.
    apply ParseUint64_Itoa. lia.
  - intros m. by rewrite Hv.
Qed.

(** What the kernel printed of UDP is what agent sends: of the tables of
[/proc/net/snmp], each a line of names and one of values, [UdpMetrics] makes one
counter for each name of the first table with the title, with the value below it,
and of the other tables nothing; and a name without a value brings agent down. *)
Theorem udp_table_sent visit ReadFile before names vals after :
  ReadFile "/proc/net/snmp" = Ok (unlines ((before ++ ("Udp", names, vals) :: after) ≫= table_lines)) →
  Forall table_ok (before ++ ("Udp", names, vals) :: after) → "Udp" ∉ before.*1.*1 → NoDup names →
  (∀ m, visit m ≡ₚ map_to_list m) →
  match UdpMetrics visit ReadFile with
  | Ret points => (length names ≤ length vals)%nat ∧
      points ≡ₚ (λ kv, CounterValue ("snmp.Udp." +:+ kv.1) (VInt64 kv.2) []) <$> zip names vals
  | Panic p => (length vals < length names)%nat ∧ p = IndexOutOfRange
  end.
Proof.
  intros Hr HF Hnotin Hn Hv. unfold UdpMetrics, Snmp. rewrite Hr. rewrite <- bind_singles.
  apply (counters_read (ParseInt 64) before "Udp" names vals after); try done.
  - apply Forall_app in HF as [_ [(_ & _ & _ & Hi) _]%Forall_cons].
    eapply Forall_impl; [exact Hi|]. intros v. by apply (ParseInt_Itoa 64).
  - intros m. by rewrite bind_singles, Hv.
Qed.

Definition ex_tables : list table := [
  ("Tcp", ["RtoAlgorithm"; "MaxConn"], [1; -1]);
  ("Udp", ["InDatagrams"; "NoPorts"; "InErrors"], [102; 7; 0]);
  ("UdpLite", ["InDatagrams"], [5])].
Definition ex_files (tabs : list table) (path : string) : result string :=
  if decide (path = "/proc/net/snmp") then Ok (unlines (tabs ≫= table_lines)) else Err "no such file or directory".

Lemma udp_table_sent_witness :
  match UdpMetrics map_to_list (ex_files ex_tables) with
  | Ret points => (3 ≤ 3)%nat ∧ points ≡ₚ [
      CounterValue "snmp.Udp.InDatagrams" (VInt64 102) []; CounterValue "snmp.Udp.NoPorts" (VInt64 7) [];
      CounterValue "snmp.Udp.InErrors" (VInt64 0) []]
  | Panic p => (3 < 3)%nat ∧ p = IndexOutOfRange
  end.
Proof.
  apply (udp_table_sent map_to_list (ex_files ex_tables) [("Tcp", ["RtoAlgorithm"; "MaxConn"], [1; -1])]
    ["InDatagrams"; "NoPorts"; "InErrors"] [102; 7; 0] [("UdpLite", ["InDatagrams"], [5])]).
  - reflexivity.
  - repeat (constructor || split || discriminate || reflexivity || (unfold int64; lia)).
  - apply (bool_decide_unpack _). vm_compute. exact I.
  - apply (bool_decide_unpack _). vm_compute. exact I.
  - intros m. reflexivity.
Defined.

(** A value less than names. *)
Example udp_table_short :
  UdpMetrics map_to_list (ex_files [("Udp", ["InDatagrams"; "NoPorts"], [102])]) = Panic IndexOutOfRange.
Proof. vm_compute. reflexivity. Qed.

(** The speed of an interface that is down reads -1, and the percentages are below zero. *)
Definition ex_net (path : string) : result string :=
  if decide (path = "/proc/net/dev") then
    Ok ("Inter-|   Receive" +:+ String newline "  eth0: 1000 2 0 0 0 0 0 0    3000 4 0 0 0 0 0 0")
  else Ok ("-1" +:+ String newline "").
Example eth0_down :
  match NetIfs ex_net ["eth"; "em"] with
  | Ret (Ok [i]) => (i.(InBytes), i.(OutBytes), i.(TotalBytes), i.(SpeedBits), f64_lt i.(InPercent) f64_zero)
  | _ => (0, 0, 0, 0, false)
  end = (1000, 3000, 4000, -1000000, true).
Proof. vm_compute. reflexivity. Qed.

Example load_read :
  LoadAvg (λ _, Ok ("0.5 0.25 1 1/256 4711" +:+ String newline "")) =
    Ret (Ok (Loadavg_ (f64_of_decimal false 5 (-1)) (f64_of_decimal false 25 (-2)) (f64_of_Z 1))) ∧
  LoadAvg (λ _, Ok "0.5") = Panic IndexOutOfRange.
Proof. vm_compute. done. Qed.

Example ss_read :
  match SocketStatSummary (Ok ("Total: 187 (kernel 0)" +:+ String newline
    "TCP:   12 (estab 4, closed 2, orphaned 0, synrecv 0, timewait 2/1), ports 0")) with
  | Ret (Ok m) => bool_decide (m = <["timewait" := 2]> (<["slabinfo.timewait" := 1]> (<["estab" := 4]>
      (<["closed" := 2]> (<["orphaned" := 0]> {["synrecv" := 0]})))))
  | _ => false
  end = true.
Proof. vm_compute. reflexivity. Qed.

(** A part without a number. *)
Example ss_short : SocketStatSummary (Ok ("Total:" +:+ String newline "TCP: 12 (estab)")) = Panic IndexOutOfRange.
Proof. vm_compute. reflexivity. Qed.
