(* ===== verification/Cli.v ===== *)
(** * The command line: starting, stopping and checking the services
(main package's g and cmd: g/g.go, g/tool.go, cmd/start.go, stop.go, restart.go,
check.go, monitor.go)

The commands work on a machine, whose processes and files are behind the class
[Machine].  [PreqOrder_spec] and [RmDup_spec] say in which order modules are
taken, [start_correct] what a start does, and [isStarted_waits] that it waits for
ever for a module that does not come up: the time-out is set anew in every turn of
the loop, and a tick always comes before it. *)

From S2P Require Import Prelude GoFloat GoString Agent AgentSync.
From Stdlib Require Import Ascii.
From stdpp Require Import options.

(** ** The modules (g/g.go) *)

(** Modules are deployed in this order. *)
Definition AllModulesInOrder : list string := [
  "graph"; "hbs"; "judge"; "transfer"; "nodata"; "aggregator"; "agent"; "gateway"; "api"; "alarm"].
Definition module_map (f : string → string) : gmap string string :=
  list_to_map ((λ m, (m, f m)) <$> AllModulesInOrder).
Definition Modules : gmap string bool := list_to_map ((λ m, (m, true)) <$> AllModulesInOrder).
Definition BinOf : gmap string string := module_map (λ m, "./" +:+ m +:+ "/bin/falcon-" +:+ m).
Definition cfgOf : gmap string string := module_map (λ m, "./" +:+ m +:+ "/config/cfg.json").
Definition ModuleApps : gmap string string := module_map (λ m, "falcon-" +:+ m).
Definition logpathOf : gmap string string := module_map (λ m, "./" +:+ m +:+ "/logs/" +:+ m +:+ ".log").
Definition NOT_SET : string := "<NOT SET>".
Definition PidOf_init : gmap string string := module_map (λ _, NOT_SET).

(** A map of strings, read where it may have no entry. *)
Definition at_key (m : gmap string string) (k : string) : string := default "" (m !! k).

(** [filepath.Abs] and [filepath.Dir] *)
Definition Abs (wd : result string) (p : string) : string :=
  if HasPrefix p "/" then Clean p else match wd with Ok d => Join d p | Err _ => "" end.
Definition Dir (p : string) : string :=
  match removelast (split "/" p) with [] => "." | l => Clean (join "/" l +:+ "/") end.

(** The verb [%<n>s] *)
Definition padded (n : nat) (s : string) : string :=
  String.concat "" (replicate (n - String.length s) " ") +:+ s.

(** [filepath.Rel] of two absolute paths *)
Fixpoint strip_common (a b : list string) : list string * list string :=
  match a, b with
  | x :: a', y :: b' => if decide (x = y) then strip_common a' b' else (a, b)
  | _, _ => (a, b)
  end.
Definition components (p : string) : list string := filter (λ c, c ≠ "") (split "/" p).
Definition rel_path (base targ : string) : string :=
  let '(up, down) := strip_common (components base) (components targ) in
  let l := replicate (length up) ".." ++ down in
  if decide (l = []) then "." else join "/" l.

(** ** Lists of modules (g/tool.go) *)

(** The loop of [RmDup]. *)
Definition dup_step (acc : list string * gmap string bool) (arg : string) : list string * gmap string bool :=
  let '(ret, isDup) := acc in
  if default false (isDup !! arg) then (ret, isDup) else (ret ++ [arg], <[arg := true]> isDup).
Definition RmDup (args : list string) : list string :=
  match args with
  | [] => []
  | [_] => args
  | _ => (foldl dup_step ([], ∅) args).1
  end.

Definition PreqOrder (moduleArgs : list string) : list string :=
  let known := AllModulesInOrder ≫= λ nameOrder,
    nameArg ← moduleArgs; if decide (nameOrder = nameArg) then [nameOrder] else [] in
  foldl (λ modulesInOrder nameArg,
    if decide (nameArg ∈ modulesInOrder) then modulesInOrder else modulesInOrder ++ [nameArg]) known moduleArgs.

(** ** The machine *)

(** What the commands ask of the machine: [pgrep -f] of a name, whether a file is
there, running a program to its end or in the background with its log, stopping
processes, and waiting.  [clock] is in milliseconds. *)
Class Machine (O : Type) : Type := {
  clock : O → Z;
  wait_until : Z → O → O;
  pgrep : string → O → string * O;
  has_file : string → O → bool;
  run_console : string → list string → O → result unit * O;
  MkdirAll : string → O → result unit * O;
  open_log : string → O → result unit * O;
  start_logged : string → list string → string → O → result unit * O;
  kill_TERM : string → O → result unit * O }.

Section commands.
Context {O : Type} `{Machine O} (wd : result string).

(** What a command knows and has printed; [execs] records the modules it executed. *)
Record cli : Type := Cli { os : O; PidOf : gmap string string; printed : list string; execs : list string }.
Definition with_os (o : O) (c : cli) : cli := Cli o c.(PidOf) c.(printed) c.(execs).
Definition on_os {A} (f : O → A * O) (c : cli) : A * cli := let '(a, o) := f c.(os) in (a, with_os o c).
Definition print (s : string) (c : cli) : cli := Cli c.(os) c.(PidOf) (c.(printed) ++ [s]) c.(execs).

Definition Bin (name : string) : string := Abs wd (at_key BinOf name).
Definition Cfg (name : string) : string := Abs wd (at_key cfgOf name).
Definition LogPath (name : string) : string := Abs wd (at_key logpathOf name).
Definition LogDir (name : string) : string := Abs wd (Dir (at_key logpathOf name)).
Definition Rel (p : string) : string := match wd with Ok d => rel_path d (Abs wd p) | Err _ => "" end.
Definition HasLogfile (name : string) (c : cli) : bool := has_file (LogPath name) c.(os).
Definition HasCfg (name : string) (c : cli) : bool := has_file (Cfg name) c.(os).
Definition HasModule (name : string) : bool := default false (Modules !! name).

Definition setPid (name : string) (c : cli) : cli :=
  let '(output, c) := on_os (pgrep (at_key ModuleApps name)) c in
  Cli c.(os) (<[name := TrimSpace output]> c.(PidOf)) c.(printed) c.(execs).
Definition Pid (name : string) (c : cli) : string * cli :=
  let c := if decide (at_key c.(PidOf) name = NOT_SET) then setPid name c else c in
  (at_key c.(PidOf) name, c).
Definition IsRunning (name : string) (c : cli) : bool * cli :=
  let '(pid, c) := Pid name (setPid name c) in (negb (bool_decide (pid = "")), c).

(** [fmt.Print("[", g.ModuleApps[moduleName], "] ", g.Pid(moduleName), "\n")] *)
Definition print_pid (name : string) (c : cli) : cli :=
  let '(pid, c) := Pid name c in print ("[" +:+ at_key ModuleApps name +:+ "] " +:+ pid) c.
Definition print_down (name : string) (c : cli) : cli := print ("[" +:+ at_key ModuleApps name +:+ "] down") c.

(** ** start.go *)

Definition cmdArgs (name : string) : list string := ["-c"; Cfg name].
Definition openLogFile (name : string) (c : cli) : result unit * cli :=
  let '(r, c) := on_os (MkdirAll (LogDir name)) c in
  match r with Err e => (Err e, c) | Ok _ => on_os (open_log (LogPath name)) c end.
Definition execModule (co : bool) (name : string) (c : cli) : result unit * cli :=
  let c := Cli c.(os) c.(PidOf) c.(printed) (c.(execs) ++ [name]) in
  if co then on_os (run_console (Bin name) (cmdArgs name)) c
  else
    let '(r, c) := openLogFile name c in
    match r with
    | Err e => (Err e, c)
    | Ok _ => on_os (start_logged (Bin name) (cmdArgs name) (LogPath name)) c
    end.

Definition no_module (name : string) : error := name +:+ " doesn't exist".
Definition checkStartReq (name : string) (c : cli) : result unit :=
  if negb (HasModule name) then Err (no_module name)
  else if negb (HasCfg name c) then Err ("expect config file: " +:+ Rel (Cfg name))
  else Ok tt.

(** The moment at which a ticker of 100 ms that was made at [made] has a tick for
a reader that got its last one at [got]: now, if one has come meanwhile. *)
Definition tick_time (made got now : Z) : Z := Z.max now (made + 100 * ((got - made) / 100 + 1)).

(** The loop of [isStarted]: [time.After] starts anew in each turn. *)
Fixpoint await (fuel : nat) (made got : Z) (name : string) (c : cli) : option (bool * cli) :=
  match fuel with
  | 0%nat => None
  | S fuel =>
      let now := clock c.(os) in
      let tick := tick_time made got now in
      let timeout := now + 1000 in
      if tick <? timeout then
        let '(up, c) := IsRunning name (with_os (wait_until tick c.(os)) c) in
        if up : bool then Some (true, c) else await fuel made tick name c
      else Some (false, with_os (wait_until timeout c.(os)) c)
  end.
Definition isStarted (fuel : nat) (name : string) (c : cli) : option (bool * cli) :=
  let made := clock c.(os) in await fuel made made name c.

(** One module of [start]; no answer: it waits for ever. *)
Definition start_one (fuel : nat) (co : bool) (moduleName : string) (c : cli) : option (result unit * cli) :=
  match checkStartReq moduleName c with
  | Err e => Some (Err e, c)
  | Ok _ =>
      let '(up, c) := IsRunning moduleName c in
      if up : bool then Some (Ok tt, print_pid moduleName c)
      else
        let '(r, c) := execModule co moduleName c in
        match r : result unit with
        | Err e => Some (Err e, c)
        | Ok _ =>
            '(up, c) ← isStarted fuel moduleName c;
            if up : bool then Some (Ok tt, print_pid moduleName c)
            else Some (Err ("[" +:+ at_key ModuleApps moduleName +:+ "] failed to start"), c)
        end
  end.

(** A command on the modules, one after the other, up to the first error. *)
Fixpoint each_module (f : string → cli → option (result unit * cli)) (names : list string) (c : cli) :
    option (result unit * cli) :=
  match names with
  | [] => Some (Ok tt, c)
  | name :: names =>
      '(r, c) ← f name c;
      match r : result unit with Err e => Some (Err e, c) | Ok _ => each_module f names c end
  end.

(** The modules that a command is about. *)
Definition or_all (args : list string) : list string := match args with [] => AllModulesInOrder | _ => args end.
Definition start_order (preq : bool) (args : list string) : list string :=
  or_all (if preq then PreqOrder (RmDup args) else RmDup args).

Definition start (fuel : nat) (preq co : bool) (args : list string) (c : cli) : option (result unit * cli) :=
  each_module (start_one fuel co) (start_order preq args) c.

(** ** stop.go, check.go, restart.go, monitor.go *)

Definition stop_one (moduleName : string) (c : cli) : option (result unit * cli) :=
  if negb (HasModule moduleName) then Some (Err (no_module moduleName), c)
  else
    let '(up, c) := IsRunning moduleName c in
    if negb up then Some (Ok tt, print_down moduleName c)
    else
      let '(pid, c) := Pid moduleName c in
      let '(r, c) := on_os (kill_TERM pid) c in
      match r with Ok _ => Some (Ok tt, print_down moduleName c) | Err e => Some (Err e, c) end.
Definition stop (args : list string) (c : cli) : option (result unit * cli) :=
  each_module stop_one (or_all (RmDup args)) c.

Definition check_one (moduleName : string) (c : cli) : option (result unit * cli) :=
  if negb (HasModule moduleName) then Some (Err (no_module moduleName), c)
  else
    let '(up, c) := IsRunning moduleName c in
    let app := padded 20 (at_key ModuleApps moduleName) in
    if up : bool then
      let '(pid, c) := Pid moduleName c in
      Some (Ok tt, print (app +:+ " " +:+ padded 10 "UP" +:+ " " +:+ padded 15 pid +:+ " ") c)
    else Some (Ok tt, print (app +:+ " " +:+ padded 10 "DOWN" +:+ " " +:+ padded 15 "-" +:+ " ") c).
Definition check (args : list string) (c : cli) : option (result unit * cli) :=
  each_module check_one (or_all (RmDup args)) c.

Definition sleep (ms : Z) (c : cli) : cli := with_os (wait_until (clock c.(os) + ms) c.(os)) c.
(** The flags of [start] are those of its own command line only. *)
Definition restart_one (fuel : nat) (moduleName : string) (c : cli) : option (result unit * cli) :=
  '(r, c) ← stop [moduleName] c;
  match r : result unit with
  | Err e => Some (Err e, c)
  | Ok _ => start fuel false false [moduleName] (sleep (if contains_str "graph" moduleName then 2000 else 1000) c)
  end.
Definition restart (fuel : nat) (args : list string) (c : cli) : option (result unit * cli) :=
  each_module (restart_one fuel) (or_all (RmDup args)) c.

Definition checkMonReq (name : string) (c : cli) : result unit :=
  if negb (HasModule name) then Err (no_module name)
  else if negb (HasLogfile name c) then Err ("expect logfile: " +:+ Rel (Cfg name))
  else Ok tt.
(** The arguments of [tail], up to which [monitor] is the code's own; [None]: it
prints its usage. *)
Definition monitor_args (args : list string) (c : cli) : option (result (list string)) :=
  match args with
  | [] => None
  | _ => Some (foldl (λ acc name, tailArgs ← acc; _ ← checkMonReq name c; Ok (tailArgs ++ [LogPath name])) (Ok ["-f"]) args)
  end.
End commands.
Arguments cli O : clear implicits.

(** What the theorems ask of a machine: time does not go back, and waiting takes
until the moment asked for. *)
Class MachineLaws (O : Type) `{Machine O} : Prop := {
  clock_wait t (o : O) : clock (wait_until t o) = Z.max t (clock o);
  clock_pgrep app (o : O) : clock o <= clock (pgrep app o).2 }.

(** ** In which order modules are taken *)

Lemma dup_steps l ret isDup :
  (∀ x, default false (isDup !! x) = bool_decide (x ∈ ret)) → NoDup ret →
  ∃ l', (foldl dup_step (ret, isDup) l).1 = ret ++ l' ∧ l' `sublist_of` l ∧ NoDup (ret ++ l') ∧ ∀ x, x ∈ ret ++ l' ↔ x ∈ ret ∨ x ∈ l.
Proof.
  revert ret isDup. induction l as [|a l IH]; intros ret isDup Hm Hn; cbn [foldl].
  { exists []. rewrite app_nil_r. split_and!; [done|constructor|done|]. intros x. split; [by left|]. by intros [?|?%elem_of_nil]. }
  unfold dup_step at 2. rewrite Hm. case_bool_decide as Ha.
  - destruct (IH ret isDup Hm Hn) as (l' & -> & Hs & Hn' & Hx). exists l'. split_and!; [done|by constructor|done|].
    intros x. rewrite Hx, elem_of_cons. naive_solver.
  - destruct (IH (ret ++ [a]) (<[a := true]> isDup)) as (l' & -> & Hs & Hn' & Hx).
    + intros x. destruct (decide (x = a)) as [->|Hne].
      * rewrite lookup_insert_eq. cbn. symmetry. apply bool_decide_eq_true. set_solver.
      * rewrite lookup_insert_ne by done. rewrite Hm. apply bool_decide_ext. set_solver.
    + apply NoDup_app. split; [done|]. split; [|by apply NoDup_singleton]. by intros x Hx ->%list_elem_of_singleton.
    + exists (a :: l'). rewrite <- app_assoc in *. split_and!; [done|by constructor|done|]. intros x. rewrite Hx. set_solver.
Qed.

(** Each module once, where it is named first. *)
Lemma RmDup_spec args : NoDup (RmDup args) ∧ RmDup args `sublist_of` args ∧ ∀ x, x ∈ RmDup args ↔ x ∈ args.
Proof.
  destruct args as [|a [|b l]]; [split_and!; [constructor|done|done]|split_and!; [apply NoDup_singleton|done|done]|].
  change (RmDup (a :: b :: l)) with (foldl dup_step ([], ∅) (a :: b :: l)).1.
  destruct (dup_steps (a :: b :: l) [] ∅) as (l' & -> & Hs & Hn & Hx); [done|constructor|]. cbn [app] in *.
  split_and!; [done|done|]. intros x. rewrite Hx. set_solver.
Qed.

Lemma AllModules_NoDup : NoDup AllModulesInOrder.
Proof. apply (bool_decide_unpack _). by vm_compute. Qed.

Lemma bind_filter (args : list string) (l : list string) :
  NoDup args →
  (l ≫= λ o, a ← args; if decide (o = a) then [o] else []) = filter (λ o, o ∈ args) l.
Proof.
  intros Hn. assert (∀ o, (a ← args; if decide (o = a) then [o] else []) = if decide (o ∈ args) then [o] else []) as E.
  { intros o. induction Hn as [|a args Ha Hn IH]; [done|]. cbn [mbind list_bind]. cbn in IH. rewrite IH.
    destruct (decide (o = a)) as [->|Hne]; [rewrite decide_False by done; rewrite decide_True by left; done|].
    cbn [app]. apply decide_ext. set_solver. }
  induction l as [|o l IH]; [done|]. cbn [mbind list_bind]. rewrite E, filter_cons. cbn in IH. rewrite IH. by case_decide.
Qed.

Lemma filter_same (P Q : string → Prop) `{∀ x, Decision (P x)} `{∀ x, Decision (Q x)} (l : list string) :
  (∀ x, x ∈ l → P x ↔ Q x) → filter P l = filter Q l.
Proof.
  induction l as [|x l IH]; intros HPQ; [done|]. rewrite !filter_cons, IH by (intros y Hy; apply HPQ; by right).
  apply decide_ext. apply HPQ. by left.
Qed.

Lemma append_missing (args acc : list string) :
  NoDup args →
  foldl (λ acc a, if decide (a ∈ acc) then acc else acc ++ [a]) acc args = acc ++ filter (λ a, a ∉ acc) args.
Proof.
  intros Hn. revert acc. induction Hn as [|a args Ha Hn IH]; intros acc; cbn [foldl]; [by rewrite app_nil_r|].
  rewrite IH, filter_cons. destruct (decide (a ∈ acc)) as [Hin|Hout].
  - by rewrite decide_False by auto.
  - rewrite decide_True by done. rewrite <- app_assoc. cbn [app]. do 2 f_equal. apply filter_same. intros x Hx. set_solver.
Qed.

(** The modules that are known in the order of deployment, then the others as they were named. *)
Lemma PreqOrder_spec args :
  NoDup args →
  PreqOrder args = filter (λ o, o ∈ args) AllModulesInOrder ++ filter (λ a, a ∉ AllModulesInOrder) args.
Proof.
  intros Hn. unfold PreqOrder. rewrite bind_filter, append_missing by done. f_equal. apply filter_same.
  intros x Hx. rewrite list_elem_of_filter. tauto.
Qed.

(** ** Starting *)

Lemma tick_before_timeout made got now : got <= now → tick_time made got now < now + 1000.
Proof.
  intros Hg. unfold tick_time. pose proof (Z.mul_div_le (got - made) 100). lia.
Qed.

Section start.
#[local] Set Default Proof Using "Type*".
Context {O : Type} `{MachineLaws O} (wd : result string).
Implicit Types c : cli O.

Lemma setPid_spec name c :
  let c' := setPid name c in
  clock c.(os) <= clock c'.(os) ∧ c'.(execs) = c.(execs) ∧ c'.(printed) = c.(printed) ∧
  at_key c'.(PidOf) name = TrimSpace (pgrep (at_key ModuleApps name) c.(os)).1.
Proof.
  unfold setPid, on_os. pose proof (clock_pgrep (at_key ModuleApps name) c.(os)) as Hc.
  destruct (pgrep _ _) as [output o]. cbn in *. split_and!; [done..|]. unfold at_key. by rewrite lookup_insert_eq.
Qed.

Lemma Pid_spec name c :
  let c' := (Pid name c).2 in clock c.(os) <= clock c'.(os) ∧ c'.(execs) = c.(execs) ∧ c'.(printed) = c.(printed).
Proof.
  unfold Pid. destruct (decide _); cbn [snd]; [|split_and!; done || lia].
  by destruct (setPid_spec name c) as (? & ? & ? & _).
Qed.

Lemma IsRunning_spec name c up c' :
  IsRunning name c = (up, c') →
  clock c.(os) <= clock c'.(os) ∧ c'.(execs) = c.(execs) ∧ c'.(printed) = c.(printed) ∧
  ((∀ o, TrimSpace (pgrep (at_key ModuleApps name) o).1 = "") → up = false).
Proof.
  unfold IsRunning. destruct (setPid_spec name c) as (H1 & H2 & H3 & H4).
  pose proof (Pid_spec name (setPid name c)) as HP. unfold Pid in *.
  destruct (decide (at_key (PidOf (setPid name c)) name = NOT_SET)) as [Hs|Hs]; cbn in HP; intros [= <- <-].
  - destruct HP as (P1 & P2 & P3). split_and!; [lia|congruence..|].
    intros Hno. rewrite H4, Hno in Hs. done.
  - split_and!; [done..|]. intros Hno. by rewrite H4, Hno.
Qed.

(** Whatever it waits for, [isStarted] does not give up. *)
Lemma await_up fuel made got name c up c' :
  got <= clock c.(os) → await fuel made got name c = Some (up, c') →
  up = true ∧ c'.(execs) = c.(execs) ∧ c'.(printed) = c.(printed).
Proof.
  revert got c. induction fuel as [|fuel IH]; intros got c Hg; cbn [await]; [done|].
  set (tick := tick_time made got (clock c.(os))).
  pose proof (tick_before_timeout made got _ Hg) as Ht. fold tick in Ht.
  destruct (Z.ltb_spec tick (clock c.(os) + 1000)); [|lia].
  destruct (IsRunning name (with_os (wait_until tick c.(os)) c)) as [b c1] eqn:E.
  apply IsRunning_spec in E as (Hc & He & Hp & _). cbn in Hc, He, Hp. rewrite clock_wait in Hc.
  destruct b; [by intros [= <- <-]|]. intros E. apply IH in E; [|lia]. by rewrite <- He, <- Hp.
Qed.

(** And it waits for ever for a module that does not come up. *)
Lemma await_never fuel made got name c :
  got <= clock c.(os) → (∀ o : O, TrimSpace (pgrep (at_key ModuleApps name) o).1 = "") →
  await fuel made got name c = None.
Proof.
  intros Hg Hno. revert got c Hg. induction fuel as [|fuel IH]; intros got c Hg; cbn [await]; [done|].
  set (tick := tick_time made got (clock c.(os))).
  pose proof (tick_before_timeout made got _ Hg) as Ht. fold tick in Ht.
  destruct (Z.ltb_spec tick (clock c.(os) + 1000)); [|lia].
  destruct (IsRunning name (with_os (wait_until tick c.(os)) c)) as [b c1] eqn:E.
  apply IsRunning_spec in E as (Hc & _ & _ & Hb). cbn in Hc. rewrite clock_wait in Hc.
  rewrite (Hb Hno). apply IH. lia.
Qed.

Lemma print_pid_execs name c :
  (print_pid name c).(execs) = c.(execs) ∧ ∃ line, (print_pid name c).(printed) = c.(printed) ++ [line].
Proof.
  unfold print_pid. pose proof (Pid_spec name c) as HP. destruct (Pid name c) as [pid c1]. destruct HP as (_ & He & Hp).
  cbn in *. split; [done|]. rewrite Hp. by eexists.
Qed.

Lemma execModule_execs co name c r c' :
  execModule wd co name c = (r, c') → c'.(execs) = c.(execs) ++ [name] ∧ c'.(printed) = c.(printed).
Proof.
  unfold execModule, openLogFile, on_os. destruct co.
  - destruct (run_console _ _ _). by intros [= <- <-].
  - destruct (MkdirAll _ _) as [[u|e] o]; [|by intros [= <- <-]].
    destruct (open_log _ _) as [[u'|e] o']; [|by intros [= <- <-]]. destruct (start_logged _ _ _ _). by intros [= <- <-].
Qed.

(** How the start of a module can end. *)
Inductive start_end (name : string) (c c' : cli O) : result unit → Prop :=
| ended_up line :
    checkStartReq wd name c = Ok tt → c'.(printed) = c.(printed) ++ [line] →
    (c'.(execs) = c.(execs) ∨ c'.(execs) = c.(execs) ++ [name]) → start_end name c c' (Ok tt)
| ended_refused e : checkStartReq wd name c = Err e → c' = c → start_end name c c' (Err e)
| ended_failed e :
    checkStartReq wd name c = Ok tt → c'.(printed) = c.(printed) → c'.(execs) = c.(execs) ++ [name] →
    (∃ co c1 c2, execModule wd co name c1 = (Err e, c2)) → start_end name c c' (Err e).

Lemma start_one_spec fuel co name c r c' : start_one wd fuel co name c = Some (r, c') → start_end name c c' r.
Proof.
  unfold start_one. destruct (checkStartReq wd name c) as [[]|e] eqn:Ec; [|intros [= <- <-]; by apply ended_refused].
  destruct (IsRunning name c) as [up c1] eqn:Er. pose proof (IsRunning_spec _ _ _ _ Er) as (_ & He1 & Hp1 & _).
  destruct up.
  { intros [= <- <-]. destruct (print_pid_execs name c1) as [He [line Hp]].
    apply (ended_up _ _ _ line); [done|by rewrite Hp, Hp1|left; by rewrite He, He1]. }
  destruct (execModule wd co name c1) as [rx c2] eqn:Ex. destruct (execModule_execs _ _ _ _ _ Ex) as [He2 Hp2].
  rewrite He1 in He2. rewrite Hp1 in Hp2. destruct rx as [u|e].
  - destruct (isStarted fuel name c2) as [[up c3]|] eqn:Es; cbn [mbind option_bind]; [|done].
    apply await_up in Es as (-> & He3 & Hp3); [|lia]. intros [= <- <-].
    destruct (print_pid_execs name c3) as [He [line Hp]].
    apply (ended_up _ _ _ line); [done|by rewrite Hp, Hp3, Hp2|right; by rewrite He, He3, He2].
  - intros [= <- <-]. apply ended_failed; [done..|]. by exists co, c1, c2.
Qed.

(** What is said of [start]: the modules up to the first error are taken in their
order; each executed at most once, and a line printed for each that is up. *)
Definition taken (names : list string) (c c' : cli O) (r : result unit) : Prop :=
  ∃ done rest started lines,
    names = done ++ rest ∧ started `sublist_of` done ++ take 1 rest ∧
    c'.(execs) = c.(execs) ++ started ∧ c'.(printed) = c.(printed) ++ lines ∧ length lines = length done ∧
    Forall (λ m, HasModule m = true) done ∧
    match r with
    | Ok _ => rest = []
    | Err e => ∃ m rest', rest = m :: rest' ∧
        ((∃ ci, checkStartReq wd m ci = Err e) ∨ ∃ co c1 c2, execModule wd co m c1 = (Err e, c2))
    end.

Lemma checked_module name c : checkStartReq wd name c = Ok tt → HasModule name = true.
Proof. unfold checkStartReq. by destruct (HasModule name). Qed.

Lemma each_start fuel co names c r c' :
  each_module (start_one wd fuel co) names c = Some (r, c') → taken names c c' r.
Proof.
  revert c. induction names as [|m names IH]; intros c; cbn [each_module].
  { intros [= <- <-]. exists [], [], [], []. rewrite !app_nil_r. split_and!; done || constructor. }
  destruct (start_one wd fuel co m c) as [[r1 c1]|] eqn:E; cbn [mbind option_bind]; [|done].
  apply start_one_spec in E. destruct E as [line Hck Hp He|e Hck ->|e Hck Hp He Hex].
  - intros (d & rest & started & lines & -> & Hs & He' & Hp' & Hl & Hd & Hr)%IH.
    exists (m :: d), rest, (if decide (c1.(execs) = c.(execs)) then started else m :: started), (line :: lines).
    split_and!; [done| | |by rewrite Hp', Hp, <- app_assoc|cbn; by rewrite Hl|constructor; [by eapply checked_module|done]|done].
    + cbn [app]. case_decide; by constructor.
    + rewrite He'. case_decide as Hc; [by rewrite Hc|]. destruct He as [?|He]; [done|]. by rewrite He, <- app_assoc.
  - intros [= <- <-]. exists [], (m :: names), [], []. rewrite !app_nil_r.
    split_and!; try done; [apply sublist_nil_l|]. exists m, names. split; [done|]. left. by exists c.
  - intros [= <- <-]. exists [], (m :: names), [m], []. rewrite !app_nil_r. split_and!; try done.
    exists m, names. split; [done|]. by right.
Qed.

(** A start takes its modules in order, those that are known first and in the
order of deployment if that is asked for, and all when none is named: the ones
before the first error are up, with a line printed for each, and no module is
executed twice or after the error; the error is that of a module or a
configuration file that is not there or of running the program, never that the
module failed to start. *)
Theorem start_correct fuel preq co args c r c' :
  start wd fuel preq co args c = Some (r, c') →
  taken (start_order preq args) c c' r ∧ NoDup (start_order preq args) ∧
  (args ≠ [] → ∀ m, m ∈ start_order preq args ↔ m ∈ args) ∧
  (preq = true → args ≠ [] → start_order preq args =
     filter (λ m, m ∈ args) AllModulesInOrder ++ filter (λ m, m ∉ AllModulesInOrder) (RmDup args)).
Proof.
  intros Hs. destruct (RmDup_spec args) as (Hn & _ & Hx).
  assert (args ≠ [] → PreqOrder (RmDup args) =
    filter (λ m, m ∈ args) AllModulesInOrder ++ filter (λ m, m ∉ AllModulesInOrder) (RmDup args)) as Hp.
  { intros _. rewrite PreqOrder_spec by done. f_equal. apply filter_same. intros. apply Hx. }
  assert (∀ l, l ≠ [] → or_all l = l) as Hor by by intros [].
  assert (args ≠ [] → ∀ m, m ∈ PreqOrder (RmDup args) ↔ m ∈ args) as Hpx.
  { intros Hne m. rewrite Hp by done. rewrite elem_of_app, !list_elem_of_filter, Hx.
    destruct (decide (m ∈ AllModulesInOrder)); tauto. }
  assert (∀ l : list string, args ≠ [] → (∀ m, m ∈ l ↔ m ∈ args) → l ≠ []) as Hne.
  { intros l Ha Hl ->. destruct args as [|a args]; [done|]. apply (not_elem_of_nil a), Hl. by left. }
  assert (NoDup (PreqOrder (RmDup args))) as Hnp.
  { rewrite PreqOrder_spec by done. apply NoDup_app. split; [apply NoDup_filter, AllModules_NoDup|]. split; [|by apply NoDup_filter].
    intros m [_ H1]%list_elem_of_filter [H2 _]%list_elem_of_filter. done. }
  split; [by eapply each_start|]. unfold start_order. split_and!.
  - destruct preq.
    + destruct (PreqOrder (RmDup args)) as [|x l]; [apply AllModules_NoDup|done].
    + destruct (RmDup args) as [|x l]; [apply AllModules_NoDup|done].
  - intros Ha m. destruct preq; rewrite Hor by (eapply Hne; eauto); auto.
  - intros -> Ha. rewrite Hor by (eapply Hne; eauto). by apply Hp.
Qed.

(** What is started and does not come up is waited for, however long. *)
Lemma start_waits fuel name c c1 c2 :
  checkStartReq wd name c = Ok tt → IsRunning name c = (false, c1) → execModule wd false name c1 = (Ok tt, c2) →
  (∀ o : O, TrimSpace (pgrep (at_key ModuleApps name) o).1 = "") →
  start wd fuel false false [name] c = None.
Proof.
  intros Hck Hr Hex Hno. unfold start, start_order. cbn [RmDup or_all each_module]. unfold start_one.
  rewrite Hck, Hr, Hex. unfold isStarted. by rewrite await_never by (done || lia).
Qed.
End start.

(** ** A small machine *)

(** Processes with their names and identifiers, and the programs that end at once. *)
Record box : Type := Box { at_ms : Z; procs : list (string * string); broken : list string }.
Definition base (path : string) : string := default "" (last (split "/" path)).
#[export] Instance box_machine : Machine box := {
  clock b := b.(at_ms);
  wait_until t b := Box (Z.max t b.(at_ms)) b.(procs) b.(broken);
  pgrep app b :=
    (String.concat "" ((λ p, p.2 +:+ String (ascii_of_nat 10) "") <$> filter (λ p, p.1 = app) b.(procs)),
     Box (b.(at_ms) + 5) b.(procs) b.(broken));
  has_file _ _ := true;
  run_console _ _ b := (Ok tt, b);
  MkdirAll _ b := (Ok tt, b);
  open_log _ b := (Ok tt, b);
  start_logged bin _ _ b :=
    (Ok tt, if decide (base bin ∈ b.(broken)) then b else Box b.(at_ms) (b.(procs) ++ [(base bin, "4711")]) b.(broken));
  kill_TERM pid b :=
    match Atoi pid with
    | Ok _ => (Ok tt, Box b.(at_ms) (filter (λ p, p.2 ≠ pid) b.(procs)) b.(broken))
    | Err e => (Err "exit status 1", b)
    end }.
#[export] Instance box_laws : MachineLaws box.
Proof. split; cbn; intros; lia. Qed.

Definition ex_cli (procs : list (string * string)) (broken : list string) : cli box :=
  Cli (Box 0 procs broken) PidOf_init [] [].

Lemma start_correct_witness :
  ∃ c', start (Ok "/opt") 3 true false ["judge"; "graph"; "judge"] (ex_cli [("falcon-judge", "7")] []) = Some (Ok tt, c') ∧
    c'.(execs) = ["graph"] ∧ c'.(printed) = ["[falcon-graph] 4711"; "[falcon-judge] 7"] ∧
    taken (Ok "/opt") ["graph"; "judge"] (ex_cli [("falcon-judge", "7")] []) c' (Ok tt).
Proof.
  destruct (start (Ok "/opt") 3 true false ["judge"; "graph"; "judge"] (ex_cli [("falcon-judge", "7")] [])) as [[r c']|] eqn:E;
    [|vm_compute in E; discriminate E].
  destruct (start_correct (Ok "/opt") 3 true false ["judge"; "graph"; "judge"] (ex_cli [("falcon-judge", "7")] []) r c' E) as [H _].
  vm_compute in E. injection E as <- <-. eexists. split; [reflexivity|]. split; [reflexivity|]. split; [reflexivity|exact H].
Defined.

(** A module that ends at once is waited for, though a second has long passed. *)
Example agent_waited_for :
  start (Ok "/opt") 50 false false ["agent"] (ex_cli [] ["falcon-agent"]) = None.
Proof. vm_compute. reflexivity. Qed.

(** Two processes that [pgrep -f] matches: their identifiers are one argument of [kill]. *)
Example two_pids :
  match stop ["hbs"] (ex_cli [("falcon-hbs", "7"); ("falcon-hbs", "9")] []) with Some (r, _) => r | None => Ok tt end =
  Err "exit status 1".
Proof. vm_compute. reflexivity. Qed.

(** The list of modules that the help begins with [all] has no module of that name. *)
Example start_all :
  match start (Ok "/opt") 3 false false ["all"] (ex_cli [] []) with Some (r, _) => r | None => Ok tt end =
  Err "all doesn't exist".
Proof. vm_compute. reflexivity. Qed.

Example restarted :
  match restart (Ok "/opt") 3 ["graph"] (ex_cli [("falcon-graph", "7")] []) with
  | Some (Ok _, c) => (c.(printed), c.(os).(at_ms) <? 2000)
  | _ => ([], true)
  end = (["[falcon-graph] down"; "[falcon-graph] 4711"], false).
Proof. vm_compute. reflexivity. Qed.

Example paths :
  Cfg (Ok "/opt/falcon") "agent" = "/opt/falcon/agent/config/cfg.json" ∧
  LogDir (Ok "/opt/falcon") "agent" = "/opt/falcon/agent/logs" ∧
  Rel (Ok "/opt/falcon") "/opt/falcon/agent/config/cfg.json" = "agent/config/cfg.json" ∧
  rel_path "/tmp" "/etc/open-falcon.conf" = "../etc/open-falcon.conf".
Proof. vm_compute. done. Qed.
