(* ===== verification/Push.v ===== *)
(** * Points over HTTP: from aggregator and nodata to transfer
(common/sdk/sender, modules/transfer/http/api.go, modules/agent/http/push.go,
modules/nodata/sender)

What aggregator computes and what nodata mocks goes to transfer as JSON over HTTP.
[aggregates_reach_transfer] follows the points of the cluster items into the
queues of transfer; [infinite_loses_batch] shows how one of them can lose the
others.  The HTTP connection is an argument: it carries a body to a handler and
an answer back. *)

From S2P Require Import Prelude GoFloat GoString Hash Tags Model Json Redis Containers Transfer ConnPool Gateway Regex Aggregator AggregatorSafety Agent AgentSafety AgentSync AgentPlugin.
From stdpp Require Import options.

(** ** The points as JSON *)

Definition json_meta_data_fields : list (field JsonMetaData.t) :=
  let mk := JsonMetaData.mk in [
  field_of "metric" JsonMetaData.Metric (λ x '(JsonMetaData.mk _ b c d e f g), mk x b c d e f g);
  field_of "endpoint" JsonMetaData.Endpoint (λ x '(JsonMetaData.mk a _ c d e f g), mk a x c d e f g);
  field_of "timestamp" JsonMetaData.Timestamp (λ x '(JsonMetaData.mk a b _ d e f g), mk a b x d e f g);
  field_of "step" JsonMetaData.Step (λ x '(JsonMetaData.mk a b c _ e f g), mk a b c x e f g);
  field_of "value" JsonMetaData.Value (λ x '(JsonMetaData.mk a b c d _ f g), mk a b c d x f g);
  field_of "counterType" JsonMetaData.CounterType (λ x '(JsonMetaData.mk a b c d e _ g), mk a b c d e x g);
  field_of "tags" JsonMetaData.Tags (λ x '(JsonMetaData.mk a b c d e f _), mk a b c d e f x) ].
#[export] Instance json_json_meta_data : Json JsonMetaData.t :=
  json_struct (JsonMetaData.mk "" "" 0 0 VOther "" "") json_meta_data_fields.

(** [json.Marshal] of a slice of points *)
Definition marshal_points (L : list JsonMetaData.t) : result json :=
  let j := JArray (json_enc <$> L) in
  if json_finite j then Ok j else Err errUnsupported.

(** ** HTTP *)

(** The answer to a request: its status and its body. *)
Record http_answer : Type := HttpAnswer { StatusCode : Z; Body : text }.
Definition http_Error (msg : string) (code : Z) : http_answer := HttpAnswer code (Text msg).

(** [RenderDataJson] of an answer of transfer *)
Definition RenderDataJson (r : TransferResponse) : http_answer :=
  HttpAnswer 200 (Encoded (JObject [("msg", JString "success");
    ("data", JObject [("Message", JString r.(Message)); ("Total", JInt r.(Transfer.Total));
                      ("Invalid", JInt r.(Invalid)); ("Latency", JInt r.(Latency))])])).

(** [api_push_datapoints] of transfer *)
Section transfer.
Context {R : Type} `{!NodeRing R} (JudgeNodeRing GraphNodeRing : R) (cfg : Transfer.config) (now elapsed : Z).

Definition api_push_datapoints (body : text) (st : Transfer.state) : go (http_answer * Transfer.state) :=
  if is_blank body then Ret (http_Error "blank body" 400, st)
  else
    match read_metrics body with
    | Err _ => Ret (http_Error "decode error" 400, st)
    | Ok metrics =>
        r ← Transfer.RecvMetricValues JudgeNodeRing GraphNodeRing cfg now metrics "http" elapsed st;
        Ret (RenderDataJson r.1, r.2)
    end.
End transfer.

(** The handler of [/v1/push] of agent: what it sends to transfer. *)
Definition agent_push (default_kvs : list (string * string)) (body : text) :
    go (http_answer * option (list (option MetricValue.t))) :=
  if is_blank body then Ret (http_Error "body is blank" 400, None)
  else
    match read_metrics body with
    | Err _ => Ret (http_Error "connot decode body" 400, None)
    | Ok metrics => batch ← SendToTransfer default_kvs metrics; Ret (HttpAnswer 200 (Text "success"), batch)
    end.

(** ** The clients *)

Section client.
(** The other side of the connection, with its state. *)
Context {S : Type} (post : text → S → go (result http_answer * S)).

Definition PostPush (L : list JsonMetaData.t) (s : S) : go (option error * S) :=
  match marshal_points L with
  | Err e => Ret (Some e, s)
  | Ok j =>
      r ← post (Encoded j) s;
      Ret (match r.1 with
           | Err e => Some e
           | Ok a => if decide (a.(StatusCode) = 200) then None else Some "status code != 200"
           end, r.2)
  end.

(** A turn of [startSender] with its post; an error is logged. *)
Definition sender_turn (q : list JsonMetaData.t) (s : S) : go (list JsonMetaData.t * S) :=
  r ← Sender.startSender_turn q;
  match r.1 : option (list JsonMetaData.t) with
  | None => Ret (r.2, s)
  | Some L => p ← PostPush L s; Ret (r.2, p.2)
  end.

(** [sendItemsToTransfer] of nodata *)
Definition sendItemsToTransfer (items : list JsonMetaData.t) (s : S) : go (Z * option error * S) :=
  let size := Z.of_nat (length items) in
  if size <? 1 then Ret (0, None, s)
  else
    match marshal_points items with
    | Err e => Ret (0, Some e, s)
    | Ok j =>
        r ← post (Encoded j) s;
        Ret (match r.1 with
             | Err e => (0, Some e)
             | Ok a => if decide (Z.quot a.(StatusCode) 100 = 2) then (size, None) else (0, Some "request failed")
             end, r.2)
    end.
End client.

(** A connection that carries every body and every answer. *)
Definition carried {S} (handler : text → S → go (http_answer * S)) (body : text) (s : S) : go (result http_answer * S) :=
  r ← handler body s; Ret (Ok r.1, r.2).

(** The runs of the workers of aggregator, one after the other: the item, the
time of its query and that of its push. *)
Definition run_workers (HostnamesByID : Z → result (list string)) (QueryLastPoints : list string → list string → result (list last_resp))
    (runs : list (Cluster.t * Z * Z)) (q : list JsonMetaData.t) : go (list JsonMetaData.t) :=
  go_foldl (λ q '(item, now, push_now), WorkerRun HostnamesByID QueryLastPoints item now push_now q) q runs.

(** ** Reading the points again *)

(** A point as transfer reads it. *)
Definition as_metric (md : JsonMetaData.t) : MetricValue.t :=
  MetricValue.mk md.(JsonMetaData.Endpoint) md.(JsonMetaData.Metric) md.(JsonMetaData.Value) md.(JsonMetaData.Step)
    md.(JsonMetaData.CounterType) md.(JsonMetaData.Tags) md.(JsonMetaData.Timestamp).

(** One field of a structure is read. *)
Ltac field_step H := lazymatch goal with
  | |- _ !! _ = Some _ => reflexivity
  | |- f_name _ = _ => reflexivity
  | |- _ => cbn [f_dec field_of]; rewrite H; reflexivity
  end.

Lemma decode_meta md f :
  number md.(JsonMetaData.Value) = Some f → int64 md.(JsonMetaData.Step) → int64 md.(JsonMetaData.Timestamp) →
  json_finite (json_enc md) = true ∧ Unmarshal (json_enc md) = Ok (Some (with_Value f (as_metric md))).
Proof.
  intros Hn Hs Ht. destruct md as [m e ts st v ty tg]. cbn [JsonMetaData.Value JsonMetaData.Step JsonMetaData.Timestamp] in *. split.
  - cbn. rewrite ?andb_true_r. destruct v; try done. cbn in *. by destruct (f64_is_finite f0).
  - assert (∀ o, json_dec o (json_enc v) = Ok (VFloat64 f)) as Hv.
    { intros o. destruct v; cbn in Hn |- *; repeat case_match; by simplify_eq. }
    change (Unmarshal (json_enc ?x)) with (a ← @json_dec MetricValue.t _ json_zero (json_enc x); Ok (Some a)).
    assert (@json_dec MetricValue.t _ json_zero (json_enc (JsonMetaData.mk m e ts st v ty tg)) =
      Ok (MetricValue.mk e m (VFloat64 f) st ty tg ts)) as ->; [|done].
    assert (names_ok metric_value_fields = true) as Hnames by (vm_compute; reflexivity).
    assert (∀ k i g x old j kvs,
      metric_value_fields !! i = Some g → g.(f_name) = k → g.(f_dec) old j = Ok x →
      struct_dec metric_value_fields old (JObject ((k, j) :: kvs)) = struct_dec metric_value_fields x (JObject kvs)) as Hstep.
    { intros k i g x old j kvs Eg <- Ex. unfold struct_dec. cbn [foldl mbind result_bind fst snd].
      by rewrite (find_field_own _ g Hnames (list_elem_of_lookup_2 _ _ _ Eg)), Ex. }
    change (json_dec json_zero (json_enc ?x)) with
      (struct_dec metric_value_fields (MetricValue.mk "" "" VOther 0 "" "" 0)
         (JObject [("metric", JString m); ("endpoint", JString e); ("timestamp", JInt ts); ("step", JInt st);
                   ("value", json_enc v); ("counterType", JString ty); ("tags", JString tg)])).
    assert (∀ z (o : Z), int64 z → json_dec o (JInt z) = Ok z) as Hint by (intros z o Hz; cbn; by rewrite decide_True).
    assert (∀ x o : string, json_dec o (JString x) = Ok x) as Hstr by done.
    erewrite (Hstep "metric" 1%nat) by field_step (Hstr m).
    erewrite (Hstep "endpoint" 0%nat) by field_step (Hstr e).
    erewrite (Hstep "timestamp" 6%nat) by field_step (λ o, Hint ts o Ht).
    erewrite (Hstep "step" 3%nat) by field_step (λ o, Hint st o Hs).
    erewrite (Hstep "value" 2%nat) by field_step Hv.
    erewrite (Hstep "counterType" 4%nat) by field_step (Hstr ty).
    erewrite (Hstep "tags" 5%nat) by field_step (Hstr tg).
    reflexivity.
Qed.

(** A point that transfer will take. *)
Record meta_ok (now' : Z) (md : JsonMetaData.t) : Prop := {
  mo_sendable : sendable [] (as_metric md);
  mo_complete : complete now' (as_metric md) }.

(** The point that transfer makes of it. *)
Definition received_meta (md : JsonMetaData.t) : MetaData.t := received_point ∅ (as_metric md).

Lemma posted_read now' L :
  Forall (meta_ok now') L → now' * 2 < 2 ^ 63 →
  ∃ j args, marshal_points L = Ok j ∧ read_metrics (Encoded j) = Ok args ∧
    foldl (recv_body now') ([], 0) args = (received_meta <$> L, 0).
Proof.
  intros HF Hn'. rewrite Forall_forall in HF.
  set (value_of := λ md, default f64_zero (number md.(JsonMetaData.Value))).
  assert (∀ md, md ∈ L → number md.(JsonMetaData.Value) = Some (value_of md) ∧ json_finite (json_enc md) = true ∧
    Unmarshal (json_enc md) = Ok (Some (with_Value (value_of md) (as_metric md)))) as Hd.
  { intros md Hmd. destruct (HF md Hmd) as [Hs Hc]. destruct (s_value _ _ Hs) as [f Hf]. destruct Hc. cbn in *.
    unfold value_of. rewrite Hf. split; [done|]. apply decode_meta; [done|unfold int64; lia..]. }
  exists (JArray (json_enc <$> L)), ((λ md, Some (with_Value (value_of md) (as_metric md))) <$> L). split_and!.
  - unfold marshal_points. cbn [json_finite]. rewrite (proj2 (forallb_forall _ _)); [done|].
    intros j Hj%list_elem_of_In. apply list_elem_of_fmap in Hj as (md & -> & Hx). by apply Hd.
  - cbn [read_metrics]. apply mapM_Ok, Forall2_fmap, Forall_Forall2_diag, Forall_forall. intros md Hmd. by apply Hd.
  - rewrite (recv_body_all now' _ (received_meta <$> L)); [done|].
    apply Forall2_fmap, Forall_Forall2_diag, Forall_forall. intros md Hmd. destruct (HF md Hmd) as [Hs Hc].
    assert (ranges ([] : list (string * string)) (∅ : tagmap)) as Hr by (unfold ranges; by rewrite map_to_list_empty).
    assert (tags_wf ∅) as Hwf by (intros k v Hk; by rewrite lookup_empty in Hk).
    pose proof (recv_sendable [] ∅ Hr Hwf now' _ _ Hs Hc (proj1 (Hd md Hmd)) Hn') as E.
    unfold received_meta. rewrite <- E. by destruct md.
Qed.

Lemma turn_takes_all q : q ≠ [] → (length q ≤ 200)%nat → Sender.startSender_turn q = Ret (Some (reverse q), []).
Proof.
  intros Hne Hl. unfold Sender.startSender_turn, Sender.PopBack, Sender.LIMIT.
  rewrite decide_False by (destruct q; [done|cbn; lia]).
  assert ((if Z.of_nat (length q) <? 200 then Z.of_nat (length q) else 200) = Z.of_nat (length q)) as -> by
    (destruct (Z.ltb_spec (Z.of_nat (length q)) 200); lia).
  destruct (Z.ltb_spec (Z.of_nat (length q)) 0); [lia|]. rewrite Nat2Z.id.
  pose proof (pop_n_app (length q) [] q eq_refl) as Ep. cbn [app] in Ep. rewrite Ep. cbn [mbind go_bind]. rewrite length_reverse.
  by rewrite decide_False by by destruct q.
Qed.

Section reach.
#[local] Set Default Proof Using "Type*".
Context {R : Type} `{!NodeRing R} (JudgeNodeRing GraphNodeRing : R) (cfg : Transfer.config) (now elapsed : Z).
Context (Hnow : 0 < now) (Hnow2 : now * 2 < 2 ^ 63).

(** The handler takes every point of such a body. *)
Lemma push_accepted L j st :
  Transfer.wired JudgeNodeRing GraphNodeRing cfg st → Forall (meta_ok now) L → marshal_points L = Ok j →
  ∃ a st', api_push_datapoints JudgeNodeRing GraphNodeRing cfg now elapsed (Encoded j) st = Ret (a, st') ∧
    a.(StatusCode) = 200 ∧ Transfer.queued JudgeNodeRing GraphNodeRing cfg true (received_meta <$> L) st st'.
Proof.
  intros Hw HF Ej. destruct (posted_read now L HF Hnow2) as (j' & args & Ej' & Ea & Ef).
  assert (j' = j) as -> by congruence.
  unfold api_push_datapoints. cbn [is_blank]. rewrite Ea. unfold Transfer.RecvMetricValues. rewrite Ef.
  match goal with |- context [push_items _ _ _ _ _ ?s] => set (st1 := s) end.
  destruct (push_items_spec JudgeNodeRing GraphNodeRing cfg true (received_meta <$> L) st1) as (st2 & -> & Hd).
  - by apply (wired_queues _ _ _ st).
  - apply Forall_fmap. eapply Forall_impl; [exact HF|]. intros md [_ []]. unfold item_ok, int64. cbn in *. lia.
  - cbn [mbind go_bind]. eexists _, _. split; [done|]. split; [done|]. by apply delivered_queued in Hd.
Qed.

Lemma sender_turn_accepted q st :
  Transfer.wired JudgeNodeRing GraphNodeRing cfg st → q ≠ [] → (length q ≤ 200)%nat → Forall (meta_ok now) q →
  ∃ st', sender_turn (carried (api_push_datapoints JudgeNodeRing GraphNodeRing cfg now elapsed)) q st = Ret ([], st') ∧
    Transfer.queued JudgeNodeRing GraphNodeRing cfg true (received_meta <$> reverse q) st st'.
Proof.
  intros Hw Hne Hl HF. unfold sender_turn. rewrite turn_takes_all by done. cbn [mbind go_bind fst snd].
  assert (Forall (meta_ok now) (reverse q)) as HF' by by apply Forall_reverse.
  destruct (posted_read now (reverse q) HF' Hnow2) as (j & _ & Ej & _).
  unfold PostPush. rewrite Ej. unfold carried.
  destruct (push_accepted (reverse q) j st Hw HF' Ej) as (a & st' & -> & _ & Hq). cbn [mbind go_bind snd].
  by exists st'.
Qed.

(** What nodata mocks: a batch of [sendMock]. *)
Lemma mocks_accepted items st :
  Transfer.wired JudgeNodeRing GraphNodeRing cfg st → items ≠ [] → Forall (meta_ok now) items →
  ∃ st', sendItemsToTransfer (carried (api_push_datapoints JudgeNodeRing GraphNodeRing cfg now elapsed)) items st =
      Ret (Z.of_nat (length items), None, st') ∧
    Transfer.queued JudgeNodeRing GraphNodeRing cfg true (received_meta <$> items) st st'.
Proof.
  intros Hw Hne HF. unfold sendItemsToTransfer.
  destruct (Z.ltb_spec (Z.of_nat (length items)) 1); [destruct items; [done|cbn in *; lia]|].
  destruct (posted_read now items HF Hnow2) as (j & _ & Ej & _). rewrite Ej. unfold carried.
  destruct (push_accepted items j st Hw HF Ej) as (a & st' & -> & Ha & Hq). cbn [mbind go_bind fst snd]. rewrite Ha.
  by exists st'.
Qed.
End reach.

(** ** The runs of aggregator *)

(** The point that an item pushes. *)
Definition item_point (item : Cluster.t) (push_now : Z) (v : float64) : JsonMetaData.t :=
  JsonMetaData.mk item.(Cluster.Metric) item.(Cluster.Endpoint) push_now item.(Cluster.Step) (VFloat64 v)
    item.(Cluster.DsType) item.(Cluster.Tags).

Lemma WorkerRun_pushes H Q item now push_now q q' :
  WorkerRun H Q item now push_now q = Ret q' → q' = q ∨ ∃ v, q' = item_point item push_now v :: q.
Proof.
  unfold WorkerRun.
  repeat first
    [ progress intros [= <-]; by left
    | match goal with
      | |- (if ?b then _ else _) = _ → _ => destruct b
      | |- (x ← ?m; _) = _ → _ => destruct m; cbn [mbind go_bind]
      | |- match ?m with _ => _ end = _ → _ => destruct m
      | |- Panic _ = _ → _ => discriminate
      | |- Ret (Sender.Push _ _ _ _ _ _ _ _) = _ → _ => intros [= <-]; right; by eexists
      end ].
Qed.

(** What is asked of an item, for its point to be taken: a host, a name, a type
and a period, tags that are not too long, and a time that is not in the future. *)
Record item_fine (now' : Z) (item : Cluster.t) (push_now : Z) : Prop := {
  if_host : item.(Cluster.Endpoint) ≠ "";
  if_metric : item.(Cluster.Metric) ≠ "" ∧ item.(Cluster.Metric) ≠ "kernel.hostname";
  if_type : item.(Cluster.DsType) = GAUGE ∨ item.(Cluster.DsType) = COUNTER;
  if_step : 0 < item.(Cluster.Step) < 2 ^ 63;
  if_size : slen item.(Cluster.Metric) + slen item.(Cluster.Tags) <= 510;
  if_time : 0 < push_now <= now' * 2 }.

Lemma item_point_ok now' item push_now v :
  item_fine now' item push_now → f64_is_finite v = true → meta_ok now' (item_point item push_now v).
Proof.
  intros [] Hv. split; split; cbn; try done. rewrite Hv. by eexists.
Qed.

Lemma run_workers_points H Q runs q q' :
  run_workers H Q runs q = Ret q' →
  ∃ new, q' = new ++ q ∧ (length new ≤ length runs)%nat ∧
    Forall (λ md, ∃ item now push_now v, (item, now, push_now) ∈ runs ∧ md = item_point item push_now v) new.
Proof.
  unfold run_workers. revert q. induction runs as [|[[item now] push_now] runs IH]; intros q; cbn [go_foldl].
  { intros [= <-]. by exists []. }
  destruct (WorkerRun H Q item now push_now q) as [q1|p] eqn:E; cbn [mbind go_bind]; [|done].
  intros (new & -> & Hl & HF)%IH.
  assert (Forall (λ md, ∃ item0 now0 push_now0 v, (item0, now0, push_now0) ∈ (item, now, push_now) :: runs ∧
    md = item_point item0 push_now0 v) new) as HF'.
  { eapply Forall_impl; [exact HF|]. intros md (i & n & p & v & Hin & ->). exists i, n, p, v. split; [by right|done]. }
  destruct (WorkerRun_pushes _ _ _ _ _ _ _ E) as [->|[v ->]].
  - exists new. split_and!; [done|cbn; lia|done].
  - exists (new ++ [item_point item push_now v]). rewrite <- app_assoc, length_app. split_and!; [done|cbn; lia|].
    apply Forall_app. split; [done|]. constructor; [|done]. exists item, now, push_now, v. split; [by left|done].
Qed.

(** C7. From aggregator to transfer: the points that the cluster items push, which
have the host, name, tags, type and period of their item and the time of the push,
are posted in one body by the next turn of the sender, and transfer takes every
one of them and puts it into the queues to which its rings route it, provided that
each value is finite. *)
Theorem aggregates_reach_transfer {R} `{!NodeRing R} (JudgeNodeRing GraphNodeRing : R) cfg now' elapsed H Q runs q st :
  Transfer.wired JudgeNodeRing GraphNodeRing cfg st → 0 < now' → now' * 2 < 2 ^ 63 →
  run_workers H Q runs [] = Ret q → q ≠ [] → (length runs ≤ 200)%nat →
  (∀ item now push_now, (item, now, push_now) ∈ runs → item_fine now' item push_now) →
  Forall (λ md, is_Some (number md.(JsonMetaData.Value))) q →
  ∃ st', sender_turn (carried (api_push_datapoints JudgeNodeRing GraphNodeRing cfg now' elapsed)) q st = Ret ([], st') ∧
    Transfer.queued JudgeNodeRing GraphNodeRing cfg true (received_meta <$> reverse q) st st' ∧
    ∀ md, md ∈ q → ∃ item now push_now v, (item, now, push_now) ∈ runs ∧ md = item_point item push_now v ∧
      received_meta md = MetaData.mk item.(Cluster.Metric) item.(Cluster.Endpoint) push_now item.(Cluster.Step) v
        item.(Cluster.DsType) (DictedTagstring item.(Cluster.Tags)).
Proof.
  intros Hw Hn Hn2 Er Hne Hl Hf HF. destruct (run_workers_points H Q runs [] q Er) as (new & -> & Hln & Hp).
  rewrite app_nil_r in *. rewrite Forall_forall in HF, Hp.
  destruct (sender_turn_accepted JudgeNodeRing GraphNodeRing cfg now' elapsed Hn Hn2 new st Hw Hne) as (st' & -> & Hq); [lia| |].
  { apply Forall_forall. intros md Hmd. destruct (Hp md Hmd) as (item & now & push_now & v & Hin & ->).
    destruct (HF _ Hmd) as [f Hnum]. cbn in Hnum. destruct (f64_is_finite v) eqn:Ev; [|done].
    apply item_point_ok; [by eapply Hf|done]. }
  exists st'. split; [done|]. split; [done|]. intros md Hmd. destruct (Hp md Hmd) as (item & now & push_now & v & Hin & ->).
  exists item, now, push_now, v. split; [done|]. split; [done|]. unfold received_meta, received_point. cbn.
  destruct (HF _ Hmd) as [f Hnum]. cbn in Hnum. destruct (f64_is_finite v) eqn:Ev; [|done]. cbn. by rewrite (left_id_L ∅ (∪)).
Qed.

(** One point that is not finite, as when a sum is too large, and
none of the batch is sent; the queue is empty all the same. *)
Lemma infinite_loses_batch {S} (post : text → S → go (result http_answer * S)) q md s :
  md ∈ q → (length q ≤ 200)%nat → (∃ f, md.(JsonMetaData.Value) = VFloat64 f ∧ f64_is_finite f = false) →
  sender_turn post q s = Ret ([], s).
Proof.
  intros Hin Hl (f & Hv & Hf). unfold sender_turn. rewrite turn_takes_all by (by destruct q as [|]; [apply not_elem_of_nil in Hin|]).
  cbn [mbind go_bind fst snd]. unfold PostPush, marshal_points. cbn [json_finite].
  assert (forallb json_finite (json_enc <$> reverse q) = false) as ->; [|done].
  apply not_true_iff_false. intros H. rewrite forallb_forall in H.
  specialize (H (json_enc md)). assert (json_finite (json_enc md) = true) as Hj.
  { apply H, list_elem_of_In, list_elem_of_fmap. exists md. split; [done|]. by apply elem_of_reverse. }
  destruct md as [m e ts st v ty tg]. cbn in Hv. subst v. cbn in Hj. rewrite Hf in Hj. by rewrite ?andb_false_l in Hj.
Qed.

Definition ex_runs : list (Cluster.t * Z * Z) := [(ex_cluster, 1000, 1001)].

Lemma aggregates_reach_transfer_witness :
  ∃ q st' Q, run_workers (λ _, Ok ex_hosts) ex_api ex_runs [] = Ret q ∧
    sender_turn (carried (api_push_datapoints (ex_ring ["j0"]) (ex_ring ["g0"]) Transfer.ex_cfg 1001 0)) q Transfer.ex_state =
      Ret ([], st') ∧
    st'.(GraphQueues) !! "g0b:1" = Some Q ∧ GraphItem.Value <$> Q.(SafeListLimited.SL) = [f64_div (f64_of_Z 1) (f64_of_Z 2)].
Proof.
  destruct (aggregates_reach_transfer (ex_ring ["j0"]) (ex_ring ["g0"]) Transfer.ex_cfg 1001 0 (λ _, Ok ex_hosts) ex_api ex_runs
    [item_point ex_cluster 1001 (f64_div (f64_of_Z 1) (f64_of_Z 2))] Transfer.ex_state) as (st' & H1 & (_ & H2 & _) & _).
  - apply ex_wired.
  - lia.
  - lia.
  - vm_compute. reflexivity.
  - discriminate.
  - cbn. lia.
  - intros item now push_now [[= -> -> ->]|Hin%elem_of_nil]%elem_of_cons; [|destruct Hin].
    split; [discriminate|split; discriminate|left; reflexivity|cbn; lia|vm_compute; discriminate|lia].
  - constructor; [|constructor]. eexists. vm_compute. reflexivity.
  - destruct (H2 "g0b:1" (SafeListLimited.New Transfer.DefaultSendQueueMaxSize) eq_refl) as (Q' & HQ & HSL); [vm_compute; reflexivity|].
    exists [item_point ex_cluster 1001 (f64_div (f64_of_Z 1) (f64_of_Z 2))], st', Q'.
    split; [vm_compute; reflexivity|]. split; [exact H1|]. split; [exact HQ|]. rewrite HSL. vm_compute. reflexivity.
Defined.

(** The sum over two hosts may be infinite. *)
Example infinite_sum :
  let item := Cluster.mk 8 1 "$(cpu.busy)" "$#" "cluster" "busy" "" "GAUGE" 60 "2017-01-01" in
  let huge h := LastResp h "cpu.busy" (Some (RRDData.mk 990 (f64_of_decimal false 17 307))) in
  match run_workers (λ _, Ok ["a"; "b"]) (λ _ _, Ok [huge "a"; huge "b"]) [(item, 1000, 1001)] [] with
  | Ret [md] => match md.(JsonMetaData.Value) with VFloat64 f => f64_is_finite f | _ => true end
  | _ => true
  end = false.
Proof. vm_compute. reflexivity. Qed.

(** A body that is no JSON, and none. *)
Example bad_bodies :
  (r ← api_push_datapoints (ex_ring ["j0"]) (ex_ring ["g0"]) Transfer.ex_cfg 1001 0 (Text "[") Transfer.ex_state; Ret r.1) =
    Ret (http_Error "decode error" 400) ∧
  agent_push [] (Text "") = Ret (http_Error "body is blank" 400, None).
Proof. split; reflexivity. Qed.
