(* ===== verification/ApiModel.v ===== *)
(** * The rows of the api's databases (modules/api/app/model)

One [Module] per Go type, inside a module per package: [uic] (users, teams,
sessions), [f] (falcon_portal, named as the controllers do), [graph], [dashboard]
and [alm] (alarm).  [tname] names the tables and [db_of] their database, [row] is
the type of the rows of a table, [pk] its primary key (0 for the tables
without one that is a number, and for a row that was not saved), [unique] the text under a unique
key of the schema (scripts/mysql/db_schema; a key of two columns is one text).
The encoders give what [c.JSON] prints of a row: a password is never part of it. *)

From S2P Require Import Prelude GoFloat GoString Hash Tags Model Json.
From stdpp Require Import options.

#[export] Instance float64_eq_dec : EqDecision float64.
Proof. solve_decision. Defined.

Module uic.

Module User.
Record t : Set := mk {
  ID : Z; Name : string; Cnname : string; Passwd : string; Email : string;
  Phone : string; IM : string; QQ : string; Role : Z }.
#[global] Instance eq_dec : EqDecision t.
Proof. solve_decision. Defined.
(** [User{}] *)
Definition zero : t := mk 0 "" "" "" "" "" "" "" 0.
Definition with_ID (id : Z) '(mk _ b c d e f g h i : t) : t := mk id b c d e f g h i.
Definition with_Passwd (p : string) '(mk a b c _ e f g h i : t) : t := mk a b c p e f g h i.
Definition with_Role (r : Z) '(mk a b c d e f g h _ : t) : t := mk a b c d e f g h r.
(** The columns that the profile forms write. *)
Definition with_profile (cnname email phone im qq : string) '(mk a b _ d _ _ _ _ i : t) : t :=
  mk a b cnname d email phone im qq i.
Definition enc (u : t) : json := JObject [
  ("id", JInt u.(ID)); ("name", JString u.(Name)); ("cnname", JString u.(Cnname));
  ("email", JString u.(Email)); ("phone", JString u.(Phone)); ("im", JString u.(IM));
  ("qq", JString u.(QQ)); ("role", JInt u.(Role)) ].
End User.

Module Team.
Record t : Set := mk { ID : Z; Name : string; Resume : string; Creator : Z }.
#[global] Instance eq_dec : EqDecision t.
Proof. solve_decision. Defined.
Definition zero : t := mk 0 "" "" 0.
Definition with_ID (id : Z) '(mk _ b c d : t) : t := mk id b c d.
Definition enc_fields (t : t) : list (string * json) := [
  ("id", JInt t.(ID)); ("name", JString t.(Name)); ("resume", JString t.(Resume));
  ("creator", JInt t.(Creator)) ].
Definition enc (t : t) : json := JObject (enc_fields t).
End Team.

Module RelTeamUser.
Record t : Set := mk { ID : Z; Tid : Z; Uid : Z }.
#[global] Instance eq_dec : EqDecision t.
Proof. solve_decision. Defined.
Definition zero : t := mk 0 0 0.
Definition with_ID (id : Z) '(mk _ b c : t) : t := mk id b c.
End RelTeamUser.

Module Session.
Record t : Set := mk { ID : Z; Uid : Z; Sig : string; Expired : Z }.
#[global] Instance eq_dec : EqDecision t.
Proof. solve_decision. Defined.
Definition zero : t := mk 0 0 "" 0.
Definition with_ID (id : Z) '(mk _ b c d : t) : t := mk id b c d.
End Session.

End uic.

Module f.

Module Template.
Record t : Set := mk { ID : Z; Name : string; ParentID : Z; ActionID : Z; CreateUser : string }.
#[global] Instance eq_dec : EqDecision t.
Proof. solve_decision. Defined.
Definition zero : t := mk 0 "" 0 0 "".
Definition with_ID (id : Z) '(mk _ b c d e : t) : t := mk id b c d e.
Definition with_Name_Parent (n : string) (p : Z) '(mk a _ _ d e : t) : t := mk a n p d e.
Definition with_ActionID (x : Z) '(mk a b c _ e : t) : t := mk a b c x e.
Definition enc (x : t) : json := JObject [
  ("id", JInt x.(ID)); ("tpl_name", JString x.(Name)); ("parent_id", JInt x.(ParentID));
  ("action_id", JInt x.(ActionID)); ("create_user", JString x.(CreateUser)) ].
End Template.

Module Action.
Record t : Set := mk {
  ID : Z; UIC : string; URL : string; Callback : Z;
  BeforeCallbackSMS : Z; BeforeCallbackMail : Z; AfterCallbackSMS : Z; AfterCallbackMail : Z }.
#[global] Instance eq_dec : EqDecision t.
Proof. solve_decision. Defined.
Definition zero : t := mk 0 "" "" 0 0 0 0 0.
Definition with_ID (id : Z) '(mk _ b c d e f g h : t) : t := mk id b c d e f g h.
Definition enc (x : t) : json := JObject [
  ("id", JInt x.(ID)); ("uic", JString x.(UIC)); ("url", JString x.(URL));
  ("callback", JInt x.(Callback)); ("before_callback_sms", JInt x.(BeforeCallbackSMS));
  ("before_callback_mail", JInt x.(BeforeCallbackMail));
  ("after_callback_sms", JInt x.(AfterCallbackSMS));
  ("after_callback_mail", JInt x.(AfterCallbackMail)) ].
End Action.

Module Strategy.
Record t : Set := mk {
  ID : Z; Metric : string; Tags : string; MaxStep : Z; Priority : Z; Func : string; Op : string;
  RightValue : string; Note : string; RunBegin : string; RunEnd : string; TplId : Z }.
#[global] Instance eq_dec : EqDecision t.
Proof. solve_decision. Defined.
Definition zero : t := mk 0 "" "" 0 0 "" "" "" "" "" "" 0.
Definition with_ID (id : Z) '(mk _ b c d e f g h i j k l : t) : t := mk id b c d e f g h i j k l.
Definition enc (x : t) : json := JObject [
  ("id", JInt x.(ID)); ("metric", JString x.(Metric)); ("tags", JString x.(Tags));
  ("max_step", JInt x.(MaxStep)); ("priority", JInt x.(Priority)); ("func", JString x.(Func));
  ("op", JString x.(Op)); ("right_value", JString x.(RightValue)); ("note", JString x.(Note));
  ("run_begin", JString x.(RunBegin)); ("run_end", JString x.(RunEnd)); ("tpl_id", JInt x.(TplId)) ].
End Strategy.

Module Expression.
Record t : Set := mk {
  ID : Z; Expression : string; Func : string; Op : string; RightValue : string; MaxStep : Z;
  Priority : Z; Note : string; ActionId : Z; CreateUser : string; Pause : Z }.
#[global] Instance eq_dec : EqDecision t.
Proof. solve_decision. Defined.
Definition zero : t := mk 0 "" "" "" "" 0 0 "" 0 "" 0.
Definition with_ID (id : Z) '(mk _ b c d e f g h i j k : t) : t := mk id b c d e f g h i j k.
Definition enc (x : t) : json := JObject [
  ("id", JInt x.(ID)); ("expression", JString x.(Expression)); ("func", JString x.(Func));
  ("op", JString x.(Op)); ("right_value", JString x.(RightValue)); ("max_step", JInt x.(MaxStep));
  ("priority", JInt x.(Priority)); ("note", JString x.(Note)); ("action_id", JInt x.(ActionId));
  ("create_user", JString x.(CreateUser)); ("pause", JInt x.(Pause)) ].
End Expression.

Module Host.
Record t : Set := mk {
  ID : Z; Hostname : string; Ip : string; AgentVersion : string; PluginVersion : string;
  MaintainBegin : Z; MaintainEnd : Z }.
#[global] Instance eq_dec : EqDecision t.
Proof. solve_decision. Defined.
Definition zero : t := mk 0 "" "" "" "" 0 0.
Definition with_ID (id : Z) '(mk _ b c d e f g : t) : t := mk id b c d e f g.
Definition with_maintain (b e : Z) '(mk i h ip a p _ _ : t) : t := mk i h ip a p b e.
Definition enc (x : t) : json := JObject [
  ("id", JInt x.(ID)); ("hostname", JString x.(Hostname)); ("ip", JString x.(Ip));
  ("agent_version", JString x.(AgentVersion)); ("plugin_version", JString x.(PluginVersion));
  ("maintain_begin", JInt x.(MaintainBegin)); ("maintain_end", JInt x.(MaintainEnd)) ].
End Host.

Module HostGroup.
Record t : Set := mk { ID : Z; Name : string; CreateUser : string; ComeFrom : Z }.
#[global] Instance eq_dec : EqDecision t.
Proof. solve_decision. Defined.
Definition zero : t := mk 0 "" "" 0.
Definition with_ID (id : Z) '(mk _ b c d : t) : t := mk id b c d.
Definition enc (x : t) : json := JObject [
  ("id", JInt x.(ID)); ("grp_name", JString x.(Name)); ("create_user", JString x.(CreateUser)) ].
End HostGroup.

Module GrpHost.
Record t : Set := mk { GrpID : Z; HostID : Z }.
#[global] Instance eq_dec : EqDecision t.
Proof. solve_decision. Defined.
Definition zero : t := mk 0 0.
End GrpHost.

Module GrpTpl.
Record t : Set := mk { GrpID : Z; TplID : Z; BindUser : string }.
#[global] Instance eq_dec : EqDecision t.
Proof. solve_decision. Defined.
Definition zero : t := mk 0 0 "".
Definition enc (x : t) : json := JObject [
  ("grp_id", JInt x.(GrpID)); ("tpl_id", JInt x.(TplID)); ("bind_user", JString x.(BindUser)) ].
End GrpTpl.

Module Plugin.
Record t : Set := mk { ID : Z; GrpId : Z; Dir : string; CreateUser : string }.
#[global] Instance eq_dec : EqDecision t.
Proof. solve_decision. Defined.
Definition zero : t := mk 0 0 "" "".
Definition with_ID (id : Z) '(mk _ b c d : t) : t := mk id b c d.
Definition enc (x : t) : json := JObject [
  ("id", JInt x.(ID)); ("grp_id", JInt x.(GrpId)); ("dir", JString x.(Dir));
  ("create_user", JString x.(CreateUser)) ].
End Plugin.

Module Cluster.
Record t : Set := mk {
  ID : Z; GrpId : Z; Numerator : string; Denominator : string; Endpoint : string; Metric : string;
  Tags : string; DsType : string; Step : Z; Creator : string }.
#[global] Instance eq_dec : EqDecision t.
Proof. solve_decision. Defined.
Definition zero : t := mk 0 0 "" "" "" "" "" "" 0 "".
Definition with_ID (id : Z) '(mk _ b c d e f g h i j : t) : t := mk id b c d e f g h i j.
Definition enc (x : t) : json := JObject [
  ("id", JInt x.(ID)); ("grp_id", JInt x.(GrpId)); ("numerator", JString x.(Numerator));
  ("denominator", JString x.(Denominator)); ("endpoint", JString x.(Endpoint));
  ("metric", JString x.(Metric)); ("tags", JString x.(Tags)); ("ds_type", JString x.(DsType));
  ("step", JInt x.(Step)); ("creator", JString x.(Creator)) ].
End Cluster.

Module Mockcfg.
Record t : Set := mk {
  ID : Z; Name : string; Obj : string; ObjType : string; Metric : string; Tags : string;
  DsType : string; Step : Z; Mock : float64; Creator : string }.
#[global] Instance eq_dec : EqDecision t.
Proof. solve_decision. Defined.
Definition zero : t := mk 0 "" "" "" "" "" "" 0 f64_zero "".
Definition with_ID (id : Z) '(mk _ b c d e f g h i j : t) : t := mk id b c d e f g h i j.
Definition enc (x : t) : json := JObject [
  ("id", JInt x.(ID)); ("name", JString x.(Name)); ("obj", JString x.(Obj));
  ("obj_type", JString x.(ObjType)); ("metric", JString x.(Metric)); ("tags", JString x.(Tags));
  ("dstype", JString x.(DsType)); ("step", JInt x.(Step)); ("mock", JFloat x.(Mock));
  ("creator", JString x.(Creator)) ].
End Mockcfg.

End f.

(** The columns with the times of a row of the graph database are left out: no
handler reads them. *)
Module graph.

Module Endpoint.
Record t : Set := mk { ID : Z; Endpoint : string; Ts : Z }.
#[global] Instance eq_dec : EqDecision t.
Proof. solve_decision. Defined.
Definition with_ID (id : Z) '(mk _ b c : t) : t := mk id b c.
End Endpoint.

Module EndpointCounter.
Record t : Set := mk { ID : Z; EndpointID : Z; Counter : string; Step : Z; Type_ : string; Ts : Z }.
#[global] Instance eq_dec : EqDecision t.
Proof. solve_decision. Defined.
Definition with_ID (id : Z) '(mk _ b c d e f : t) : t := mk id b c d e f.
End EndpointCounter.

Module TagEndpoint.
Record t : Set := mk { ID : Z; Tag : string; EndpointID : Z; Ts : Z }.
#[global] Instance eq_dec : EqDecision t.
Proof. solve_decision. Defined.
Definition with_ID (id : Z) '(mk _ b c d : t) : t := mk id b c d.
End TagEndpoint.

End graph.

Module dashboard.

Module DashboardGraph.
Record t : Set := mk {
  ID : Z; Title : string; Hosts : string; Counters : string; ScreenId : Z; TimeSpan : Z;
  GraphType : string; Method : string; Position : Z; FalconTags : string }.
#[global] Instance eq_dec : EqDecision t.
Proof. solve_decision. Defined.
Definition zero : t := mk 0 "" "" "" 0 0 "" "" 0 "".
Definition with_ID (id : Z) '(mk _ b c d e f g h i j : t) : t := mk id b c d e f g h i j.
End DashboardGraph.

Module DashboardScreen.
Record t : Set := mk { ID : Z; PID : Z; Name : string }.
#[global] Instance eq_dec : EqDecision t.
Proof. solve_decision. Defined.
Definition with_ID (id : Z) '(mk _ b c : t) : t := mk id b c.
Definition enc (x : t) : json := JObject [
  ("id", JInt x.(ID)); ("pid", JInt x.(PID)); ("name", JString x.(Name)) ].
End DashboardScreen.

Module DashboardTmpGraph.
Record t : Set := mk { ID : Z; Endpoints : string; Counters : string; CK : string }.
#[global] Instance eq_dec : EqDecision t.
Proof. solve_decision. Defined.
Definition with_ID (id : Z) '(mk _ b c d : t) : t := mk id b c d.
End DashboardTmpGraph.

End dashboard.

(** A [*time.Time] is its seconds, if it is set.  A new note is kept as the handler
writes it, without the time that MySQL fills in. *)
Module alm.

Module EventCases.
Record t : Set := mk {
  ID : string; Endpoint : string; Metric : string; Func : string; Cond : string; Note : string;
  MaxStep : Z; CurrentStep : Z; Priority : Z; Status : string; Timestamp : option Z;
  UpdateAt : option Z; ClosedAt : option Z; ClosedNote : string; UserModified : Z; TplCreator : string;
  ExpressionId : Z; StrategyId : Z; TemplateId : Z; ProcessNote : Z; ProcessStatus : string }.
#[global] Instance eq_dec : EqDecision t.
Proof. solve_decision. Defined.
Definition with_process (n : Z) (s : string) '(mk a b c d e f g h i j k l m o p q r u v _ _ : t) : t :=
  mk a b c d e f g h i j k l m o p q r u v n s.
End EventCases.

Module Events.
Record t : Set := mk {
  ID : Z; EventCaseId : string; Step : Z; Cond : string; Status : Z; Timestamp : option Z }.
#[global] Instance eq_dec : EqDecision t.
Proof. solve_decision. Defined.
Definition with_ID (id : Z) '(mk _ b c d e f : t) : t := mk id b c d e f.
End Events.

Module EventNote.
Record t : Set := mk {
  ID : Z; EventCaseId : string; Note : string; CaseId : string; Status : string;
  Timestamp : option Z; UserId : Z }.
#[global] Instance eq_dec : EqDecision t.
Proof. solve_decision. Defined.
Definition with_ID (id : Z) '(mk _ b c d e f g : t) : t := mk id b c d e f g.
End EventNote.

End alm.

(** ** The tables *)

Inductive tname : Set :=
| user | team | rel_team_user | session
| tpl | action | strategy | expression | host | grp | grp_host | grp_tpl | plugin_dir | cluster
| mockcfg
| endpoint | endpoint_counter | tag_endpoint
| dashboard_graph | dashboard_screen | tmp_graph
| event_cases | events | event_note.
#[export] Instance tname_eq_dec : EqDecision tname.
Proof. solve_decision. Defined.

Definition row (t : tname) : Set :=
  match t with
  | user => uic.User.t | team => uic.Team.t | rel_team_user => uic.RelTeamUser.t
  | session => uic.Session.t
  | tpl => f.Template.t | action => f.Action.t | strategy => f.Strategy.t
  | expression => f.Expression.t | host => f.Host.t | grp => f.HostGroup.t
  | grp_host => f.GrpHost.t | grp_tpl => f.GrpTpl.t | plugin_dir => f.Plugin.t
  | cluster => f.Cluster.t | mockcfg => f.Mockcfg.t
  | endpoint => graph.Endpoint.t | endpoint_counter => graph.EndpointCounter.t
  | tag_endpoint => graph.TagEndpoint.t
  | dashboard_graph => dashboard.DashboardGraph.t | dashboard_screen => dashboard.DashboardScreen.t
  | tmp_graph => dashboard.DashboardTmpGraph.t
  | event_cases => alm.EventCases.t | events => alm.Events.t | event_note => alm.EventNote.t
  end.
#[export] Instance row_eq_dec t : EqDecision (row t).
Proof. destruct t; cbn [row]; apply _. Defined.

(** The databases of [config.DBPool], and the one that has a table. *)
Module DBPool.
Inductive t : Set := Falcon | Graph | Uic | Dashboard | Alarm.
#[global] Instance eq_dec : EqDecision t.
Proof. solve_decision. Defined.
End DBPool.

Definition db_of (t : tname) : DBPool.t :=
  match t with
  | user | team | rel_team_user | session => DBPool.Uic
  | endpoint | endpoint_counter | tag_endpoint => DBPool.Graph
  | dashboard_graph | dashboard_screen | tmp_graph => DBPool.Dashboard
  | event_cases | events | event_note => DBPool.Alarm
  | _ => DBPool.Falcon
  end.
Definition in_uic (t : tname) : bool := bool_decide (db_of t = DBPool.Uic).

(** Whether the model has a primary key for gorm that is a number: a field [ID]. *)
Definition has_pk (t : tname) : bool :=
  match t with grp_host | grp_tpl | event_cases => false | _ => true end.

Definition pk (t : tname) : row t → Z :=
  match t with
  | user => uic.User.ID | team => uic.Team.ID | rel_team_user => uic.RelTeamUser.ID
  | session => uic.Session.ID
  | tpl => f.Template.ID | action => f.Action.ID | strategy => f.Strategy.ID
  | expression => f.Expression.ID | host => f.Host.ID | grp => f.HostGroup.ID
  | grp_host => λ _, 0 | grp_tpl => λ _, 0 | plugin_dir => f.Plugin.ID
  | cluster => f.Cluster.ID | mockcfg => f.Mockcfg.ID
  | endpoint => graph.Endpoint.ID | endpoint_counter => graph.EndpointCounter.ID
  | tag_endpoint => graph.TagEndpoint.ID
  | dashboard_graph => dashboard.DashboardGraph.ID | dashboard_screen => dashboard.DashboardScreen.ID
  | tmp_graph => dashboard.DashboardTmpGraph.ID
  | event_cases => λ _, 0 | events => alm.Events.ID | event_note => alm.EventNote.ID
  end.

Definition with_pk (t : tname) : Z → row t → row t :=
  match t with
  | user => uic.User.with_ID | team => uic.Team.with_ID | rel_team_user => uic.RelTeamUser.with_ID
  | session => uic.Session.with_ID
  | tpl => f.Template.with_ID | action => f.Action.with_ID | strategy => f.Strategy.with_ID
  | expression => f.Expression.with_ID | host => f.Host.with_ID | grp => f.HostGroup.with_ID
  | grp_host => λ _ r, r | grp_tpl => λ _ r, r | plugin_dir => f.Plugin.with_ID
  | cluster => f.Cluster.with_ID | mockcfg => f.Mockcfg.with_ID
  | endpoint => graph.Endpoint.with_ID | endpoint_counter => graph.EndpointCounter.with_ID
  | tag_endpoint => graph.TagEndpoint.with_ID
  | dashboard_graph => dashboard.DashboardGraph.with_ID
  | dashboard_screen => dashboard.DashboardScreen.with_ID
  | tmp_graph => dashboard.DashboardTmpGraph.with_ID
  | event_cases => λ _ r, r | events => alm.Events.with_ID | event_note => alm.EventNote.with_ID
  end.

(** The unique keys of the schema, apart from the primary ones. *)
Definition unique (t : tname) : row t → option string :=
  match t with
  | user => λ u, Some u.(uic.User.Name) | team => λ x, Some x.(uic.Team.Name)
  | tpl => λ x, Some x.(f.Template.Name) | host => λ x, Some x.(f.Host.Hostname)
  | grp => λ x, Some x.(f.HostGroup.Name) | mockcfg => λ x, Some x.(f.Mockcfg.Name)
  | endpoint => λ x, Some x.(graph.Endpoint.Endpoint)
  | endpoint_counter => λ x, Some (Itoa x.(graph.EndpointCounter.EndpointID) +:+ "/" +:+ x.(graph.EndpointCounter.Counter))
  | tag_endpoint => λ x, Some (Itoa x.(graph.TagEndpoint.EndpointID) +:+ "/" +:+ x.(graph.TagEndpoint.Tag))
  | dashboard_screen => λ x, Some (Itoa x.(dashboard.DashboardScreen.PID) +:+ "/" +:+ x.(dashboard.DashboardScreen.Name))
  | tmp_graph => λ x, Some x.(dashboard.DashboardTmpGraph.CK)
  | event_cases => λ x, Some x.(alm.EventCases.ID)
  | _ => λ _, None
  end.

Lemma pk_with_pk t id r : has_pk t = true → pk t (with_pk t id r) = id.
Proof. destruct t; try done; by destruct r. Qed.

Lemma unique_with_pk t id r : unique t (with_pk t id r) = unique t r.
Proof. destruct t; try done; by destruct r. Qed.
