(* ===== verification/ApiDb.v ===== *)
(** * The api's database and its handlers

The controllers reach their five databases through gorm and MySQL, which are
not part of the program.  The interface [Sql] names the statements that reach
the server and [SqlLaws] what the handlers rely on: every statement may fail, a
failed one changes nothing, an insert gives a new key and respects the unique
keys, a transaction is on one database and is not seen before it commits.  The
data of a row are taken to fit their columns.
[text_eq] is how the server compares texts (its collation; not Go's [==]).

A handler is a computation [H]: it may answer and go on, answer and return, or
panic; what it wrote before stays written, as in the code.  [wp] is its weakest
precondition, with a rule per statement. *)

From S2P Require Import Prelude GoFloat GoString Hash Tags Model Json ApiModel.
From Stdlib Require Import Btauto.
From stdpp Require Import options.

(** The pool of connections, or the open transaction. *)
Inductive conn : Set := Pool | Tx.
#[global] Instance conn_eq_dec : EqDecision conn.
Proof. solve_decision. Defined.

(** The rows of every table, as one connection sees them. *)
Definition view : Type := ∀ t : tname, list (row t).
(** The condition of a statement on [t]; it may look into other tables. *)
Definition cond (t : tname) : Type := view → row t → bool.
Definition on {t} (p : row t → bool) : cond t := λ _, p.
Arguments on {t} & p _ _.

Definition errRecordNotFound : error := "record not found".

Class Sql (D : Type) := {
  content : conn → D → view;
  (* the database of the open transaction *)
  in_tx : D → option DBPool.t;
  text_eq : string → string → bool;
  regexp : string → string → bool;
  like : string → string → bool;
  (* a column of integers compared with a text *)
  num_eq : Z → string → bool;
  (* the key that the connection gave last *)
  last_id : conn → D → Z;
  Select : conn → ∀ t, cond t → D → result (list (row t)) * D;
  (* limit and offset; a negative limit is none *)
  SelectPage : conn → ∀ t, cond t → Z → Z → D → result (list (row t)) * D;
  (* one column without duplicates, limit and offset *)
  PluckDistinct : conn → ∀ t, (row t → Z) → cond t → Z → Z → D → result (list Z) * D;
  (* the pairs of rows of two tables, and a limit *)
  SelectJoin : conn → ∀ t1 t2, (row t1 → row t2 → bool) → Z → D → result (list (row t1 * row t2)) * D;
  (* a statement whose text the handler puts together *)
  RawSelect : ∀ t, string → D → result (list (row t)) * D;
  Insert : conn → ∀ t, row t → D → result (row t) * D;
  InsertIgnore : conn → ∀ t, row t → D → result unit * D;
  LastInsertId : conn → D → result Z * D;
  Update : conn → ∀ t, cond t → (row t → row t) → D → result Z * D;
  Delete : conn → ∀ t, cond t → D → result Z * D;
  Begin : DBPool.t → D → result unit * D;
  Commit : D → result unit * D;
  Rollback : D → D }.

(** ** What the handlers rely on *)

Section laws.
Context `{Sql D}.

(** Two rows that cannot both be in a table. *)
Definition conflict (t : tname) (a b : row t) : bool :=
  has_pk t && bool_decide (pk t a = pk t b)
  || match unique t a, unique t b with Some x, Some y => text_eq x y | _, _ => false end.

Fixpoint apart (t : tname) (l : list (row t)) : bool :=
  match l with
  | [] => true
  | a :: l => forallb (λ b, negb (conflict t a b)) l && apart t l
  end.

Definition same (d d' : D) : Prop := in_tx d' = in_tx d ∧ ∀ c, content c d' = content c d.

(** Only table [t] of connection [c] may differ. *)
Definition frame (c : conn) (t : tname) (d d' : D) : Prop :=
  in_tx d' = in_tx d ∧ ∀ c' t', (c', t') ≠ (c, t) → content c' d' t' = content c' d t'.

Definition usable (c : conn) (t : tname) (d : D) : bool :=
  match c with Pool => true | Tx => bool_decide (in_tx d = Some (db_of t)) end.

(** LIMIT and OFFSET *)
Definition page {A} (limit offset : Z) (l : list A) : list A :=
  if limit <? 0 then l else take (Z.to_nat limit) (drop (Z.to_nat offset) l).

(** [x] is what becomes of [x0] when it is inserted into [l]. *)
Definition inserted (t : tname) (x0 x : row t) (l : list (row t)) : Prop :=
  (if bool_decide (pk t x0 = 0) then ∃ id, x = with_pk t id x0 else x = x0) ∧
  (has_pk t = true → 0 < pk t x) ∧ forallb (λ b, negb (conflict t x b)) l = true.

End laws.

Class SqlLaws (D : Type) `{Sql D} : Prop := {
  text_eq_equiv : Equivalence (λ a b, text_eq a b = true);
  num_eq_Itoa m n : num_eq m (Itoa n) = bool_decide (m = n);
  Select_law c t p d r d' : Select c t p d = (r, d') →
    same d d' ∧ r ≠ Err errRecordNotFound ∧ ∀ l, r = Ok l →
      usable c t d = true ∧ l ≡ₚ List.filter (p (content c d)) (content c d t);
  SelectPage_law c t p limit offset d r d' : SelectPage c t p limit offset d = (r, d') →
    same d d' ∧ r ≠ Err errRecordNotFound ∧ ∀ l, r = Ok l → usable c t d = true ∧
      ∃ l', l' ≡ₚ List.filter (p (content c d)) (content c d t) ∧ l = page limit offset l';
  PluckDistinct_law c t f p limit offset d r d' : PluckDistinct c t f p limit offset d = (r, d') →
    same d d' ∧ ∀ l, r = Ok l → usable c t d = true ∧
      ∃ l', l' ≡ₚ remove_dups (f <$> List.filter (p (content c d)) (content c d t)) ∧ l = page limit offset l';
  SelectJoin_law c t1 t2 p limit d r d' : SelectJoin c t1 t2 p limit d = (r, d') →
    same d d' ∧ ∀ l, r = Ok l → usable c t1 d = true ∧ usable c t2 d = true ∧
      ∃ l', l' ≡ₚ List.filter (λ x, p x.1 x.2) (list_prod (content c d t1) (content c d t2)) ∧ l = page limit 0 l';
  RawSelect_law t s d r d' : RawSelect t s d = (r, d') → same d d';
  Insert_law c t x0 d r d' : Insert c t x0 d = (r, d') →
    match r with
    | Err _ => same d d'
    | Ok x => usable c t d = true ∧ inserted t x0 x (content c d t) ∧
              content c d' t ≡ₚ x :: content c d t ∧ frame c t d d'
    end;
  Insert_last_id c t x0 d x d' : Insert c t x0 d = (Ok x, d') → has_pk t = true → last_id c d' = pk t x;
  InsertIgnore_law c t x0 d r d' : InsertIgnore c t x0 d = (r, d') →
    same d d' ∧ (r = Ok tt → usable c t d = true ∧ ∃ y, y ∈ content c d t ∧ conflict t x0 y = true) ∨
    r = Ok tt ∧ usable c t d = true ∧ ∃ x, inserted t x0 x (content c d t) ∧
      content c d' t ≡ₚ x :: content c d t ∧ frame c t d d';
  LastInsertId_law c d r d' : LastInsertId c d = (r, d') →
    same d d' ∧ ∀ n, r = Ok n → n = last_id c d;
  Update_law c t p f d r d' : Update c t p f d = (r, d') →
    match r with
    | Err _ => same d d'
    | Ok n => usable c t d = true ∧ frame c t d d' ∧
        content c d' t ≡ₚ (λ x, if p (content c d) x then f x else x) <$> content c d t ∧
        (apart t (content c d t) = true → apart t (content c d' t) = true) ∧
        n = Z.of_nat (length (List.filter (λ x, p (content c d) x && bool_decide (f x ≠ x)) (content c d t)))
    end;
  Delete_law c t p d r d' : Delete c t p d = (r, d') →
    match r with
    | Err _ => same d d'
    | Ok n => usable c t d = true ∧ frame c t d d' ∧
        content c d' t ≡ₚ List.filter (λ x, negb (p (content c d) x)) (content c d t) ∧
        n = Z.of_nat (length (List.filter (p (content c d)) (content c d t)))
    end;
  Begin_law b d r d' : Begin b d = (r, d') →
    (∀ t, content Pool d' t = content Pool d t) ∧
    match r with
    | Err _ => in_tx d' = None
    | Ok _ => in_tx d' = Some b ∧ ∀ t, db_of t = b → content Tx d' t = content Pool d t
    end;
  Commit_law d r d' : Commit d = (r, d') →
    in_tx d' = None ∧
    match r with
    | Err _ => ∀ t, content Pool d' t = content Pool d t
    | Ok _ => ∃ b, in_tx d = Some b ∧
        ∀ t, content Pool d' t = if decide (db_of t = b) then content Tx d t else content Pool d t
    end;
  Rollback_law d : in_tx (Rollback d) = None ∧ ∀ t, content Pool (Rollback d) t = content Pool d t }.

(** ** Requests, answers and handlers *)

(** The values of the configuration that the modelled handlers read, and the
identifiers that [uuid.NewV1] gives. *)
Class Settings := {
  access_control : bool; skip_auth : bool; signup_disable : bool;
  default_token : string; salt : string;
  NewV1 : nat → string; now : nat → Z;
  (* Go's regexp.MatchString, for a pattern of the request *)
  MatchString : string → string → result bool;
  (* how [c.JSON] prints a time: RFC 3339, in the zone of the server *)
  time_text : Z → string }.

Definition StatusOK : Z := 200.
Definition StatusBadRequest : Z := 400.
Definition StatusUnauthorized : Z := 401.
Definition StatusExpectationFailed : Z := 417.
Notation badstatus := StatusBadRequest.
Notation expecstatus := StatusExpectationFailed.

Definition response : Type := Z * json.

(** What is handed to [JSONR]: a string, an error, nil, or a value. *)
Inductive msg : Type :=
| MString (s : string)
| MError (e : error)
| MNil
| MValue (j : json).

(** [RespJson]: an empty field is omitted. *)
Definition RespJson (field s : string) : json :=
  JObject (if decide (s = "") then [] else [(field, JString s)]).

Definition JSONR (wcode : Z) (m : msg) : response :=
  if decide (wcode = StatusOK) then
    match m with
    | MString s => (StatusOK, RespJson "message" s)
    | MError _ => (StatusOK, JObject [])
    | MNil => (StatusOK, JNull)
    | MValue j => (StatusOK, j)
    end
  else
    match m with
    | MString s => (wcode, RespJson "error" s)
    | MError e => (wcode, RespJson "error" e)
    | _ => (wcode, RespJson "error" "system type error. please ask admin for help")
    end.

(** What [c.Bind] leaves in the structure, and its error: what was decoded stays
when the validation fails. *)
Record bound (A : Type) : Type := Bound { inputs : A; bind_err : option error }.
Arguments Bound {A} _ _. Arguments inputs {A} _. Arguments bind_err {A} _.

Inductive step (A : Type) : Type :=
| Next (a : A)
| Return
| Panicked (p : panic).
Arguments Next {A} _. Arguments Return {A}. Arguments Panicked {A} _.

Record world (D : Type) : Type := World { db : D; resps : list response; ticks : nat }.
Arguments World {D} _ _ _. Arguments db {D} _. Arguments resps {D} _. Arguments ticks {D} _.

Definition H (D A : Type) : Type := world D → step A * world D.

#[global] Instance H_ret {D} : MRet (H D) := λ A a w, (Next a, w).
#[global] Instance H_bind {D} : MBind (H D) := λ A B k m w,
  match m w with
  | (Next a, w) => k a w
  | (Return, w) => (Return, w)
  | (Panicked p, w) => (Panicked p, w)
  end.

Section handlers.
Context `{Sql D}.
Notation H := (H D).

Definition with_db (d : D) (w : world D) : world D := World d w.(resps) w.(ticks).
Definition run {A} (f : D → A * D) : H A := λ w, let '(a, d) := f w.(db) in (Next a, with_db d w).

(** [h.JSONR(c, code, m)] without, and with the [return] that follows. *)
Definition answer (code : Z) (m : msg) : H () :=
  λ w, (Next tt, World w.(db) (w.(resps) ++ [JSONR code m]) w.(ticks)).
Definition return_ {A} : H A := λ w, (Return, w).
Definition reply {A} (code : Z) (m : msg) : H A := answer code m ;; return_.

(** Reading the clock or making an identifier. *)
Definition tick : H nat := λ w, (Next w.(ticks), World w.(db) w.(resps) (S w.(ticks))).
Definition panic_ {A} (p : panic) : H A := λ w, (Panicked p, w).

(** [if err != nil { h.JSONR(c, code, err); return }] *)
Definition check {A} (code : Z) (r : result A) : H A :=
  match r with Ok a => mret a | Err e => reply code (MError e) end.
Definition check_bind {A} (code : Z) (b : bound A) : H A :=
  match b.(bind_err) with None => mret b.(inputs) | Some e => reply code (MError e) end.

(** ** gorm's methods *)

Definition find_all (c : conn) (t : tname) (p : cond t) : H (result (list (row t))) := run (Select c t p).

Definition find_page (c : conn) (t : tname) (p : cond t) (limit offset : Z) : H (result (list (row t))) :=
  run (SelectPage c t p limit offset).

(** [Find] and [Scan] into a structure: every row is scanned into it, the last
one stays. *)
Definition find (c : conn) (t : tname) (p : cond t) : H (result (row t)) :=
  r ← find_all c t p;
  mret (l ← r; match last l with Some x => Ok x | None => Err errRecordNotFound end).

(** [First]: ordered by the primary key, limited to one. *)
Fixpoint least (t : tname) (l : list (row t)) : option (row t) :=
  match l with
  | [] => None
  | a :: l => match least t l with
              | Some b => Some (if pk t a <=? pk t b then a else b)
              | None => Some a
              end
  end.
Definition first (c : conn) (t : tname) (p : cond t) : H (result (row t)) :=
  r ← find_all c t p;
  mret (l ← r; match least t l with Some x => Ok x | None => Err errRecordNotFound end).

(** The condition on the primary key of a structure that is handed in: none
when it is blank. *)
Definition by_pk (t : tname) (x y : row t) : bool :=
  bool_decide (pk t x = 0) || bool_decide (pk t y = pk t x).
Definition by_id (t : tname) (id : Z) (y : row t) : bool := bool_decide (pk t y = id).
(** [X{ID: id}] *)
Definition by_struct (t : tname) (id : Z) (y : row t) : bool := bool_decide (id = 0) || by_id t id y.

Definition create (c : conn) (t : tname) (x : row t) : H (result (row t)) := run (Insert c t x).
Definition update (c : conn) (t : tname) (p : cond t) (f : row t → row t) : H (result Z) :=
  run (Update c t p f).
Definition delete_from (c : conn) (t : tname) (p : cond t) : H (result Z) := run (Delete c t p).

(** [Save]: an insert when the primary key is blank; otherwise an update, and
[FirstOrCreate] when it changed nothing.  The answer is the structure and
the number of rows. *)
Definition save (c : conn) (t : tname) (x : row t) : H (result (row t * Z)) :=
  if decide (pk t x = 0) then
    r ← create c t x; mret (x ← r; Ok (x, 1))
  else
    r ← update c t (on (by_id t (pk t x))) (λ _, x);
    match r with
    | Err e => mret (Err e)
    | Ok n =>
        if decide (n = 0) then
          r ← first c t (on (by_id t (pk t x)));
          match r with
          | Ok y => mret (Ok (y, 0))
          | Err e =>
              if decide (e = errRecordNotFound) then r ← create c t x; mret (x ← r; Ok (x, 1))
              else mret (Err e)
          end
        else mret (Ok (x, n))
    end.

Definition begin (b : DBPool.t) : H (result unit) := run (Begin b).
Definition commit : H (result unit) := run Commit.
Definition rollback : H () := run (λ d, (tt, Rollback d)).

(** [if dt.Error != nil { h.JSONR(c, code, dt.Error); tx.Rollback(); return }] *)
Definition check_tx {A} (code : Z) (r : result A) : H A :=
  match r with
  | Ok a => mret a
  | Err e => answer code (MError e) ;; rollback ;; return_
  end.
Definition reply_tx {A} (code : Z) (m : msg) : H A := answer code m ;; rollback ;; return_.

(** A loop over a slice. *)
Fixpoint each {A} (l : list A) (f : A → H ()) : H () :=
  match l with [] => mret tt | a :: l => f a ;; each l f end.

End handlers.

(** ** The weakest precondition of a handler

[wp m Φ Ψ w]: from [w], either [m] goes on with a result that satisfies [Φ], or
the handler is over and the world satisfies [Ψ]. *)

Section wp.
Context `{Sql D} {L : SqlLaws D}.
#[local] Set Default Proof Using "Type L".
Notation H := (H D).
Implicit Types (w : world D) (Ψ : world D → Prop).

Definition wp {A} (m : H A) (Φ : A → world D → Prop) Ψ w : Prop :=
  match m w with (Next a, w') => Φ a w' | (_, w') => Ψ w' end.

Lemma wp_ret {A} (a : A) Φ Ψ w : Φ a w → wp (mret a) Φ Ψ w.
Proof. done. Qed.

Lemma wp_bind {A B} (m : H A) (k : A → H B) Φ Ψ w :
  wp m (λ a w', wp (k a) Φ Ψ w') Ψ w → wp (m ≫= k) Φ Ψ w.
Proof. unfold wp, mbind, H_bind. by destruct (m w) as [[a| |q] w']. Qed.

Lemma wp_mono {A} (m : H A) (Φ Φ' : A → world D → Prop) (Ψ Ψ' : world D → Prop) w :
  wp m Φ Ψ w → (∀ a w', Φ a w' → Φ' a w') → (∀ w', Ψ w' → Ψ' w') → wp m Φ' Ψ' w.
Proof. unfold wp. destruct (m w) as [[a| |q] w']; naive_solver. Qed.

Lemma wp_return {A} Φ Ψ w : Ψ w → wp (A := A) return_ Φ Ψ w.
Proof. done. Qed.

Lemma wp_panic {A} p Φ Ψ w : Ψ w → wp (A := A) (panic_ p) Φ Ψ w.
Proof. done. Qed.

Lemma wp_answer code m Φ Ψ w :
  (∀ w', w'.(db) = w.(db) → Φ tt w') → wp (answer code m) Φ Ψ w.
Proof. unfold wp, answer. auto. Qed.

Lemma wp_reply {A} code m Φ Ψ w : (∀ w', w'.(db) = w.(db) → Ψ w') → wp (A := A) (reply code m) Φ Ψ w.
Proof. intros HΨ. unfold reply. apply wp_bind, wp_answer. intros w' E. by apply wp_return, HΨ. Qed.

Lemma wp_tick Φ Ψ w : (∀ n w', w'.(db) = w.(db) → Φ n w') → wp tick Φ Ψ w.
Proof. unfold wp, tick. auto. Qed.

Lemma wp_check {A} code (r : result A) Φ Ψ w :
  (∀ a, r = Ok a → Φ a w) → (∀ e w', r = Err e → w'.(db) = w.(db) → Ψ w') → wp (check code r) Φ Ψ w.
Proof. destruct r; cbn; intros HΦ HΨ; [by apply HΦ|]. eapply wp_reply. intros; by eapply HΨ. Qed.

Lemma wp_check_bind {A} code (b : bound A) Φ Ψ w :
  (b.(bind_err) = None → Φ b.(inputs) w) → (∀ w', w'.(db) = w.(db) → Ψ w') →
  wp (check_bind code b) Φ Ψ w.
Proof.
  unfold check_bind. destruct (bind_err b); intros HΦ HΨ; [by apply wp_reply|]. by apply HΦ.
Qed.

Lemma wp_run {A} (f : D → A * D) Φ Ψ w :
  (∀ a w', f w.(db) = (a, w'.(db)) → Φ a w') → wp (run f) Φ Ψ w.
Proof. unfold wp, run. destruct (f (db w)) as [a d] eqn:E. intros HΦ. by apply HΦ. Qed.

(** ** Statements *)

Lemma filter_elem {A} (p : A → bool) l x : x ∈ List.filter p l ↔ x ∈ l ∧ p x = true.
Proof. by rewrite !list_elem_of_In, filter_In. Qed.

Lemma wp_find_all c t p Φ Ψ w :
  (∀ r w', same w.(db) w'.(db) → r ≠ Err errRecordNotFound →
     (∀ l, r = Ok l → usable c t w.(db) = true ∧
        l ≡ₚ List.filter (p (content c w.(db))) (content c w.(db) t)) → Φ r w') →
  wp (find_all c t p) Φ Ψ w.
Proof.
  intros HΦ. apply wp_run. intros r w' (Hs & Hn & Hl)%Select_law. apply HΦ; done.
Qed.

(** What a read into a structure tells. *)
Definition sought (c : conn) (t : tname) (p : cond t) (r : result (row t)) (d : D) : Prop :=
  (∀ x, r = Ok x → usable c t d = true ∧ x ∈ content c d t ∧ p (content c d) x = true) ∧
  (r = Err errRecordNotFound → usable c t d = true ∧ ∀ x, x ∈ content c d t → p (content c d) x = false).

Lemma sought_pick c t p (pick : list (row t) → option (row t)) r d :
  (∀ l, match pick l with Some x => x ∈ l | None => l = [] end) → r ≠ Err errRecordNotFound →
  (∀ l, r = Ok l → usable c t d = true ∧ l ≡ₚ List.filter (p (content c d)) (content c d t)) →
  sought c t p (l ← r; match pick l with Some x => Ok x | None => Err errRecordNotFound end) d.
Proof.
  intros Hpick Hr Hl. destruct r as [l|e]; cbn [mbind result_bind].
  - destruct (Hl l eq_refl) as [Hu Hp]. specialize (Hpick l). destruct (pick l) as [x|]; split; try done.
    + intros y [= ->]. rewrite Hp in Hpick. apply filter_elem in Hpick. done.
    + intros _. split; [done|]. intros x Hx. subst l. apply Permutation_nil in Hp.
      destruct (p _ x) eqn:E; [|done]. assert (x ∈ List.filter (p (content c d)) (content c d t)) as Hn
        by by apply filter_elem. rewrite Hp in Hn. by apply not_elem_of_nil in Hn.
  - split; [done|]. by intros [= ->].
Qed.

Lemma last_pick {A} (l : list A) : match last l with Some x => x ∈ l | None => l = [] end.
Proof.
  destruct (last l) as [x|] eqn:E; [by apply last_Some_elem_of|]. by apply last_None.
Qed.

Lemma wp_find c t p Φ Ψ w :
  (∀ r w', same w.(db) w'.(db) → sought c t p r w.(db) → Φ r w') → wp (find c t p) Φ Ψ w.
Proof.
  intros HΦ. unfold find. apply wp_bind, wp_find_all. intros r w' Hs Hn Hl. apply wp_ret, HΦ; [done|].
  by apply (sought_pick c t p last), Hl; [apply last_pick|].
Qed.

Lemma least_elem t l x : least t l = Some x → x ∈ l.
Proof.
  revert x. induction l as [|a l IH]; cbn; [done|]. intros x.
  destruct (least t l) as [b|]; [case_match|]; intros [= <-];
    rewrite elem_of_cons; auto.
Qed.

Lemma least_pick t l : match least t l with Some x => x ∈ l | None => l = [] end.
Proof.
  destruct (least t l) as [x|] eqn:E; [by apply least_elem|].
  destruct l as [|a l]; [done|]. cbn in E. by destruct (least t l); [case_match|].
Qed.

Lemma wp_first c t p Φ Ψ w :
  (∀ r w', same w.(db) w'.(db) → sought c t p r w.(db) → Φ r w') → wp (first c t p) Φ Ψ w.
Proof.
  intros HΦ. unfold first. apply wp_bind, wp_find_all. intros r w' Hs Hn Hl. apply wp_ret, HΦ; [done|].
  by apply (sought_pick c t p (least t)), Hl; [apply least_pick|].
Qed.

(** What an insert did to the database. *)
Definition created (c : conn) (t : tname) (x0 x : row t) (d d' : D) : Prop :=
  usable c t d = true ∧ inserted t x0 x (content c d t) ∧
  content c d' t ≡ₚ x :: content c d t ∧ frame c t d d'.

Lemma wp_create c t x0 Φ Ψ w :
  (∀ e w', same w.(db) w'.(db) → Φ (Err e) w') →
  (∀ x w', created c t x0 x w.(db) w'.(db) → Φ (Ok x) w') →
  wp (create c t x0) Φ Ψ w.
Proof.
  intros He Hx. apply wp_run. intros [x|e] w' E; apply Insert_law in E; [apply Hx|by apply He]. done.
Qed.

Definition updated (c : conn) (t : tname) (p : cond t) (f : row t → row t) (d d' : D) : Prop :=
  usable c t d = true ∧ frame c t d d' ∧
  content c d' t ≡ₚ (λ x, if p (content c d) x then f x else x) <$> content c d t ∧
  (apart t (content c d t) = true → apart t (content c d' t) = true).

Lemma wp_update c t p f Φ Ψ w :
  (∀ e w', same w.(db) w'.(db) → Φ (Err e) w') →
  (∀ n w', updated c t p f w.(db) w'.(db) → Φ (Ok n) w') →
  wp (update c t p f) Φ Ψ w.
Proof.
  intros He Hx. apply wp_run. intros [n|e] w' E; apply Update_law in E; [apply Hx|by apply He].
  unfold updated. tauto.
Qed.

Definition deleted (c : conn) (t : tname) (p : cond t) (d d' : D) : Prop :=
  usable c t d = true ∧ frame c t d d' ∧
  content c d' t ≡ₚ List.filter (λ x, negb (p (content c d) x)) (content c d t).

Lemma wp_delete c t p Φ Ψ w :
  (∀ e w', same w.(db) w'.(db) → Φ (Err e) w') →
  (∀ n w', deleted c t p w.(db) w'.(db) → Φ (Ok n) w') →
  wp (delete_from c t p) Φ Ψ w.
Proof.
  intros He Hx. apply wp_run. intros [n|e] w' E; apply Delete_law in E; [apply Hx|by apply He].
  unfold deleted. tauto.
Qed.

End wp.

(** ** Tables that respect their keys *)

Section keys.
Context `{Sql D} {L : SqlLaws D}.
#[local] Set Default Proof Using "Type L".
Notation H := (H D).
Implicit Types (w : world D) (d : D).

Lemma text_eq_refl a : text_eq a a = true.
Proof. apply text_eq_equiv. Qed.
Lemma text_eq_sym a b : text_eq a b = text_eq b a.
Proof.
  pose proof text_eq_equiv as [_ Hs _]. destruct (text_eq b a) eqn:E; [by apply Hs|].
  destruct (text_eq a b) eqn:E'; [|done]. by rewrite (Hs _ _ E') in E.
Qed.
Lemma text_eq_trans a b c : text_eq a b = true → text_eq b c = true → text_eq a c = true.
Proof. apply text_eq_equiv. Qed.

Lemma conflict_sym t a b : conflict t a b = conflict t b a.
Proof.
  unfold conflict. f_equal.
  - f_equal. apply bool_decide_ext. done.
  - destruct (unique t a), (unique t b); try done. apply text_eq_sym.
Qed.

Lemma forallb_perm {A} (p : A → bool) l l' : l ≡ₚ l' → forallb p l = forallb p l'.
Proof. induction 1; cbn; [done|by f_equal|btauto|congruence]. Qed.

Lemma filter_perm {A} (p : A → bool) l l' : l ≡ₚ l' → List.filter p l ≡ₚ List.filter p l'.
Proof.
  induction 1; cbn; [done|by case_match; [constructor|]| |by etrans].
  repeat case_match; try done. constructor.
Qed.

Lemma apart_perm t l l' : l ≡ₚ l' → apart t l = apart t l'.
Proof.
  induction 1 as [|x l l' Hp IH|x y l|l l' l'' _ IH1 _ IH2]; cbn; [done| | |congruence].
  - rewrite IH. f_equal. by apply forallb_perm.
  - rewrite (conflict_sym t y x). btauto.
Qed.

Lemma forallb_filter {A} (p q : A → bool) l : forallb p l = true → forallb p (List.filter q l) = true.
Proof.
  rewrite !forallb_forall. intros Hp x [Hx _]%filter_In. by apply Hp.
Qed.

Lemma apart_filter t q l : apart t l = true → apart t (List.filter q l) = true.
Proof.
  induction l as [|a l IH]; cbn; [done|]. rewrite andb_true_iff. intros [Ha Hl].
  destruct (q a); [|by apply IH]. cbn. rewrite IH, forallb_filter by done. done.
Qed.

(** Two rows of a table with the same key are one row. *)
Lemma apart_inj t l a b : apart t l = true → a ∈ l → b ∈ l → conflict t a b = true → a = b.
Proof.
  induction l as [|x l IH]; cbn; [by intros _ ?%not_elem_of_nil|].
  rewrite andb_true_iff, forallb_forall, !elem_of_cons. intros [Hx Hl] Ha Hb Hc.
  destruct Ha as [->|Ha], Hb as [->|Hb]; [done| | |by apply IH].
  - specialize (Hx b). rewrite Hc in Hx. discriminate Hx. by apply list_elem_of_In.
  - specialize (Hx a). rewrite conflict_sym, Hc in Hx. discriminate Hx. by apply list_elem_of_In.
Qed.

Lemma conflict_pk t a b : has_pk t = true → pk t a = pk t b → conflict t a b = true.
Proof. intros Ht E. unfold conflict. by rewrite Ht, bool_decide_true. Qed.

(** The keys of table [t], as connection [c] sees it. *)
Definition keys_ok (c : conn) (t : tname) (d : D) : Prop :=
  apart t (content c d t) = true ∧
  (has_pk t = true → ∀ x, x ∈ content c d t → 0 < pk t x).

Lemma keys_same c t d d' : content c d' t ≡ₚ content c d t → keys_ok c t d → keys_ok c t d'.
Proof.
  intros E [Ha Hp]. split; [by rewrite (apart_perm t _ _ E)|].
  intros Ht x. rewrite E. by apply Hp.
Qed.

Lemma keys_created c t x0 x d d' : created c t x0 x d d' → keys_ok c t d → keys_ok c t d'.
Proof.
  intros (_ & (_ & Hx & Hc) & E & _) [Ha Hp]. split.
  - rewrite (apart_perm t _ _ E). cbn. by rewrite Hc, Ha.
  - intros Ht y. rewrite E, elem_of_cons. intros [->|Hy]; auto.
Qed.

Lemma keys_updated c t p f d d' :
  updated c t p f d d' → (∀ x, p (content c d) x = true → 0 < pk t x → 0 < pk t (f x)) →
  keys_ok c t d → keys_ok c t d'.
Proof.
  intros (_ & _ & E & Ha') Hf [Ha Hp]. split; [by apply Ha'|].
  intros Ht y. rewrite E. intros (x & -> & Hx)%list_elem_of_fmap. specialize (Hp Ht x Hx).
  destruct (p _ x) eqn:Epx; auto.
Qed.

Lemma keys_deleted c t p d d' : deleted c t p d d' → keys_ok c t d → keys_ok c t d'.
Proof.
  intros (_ & _ & E) [Ha Hp]. split.
  - rewrite (apart_perm t _ _ E). by apply apart_filter.
  - intros Ht y. rewrite E. intros [Hy _]%filter_elem. auto.
Qed.

Lemma frame_other c t t' c' d d' : frame c t d d' → (c', t') ≠ (c, t) → content c' d' t' = content c' d t'.
Proof. intros [_ Hf]. apply Hf. Qed.

Lemma same_refl d : same d d.
Proof. done. Qed.
Lemma same_trans d d' d'' : same d d' → same d' d'' → same d d''.
Proof. intros [? H1] [? H2]. split; [congruence|]. intros c. by rewrite H2, H1. Qed.

(** ** Reading on from a database *)

Lemma sought_same c t p r d d' : same d d' → sought c t p r d' → sought c t p r d.
Proof. unfold sought, usable. intros [E1 E2]. by rewrite E1, !E2. Qed.

Lemma wp_find_from d0 c t p (Φ : result (row t) → world D → Prop) Ψ w :
  same d0 w.(db) → (∀ r w', same d0 w'.(db) → sought c t p r d0 → Φ r w') → wp (find c t p) Φ Ψ w.
Proof.
  intros Hs HΦ. apply wp_find. intros r w' Hs' Hr. apply HΦ; [by eapply same_trans|by eapply sought_same].
Qed.

Lemma wp_first_from d0 c t p (Φ : result (row t) → world D → Prop) Ψ w :
  same d0 w.(db) → (∀ r w', same d0 w'.(db) → sought c t p r d0 → Φ r w') → wp (first c t p) Φ Ψ w.
Proof.
  intros Hs HΦ. apply wp_first. intros r w' Hs' Hr. apply HΦ; [by eapply same_trans|by eapply sought_same].
Qed.

(** Saving over a row that is there: the update, or nothing. *)
Lemma wp_save_over c t x0 y (Φ : result (row t * Z) → world D → Prop) Ψ w :
  pk t x0 ≠ 0 → y ∈ content c w.(db) t → pk t y = pk t x0 →
  (∀ r w', same w.(db) w'.(db) → Φ r w') →
  (∀ r d w', updated c t (on (by_id t (pk t x0))) (λ _, x0) w.(db) d → same d w'.(db) → Φ r w') →
  wp (save c t x0) Φ Ψ w.
Proof.
  intros Hx0 Hy Ey Hs Hu. unfold save. rewrite decide_False by done. apply wp_bind, wp_update.
  { intros e w1 Hs1. by apply wp_ret, Hs. }
  intros n w1 Hup. case_decide as En; [|by apply wp_ret; eapply Hu]. apply wp_bind, wp_first.
  intros [z|e] w2 Hs2 [_ Hn]; [by apply wp_ret; eapply Hu|].
  case_decide as Ee; [|by apply wp_ret; eapply Hu]. subst e. exfalso.
  destruct (Hn eq_refl) as [_ Hnone]. pose proof Hup as (_ & _ & E & _).
  specialize (Hnone x0). unfold on, by_id in Hnone. rewrite bool_decide_true in Hnone by done.
  enough (x0 ∈ content c (db w1) t) as Hx by by apply Hnone in Hx.
  rewrite E. apply list_elem_of_fmap. exists y. split; [|done]. unfold on, by_id.
  by rewrite bool_decide_true.
Qed.

(** ** Handlers that keep an invariant of the database *)

Definition pres (I : D → Prop) {A} (m : H A) : Prop := ∀ w, I w.(db) → I (m w).2.(db).

Section pres.
Variable I : D → Prop.
Hypothesis I_same : ∀ d d', same d d' → I d → I d'.
Notation pres := (pres I).

Lemma pres_wp {A} (m : H A) :
  pres m ↔ ∀ w, I w.(db) → wp m (λ _ w', I w'.(db)) (λ w', I w'.(db)) w.
Proof.
  unfold pres, wp. split; intros Hm w Hw; specialize (Hm w Hw); by destruct (m w) as [[a| |q] w'].
Qed.

Lemma pres_ret {A} (a : A) : pres (mret a).
Proof. by intros w. Qed.
Lemma pres_bind {A B} (m : H A) (k : A → H B) : pres m → (∀ a, pres (k a)) → pres (m ≫= k).
Proof.
  intros Hm Hk. apply pres_wp. intros w Hw. apply wp_bind. eapply wp_mono; [by apply pres_wp| |done].
  intros a w' Hw'. by apply pres_wp.
Qed.
Lemma pres_return {A} : pres (return_ (A := A)).
Proof. by intros w. Qed.
Lemma pres_answer code m : pres (answer code m).
Proof. by intros w. Qed.
Lemma pres_reply {A} code m : pres (reply (A := A) code m).
Proof. apply pres_bind; intros; [apply pres_answer|apply pres_return]. Qed.
Lemma pres_tick : pres tick.
Proof. by intros w. Qed.
Lemma pres_check {A} code (r : result A) : pres (check code r).
Proof. destruct r; [apply pres_ret|apply pres_reply]. Qed.
Lemma pres_check_bind {A} code (b : bound A) : pres (check_bind code b).
Proof. unfold check_bind. case_match; [apply pres_reply|apply pres_ret]. Qed.
Lemma pres_run {A} (f : D → A * D) : (∀ d, I d → I (f d).2) → pres (run f).
Proof. intros Hf w Hw. unfold run. specialize (Hf _ Hw). by destruct (f (db w)). Qed.
Lemma pres_find_all c t p : pres (find_all c t p).
Proof using I_same L.
  apply pres_run. intros d. destruct (Select c t p d) as [r d'] eqn:E. apply I_same. by eapply Select_law.
Qed.
Lemma pres_raw t s : pres (run (RawSelect t s)).
Proof using I_same L.
  apply pres_run. intros d. destruct (RawSelect t s d) as [r d'] eqn:E. apply I_same. by eapply RawSelect_law.
Qed.
Lemma pres_read {A} (f : D → A * D) : (∀ d r d', f d = (r, d') → same d d') → pres (run f).
Proof using I_same L.
  intros Hf. apply pres_run. intros d. destruct (f d) as [r d'] eqn:E. by apply I_same, (Hf d r d').
Qed.
Lemma pres_find_page c t p limit offset : pres (find_page c t p limit offset).
Proof using I_same L. apply pres_read. intros d r d' E. by eapply SelectPage_law. Qed.
Lemma pres_last_id c : pres (run (LastInsertId c)).
Proof using I_same L. apply pres_read. intros d r d' E. by eapply LastInsertId_law. Qed.
Lemma pres_find c t p : pres (find c t p).
Proof using I_same L. apply pres_bind; intros; [apply pres_find_all|apply pres_ret]. Qed.
Lemma pres_first c t p : pres (first c t p).
Proof using I_same L. apply pres_bind; intros; [apply pres_find_all|apply pres_ret]. Qed.

Lemma pres_create c t x0 :
  (∀ x d d', created c t x0 x d d' → I d → I d') → pres (create c t x0).
Proof using I_same L.
  intros Hc. apply pres_wp. intros w Hw. apply wp_create; [intros e w' Hs; by eapply I_same|].
  intros x w' Hx. by eapply Hc.
Qed.
Lemma pres_update c t p f :
  (∀ d d', updated c t p f d d' → I d → I d') → pres (update c t p f).
Proof using I_same L.
  intros Hc. apply pres_wp. intros w Hw. apply wp_update; [intros e w' Hs; by eapply I_same|].
  intros n w' Hx. by eapply Hc.
Qed.
Lemma pres_delete c t p :
  (∀ d d', deleted c t p d d' → I d → I d') → pres (delete_from c t p).
Proof using I_same L.
  intros Hc. apply pres_wp. intros w Hw. apply wp_delete; [intros e w' Hs; by eapply I_same|].
  intros n w' Hx. by eapply Hc.
Qed.
Lemma pres_save c t x0 :
  (∀ x d d', created c t x0 x d d' → I d → I d') →
  (∀ d d', updated c t (on (by_id t (pk t x0))) (λ _, x0) d d' → pk t x0 ≠ 0 → I d → I d') →
  pres (save c t x0).
Proof using I_same L.
  intros Hc Hu. unfold save. case_decide as E.
  - apply pres_bind; intros; [by apply pres_create|apply pres_ret].
  - apply pres_bind; [apply pres_update; intros; by eapply Hu|]. intros [n|e]; [|apply pres_ret].
    case_decide; [|apply pres_ret]. apply pres_bind; [apply pres_first|]. intros [y|e]; [apply pres_ret|].
    case_decide; [|apply pres_ret]. apply pres_bind; intros; [by apply pres_create|apply pres_ret].
Qed.
End pres.
End keys.

(** What a handler does between its statements. *)
Ltac pres_step :=
  lazymatch goal with |- pres _ ?m =>
  lazymatch m with
  | mret _ => apply pres_ret
  | _ ≫= _ => apply pres_bind; [|intros ?]
  | return_ => apply pres_return
  | answer _ _ => apply pres_answer
  | reply _ _ => apply pres_reply
  | tick => apply pres_tick
  | check _ _ => apply pres_check
  | check_bind _ _ => apply pres_check_bind
  | find_all _ ?tab _ => apply pres_find_all with (t := tab)
  | find_page _ ?tab _ _ _ => apply pres_find_page with (t := tab)
  | run (LastInsertId _) => apply pres_last_id
  | find _ ?tab _ => apply pres_find with (t := tab)
  | first _ ?tab _ => apply pres_first with (t := tab)
  | run (RawSelect ?tab _) => apply pres_raw with (t := tab)
  | match ?x with _ => _ end => destruct x
  end end.
