(* ===== verification/ApiMem.v ===== *)
(** * A database in memory

An implementation of the interface [Sql] that satisfies its laws: the tables as
lists, a transaction as a copy of the tables, keys counted up, and a list that
says which of the coming statements fail.  Texts are compared without their
case, as MySQL's default collation does. *)

From S2P Require Import Prelude GoFloat GoString Hash Tags Model Json ApiModel ApiDb.
From stdpp Require Import options.

Record mem : Type := MemOf {
  pool : view; open_tx : option (DBPool.t * view); fails : list bool; given : Z }.
Definition Mem (v : view) (tx : option (DBPool.t * view)) (fails : list bool) : mem := MemOf v tx fails 0.

Definition empty : view := λ _, [].
(** Replacing one table of a view. *)
Definition upd (t : tname) (l : list (row t)) (v : view) : view :=
  λ t', match decide (t = t') with left E => eq_rect t (λ t, list (row t)) l t' E | right _ => v t' end.

Definition mem_view (c : conn) (m : mem) : view :=
  match c with Pool => m.(pool) | Tx => default empty (snd <$> m.(open_tx)) end.
Definition set_view (c : conn) (v : view) (m : mem) : mem :=
  match c with
  | Pool => MemOf v m.(open_tx) m.(fails) m.(given)
  | Tx => MemOf m.(pool) ((λ x, (x.1, v)) <$> m.(open_tx)) m.(fails) m.(given)
  end.
Definition mem_tx (m : mem) : option DBPool.t := fst <$> m.(open_tx).
Definition mem_text_eq (a b : string) : bool := bool_decide (lower_ascii a = lower_ascii b).
(** The pattern [%x%] for a plain [x]. *)
Definition mem_like (s p : string) : bool :=
  contains_str (lower_ascii (String.substring 1 (String.length p - 2) p)) (lower_ascii s).
Definition mem_num_eq (n : Z) (s : string) : bool := bool_decide (Itoa n = s).
(** The patterns [.+] and plain texts. *)
Definition mem_regexp (s p : string) : bool :=
  if decide (p = ".+") then negb (bool_decide (s = "")) else contains_str p s.

Definition mem_usable (c : conn) (t : tname) (m : mem) : bool :=
  match c with Pool => true | Tx => bool_decide (mem_tx m = Some (db_of t)) end.

Definition errFailed : error := "driver: bad connection".
(** A statement that may fail. *)
Definition statement {A} (ok : mem → bool) (f : mem → result A * mem) (m : mem) : result A * mem :=
  let m' := MemOf m.(pool) m.(open_tx) (tail m.(fails)) m.(given) in
  if default false (head m.(fails)) || negb (ok m) then (Err errFailed, m') else f m'.

Definition mem_conflict (t : tname) (a b : row t) : bool :=
  has_pk t && bool_decide (pk t a = pk t b)
  || match unique t a, unique t b with Some x, Some y => mem_text_eq x y | _, _ => false end.
Fixpoint mem_apart (t : tname) (l : list (row t)) : bool :=
  match l with
  | [] => true
  | a :: l => forallb (λ b, negb (mem_conflict t a b)) l && mem_apart t l
  end.
Definition gave (id : Z) (m : mem) : mem := MemOf m.(pool) m.(open_tx) m.(fails) id.
Definition next_id (t : tname) (l : list (row t)) : Z := foldr Z.max 0 (pk t <$> l) + 1.

Definition mem_select (c : conn) (t : tname) (p : cond t) : mem → result (list (row t)) * mem :=
  statement (mem_usable c t) (λ m, (Ok (List.filter (p (mem_view c m)) (mem_view c m t)), m)).
Definition mem_page (c : conn) (t : tname) (p : cond t) (limit offset : Z) : mem → result (list (row t)) * mem :=
  statement (mem_usable c t) (λ m,
    (Ok (page limit offset (List.filter (p (mem_view c m)) (mem_view c m t))), m)).
Definition mem_pluck (c : conn) (t : tname) (f : row t → Z) (p : cond t) (limit offset : Z) :
    mem → result (list Z) * mem :=
  statement (mem_usable c t) (λ m,
    (Ok (page limit offset (remove_dups (f <$> List.filter (p (mem_view c m)) (mem_view c m t)))), m)).
Definition mem_join (c : conn) (t1 t2 : tname) (p : row t1 → row t2 → bool) (limit : Z) :
    mem → result (list (row t1 * row t2)) * mem :=
  statement (λ m, mem_usable c t1 m && mem_usable c t2 m) (λ m,
    (Ok (page limit 0 (List.filter (λ x, p x.1 x.2) (list_prod (mem_view c m t1) (mem_view c m t2)))), m)).
Definition mem_raw (t : tname) (s : string) : mem → result (list (row t)) * mem :=
  statement (λ _, true) (λ m, (Ok (m.(pool) t), m)).
Definition mem_insert (c : conn) (t : tname) (x0 : row t) : mem → result (row t) * mem :=
  statement (mem_usable c t) (λ m,
    let l := mem_view c m t in
    let x := if decide (pk t x0 = 0) then with_pk t (next_id t l) x0 else x0 in
    if forallb (λ b, negb (mem_conflict t x b)) l && (negb (has_pk t) || (0 <? pk t x))
    then (Ok x, set_view c (upd t (l ++ [x]) (mem_view c m)) (gave (pk t x) m))
    else (Err "Error 1062", m)).
Definition mem_insert_ignore (c : conn) (t : tname) (x0 : row t) (m : mem) : result unit * mem :=
  if forallb (λ b, negb (mem_conflict t x0 b)) (mem_view c m t)
  then let '(r, m') := mem_insert c t x0 m in (r ≫= λ _, Ok tt, m')
  else statement (mem_usable c t) (λ m, (Ok tt, m)) m.
Definition mem_last_id (c : conn) : mem → result Z * mem := statement (λ _, true) (λ m, (Ok m.(given), m)).
Definition mem_update (c : conn) (t : tname) (p : cond t) (f : row t → row t) : mem → result Z * mem :=
  statement (mem_usable c t) (λ m,
    let l := mem_view c m t in
    let p := p (mem_view c m) in
    let l' := (λ x, if p x then f x else x) <$> l in
    if mem_apart t l'
    then (Ok (Z.of_nat (length (List.filter (λ x, p x && bool_decide (f x ≠ x)) l))),
          set_view c (upd t l' (mem_view c m)) m)
    else (Err "Error 1062", m)).
Definition mem_delete (c : conn) (t : tname) (p : cond t) : mem → result Z * mem :=
  statement (mem_usable c t) (λ m,
    let l := mem_view c m t in
    let p := p (mem_view c m) in
    (Ok (Z.of_nat (length (List.filter p l))),
     set_view c (upd t (List.filter (λ x, negb (p x)) l) (mem_view c m)) m)).
Definition no_tx (m : mem) : mem := MemOf m.(pool) None m.(fails) m.(given).
Definition mem_begin (b : DBPool.t) (m : mem) : result unit * mem :=
  statement (λ _, true) (λ m, (Ok tt, MemOf m.(pool) (Some (b, m.(pool))) m.(fails) m.(given))) (no_tx m).
Definition mem_commit (m : mem) : result unit * mem :=
  let '(r, m') := statement (λ m, bool_decide (is_Some (mem_tx m))) (λ m, (Ok tt,
    MemOf (λ t, if decide (Some (db_of t) = mem_tx m) then mem_view Tx m t else m.(pool) t)
      None m.(fails) m.(given))) m in
  (r, no_tx m').

#[global] Instance mem_sql : Sql mem := {
  content := mem_view; in_tx := mem_tx; text_eq := mem_text_eq; regexp := mem_regexp;
  like := mem_like; num_eq := mem_num_eq; last_id := λ _, given;
  Select := mem_select; SelectPage := mem_page; PluckDistinct := mem_pluck; SelectJoin := mem_join;
  RawSelect := mem_raw; Insert := mem_insert; InsertIgnore := mem_insert_ignore;
  LastInsertId := mem_last_id; Update := mem_update;
  Delete := mem_delete; Begin := mem_begin; Commit := mem_commit; Rollback := no_tx }.

(** ** The laws *)

Lemma upd_eq t l v : upd t l v t = l.
Proof. unfold upd. case_decide as E; [|done]. by rewrite (proof_irrel E eq_refl). Qed.
Lemma upd_ne t t' l v : t ≠ t' → upd t l v t' = v t'.
Proof. unfold upd. by case_decide. Qed.

Definition fail_next (m : mem) : mem := MemOf m.(pool) m.(open_tx) (tail m.(fails)) m.(given).
Lemma fail_next_same m : same m (fail_next m).
Proof. split; [done|]. by intros []. Qed.
Lemma mem_usable_next c t m : mem_usable c t (fail_next m) = mem_usable c t m.
Proof. done. Qed.
Lemma mem_view_next c m : mem_view c (fail_next m) = mem_view c m.
Proof. by destruct c. Qed.

Lemma statement_inv {A} ok (f : mem → result A * mem) m r m' :
  statement ok f m = (r, m') →
  (r = Err errFailed ∧ m' = fail_next m) ∨ (ok m = true ∧ f (fail_next m) = (r, m')).
Proof.
  unfold statement, fail_next. destruct (default _ _ || negb (ok m)) eqn:E; intros Hs; [left; by simplify_eq|].
  apply orb_false_iff in E as [_ E%negb_false_iff]. by right.
Qed.

Lemma set_view_frame c t l m :
  mem_usable c t m = true →
  let m' := set_view c (upd t l (mem_view c m)) m in
  mem_view c m' t = l ∧ frame c t m m'.
Proof.
  intros Hu. destruct c; cbn in *.
  - split; [apply upd_eq|]. split; [done|]. intros c' t' Hn. destruct c'; [|done].
    apply upd_ne. by intros ->.
  - apply bool_decide_eq_true in Hu. destruct m as [po [[b v]|] fl g]; [|done]. split; [apply upd_eq|]. split; [done|].
    intros c' t' Hn. destruct c'; [done|]. cbn. apply upd_ne. by intros ->.
Qed.

Lemma frame_next c t m m' : frame c t (fail_next m) m' → frame c t m m'.
Proof. intros [? Hf]. split; [done|]. intros c' t' Hn. rewrite (Hf c' t' Hn). by destruct c'. Qed.

(** A statement that reads. *)
Lemma statement_read {A} ok (f : mem → result A) m r m' :
  statement ok (λ m, (f m, m)) m = (r, m') → same m m' ∧ (r = Err errFailed ∨ ok m = true ∧ r = f (fail_next m)).
Proof. intros [[-> ->]|[Hu E]]%statement_inv; simplify_eq; split; try apply fail_next_same; auto. Qed.

Lemma set_view_gave c v id m : set_view c v (gave id m) = gave id (set_view c v m).
Proof. by destruct c. Qed.
Lemma frame_gave c t id m m' : frame c t m m' → frame c t m (gave id m').
Proof. intros [? Hf]. split; [done|]. intros c' t' Hn. rewrite <- (Hf c' t' Hn). by destruct c'. Qed.
Lemma mem_view_gave c id m : mem_view c (gave id m) = mem_view c m.
Proof. by destruct c. Qed.

Lemma mem_insert_ok c t x0 d r d' : mem_insert c t x0 d = (r, d') →
  match r with
  | Err _ => same d d'
  | Ok x => mem_usable c t d = true ∧ inserted t x0 x (mem_view c d t) ∧
      mem_view c d' t ≡ₚ x :: mem_view c d t ∧ frame c t d d' ∧ given d' = pk t x
  end.
Proof.
  intros [[-> ->]|[Hu E]]%statement_inv; [apply fail_next_same|].
  rewrite mem_view_next in E.
  cbv zeta in E. set (x := if decide (pk t x0 = 0) then with_pk t _ x0 else x0) in E.
  destruct (forallb _ _ && _) eqn:Ec; simplify_eq; [|apply fail_next_same].
  apply andb_true_iff in Ec as [Ha Hp].
  rewrite <- (mem_usable_next c t d) in Hu.
  destruct (set_view_frame c t (mem_view c d t ++ [x]) _ Hu) as [Hv Hf]. rewrite mem_view_next in Hv, Hf.
  rewrite set_view_gave. split_and!; [done| | |by apply frame_gave, frame_next|done].
  - split_and!; [| |done].
    + unfold x. case_decide; [rewrite bool_decide_true by done; by eexists|by rewrite bool_decide_false].
    + intros Hpk. rewrite Hpk in Hp. cbn in Hp. lia.
  - rewrite mem_view_gave, Hv. apply Permutation_app_comm.
Qed.

Lemma conflict_found {A} (f : A → bool) l : forallb (λ b, negb (f b)) l = false → ∃ y, y ∈ l ∧ f y = true.
Proof.
  induction l as [|a l IH]; cbn; [done|]. destruct (f a) eqn:E; [intros _; exists a; split; [apply elem_of_cons; by left|done]|].
  cbn. intros (y & Hy & Hf)%IH. exists y. split; [apply elem_of_cons; by right|done].
Qed.

#[global] Instance mem_laws : SqlLaws mem.
Proof.
  split.
  - split; cbn; unfold mem_text_eq.
    + intros a. by apply bool_decide_eq_true.
    + intros a b. rewrite !bool_decide_eq_true. done.
    + intros a b c. rewrite !bool_decide_eq_true. congruence.
  - intros m n. apply bool_decide_ext. split; [apply Itoa_injective|by intros ->].
  - intros c t p d r d' [Hs [->|[Hu ->]]]%statement_read; split_and!; try done.
    intros l [= <-]. by rewrite !mem_view_next.
  - intros c t p limit offset d r d' [Hs [->|[Hu ->]]]%statement_read; split_and!; try done.
    intros l [= <-]. rewrite !mem_view_next. eauto.
  - intros c t f p limit offset d r d' [Hs [->|[Hu ->]]]%statement_read; split_and!; try done.
    intros l [= <-]. rewrite !mem_view_next. eauto.
  - intros c t1 t2 p limit d r d' [Hs [->|[Hu ->]]]%statement_read; split_and!; try done.
    intros l [= <-]. apply andb_true_iff in Hu as [? ?]. rewrite !mem_view_next. eauto.
  - intros t s d r d' [Hs _]%statement_read. done.
  - intros c t x0 d [x|e] d' E%mem_insert_ok; [|done]. cbn. tauto.
  - intros c t x0 d x d' E%mem_insert_ok _. cbn. tauto.
  - intros c t x0 d r d'. cbn. unfold mem_insert_ignore. destruct (forallb _ _) eqn:Ef.
    + destruct (mem_insert c t x0 d) as [[x|e] d1] eqn:E; apply mem_insert_ok in E; intros [= <- <-]; [|by left].
      right. destruct E as (? & ? & ? & ? & _). eauto 10.
    + intros [Hs Hr]%statement_read. left. split; [done|]. intros ->. destruct Hr as [?|[Hu _]]; [done|].
      apply conflict_found in Ef as (y & ? & ?). eauto.
  - intros c d r d' [Hs [->|[Hu ->]]]%statement_read; split; [done..|]. by intros n [= <-].
  - intros c t p f d r d' [[-> ->]|[Hu E]]%statement_inv; [apply fail_next_same|].
    rewrite mem_view_next in E.
    cbv zeta in E. destruct (mem_apart _ _) eqn:Ec; simplify_eq; [|apply fail_next_same].
    rewrite <- (mem_usable_next c t d) in Hu.
    destruct (set_view_frame c t ((λ x, if p (mem_view c d) x then f x else x) <$> mem_view c d t) _ Hu)
      as [Hv Hf]. rewrite mem_view_next in Hv, Hf.
    split_and!; [done|by apply frame_next| | |done]; cbn; rewrite Hv; done.
  - intros c t p d r d' [[-> ->]|[Hu E]]%statement_inv; [apply fail_next_same|].
    rewrite mem_view_next in E. cbv zeta in E. simplify_eq.
    rewrite <- (mem_usable_next c t d) in Hu.
    destruct (set_view_frame c t (List.filter (λ x, negb (p (mem_view c d) x)) (mem_view c d t)) _ Hu)
      as [Hv Hf]. rewrite mem_view_next in Hv, Hf.
    split_and!; [done|by apply frame_next| |done]; cbn; by rewrite Hv.
  - intros b d r d' [[-> ->]|[_ E]]%statement_inv; [done|]. cbn in E. simplify_eq.
    split; [done|]. split; done.
  - intros d r d'. cbn. unfold mem_commit. destruct (statement _ _ d) as [r0 m0] eqn:E0. intros [= -> <-].
    apply statement_inv in E0 as [[-> ->]|[Hu E]]; [done|]. cbn in E. simplify_eq. cbn.
    split; [done|]. apply bool_decide_eq_true in Hu as [b Hb]. exists b. split; [done|]. intros t.
    unfold mem_tx in Hb. cbn [fail_next open_tx] in *. rewrite Hb. repeat case_decide; try done; congruence.
  - intros d. done.
Qed.

(** A mem with these rows in it. *)
Definition of_rows (v : view) : mem := Mem v None [].

(** ** A site

Three users with a password each, the first one an admin, and their sessions. *)

Definition site_settings : Settings := {|
  access_control := true; skip_auth := false; signup_disable := false;
  default_token := ""; salt := "s"; NewV1 := λ n, "0-" +:+ Itoa (Z.of_nat n); now := λ _, 0;
  MatchString := λ p s, Ok (mem_regexp s p);
  time_text := λ t, "@" +:+ Itoa t |}.

Definition site_users : list uic.User.t := [
  uic.User.mk 1 "root" "" (Md5 "sr") "" "" "" "" 2;
  uic.User.mk 2 "alice" "" (Md5 "sa") "" "" "" "" 0;
  uic.User.mk 3 "bob" "" (Md5 "sb") "" "" "" "" 0 ].
Definition site_sessions : list uic.Session.t :=
  [uic.Session.mk 1 1 "r1" 0; uic.Session.mk 2 2 "a1" 0].
Definition site_view : view := upd user site_users (upd session site_sessions empty).
Definition site : world mem := World (of_rows site_view) [] 0.

(** The header of a user with its session. *)
Definition token (name sig : string) : option (result json) :=
  Some (Ok (JObject [("name", JString name); ("sig", JString sig)])).
