(* ===== verification/ApiUic.v ===== *)
(** * The api: sessions and users (modules/api/app/{helper,utils,controller/uic})

- [GetSession], [SessionChecking], [GetUser] of helper/session.go and the
  middleware [AuthSessionMidd]: who sends a request, from its header [Apitoken];
- the handlers of user_controller.go and session_controller.go.

A controller takes the header, its parameters (a query parameter that is missing
is [None]) and what [Bind] gave.  The text of an error of [Atoi] is its reason
only.  The counters of rows that some answers print are those of the statements. *)

From S2P Require Import Prelude GoFloat GoString Hash Tags Model Json Regex ApiModel ApiDb.
From Stdlib Require Import Ascii.
From stdpp Require Import options.

(** The header: not set, JSON, or a text that is not JSON (with the error that
[json.Unmarshal] has for it). *)
Definition header : Type := option (result json).

(** ** utils *)

Definition name_char (c : ascii) : bool :=
  byte_in 97 122 c || byte_in 65 90 c || byte_in 48 57 c
  || bool_decide (c = "-"%char) || bool_decide (c = "_"%char) || bool_decide (c = "."%char).
Definition IsUsernameValid (name : string) : bool := match_string (r_plus (RChar name_char)) name.

Definition HasDangerousCharacters (str : string) : bool :=
  contains_char "<" str || contains_char ">" str || contains_char "&" str
  || contains_char "'" str || contains_char (ascii_of_nat 34) str.

Definition ids_text (arr : list Z) : string := join "," (Itoa <$> arr).
Definition ArrIntToString (arr : list Z) : result string :=
  let result := ids_text arr in
  if decide (result = "") then Err "array is empty, err: []" else Ok result.
Definition ArrInt64ToString : list Z → result string := ArrIntToString.

Definition errPage : error := "You set page but skip limit params, please check your input".
Definition errLimit : error := "limit or page can not set to 0 or less than 0".

(** The first row and the number of rows; [-1] without a page. *)
Definition PageParser (page limit : string) : result (Z * Z) :=
  if decide (page = "") then Ok (-1, -1)
  else
    p ← Atoi page;
    l ← (if decide (limit = "") then Err errPage else Atoi limit);
    if (p <=? 0) || (l <=? 0) then Err errLimit
    else if decide (p = 1) then Ok (0, l) else Ok ((p -₆₄ 1) *₆₄ l, l).

Definition errSQLSyntax : error := "Error 1064".

Section uic.
Context `{Sql D} `{Settings}.
Notation H := (H D).

Definition HashIt (passwd : string) : string := Md5 (salt +:+ passwd).

Definition GenerateUUID : H string := n ← tick; mret (remove_char "-" (NewV1 n)).

(** The structure after [Find(&x)], [x] being blank before. *)
Definition found_user (r : result (row user)) : uic.User.t :=
  match r with Ok u => u | Err _ => uic.User.zero end.
Definition found_session (r : result (row session)) : uic.Session.t :=
  match r with Ok s => s | Err _ => uic.Session.zero end.

(** [where name = ?] *)
Definition user_named (name : string) : cond user := on (λ u : uic.User.t, text_eq u.(uic.User.Name) name).
Definition session_of (uid : Z) : cond session := on (λ s : uic.Session.t, bool_decide (s.(uic.Session.Uid) = uid)).

(** [where id in (...)]: an empty list is not SQL. *)
Definition find_ids (t : tname) (ids : list Z) : H (result (list (row t))) :=
  if decide (ids = []) then mret (Err errSQLSyntax)
  else find_all Pool t (on (λ x, bool_decide (pk t x ∈ ids))).

(** ** model/uic/user.go *)

Definition IsAdmin (this : uic.User.t) : bool :=
  negb access_control || bool_decide (this.(uic.User.Role) = 2) || bool_decide (this.(uic.User.Role) = 1).
Definition IsSuperAdmin (this : uic.User.t) : bool :=
  negb access_control || bool_decide (this.(uic.User.Role) = 2).

(** ** helper/session.go *)

Record WebSession : Set := WebSession_ { Name : string; Sig : string }.
Definition websession_json : Json WebSession :=
  json_struct (WebSession_ "" "") [
    field_of "Name" Name (λ x w, WebSession_ x w.(Sig));
    field_of "Sig" Sig (λ x w, WebSession_ w.(Name) x) ].

Definition errNoToken : error := "token key is not set".

Definition GetSession (c : header) : result WebSession :=
  match c with
  | None => Err errNoToken
  | Some text =>
      j ← text;
      websession ← json_dec (Json := websession_json) (WebSession_ "" "") j;
      if decide (websession.(Name) = "") then Err "token key:name is empty"
      else if decide (websession.(Sig) = "") then Err "token key:sig is empty"
      else Ok websession
  end.

(** [default_token] is used in server side access. *)
Definition is_default (w : WebSession) : bool :=
  negb (bool_decide (default_token = "")) && bool_decide (w.(Sig) = default_token).

(** [auth] and [err] *)
Definition SessionChecking (c : header) : H (bool * option error) :=
  match GetSession c with
  | Err e => mret (false, Some e)
  | Ok websessio =>
      if is_default websessio then mret (true, None)
      else
        r ← find Pool user (user_named websessio.(Name));
        if decide ((found_user r).(uic.User.ID) = 0) then mret (false, Some "not found this user")
        else
          s ← find Pool session (on (λ s : uic.Session.t,
                text_eq s.(uic.Session.Sig) websessio.(Sig)
                && bool_decide (s.(uic.Session.Uid) = (found_user r).(uic.User.ID))));
          if decide ((found_session s).(uic.Session.ID) = 0) then mret (false, Some "session not found")
          else mret (true, None)
  end.

(** helper.GetUser: the user of the header's name, and the error; the user that
is not found is left with that name. *)
Definition h_GetUser (c : header) : H (uic.User.t * option error) :=
  match GetSession c with
  | Err e => mret (uic.User.zero, Some e)
  | Ok websession =>
      r ← find Pool user (user_named websession.(Name));
      match r with
      | Ok u => mret (u, None)
      | Err e => mret (uic.User.mk 0 websession.(Name) "" "" "" "" "" "" 0, Some e)
      end
  end.

(** [user, err := h.GetUser(c); if err != nil { h.JSONR(c, code, err); return }] *)
Definition current_user (code : Z) (c : header) : H uic.User.t :=
  r ← h_GetUser c;
  match r.2 with None => mret r.1 | Some e => reply code (MError e) end.

(** utils/auth_middle.go *)
Definition AuthSessionMidd (c : header) (handler : H ()) : H () :=
  r ← SessionChecking c;
  if negb skip_auth && negb (r.1 && bool_decide (r.2 = None)) then
    reply StatusUnauthorized (match r.2 with Some e => MError e | None => MNil end)
  else handler.

(** ** user_controller.go *)

Record APIUserInput : Set := APIUserInput_ {
  iName : string; iCnname : string; iPasswd : string; iEmail : string;
  iPhone : string; iIM : string; iQQ : string }.

(** The session of a user is looked up and made when there is none; the error of
the insert is not looked at.  The text is the signature. *)
Definition user_session (u : uic.User.t) : H string :=
  s ← find Pool session (session_of u.(uic.User.ID));
  match s with
  | Err e => if decide (e = errRecordNotFound) then mret tt else reply badstatus (MError e)
  | Ok _ => mret tt
  end ;;
  if decide ((found_session s).(uic.Session.ID) = 0) then
    sig ← GenerateUUID;
    n ← tick;
    create Pool session (uic.Session.mk 0 u.(uic.User.ID) sig (now n +₆₄ 3600 * 24 * 30)) ;;
    mret sig
  else mret (found_session s).(uic.Session.Sig).

(** Sign up is disabled: only an admin may go on. *)
Definition signup_guard (c : header) : H () :=
  let disabled := "sign up is not enabled, please contact administrator" in
  r ← h_GetUser c;
  match r.2 with
  | Some e =>
      reply badstatus (MString (join ". "
        (disabled :: if contains_str errNoToken e then [] else [e])))
  | None =>
      if IsAdmin r.1 then mret tt
      else reply badstatus (MString (join ". " [disabled; "You are not admin, no permissions can do this"]))
  end.

Definition CreateUser (c : header) (b : bound APIUserInput) : H () :=
  i ← check_bind StatusBadRequest b;
  if HasDangerousCharacters i.(iCnname) then reply StatusBadRequest (MString "name pattern is invalid")
  else
    (if signup_disable then signup_guard c else mret tt) ;;
    r ← find Pool user (user_named i.(iName));
    if decide ((found_user r).(uic.User.ID) ≠ 0) then
      reply StatusBadRequest (MString "name is already existing")
    else
      r ← create Pool user (uic.User.mk 0 i.(iName) i.(iCnname) (HashIt i.(iPasswd)) i.(iEmail)
             i.(iPhone) i.(iIM) i.(iQQ) (if decide (i.(iName) = "root") then 2 else 0));
      u ← check StatusBadRequest r;
      sig ← user_session u;
      reply StatusOK (MValue (JObject [("name", JString u.(uic.User.Name)); ("sig", JString sig)])).

Record APIUserUpdateInput : Set := APIUserUpdateInput_ {
  uCnname : string; uEmail : string; uPhone : string; uIM : string; uQQ : string }.

Definition UpdateCurrentUser (c : header) (b : bound APIUserUpdateInput) : H () :=
  i ← check_bind StatusExpectationFailed b;
  if HasDangerousCharacters i.(uCnname) then reply StatusBadRequest (MString "name pattern is invalid")
  else
    websession ← check badstatus (GetSession c);
    r ← find Pool user (user_named websession.(Name));
    let uid := (found_user r).(uic.User.ID) in
    if decide (uid = 0) then reply StatusBadRequest (MString "name is not existing")
    else
      r ← update Pool user (on (by_id user uid))
            (uic.User.with_profile i.(uCnname) i.(uEmail) i.(uPhone) i.(uIM) i.(uQQ));
      check StatusExpectationFailed r ;;
      reply StatusOK (MString "user info updated").

Record APICgPassedInput : Set := APICgPassedInput_ { OldPassword : string; NewPassword : string }.

(** A form that does not bind is answered, and handled all the same. *)
Definition ChangePassword (c : header) (b : bound APICgPassedInput) : H () :=
  (match b.(bind_err) with Some e => answer StatusBadRequest (MError e) | None => mret tt end) ;;
  websession ← check badstatus (GetSession c);
  r ← find Pool user (user_named websession.(Name));
  u ← check StatusExpectationFailed r;
  if decide (u.(uic.User.Passwd) ≠ HashIt b.(inputs).(OldPassword)) then
    reply StatusBadRequest (MString "oldPassword is not match current one")
  else
    r ← save Pool user (uic.User.with_Passwd (HashIt b.(inputs).(NewPassword)) u);
    check StatusExpectationFailed r ;;
    reply StatusOK (MString "password updated!").

Definition UserInfo (c : header) : H () :=
  u ← current_user StatusExpectationFailed c;
  reply StatusOK (MValue (uic.User.enc u)).

(** [if idtmp == "" ...; id, err := strconv.Atoi(idtmp); if err != nil ...] *)
Definition id_param (missing idtmp : string) : H Z :=
  if decide (idtmp = "") then reply badstatus (MString missing) else check badstatus (Atoi idtmp).

Definition GetUser (uidtmp : string) : H () :=
  uid ← id_param "user id is missing" uidtmp;
  r ← find Pool user (on (λ u : uic.User.t, bool_decide (uid = 0) || by_id user uid u));
  u ← check StatusExpectationFailed r;
  reply StatusOK (MValue (uic.User.enc u)).

Definition GetUserByName (name : string) : H () :=
  if decide (name = "") then reply badstatus (MString "user name is missing")
  else
    r ← first Pool user (user_named name);
    u ← check StatusExpectationFailed r;
    reply StatusOK (MValue (uic.User.enc u)).

Definition IsUserInTeams (uidtmp : string) (team_names : option string) : H () :=
  uid ← id_param "user id is missing" uidtmp;
  let teams_raw := default "" team_names in
  if decide (teams_raw = "") then reply badstatus MNil
  else
    let team_names := split "," teams_raw in
    r ← first Pool user (on (by_id user uid));
    check StatusExpectationFailed r ;;
    r ← find_all Pool team (on (λ t : uic.Team.t, existsb (text_eq t.(uic.Team.Name)) team_names));
    teams ← check StatusExpectationFailed r;
    let tids := uic.Team.ID <$> teams in
    r ← find_all Pool rel_team_user (on (λ x : uic.RelTeamUser.t, bool_decide (x.(uic.RelTeamUser.Uid) = uid)
                                              && bool_decide (x.(uic.RelTeamUser.Tid) ∈ tids)));
    check StatusExpectationFailed r ;;
    reply StatusOK (MString "true").

Definition GetUserTeams (uidtmp : string) : H () :=
  uid ← id_param "user id is missing" uidtmp;
  r ← first Pool user (on (by_id user uid));
  check StatusExpectationFailed r ;;
  r ← find_all Pool rel_team_user (on (λ x : uic.RelTeamUser.t, bool_decide (x.(uic.RelTeamUser.Uid) = uid)));
  tus ← check StatusExpectationFailed r;
  r ← find_ids team (uic.RelTeamUser.Tid <$> tus);
  teams ← check StatusExpectationFailed r;
  reply StatusOK (MValue (JObject [("teams", JArray (uic.Team.enc <$> teams))])).

Record APIAdminChangeUserProfileInput : Set := APIAdminChangeUserProfileInput_ {
  pUserID : Z; pInput : APIUserUpdateInput }.

(** [else if !cuser.IsAdmin() { ...; return }] *)
Definition admin_only (code : Z) (c : header) : H uic.User.t :=
  cuser ← current_user code c;
  if IsAdmin cuser then mret cuser
  else reply StatusBadRequest (MString "you don't have permission!").

Definition AdminChangeUserProfile (c : header) (b : bound APIAdminChangeUserProfileInput) : H () :=
  i ← check_bind StatusExpectationFailed b;
  admin_only StatusExpectationFailed c ;;
  let p := i.(pInput) in
  r ← update Pool user (on (by_id user i.(pUserID)))
        (uic.User.with_profile p.(uCnname) p.(uEmail) p.(uPhone) p.(uIM) p.(uQQ));
  check StatusExpectationFailed r ;;
  reply StatusOK (MString "user profile updated").

Definition AdminUserDelete (c : header) (b : bound Z) : H () :=
  UserID ← check_bind badstatus b;
  cuser ← admin_only StatusExpectationFailed c;
  r ← delete_from Pool user (on (λ u : uic.User.t, by_id user UserID u
                                 && (u.(uic.User.Role) <=? cuser.(uic.User.Role))));
  n ← check StatusExpectationFailed r;
  if decide (n = 0) then
    reply StatusExpectationFailed (MString "you have no such permission or sth goes wrong")
  else reply StatusOK (MString ("user " +:+ Itoa UserID +:+ " has been delete, affect row: " +:+ Itoa n)).

Record APIAdminChangePassword : Set := APIAdminChangePassword_ { aUserID : Z; aPasswd : string }.

Definition AdminChangePassword (c : header) (b : bound APIAdminChangePassword) : H () :=
  i ← check_bind StatusBadRequest b;
  admin_only StatusExpectationFailed c ;;
  r ← find Pool user (on (λ u : uic.User.t, bool_decide (i.(aUserID) = 0) || by_id user i.(aUserID) u));
  u ← check StatusExpectationFailed r;
  r ← save Pool user (uic.User.with_Passwd (HashIt i.(aPasswd)) u);
  check StatusExpectationFailed r ;;
  reply StatusOK (MString "password updated!").

(** The pattern [q] is pasted into the text of the statement. *)
Definition UserList (page limit q : option string) : H () :=
  pl ← check badstatus (PageParser (default "" page) (default "" limit));
  let q := default ".+" q in
  r ← (if negb (bool_decide (pl.2 = -1)) && negb (bool_decide (pl.1 = -1)) then
         run (RawSelect user ("select * from user where name regexp '" +:+ q +:+ "' limit "
                              +:+ Itoa pl.1 +:+ "," +:+ Itoa pl.2))
       else find_all Pool user (on (λ u : uic.User.t, regexp u.(uic.User.Name) q)));
  users ← check StatusExpectationFailed r;
  reply StatusOK (MValue (JArray (uic.User.enc <$> users))).

Record APIRoleUpdate : Set := APIRoleUpdate_ { rUserID : Z; rAdmin : string }.

(** The error of [Find] is not looked at: a user that does not exist is blank. *)
Definition ChangeRoleOfUser (c : header) (b : bound APIRoleUpdate) : H () :=
  i ← check_bind StatusBadRequest b;
  admin_only StatusBadRequest c ;;
  r ← find Pool user (on (by_id user i.(rUserID)));
  let u := found_user r in
  let u := if decide (i.(rAdmin) = "yes") then uic.User.with_Role 1 u
           else if decide (i.(rAdmin) = "no") then uic.User.with_Role 0 u else u in
  r ← save Pool user u;
  un ← check StatusExpectationFailed r;
  reply StatusOK (MString ("user role update sccuessful, affect row: " +:+ Itoa un.2)).

(** ** session_controller.go *)

Record APILoginInput : Set := APILoginInput_ { lName : string; lPassword : string }.

Definition Login (b : bound APILoginInput) : H () :=
  match b.(bind_err) with
  | Some _ => reply badstatus (MString "name or password is blank")
  | None =>
      let i := b.(inputs) in
      r ← find Pool user (user_named i.(lName));
      let u := match r with Ok u => u | Err _ => uic.User.mk 0 i.(lName) "" "" "" "" "" "" 0 end in
      if decide (u.(uic.User.Name) = "") then reply badstatus (MString "no such user")
      else if decide (u.(uic.User.Passwd) ≠ HashIt i.(lPassword)) then
        reply badstatus (MString "password error")
      else
        sig ← user_session u;
        reply StatusOK (MValue (JObject (
          (if decide (sig = "") then [] else [("sig", JString sig)])
          ++ [("name", JString u.(uic.User.Name)); ("admin", JBool (IsAdmin u))])))
  end.

Definition Logout (c : header) : H () :=
  wsession ← check badstatus (GetSession c);
  r ← find Pool user (user_named wsession.(Name));
  s ← find Pool session (on (λ s : uic.Session.t,
        text_eq s.(uic.Session.Sig) wsession.(Sig)
        && bool_decide (s.(uic.Session.Uid) = (found_user r).(uic.User.ID))));
  let sid := (found_session s).(uic.Session.ID) in
  if decide (sid = 0) then reply badstatus (MString "not found this kind of session in database.")
  else
    r ← delete_from Pool session (on (by_id session sid));
    (match r with Err e => answer badstatus (MError e) | Ok _ => mret tt end) ;;
    reply StatusOK (MString "logout successful").

Definition AuthSession (c : header) : H () :=
  r ← SessionChecking c;
  if r.1 && bool_decide (r.2 = None) then reply StatusOK (MString "session is vaild!")
  else reply StatusUnauthorized (match r.2 with Some e => MError e | None => MNil end).

Definition CreateRoot (password : option string) : H () :=
  let password := default "" password in
  if decide (password = "") then reply badstatus (MString "password is empty, please check it")
  else
    r ← save Pool user (uic.User.mk 0 "root" "" (HashIt password) "" "" "" "" 0);
    check badstatus r ;;
    reply StatusOK (MString "root created!").

End uic.
