(* ===== verification/ApiTeam.v ===== *)
(** * The api: teams, and the routes of the users' part
(modules/api/app/controller/uic/{team_controller,user_routes}.go)

A team belongs to its creator and to its members, the users that
[rel_team_user] binds to it; [request] lists the requests of user_routes.go and
[serve] says which of them are behind the middleware. *)

From S2P Require Import Prelude GoFloat GoString Hash Tags Model Json ApiModel ApiDb ApiUic.
From stdpp Require Import options.

Section team.
Context `{Sql D} `{Settings}.
Notation H := (H D).

(** ** model/uic/team.go *)

(** [Select("name, id, cnname")]: the other fields stay blank. *)
Definition member_columns (u : uic.User.t) : uic.User.t :=
  uic.User.mk u.(uic.User.ID) u.(uic.User.Name) u.(uic.User.Cnname) "" "" "" "" "" 0.

Definition of_team (tid : Z) : cond rel_team_user :=
  on (λ x : uic.RelTeamUser.t, bool_decide (x.(uic.RelTeamUser.Tid) = tid)).

Definition Members (this : uic.Team.t) : H (result (list uic.User.t)) :=
  r ← find_all Pool rel_team_user (of_team this.(uic.Team.ID));
  match r with
  | Err e => mret (Err e)
  | Ok tmapping =>
      let uids := uic.RelTeamUser.Uid <$> tmapping in
      if decide (uids = []) then mret (Ok [])
      else
        r ← find_ids user uids;
        mret (match r with Ok users => Ok (member_columns <$> users) | Err e => Err e end)
  end.

(** A failure leaves the name that was set first. *)
Definition GetCreatorName (this : uic.Team.t) : H string :=
  r ← find Pool user (on (λ u, bool_decide (this.(uic.Team.Creator) = 0) || by_id user this.(uic.Team.Creator) u));
  mret (match r with Ok u => u.(uic.User.Name) | Err _ => "unknown" end).

(** ** team_controller.go *)

(** The teams a user may handle: the ones it made and the ones it is a member of. *)
Definition handles (uid : Z) (v : view) (t : uic.Team.t) : bool :=
  existsb (λ b, bool_decide (b.(uic.RelTeamUser.Tid) = t.(uic.Team.ID))
                && bool_decide (b.(uic.RelTeamUser.Uid) = uid)) (v rel_team_user)
  || bool_decide (t.(uic.Team.Creator) = uid).

(** [limit page, limit] *)
Definition limit_rows {A} (page limit : Z) (l : list A) : result (list A) :=
  if (page <? 0) || (limit <? 0) then Err errSQLSyntax
  else Ok (take (Z.to_nat limit) (drop (Z.to_nat page) l)).

Definition CTeam (t : uic.Team.t) (creator : string) (users : list uic.User.t) : json :=
  JObject [("team", uic.Team.enc t); ("creator_name", JString creator);
           ("users", JArray (uic.User.enc <$> users))].

Fixpoint team_outputs (teams : list uic.Team.t) : H (list json) :=
  match teams with
  | [] => mret []
  | t :: teams =>
      r ← Members t;
      users ← check badstatus r;
      creatorName ← GetCreatorName t;
      outputs ← team_outputs teams;
      mret (CTeam t creatorName users :: outputs)
  end.

Definition Teams (c : header) (page limit q : option string) : H () :=
  pl ← check badstatus (PageParser (default "" page) (default "" limit));
  let query := default ".+" q in
  u ← current_user badstatus c;
  r ← (if IsAdmin u then
         r ← find_all Pool team (on (λ t : uic.Team.t, regexp t.(uic.Team.Name) query));
         mret (l ← r;
           if negb (bool_decide (pl.2 = -1)) && negb (bool_decide (pl.1 = -1))
           then limit_rows pl.1 pl.2 l else Ok l)
       else find_all Pool team
              (λ v (t : uic.Team.t), regexp t.(uic.Team.Name) query && handles u.(uic.User.ID) v t));
  teams ← check badstatus r;
  outputs ← team_outputs teams;
  reply StatusOK (MValue (JArray outputs)).

Record APICreateTeamInput : Set := APICreateTeamInput_ {
  cName : string; cResume : string; cUserIDs : list Z }.

(** The loop stops at the first error. *)
Fixpoint bind_new (tid : Z) (uids : list Z) : H (option error) :=
  match uids with
  | [] => mret None
  | uid :: uids =>
      r ← create Pool rel_team_user (uic.RelTeamUser.mk 0 tid uid);
      match r with Err e => mret (Some e) | Ok _ => bind_new tid uids end
  end.

Definition CreateTeam (c : header) (b : bound APICreateTeamInput) : H () :=
  cteam ← check_bind badstatus b;
  u ← current_user badstatus c;
  r ← create Pool team (uic.Team.mk 0 cteam.(cName) cteam.(cResume) u.(uic.User.ID));
  t ← check badstatus r;
  err ← bind_new t.(uic.Team.ID) cteam.(cUserIDs);
  match err with
  | Some e => reply badstatus (MError e)
  | None => reply StatusOK (MString ("team created! Afftect row: 1, Affect refer: "
                                     +:+ Itoa (Z.of_nat (length cteam.(cUserIDs)))))
  end.

Record APIUpdateTeamInput : Set := APIUpdateTeamInput_ {
  tID : Z; tResume : string; tName : string; tUserIDs : list Z }.

(** [Update(&tm)] writes the fields of [tm] that are not blank. *)
Definition update_team (tm : APIUpdateTeamInput) '(uic.Team.mk id name resume creator : uic.Team.t) : uic.Team.t :=
  uic.Team.mk id (if decide (tm.(tName) = "") then name else tm.(tName))
    (if decide (tm.(tResume) = "") then resume else tm.(tResume)) creator.

(** [for _, man := range needDeleteMan] *)
Fixpoint unbind (men : list uic.RelTeamUser.t) : H (option error) :=
  match men with
  | [] => mret None
  | man :: men =>
      r ← delete_from Pool rel_team_user (on (by_pk rel_team_user man));
      match r with Err e => mret (Some e) | Ok _ => unbind men end
  end.

(** [for _, i := range users]: a user is bound when it is not yet; the condition
has the fields that are not blank. *)
Fixpoint bind_missing (tid : Z) (users : list Z) : H (option error) :=
  match users with
  | [] => mret None
  | i :: users =>
      r ← find Pool rel_team_user (on (λ x : uic.RelTeamUser.t,
            (bool_decide (tid = 0) || bool_decide (x.(uic.RelTeamUser.Tid) = tid))
            && (bool_decide (i = 0) || bool_decide (x.(uic.RelTeamUser.Uid) = i))));
      let ur := match r with Ok x => x | Err _ => uic.RelTeamUser.mk 0 tid i end in
      if decide (ur.(uic.RelTeamUser.ID) = 0) then
        r ← create Pool rel_team_user ur;
        match r with Err e => mret (Some e) | Ok _ => bind_missing tid users end
      else bind_missing tid users
  end.

Definition bindUsers (tid : Z) (users : list Z) : H (option error) :=
  match ArrIntToString users with
  | Err e => mret (Some e)
  | Ok _ =>
      r ← find_all Pool rel_team_user (on (λ x : uic.RelTeamUser.t,
            bool_decide (x.(uic.RelTeamUser.Tid) = tid)
            && negb (bool_decide (x.(uic.RelTeamUser.Uid) ∈ users))));
      match r with
      | Err e => mret (Some e)
      | Ok needDeleteMan =>
          err ← unbind needDeleteMan;
          match err with Some e => mret (Some e) | None => bind_missing tid users end
      end
  end.

Definition UpdateTeam (c : header) (b : bound APIUpdateTeamInput) : H () :=
  cteam ← check_bind badstatus b;
  u ← current_user badstatus c;
  r ← find Pool team (λ v t, by_id team cteam.(tID) t && (IsAdmin u || handles u.(uic.User.ID) v t));
  check badstatus r ;;
  r ← (if decide (cteam.(tName) = "" ∧ cteam.(tResume) = "") then mret (Ok 0)
       else update Pool team (on (by_id team cteam.(tID))) (update_team cteam));
  check badstatus r ;;
  err ← bindUsers cteam.(tID) cteam.(tUserIDs);
  match err with
  | Some e => reply badstatus (MError e)
  | None => reply StatusOK (MString "team updated!")
  end.

Definition DeleteTeam (c : header) (teamIdStr : string) : H () :=
  teamId ← check badstatus (Atoi teamIdStr);
  if decide (teamId = 0) then reply badstatus (MString "team_id is empty")
  else
    u ← current_user badstatus c;
    r ← (if IsAdmin u then delete_from Pool team (on (by_id team teamId))
         else
           r ← find Pool team (on (λ t, by_id team teamId t
                 && (bool_decide (u.(uic.User.ID) = 0) || bool_decide (t.(uic.Team.Creator) = u.(uic.User.ID)))));
           match r with
           | Err e => mret (Err e)
           | Ok t =>
               if decide (t.(uic.Team.ID) = 0) then mret (Err "You don't have permission")
               else delete_from Pool team (on (by_id team teamId)) ;; mret (Ok 1)
           end);
    n ← check StatusExpectationFailed r;
    r ← delete_from Pool rel_team_user (of_team teamId);
    let n2 := match r with Ok n => n | Err _ => 0 end in
    reply StatusOK (MString ("team " +:+ Itoa teamId +:+ " is deleted. Affect row: " +:+ Itoa n
                             +:+ " / refer delete: " +:+ Itoa n2)).

(** [resp.TeamCreator] is never set. *)
Definition APIGetTeamOutput (t : uic.Team.t) (users : list uic.User.t) : json :=
  JObject (uic.Team.enc_fields t ++
    [("users", JArray (uic.User.enc <$> users)); ("creator_name", JString "")]).

(** The users of a team; what fails here is logged only. *)
Definition team_answer (t : uic.Team.t) (tid : Z) : H () :=
  r ← find_all Pool rel_team_user (on (λ x : uic.RelTeamUser.t,
        bool_decide (tid = 0) || bool_decide (x.(uic.RelTeamUser.Tid) = tid)));
  let uidarr := match r with Ok l => l | Err _ => [] end in
  if decide (uidarr = []) then reply StatusOK (MValue (APIGetTeamOutput t []))
  else
    r ← find_ids user (uic.RelTeamUser.Uid <$> uidarr);
    reply StatusOK (MValue (APIGetTeamOutput t (match r with Ok l => l | Err _ => [] end))).

(** [Atoi] gives 0 for a text that is not a number. *)
Definition GetTeam (team_id_str : string) : H () :=
  match Atoi team_id_str with
  | Err e => reply badstatus (if decide (e = errRange) then MError e else MString "team_id is empty")
  | Ok team_id =>
      if decide (team_id = 0) then reply badstatus (MString "team_id is empty")
      else
        r ← find Pool team (on (by_id team team_id));
        t ← check badstatus r;
        team_answer t team_id
  end.

Definition GetTeamByName (name : string) : H () :=
  if decide (name = "") then reply badstatus (MString "team name is missing")
  else
    r ← find Pool team (on (λ t : uic.Team.t, text_eq t.(uic.Team.Name) name));
    t ← check badstatus r;
    team_answer t t.(uic.Team.ID).

(** ** user_routes.go *)

Inductive request : Type :=
(* /api/v1/user, without a session *)
| GET_auth_session | POST_login (b : bound APILoginInput) | GET_logout
| POST_create (b : bound APIUserInput)
(* /api/v1/user *)
| GET_current | GET_u (uid : string) | GET_name (user_name : string)
| PUT_update (b : bound APIUserUpdateInput) | PUT_cgpasswd (b : bound APICgPassedInput)
| GET_users (page limit q : option string) | GET_in_teams (uid : string) (team_names : option string)
| GET_teams (uid : string)
(* /api/v1/admin *)
| PUT_change_user_role (b : bound APIRoleUpdate)
| PUT_change_user_passwd (b : bound APIAdminChangePassword)
| PUT_change_user_profile (b : bound APIAdminChangeUserProfileInput)
| DELETE_delete_user (b : bound Z)
(* /api/v1/team *)
| GET_team (page limit q : option string) | GET_team_t (team_id : string)
| GET_team_name (team_name : string) | POST_team (b : bound APICreateTeamInput)
| PUT_team (b : bound APIUpdateTeamInput) | DELETE_team (team_id : string).

Definition serve (c : header) (r : request) : H () :=
  match r with
  | GET_auth_session => AuthSession c
  | POST_login b => Login b
  | GET_logout => Logout c
  | POST_create b => CreateUser c b
  | GET_current => AuthSessionMidd c (UserInfo c)
  | GET_u uid => AuthSessionMidd c (GetUser uid)
  | GET_name n => AuthSessionMidd c (GetUserByName n)
  | PUT_update b => AuthSessionMidd c (UpdateCurrentUser c b)
  | PUT_cgpasswd b => AuthSessionMidd c (ChangePassword c b)
  | GET_users p l q => AuthSessionMidd c (UserList p l q)
  | GET_in_teams uid ts => AuthSessionMidd c (IsUserInTeams uid ts)
  | GET_teams uid => AuthSessionMidd c (GetUserTeams uid)
  | PUT_change_user_role b => AuthSessionMidd c (ChangeRoleOfUser c b)
  | PUT_change_user_passwd b => AuthSessionMidd c (AdminChangePassword c b)
  | PUT_change_user_profile b => AuthSessionMidd c (AdminChangeUserProfile c b)
  | DELETE_delete_user b => AuthSessionMidd c (AdminUserDelete c b)
  | GET_team p l q => AuthSessionMidd c (Teams c p l q)
  | GET_team_t t => AuthSessionMidd c (GetTeam t)
  | GET_team_name n => AuthSessionMidd c (GetTeamByName n)
  | POST_team b => AuthSessionMidd c (CreateTeam c b)
  | PUT_team b => AuthSessionMidd c (UpdateTeam c b)
  | DELETE_team t => AuthSessionMidd c (DeleteTeam c t)
  end.

End team.
