(* ===== verification/ApiTemplate.v ===== *)
(** * The api: templates, actions, strategies and expressions
(modules/api/app/controller/{template,strategy,expression}, model/falcon_portal)

What hbs later reads: a template has strategies and an action, an expression has
an action.  The handlers that write several tables do it in a transaction. *)

From S2P Require Import Prelude GoFloat GoString Hash Tags Model Json Regex ApiModel ApiDb ApiUic.
From Stdlib Require Import Ascii.
From stdpp Require Import options.

(** ** CheckFormat *)

Definition r_class (l : list ascii) : regex := RChar (λ c, bool_decide (c ∈ l)).
(** [^(>|=|<|!)(=)?$] *)
Definition validOp : regex := r_cats [r_class [">"; "="; "<"; "!"]%char; r_opt (r_char "=")].
(** [^\-?\d+(\.\d+)?$] and [^\d+$] *)
Definition validRightValue : regex :=
  r_cats [r_opt (r_char "-"); r_plus r_digit; r_opt (r_cats [r_char "."; r_plus r_digit])].
Definition validNumber : regex := r_plus r_digit.
(** [^\d{2}:\d{2}$] *)
Definition validTime : regex := r_cats [r_digit; r_digit; r_char ":"; r_digit; r_digit].

Definition errOp : error := "op's formating is not vaild".
Definition errRightValue : error := "right_value's formating is not vaild".
Definition errRunBegin : error := "run_begin's formating is not vaild, please refer ex. 00:00".
Definition errRunEnd : error := "run_end's formating is not vaild, please refer ex. 24:00".

Definition check_times (RunBegin RunEnd : string) : result unit :=
  if negb (match_string validTime RunBegin) && negb (bool_decide (RunBegin = "")) then Err errRunBegin
  else if negb (match_string validTime RunEnd) && negb (bool_decide (RunEnd = "")) then Err errRunEnd
  else Ok tt.
Definition check_value (pattern : regex) (Op RightValue : string) : result unit :=
  if negb (match_string validOp Op) then Err errOp
  else if negb (match_string pattern RightValue) then Err errRightValue
  else Ok tt.

Section template.
Context `{Sql D} `{Settings}.
Notation H := (H D).

(** [user, _ := h.GetUser(c)] *)
Definition any_user (c : header) : H uic.User.t := r ← h_GetUser c; mret r.1.

Definition errText (prefix : string) (e : error) : msg := MString (prefix +:+ e).

(** ** model/falcon_portal/tpl.go *)

(** The error of [Find] is logged only. *)
Definition FindParentName (this : f.Template.t) : H string :=
  if decide (this.(f.Template.ParentID) = 0) then mret ""
  else
    r ← find Pool tpl (on (by_id tpl this.(f.Template.ParentID)));
    mret (match r with Ok ptpl => ptpl.(f.Template.Name) | Err _ => "" end).

(** ** template_controller.go *)

Definition CTemplate (t : f.Template.t) (parent : string) : json :=
  JObject [("template", f.Template.enc t); ("parent_name", JString parent)].

Fixpoint template_outputs (templates : list f.Template.t) : H (list json) :=
  match templates with
  | [] => mret []
  | t :: templates =>
      pname ← FindParentName t;
      l ← template_outputs templates;
      mret (CTemplate t pname :: l)
  end.

Definition GetTemplates (page limit q : option string) : H () :=
  pl ← check badstatus (PageParser (default "" page) (default "" limit));
  let q := default ".+" q in
  r ← (if negb (bool_decide (pl.2 = -1)) && negb (bool_decide (pl.1 = -1)) then
         run (RawSelect tpl ("SELECT * from tpl WHERE tpl_name regexp " +:+ q +:+ " limit "
                             +:+ Itoa pl.1 +:+ "," +:+ Itoa pl.2))
       else find_all Pool tpl (on (λ t : f.Template.t, regexp t.(f.Template.Name) q)));
  templates ← check badstatus r;
  output ← template_outputs templates;
  reply StatusOK (MValue (JObject [("templates", JArray output)])).

(** [Select("id, tpl_name")]: the other fields stay blank. *)
Definition GetTemplatesSimple (q : option string) : H () :=
  r ← find_all Pool tpl (on (λ t : f.Template.t, regexp t.(f.Template.Name) (default ".+" q)));
  templates ← check badstatus r;
  reply StatusOK (MValue (JArray
    ((λ t, f.Template.enc (f.Template.mk t.(f.Template.ID) t.(f.Template.Name) 0 0 "")) <$> templates))).

Definition strategies_of (tplId : Z) : cond strategy :=
  on (λ s : f.Strategy.t, bool_decide (s.(f.Strategy.TplId) = tplId)).

Definition GetATemplate (tplidtmp : string) : H () :=
  tplId ← id_param "tpl_id is missing" tplidtmp;
  r ← find Pool tpl (on (by_id tpl tplId));
  t ← check badstatus r;
  r ← find_all Pool strategy (strategies_of tplId);
  stratges ← check badstatus r;
  a ← (if decide (t.(f.Template.ActionID) = 0) then mret f.Action.zero
       else r ← find Pool action (on (by_id action t.(f.Template.ActionID))); check badstatus r);
  pname ← FindParentName t;
  reply StatusOK (MValue (JObject [
    ("action", f.Action.enc a); ("parent_name", JString pname);
    ("stratges", JArray (f.Strategy.enc <$> stratges)); ("template", f.Template.enc t)])).

Record APICreateTemplateInput : Set := APICreateTemplateInput_ {
  ctName : string; ctParentID : Z; ctActionID : Z }.

Definition CreateTemplate (c : header) (b : bound APICreateTemplateInput) : H () :=
  i ← check_bind badstatus b;
  u ← current_user badstatus c;
  if decide (i.(ctName) = "") then reply badstatus (MString "input name is empty, please check it")
  else
    r ← save Pool tpl (f.Template.mk 0 i.(ctName) i.(ctParentID) i.(ctActionID) u.(uic.User.Name));
    check badstatus r ;;
    reply StatusOK (MString "template created").

Record APIUpdateTemplateInput : Set := APIUpdateTemplateInput_ {
  utName : string; utParentID : Z; utTplID : Z }.

Definition UpdateTemplate (c : header) (b : bound APIUpdateTemplateInput) : H () :=
  i ← check_bind badstatus b;
  u ← current_user badstatus c;
  r ← find Pool tpl (on (by_id tpl i.(utTplID)));
  t ← check badstatus r;
  if negb (bool_decide (t.(f.Template.CreateUser) = u.(uic.User.Name))) && negb (IsAdmin u) then
    reply badstatus (MString "You don't have permission!")
  else
    r ← update Pool tpl (on (λ x, by_pk tpl t x && by_id tpl i.(utTplID) x))
          (f.Template.with_Name_Parent i.(utName) i.(utParentID));
    check badstatus r ;;
    reply StatusOK (MString "template updated").

Definition binds_tpl (tplId : Z) : cond grp_tpl :=
  on (λ x : f.GrpTpl.t, bool_decide (x.(f.GrpTpl.TplID) = tplId)).

Definition DeleteTemplate (tidTmp : string) : H () :=
  tplId ← id_param "tpl_id is missing" tidTmp;
  begin DBPool.Falcon ;;
  r ← find Tx tpl (on (by_id tpl tplId));
  t ← check_tx badstatus r;
  (* delete template *)
  let actionId := t.(f.Template.ActionID) in
  r ← delete_from Tx tpl (on (by_pk tpl t));
  check_tx badstatus r ;;
  (* delete action *)
  (if decide (actionId ≠ 0) then
     r ← delete_from Tx action (on (by_id action actionId)); check_tx badstatus r ;; mret tt
   else mret tt) ;;
  (* delete strategy *)
  r ← delete_from Tx strategy (strategies_of tplId);
  check_tx badstatus r ;;
  (* delete grp_tpl *)
  r ← delete_from Tx grp_tpl (binds_tpl tplId);
  check_tx badstatus r ;;
  commit ;;
  reply StatusOK (MString ("template " +:+ Itoa tplId +:+ " has been deleted")).

Definition GetATemplateHostgroup (tplidtmp : string) : H () :=
  tplId ← id_param "tpl_id is missing" tplidtmp;
  r ← find Pool tpl (on (by_id tpl tplId));
  t ← check badstatus r;
  r ← find_all Pool grp_tpl (binds_tpl tplId);
  let tplGrps := match r with Ok l => l | Err _ => [] end in
  hostgroups ← (if decide (tplGrps = []) then mret []
    else r ← find_ids grp (f.GrpTpl.GrpID <$> tplGrps);
         mret (match r with Ok l => l | Err _ => [] end));
  reply StatusOK (MValue (JObject [
    ("hostgroups", JArray (f.HostGroup.enc <$> hostgroups)); ("template", f.Template.enc t)])).

(** The fields of an action, as the forms give them. *)
Record ActionInput : Set := ActionInput_ {
  aUIC : string; aURL : string; aCallback : Z; aBeforeSMS : Z; aAfterSMS : Z; aBeforeMail : Z;
  aAfterMail : Z }.
Definition action_of (id : Z) (i : ActionInput) : f.Action.t :=
  f.Action.mk id i.(aUIC) i.(aURL) i.(aCallback) i.(aBeforeSMS) i.(aBeforeMail) i.(aAfterSMS) i.(aAfterMail).

Record APICreateActionToTmplateInput : Set := APICreateActionToTmplateInput_ {
  caAction : ActionInput; caTplId : Z }.

(** [select LAST_INSERT_ID()]: nothing when the statement fails. *)
Definition last_insert_id : H (list Z) :=
  r ← run (LastInsertId Tx); mret (match r with Ok n => [n] | Err _ => [] end).

Definition CreateActionToTmplate (b : bound APICreateActionToTmplateInput) : H () :=
  i ← check_bind badstatus b;
  begin DBPool.Falcon ;;
  r ← save Tx action (action_of 0 i.(caAction));
  check_tx badstatus r ;;
  lid ← last_insert_id;
  match at_index lid 0 with
  | Panic p => panic_ p
  | Ret aid =>
      r ← find Tx tpl (on (by_id tpl i.(caTplId)));
      match r with
      | Err e => reply_tx badstatus (MString ("template: " +:+ Itoa i.(caTplId) +:+ " ; " +:+ e))
      | Ok t =>
          r ← update Tx tpl (on (by_pk tpl t)) (f.Template.with_ActionID aid);
          check_tx badstatus r ;;
          commit ;;
          reply StatusOK (MString ("action is created and bind to template: " +:+ Itoa i.(caTplId)))
      end
  end.

Record APIUpdateActionToTmplateInput : Set := APIUpdateActionToTmplateInput_ {
  uaID : Z; uaAction : ActionInput }.

Definition UpdateActionToTmplate (b : bound APIUpdateActionToTmplateInput) : H () :=
  i ← check_bind badstatus b;
  begin DBPool.Falcon ;;
  r ← find Tx action (on (by_id action i.(uaID)));
  a ← check_tx badstatus r;
  r ← update Tx action (on (λ x, by_pk action a x && by_id action i.(uaID) x))
        (λ x, action_of x.(f.Action.ID) i.(uaAction));
  n ← check_tx badstatus r;
  commit ;;
  reply StatusOK (MString ("action is updated, row affected: " +:+ Itoa n)).

Definition GetActionByID (aid : string) : H () :=
  match Atoi aid with
  | Err _ => reply badstatus (MString "invalid action id")
  | Ok act_id =>
      r ← first Pool action (on (by_id action act_id));
      act ← check badstatus r;
      reply StatusOK (MValue (f.Action.enc act))
  end.

(** ** strategy_controller.go *)

Definition GetStrategys (tid : option string) : H () :=
  tid ← id_param "tid is missing" (default "" tid);
  r ← find_all Pool strategy (strategies_of tid);
  strategys ← check badstatus r;
  reply StatusOK (MValue (JArray (f.Strategy.enc <$> strategys))).

(** The fields that the forms of a strategy share. *)
Record StrategyInput : Set := StrategyInput_ {
  sMetric : string; sTags : string; sMaxStep : Z; sPriority : Z; sFunc : string; sOp : string;
  sRightValue : string; sNote : string; sRunBegin : string; sRunEnd : string }.
Definition strategy_of (id tplId : Z) (i : StrategyInput) : f.Strategy.t :=
  f.Strategy.mk id i.(sMetric) i.(sTags) i.(sMaxStep) i.(sPriority) i.(sFunc) i.(sOp)
    i.(sRightValue) i.(sNote) i.(sRunBegin) i.(sRunEnd) tplId.

Record APICreateStrategyInput : Set := APICreateStrategyInput_ { csInput : StrategyInput; csTplId : Z }.

Definition CreateStrategy_CheckFormat (i : StrategyInput) : result unit :=
  check_value validRightValue i.(sOp) i.(sRightValue) ≫= λ _, check_times i.(sRunBegin) i.(sRunEnd).

Definition CreateStrategy (b : bound APICreateStrategyInput) : H () :=
  i ← check_bind badstatus b;
  check badstatus (CreateStrategy_CheckFormat i.(csInput)) ;;
  r ← save Pool strategy (strategy_of 0 i.(csTplId) i.(csInput));
  check expecstatus r ;;
  reply StatusOK (MString "stragtegy created").

Definition GetStrategy (sidtmp : string) : H () :=
  sid ← id_param "sid is missing" sidtmp;
  r ← find Pool strategy (on (by_struct strategy sid));
  s ← check badstatus r;
  reply StatusOK (MValue (f.Strategy.enc s)).

Record APIUpdateStrategyInput : Set := APIUpdateStrategyInput_ { usID : Z; usInput : StrategyInput }.

Definition UpdateStrategy_CheckFormat (i : StrategyInput) : result unit :=
  check_value validNumber i.(sOp) i.(sRightValue) ≫= λ _, check_times i.(sRunBegin) i.(sRunEnd).

Definition UpdateStrategy (b : bound APIUpdateStrategyInput) : H () :=
  i ← check_bind badstatus b;
  check badstatus (UpdateStrategy_CheckFormat i.(usInput)) ;;
  r ← find Pool strategy (on (by_struct strategy i.(usID)));
  match r with
  | Err e => reply expecstatus (errText "find strategy got error:" e)
  | Ok s =>
      r ← update Pool strategy (on (by_id strategy s.(f.Strategy.ID)))
            (λ x, strategy_of x.(f.Strategy.ID) x.(f.Strategy.TplId) i.(usInput));
      check expecstatus r ;;
      reply StatusOK (MString ("stragtegy:" +:+ Itoa s.(f.Strategy.ID) +:+ " has been updated"))
  end.

Definition DeleteStrategy (sidtmp : string) : H () :=
  sid ← id_param "sid is missing" sidtmp;
  r ← delete_from Pool strategy (on (by_struct strategy sid));
  check badstatus r ;;
  reply StatusOK (MString ("strategy:" +:+ Itoa sid +:+ " has been deleted")).

(** [ReadFile] is ioutil.ReadFile. *)
Definition MetricQuery (metric_list_file : string) (ReadFile : string → result string) : H () :=
  let filePath := if decide (metric_list_file = "") then "./data/metric" else metric_list_file in
  data ← check badstatus (ReadFile filePath);
  reply StatusOK (MValue (JArray (JString <$> split (ascii_of_nat 10) data))).

(** ** expression_controller.go *)

Definition GetExpressionList (page limit : option string) : H () :=
  pl ← check badstatus (PageParser (default "" page) (default "" limit));
  r ← (if negb (bool_decide (pl.2 = -1)) && negb (bool_decide (pl.1 = -1)) then
         run (RawSelect expression ("SELECT * from expression limit " +:+ Itoa pl.1 +:+ "," +:+ Itoa pl.2))
       else find_all Pool expression (on (λ _, true)));
  expressions ← check badstatus r;
  reply StatusOK (MValue (JArray (f.Expression.enc <$> expressions))).

Definition GetExpression (eidtmp : string) : H () :=
  eid ← id_param "eid is missing" eidtmp;
  r ← find Pool expression (on (by_struct expression eid));
  e ← check badstatus r;
  r ← find Pool action (on (by_struct action e.(f.Expression.ActionId)));
  match r with
  | Err err => reply badstatus (errText "find action got error: " err)
  | Ok a =>
      reply StatusOK (MValue (JObject [("action", f.Action.enc a); ("expression", f.Expression.enc e)]))
  end.

Record ExpressionInput : Set := ExpressionInput_ {
  eExpression : string; eFunc : string; eOp : string; eRightValue : string; eMaxStep : Z;
  ePriority : Z; eNote : string; ePause : Z; eAction : ActionInput; eUIC : list string }.
(** [strings.Join(inputs.Action.UIC, ",")] is the receiver of the action. *)
Definition expression_action (id : Z) (i : ExpressionInput) : f.Action.t :=
  let a := i.(eAction) in
  action_of id (ActionInput_ (join "," i.(eUIC)) a.(aURL) a.(aCallback) a.(aBeforeSMS) a.(aAfterSMS)
                  a.(aBeforeMail) a.(aAfterMail)).

Definition Expression_CheckFormat (i : ExpressionInput) : result unit :=
  check_value validNumber i.(eOp) i.(eRightValue).

Definition CreateExrpession (c : header) (b : bound ExpressionInput) : H () :=
  i ← check_bind badstatus b;
  check badstatus (Expression_CheckFormat i) ;;
  u ← any_user c;
  begin DBPool.Falcon ;;
  r ← save Tx action (expression_action 0 i);
  an ← check_tx expecstatus r;
  r ← save Tx expression (f.Expression.mk 0 i.(eExpression) i.(eFunc) i.(eOp) i.(eRightValue)
        i.(eMaxStep) i.(ePriority) i.(eNote) an.1.(f.Action.ID) u.(uic.User.Name) i.(ePause));
  check_tx expecstatus r ;;
  commit ;;
  reply StatusOK (MString "expression created").

Record APIUpdateExrpessionInput : Set := APIUpdateExrpessionInput_ { ueID : Z; ueInput : ExpressionInput }.

Definition update_expression (i : ExpressionInput) (x : f.Expression.t) : f.Expression.t :=
  f.Expression.mk x.(f.Expression.ID) i.(eExpression) i.(eFunc) i.(eOp) i.(eRightValue) i.(eMaxStep)
    i.(ePriority) i.(eNote) x.(f.Expression.ActionId) x.(f.Expression.CreateUser) i.(ePause).

(** [if dt.Error != nil { h.JSONR(c, code, fmt.Sprintf("...%v", dt.Error)); tx.Rollback(); return }] *)
Definition check_tx_text {A} (code : Z) (prefix : string) (r : result A) : H A :=
  match r with Ok a => mret a | Err e => reply_tx code (errText prefix e) end.

Definition UpdateExrpession (c : header) (b : bound APIUpdateExrpessionInput) : H () :=
  i ← check_bind badstatus b;
  check badstatus (Expression_CheckFormat i.(ueInput)) ;;
  begin DBPool.Falcon ;;
  u ← any_user c;
  r ← find Tx expression (on (by_struct expression i.(ueID)));
  e ← check_tx_text expecstatus "find expression got error:" r;
  if negb (IsAdmin u) && negb (bool_decide (e.(f.Expression.CreateUser) = u.(uic.User.Name))) then
    reply_tx badstatus (MString "You don't have permission!")
  else
    let own := on (by_id expression e.(f.Expression.ID)) in
    r ← update Tx expression own (update_expression i.(ueInput));
    check_tx_text expecstatus "update expression got error: " r ;;
    r ← find Tx expression own;
    e ← check_tx_text expecstatus "update expression got error: " r;
    r ← find Tx action (on (by_id action e.(f.Expression.ActionId)));
    a ← check_tx_text expecstatus "find action got error: " r;
    r ← update Tx action (on (by_id action a.(f.Action.ID)))
          (λ x, expression_action x.(f.Action.ID) i.(ueInput));
    check_tx expecstatus r ;;
    commit ;;
    reply StatusOK (MString ("expression:" +:+ Itoa i.(ueID) +:+ " has been updated")).

(** The expression is read only for a caller that is not an admin. *)
Definition DeleteExpression (c : header) (eidtmp : string) : H () :=
  eid ← id_param "eid is missing" eidtmp;
  begin DBPool.Falcon ;;
  u ← any_user c;
  let blank := f.Expression.with_ID eid f.Expression.zero in
  e ← (if IsAdmin u then mret blank
       else
         r ← find Tx expression (on (by_struct expression eid));
         let e := match r with Ok e => e | Err _ => blank end in
         if decide (e.(f.Expression.CreateUser) ≠ u.(uic.User.Name)) then
           reply_tx badstatus (MString "You don't have permission!")
         else mret e);
  r ← delete_from Tx action (on (by_id action e.(f.Expression.ActionId)));
  check_tx badstatus r ;;
  r ← delete_from Tx expression (on (by_struct expression e.(f.Expression.ID)));
  check_tx badstatus r ;;
  commit ;;
  reply StatusOK (MString ("expression:" +:+ Itoa eid +:+ " has been deleted")).

End template.
