(* ===== verification/ApiHost.v ===== *)
(** * The api: host groups, hosts, plugins, aggregators, maintenance and nodata
(modules/api/app/controller/{host,mockcfg}, model/falcon_portal/{host,cluster}.go)

A host group belongs to the user that made it; hosts, templates, plugins and
aggregators hang on it. *)

From S2P Require Import Prelude GoFloat GoString Hash Tags Model Json ApiModel ApiDb ApiUic ApiTemplate.
From Stdlib Require Import Ascii.
From stdpp Require Import options.

Section host.
Context `{Sql D} `{Settings}.
Notation H := (H D).

Definition errPermission : msg := MString "You don't have permission!".
Definition found_list {A} (r : result (list A)) : list A := match r with Ok l => l | Err _ => [] end.

(** ** model/falcon_portal/host.go, cluster.go *)

(** [Existing] asks outside of the transaction. *)
Definition Existing (this : f.Host.t) : H (option Z) :=
  r ← find Pool host (on (λ x : f.Host.t, text_eq x.(f.Host.Hostname) this.(f.Host.Hostname)));
  let this := match r with Ok x => x | Err _ => this end in
  mret (if decide (this.(f.Host.ID) = 0) then None else Some this.(f.Host.ID)).

Definition hosts_of (grpID : Z) : cond grp_host :=
  on (λ x : f.GrpHost.t, bool_decide (x.(f.GrpHost.GrpID) = grpID)).
Definition groups_of (hostID : Z) : cond grp_host :=
  on (λ x : f.GrpHost.t, bool_decide (x.(f.GrpHost.HostID) = hostID)).

Definition RelatedGrp (this : f.Host.t) : H (list f.HostGroup.t) :=
  r ← find_all Pool grp_host (groups_of this.(f.Host.ID));
  r ← find_ids grp (f.GrpHost.GrpID <$> found_list r);
  mret (found_list r).

Definition RelatedTpl (this : f.Host.t) : H (list f.Template.t) :=
  grps ← RelatedGrp this;
  let gids := f.HostGroup.ID <$> grps in
  r ← (if decide (gids = []) then mret (Err errSQLSyntax)
       else find_all Pool grp_tpl (on (λ x : f.GrpTpl.t, bool_decide (x.(f.GrpTpl.GrpID) ∈ gids))));
  r ← find_ids tpl (f.GrpTpl.TplID <$> found_list r);
  mret (found_list r).

Definition HostGroupName (this : f.Cluster.t) : H (result string) :=
  if decide (this.(f.Cluster.GrpId) = 0) then mret (Ok "")
  else
    r ← find Pool grp (on (by_id grp this.(f.Cluster.GrpId)));
    mret (match r with Ok hg => Ok hg.(f.HostGroup.Name) | Err e => Err e end).

(** ** hostgroup_controller.go *)

Definition GetHostGroups (page limit q : option string) : H () :=
  let q := default ".+" q in
  pl ← check badstatus (PageParser (default "" page) (default "" limit));
  r ← (if negb (bool_decide (pl.2 = -1)) && negb (bool_decide (pl.1 = -1)) then
         run (RawSelect grp ("SELECT * from grp  where grp_name regexp '" +:+ q +:+ "' limit "
                             +:+ Itoa pl.1 +:+ "," +:+ Itoa pl.2))
       else find_all Pool grp (on (λ x : f.HostGroup.t, regexp x.(f.HostGroup.Name) q)));
  hostgroups ← check expecstatus r;
  reply StatusOK (MValue (JArray (f.HostGroup.enc <$> hostgroups))).

Definition CrateHostGroup (c : header) (b : bound string) : H () :=
  name ← check_bind badstatus b;
  u ← any_user c;
  r ← create Pool grp (f.HostGroup.mk 0 name u.(uic.User.Name) 1);
  hostgroup ← check expecstatus r;
  reply StatusOK (MValue (f.HostGroup.enc hostgroup)).

Record APIBindHostToHostGroupInput : Set := APIBindHostToHostGroupInput_ {
  bHosts : list string; bHostGroupID : Z }.

(** [%v] of a slice of integers *)
Definition ids_slice (ids : list Z) : string := "[" +:+ join " " (Itoa <$> ids) +:+ "]".

(** The loop over the host names; the keys of the hosts so far. *)
Fixpoint bind_hosts (grp_id : Z) (hosts : list string) (ids : list Z) : H (list Z) :=
  match hosts with
  | [] => mret ids
  | h :: hosts =>
      let ahost := f.Host.mk 0 h "" "" "" 0 0 in
      e ← Existing ahost;
      id ← (match e with
            | Some id => mret id
            | None => r ← save Tx host ahost; x ← check_tx expecstatus r; mret x.1.(f.Host.ID)
            end);
      r ← create Tx grp_host (f.GrpHost.mk grp_id id);
      match r with
      | Ok _ => bind_hosts grp_id hosts (ids ++ [id])
      | Err e => reply_tx expecstatus (MString ("create grphost got error: " +:+ e +:+ " , grp_id: "
                   +:+ Itoa grp_id +:+ ", host_id: " +:+ Itoa id))
      end
  end.

Definition BindHostToHostGroup (c : header) (b : bound APIBindHostToHostGroupInput) : H () :=
  i ← check_bind badstatus b;
  u ← any_user c;
  r ← find Pool grp (on (by_struct grp i.(bHostGroupID)));
  hostgroup ← check expecstatus r;
  if negb (IsAdmin u) && negb (bool_decide (hostgroup.(f.HostGroup.CreateUser) = u.(uic.User.Name))) then
    reply expecstatus (MString "You don't have permission.")
  else
    let gid := hostgroup.(f.HostGroup.ID) in
    begin DBPool.Falcon ;;
    r ← delete_from Tx grp_host (hosts_of gid);
    check_tx_text expecstatus "delete grp_host got error: " r ;;
    ids ← bind_hosts gid i.(bHosts) [];
    commit ;;
    reply StatusOK (MString (ids_slice ids +:+ " bind to hostgroup: " +:+ Itoa gid)).

(** [if !user.IsAdmin() { find the group; its creator only }] *)
Definition creator_only (u : uic.User.t) (grpID : Z) (code : Z) (prefix : option string) : H () :=
  if IsAdmin u then mret tt
  else
    r ← find Pool grp (on (by_struct grp grpID));
    match r with
    | Err e => reply code (match prefix with Some p => errText p e | None => MError e end)
    | Ok hostgroup =>
        if decide (hostgroup.(f.HostGroup.CreateUser) = u.(uic.User.Name)) then mret tt
        else reply badstatus errPermission
    end.

Record APIUnBindAHostToHostGroup : Set := APIUnBindAHostToHostGroup_ { ubHostID : Z; ubHostGroupID : Z }.

Definition UnBindAHostToHostGroup (c : header) (b : bound APIUnBindAHostToHostGroup) : H () :=
  i ← check_bind badstatus b;
  u ← any_user c;
  creator_only u i.(ubHostGroupID) badstatus None ;;
  r ← delete_from Pool grp_host (on (λ x : f.GrpHost.t,
        bool_decide (x.(f.GrpHost.GrpID) = i.(ubHostGroupID)) && bool_decide (x.(f.GrpHost.HostID) = i.(ubHostID))));
  check expecstatus r ;;
  reply StatusOK (MString ("unbind host:" +:+ Itoa i.(ubHostID) +:+ " of hostgroup: " +:+ Itoa i.(ubHostGroupID))).

Definition DeleteHostGroup (c : header) (grpIDtmp : string) : H () :=
  grpID ← id_param "grp id is missing" grpIDtmp;
  u ← any_user c;
  creator_only u grpID badstatus None ;;
  begin DBPool.Falcon ;;
  (* delete hostgroup referance of grp_host table *)
  r ← delete_from Tx grp_host (hosts_of grpID);
  check_tx_text expecstatus "delete grp_host got error: " r ;;
  (* delete plugins of hostgroup *)
  r ← delete_from Tx plugin_dir (on (λ x : f.Plugin.t, bool_decide (x.(f.Plugin.GrpId) = grpID)));
  check_tx_text expecstatus "delete plugins got error: " r ;;
  (* delete aggreators of hostgroup *)
  r ← delete_from Tx cluster (on (λ x : f.Cluster.t, bool_decide (x.(f.Cluster.GrpId) = grpID)));
  check_tx_text expecstatus "delete aggreators got error: " r ;;
  (* finally delete hostgroup *)
  r ← delete_from Tx grp (on (by_struct grp grpID));
  check_tx expecstatus r ;;
  commit ;;
  reply StatusOK (MString ("hostgroup:" +:+ Itoa grpID +:+ " has been deleted")).

(** The hosts of the rows of grp_host; those that are not found are left out. *)
Fixpoint grp_hosts (keep : f.Host.t → bool) (l : list f.GrpHost.t) : H (list f.Host.t) :=
  match l with
  | [] => mret []
  | grph :: l =>
      r ← find Pool host (on (by_id host grph.(f.GrpHost.HostID)));
      rest ← grp_hosts keep l;
      mret (match r with
            | Ok h => if negb (bool_decide (h.(f.Host.ID) = 0)) && keep h then h :: rest else rest
            | Err _ => rest
            end)
  end.

Definition group_answer (keep : f.Host.t → bool) (grpID : Z) : H () :=
  r ← find Pool grp (on (by_struct grp grpID));
  hostgroup ← check expecstatus r;
  r ← find_all Pool grp_host (hosts_of grpID);
  grpHosts ← check expecstatus r;
  hosts ← grp_hosts keep grpHosts;
  reply StatusOK (MValue (JObject [
    ("hostgroup", f.HostGroup.enc hostgroup); ("hosts", JArray (f.Host.enc <$> hosts))])).

Definition GetHostGroup (grpIDtmp : string) (q : option string) : H () :=
  grpID ← id_param "grp id is missing" grpIDtmp;
  group_answer (λ h, match MatchString (default ".+" q) h.(f.Host.Hostname) with
                     | Ok ok => ok | Err _ => false end) grpID.

Record APIHostGroupInputs : Set := APIHostGroupInputs_ { gID : Z; gName : string }.

(** Nobody's permission is asked for. *)
Definition PutHostGroup (b : bound APIHostGroupInputs) : H () :=
  i ← check_bind badstatus b;
  if HasDangerousCharacters i.(gName) then reply badstatus (MString "grp_name is invalid")
  else
    r ← find Pool grp (on (by_struct grp i.(gID)));
    hostgroup ← check expecstatus r;
    r ← update Pool grp (on (λ x, by_pk grp hostgroup x && by_id grp i.(gID) x))
          (λ x : f.HostGroup.t, f.HostGroup.mk x.(f.HostGroup.ID) i.(gName)
             hostgroup.(f.HostGroup.CreateUser) hostgroup.(f.HostGroup.ComeFrom));
    check badstatus r ;;
    reply StatusOK (MString "hostgroup profile updated").

Record TemplateGroup : Set := TemplateGroup_ { tgTplID : Z; tgGrpID : Z }.
Definition binding (i : TemplateGroup) : cond grp_tpl :=
  on (λ x : f.GrpTpl.t, bool_decide (x.(f.GrpTpl.GrpID) = i.(tgGrpID))
                        && bool_decide (x.(f.GrpTpl.TplID) = i.(tgTplID))).
Definition found_binding (i : TemplateGroup) (r : result (row grp_tpl)) : f.GrpTpl.t :=
  match r with Ok x => x | Err _ => f.GrpTpl.mk i.(tgGrpID) i.(tgTplID) "" end.

Definition BindTemplateToGroup (c : header) (b : bound TemplateGroup) : H () :=
  i ← check_bind badstatus b;
  u ← any_user c;
  r ← find Pool grp_tpl (binding i);
  let grpTpl := found_binding i r in
  if decide (grpTpl.(f.GrpTpl.BindUser) ≠ "") then
    reply badstatus (MError "this binding already existing, reject!")
  else
    let grpTpl := f.GrpTpl.mk grpTpl.(f.GrpTpl.GrpID) grpTpl.(f.GrpTpl.TplID) u.(uic.User.Name) in
    r ← save Pool grp_tpl grpTpl;
    check badstatus r ;;
    reply StatusOK (MValue (f.GrpTpl.enc grpTpl)).

Definition UnBindTemplateToGroup (c : header) (b : bound TemplateGroup) : H () :=
  i ← check_bind badstatus b;
  u ← any_user c;
  r ← find Pool grp_tpl (binding i);
  if negb (IsAdmin u) && negb (bool_decide ((found_binding i r).(f.GrpTpl.BindUser) = u.(uic.User.Name))) then
    reply badstatus (MError "You don't have permission can do this.")
  else
    r ← delete_from Pool grp_tpl (binding i);
    check badstatus r ;;
    reply StatusOK (MString ("template: " +:+ Itoa i.(tgTplID) +:+ " is unbind of HostGroup: " +:+ Itoa i.(tgGrpID))).

Definition GetTemplateOfHostGroup (grpIDtmp : string) : H () :=
  grpID ← id_param "grp id is missing" grpIDtmp;
  r ← find Pool grp (on (by_struct grp grpID));
  hostgroup ← check expecstatus r;
  r ← find_all Pool grp_tpl (on (λ x : f.GrpTpl.t, bool_decide (x.(f.GrpTpl.GrpID) = grpID)));
  let grpTpls := found_list r in
  tpls ← (if decide (grpTpls = []) then mret []
          else r ← find_ids tpl (f.GrpTpl.TplID <$> grpTpls); mret (found_list r));
  reply StatusOK (MValue (JObject [
    ("hostgroup", f.HostGroup.enc hostgroup); ("templates", JArray (f.Template.enc <$> tpls))])).

(** ** host_controller.go *)

Definition GetHostBindToWhichHostGroup (HostIdTmp : string) : H () :=
  hostID ← id_param "host id is missing" HostIdTmp;
  r ← find_all Pool grp_host (groups_of hostID);
  let grpIds := f.GrpHost.GrpID <$> found_list r in
  hostgroups ← (if decide (grpIds = []) then mret []
                else r ← find_ids grp grpIds; mret (found_list r));
  reply StatusOK (MValue (JArray (f.HostGroup.enc <$> hostgroups))).

Definition GetHostGroupWithTemplate (grpIDtmp : string) : H () :=
  grpID ← id_param "grp id is missing" grpIDtmp;
  group_answer (λ _, true) grpID.

Definition GetGrpsRelatedHost (hostIDtmp : string) : H () :=
  hostID ← id_param "host id is missing" hostIDtmp;
  r ← find Pool host (on (by_struct host hostID));
  h ← check expecstatus r;
  grps ← RelatedGrp h;
  reply StatusOK (MValue (JArray (f.HostGroup.enc <$> grps))).

Definition GetTplsRelatedHost (hostIDtmp : string) : H () :=
  hostID ← id_param "host id is missing" hostIDtmp;
  r ← find Pool host (on (by_struct host hostID));
  h ← check expecstatus r;
  tpls ← RelatedTpl h;
  reply StatusOK (MValue (JArray (f.Template.enc <$> tpls))).

(** ** plugins_controller.go *)

Record APICreatePluginInput : Set := APICreatePluginInput_ { pGrpId : Z; pDirPaht : string }.

Definition CreatePlugin (c : header) (b : bound APICreatePluginInput) : H () :=
  i ← check_bind badstatus b;
  u ← any_user c;
  creator_only u i.(pGrpId) expecstatus None ;;
  r ← save Pool plugin_dir (f.Plugin.mk 0 i.(pGrpId) i.(pDirPaht) u.(uic.User.Name));
  p ← check expecstatus r;
  reply StatusOK (MValue (f.Plugin.enc p.1)).

Definition GetPluginOfGrp (grpIDtmp : string) : H () :=
  grpID ← id_param "grp id is missing" grpIDtmp;
  r ← find_all Pool plugin_dir (on (λ x : f.Plugin.t, bool_decide (x.(f.Plugin.GrpId) = grpID)));
  plugins ← check expecstatus r;
  reply StatusOK (MValue (JArray (f.Plugin.enc <$> plugins))).

(** [if !user.IsAdmin() { ... }] where the creator of the row may act too. *)
Definition creator_or (u : uic.User.t) (grpID : Z) (maker : string) (prefix : option string) : H () :=
  if IsAdmin u then mret tt
  else
    r ← find Pool grp (on (by_struct grp grpID));
    match r with
    | Err e => reply expecstatus (match prefix with Some p => errText p e | None => MError e end)
    | Ok hostgroup =>
        if negb (bool_decide (hostgroup.(f.HostGroup.CreateUser) = u.(uic.User.Name)))
           && negb (bool_decide (maker = u.(uic.User.Name)))
        then reply badstatus errPermission else mret tt
    end.

Definition DeletePlugin (c : header) (pluginIDtmp : string) : H () :=
  pluginID ← id_param "plugin id is missing" pluginIDtmp;
  r ← find Pool plugin_dir (on (by_struct plugin_dir pluginID));
  plugin ← check expecstatus r;
  u ← any_user c;
  creator_or u plugin.(f.Plugin.GrpId) plugin.(f.Plugin.CreateUser) None ;;
  r ← delete_from Pool plugin_dir (on (by_pk plugin_dir plugin));
  check expecstatus r ;;
  reply StatusOK (MString ("plugin:" +:+ Itoa pluginID +:+ " has been deleted")).

(** ** aggreator_controller.go *)

Definition GetAggregatorListOfGrp (grpIDtmp : string) (page limit : option string) : H () :=
  pl ← check badstatus (PageParser (default "" page) (default "" limit));
  grpID ← id_param "grp id is missing" grpIDtmp;
  r ← (if negb (bool_decide (pl.2 = -1)) && negb (bool_decide (pl.1 = -1)) then
         run (RawSelect cluster ("SELECT * from cluster WHERE grp_id = " +:+ Itoa grpID +:+ " limit "
                                 +:+ Itoa pl.1 +:+ "," +:+ Itoa pl.2))
       else find_all Pool cluster (on (λ x : f.Cluster.t, bool_decide (x.(f.Cluster.GrpId) = grpID))));
  aggregators ← check expecstatus r;
  hostgroupName ← (match aggregators with
                   | [] => mret ""
                   | a :: _ => r ← HostGroupName a; check badstatus r
                   end);
  reply StatusOK (MValue (JObject [
    ("aggregators", JArray (f.Cluster.enc <$> aggregators)); ("hostgroup", JString hostgroupName)])).

Definition GetAggregator (aggIDtmp : string) : H () :=
  aggID ← id_param "agg id is missing" aggIDtmp;
  r ← find Pool cluster (on (by_struct cluster aggID));
  aggregator ← check expecstatus r;
  reply StatusOK (MValue (f.Cluster.enc aggregator)).

Record AggregatorInput : Set := AggregatorInput_ {
  gNumerator : string; gDenominator : string; gEndpoint : string; gMetric : string; gTags : string;
  gStep : Z }.
Record APICreateAggregatorInput : Set := APICreateAggregatorInput_ { cgGrpId : Z; cgInput : AggregatorInput }.

Definition CreateAggregator (c : header) (b : bound APICreateAggregatorInput) : H () :=
  match b.(bind_err) with
  | Some e => reply badstatus (errText "binding error: " e)
  | None =>
      let i := b.(inputs) in
      let a := i.(cgInput) in
      u ← any_user c;
      creator_only u i.(cgGrpId) expecstatus (Some "find hostgroup error: ") ;;
      r ← create Pool cluster (f.Cluster.mk 0 i.(cgGrpId) a.(gNumerator) a.(gDenominator) a.(gEndpoint)
            a.(gMetric) a.(gTags) "GAUGE" a.(gStep) u.(uic.User.Name));
      match r with
      | Err e => reply expecstatus (errText "create aggregator got error: " e)
      | Ok agg => reply StatusOK (MValue (f.Cluster.enc agg))
      end
  end.

Record APIUpdateAggregatorInput : Set := APIUpdateAggregatorInput_ { ugID : Z; ugInput : AggregatorInput }.

Definition update_aggregator (a : AggregatorInput) (x : f.Cluster.t) : f.Cluster.t :=
  f.Cluster.mk x.(f.Cluster.ID) x.(f.Cluster.GrpId) a.(gNumerator) a.(gDenominator) a.(gEndpoint)
    a.(gMetric) a.(gTags) x.(f.Cluster.DsType) a.(gStep) x.(f.Cluster.Creator).

Definition UpdateAggregator (c : header) (b : bound APIUpdateAggregatorInput) : H () :=
  i ← check_bind badstatus b;
  r ← find Pool cluster (on (by_struct cluster i.(ugID)));
  aggregator ← check expecstatus r;
  u ← any_user c;
  creator_or u aggregator.(f.Cluster.GrpId) aggregator.(f.Cluster.Creator) (Some "find hostgroup got error: ") ;;
  let own := on (by_id cluster aggregator.(f.Cluster.ID)) in
  r ← update Pool cluster own (update_aggregator i.(ugInput));
  check expecstatus r ;;
  r ← find Pool cluster own;
  aggregator ← check expecstatus r;
  reply StatusOK (MValue (f.Cluster.enc aggregator)).

Definition DeleteAggregator (c : header) (aggIDtmp : string) : H () :=
  aggID ← id_param "agg id is missing" aggIDtmp;
  r ← find Pool cluster (on (by_struct cluster aggID));
  match r with
  | Err e => reply expecstatus (errText "find aggregator got error: " e)
  | Ok aggregator =>
      u ← any_user c;
      creator_only u aggregator.(f.Cluster.GrpId) expecstatus (Some "find hostgroup got error: ") ;;
      r ← delete_from Pool cluster (on (λ x, by_pk cluster aggregator x && by_id cluster aggID x));
      match r with
      | Err e => reply expecstatus (errText "delete aggregator got error: " e)
      | Ok _ => reply StatusOK (MString ("aggregator:" +:+ Itoa aggID +:+ " has been deleted"))
      end
  end.

(** ** maintain_controller.go *)

Record MaintainInput : Set := MaintainInput_ { mHosts : list string; mIds : list Z; mBegin : Z; mEnd : Z }.

(** [SetMaintain], and [UnsetMaintain] with zeros. *)
Definition set_maintain (i : MaintainInput) (begin_ end_ : Z) : H () :=
  m ← (if decide (i.(mHosts) ≠ []) then
         r ← update Pool host (on (λ x : f.Host.t, existsb (text_eq x.(f.Host.Hostname)) i.(mHosts)))
               (f.Host.with_maintain begin_ end_);
         mret ("hosts", r)
       else if decide (i.(mIds) ≠ []) then
         r ← update Pool host (on (λ x : f.Host.t, bool_decide (x.(f.Host.ID) ∈ i.(mIds))))
               (f.Host.with_maintain begin_ end_);
         mret ("ids", r)
       else reply badstatus (MString "hosts or ids is required"));
  n ← check badstatus m.2;
  reply StatusOK (MString ("Through: " +:+ m.1 +:+ ", Affect row: " +:+ Itoa n)).

Definition SetMaintain (b : bound MaintainInput) : H () :=
  i ← check_bind badstatus b; set_maintain i i.(mBegin) i.(mEnd).
Definition UnsetMaintain (b : bound MaintainInput) : H () :=
  i ← check_bind badstatus b; set_maintain i 0 0.

(** ** mockcfg *)

Definition dquote : string := String (ascii_of_nat 34) "".
Definition errObjType : error := "obj_type only accpect " +:+ dquote +:+ "group, host, other" +:+ dquote.
Definition Mockcfg_CheckFormat (ObjType : string) : result unit :=
  if decide (ObjType = "group" ∨ ObjType = "host" ∨ ObjType = "other") then Ok tt else Err errObjType.

Definition GetNoDataList (page limit : option string) : H () :=
  pl ← check badstatus (PageParser (default "" page) (default "" limit));
  r ← (if negb (bool_decide (pl.2 = -1)) && negb (bool_decide (pl.1 = -1)) then
         run (RawSelect mockcfg ("SELECT * from mockcfg limit " +:+ Itoa pl.1 +:+ "," +:+ Itoa pl.2))
       else find_all Pool mockcfg (on (λ _, true)));
  mockcfgs ← check badstatus r;
  reply StatusOK (MValue (JArray (f.Mockcfg.enc <$> mockcfgs))).

Definition GetNoData (nidtmp : string) : H () :=
  nid ← id_param "nid is missing" nidtmp;
  r ← find Pool mockcfg (on (by_struct mockcfg nid));
  m ← check badstatus r;
  reply StatusOK (MValue (f.Mockcfg.enc m)).

Record MockcfgInput : Set := MockcfgInput_ {
  mObj : string; mObjType : string; mMetric : string; mTags : string; mDsType : string; mStep : Z;
  mMock : float64 }.
Definition mockcfg_of (id : Z) (name creator : string) (i : MockcfgInput) : f.Mockcfg.t :=
  f.Mockcfg.mk id name i.(mObj) i.(mObjType) i.(mMetric) i.(mTags) i.(mDsType) i.(mStep) i.(mMock) creator.
Record APICreateNoDataInputs : Set := APICreateNoDataInputs_ { nName : string; nInput : MockcfgInput }.

Definition CreateNoData (c : header) (b : bound APICreateNoDataInputs) : H () :=
  i ← check_bind badstatus b;
  check badstatus (Mockcfg_CheckFormat i.(nInput).(mObjType)) ;;
  u ← any_user c;
  r ← save Pool mockcfg (mockcfg_of 0 i.(nName) u.(uic.User.Name) i.(nInput));
  m ← check expecstatus r;
  reply StatusOK (MValue (f.Mockcfg.enc m.1)).

Record APIUpdateNoDataInputs : Set := APIUpdateNoDataInputs_ { nID : Z; unInput : MockcfgInput }.

Definition UpdateNoData (b : bound APIUpdateNoDataInputs) : H () :=
  i ← check_bind badstatus b;
  check badstatus (Mockcfg_CheckFormat i.(unInput).(mObjType)) ;;
  let own := on (λ x, by_struct mockcfg i.(nID) x && by_id mockcfg i.(nID) x) in
  r ← update Pool mockcfg own
        (λ x, mockcfg_of x.(f.Mockcfg.ID) x.(f.Mockcfg.Name) x.(f.Mockcfg.Creator) i.(unInput));
  check expecstatus r ;;
  r ← find Pool mockcfg own;
  m ← check expecstatus r;
  reply StatusOK (MValue (f.Mockcfg.enc m)).

Definition DeleteNoData (nidtmp : string) : H () :=
  nid ← id_param "nid is missing" nidtmp;
  r ← delete_from Pool mockcfg (on (by_struct mockcfg nid));
  check badstatus r ;;
  reply StatusOK (MString ("mockcfg:" +:+ Itoa nid +:+ " is deleted")).

(** ** The requests of the portal, and the routes that ask for a session *)

Inductive portal_request : Type :=
(* template_routes.go *)
| GET_template (page limit q : option string) | POST_template (b : bound APICreateTemplateInput)
| GET_template_id (tpl_id : string) | PUT_template (b : bound APIUpdateTemplateInput)
| GET_template_hostgroup (tpl_id : string) | DELETE_template (tpl_id : string)
| POST_template_action (b : bound APICreateActionToTmplateInput)
| PUT_template_action (b : bound APIUpdateActionToTmplateInput)
| GET_action (act_id : string) | GET_template_simple (q : option string)
(* strategy_routes.go *)
| GET_strategies (tid : option string) | GET_strategy (sid : string)
| POST_strategy (b : bound APICreateStrategyInput) | PUT_strategy (b : bound APIUpdateStrategyInput)
| DELETE_strategy (sid : string)
(* expression_routes.go *)
| GET_expressions (page limit : option string) | GET_expression (eid : string)
| POST_expression (b : bound ExpressionInput) | PUT_expression (b : bound APIUpdateExrpessionInput)
| DELETE_expression (eid : string)
(* host_routes.go *)
| GET_hostgroups (page limit q : option string) | POST_hostgroup (b : bound string)
| POST_hostgroup_host (b : bound APIBindHostToHostGroupInput)
| PUT_hostgroup_host (b : bound APIUnBindAHostToHostGroup)
| GET_hostgroup (host_group : string) (q : option string) | PUT_hostgroup (b : bound APIHostGroupInputs)
| DELETE_hostgroup (host_group : string)
| GET_plugins (host_group : string) | POST_plugin (b : bound APICreatePluginInput) | DELETE_plugin (id : string)
| GET_aggregators (host_group : string) (page limit : option string) | GET_aggregator (id : string)
| POST_aggregator (b : bound APICreateAggregatorInput) | PUT_aggregator (b : bound APIUpdateAggregatorInput)
| DELETE_aggregator (id : string)
| POST_hostgroup_template (b : bound TemplateGroup) | PUT_hostgroup_template (b : bound TemplateGroup)
| GET_hostgroup_template (host_group : string)
| GET_host_template (host_id : string) | GET_host_hostgroup (host_id : string)
| POST_maintain (b : bound MaintainInput) | DELETE_maintain (b : bound MaintainInput)
(* mockcfg_routes.go *)
| GET_nodata_list (page limit : option string) | GET_nodata (nid : string)
| POST_nodata (b : bound APICreateNoDataInputs) | PUT_nodata (b : bound APIUpdateNoDataInputs)
| DELETE_nodata (nid : string).

Definition portal_handler (c : header) (r : portal_request) : H () :=
  match r with
  | GET_template p l q => GetTemplates p l q
  | POST_template b => CreateTemplate c b
  | GET_template_id i => GetATemplate i
  | PUT_template b => UpdateTemplate c b
  | GET_template_hostgroup i => GetATemplateHostgroup i
  | DELETE_template i => DeleteTemplate i
  | POST_template_action b => CreateActionToTmplate b
  | PUT_template_action b => UpdateActionToTmplate b
  | GET_action i => GetActionByID i
  | GET_template_simple q => GetTemplatesSimple q
  | GET_strategies tid => GetStrategys tid
  | GET_strategy i => GetStrategy i
  | POST_strategy b => CreateStrategy b
  | PUT_strategy b => UpdateStrategy b
  | DELETE_strategy i => DeleteStrategy i
  | GET_expressions p l => GetExpressionList p l
  | GET_expression i => GetExpression i
  | POST_expression b => CreateExrpession c b
  | PUT_expression b => UpdateExrpession c b
  | DELETE_expression i => DeleteExpression c i
  | GET_hostgroups p l q => GetHostGroups p l q
  | POST_hostgroup b => CrateHostGroup c b
  | POST_hostgroup_host b => BindHostToHostGroup c b
  | PUT_hostgroup_host b => UnBindAHostToHostGroup c b
  | GET_hostgroup i q => GetHostGroup i q
  | PUT_hostgroup b => PutHostGroup b
  | DELETE_hostgroup i => DeleteHostGroup c i
  | GET_plugins i => GetPluginOfGrp i
  | POST_plugin b => CreatePlugin c b
  | DELETE_plugin i => DeletePlugin c i
  | GET_aggregators i p l => GetAggregatorListOfGrp i p l
  | GET_aggregator i => GetAggregator i
  | POST_aggregator b => CreateAggregator c b
  | PUT_aggregator b => UpdateAggregator c b
  | DELETE_aggregator i => DeleteAggregator c i
  | POST_hostgroup_template b => BindTemplateToGroup c b
  | PUT_hostgroup_template b => UnBindTemplateToGroup c b
  | GET_hostgroup_template i => GetTemplateOfHostGroup i
  | GET_host_template i => GetTplsRelatedHost i
  | GET_host_hostgroup i => GetGrpsRelatedHost i
  | POST_maintain b => SetMaintain b
  | DELETE_maintain b => UnsetMaintain b
  | GET_nodata_list p l => GetNoDataList p l
  | GET_nodata i => GetNoData i
  | POST_nodata b => CreateNoData c b
  | PUT_nodata b => UpdateNoData b
  | DELETE_nodata i => DeleteNoData i
  end.

(** The groups /action and /template_simple do not use the middleware. *)
Definition portal_open (r : portal_request) : bool :=
  match r with GET_action _ | GET_template_simple _ => true | _ => false end.

Definition portal_serve (c : header) (r : portal_request) : H () :=
  if portal_open r then portal_handler c r else AuthSessionMidd c (portal_handler c r).

End host.
