(* ===== verification/ApiDash.v ===== *)
(** * The api: dashboards
(modules/api/app/controller/{dashboard_graph,dashboard_screen}, model/dashboard)

Screens, their graphs, and the graphs that are made for one look.  A graph keeps
its endpoints and counters as one text each, sorted and with ["|"] between them. *)

From S2P Require Import Prelude GoFloat GoString Hash Tags Model Json Regex ApiModel ApiDb ApiUic ApiTemplate.
From Stdlib Require Import Ascii.
From stdpp Require Import options.

(** ** gorm's reading of a limit: [strconv.ParseInt(s, 0, 0)]; [-1] is no limit *)

Definition digit36 (c : ascii) : Z :=
  if byte_in 48 57 c then byte_of c - 48
  else if byte_in 97 122 c then byte_of c - 87
  else if byte_in 65 90 c then byte_of c - 55 else 36.
Fixpoint digits_in (base acc : Z) (s : string) : option Z :=
  match s with
  | "" => Some acc
  | String c s => let d := digit36 c in if d <? base then digits_in base (acc * base + d) s else None
  end.
Definition parse_base0 (s : string) : option Z :=
  match s with
  | "" => None
  | String "0" (String "x" s) | String "0" (String "X" s) => if decide (s = "") then None else digits_in 16 0 s
  | String "0" s => digits_in 8 0 s
  | s => digits_in 10 0 s
  end.
Definition limit_of (s : string) : Z :=
  let '(neg, digits) := sign_of s in
  match parse_base0 digits with
  | Some n => let n := if neg then - n else n in if (0 <=? n) && (n <? 2 ^ 63) then n else -1
  | None => -1
  end.

Section dash.
Context `{Sql D} `{Settings}.
Notation H := (H D).

Notation GraphRow := dashboard.DashboardGraph.mk.

Definition TMP_GRAPH_FILED_DELIMITER : string := "|".
(** [sort.Strings(l); strings.Join(l, "|")] and [strings.Split(s, "|")] *)
Definition joined (l : list string) : string := join TMP_GRAPH_FILED_DELIMITER (sort_strings l).
Definition split_bar (s : string) : json := JArray (JString <$> split "|" s).

(** ** dashboard_graph_controller.go *)

Record APITmpGraphCreateReqData : Set := TmpGraphReq { tEndpoints : list string; tCounters : list string }.

Definition tmp_key (es cs : string) : string := Md5 (es +:+ ":" +:+ cs).

Definition DashboardTmpGraphCreate (b : bound APITmpGraphCreateReqData) : H () :=
  i ← check_bind badstatus b;
  let es := joined i.(tEndpoints) in
  let cs := joined i.(tCounters) in
  let ck := tmp_key es cs in
  r ← run (InsertIgnore Pool tmp_graph (dashboard.DashboardTmpGraph.mk 0 es cs ck));
  check badstatus r ;;
  r ← first Pool tmp_graph (on (λ x : dashboard.DashboardTmpGraph.t, text_eq x.(dashboard.DashboardTmpGraph.CK) ck));
  g ← check badstatus r;
  reply StatusOK (MValue (JObject [("id", JInt g.(dashboard.DashboardTmpGraph.ID))])).

Definition DashboardTmpGraphQuery (id : string) : H () :=
  r ← first Pool tmp_graph (on (λ x : dashboard.DashboardTmpGraph.t, num_eq x.(dashboard.DashboardTmpGraph.ID) id));
  g ← check badstatus r;
  reply StatusOK (MValue (JObject [
    ("counters", split_bar g.(dashboard.DashboardTmpGraph.Counters));
    ("endpoints", split_bar g.(dashboard.DashboardTmpGraph.Endpoints)) ])).

(** [APIGraphCreateReqData] and [APIGraphUpdateReqData] have the same fields. *)
Record GraphReqData : Set := GraphReq {
  ScreenId : Z; Title : string; Endpoints : list string; Counters : list string; TimeSpan : Z;
  GraphType : string; Method : string; Position : Z; FalconTags : string }.

(** The tags of the request are not kept. *)
Definition new_graph (i : GraphReqData) : dashboard.DashboardGraph.t :=
  GraphRow 0 i.(Title) (joined i.(Endpoints)) (joined i.(Counters)) i.(ScreenId)
    (if decide (i.(TimeSpan) = 0) then 3600 else i.(TimeSpan))
    (if decide (i.(GraphType) = "") then "h" else i.(GraphType)) i.(Method) i.(Position) "".

Definition DashboardGraphCreate (b : bound GraphReqData) : H () :=
  i ← check_bind badstatus b;
  begin DBPool.Dashboard ;;
  r ← create Tx dashboard_graph (new_graph i);
  match r with
  | Err e => rollback ;; reply badstatus (MError e)
  | Ok _ =>
      r ← run (LastInsertId Tx);
      match r with
      | Err e => rollback ;; reply badstatus (MError e)
      | Ok aid => commit ;; reply StatusOK (MValue (JObject [("id", JInt aid)]))
      end
  end.

(** The structure [d] of the request, and [Updates(d)]: the fields of [d] that are
not blank. *)
Definition graph_changes (i : GraphReqData) : dashboard.DashboardGraph.t :=
  GraphRow 0 i.(Title) (if decide (i.(Endpoints) = []) then "" else joined i.(Endpoints))
    (if decide (i.(Counters) = []) then "" else joined i.(Counters)) i.(ScreenId) i.(TimeSpan)
    i.(GraphType) i.(Method) i.(Position) i.(FalconTags).
Definition or_else {A} `{EqDecision A} (blank new old : A) : A := if decide (new = blank) then old else new.
Definition with_changes (d x : dashboard.DashboardGraph.t) : dashboard.DashboardGraph.t :=
  let '(GraphRow _ t h c s n y m p f) := d in
  let '(GraphRow id t' h' c' s' n' y' m' p' f') := x in
  GraphRow id (or_else "" t t') (or_else "" h h') (or_else "" c c') (or_else 0 s s') (or_else 0 n n')
    (or_else "" y y') (or_else "" m m') (or_else 0 p p') (or_else "" f f').

(** [strconv.Atoi] of a parameter of the path. *)
Definition path_id (what s : string) : H Z :=
  match Atoi s with Ok n => mret n | Err _ => reply badstatus (MString ("invalid " +:+ what)) end.

Definition id_answer (n : Z) : msg := MValue (JObject [("id", JInt n)]).

Definition DashboardGraphUpdate (id : string) (b : bound GraphReqData) : H () :=
  gid ← path_id "graph id" id;
  i ← check_bind badstatus b;
  let d := graph_changes i in
  (if decide (d = dashboard.DashboardGraph.zero) then mret tt
   else r ← update Pool dashboard_graph (on (by_id dashboard_graph gid)) (with_changes d);
        check badstatus r ;; mret tt) ;;
  reply StatusOK (id_answer gid).

Definition graph_json (g : dashboard.DashboardGraph.t) : json :=
  JObject [
    ("counters", split_bar g.(dashboard.DashboardGraph.Counters));
    ("endpoints", split_bar g.(dashboard.DashboardGraph.Hosts));
    ("falcon_tags", JString g.(dashboard.DashboardGraph.FalconTags));
    ("graph_id", JInt g.(dashboard.DashboardGraph.ID));
    ("graph_type", JString g.(dashboard.DashboardGraph.GraphType));
    ("method", JString g.(dashboard.DashboardGraph.Method));
    ("position", JInt g.(dashboard.DashboardGraph.Position));
    ("screen_id", JInt g.(dashboard.DashboardGraph.ScreenId));
    ("timespan", JInt g.(dashboard.DashboardGraph.TimeSpan));
    ("title", JString g.(dashboard.DashboardGraph.Title)) ].

Definition DashboardGraphGet (id : string) : H () :=
  gid ← path_id "graph id" id;
  r ← first Pool dashboard_graph (on (by_id dashboard_graph gid));
  g ← check badstatus r;
  reply StatusOK (MValue (graph_json g)).

Definition DashboardGraphDelete (id : string) : H () :=
  gid ← path_id "graph id" id;
  r ← delete_from Pool dashboard_graph (on (by_id dashboard_graph gid));
  check badstatus r ;;
  reply StatusOK (id_answer gid).

Definition DashboardGraphGetsByScreenID (id : string) (limit : option string) : H () :=
  sid ← path_id "screen id" id;
  let limit := default "500" limit in
  r ← find_page Pool dashboard_graph
        (on (λ g : dashboard.DashboardGraph.t, bool_decide (g.(dashboard.DashboardGraph.ScreenId) = sid)))
        (limit_of limit) 0;
  graphs ← check badstatus r;
  reply StatusOK (MValue (JArray (graph_json <$> graphs))).

(** ** dashboard_screen_controller.go *)

Definition ScreenCreate (pid name : option string) : H () :=
  let pid := default "0" pid in
  let name := default "" name in
  if decide (name = "") then reply badstatus (MString "empty name")
  else
    ipid ← path_id "screen pid" pid;
    r ← run (InsertIgnore Pool dashboard_screen (dashboard.DashboardScreen.mk 0 ipid name));
    check badstatus r ;;
    r ← find_page Pool dashboard_screen
          (on (λ s : dashboard.DashboardScreen.t, bool_decide (s.(dashboard.DashboardScreen.PID) = ipid)
             && text_eq s.(dashboard.DashboardScreen.Name) name)) 1 0;
    match r with
    | Err e => reply badstatus (MError e)
    | Ok [] => reply badstatus MNil
    | Ok (s :: _) => reply StatusOK (MValue (JObject [
          ("id", JInt s.(dashboard.DashboardScreen.ID)); ("name", JString name); ("pid", JInt ipid)]))
    end.

Definition ScreenGet (id : string) : H () :=
  sid ← path_id "screen id" id;
  r ← first Pool dashboard_screen (on (by_id dashboard_screen sid));
  s ← check badstatus r;
  reply StatusOK (MValue (dashboard.DashboardScreen.enc s)).

Definition ScreenGetsByPid (id : string) : H () :=
  pid ← path_id "screen pid" id;
  r ← find_all Pool dashboard_screen
        (on (λ s : dashboard.DashboardScreen.t, bool_decide (s.(dashboard.DashboardScreen.PID) = pid)));
  screens ← check badstatus r;
  reply StatusOK (MValue (JArray (dashboard.DashboardScreen.enc <$> screens))).

Definition ScreenGetsAll (limit : option string) : H () :=
  r ← find_page Pool dashboard_screen (on (λ _, true)) (limit_of (default "500" limit)) 0;
  screens ← check badstatus r;
  reply StatusOK (MValue (JArray (dashboard.DashboardScreen.enc <$> screens))).

Definition ScreenDelete (id : string) : H () :=
  sid ← path_id "screen id" id;
  r ← delete_from Pool dashboard_screen (on (by_id dashboard_screen sid));
  check badstatus r ;;
  reply StatusOK (MString "ok").

(** A form field that is missing is blank; without a field nothing is sent to the
database. *)
Definition ScreenUpdate (id pid name : string) : H () :=
  sid ← path_id "screen id" id;
  ipid ← (if decide (pid = "") then mret None else n ← path_id "screen pid" pid; mret (Some n));
  (if bool_decide (name = "") && bool_decide (pid = "") then mret tt
   else
     r ← update Pool dashboard_screen (on (by_id dashboard_screen sid))
           (λ s : row dashboard_screen, dashboard.DashboardScreen.mk s.(dashboard.DashboardScreen.ID)
              (default s.(dashboard.DashboardScreen.PID) ipid) (or_else "" name s.(dashboard.DashboardScreen.Name)));
     check badstatus r ;; mret tt) ;;
  reply StatusOK (MString "ok").

(** ** The routes *)

Inductive dash_request : Type :=
| POST_tmpgraph (b : bound APITmpGraphCreateReqData) | GET_tmpgraph (id : string)
| POST_graph (b : bound GraphReqData) | PUT_graph (id : string) (b : bound GraphReqData)
| GET_graph (id : string) | DELETE_graph (id : string)
| GET_screen_graphs (screen_id : string) (limit : option string)
| POST_screen (pid name : option string) | GET_screen (screen_id : string)
| GET_screens_pid (pid : string) | GET_screens (limit : option string)
| DELETE_screen (screen_id : string) | PUT_screen (screen_id pid name : string).

Definition dash_handler (r : dash_request) : H () :=
  match r with
  | POST_tmpgraph b => DashboardTmpGraphCreate b
  | GET_tmpgraph i => DashboardTmpGraphQuery i
  | POST_graph b => DashboardGraphCreate b
  | PUT_graph i b => DashboardGraphUpdate i b
  | GET_graph i => DashboardGraphGet i
  | DELETE_graph i => DashboardGraphDelete i
  | GET_screen_graphs i l => DashboardGraphGetsByScreenID i l
  | POST_screen p n => ScreenCreate p n
  | GET_screen i => ScreenGet i
  | GET_screens_pid p => ScreenGetsByPid p
  | GET_screens l => ScreenGetsAll l
  | DELETE_screen i => ScreenDelete i
  | PUT_screen i p n => ScreenUpdate i p n
  end.

Definition dash_serve (c : header) (r : dash_request) : H () := AuthSessionMidd c (dash_handler r).

End dash.
