(* ===== verification/ApiAlarm.v ===== *)
(** * The api: alarm cases and their notes
(modules/api/app/controller/alarm, model/alarm)

The cases and events that the module alarm records (see AlarmEvents) are read
with statements whose text the handlers put together; a note is added to a case
in a transaction, and sets the state of the case unless it is a comment. *)

From S2P Require Import Prelude GoFloat GoString Hash Tags Model Json Regex ApiModel ApiDb ApiUic ApiTemplate.
From Stdlib Require Import Ascii.
From stdpp Require Import options.

(** ** The filters *)

Definition quoted (s : string) : string := "'" +:+ s +:+ "'".
(** [if v != 0 { tmp = append(tmp, ...) }] *)
Definition term_int (v : Z) (t : string) : list string := if decide (v = 0) then [] else [t +:+ Itoa v].
Definition term_time (v : Z) (op : string) : list string :=
  if decide (v = 0) then [] else ["timestamp " +:+ op +:+ " FROM_UNIXTIME(" +:+ Itoa v +:+ ")"].
Definition term_text (column v : string) : list string :=
  if decide (v = "") then [] else [column +:+ " = " +:+ quoted v].
Definition where_clause (tmp : list string) : string :=
  let s := join " AND " tmp in if decide (s = "") then "" else "WHERE " +:+ s.

Definition errNoTime : error := "startTime, endTime OR event_id, You have to at least pick one on the request.".

(** [column = 'a' OR column = 'b'], for a text with commas. *)
Definition one_of (column s : string) : string :=
  match split "," s with
  | [] => ""
  | n :: l => foldl (λ acc n, " " +:+ acc +:+ " OR " +:+ column +:+ " = " +:+ quoted n +:+ " ")
                (" " +:+ column +:+ " = " +:+ quoted n +:+ " ") l
  end.
Definition term_one_of (column s : string) : list string :=
  if decide (s = "") then [] else ["( " +:+ one_of column s +:+ " )"].

Section alarm.
Context `{Sql D} `{Settings}.
Notation H := (H D).

(** ** alarm_events_controller.go *)

Record APIGetAlarmListsInputs : Set := AlarmListsInputs {
  lStartTime : Z; lEndTime : Z; lPriority : Z; lStatus : string; lProcessStatus : string;
  lMetrics : string; lEventId : string; lLimit : Z; lPage : Z }.

Definition lists_checkInputsContain (i : APIGetAlarmListsInputs) : result unit :=
  if bool_decide (i.(lStartTime) = 0) && bool_decide (i.(lEndTime) = 0) && bool_decide (i.(lEventId) = "")
  then Err errNoTime else Ok tt.

Definition lists_collectFilters (s : APIGetAlarmListsInputs) : string :=
  where_clause (
    term_time s.(lStartTime) ">=" ++ term_time s.(lEndTime) "<=" ++
    (if decide (s.(lPriority) = -1) then [] else ["priority = " +:+ Itoa s.(lPriority)]) ++
    term_one_of "status" s.(lStatus) ++ term_one_of "process_status" s.(lProcessStatus) ++
    (if decide (s.(lMetrics) = "") then [] else ["metrics regexp " +:+ quoted s.(lMetrics)]) ++
    term_text "id" s.(lEventId)).

Definition lists_sql (i : APIGetAlarmListsInputs) : string :=
  let filter := lists_collectFilters i in
  if decide (i.(lPage) = -1) then
    let limit := if (2000 <=? i.(lLimit)) || (i.(lLimit) =? 0) then 2000 else i.(lLimit) in
    "select * from event_cases " +:+ filter +:+ " order by timestamp DESC limit " +:+ Itoa limit
  else
    let limit := if 50 <=? i.(lLimit) then 50 else i.(lLimit) in
    "select * from event_cases " +:+ filter +:+ "  order by timestamp DESC limit " +:+ Itoa i.(lPage)
      +:+ "," +:+ Itoa limit.

Definition time_json (t : option Z) : json := match t with Some t => JString (time_text t) | None => JNull end.
Definition case_json (x : alm.EventCases.t) : json := JObject [
  ("id", JString x.(alm.EventCases.ID)); ("endpoint", JString x.(alm.EventCases.Endpoint));
  ("metric", JString x.(alm.EventCases.Metric)); ("func", JString x.(alm.EventCases.Func));
  ("cond", JString x.(alm.EventCases.Cond)); ("note", JString x.(alm.EventCases.Note));
  ("step", JInt x.(alm.EventCases.MaxStep)); ("current_step", JInt x.(alm.EventCases.CurrentStep));
  ("priority", JInt x.(alm.EventCases.Priority)); ("status", JString x.(alm.EventCases.Status));
  ("timestamp", time_json x.(alm.EventCases.Timestamp)); ("update_at", time_json x.(alm.EventCases.UpdateAt));
  ("closed_at", time_json x.(alm.EventCases.ClosedAt)); ("closed_note", JString x.(alm.EventCases.ClosedNote));
  ("user_modified", JInt x.(alm.EventCases.UserModified)); ("tpl_creator", JString x.(alm.EventCases.TplCreator));
  ("expression_id", JInt x.(alm.EventCases.ExpressionId)); ("strategy_id", JInt x.(alm.EventCases.StrategyId));
  ("template_id", JInt x.(alm.EventCases.TemplateId)); ("process_note", JInt x.(alm.EventCases.ProcessNote));
  ("process_status", JString x.(alm.EventCases.ProcessStatus)) ].

(** The rows of a statement whose error is not looked at. *)
Definition raw_rows (t : tname) (s : string) : H (list (row t)) :=
  r ← run (RawSelect t s); mret (match r with Ok l => l | Err _ => [] end).

Definition AlarmLists (b : bound APIGetAlarmListsInputs) : H () :=
  i ← check_bind badstatus b;
  check badstatus (lists_checkInputsContain i) ;;
  l ← raw_rows event_cases (lists_sql i);
  reply StatusOK (MValue (JArray (case_json <$> l))).

Record APIEventsGetInputs : Set := EventsGetInputs {
  eStartTime : Z; eEndTime : Z; eStatus : Z; eEventId : string; eLimit : Z; ePage : Z }.

Definition events_collectFilters (s : APIEventsGetInputs) : string :=
  where_clause (
    term_time s.(eStartTime) ">=" ++ term_time s.(eEndTime) "<=" ++ term_text "event_caseId" s.(eEventId) ++
    (if (s.(eStatus) =? 0) || (s.(eStatus) =? 1) then ["status = " +:+ Itoa s.(eStatus)] else [])).

(** [if limit == 0 || limit >= 50 { limit = 50 }] *)
Definition limit50 (n : Z) : Z := if (n =? 0) || (50 <=? n) then 50 else n.

Definition events_sql (i : APIEventsGetInputs) : string :=
  "select id, event_caseId, cond, status, timestamp from events " +:+ events_collectFilters i
    +:+ " order by timestamp DESC limit " +:+ Itoa i.(ePage) +:+ "," +:+ Itoa (limit50 i.(eLimit)).

Definition event_json (x : alm.Events.t) : json := JObject [
  ("id", JInt x.(alm.Events.ID)); ("event_caseId", JString x.(alm.Events.EventCaseId));
  ("step", JInt x.(alm.Events.Step)); ("cond", JString x.(alm.Events.Cond));
  ("status", JInt x.(alm.Events.Status)); ("timestamp", time_json x.(alm.Events.Timestamp)) ].

Definition EventsGet (b : bound APIEventsGetInputs) : H () :=
  i ← check_bind badstatus b;
  l ← raw_rows events (events_sql i);
  reply StatusOK (MValue (JArray (event_json <$> l))).

(** ** alarm_notes_controller.go *)

Record APIGetNotesOfAlarmInputs : Set := NotesInputs {
  nStartTime : Z; nEndTime : Z; nEventId : string; nStatus : string; nLimit : Z; nPage : Z }.

Definition notes_checkInputsContain (i : APIGetNotesOfAlarmInputs) : result unit :=
  if bool_decide (i.(nStartTime) = 0) && bool_decide (i.(nEndTime) = 0) && bool_decide (i.(nEventId) = "")
  then Err errNoTime else Ok tt.

Definition notes_collectFilters (s : APIGetNotesOfAlarmInputs) : string :=
  where_clause (
    term_time s.(nStartTime) ">=" ++ term_time s.(nEndTime) "<=" ++ term_text "status" s.(nStatus) ++
    term_text "event_caseId" s.(nEventId)).

Definition notes_sql (i : APIGetNotesOfAlarmInputs) : string :=
  "select id, event_caseId, note, case_id, status, timestamp, user_id from event_note "
    +:+ notes_collectFilters i +:+ " order by timestamp DESC limit " +:+ Itoa i.(nPage) +:+ ","
    +:+ Itoa (limit50 i.(nLimit)).

(** [GetUserName] of model/alarm/event_note.go *)
Definition GetUserName (this : alm.EventNote.t) : H string :=
  r ← find Pool user (on (by_struct user this.(alm.EventNote.UserId)));
  mret (match r with Ok u => u.(uic.User.Name) | Err _ => "" end).

Definition note_json (n : alm.EventNote.t) (name : string) : json := JObject [
  ("event_caseId", JString n.(alm.EventNote.EventCaseId)); ("note", JString n.(alm.EventNote.Note));
  ("case_id", JString n.(alm.EventNote.CaseId)); ("status", JString n.(alm.EventNote.Status));
  ("timestamp", time_json n.(alm.EventNote.Timestamp)); ("user", JString name) ].

Fixpoint note_outputs (notes : list alm.EventNote.t) : H (list json) :=
  match notes with
  | [] => mret []
  | n :: notes => name ← GetUserName n; l ← note_outputs notes; mret (note_json n name :: l)
  end.

Definition GetNotesOfAlarm (b : bound APIGetNotesOfAlarmInputs) : H () :=
  i ← match b.(bind_err) with
      | None => mret b.(inputs)
      | Some e => reply badstatus (errText "binding input got error: " e)
      end;
  check badstatus (notes_checkInputsContain i) ;;
  notes ← raw_rows event_note (notes_sql i);
  output ← note_outputs notes;
  reply StatusOK (MValue (JArray output)).

Record APIAddNotesToAlarmInputs : Set := AddNotesInputs {
  aEventId : string; aNote : string; aStatus : string; aCaseId : string }.

Definition note_states : list string := ["in progress"; "unresolved"; "resolved"; "ignored"; "comment"].
(** A text between double quotes. *)
Definition dquoted (s : string) : string := String (ascii_of_nat 34) (s +:+ String (ascii_of_nat 34) "").
Definition errNoteStatus : error :=
  "params status: only accepect [" +:+ join ", " (dquoted <$> note_states) +:+ "]".
Definition CheckingFormating (s : APIAddNotesToAlarmInputs) : result unit :=
  if decide (s.(aStatus) ∈ note_states) then Ok tt else Err errNoteStatus.

Definition case_is (id : string) : cond event_cases := on (λ x : alm.EventCases.t, text_eq x.(alm.EventCases.ID) id).

Definition AddNotesToAlarm (c : header) (b : bound APIAddNotesToAlarmInputs) : H () :=
  i ← check_bind badstatus b;
  check badstatus (CheckingFormating i) ;;
  u ← any_user c;
  begin DBPool.Alarm ;;
  r ← save Tx event_note
        (alm.EventNote.mk 0 i.(aEventId) i.(aNote) i.(aCaseId) i.(aStatus) None u.(uic.User.ID));
  match r with
  | Err e => rollback ;; reply badstatus (MError e)
  | Ok (note, _) =>
      (if decide (i.(aStatus) = "comment") then mret tt
       else
         r ← update Tx event_cases (case_is note.(alm.EventNote.EventCaseId))
               (alm.EventCases.with_process note.(alm.EventNote.ID) note.(alm.EventNote.Status));
         match r with
         | Ok _ => mret tt
         | Err e => rollback ;; reply badstatus (errText "update got error during update event_cases:" e)
         end) ;;
      commit ;;
      reply StatusOK (MValue (JObject [("id", JString i.(aEventId));
        ("message", JString ("add note to " +:+ i.(aEventId) +:+ " successfuled"))]))
  end.

(** ** The routes *)

Inductive alarm_request : Type :=
| GET_eventcases (b : bound APIGetAlarmListsInputs) | GET_events (b : bound APIEventsGetInputs)
| POST_event_note (b : bound APIAddNotesToAlarmInputs) | GET_event_note (b : bound APIGetNotesOfAlarmInputs).

Definition alarm_handler (c : header) (r : alarm_request) : H () :=
  match r with
  | GET_eventcases b => AlarmLists b
  | GET_events b => EventsGet b
  | POST_event_note b => AddNotesToAlarm c b
  | GET_event_note b => GetNotesOfAlarm b
  end.

Definition alarm_serve (c : header) (r : alarm_request) : H () := AuthSessionMidd c (alarm_handler c r).

End alarm.

(** A column that the table does not have. *)
Example metrics_column :
  lists_sql (AlarmListsInputs 0 0 (-1) "" "" "cpu.*" "e1" 0 (-1)) =
    "select * from event_cases WHERE metrics regexp 'cpu.*' AND id = 'e1' order by timestamp DESC limit 2000".
Proof. reflexivity. Qed.

(** The text of a request is not quoted: it can hold more than a value. *)
Example event_of_any_case :
  events_collectFilters (EventsGetInputs 0 0 (-1) "' or ''='" 0 0) = "WHERE event_caseId = '' or ''=''".
Proof. reflexivity. Qed.

Example statuses :
  lists_collectFilters (AlarmListsInputs 5 0 3 "PROBLEM,OK" "" "" "" 0 0) =
    "WHERE timestamp >= FROM_UNIXTIME(5) AND priority = 3 AND (   status = 'PROBLEM'  OR status = 'OK'  )".
Proof. reflexivity. Qed.
