(* ===== verification/ApiGraph.v ===== *)
(** * The api: the graph nodes and the index
(modules/api/graph/graph.go, app/controller/graph/graph_controller.go)

The api asks the graph node of a counter for its points: [selectPool] finds the
node as transfer does, with a hash ring over the names of the nodes, and a
request uses a connection of the pool of the node's address.  [Nodes] is what lies
outside: the network and the answers of the nodes.  The controllers answer
queries for points, and read and delete the index that the nodes keep in MySQL. *)

From S2P Require Import Prelude GoFloat GoString Hash Tags Model Json Containers ConnPool GraphApi GraphQuery.
From S2P Require Import ApiModel ApiDb ApiUic ApiTemplate.
From Stdlib Require Import Ascii.
From stdpp Require Import options.

(** ** Requests to a node and their answers *)

(** How a remote call ends: late, or with an error and what was put into its reply. *)
Inductive rpc (A : Type) : Type :=
| RpcTimeout
| RpcDone (err : option error) (resp : A).
Arguments RpcTimeout {A}. Arguments RpcDone {A} _ _.
Definition rpc_outcome {A} (r : rpc A) : outcome :=
  match r with RpcTimeout => TimedOut | RpcDone err _ => Answered err end.

(** The reply of Graph.Query, of which a slice and its pointers may be nil. *)
Record QueryResp : Type := QueryResp_ {
  qEndpoint : string; qCounter : string; qDsType : string; qStep : Z;
  qValues : option (list (option RRDData.t)) }.
Definition no_resp : QueryResp := QueryResp_ "" "" "" 0 None.

Record GraphLastParam : Set := LastParam { lEndpoint : string; lCounter : string }.
Record GraphLastResp : Set := LastResp { rlEndpoint : string; rlCounter : string; rlValue : option RRDData.t }.
Record GraphInfoResp : Set := InfoResp { iConsolFun : string; iStep : Z; iFilename : string }.
Record GraphFullyInfo : Set := FullyInfo {
  fEndpoint : string; fCounter : string; fConsolFun : string; fStep : Z; fFilename : string; fAddr : string }.

(** What the api keeps in memory: the pools with their network, and the cache of steps,
a step with the time of its expiry. *)
Record local : Type := Local {
  GraphConnPools : SafeRpcConnPools; net : wire; localStepCache : gmap string (Z * Z) }.
Definition with_net (ps : SafeRpcConnPools) (w : wire) (l : local) : local := Local ps w l.(localStepCache).
Definition with_steps (s : gmap string (Z * Z)) (l : local) : local := Local l.(GraphConnPools) l.(net) s.

Class Nodes (D : Type) := {
  here : D → local;
  set_here : local → D → D;
  unix_now : D → Z;
  (* the errors of resolving and of dialing an address *)
  reach : string → D → option error * option error;
  rpc_Query : string → GraphQueryParam → D → rpc QueryResp * D;
  rpc_Last : string → GraphLastParam → D → rpc GraphLastResp * D;
  rpc_LastRaw : string → GraphLastParam → D → rpc GraphLastResp * D;
  rpc_Info : string → GraphLastParam → D → rpc GraphInfoResp * D;
  rpc_Delete : string → list GraphDeleteParam → D → rpc unit * D }.

(** The nodes do not touch the api's memory, nor the rows it sees: requests are
served one at a time. *)
Class NodesLaws (D : Type) `{Sql D} `{Nodes D} : Prop := {
  here_set l d : here (set_here l d) = l;
  set_here_same l d : same d (set_here l d);
  rpc_Query_here a q d : let d' := (rpc_Query a q d).2 in here d' = here d ∧ same d d';
  rpc_Last_here a q d : let d' := (rpc_Last a q d).2 in here d' = here d ∧ same d d';
  rpc_LastRaw_here a q d : let d' := (rpc_LastRaw a q d).2 in here d' = here d ∧ same d d';
  rpc_Info_here a q d : let d' := (rpc_Info a q d).2 in here d' = here d ∧ same d d';
  rpc_Delete_here a q d : let d' := (rpc_Delete a q d).2 in here d' = here d ∧ same d d' }.

(** ** graph.go *)

(** What became of a request: it was not sent, it was not answered in time, it failed, or its answer. *)
Inductive asked (A : Type) : Type :=
| Unsent (err : error)
| Late (err : error)
| Failed (resp : A) (err : error)
| Done (resp : A).
Arguments Unsent {A} _. Arguments Late {A} _. Arguments Failed {A} _ _. Arguments Done {A} _.

Section graph.
Context `{Sql D} `{Settings} `{Nodes D}.
Context {R : Type} `{!NodeRing R} (GraphNodeRing : R) (clusterMap : gmap string string).
(** The order in which a map of requests is visited. *)
Context (visit : list (string * list GraphDeleteParam) → list (string * list GraphDeleteParam)).
Notation H := (H D).

Definition GenQParam (endpoint counter consolFun : string) (stime etime step : Z) : GraphQueryParam :=
  QueryParam stime etime consolFun endpoint counter step.

Definition selectPoolByPK (pk : string) (ps : SafeRpcConnPools) : result (ConnPool * string) :=
  node ← GetNode GraphNodeRing pk;
  match clusterMap !! node with
  | None => Err "node not found"
  | Some addr =>
      match ConnPool.Get addr ps with None => Err "addr not found" | Some pool => Ok (pool, addr) end
  end.
Definition selectPool (endpoint counter : string) (ps : SafeRpcConnPools) : result (ConnPool * string) :=
  selectPoolByPK (PK2 endpoint counter) ps.

(** The pool of an address, after a step. *)
Definition put_pool (addr : string) (p : ConnPool) (w : wire) (d : D) : D :=
  let l := here d in
  set_here (with_net (with_M (<[addr := p]> l.(GraphConnPools).(M)) l.(GraphConnPools)) w l) d.

(** The connection goes back, or is dropped; and what the caller is told. *)
Definition settle {A} (addr : string) (conn : Conn.t) (r : rpc A) (p : ConnPool) (w : wire) :
    asked A * ConnPool * wire :=
  match r with
  | RpcTimeout =>
      let (p', w') := ForceClose conn p w in (Late (addr +:+ ", call timeout. proc: " +:+ Proc p'), p', w')
  | RpcDone (Some err) resp =>
      let (p', w') := ForceClose conn p w in
      (Failed resp (addr +:+ ", call failed, err " +:+ err +:+ ". proc: " +:+ Proc p'), p', w')
  | RpcDone None resp => let (p', w') := Release conn p w in (Done resp, p', w')
  end.

(** What QueryOne, Delete, Info, Last and LastRaw have in common: from the choice
of the pool to the end of the call. *)
Definition ask {A} (pk : string) (call : string → D → rpc A * D) (d : D) : go (asked A * D) :=
  match selectPoolByPK pk (here d).(GraphConnPools) with
  | Err e => Ret (Unsent e, d)
  | Ok (pool, addr) =>
      let (resolve, connect) := reach addr d in
      Fetch (dial resolve connect) (unix_now d) pool (here d).(net) ≫= λ f,
        let '(conn, pool, w) := f in
        let d := put_pool addr pool w d in
        match conn with
        | Err e => Ret (Unsent e, d)
        | Ok conn =>
            if Conn.Closed conn then
              let (pool, w) := ForceClose conn pool w in
              Ret (Unsent "conn closed", put_pool addr pool w d)
            else
              let (r, d) := call addr d in
              let pool := default pool (ConnPool.Get addr (here d).(GraphConnPools)) in
              let '(a, pool, w) := settle addr conn r pool (here d).(net) in
              Ret (a, put_pool addr pool w d)
        end
  end.

Definition ask_node {A} (pk : string) (call : string → D → rpc A * D) : H (asked A) := λ w,
  match ask pk call w.(db) with
  | Ret (a, d) => (Next a, with_db d w)
  | Panic p => (Panicked p, w)
  end.

(** The loop of QueryOne over the values. *)
Definition fix_value (dsType : string) (v : RRDData.t) : RRDData.t :=
  if (bool_decide (dsType = "DERIVE") || bool_decide (dsType = "COUNTER")) && f64_lt v.(RRDData.Value) f64_zero
  then RRDData.New v.(RRDData.Timestamp) f64_nan else v.
Definition in_window (start end_ : Z) (v : RRDData.t) : bool :=
  (start <=? v.(RRDData.Timestamp)) && (v.(RRDData.Timestamp) <=? end_).
Definition fix_values (start end_ : Z) (dsType : string) (values : list (option RRDData.t)) : list (option RRDData.t) :=
  v ← values;
  match v with
  | Some v => if in_window start end_ v then [Some (fix_value dsType v)] else []
  | None => []
  end.

Definition with_values (vs : list (option RRDData.t)) (r : QueryResp) : QueryResp :=
  QueryResp_ r.(qEndpoint) r.(qCounter) r.(qDsType) r.(qStep) (Some vs).

Definition QueryOne (para : GraphQueryParam) : H (option QueryResp * option error) :=
  a ← ask_node (PK2 para.(pEndpoint) para.(pCounter)) (λ addr, rpc_Query addr para);
  mret (match a with
    | Unsent e => (Some no_resp, Some e)
    | Late e => (None, Some e)
    | Failed resp e => (Some resp, Some e)
    | Done resp =>
        (Some (with_values (fix_values para.(pStart) para.(pEnd) resp.(qDsType) (default [] resp.(qValues))) resp), None)
    end).

Definition Info (para : GraphLastParam) : H (result GraphFullyInfo) :=
  a ← ask_node (PK2 para.(lEndpoint) para.(lCounter)) (λ addr d,
        let (r, d) := rpc_Info addr para d in
        (match r with RpcTimeout => RpcTimeout | RpcDone e resp => RpcDone e (resp, addr) end, d));
  mret (match a with
    | Unsent e | Late e | Failed _ e => Err e
    | Done (resp, addr) =>
        Ok (FullyInfo para.(lEndpoint) para.(lCounter) resp.(iConsolFun) resp.(iStep) resp.(iFilename) addr)
    end).

(** The reply and the error of Last and of LastRaw. *)
Definition last_reply (a : asked GraphLastResp) : option GraphLastResp * option error :=
  match a with
  | Unsent e | Late e => (None, Some e)
  | Failed resp e => (Some resp, Some e)
  | Done resp => (Some resp, None)
  end.
Definition Last (para : GraphLastParam) : H (option GraphLastResp * option error) :=
  a ← ask_node (PK2 para.(lEndpoint) para.(lCounter)) (λ addr, rpc_Last addr para); mret (last_reply a).
Definition LastRaw (para : GraphLastParam) : H (option GraphLastResp * option error) :=
  a ← ask_node (PK2 para.(lEndpoint) para.(lCounter)) (λ addr, rpc_LastRaw addr para); mret (last_reply a).

(** [Delete]: the requests of each key, in a map; a text of tags that cannot be
read is passed over. *)
Definition delete_pk (para : GraphDeleteParam) : option string :=
  match SplitTagsString para.(dTags) with
  | (None, tags) => Some (PK2 para.(dEndpoint) (Counter para.(dMetric) tags))
  | (Some _, _) => None
  end.
Fixpoint add_request (pk : string) (para : GraphDeleteParam) (nodes : list (string * list GraphDeleteParam)) :
    list (string * list GraphDeleteParam) :=
  match nodes with
  | [] => [(pk, [para])]
  | (k, l) :: nodes => if decide (k = pk) then (k, l ++ [para]) :: nodes else (k, l) :: add_request pk para nodes
  end.
Definition delete_requests (params : list GraphDeleteParam) : list (string * list GraphDeleteParam) :=
  foldl (λ nodes para, match delete_pk para with Some pk => add_request pk para nodes | None => nodes end) [] params.

Definition Delete (params : list GraphDeleteParam) : H () :=
  each (visit (delete_requests params)) (λ n, ask_node n.1 (λ addr, rpc_Delete addr n.2) ;; mret tt).

(** [initConnPools]; [addrs] is the order in which the set of addresses is listed. *)
Definition initConnPools (maxConns maxIdle connTimeout callTimeout : Z) (addrs : list string) : SafeRpcConnPools :=
  CreateSafeRpcConnPools maxConns maxIdle connTimeout callTimeout addrs.
Definition initNodeRings (numberOfReplicas : Z) (clusterMap : gmap string string) : go Consistent.t :=
  NewConsistentHashNodesRing (wrap32 numberOfReplicas) (KeysOfMap clusterMap).

(** ** The cache of steps (vendor/github.com/toolkits/cache/localcache/timedcache) *)

(** An entry that is not expired. *)
Definition tc_Get (k : string) (now : Z) (items : gmap string (Z * Z)) : option Z :=
  match items !! k with
  | Some (x, expiration) => if expiration <? now then None else Some x
  | None => None
  end.
Definition step_expiration : Z := 600.
Definition tc_Set (k : string) (x now : Z) (items : gmap string (Z * Z)) : gmap string (Z * Z) :=
  <[k := (x, now + step_expiration)]> items.

(** ** graph_controller.go *)

Notation Ep := graph.Endpoint.t.
Notation EpName := graph.Endpoint.Endpoint.
Notation EC := graph.EndpointCounter.t.

Definition text_in (s : string) (l : list string) : bool := existsb (text_eq s) l.

Record APIEndpointObjGetInputs : Set := EndpointObjInputs { oEndpoints : list string; oDeadline : Z }.

Definition EndpointObjGet (b : bound APIEndpointObjGetInputs) : H () :=
  i ← check_bind badstatus b;
  if decide (i.(oEndpoints) = []) then reply StatusBadRequest (MString "endpoints missing")
  else
    r ← find_all Pool endpoint (on (λ e : Ep, text_in (EpName e) i.(oEndpoints) && (i.(oDeadline) <=? e.(graph.Endpoint.Ts))));
    result ← check StatusBadRequest r;
    reply StatusOK (MValue (JArray ((λ e : Ep, JObject [("endpoint", JString (EpName e));
      ("id", JInt e.(graph.Endpoint.ID)); ("ts", JInt e.(graph.Endpoint.Ts))]) <$> result))).

Record APIEndpointRegexpQueryInputs : Set := EndpointRegexpInputs {
  xQ : string; xLabel : string; xLimit : Z; xPage : Z }.

Definition offset_of (page limit : Z) : Z := if 1 <? page then (page -₆₄ 1) *₆₄ limit else 0.
Definition like_term (t : string) : string := "%" +:+ TrimSpace t +:+ "%".

(** The error of the search by name is not the one that is looked at. *)
Definition EndpointRegexpQuery (b : bound APIEndpointRegexpQueryInputs) : H () :=
  i ← check_bind badstatus b;
  if bool_decide (i.(xQ) = "") && bool_decide (i.(xLabel) = "") then
    reply StatusBadRequest (MString "q and labels are all missing")
  else
    let labels := if decide (i.(xLabel) = "") then [] else split "," i.(xLabel) in
    let qs := if decide (i.(xQ) = "") then [] else split " " i.(xQ) in
    let offset := offset_of i.(xPage) i.(xLimit) in
    endpoint_id ← (if decide (labels = []) then mret []
      else
        r ← run (PluckDistinct Pool endpoint_counter graph.EndpointCounter.EndpointID
                   (on (λ c : EC, forallb (λ t, like c.(graph.EndpointCounter.Counter) (like_term t)) labels))
                   i.(xLimit) offset);
        check StatusBadRequest r);
    let with_id (e : Ep) := bool_decide (endpoint_id = []) || bool_decide (e.(graph.Endpoint.ID) ∈ endpoint_id) in
    endpoints ← (if decide (qs = []) then
        if decide (endpoint_id = []) then mret []
        else r ← find_all Pool endpoint (on with_id); check StatusBadRequest r
      else
        r ← find_page Pool endpoint
              (on (λ e : Ep, with_id e && forallb (λ t, regexp (EpName e) (TrimSpace t)) qs)) i.(xLimit) offset;
        mret (match r with Ok l => l | Err _ => [] end));
    reply StatusOK (MValue (JArray ((λ e : Ep, JObject [("endpoint", JString (EpName e));
      ("id", JInt e.(graph.Endpoint.ID))]) <$> endpoints))).

(** utils/set.go: the text, and the numbers in it *)
Definition int_items (eid : string) : list (option Z) :=
  (λ e, match Atoi e with Ok v => Some v | Err _ => None end) <$> split "," eid.
Definition ConverIntStringToList (eid : string) : string :=
  (foldl (λ s v, (match v with Some v => if (s.2 =? 0) then Itoa v else s.1 +:+ ", " +:+ Itoa v | None => s.1 end, s.2 + 1))
    ("", 0) (int_items eid)).1.

Definition EndpointCounterRegexpQuery (eid metricQuery limitTmp pageTmp : option string) : H () :=
  let eid := default "" eid in
  let metricQuery := default ".+" metricQuery in
  limit ← check StatusBadRequest (Atoi (default "500" limitTmp));
  page ← check StatusBadRequest (Atoi (default "1" pageTmp));
  let offset := offset_of page limit in
  if decide (eid = "") then reply StatusBadRequest (MString "eid is missing")
  else
    let eids := ConverIntStringToList eid in
    if decide (eids = "") then reply StatusBadRequest (MString "input error, please check your input info.")
    else
      let terms := if decide (metricQuery = "") then [] else split " " metricQuery in
      r ← (if HasPrefix eids "," then mret (Err errSQLSyntax)
           else find_page Pool endpoint_counter (on (λ c : EC,
                  bool_decide (Some c.(graph.EndpointCounter.EndpointID) ∈ int_items eid)
                  && forallb (λ t, regexp c.(graph.EndpointCounter.Counter) (TrimSpace t)) terms)) limit offset);
      counters ← check StatusBadRequest r;
      reply StatusOK (MValue (JArray ((λ c : EC, JObject [
        ("counter", JString c.(graph.EndpointCounter.Counter));
        ("endpoint_id", JInt c.(graph.EndpointCounter.EndpointID));
        ("step", JInt c.(graph.EndpointCounter.Step)); ("type", JString c.(graph.EndpointCounter.Type_))]) <$> counters))).

(** A value as a reader of its text has it: with six digits after the point. *)
Definition float_json (v : float64) : json :=
  match ParseFloat (JsonFloat_MarshalJSON v) with Ok f => JFloat f | Err _ => JNull end.
Definition rrd_json (v : option RRDData.t) : json :=
  match v with
  | Some v => JObject [("timestamp", JInt v.(RRDData.Timestamp)); ("value", float_json v.(RRDData.Value))]
  | None => JNull
  end.
Definition query_json (r : option QueryResp) : json :=
  match r with
  | Some r => JObject [("endpoint", JString r.(qEndpoint)); ("counter", JString r.(qCounter));
      ("dstype", JString r.(qDsType)); ("step", JInt r.(qStep));
      ("Values", match r.(qValues) with Some vs => JArray (rrd_json <$> vs) | None => JNull end)]
  | None => JNull
  end.
Definition last_json (r : GraphLastResp) : json :=
  JObject [("endpoint", JString r.(rlEndpoint)); ("counter", JString r.(rlCounter)); ("value", rrd_json r.(rlValue))].

(** The rows are scanned into a slice of integers: an integer has no field for
the column, so that every row leaves a 0. *)
Definition getCounterStep (endpoint counter : string) : H (result Z) := λ w,
  let cache_key := "step:" +:+ endpoint +:+ "/" +:+ counter in
  match tc_Get cache_key (unix_now w.(db)) (here w.(db)).(localStepCache) with
  | Some step => (Next (Ok step), w)
  | None =>
      let (r, d) := SelectJoin Pool endpoint_counter ApiModel.endpoint (λ (a : EC) (b : Ep),
        text_eq (EpName b) endpoint && bool_decide (a.(graph.EndpointCounter.EndpointID) = b.(graph.Endpoint.ID))
        && text_eq a.(graph.EndpointCounter.Counter) counter) 1 w.(db) in
      match r with
      | Err e => (Next (Err e), with_db d w)
      | Ok rows =>
          match (λ _, 0) <$> rows with
          | [] => (Next (Err "empty result"), with_db d w)
          | step :: _ =>
              (Next (Ok step),
               with_db (set_here (with_steps (tc_Set cache_key step (unix_now d) (here d).(localStepCache)) (here d)) d) w)
          end
      end
  end.

Definition fetchData (hostname counter consolFun : string) (startTime endTime step : Z) :
    H (option QueryResp * option error) :=
  QueryOne (GenQParam hostname counter consolFun startTime endTime step).

Record APIQueryGraphDrawData : Set := DrawData {
  HostNames : list string; Counters : list string; cConsolFun : string; StartTime : Z; EndTime : Z; cStep : Z }.

(** The counters of the hosts, in the order of the loops. *)
Definition pairs (i : APIQueryGraphDrawData) : list (string * string) := list_prod i.(HostNames) i.(Counters).

Fixpoint draw (i : APIQueryGraphDrawData) (l : list (string * string)) : H (list (option QueryResp)) :=
  match l with
  | [] => mret []
  | (hostname, counter) :: l =>
      step ← (if 0 <? i.(cStep) then mret (Ok i.(cStep)) else getCounterStep hostname counter);
      match step with
      | Err _ => draw i l
      | Ok step =>
          data ← fetchData hostname counter i.(cConsolFun) i.(StartTime) i.(EndTime) step;
          respData ← draw i l;
          mret (data.1 :: respData)
      end
  end.

Definition QueryGraphDrawData (b : bound APIQueryGraphDrawData) : H () :=
  i ← check_bind badstatus b;
  respData ← draw i (pairs i);
  reply StatusOK (MValue (JArray (query_json <$> respData))).

(** A reply is there whenever there is no error. *)
Fixpoint last_points (inputs : list GraphLastParam) : H (list GraphLastResp) :=
  match inputs with
  | [] => mret []
  | param :: inputs =>
      r ← Last param;
      respData ← last_points inputs;
      mret (match r with (Some one_resp, None) => one_resp :: respData | _ => respData end)
  end.

Definition QueryGraphLastPoint (b : bound (list GraphLastParam)) : H () :=
  inputs ← check_bind badstatus b;
  respData ← last_points inputs;
  reply StatusOK (MValue (JArray (last_json <$> respData))).

(** The request for a row of the index; SplitN gives one or two fields. *)
Definition delete_param (row : Ep * EC) : GraphDeleteParam :=
  let fields := split2 "/" row.2.(graph.EndpointCounter.Counter) in
  DeleteParam (EpName row.1) (default "" (fields !! 0%nat)) row.2.(graph.EndpointCounter.Step)
    row.2.(graph.EndpointCounter.Type_) (default "" (fields !! 1%nat)).

Definition indexed (p : Ep → EC → bool) : H (result (list (Ep * EC))) :=
  run (SelectJoin Pool endpoint endpoint_counter
         (λ (a : Ep) (c : EC), bool_decide (c.(graph.EndpointCounter.EndpointID) = a.(graph.Endpoint.ID)) && p a c) (-1)).
Definition cids (rows : list (Ep * EC)) : list Z := graph.EndpointCounter.ID ∘ snd <$> rows.
Definition counters_in (ids : list Z) : cond endpoint_counter :=
  on (λ c : EC, bool_decide (c.(graph.EndpointCounter.ID) ∈ ids)).
Definition tags_of (names : list string) : cond tag_endpoint := λ v (t : graph.TagEndpoint.t),
  existsb (λ e : Ep, text_in (EpName e) names && bool_decide (t.(graph.TagEndpoint.EndpointID) = e.(graph.Endpoint.ID)))
    (v endpoint).

Definition DeleteGraphEndpoint (b : bound (list string)) : H () :=
  names ← check_bind badstatus b;
  r ← indexed (λ a _, text_in (EpName a) names);
  rows ← check badstatus r;
  (if decide (rows = []) then mret tt else Delete (delete_param <$> rows)) ;;
  begin DBPool.Graph ;;
  affected_counter ← (if decide (rows = []) then mret 0
    else
      r ← delete_from Tx endpoint_counter (counters_in (cids rows));
      n ← check_tx badstatus r;
      r ← delete_from Tx tag_endpoint (tags_of names);
      check_tx badstatus r ;;
      mret n);
  r ← delete_from Tx endpoint (on (λ e : Ep, text_in (EpName e) names));
  affected_endpoint ← check_tx badstatus r;
  commit ;;
  reply StatusOK (MValue (JObject [("affected_counter", JInt affected_counter);
    ("affected_endpoint", JInt affected_endpoint)])).

Record APIGraphDeleteCounterInputs : Set := DeleteCounterInputs { dcEndpoints : list string; dcCounters : list string }.

Definition DeleteGraphCounter (b : bound APIGraphDeleteCounterInputs) : H () :=
  i ← check_bind badstatus b;
  r ← indexed (λ a c, text_in (EpName a) i.(dcEndpoints) && text_in c.(graph.EndpointCounter.Counter) i.(dcCounters));
  rows ← check badstatus r;
  if decide (rows = []) then reply StatusOK (MValue (JObject [("affected_counter", JInt 0)]))
  else
    Delete (delete_param <$> rows) ;;
    begin DBPool.Graph ;;
    r ← delete_from Tx endpoint_counter (counters_in (cids rows));
    affected_counter ← check_tx badstatus r;
    commit ;;
    reply StatusOK (MValue (JObject [("affected_counter", JInt affected_counter)])).

(** ** The routes *)

Inductive graph_request : Type :=
| GET_endpointobj (b : bound APIEndpointObjGetInputs)
| GET_endpoint (b : bound APIEndpointRegexpQueryInputs)
| GET_endpoint_counter (eid metricQuery limit page : option string)
| POST_history (b : bound APIQueryGraphDrawData)
| POST_lastpoint (b : bound (list GraphLastParam))
| DELETE_endpoint (b : bound (list string))
| DELETE_counter (b : bound APIGraphDeleteCounterInputs).

Definition graph_handler (r : graph_request) : H () :=
  match r with
  | GET_endpointobj b => EndpointObjGet b
  | GET_endpoint b => EndpointRegexpQuery b
  | GET_endpoint_counter e m l p => EndpointCounterRegexpQuery e m l p
  | POST_history b => QueryGraphDrawData b
  | POST_lastpoint b => QueryGraphLastPoint b
  | DELETE_endpoint b => DeleteGraphEndpoint b
  | DELETE_counter b => DeleteGraphCounter b
  end.

Definition graph_serve (c : header) (r : graph_request) : H () := AuthSessionMidd c (graph_handler r).

End graph.
