(* ===== verification/ApiGrafana.v ===== *)
(** * The api: the queries of grafana
(modules/api/app/controller/graph/grafana_controller.go)

Grafana walks through the endpoints and, point by point, through the names of
their counters, and asks for points.  These requests come without a session. *)

From S2P Require Import Prelude GoFloat GoString Hash Tags Model Json Containers ConnPool GraphApi GraphQuery.
From S2P Require Import ApiModel ApiDb ApiUic ApiTemplate ApiAlarm ApiGraph.
From Stdlib Require Import Ascii.
From stdpp Require Import options.

(** ** Texts *)

(** [strings.Replace(s, old, new, -1)]; of a text that was replaced [skip]
characters are left.  An empty [old] is only ever replaced by an empty text. *)
Fixpoint replace_from (old new : string) (skip : nat) (s : string) : string :=
  match s, skip with
  | "", _ => ""
  | String _ s, S n => replace_from old new n s
  | String c s', O =>
      if bool_decide (old ≠ "") && HasPrefix s old then new +:+ replace_from old new (Nat.pred (String.length old)) s'
      else String c (replace_from old new 0 s')
  end.
Definition replace_all (old new s : string) : string := replace_from old new 0 s.

(** The longest beginning of characters that are [p], and the rest. *)
Fixpoint span (p : ascii → bool) (s : string) : string * string :=
  match s with
  | String c s' => if p c then let (a, b) := span p s' in (String c a, b) else ("", s)
  | "" => ("", "")
  end.

Definition ArrStringsToString (arr : list string) : result string :=
  let result := join "," (dquoted <$> arr) in
  if decide (result = "") then Err "array is empty, err: []" else Ok result.

(** The pattern [^{?([^#}]+)}?#(.+)] and its two groups; the brace is taken first,
and left to the group when nothing matches then. *)
Definition host_char (c : ascii) : bool := negb (bool_decide (c = "#"%char ∨ c = "}"%char)).
Definition not_newline (c : ascii) : bool := negb (bool_decide (c = ascii_of_nat 10)).
Definition after_brace (s : string) : option (string * string) :=
  let (hosts, s) := span host_char s in
  if decide (hosts = "") then None
  else
    match (match s with String "}" s => s | _ => s end) with
    | String "#" s => let (counter, _) := span not_newline s in if decide (counter = "") then None else Some (hosts, counter)
    | _ => None
    end.
Definition hosts_and_counter (s : string) : option (string * string) :=
  match s with
  | String "{" s' => match after_brace s' with Some m => Some m | None => after_brace s end
  | _ => after_brace s
  end.

Definition backslash_dot : string := "\.".
Definition cutEndpointCounterHelp (regexpKey : string) : list string * string :=
  match hosts_and_counter regexpKey with
  | Some (hostsTmp, counterTmp) => (split "," hostsTmp, replace_all "#" backslash_dot counterTmp)
  | None => ([], "")
  end.

(** [\s] of a pattern; what comes before the white space at the end of a text,
last rune first. *)
Definition re_space (r : Z) : bool := existsb (Z.eqb r) [9; 10; 12; 13; 32].
Fixpoint drop_re_space (l : list (Z * string)) : list (Z * string) :=
  match l with (r, b) :: l' => if re_space r then drop_re_space l' else l | [] => [] end.
Definition end_runes (s : string) : list (Z * string) := drop_re_space (reverse (runes s)).
Definition of_end (l : list (Z * string)) : string := String.concat "" (reverse l).*2.

(** A [.+] or a dot and a star at the end, before white space, replaced by nothing. *)
Definition cut_wildcard (s : string) : string :=
  match end_runes s with
  | (r, _) :: (46, _) :: l => if (r =? 43) || (r =? 42) then of_end l else s
  | _ => s
  end.
(** [\\.\$\s*$]: a backslash, any character and a dollar at the end; what is before them *)
Definition cut_dollar (s : string) : option string :=
  match end_runes s with
  | (36, _) :: (r, _) :: (92, _) :: l => if r =? 10 then None else Some (of_end l)
  | _ => None
  end.

Definition expandableChecking (counter counterSearchKeyWord : string) : string * bool :=
  let key := replace_all backslash_dot "." (cut_wildcard counterSearchKeyWord) in
  let expCheck := replace_all key "" counter in
  if decide (expCheck = "") then ("", false)
  else
    match split "." (match expCheck with String "." s => s | s => s end) with
    | [] => ("", true)
    | [expsub] => (expsub, false)
    | expsub :: _ => (expsub, true)
    end.

(** ** The handlers *)

Record APIGrafanaMainQueryInputs : Set := GrafanaInputs { gLimit : Z; gQuery : string }.
Record APIGrafanaMainQueryOutputs : Set := Output { Expandable : bool; Text : string }.

Section grafana.
Context `{Sql D} `{Settings} `{Nodes D}.
Context {R : Type} `{!NodeRing R} (ring : R) (clusterMap : gmap string string).
(** The order in which a map of texts is listed. *)
Context (order : list (string * bool) → list (string * bool)).
Notation H := (H D).
Notation EpName := graph.Endpoint.Endpoint.

Definition host_outputs (r : result (list graph.Endpoint.t)) : list APIGrafanaMainQueryOutputs :=
  match r with Ok enps => (λ h, Output true (EpName h)) <$> enps | Err _ => [] end.

Definition repsonseDefault (limit : Z) : H (list APIGrafanaMainQueryOutputs) :=
  r ← find_page Pool endpoint (on (λ _, true)) limit 0; mret (host_outputs r).

Definition responseHostsRegexp (limit : Z) (regexpKey : string) : H (list APIGrafanaMainQueryOutputs) :=
  r ← find_page Pool endpoint (on (λ e : graph.Endpoint.t, regexp (EpName e) regexpKey)) limit 0;
  mret (host_outputs r).

(** [mapset]: a text can be expanded if one of its items can. *)
Definition put_output (m : list (string * bool)) (i : APIGrafanaMainQueryOutputs) : list (string * bool) :=
  if decide (i.(Text) ∈ m.*1) then
    (λ kv : string * bool, if decide (kv.1 = i.(Text)) then (kv.1, kv.2 || i.(Expandable)) else kv) <$> m
  else m ++ [(i.(Text), i.(Expandable))].

(** The last condition always holds: a text has at least one part. *)
Definition addAddItionalItems (items : list APIGrafanaMainQueryOutputs) : list APIGrafanaMainQueryOutputs :=
  ((λ kv : string * bool, Output kv.2 kv.1) <$> order (foldl put_output [] items)) ++
  (if existsb (λ i, negb i.(Expandable)) items then [Output false "$"] else []) ++ [Output false "%"].

(** [Table(table).Where(condition).Scan(...)], the columns as they are or as [what] *)
Definition where_text (what table condition : string) : string :=
  "SELECT " +:+ what +:+ " FROM `" +:+ table +:+ "`  WHERE (" +:+ condition +:+ ")".

Definition text_of (r : result string) : string := match r with Ok s => s | Err _ => "" end.

Definition findEndpointIdByEndpointList (hosts : list string) : H (list Z) :=
  enps ← raw_rows endpoint (where_text "*" "endpoint" ("endpoint in (" +:+ text_of (ArrStringsToString hosts) +:+ ")"));
  mret ((λ h : graph.Endpoint.t, h.(graph.Endpoint.ID)) <$> enps).

Definition counters_where (hostIds : list Z) (op counter : string) : string :=
  "endpoint_id IN (" +:+ text_of (ArrInt64ToString hostIds) +:+ ") AND counter " +:+ op +:+ " " +:+ quoted counter.

Definition responseCounterRegexp (regexpKey : string) : H (list APIGrafanaMainQueryOutputs) :=
  let (hosts, counter) := cutEndpointCounterHelp regexpKey in
  if bool_decide (hosts = []) || bool_decide (counter = "") then mret []
  else
    hostIds ← findEndpointIdByEndpointList hosts;
    if decide (hostIds = []) then mret []
    else
      counters ← raw_rows endpoint_counter (where_text "*" "endpoint_counter" (counters_where hostIds "regexp" counter));
      if decide (counters = []) then mret []
      else mret (addAddItionalItems ((λ c : graph.EndpointCounter.t,
        let (expsub, needexp) := expandableChecking c.(graph.EndpointCounter.Counter) counter in
        Output needexp expsub) <$> counters)).

Definition output_json (o : APIGrafanaMainQueryOutputs) : json :=
  JObject [("expandable", JBool o.(Expandable)); ("text", JString o.(Text))].

(** [if err := c.Bind(&inputs); err != nil { h.JSONR(c, badstatus, err.Error()); return }] *)
Definition check_bind_text {I} (b : bound I) : H I :=
  match b.(bind_err) with None => mret b.(inputs) | Some e => reply badstatus (MString e) end.

Definition GrafanaMainQuery (b : bound APIGrafanaMainQueryInputs) : H () :=
  i ← check_bind_text b;
  let query := i.(gQuery) in
  output ← (if decide (query = "!N!") then repsonseDefault i.(gLimit)
    else if negb (contains_str "#" query) then responseHostsRegexp i.(gLimit) query
    else if negb (contains_str "#select metric" query) then responseCounterRegexp query
    else mret []);
  reply StatusOK (MValue (JArray (output_json <$> output))).

Record APIGrafanaRenderInput : Set := RenderInput {
  rTarget : list string; rFrom : Z; rUntil : Z; rStep : Z; rConsolFun : string }.

(** The points of the counters of each host; a host that fails has none. *)
Fixpoint fetch_all (i : APIGrafanaRenderInput) (l : list (string * string)) : H (list (option QueryResp)) :=
  match l with
  | [] => mret []
  | (hostname, c) :: l =>
      r ← fetchData ring clusterMap hostname c i.(rConsolFun) i.(rFrom) i.(rUntil) i.(rStep);
      respList ← fetch_all i l;
      mret (match r.2 with Some _ => respList | None => r.1 :: respList end)
  end.

Definition render_target (i : APIGrafanaRenderInput) (target : string) : H (list (option QueryResp)) :=
  let (hosts, counter) := cutEndpointCounterHelp target in
  let flag := cut_dollar counter in
  let counter := replace_all "\.%" ".+" (default counter flag) in
  hostIds ← findEndpointIdByEndpointList hosts;
  counters ← raw_rows endpoint_counter (where_text "distinct counter" "endpoint_counter"
               (counters_where hostIds (if flag then "=" else "regexp") counter));
  fetch_all i (list_prod hosts ((λ c : graph.EndpointCounter.t, c.(graph.EndpointCounter.Counter)) <$> counters)).

Fixpoint render_targets (i : APIGrafanaRenderInput) (targets : list string) : H (list (option QueryResp)) :=
  match targets with
  | [] => mret []
  | t :: targets => l ← render_target i t; rest ← render_targets i targets; mret (l ++ rest)
  end.

Definition GrafanaRender (b : bound APIGrafanaRenderInput) : H () :=
  i ← check_bind_text b;
  respList ← render_targets i i.(rTarget);
  reply StatusOK (MValue (JArray (query_json <$> respList))).

Inductive grafana_request : Type :=
| GET_grafana (b : bound APIGrafanaMainQueryInputs)
| POST_grafana_render (b : bound APIGrafanaRenderInput).

Definition grafana_serve (r : grafana_request) : H () :=
  match r with
  | GET_grafana b => GrafanaMainQuery b
  | POST_grafana_render b => GrafanaRender b
  end.

End grafana.

Example hosts_of_query :
  cutEndpointCounterHelp "{web1,web2}#cpu#.+" = (["web1"; "web2"], "cpu\..+") ∧
  cutEndpointCounterHelp "web1#cpu" = (["web1"], "cpu") ∧
  cutEndpointCounterHelp "{#cpu" = (["{"], "cpu") ∧
  cutEndpointCounterHelp "web1" = ([], "").
Proof. by vm_compute. Qed.

Example next_part :
  expandableChecking "cpu.idle.core0" "cpu\..+" = ("idle", true) ∧
  expandableChecking "cpu.idle" "cpu\..+" = ("idle", false) ∧
  expandableChecking "cpu.idle" "cpu\.idle" = ("", false).
Proof. by vm_compute. Qed.

(** What was typed is taken out wherever it is in the name, not only in front. *)
Example part_twice :
  expandableChecking "cpu.xcpu.idle" "cpu" = ("x", true) ∧ expandableChecking "cpu.cpu" "cpu" = ("", false).
Proof. by vm_compute. Qed.
