(* ===== verification/ApiGraphMem.v ===== *)
(** * The api with its graph nodes

An implementation of the interface [Nodes] by the model of graph: a database of
the api beside [env], the api's memory and the states of the graph nodes by
their address.  A remote call runs the node's operation of GraphApi or
GraphQuery; an operation that panics ends the connection. *)

From S2P Require Import Prelude GoFloat GoString Hash Tags Model Json Containers ConnPool GraphStore GraphApi GraphSafety GraphQuery.
From S2P Require Import ApiModel ApiDb ApiMem ApiGraph.
From stdpp Require Import options.

(** ** Statements beside a memory *)

Section lift.
Context {E : Type} `{Sql D}.

Definition beside {A} (f : D → A * D) (x : D * E) : A * (D * E) := let (a, d) := f x.1 in (a, (d, x.2)).

#[global] Instance lift_sql : Sql (D * E) := {
  content c x := content c x.1; in_tx x := in_tx x.1; text_eq := text_eq; regexp := regexp; like := like;
  num_eq := num_eq; last_id c x := last_id c x.1;
  Select c t p := beside (Select c t p); SelectPage c t p l o := beside (SelectPage c t p l o);
  PluckDistinct c t f p l o := beside (PluckDistinct c t f p l o);
  SelectJoin c t1 t2 p l := beside (SelectJoin c t1 t2 p l);
  RawSelect t s := beside (RawSelect t s); Insert c t x := beside (Insert c t x);
  InsertIgnore c t x := beside (InsertIgnore c t x); LastInsertId c := beside (LastInsertId c);
  ApiDb.Update c t p f := beside (ApiDb.Update c t p f); ApiDb.Delete c t p := beside (ApiDb.Delete c t p);
  Begin b := beside (Begin b); Commit := beside Commit; Rollback x := (Rollback x.1, x.2) }.

Lemma beside_inv {A} (f : D → A * D) x a x' : beside f x = (a, x') → f x.1 = (a, x'.1) ∧ x'.2 = x.2.
Proof. unfold beside. destruct (f x.1). by intros [= -> <-]. Qed.

#[global] Instance lift_laws {L : SqlLaws D} : SqlLaws (D * E).
Proof.
  split; cbn.
  - apply (text_eq_equiv (D := D)).
  - apply (num_eq_Itoa (D := D)).
  - intros c t p d r d' [E1 _]%beside_inv. by apply (Select_law (D := D)) in E1.
  - intros c t p l o d r d' [E1 _]%beside_inv. by apply (SelectPage_law (D := D)) in E1.
  - intros c t f p l o d r d' [E1 _]%beside_inv. by apply (PluckDistinct_law (D := D)) in E1.
  - intros c t1 t2 p l d r d' [E1 _]%beside_inv. by apply (SelectJoin_law (D := D)) in E1.
  - intros t s d r d' [E1 _]%beside_inv. by apply (RawSelect_law (D := D)) in E1.
  - intros c t x0 d r d' [E1 _]%beside_inv. by apply (Insert_law (D := D)) in E1.
  - intros c t x0 d x d' [E1 _]%beside_inv. intros Ht. exact (Insert_last_id (D := D) c t x0 d.1 x d'.1 E1 Ht).
  - intros c t x0 d r d' [E1 _]%beside_inv. by apply (InsertIgnore_law (D := D)) in E1.
  - intros c d r d' [E1 _]%beside_inv. by apply (LastInsertId_law (D := D)) in E1.
  - intros c t p f d r d' [E1 _]%beside_inv. by apply (Update_law (D := D)) in E1.
  - intros c t p d r d' [E1 _]%beside_inv. by apply (Delete_law (D := D)) in E1.
  - intros b d r d' [E1 _]%beside_inv. by apply (Begin_law (D := D)) in E1.
  - intros d r d' [E1 _]%beside_inv. by apply (Commit_law (D := D)) in E1.
  - intros d. apply (Rollback_law (D := D)).
Qed.
End lift.

(** ** The nodes *)

Record env : Type := Env {
  memory : local; graphs : gmap string GraphApi.state; clock : Z; down : list string }.
Definition with_memory (l : local) (e : env) : env := Env l e.(graphs) e.(clock) e.(down).
Definition with_graphs (g : gmap string GraphApi.state) (e : env) : env := Env e.(memory) g e.(clock) e.(down).

Definition errShutdown : error := "connection is shut down".
Definition errRefused : error := "connection refused".

Section nodes.
Context {D : Type} `{Sql D}.
(** The configuration of the graph nodes, their index database and their files. *)
Context (cfg : config) (db : database) (rrd_Fetch : string → string → Z → Z → Z → result (Z * Z * list float64)) (fuel : nat).

(** A call of the node at an address: an address without a node does not answer. *)
Definition node_call {A} (addr : string) (f : GraphApi.state → go (option (A * GraphApi.state))) (zero : A) (x : D * env) : rpc A * (D * env) :=
  match x.2.(graphs) !! addr with
  | None => (RpcTimeout, x)
  | Some st =>
      match f st with
      | Ret (Some (a, st')) => (RpcDone None a, (x.1, with_graphs (<[addr := st']> x.2.(graphs)) x.2))
      | Ret None => (RpcTimeout, x)
      | Panic _ => (RpcDone (Some errShutdown) zero, x)
      end
  end.

Definition serve_Query (q : GraphQueryParam) (now : Z) (st : GraphApi.state) : go (option (QueryResp * GraphApi.state)) :=
  r ← Query cfg db rrd_Fetch (λ _, []) fuel q now st;
  Ret (match r : option (GraphQueryResponse * GraphApi.state) with
       | Some (r, st) =>
           Some (QueryResp_ r.(rEndpoint) r.(rCounter) r.(rDsType) r.(rStep) (Some (Some <$> r.(Values))), st)
       | None => None
       end).
Definition serve_Last (q : GraphLastParam) (st : GraphApi.state) : go (option (GraphLastResp * GraphApi.state)) :=
  r ← GraphApi.Last db q.(lEndpoint) q.(lCounter) st;
  let '(e, c, v, st) := r : string * string * RRDData.t * GraphApi.state in Ret (Some (LastResp e c (Some v), st)).
Definition serve_LastRaw (q : GraphLastParam) (st : GraphApi.state) : go (option (GraphLastResp * GraphApi.state)) :=
  let '(e, c, v, st) := GraphApi.LastRaw q.(lEndpoint) q.(lCounter) st in Ret (Some (LastResp e c (Some v), st)).
Definition serve_Info (q : GraphLastParam) (st : GraphApi.state) : go (option (GraphInfoResp * GraphApi.state)) :=
  r ← GraphApi.Info cfg db q.(lEndpoint) q.(lCounter) st;
  Ret (match r : option (string * Z * string) * GraphApi.state with
       | (Some (dsType, step, filename), st) => Some (InfoResp dsType step filename, st)
       | (None, st) => Some (InfoResp "" 0 "", st)
       end).
Definition serve_Delete (l : list GraphDeleteParam) (st : GraphApi.state) : go (option (unit * GraphApi.state)) :=
  st ← GraphApi.Delete cfg (Some <$> l) st; Ret (Some (tt, st)).

#[global] Instance env_nodes : Nodes (D * env) := {
  here x := x.2.(memory); set_here l x := (x.1, with_memory l x.2); unix_now x := x.2.(clock);
  reach addr x := (None, if bool_decide (addr ∈ x.2.(down)) then Some errRefused else None);
  rpc_Query addr q x := node_call addr (serve_Query q x.2.(clock)) no_resp x;
  rpc_Last addr q := node_call addr (serve_Last q) (LastResp "" "" None);
  rpc_LastRaw addr q := node_call addr (serve_LastRaw q) (LastResp "" "" None);
  rpc_Info addr q := node_call addr (serve_Info q) (InfoResp "" 0 "");
  rpc_Delete addr l := node_call addr (serve_Delete l) tt }.

Lemma node_call_here {A} addr (f : GraphApi.state → go (option (A * GraphApi.state))) zero x :
  let x' := (node_call addr f zero x).2 in here x' = here x ∧ same x x'.
Proof.
  unfold node_call. destruct (x.2.(graphs) !! addr) as [st|]; [|done]. by destruct (f st) as [[[a st']|]|].
Qed.

#[global] Instance env_nodes_laws : NodesLaws (D * env).
Proof. split; intros; apply node_call_here || done. Qed.
End nodes.

(** ** A site *)

(** The nodes of the witnesses: without an index database and without files. *)
Definition no_db : database := Database (λ _, Ok None) (λ _ _, Ok None) (λ _, Ok tt).
#[global] Instance site_nodes : Nodes (mem * env) := env_nodes ex_cfg no_db (λ _ _ _ _ _, Err "no file") 1000.
#[global] Instance site_nodes_laws : NodesLaws (mem * env) := env_nodes_laws _ _ _ _.

Definition site_env (addrs : list string) (g : gmap string GraphApi.state) : env :=
  Env (Local (initConnPools 2 1 1000 5000 addrs) (Wire 0 []) ∅) g 1000 [].
