(* ===== verification/ApiPhases.v ===== *)
(** * The api: phases of a handler

The rules with which [api_answers] is proved: whatever statements fail, a handler
answers once, leaves no transaction open, and an answer that is not 200 means
that nothing was changed.  [ph_step] is the step of such a proof. *)

From S2P Require Import Prelude GoFloat GoString Hash Tags Model Json Regex ApiModel ApiDb ApiUic ApiTemplate.
From stdpp Require Import options.

Section phases.
Context `{Sql D} {L : SqlLaws D}.
#[local] Set Default Proof Using "Type L".
Notation H := (H D).
Implicit Types (w : world D) (d : D).

(** ** Phases of a handler

[Ph tx wr w]: compared with [w0], nothing was answered yet; unless [tx], no
transaction is open; unless [wr], the committed rows are the same. *)

Section ph.
Variable w0 : world D.

Definition unchanged (d : D) : Prop := ∀ t, content Pool d t = content Pool w0.(db) t.

Definition Ph (tx wr : bool) (w : world D) : Prop :=
  (tx = false → in_tx w.(db) = None) ∧ (wr = false → unchanged w.(db)) ∧ w.(resps) = w0.(resps).

(** The handler is over, one answer later; if [strict], an error means that
nothing was changed. *)
Definition answered (strict : bool) (w : world D) : Prop :=
  in_tx w.(db) = None ∧
  ∃ code m, w.(resps) = w0.(resps) ++ [JSONR code m] ∧
            (code = StatusOK ∨ strict = false ∨ unchanged w.(db)).

(** Or it panicked, before anything was committed. *)
Definition over (b : bool * bool) (w : world D) : Prop :=
  answered b.2 w ∨ b.1 = true ∧ w.(resps) = w0.(resps) ∧ unchanged w.(db).

Notation wpo b m Φ w := (wp m Φ (over b) w).

Lemma ph_run {A} (f : D → A * D) b (Φ : A → world D → Prop) w :
  (∀ a w', f w.(db) = (a, w'.(db)) → w'.(resps) = w.(resps) → Φ a w') → wpo b (run f) Φ w.
Proof. unfold wp, run. destruct (f (db w)) as [a d] eqn:E. intros HΦ. by apply HΦ. Qed.

Lemma ph_same tx wr w w' : same w.(db) w'.(db) → w'.(resps) = w.(resps) → Ph tx wr w → Ph tx wr w'.
Proof.
  intros [Et Ec] Er (Ht & Hw & Hr). split_and!; [by rewrite Et| |congruence].
  intros E t. rewrite Ec. by apply Hw.
Qed.

Lemma ph_weaken tx wr w : Ph false false w → Ph tx wr w.
Proof. intros (? & ? & ?). split_and!; auto. Qed.

Lemma ph_find_all tx wr c t p b (Φ : result (list (row t)) → world D → Prop) w :
  Ph tx wr w → (∀ r w', Ph tx wr w' → Φ r w') → wpo b (find_all c t p) Φ w.
Proof.
  intros Hw HΦ. apply ph_run. intros r w' (Hs & _)%Select_law Er. apply HΦ. by eapply ph_same.
Qed.
Lemma ph_read {A} tx wr (f : D → A * D) b (Φ : A → world D → Prop) w :
  (∀ d r d', f d = (r, d') → same d d') → Ph tx wr w → (∀ r w', Ph tx wr w' → Φ r w') → wpo b (run f) Φ w.
Proof. intros Hf Hw HΦ. apply ph_run. intros r w' Hs%Hf Er. apply HΦ. by eapply ph_same. Qed.
Lemma ph_raw tx wr t s b (Φ : result (list (row t)) → world D → Prop) w :
  Ph tx wr w → (∀ r w', Ph tx wr w' → Φ r w') → wpo b (run (RawSelect t s)) Φ w.
Proof.
  intros Hw HΦ. apply ph_run. intros r w' Hs%RawSelect_law Er. apply HΦ. by eapply ph_same.
Qed.
Lemma ph_find tx wr c t p b (Φ : result (row t) → world D → Prop) w :
  Ph tx wr w → (∀ r w', Ph tx wr w' → Φ r w') → wpo b (find c t p) Φ w.
Proof.
  intros Hw HΦ. apply wp_bind. eapply ph_find_all; [done|]. intros r w' Hw'. by apply wp_ret, HΦ.
Qed.
Lemma ph_first tx wr c t p b (Φ : result (row t) → world D → Prop) w :
  Ph tx wr w → (∀ r w', Ph tx wr w' → Φ r w') → wpo b (first c t p) Φ w.
Proof.
  intros Hw HΦ. apply wp_bind. eapply ph_find_all; [done|]. intros r w' Hw'. by apply wp_ret, HΦ.
Qed.

Lemma ph_frame_pool t w w' wr :
  frame Pool t w.(db) w'.(db) → w'.(resps) = w.(resps) → Ph false wr w → Ph false true w'.
Proof. intros [Et _] Er (Ht & _ & Hr). split_and!; [by rewrite Et|done|congruence]. Qed.
Lemma ph_frame_tx t w w' :
  frame Tx t w.(db) w'.(db) → w'.(resps) = w.(resps) → Ph true false w → Ph true false w'.
Proof.
  intros [_ Hf] Er (_ & Hw & Hr). split_and!; [done| |congruence].
  intros _ t'. rewrite (Hf Pool t') by congruence. by apply Hw.
Qed.

Lemma ph_create t x0 wr b (Φ : result (row t) → world D → Prop) w :
  Ph false wr w → (∀ e w', Ph false wr w' → Φ (Err e) w') → (∀ x w', Ph false true w' → Φ (Ok x) w') →
  wpo b (create Pool t x0) Φ w.
Proof.
  intros Hw He Hx. apply ph_run. intros [x|e] w' E Er; apply Insert_law in E.
  - apply Hx. destruct E as (_ & _ & _ & Hf). by eapply ph_frame_pool.
  - by eapply He, ph_same.
Qed.
Lemma ph_insert_ignore t x0 wr b (Φ : result () → world D → Prop) w :
  Ph false wr w → (∀ e w', Ph false wr w' → Φ (Err e) w') → (∀ x w', Ph false true w' → Φ (Ok x) w') →
  wpo b (run (InsertIgnore Pool t x0)) Φ w.
Proof.
  intros Hw He Hx. apply ph_run. intros r w' E Er.
  apply InsertIgnore_law in E as [[Hs _]|(-> & _ & x & _ & _ & Hf)]; [|by eapply Hx, ph_frame_pool].
  assert (Ph false wr w') as Hw' by by eapply ph_same. destruct r; [|by apply He].
  apply Hx. destruct Hw' as (? & _ & ?). by split_and!.
Qed.
Lemma ph_update t p f wr b (Φ : result Z → world D → Prop) w :
  Ph false wr w → (∀ e w', Ph false wr w' → Φ (Err e) w') → (∀ x w', Ph false true w' → Φ (Ok x) w') →
  wpo b (update Pool t p f) Φ w.
Proof.
  intros Hw He Hx. apply ph_run. intros [x|e] w' E Er; apply Update_law in E.
  - apply Hx. destruct E as (_ & Hf & _). by eapply ph_frame_pool.
  - by eapply He, ph_same.
Qed.
Lemma ph_delete t p wr b (Φ : result Z → world D → Prop) w :
  Ph false wr w → (∀ e w', Ph false wr w' → Φ (Err e) w') → (∀ x w', Ph false true w' → Φ (Ok x) w') →
  wpo b (delete_from Pool t p) Φ w.
Proof.
  intros Hw He Hx. apply ph_run. intros [x|e] w' E Er; apply Delete_law in E.
  - apply Hx. destruct E as (_ & Hf & _). by eapply ph_frame_pool.
  - by eapply He, ph_same.
Qed.
(** Every row that the portal saves is new. *)
Lemma ph_save t x0 wr b (Φ : result (row t * Z) → world D → Prop) w :
  pk t x0 = 0 → Ph false wr w → (∀ e w', Ph false wr w' → Φ (Err e) w') →
  (∀ x w', Ph false true w' → Φ (Ok x) w') → wpo b (save Pool t x0) Φ w.
Proof.
  intros Hk Hw He Hx. unfold save. rewrite decide_True by done. apply wp_bind.
  eapply ph_create; [done|..]; intros; apply wp_ret; cbn [mbind result_bind]; auto.
Qed.

Lemma ph_tx {A} (f : D → result A * D) b (Φ : result A → world D → Prop) w :
  (∀ d r d', f d = (r, d') → same d d' ∨ ∃ t, frame Tx t d d') →
  Ph true false w → (∀ r w', Ph true false w' → Φ r w') → wpo b (run f) Φ w.
Proof.
  intros Hf Hw HΦ. apply ph_run. intros r w' E Er. apply HΦ. destruct (Hf _ _ _ E) as [Hs|[t Ht]].
  - by eapply ph_same.
  - by eapply ph_frame_tx.
Qed.
Lemma ph_create_tx t x0 b (Φ : result (row t) → world D → Prop) w :
  Ph true false w → (∀ r w', Ph true false w' → Φ r w') → wpo b (create Tx t x0) Φ w.
Proof. apply ph_tx. intros d [x|e] d' E%Insert_law; [right; exists t; apply E|by left]. Qed.
Lemma ph_update_tx t p f b (Φ : result Z → world D → Prop) w :
  Ph true false w → (∀ r w', Ph true false w' → Φ r w') → wpo b (update Tx t p f) Φ w.
Proof. apply ph_tx. intros d [x|e] d' E%Update_law; [right; exists t; apply E|by left]. Qed.
Lemma ph_delete_tx t p b (Φ : result Z → world D → Prop) w :
  Ph true false w → (∀ r w', Ph true false w' → Φ r w') → wpo b (delete_from Tx t p) Φ w.
Proof. apply ph_tx. intros d [x|e] d' E%Delete_law; [right; exists t; apply E|by left]. Qed.
Lemma ph_save_tx t x0 b (Φ : result (row t * Z) → world D → Prop) w :
  pk t x0 = 0 → Ph true false w → (∀ r w', Ph true false w' → Φ r w') → wpo b (save Tx t x0) Φ w.
Proof.
  intros Hk Hw HΦ. unfold save. rewrite decide_True by done. apply wp_bind.
  eapply ph_create_tx; [done|]. intros r w' Hw'. by apply wp_ret, HΦ.
Qed.

Lemma ph_begin dbn b (Φ : result unit → world D → Prop) w :
  Ph false false w → (∀ r w', Ph true false w' → Φ r w') → wpo b (begin dbn) Φ w.
Proof.
  intros (Ht & Hw & Hr) HΦ. apply ph_run. intros r w' [Ec _]%Begin_law Er. apply HΦ.
  split_and!; [done| |congruence]. intros _ t. rewrite Ec. by apply Hw.
Qed.
Lemma ph_commit b (Φ : result unit → world D → Prop) w :
  Ph true false w → (∀ r w', Ph false true w' → Φ r w') → wpo b commit Φ w.
Proof.
  intros (Ht & Hw & Hr) HΦ. apply ph_run. intros r w' [Ec _]%Commit_law Er. apply HΦ.
  split_and!; [done|done|congruence].
Qed.

Lemma ph_rollback b (Φ : () → world D → Prop) w :
  Ph true false w → (∀ w', Ph false false w' → Φ tt w') → wpo b rollback Φ w.
Proof.
  intros (Ht & Hw & Hr) HΦ. apply HΦ. destruct (Rollback_law (db w)) as [Et Ec]. cbn.
  split_and!; [done| |done]. intros _ t. cbn. rewrite Ec. by apply Hw.
Qed.

Lemma ph_reply {A} wr code m b (Φ : A → world D → Prop) w :
  Ph false wr w → code = StatusOK ∨ wr = false ∨ b.2 = false → wpo b (reply code m) Φ w.
Proof.
  intros (Ht & Hw & Hr) Hc. left. split; [by apply Ht|]. exists code, m. cbn. rewrite Hr.
  split; [done|]. destruct Hc as [->|[Hc|Hc]]; [by left|right; right; by apply Hw|by right; left].
Qed.
Lemma ph_reply_tx {A} code m b (Φ : A → world D → Prop) w :
  Ph true false w → wpo b (reply_tx code m) Φ w.
Proof.
  intros (Ht & Hw & Hr). left. unfold reply_tx. cbn. destruct (Rollback_law (db w)) as [Et Ec].
  split; [done|]. exists code, m. cbn. rewrite Hr. split; [done|]. right; right. intros t. rewrite Ec. by apply Hw.
Qed.
Lemma ph_check {A} wr code (r : result A) b (Φ : A → world D → Prop) w :
  Ph false wr w → wr = false ∨ is_ok r = true ∨ b.2 = false → (∀ a, r = Ok a → Φ a w) → wpo b (check code r) Φ w.
Proof.
  intros Hw Hc HΦ. destruct r as [a|e]; [by apply wp_ret, HΦ|]. eapply ph_reply; [done|].
  right. destruct Hc as [?|[?|?]]; [by left|done|by right].
Qed.
Lemma ph_check_bind {A} code (i : bound A) b (Φ : A → world D → Prop) w :
  Ph false false w → Φ i.(inputs) w → wpo b (check_bind code i) Φ w.
Proof.
  intros Hw HΦ. unfold check_bind. destruct (bind_err i); [eapply ph_reply; [done|by right; left]|by apply wp_ret].
Qed.
Lemma ph_check_tx {A} code (r : result A) b (Φ : A → world D → Prop) w :
  Ph true false w → (∀ a, r = Ok a → Φ a w) → wpo b (check_tx code r) Φ w.
Proof. intros Hw HΦ. destruct r as [a|e]; [by apply wp_ret, HΦ|]. by apply ph_reply_tx. Qed.
Lemma ph_check_tx_text {A} code s (r : result A) b (Φ : A → world D → Prop) w :
  Ph true false w → (∀ a, r = Ok a → Φ a w) → wpo b (check_tx_text code s r) Φ w.
Proof. intros Hw HΦ. destruct r as [a|e]; [by apply wp_ret, HΦ|]. by apply ph_reply_tx. Qed.
Lemma ph_panic {A} p tx strict (Φ : A → world D → Prop) w :
  Ph tx false w → wpo (true, strict) (panic_ p) Φ w.
Proof. intros (_ & Hw & Hr). right. split_and!; auto. Qed.
End ph.

(** Reading goes on in every phase; what only reads and may answer an error, in
the first one. *)
Definition reader {A} (m : H A) : Prop := ∀ w0 tx wr b (Φ : A → world D → Prop) w,
  Ph w0 tx wr w → (∀ a w', Ph w0 tx wr w' → Φ a w') → wp m Φ (over w0 b) w.
Definition guard {A} (m : H A) : Prop := ∀ w0 b (Φ : A → world D → Prop) w,
  Ph w0 false false w → (∀ a w', Ph w0 false false w' → Φ a w') → wp m Φ (over w0 b) w.

Lemma reader_rule {A} w0 (m : H A) tx wr b (Φ : A → world D → Prop) w :
  reader m → Ph w0 tx wr w → (∀ a w', Ph w0 tx wr w' → Φ a w') → wp m Φ (over w0 b) w.
Proof. intros Hm. apply Hm. Qed.
Lemma guard_rule {A} w0 (m : H A) b (Φ : A → world D → Prop) w :
  guard m → Ph w0 false false w → (∀ a w', Ph w0 false false w' → Φ a w') → wp m Φ (over w0 b) w.
Proof. intros Hm. apply Hm. Qed.

(** From the phases of its handler: what a request leaves behind. *)
Lemma answered_once w0 {A} (m : H A) b :
  in_tx w0.(db) = None → wp m (λ _ _, False) (over w0 b) w0 → over w0 b (m w0).2.
Proof. intros Ht. unfold wp. by destruct (m w0) as [[a| |p] w']. Qed.
Lemma Ph_start w0 : in_tx w0.(db) = None → Ph w0 false false w0.
Proof. intros Ht. by split_and!. Qed.

End phases.

Create HintDb portal.

Ltac ph_step :=
  cbn beta zeta;
  lazymatch goal with
  | Hw : Ph _ ?tx ?wr ?w |- wp ?m _ _ ?w =>
    lazymatch m with
    | mret _ => apply wp_ret
    | _ ≫= _ => apply wp_bind
    | find_all _ ?tab _ => eapply (ph_find_all _ tx wr _ tab); [exact Hw|clear Hw; intros ? ? Hw]
    | run (RawSelect ?tab _) => eapply (ph_raw _ tx wr tab); [exact Hw|clear Hw; intros ? ? Hw]
    | run (LastInsertId _) => eapply (ph_read _ tx wr); [intros ? ? ?; apply LastInsertId_law|exact Hw|clear Hw; intros ? ? Hw]
    | find_page _ ?tab _ _ _ => eapply (ph_read _ tx wr);
        [intros ? ? ? E; apply SelectPage_law with (t := tab) in E; apply E|exact Hw|clear Hw; intros ? ? Hw]
    | find _ ?tab _ => eapply (ph_find _ tx wr _ tab); [exact Hw|clear Hw; intros ? ? Hw]
    | first _ ?tab _ => eapply (ph_first _ tx wr _ tab); [exact Hw|clear Hw; intros ? ? Hw]
    | create Pool ?tab _ => eapply (ph_create _ tab); [exact Hw|clear Hw; intros ? ? Hw..]
    | run (InsertIgnore Pool ?tab _) => eapply (ph_insert_ignore _ tab); [exact Hw|clear Hw; intros ? ? Hw..]
    | update Pool ?tab _ _ => eapply (ph_update _ tab); [exact Hw|clear Hw; intros ? ? Hw..]
    | delete_from Pool ?tab _ => eapply (ph_delete _ tab); [exact Hw|clear Hw; intros ? ? Hw..]
    | save Pool ?tab _ => eapply (ph_save _ tab); [reflexivity|exact Hw|clear Hw; intros ? ? Hw..]
    | create Tx ?tab _ => eapply (ph_create_tx _ tab); [exact Hw|clear Hw; intros ? ? Hw]
    | update Tx ?tab _ _ => eapply (ph_update_tx _ tab); [exact Hw|clear Hw; intros ? ? Hw]
    | delete_from Tx ?tab _ => eapply (ph_delete_tx _ tab); [exact Hw|clear Hw; intros ? ? Hw]
    | save Tx ?tab _ => eapply (ph_save_tx _ tab); [reflexivity|exact Hw|clear Hw; intros ? ? Hw]
    | begin _ => eapply ph_begin; [exact Hw|clear Hw; intros ? ? Hw]
    | commit => eapply ph_commit; [exact Hw|clear Hw; intros ? ? Hw]
    | rollback => eapply ph_rollback; [exact Hw|clear Hw; intros ? Hw]
    | reply _ _ => eapply ph_reply; [exact Hw|auto; fail]
    | reply_tx _ _ => apply ph_reply_tx; exact Hw
    | check _ _ => eapply ph_check; [exact Hw|auto; fail|intros ? _]
    | check_bind _ _ => eapply ph_check_bind; [exact Hw|]
    | check_tx _ _ => apply ph_check_tx; [exact Hw|intros ? _]
    | check_tx_text _ _ _ => apply ph_check_tx_text; [exact Hw|intros ? _]
    | panic_ _ => eapply ph_panic; exact Hw
    | match ?x with _ => _ end => destruct x
    | _ => first [ eapply reader_rule; [solve [eauto with portal]|exact Hw|clear Hw; intros ? ? Hw]
                 | eapply guard_rule; [solve [eauto with portal]|exact Hw|clear Hw; intros ? ? Hw] ]
    end
  | Hw : Ph _ _ _ ?w |- _ _ ?w => solve [eauto]
  end.


Ltac reads := intros w0 tx wr b Φ w Hw HΦ; repeat ph_step.
Ltac guards := intros w0 b Φ w Hw HΦ; repeat ph_step.

(** ** Who sends the request *)

Section who.
Context `{Sql D} {L : SqlLaws D} `{Settings}.
#[local] Set Default Proof Using "Type L".

Lemma reader_h_GetUser c : reader (h_GetUser c).
Proof. unfold h_GetUser. reads. Qed.
#[local] Hint Resolve reader_h_GetUser : portal.
Lemma reader_any_user c : reader (any_user c).
Proof. unfold any_user. reads. Qed.
Lemma guard_current_user code c : guard (current_user code c).
Proof. unfold current_user. guards. Qed.
Lemma guard_id_param s m : guard (id_param s m).
Proof. unfold id_param. guards. Qed.
Lemma reader_find_ids t ids : reader (find_ids t ids).
Proof. unfold find_ids. reads. Qed.
Lemma reader_SessionChecking c : reader (SessionChecking c).
Proof. unfold SessionChecking. reads. Qed.
End who.
#[export] Hint Resolve reader_h_GetUser reader_any_user guard_current_user guard_id_param reader_find_ids
  reader_SessionChecking : portal.
