(* ===== verification/ApiUicSafety.v ===== *)
(** * The api: what the users' part guarantees

- [uic_tables_typed]: whatever requests arrive and whatever statements fail, the
  tables stay well formed: the keys hold, and a user has at most one session;
- [user_rows_guarded]: a row of [user] changes only for an authentic request, of
  its owner (never the role) or of an admin, and nobody else gets a role;
- what the code does beside that: [blank_password_accepted],
  [everyone_is_in_every_team].

How a session is come by and lost is in ApiSessions.v. *)

From S2P Require Import Prelude GoFloat GoString Hash Tags Model Json ApiModel ApiDb ApiUic ApiTeam ApiMem.
From stdpp Require Import options.

Section uic.
Context `{Sql D} {L : SqlLaws D} `{Settings}.
#[local] Set Default Proof Using "Type L".
Notation H := (H D).
Implicit Types (w : world D) (d : D).

Notation users d := (content Pool d user).
Notation sessions d := (content Pool d session).

(** ** The requests that leave the users alone

They keep every invariant that reads, making a session, ending one, and the
statements on teams keep. *)

Definition writes_users (r : request) : bool :=
  match r with
  | POST_create _ | PUT_update _ | PUT_cgpasswd _ | PUT_change_user_role _
  | PUT_change_user_passwd _ | PUT_change_user_profile _ | DELETE_delete_user _ => true
  | _ => false
  end.

Section quiet.
Variable I : D → Prop.
Hypothesis I_same : ∀ d d', same d d' → I d → I d'.
Hypothesis I_create : ∀ t x0 x d d', t = team ∨ t = rel_team_user →
  created Pool t x0 x d d' → I d → I d'.
Hypothesis I_update : ∀ p b d d', updated Pool team p (update_team b) d d' → I d → I d'.
Hypothesis I_delete : ∀ t p d d', t = team ∨ t = rel_team_user ∨ t = session →
  deleted Pool t p d d' → I d → I d'.
#[local] Set Default Proof Using "Type L I_same".
Notation pres := (pres I).

Lemma pres_find_ids t ids : pres (find_ids t ids).
Proof. unfold find_ids. repeat pres_step; apply I_same. Qed.
Create HintDb uic.
Ltac pres_read :=
  repeat (cbn beta;
    lazymatch goal with
    | |- ∀ _ _, same _ _ → _ => apply I_same
    | |- ApiDb.pres _ ?m =>
        lazymatch m with
        | find_ids ?tab ?i => apply (pres_find_ids tab i)
        | _ => solve [auto with uic] || pres_step
        end
    end).

Lemma pres_h_GetUser c : pres (h_GetUser c).
Proof. unfold h_GetUser. pres_read. Qed.
#[local] Hint Resolve pres_h_GetUser : uic.
Lemma pres_current_user code c : pres (current_user code c).
Proof. unfold current_user. pres_read. Qed.
Lemma pres_id_param m s : pres (id_param m s).
Proof. unfold id_param. pres_read. Qed.
Lemma pres_SessionChecking c : pres (SessionChecking c).
Proof. unfold SessionChecking. pres_read. Qed.
#[local] Hint Resolve pres_current_user pres_id_param pres_SessionChecking : uic.
Lemma pres_admin_only code c : pres (admin_only code c).
Proof. unfold admin_only. pres_read. Qed.
Lemma pres_signup_guard c : pres (signup_guard c).
Proof. unfold signup_guard. pres_read. Qed.
Lemma pres_AuthSessionMidd c (h : H ()) : pres h → pres (AuthSessionMidd c h).
Proof. intros Hh. unfold AuthSessionMidd. pres_read. Qed.

#[local] Set Default Proof Using "Type L I_same I_create I_update I_delete".
Lemma pres_create_team t x : t = team ∨ t = rel_team_user → pres (create Pool t x).
Proof. intros Ht. apply pres_create; [apply I_same|]. intros y w w'. by apply I_create. Qed.
Lemma pres_delete_team t p : t = team ∨ t = rel_team_user ∨ t = session → pres (delete_from Pool t p).
Proof. intros Ht. apply pres_delete; [apply I_same|]. intros w w'. by apply I_delete. Qed.
Lemma pres_update_team p b : pres (update Pool team p (update_team b)).
Proof. apply pres_update; [apply I_same|]. intros w w'. apply I_update. Qed.

Ltac pres_auto :=
  repeat (cbn beta;
    lazymatch goal with
    | |- ∀ _ _, same _ _ → _ => apply I_same
    | |- ApiDb.pres _ ?m =>
        lazymatch m with
        | create Pool ?tab ?x => apply (pres_create_team tab x); tauto
        | delete_from Pool ?tab ?p => apply (pres_delete_team tab p); tauto
        | update Pool team _ _ => apply pres_update_team
        | find_ids ?tab ?i => apply (pres_find_ids tab i)
        | _ => solve [auto with uic] || pres_step
        end
    end).

Lemma pres_Members t : pres (Members t).
Proof. unfold Members. pres_auto. Qed.
Lemma pres_GetCreatorName t : pres (GetCreatorName t).
Proof. unfold GetCreatorName. pres_auto. Qed.
#[local] Hint Resolve pres_Members pres_GetCreatorName : uic.
Lemma pres_team_outputs ts : pres (team_outputs ts).
Proof. induction ts as [|t ts IH]; cbn [team_outputs]; pres_auto. Qed.
Lemma pres_bind_new tid uids : pres (bind_new tid uids).
Proof. induction uids as [|i uids IH]; cbn [bind_new]; pres_auto. Qed.
Lemma pres_unbind men : pres (unbind men).
Proof. induction men as [|i men IH]; cbn [unbind]; pres_auto. Qed.
Lemma pres_bind_missing tid us : pres (bind_missing tid us).
Proof. induction us as [|i us IH]; cbn [bind_missing]; pres_auto. Qed.
#[local] Hint Resolve pres_team_outputs pres_bind_new pres_unbind pres_bind_missing : uic.
Lemma pres_bindUsers tid us : pres (bindUsers tid us).
Proof. unfold bindUsers. destruct (ArrIntToString us); pres_auto. Qed.
Lemma pres_team_answer t tid : pres (team_answer t tid).
Proof. unfold team_answer. pres_auto. Qed.
#[local] Hint Resolve pres_bindUsers pres_team_answer : uic.

Lemma pres_Login b : (∀ u, pres (user_session u)) → pres (Login b).
Proof using Type L I_same.
  intros Hs. unfold Login. repeat (cbn beta; lazymatch goal with
    | |- ApiDb.pres _ (user_session _) => apply Hs
    | |- ApiDb.pres _ _ => pres_step
    | |- _ => apply I_same end).
Qed.

Lemma pres_quiet c r :
  writes_users r = false → (∀ b, r = POST_login b → pres (Login b)) → pres (serve c r).
Proof.
  destruct r; try done; intros _ Hl; cbn [serve]; try apply pres_AuthSessionMidd.
  - unfold AuthSession. pres_auto.
  - by apply Hl.
  - unfold Logout. pres_auto.
  - unfold UserInfo. pres_auto.
  - unfold GetUser. pres_auto.
  - unfold GetUserByName. pres_auto.
  - unfold UserList. pres_auto.
  - unfold IsUserInTeams. pres_auto.
  - unfold GetUserTeams. pres_auto.
  - unfold Teams. pres_auto.
  - unfold GetTeam. pres_auto.
  - unfold GetTeamByName. pres_auto.
  - unfold CreateTeam. pres_auto.
  - unfold UpdateTeam. pres_auto.
  - unfold DeleteTeam. pres_auto.
Qed.
End quiet.

(** ** The tables of uic are well formed *)

Definition uic_wf (d : D) : Prop :=
  (∀ t, in_uic t = true → keys_ok Pool t d) ∧ NoDup (uic.Session.Uid <$> sessions d).

Lemma uic_wf_same d d' : same d d' → uic_wf d → uic_wf d'.
Proof.
  intros [_ Hs] [Hk Hn]. split; [|by rewrite Hs].
  intros t Ht. eapply keys_same, Hk; [by rewrite Hs|done].
Qed.

(** A change of one table that keeps its keys, and the sessions apart. *)
Lemma uic_wf_frame t d d' :
  frame Pool t d d' → in_uic t = true → keys_ok Pool t d' →
  (t = session → NoDup (uic.Session.Uid <$> sessions d')) → uic_wf d → uic_wf d'.
Proof.
  intros Hf Ht Hk' Hn' [Hk Hn]. split.
  - intros t' Ht'. destruct (decide (t' = t)) as [->|Hne]; [done|].
    eapply keys_same, Hk; [|done]. rewrite (frame_other _ _ t' Pool _ _ Hf); [done|congruence].
  - destruct (decide (t = session)) as [Es|Hne]; [by apply Hn'|].
    by rewrite (frame_other _ _ session Pool _ _ Hf) by congruence.
Qed.

Notation pres := (pres uic_wf).

Lemma wf_created t x0 x d d' :
  in_uic t = true → t ≠ session → created Pool t x0 x d d' → uic_wf d → uic_wf d'.
Proof.
  intros Ht Hs Hc Hw. pose proof Hc as (_ & _ & _ & Hf). eapply uic_wf_frame; try done.
  by eapply keys_created, Hw.
Qed.

Lemma wf_updated t p f d d' :
  in_uic t = true → t ≠ session →
  (∀ x, p (content Pool d) x = true → 0 < pk t x → 0 < pk t (f x)) →
  updated Pool t p f d d' → uic_wf d → uic_wf d'.
Proof.
  intros Ht Hs Hp Hc Hw. pose proof Hc as (_ & Hf & _). eapply uic_wf_frame; try done.
  by eapply keys_updated, Hw.
Qed.

Lemma wf_deleted t p d d' :
  in_uic t = true → deleted Pool t p d d' → uic_wf d → uic_wf d'.
Proof.
  intros Ht Hc Hw. pose proof Hc as (_ & Hf & E). eapply uic_wf_frame; try done.
  - by eapply keys_deleted, Hw.
  - intros ->. rewrite E. destruct Hw as [_ Hn]. revert Hn. generalize (sessions d).
    intros l. induction l as [|s l IH]; [done|]. rewrite fmap_cons, NoDup_cons. intros [Hs Hn].
    cbn. case_match; [|by apply IH]. rewrite fmap_cons, NoDup_cons. split; [|by apply IH].
    intros (y & E1 & [Hy _]%filter_elem)%list_elem_of_fmap. apply Hs, list_elem_of_fmap. eauto.
Qed.

Lemma pres_save_user u : pres (save Pool user u).
Proof.
  apply pres_save; [apply uic_wf_same| |].
  - intros x w w' Hc. by apply (wf_created user u x w w').
  - intros w w' Hu Hn Hw. eapply wf_updated; [| | |exact Hu|exact Hw]; [done|done|].
    intros x Hp Hx. unfold on, by_id in Hp. apply bool_decide_eq_true in Hp. cbn in *. lia.
Qed.

Lemma pres_user_profile p a b c e g :
  pres (update Pool user p (uic.User.with_profile a b c e g)).
Proof.
  apply pres_update; [apply uic_wf_same|]. intros w w' Hu Hw. eapply wf_updated; [| | |exact Hu|exact Hw]; [done|done|]. by intros [] _.
Qed.

Lemma pres_create_uic t x : in_uic t = true → t ≠ session → pres (create Pool t x).
Proof. intros Ht Hs. apply pres_create; [apply uic_wf_same|]. intros y w w'. by apply wf_created. Qed.

Lemma pres_delete_uic t p : in_uic t = true → pres (delete_from Pool t p).
Proof. intros Ht. apply pres_delete; [apply uic_wf_same|]. intros w w'. by apply wf_deleted. Qed.

(** A session is made only for a user that has none. *)
Lemma pres_user_session u : pres (user_session u).
Proof.
  apply pres_wp. intros w Hw. unfold user_session. apply wp_bind, wp_find. intros r w1 Hs1 [Hf Hn].
  assert (uic_wf w1.(db)) as Hw1 by by eapply uic_wf_same.
  apply wp_bind. destruct r as [s|e].
  - apply wp_ret. destruct (Hf s eq_refl) as (_ & Hin & _). cbn [found_session].
    assert (0 < uic.Session.ID s).
    { destruct Hw as [Hk _]. by apply (proj2 (Hk session eq_refl) eq_refl). }
    rewrite decide_False by lia. by apply wp_ret.
  - case_decide as Ee; [|apply wp_reply; intros w2 ->; done]. subst e.
    destruct (Hn eq_refl) as [_ Hnone]. apply wp_ret. cbn [found_session]. rewrite decide_True by done.
    apply wp_bind. unfold GenerateUUID. apply wp_bind, wp_tick. intros n w2 E2. apply wp_ret.
    apply wp_bind, wp_tick. intros n' w3 E3. apply wp_bind.
    assert (db w3 = db w1) as E31 by congruence.
    apply wp_create.
    + intros e w4 Hs. apply wp_ret. rewrite E31 in Hs. by eapply uic_wf_same.
    + intros x w4 Hc. apply wp_ret. pose proof Hc as (_ & (Hx & _ & _) & E4 & Hf4).
      rewrite E31 in Hf4. eapply (uic_wf_frame session); [done|done| | |done].
      * eapply keys_created; [done|]. rewrite E31. by apply Hw1.
      * intros _. rewrite E4, E31, fmap_cons, NoDup_cons. split; [|apply Hw1].
        assert (uic.Session.Uid x = uic.User.ID u) as -> by (cbn in Hx; by destruct Hx as [id ->]).
        intros (y & Ey & Hy)%list_elem_of_fmap. rewrite (proj2 Hs1) in Hy. specialize (Hnone y Hy).
        unfold session_of, on in Hnone. by rewrite <- Ey, bool_decide_true in Hnone.
Qed.

Ltac wf_auto :=
  repeat (cbn beta;
    lazymatch goal with
    | |- ∀ _ _, same _ _ → _ => apply uic_wf_same
    | |- ApiDb.pres _ ?m =>
        lazymatch m with
        | create Pool ?tab ?x => apply (pres_create_uic tab x); done
        | delete_from Pool ?tab ?p => apply (pres_delete_uic tab p); done
        | save Pool user ?x => apply (pres_save_user x)
        | user_session _ => apply pres_user_session
        | update Pool user _ _ => apply pres_user_profile
        | admin_only _ _ => apply pres_admin_only
        | signup_guard _ => apply pres_signup_guard
        | _ => pres_step
        end
    end).

(** The statements of the quiet requests keep the tables well formed. *)
Lemma wf_quiet c r : writes_users r = false → pres (serve c r).
Proof.
  intros Hr. apply pres_quiet; [apply uic_wf_same| | | |done|].
  - intros t x0 x w w' Ht. apply wf_created; destruct Ht as [-> | ->]; done.
  - intros p b w w' Hu Hw. eapply wf_updated; [| | |exact Hu|exact Hw]; [done|done|]. by intros [] _.
  - intros t p w w' Ht. apply wf_deleted. by destruct Ht as [-> |[-> | ->]].
  - intros b _. apply pres_Login; [apply uic_wf_same|apply pres_user_session].
Qed.

Lemma pres_serve c r : pres (serve c r).
Proof.
  destruct (writes_users r) eqn:E; [|by apply wf_quiet].
  destruct r; try done; cbn [serve]; try (apply pres_AuthSessionMidd; [apply uic_wf_same|]).
  - unfold CreateUser. wf_auto.
  - unfold UpdateCurrentUser. wf_auto.
  - unfold ChangePassword. wf_auto.
  - unfold ChangeRoleOfUser. wf_auto.
  - unfold AdminChangePassword. wf_auto.
  - unfold AdminChangeUserProfile. wf_auto.
  - unfold AdminUserDelete. wf_auto.
Qed.

(** ** Who a request comes from *)

(** The header carries a signature of a session of a user of its name, or the
token of the other servers. *)
Definition authentic (d : D) (ws : WebSession) : Prop :=
  is_default ws = true ∨
  ∃ u s, u ∈ users d ∧ text_eq u.(uic.User.Name) ws.(Name) = true ∧
         s ∈ sessions d ∧ text_eq s.(uic.Session.Sig) ws.(Sig) = true ∧
         s.(uic.Session.Uid) = u.(uic.User.ID).

Definition caller (d : D) (ws : WebSession) (u : uic.User.t) : Prop :=
  u ∈ users d ∧ text_eq u.(uic.User.Name) ws.(Name) = true.

(** An authentic request of an admin. *)
Definition admin_request (c : header) (d : D) : Prop :=
  ∃ ws a, GetSession c = Ok ws ∧ authentic d ws ∧ caller d ws a ∧ IsAdmin a = true.

Lemma wp_any {A} (m : H A) (Φ : A → world D → Prop) (Ψ : world D → Prop) w :
  (∀ a w', Φ a w') → (∀ w', Ψ w') → wp m Φ Ψ w.
Proof. intros HΦ HΨ. unfold wp. destruct (m w) as [[a| |q] w']; auto. Qed.

(** A read into a structure, seen from [d0]. *)
Ltac wp_from d0 :=
  lazymatch goal with |- wp ?m _ _ _ =>
    lazymatch m with
    | find ?c ?tab ?p => apply (wp_find_from d0 c tab p)
    | first ?c ?tab ?p => apply (wp_first_from d0 c tab p)
    end end.

Lemma found_user_Ok (r : result (row user)) : (found_user r).(uic.User.ID) ≠ 0 → ∃ u, r = Ok u ∧ found_user r = u.
Proof. destruct r; cbn; [eauto|done]. Qed.

Lemma wp_SessionChecking d0 c (Φ : bool * option error → world D → Prop) Ψ w :
  same d0 w.(db) →
  (∀ r w', same d0 w'.(db) → (r.1 = true → ∃ ws, GetSession c = Ok ws ∧ authentic d0 ws) → Φ r w') →
  wp (SessionChecking c) Φ Ψ w.
Proof.
  intros Hs HΦ. unfold SessionChecking. destruct (GetSession c) as [ws|e] eqn:Ec; [|by apply wp_ret, HΦ].
  destruct (is_default ws) eqn:Ed.
  { apply wp_ret, HΦ; [done|]. intros _. exists ws. split; [done|by left]. }
  apply wp_bind. wp_from d0; [done|]. intros r w1 Hs1 [Hf _].
  case_decide as E0; [by apply wp_ret, HΦ|]. apply found_user_Ok in E0 as (u & -> & _).
  destruct (Hf u eq_refl) as (_ & Hu & Hn). cbn [found_user].
  apply wp_bind. wp_from d0; [done|]. intros r w2 Hs2 [Hf2 _].
  case_decide as E0; [by apply wp_ret, HΦ|]. destruct r as [x|e]; [|done].
  destruct (Hf2 x eq_refl) as (_ & Hx & [Hsig Huid%bool_decide_eq_true]%andb_true_iff).
  apply wp_ret, HΦ; [done|]. intros _. exists ws. split; [done|]. right. exists u, x. done.
Qed.

Lemma wp_AuthSessionMidd d0 c (h : H ()) Φ Ψ w :
  skip_auth = false → same d0 w.(db) → (∀ w', same d0 w'.(db) → Ψ w') →
  (∀ w' ws, same d0 w'.(db) → GetSession c = Ok ws → authentic d0 ws → wp h Φ Ψ w') →
  wp (AuthSessionMidd c h) Φ Ψ w.
Proof.
  intros Hk Hs HΨ Hh. unfold AuthSessionMidd. apply wp_bind. eapply wp_SessionChecking; [done|].
  intros [auth err] w' Hs' Ha. cbn [fst snd] in *. rewrite Hk. cbn [negb andb].
  destruct auth; [destruct err as [e|]|]; cbn.
  - apply wp_reply. intros w2 E2. apply HΨ. by rewrite E2.
  - destruct (Ha eq_refl) as (ws & ? & ?). by eapply Hh.
  - apply wp_reply. intros w2 E2. apply HΨ. by rewrite E2.
Qed.

Lemma wp_h_GetUser d0 c (Φ : uic.User.t * option error → world D → Prop) Ψ w :
  same d0 w.(db) →
  (∀ r w', same d0 w'.(db) → (r.2 = None → ∃ ws, GetSession c = Ok ws ∧ caller d0 ws r.1) → Φ r w') →
  wp (h_GetUser c) Φ Ψ w.
Proof.
  intros Hs HΦ. unfold h_GetUser. destruct (GetSession c) as [ws|e] eqn:Ec; [|by apply wp_ret, HΦ].
  apply wp_bind. wp_from d0; [done|]. intros [u|e] w' Hs' [Hf _]; apply wp_ret, HΦ; try done.
  destruct (Hf u eq_refl) as (_ & Hu & Hn). intros _. by exists ws.
Qed.

Lemma wp_current_user d0 code c (Φ : uic.User.t → world D → Prop) Ψ w :
  same d0 w.(db) → (∀ w', same d0 w'.(db) → Ψ w') →
  (∀ u w' ws, same d0 w'.(db) → GetSession c = Ok ws → caller d0 ws u → Φ u w') →
  wp (current_user code c) Φ Ψ w.
Proof.
  intros Hs HΨ HΦ. unfold current_user. apply wp_bind. eapply wp_h_GetUser; [done|].
  intros [u err] w' Hs' Hu. cbn [fst snd] in *. destruct err as [e|].
  - apply wp_reply. intros w2 E2. apply HΨ. by rewrite E2.
  - destruct (Hu eq_refl) as (ws & ? & ?). by eapply wp_ret, HΦ.
Qed.

Lemma wp_admin_only d0 code c (Φ : uic.User.t → world D → Prop) Ψ w :
  same d0 w.(db) → (∀ w', same d0 w'.(db) → Ψ w') →
  (∀ u w' ws, same d0 w'.(db) → GetSession c = Ok ws → caller d0 ws u → IsAdmin u = true → Φ u w') →
  wp (admin_only code c) Φ Ψ w.
Proof.
  intros Hs HΨ HΦ. unfold admin_only. apply wp_bind. eapply wp_current_user; [done..|].
  intros u w' ws Hs' Hg Hc. destruct (IsAdmin u) eqn:Ea; [by eapply wp_ret, HΦ|].
  apply wp_reply. intros w2 E2. apply HΨ. by rewrite E2.
Qed.

(** ** The rows of the users *)

(** What a request may do to the table [user]: an admin anything; any other
request changes only the row of its caller and only its profile and password,
removes nobody, and who is new has no role, the user [root] apart. *)
Definition own_row (c : header) (d : D) (u : uic.User.t) : Prop :=
  ∃ ws, GetSession c = Ok ws ∧ authentic d ws ∧ caller d ws u.

Definition guarded (c : header) (d d' : D) : Prop :=
  admin_request c d ∨
  (∀ u, u ∈ users d → u ∈ users d' ∨ own_row c d u ∧
     ∃ u', u' ∈ users d' ∧ u'.(uic.User.ID) = u.(uic.User.ID) ∧
           u'.(uic.User.Name) = u.(uic.User.Name) ∧ u'.(uic.User.Role) = u.(uic.User.Role)) ∧
  (∀ u', u' ∈ users d' →
     (∃ u, u ∈ users d ∧ u'.(uic.User.ID) = u.(uic.User.ID) ∧
           u'.(uic.User.Name) = u.(uic.User.Name) ∧ u'.(uic.User.Role) = u.(uic.User.Role)) ∨
     (∀ u, u ∈ users d → u'.(uic.User.ID) ≠ u.(uic.User.ID)) ∧
     (u'.(uic.User.Role) = 0 ∨ u'.(uic.User.Role) = 2 ∧ u'.(uic.User.Name) = "root")).

Lemma guarded_eq c d d' : users d' = users d → guarded c d d'.
Proof. intros E. right. rewrite E. split; [auto|]. intros u Hu. left. eauto. Qed.

Lemma guarded_same c d d' : same d d' → guarded c d d'.
Proof. intros [_ E]. apply guarded_eq. by rewrite E. Qed.

Lemma guarded_users c d d' d'' : users d'' = users d' → guarded c d d' → guarded c d d''.
Proof. unfold guarded. intros ->. done. Qed.

(** One row of the users is rewritten. *)
Lemma guarded_own c d d' u f :
  keys_ok Pool user d → own_row c d u → (∀ x, uic.User.ID (f x) = uic.User.ID x ∧
    uic.User.Name (f x) = uic.User.Name x ∧ uic.User.Role (f x) = uic.User.Role x) →
  users d' ≡ₚ (λ x, if by_id user u.(uic.User.ID) x then f x else x) <$> users d →
  guarded c d d'.
Proof.
  intros [Hk _] Hown Hf E. right. split.
  - intros x Hx. destruct (by_id user (uic.User.ID u) x) eqn:Ex.
    + right. assert (x = u) as ->.
      { pose proof Hown as (ws & _ & _ & Hu & _). eapply (apart_inj user); [done..|].
        apply conflict_pk; [done|]. by apply bool_decide_eq_true in Ex. }
      split; [done|]. exists (f u). split; [|apply Hf]. rewrite E. apply list_elem_of_fmap. exists u.
      by rewrite Ex.
    + left. rewrite E. apply list_elem_of_fmap. exists x. by rewrite Ex.
  - intros y. rewrite E. intros (x & -> & Hx)%list_elem_of_fmap. left. exists x. split; [done|].
    destruct (by_id _ _ x); [apply Hf|done].
Qed.

(** A request that leaves the users alone. *)
Lemma users_created t x0 x d d' : t ≠ user → created Pool t x0 x d d' → users d' = users d.
Proof. intros Ht (_ & _ & _ & Hf). apply (frame_other _ _ user Pool _ _ Hf). congruence. Qed.
Lemma users_session u U : ApiDb.pres (λ d, users d = U) (user_session u).
Proof.
  assert (∀ d d', same d d' → users d = U → users d' = U) as Hs by (intros ?? [_ E]; by rewrite E).
  unfold user_session, GenerateUUID. repeat pres_step; try exact Hs.
  apply pres_create with (t := session); [exact Hs|].
  intros x d d' Hc. by rewrite (users_created session _ _ _ _ ltac:(done) Hc).
Qed.

Lemma users_quiet c r w : writes_users r = false → users (serve c r w).2.(db) = users w.(db).
Proof.
  intros Hr. refine (pres_quiet (λ d, users d = users w.(db)) _ _ _ _ c r Hr _ w eq_refl).
  - intros d d' [_ E]. by rewrite E.
  - intros t x0 x d d' Ht Hc. rewrite (users_created t _ _ _ _ ltac:(by destruct Ht as [-> | ->]) Hc). done.
  - intros p b d d' (_ & Hf & _). by rewrite (frame_other _ _ user Pool _ _ Hf) by congruence.
  - intros t p d d' Ht (_ & Hf & _).
    rewrite (frame_other _ _ user Pool _ _ Hf); [done|]. destruct Ht as [-> |[-> | ->]]; congruence.
  - intros b _. apply pres_Login; [|intros; apply users_session]. intros d d' [_ E]. by rewrite E.
Qed.

Section guard.
Variables (c : header) (d0 : D).
Hypothesis Hwf : uic_wf d0.
#[local] Set Default Proof Using "Type L Hwf".

Lemma user_pos u : u ∈ users d0 → 0 < u.(uic.User.ID).
Proof. destruct Hwf as [Hk _]. by apply (proj2 (Hk user eq_refl) eq_refl). Qed.

Notation wpg m w := (wp m (λ _ w', guarded c d0 w'.(db)) (λ w', guarded c d0 w'.(db)) w).

Lemma guard_admin {A} (m : H A) w : admin_request c d0 → wpg m w.
Proof. intros Ha. apply wp_any; intros; by left. Qed.

Lemma guard_reply {A} code m w : same d0 w.(db) → wpg (reply (A := A) code m) w.
Proof. intros Hs. apply wp_reply. intros w' ->. by apply guarded_same. Qed.

Lemma guard_admin_only {A} ws code (k : uic.User.t → H A) w :
  same d0 w.(db) → GetSession c = Ok ws → authentic d0 ws → wpg (admin_only code c ≫= k) w.
Proof.
  intros Hs Hg Hau. apply wp_bind. apply (wp_admin_only d0); [done|intros; by apply guarded_same|].
  intros u w' ws' _ Hg' Hc Ha. apply guard_admin. exists ws, u.
  assert (ws' = ws) as -> by congruence. done.
Qed.

Lemma guard_bind_err {A B} code (b : bound A) (k : A → H B) w :
  same d0 w.(db) → wpg (k b.(inputs)) w → wpg (check_bind code b ≫= k) w.
Proof.
  intros Hs Hk. apply wp_bind, wp_check_bind; [done|]. intros w' ->. by apply guarded_same.
Qed.

Lemma guard_update ws u a b e f g w :
  same d0 w.(db) → GetSession c = Ok ws → authentic d0 ws → caller d0 ws u →
  wpg (r ← update Pool user (on (by_id user u.(uic.User.ID))) (uic.User.with_profile a b e f g);
       check StatusExpectationFailed r ;; reply (A := ()) StatusOK (MString "user info updated")) w.
Proof.
  intros [Hs1 Hs2] Hg Hau Hc. apply wp_bind, wp_update.
  { intros er w' Hs. apply wp_bind, wp_reply. intros w2 ->. apply guarded_same.
    by eapply same_trans. }
  intros n w' (_ & _ & E & _).
  assert (guarded c d0 w'.(db)) as Hgu.
  { rewrite Hs2 in E. eapply guarded_own; [apply Hwf; done|by exists ws| |exact E]. by intros []. }
  apply wp_bind, wp_ret, wp_reply. by intros w2 ->.
Qed.

Lemma guard_UpdateCurrentUser ws b w :
  same d0 w.(db) → GetSession c = Ok ws → authentic d0 ws → wpg (UpdateCurrentUser c b) w.
Proof.
  intros Hs Hg Hau. unfold UpdateCurrentUser. apply guard_bind_err; [done|].
  case_match; [by apply guard_reply|]. rewrite Hg. apply wp_bind, wp_ret, wp_bind. wp_from d0; [done|].
  intros r w' Hs' [Hf _]. case_decide as E0; [by apply guard_reply|].
  apply found_user_Ok in E0 as (u & -> & _). destruct (Hf u eq_refl) as (_ & Hu & Hn).
  by eapply guard_update.
Qed.

Lemma guard_ChangePassword ws b w :
  same d0 w.(db) → GetSession c = Ok ws → authentic d0 ws → wpg (ChangePassword c b) w.
Proof.
  intros Hs Hg Hau. unfold ChangePassword. apply wp_bind.
  assert (∀ w', same d0 w'.(db) → wpg (websession ← check badstatus (GetSession c);
    r ← find Pool user (user_named websession.(Name));
    u ← check StatusExpectationFailed r;
    if decide (u.(uic.User.Passwd) ≠ HashIt b.(inputs).(OldPassword)) then
      reply (A := ()) StatusBadRequest (MString "oldPassword is not match current one")
    else
      r ← save Pool user (uic.User.with_Passwd (HashIt b.(inputs).(NewPassword)) u);
      check StatusExpectationFailed r ;;
      reply (A := ()) StatusOK (MString "password updated!")) w') as Hrest.
  2: { destruct (bind_err b); [|by apply wp_ret, Hrest]. apply wp_answer. intros w' E. apply Hrest.
       by rewrite E. }
  clear Hs w. intros w Hs. rewrite Hg. apply wp_bind, wp_ret, wp_bind. wp_from d0; [done|].
  intros [u|e] w1 Hs1 [Hf _]; [|by apply wp_bind, wp_reply; intros w2 ->; apply guarded_same].
  apply wp_bind, wp_ret.
  case_decide; [by apply guard_reply|].
  destruct (Hf u eq_refl) as (_ & Hu & Hn). pose proof (user_pos u Hu) as Hpos.
  assert (∀ (r : result (row user * Z)) w', guarded c d0 w'.(db) →
    wpg (check StatusExpectationFailed r ;; reply (A := ()) StatusOK (MString "password updated!")) w') as Hend.
  { intros r w' Hgu. apply wp_bind. destruct r; [apply wp_ret|]; apply wp_reply; by intros w2 ->. }
  apply wp_bind. apply (wp_save_over Pool user _ u).
  - by destruct u; cbn in *; lia.
  - by rewrite (proj2 Hs1).
  - by destruct u.
  - intros r w2 Hs2. apply Hend, guarded_same. by eapply same_trans.
  - intros r d2 w2 (_ & _ & E & _) Hs2. apply Hend. apply (guarded_users _ _ d2); [by rewrite (proj2 Hs2)|].
    rewrite (proj2 Hs1) in E. replace (pk user _) with (uic.User.ID u) in E by by destruct u.
    eapply (guarded_own _ _ _ u (λ x, if decide (x = u) then uic.User.with_Passwd (HashIt (NewPassword (inputs b))) u else x));
      [apply Hwf; done|by exists ws| |].
    + intros x. case_decide; [subst; by destruct u|done].
    + rewrite E. apply Permutation_refl', list_fmap_ext. intros i x Hi. apply list_elem_of_lookup_2 in Hi.
      unfold on. destruct (by_id user (uic.User.ID u) x) eqn:Ex; [|done]. rewrite decide_True; [done|].
      eapply (apart_inj user); [apply Hwf; done|done..|]. apply conflict_pk; [done|].
      by apply bool_decide_eq_true in Ex.
Qed.

(** A new user has a new key, and no role unless it is the root. *)
Lemma guard_new x0 x d :
  x0.(uic.User.Role) = 0 ∨ x0.(uic.User.Role) = 2 ∧ x0.(uic.User.Name) = "root" →
  x0.(uic.User.ID) = 0 → created Pool user x0 x d0 d → guarded c d0 d.
Proof.
  intros Hr Hid (_ & (Hx & Hpos & Hc) & E & _). right. split.
  - intros u Hu. left. rewrite E. by right.
  - intros y. rewrite E, elem_of_cons. intros [->|Hy]; [|left; by exists y]. right.
    cbn [pk] in Hx. rewrite bool_decide_true in Hx by done. destruct Hx as [id ->]. split; [|by destruct x0].
    intros u Hu Eid. rewrite forallb_forall in Hc. specialize (Hc u ltac:(by apply list_elem_of_In)).
    rewrite conflict_pk in Hc by done. done.
Qed.

Lemma guard_CreateUser b w : same d0 w.(db) → wpg (CreateUser c b) w.
Proof.
  intros Hs. unfold CreateUser. apply guard_bind_err; [done|]. case_match; [by apply guard_reply|].
  apply wp_bind. eapply wp_mono with (Φ := λ _ w', same d0 w'.(db)) (Ψ := λ w', same d0 w'.(db));
    [|clear w Hs|intros w' Hs'; by apply guarded_same].
  { revert w Hs. apply (proj1 (pres_wp (same d0) _)). destruct signup_disable; [|apply pres_ret]. apply pres_signup_guard. intros d d' Hs1 Hs2.
    by eapply same_trans. }
  intros _ w Hs. apply wp_bind. wp_from d0; [done|]. intros r w1 Hs1 _.
  case_decide; [by apply guard_reply|]. apply wp_bind, (wp_create Pool user).
  { intros e w2 Hs2. apply wp_bind, wp_reply. intros w3 ->. apply guarded_same. by eapply same_trans. }
  intros x w2 Hc. assert (guarded c d0 w2.(db)) as Hg.
  { destruct Hc as (_ & Hi & E & Hf). destruct Hs1 as [Ht1 Hs1]. rewrite Hs1 in E, Hi.
    eapply guard_new; [| |split_and!; [done|exact Hi|exact E|]]; [|done|].
    - cbn. case_decide; auto.
    - split; [|intros c' t' Hn]; [by rewrite (proj1 Hf)|by rewrite (proj2 Hf c' t' Hn), Hs1]. }
  apply wp_bind, wp_ret, wp_bind. eapply wp_mono.
  - apply (pres_wp (λ d, users d = users w2.(db))); [apply users_session|done].
  - intros sig w3 E. apply wp_reply. intros w4 ->. by apply (guarded_users c d0 w2.(db)).
  - intros w3 E. by apply (guarded_users c d0 w2.(db)).
Qed.

End guard.

(** Who may change a user: whatever the request and the failing statements,
with sessions checked ([skip_auth] off), either the request is an authentic one
of an admin, or it changes no row but the one of the user it comes from, and of
that neither the name nor the role; nobody is removed, and a user it makes has
no role, [root] apart. *)
Theorem user_rows_guarded c r w :
  skip_auth = false → uic_wf w.(db) → guarded c w.(db) (serve c r w).2.(db).
Proof.
  intros Hk Hw. destruct (writes_users r) eqn:Er; [|by apply guarded_eq, users_quiet].
  assert (wp (serve c r) (λ _ w', guarded c w.(db) w'.(db)) (λ w', guarded c w.(db) w'.(db)) w) as Hwp.
  2: { unfold wp in Hwp. by destruct (serve c r w) as [[a| |q] w']. }
  destruct r; try done; cbn [serve]; [by apply guard_CreateUser| | | | | |];
    (eapply wp_AuthSessionMidd; [done..|by intros; apply guarded_same|]; intros w1 ws Hs Hg Hau).
  - by eapply guard_UpdateCurrentUser.
  - by eapply guard_ChangePassword.
  - unfold ChangeRoleOfUser. apply guard_bind_err; [done..|]. by eapply guard_admin_only.
  - unfold AdminChangePassword. apply guard_bind_err; [done..|]. by eapply guard_admin_only.
  - unfold AdminChangeUserProfile. apply guard_bind_err; [done..|]. by eapply guard_admin_only.
  - unfold AdminUserDelete. apply guard_bind_err; [done..|]. by eapply guard_admin_only.
Qed.

(** Requests one after the other. *)
Definition serve_all (l : list (header * request)) (w : world D) : world D :=
  foldl (λ w cr, (serve cr.1 cr.2 w).2) w l.

(** The tables of the users' database are well formed, and stay it through
every sequence of requests and every pattern of failing statements: primary and
unique keys hold, keys are positive, and no user has two sessions. *)
Theorem uic_tables_typed l w : uic_wf w.(db) → uic_wf (serve_all l w).(db).
Proof.
  revert w. induction l as [|[c r] l IH]; intros w Hw; [done|]. apply IH. by apply pres_serve.
Qed.

End uic.

(** ** The site *)

#[local] Existing Instance site_settings.

Lemma site_wf : uic_wf site.(db).
Proof.
  split; [|by apply (bool_decide_eq_true_1 _); vm_compute].
  intros t Ht. split; [by destruct t; vm_compute|]. intros _ x Hx.
  assert (forallb (λ x, 0 <? pk t x) (content Pool site.(db) t) = true) as Hp by by destruct t; vm_compute.
  rewrite forallb_forall in Hp. apply list_elem_of_In, Hp in Hx. lia.
Qed.

Lemma uic_tables_typed_witness :
  uic_wf (serve_all [(None, POST_login (Bound (APILoginInput_ "bob" "b") None));
                     (token "root" "r1", DELETE_delete_user (Bound 2 None))] site).(db).
Proof. apply uic_tables_typed. apply site_wf. Defined.

Lemma user_rows_guarded_witness :
  guarded (token "alice" "a1") site.(db)
    (serve (token "alice" "a1") (DELETE_delete_user (Bound 3 None)) site).2.(db).
Proof. apply user_rows_guarded; [reflexivity|apply site_wf]. Defined.

(** A form without the new password is answered an error, and the password is
blank all the same. *)
Example blank_password_accepted :
  let w := (serve (token "alice" "a1")
             (PUT_cgpasswd (Bound (APICgPassedInput_ "a" "") (Some "NewPassword is required"))) site).2 in
  w.(resps) = [JSONR 400 (MError "NewPassword is required"); JSONR 200 (MString "password updated!")] ∧
  (uic.User.Passwd <$> pool w.(db) user) = [Md5 "sr"; Md5 "s"; Md5 "sb"].
Proof. by vm_compute. Qed.

(** Whoever exists is in every team. *)
Example everyone_is_in_every_team :
  (serve (token "root" "r1") (GET_in_teams "2" (Some "admins")) site).2.(resps) =
  [JSONR 200 (MString "true")].
Proof. by vm_compute. Qed.

(** Giving a role to a user that does not exist makes a user without a name. *)
Example role_for_nobody :
  let w := (serve (token "root" "r1") (PUT_change_user_role (Bound (APIRoleUpdate_ 77 "yes") None)) site).2 in
  pool w.(db) user !! 3%nat = Some (uic.User.mk 4 "" "" "" "" "" "" "" 1).
Proof. by vm_compute. Qed.

(** An admin takes the role of the root. *)
Example admin_demotes_root :
  let w := (serve (token "root" "r1") (PUT_change_user_role (Bound (APIRoleUpdate_ 2 "yes") None)) site).2 in
  let w := (serve (token "alice" "a1") (PUT_change_user_role (Bound (APIRoleUpdate_ 1 "no") None)) w).2 in
  (uic.User.Role <$> pool w.(db) user) = [0; 1; 0].
Proof. by vm_compute. Qed.

(** The insert of a session fails: the login is answered with a signature that
the table does not have. *)
Example login_without_session :
  let w0 := World (Mem site_view None [false; false; true]) [] 0 in
  let w := (serve None (POST_login (Bound (APILoginInput_ "bob" "b") None)) w0).2 in
  w.(resps) = [JSONR 200 (MValue (JObject
    [("sig", JString "00"); ("name", JString "bob"); ("admin", JBool false)]))] ∧
  pool w.(db) session = site_sessions.
Proof. by vm_compute. Qed.
