(* ===== verification/ApiPortalSafety.v ===== *)
(** * The api: what the portal part guarantees

[ph_serve] is the part of [api_answers] (see ApiAnswers) that is about the
handlers of falcon_portal.  The examples at the end show what they do on keys
that are zero, for admins and for those who may not. *)

From S2P Require Import Prelude GoFloat GoString Hash Tags Model Json Regex ApiModel ApiDb ApiUic ApiTemplate ApiHost ApiPhases ApiMem.
From stdpp Require Import options.

Section portal.
Context `{Sql D} {L : SqlLaws D} `{Settings}.
#[local] Set Default Proof Using "Type L".
Notation H := (H D).
Implicit Types (w : world D) (d : D).

Lemma reader_FindParentName t : reader (FindParentName t).
Proof. unfold FindParentName. reads. Qed.
#[local] Hint Resolve reader_FindParentName : portal.
Lemma reader_template_outputs l : reader (template_outputs l).
Proof. induction l as [|t l IH]; cbn [template_outputs]; reads. Qed.
#[local] Hint Resolve reader_template_outputs : portal.
Lemma reader_last_insert_id : reader last_insert_id.
Proof. unfold last_insert_id. reads. Qed.
Lemma reader_Existing h : reader (Existing h).
Proof. unfold Existing. reads. Qed.
Lemma reader_RelatedGrp h : reader (RelatedGrp h).
Proof. unfold RelatedGrp. reads. Qed.
#[local] Hint Resolve reader_last_insert_id reader_Existing reader_RelatedGrp : portal.
Lemma reader_RelatedTpl h : reader (RelatedTpl h).
Proof. unfold RelatedTpl. reads. Qed.
Lemma reader_HostGroupName x : reader (HostGroupName x).
Proof. unfold HostGroupName. reads. Qed.
Lemma reader_grp_hosts keep l : reader (grp_hosts keep l).
Proof. induction l as [|x l IH]; cbn [grp_hosts]; reads. Qed.
Lemma guard_creator_only u g code s : guard (creator_only u g code s).
Proof. unfold creator_only. guards. Qed.
Lemma guard_creator_or u g m s : guard (creator_or u g m s).
Proof. unfold creator_or. guards. Qed.
#[local] Hint Resolve reader_RelatedTpl reader_HostGroupName reader_grp_hosts guard_creator_only
  guard_creator_or : portal.

Lemma ph_bind_hosts w0 gid hosts ids b (Φ : list Z → world D → Prop) w :
  Ph w0 true false w → (∀ a w', Ph w0 true false w' → Φ a w') → wp (bind_hosts gid hosts ids) Φ (over w0 b) w.
Proof.
  revert ids w. induction hosts as [|h hosts IH]; cbn [bind_hosts]; intros ids w Hw HΦ.
  { apply wp_ret. eauto. }
  repeat (ph_step || (eapply IH; [eassumption|]; auto; fail)).
Qed.

(** Two handlers read what they wrote once more, and may answer an error then. *)
Definition rereads (r : portal_request) : bool :=
  match r with PUT_aggregator _ | PUT_nodata _ => true | _ => false end.
Definition may_panic (r : portal_request) : bool :=
  match r with POST_template_action _ => true | _ => false end.

Ltac handler := repeat ph_step.

Lemma ph_handler w0 c r w :
  Ph w0 false false w →
  wp (portal_handler c r) (λ _ _, False) (over w0 (may_panic r, negb (rereads r))) w.
Proof.
  intros Hw. destruct r; cbn [portal_handler may_panic rereads negb].
  - unfold GetTemplates. handler.
  - unfold CreateTemplate. handler.
  - unfold GetATemplate. handler.
  - unfold UpdateTemplate. handler.
  - unfold GetATemplateHostgroup. handler.
  - unfold DeleteTemplate. handler.
  - unfold CreateActionToTmplate. handler.
  - unfold UpdateActionToTmplate. handler.
  - unfold GetActionByID. handler.
  - unfold GetTemplatesSimple. handler.
  - unfold GetStrategys. handler.
  - unfold GetStrategy. handler.
  - unfold CreateStrategy. handler.
  - unfold UpdateStrategy. handler.
  - unfold DeleteStrategy. handler.
  - unfold GetExpressionList. handler.
  - unfold GetExpression. handler.
  - unfold CreateExrpession. handler.
  - unfold UpdateExrpession. handler.
  - unfold DeleteExpression. handler.
  - unfold GetHostGroups. handler.
  - unfold CrateHostGroup. handler.
  - unfold BindHostToHostGroup. repeat (ph_step || (apply ph_bind_hosts; [assumption|intros ? ? ?])).
  - unfold UnBindAHostToHostGroup. handler.
  - unfold GetHostGroup, group_answer. handler.
  - unfold PutHostGroup. handler.
  - unfold DeleteHostGroup. handler.
  - unfold GetPluginOfGrp. handler.
  - unfold CreatePlugin. handler.
  - unfold DeletePlugin. handler.
  - unfold GetAggregatorListOfGrp. handler.
  - unfold GetAggregator. handler.
  - unfold CreateAggregator. handler.
  - unfold UpdateAggregator. handler.
  - unfold DeleteAggregator. handler.
  - unfold BindTemplateToGroup. handler.
  - unfold UnBindTemplateToGroup. handler.
  - unfold GetTemplateOfHostGroup. handler.
  - unfold GetTplsRelatedHost. handler.
  - unfold GetGrpsRelatedHost. handler.
  - unfold SetMaintain, set_maintain. handler.
  - unfold UnsetMaintain, set_maintain. handler.
  - unfold GetNoDataList. handler.
  - unfold GetNoData. handler.
  - unfold CreateNoData. handler.
  - unfold UpdateNoData. handler.
  - unfold DeleteNoData. handler.
Qed.

Lemma ph_serve w0 c r w :
  Ph w0 false false w →
  wp (portal_serve c r) (λ _ _, False) (over w0 (may_panic r, negb (rereads r))) w.
Proof.
  intros Hw. unfold portal_serve. destruct (portal_open r); [by apply ph_handler|].
  unfold AuthSessionMidd. repeat ph_step. by apply ph_handler.
Qed.

End portal.

(** ** The site *)

#[local] Existing Instance site_settings.

(** Two strategies, an expression of bob with its action, and a group of alice. *)
Definition site_strategy (id : Z) : f.Strategy.t :=
  f.Strategy.mk id "cpu.idle" "" 3 0 "all(#3)" "<" "5" "" "" "" 1.
Definition site_expression : f.Expression.t :=
  f.Expression.mk 1 "each(metric=load)" "all(#3)" ">" "5" 3 0 "" 7 "bob" 0.
Definition site_action : f.Action.t := f.Action.mk 7 "ops" "" 0 0 0 0 0.
Definition portal_view : view :=
  upd strategy [site_strategy 1; site_strategy 2] (upd expression [site_expression]
    (upd action [site_action] (upd grp [f.HostGroup.mk 1 "web" "alice" 1; f.HostGroup.mk 2 "db" "bob" 1]
      site_view))).
Definition portal_site (fails : list bool) : world mem := World (Mem portal_view None fails) [] 0.

(** Deleting the strategy 0 deletes them all, whoever asks. *)
Example strategy_zero_deletes_all :
  let w := (portal_serve (token "alice" "a1") (DELETE_strategy "0") (portal_site [])).2 in
  w.(resps) = [JSONR 200 (MString "strategy:0 has been deleted")] ∧ pool w.(db) strategy = [].
Proof. by vm_compute. Qed.

(** So does the group 0 of an admin. *)
Example group_zero_deletes_all :
  let w := (portal_serve (token "root" "r1") (DELETE_hostgroup "0") (portal_site [])).2 in
  pool w.(db) grp = [].
Proof. by vm_compute. Qed.

(** An expression that its creator deletes goes with its action; when an admin
does, the action stays. *)
Example admin_leaves_the_action :
  let w := (portal_serve (token "root" "r1") (DELETE_expression "1") (portal_site [])).2 in
  pool w.(db) expression = [] ∧ pool w.(db) action = [site_action].
Proof. by vm_compute. Qed.

(** Anyone renames a group; only its creator deletes it. *)
Example anyone_renames_a_group :
  let w := (portal_serve (token "alice" "a1") (PUT_hostgroup (Bound (APIHostGroupInputs_ 2 "mine") None))
              (portal_site [])).2 in
  pool w.(db) grp = [f.HostGroup.mk 1 "web" "alice" 1; f.HostGroup.mk 2 "mine" "bob" 1] ∧
  (portal_serve (token "alice" "a1") (DELETE_hostgroup "2") w).2.(resps) =
    w.(resps) ++ [JSONR 400 (MString "You don't have permission!")].
Proof. by vm_compute. Qed.

(** A threshold that a new strategy may have, an updated one may not. *)
Example threshold_for_new_strategies_only :
  let i := StrategyInput_ "cpu.idle" "" 3 0 "all(#3)" "<" "-1.5" "" "" "" in
  CreateStrategy_CheckFormat i = Ok () ∧ UpdateStrategy_CheckFormat i = Err errRightValue.
Proof. by vm_compute. Qed.

(** The statement that asks for the key of the new action fails: the handler
panics, nothing is answered and the transaction stays open. *)
Example action_without_key :
  let r := portal_serve (token "alice" "a1")
             (POST_template_action (Bound (APICreateActionToTmplateInput_ (ActionInput_ "ops" "" 0 0 0 0 0) 1) None))
             (portal_site [false; false; false; false; true]) in
  (∃ p, r.1 = Panicked p) ∧ r.2.(resps) = [] ∧ in_tx r.2.(db) = Some DBPool.Falcon.
Proof. vm_compute. eauto. Qed.
