(* ===== verification/ApiAnswers.v ===== *)
(** * The api: every request is answered once

[api_answers]: the handlers of falcon_portal, of the dashboards, of the alarm cases,
of the graph nodes and of grafana answer exactly once, leave no transaction open, and an
answer that is not 200 means that nothing was changed (a few handlers, which
write first and then read, apart). *)

From S2P Require Import Prelude GoFloat GoString Hash Tags Model Json Regex Containers Transfer ConnPool GraphApi GraphQuery.
From S2P Require Import ApiModel ApiDb ApiUic ApiTemplate ApiHost ApiDash ApiAlarm ApiGraph ApiGrafana ApiGraphMem ApiPhases ApiMem ApiPortalSafety.
From stdpp Require Import options.

(** ** Requests to the graph nodes *)

Section nodes.
Context `{Sql D} {L : SqlLaws D} `{Nodes D} {NL : NodesLaws D}.
Context {R : Type} `{!NodeRing R} (ring : R) (clusterMap : gmap string string).
#[local] Set Default Proof Using "Type".
Implicit Types (d : D).

(** Taking a connection never panics: the function [New] gives one or an error. *)
Lemma Fetch_dial resolve connect now p w :
  ∃ r p' w', Fetch (dial resolve connect) now p w = Ret (r, p', w').
Proof.
  unfold Fetch, fetchFree. destruct (p.(free)) as [|c f]; cbn beta iota; [|by do 3 eexists].
  destruct (overMax p); [by do 3 eexists|]. unfold newConn, dial.
  destruct resolve; [by do 3 eexists|]. destruct connect; by do 3 eexists.
Qed.

(** What a request to a node does to the api: nothing, or a call begins and ends
at the address of its key, the node being asked in between. *)
Lemma ask_cases {A} pk (call : string → D → rpc A * D) d :
  (∃ e, selectPoolByPK ring clusterMap pk (here d).(GraphConnPools) = Err e ∧
        ask ring clusterMap pk call d = Ret (Unsent e, d)) ∨
  ∃ pool addr r pool' w', let (resolve, connect) := reach addr d in
    selectPoolByPK ring clusterMap pk (here d).(GraphConnPools) = Ok (pool, addr) ∧
    ConnPool.Get addr (here d).(GraphConnPools) = Some pool ∧
    Fetch (dial resolve connect) (unix_now d) pool (here d).(net) = Ret (r, pool', w') ∧
    match r with
    | Err e => ask ring clusterMap pk call d = Ret (Unsent e, put_pool addr pool' w' d)
    | Ok conn =>
        let (rc, d1) := call addr (put_pool addr pool' w' d) in
        let pool1 := default pool' (ConnPool.Get addr (here d1).(GraphConnPools)) in
        let '(a, pool2, w2) := settle addr conn rc pool1 (here d1).(net) in
        ask ring clusterMap pk call d = Ret (a, put_pool addr pool2 w2 d1)
    end.
Proof.
  unfold ask, selectPoolByPK. destruct (GetNode ring pk) as [node|e]; cbn [mbind result_bind]; [|left; by exists e].
  destruct (clusterMap !! node) as [addr|]; [|left; by eexists].
  destruct (ConnPool.Get addr _) as [pool|] eqn:Ep; [|left; by eexists].
  right. destruct (Fetch_dial (reach addr d).1 (reach addr d).2 (unix_now d) pool (here d).(net))
    as (r & pool' & w' & E).
  exists pool, addr, r, pool', w'. destruct (reach addr d) as [resolve connect]. cbn in E.
  split_and!; [done..|]. rewrite E. cbn [mbind go_bind]. destruct r as [conn|e]; [|done].
  cbn [Conn.Closed]. destruct (call addr _) as [rc d1]. by destruct (settle (A := A) _ _ _ _ _) as [[a pool2] w2].
Qed.

Lemma put_pool_same addr p w d : same d (put_pool addr p w d).
Proof using NL. apply set_here_same. Qed.

(** The calls of [Nodes] keep the rows. *)
Definition quiet {A} (call : string → D → rpc A * D) : Prop :=
  ∀ addr d, let d' := (call addr d).2 in here d' = here d ∧ same d d'.

Lemma ask_same {A} pk (call : string → D → rpc A * D) d :
  quiet call → ∃ a d', ask ring clusterMap pk call d = Ret (a, d') ∧ same d d'.
Proof using L NL.
  intros Hc. destruct (ask_cases pk call d) as [(e & _ & E)|(pool & addr & r & pool' & w' & E)]; [by exists (Unsent e), d|].
  destruct (reach addr d) as [resolve connect]. destruct E as (_ & _ & _ & E).
  destruct r as [conn|e]; [|eexists _, _; split; [done|apply put_pool_same]].
  pose proof (Hc addr (put_pool addr pool' w' d)) as [_ Hs]. destruct (call addr _) as [rc d1].
  cbv zeta in E. destruct (settle (A := A) _ _ _ _ _) as [[a pool2] w2]. eexists _, _. split; [done|].
  eapply same_trans; [apply put_pool_same|]. eapply same_trans; [exact Hs|apply put_pool_same].
Qed.

Lemma quiet_Query q : quiet (λ addr, rpc_Query addr q).
Proof using NL. intros addr d. apply rpc_Query_here. Qed.
Lemma quiet_Last q : quiet (λ addr, rpc_Last addr q).
Proof using NL. intros addr d. apply rpc_Last_here. Qed.
Lemma quiet_Delete l : quiet (λ addr, rpc_Delete addr l).
Proof using NL. intros addr d. apply rpc_Delete_here. Qed.
End nodes.
#[export] Hint Resolve quiet_Query quiet_Last quiet_Delete : portal.

(** ** Phases *)

Section answers.
Context `{Sql D} {L : SqlLaws D} `{Settings} `{Nodes D} {NL : NodesLaws D}.
Context {R : Type} `{!NodeRing R} (ring : R) (clusterMap : gmap string string).
Context (visit : list (string * list GraphDeleteParam) → list (string * list GraphDeleteParam)).
Context (order : list (string * bool) → list (string * bool)).
#[local] Set Default Proof Using "Type L NL".
Notation H := (H D).
Implicit Types (w : world D) (d : D).

Lemma reader_ask {A} pk (call : string → D → rpc A * D) : quiet call → reader (ask_node ring clusterMap pk call).
Proof.
  intros Hc w0 tx wr b Φ w Hw HΦ. unfold wp, ask_node.
  destruct (ask_same ring clusterMap pk call w.(db) Hc) as (a & d' & -> & Hs).
  apply HΦ. by eapply (ph_same _ _ _ w).
Qed.
#[local] Hint Resolve reader_ask : portal.

Lemma reader_QueryOne q : reader (QueryOne ring clusterMap q).
Proof. unfold QueryOne. reads. Qed.
Lemma reader_Last q : reader (Last ring clusterMap q).
Proof. unfold Last. reads. Qed.
#[local] Hint Resolve reader_QueryOne reader_Last : portal.
Lemma reader_last_points l : reader (last_points ring clusterMap l).
Proof. induction l as [|q l IH]; cbn [last_points]; reads. Qed.
Lemma reader_Delete l : reader (Delete ring clusterMap visit l).
Proof. unfold Delete. induction (visit _) as [|n ns IH]; cbn [each]; reads. Qed.
Lemma reader_getCounterStep e c : reader (getCounterStep e c).
Proof.
  intros w0 tx wr b Φ w Hw HΦ. unfold wp, getCounterStep. destruct (tc_Get _ _ _); [by apply HΦ|].
  destruct (SelectJoin _ _ _ _ _ _) as [r d] eqn:E. apply SelectJoin_law in E as [Hs _].
  assert (Ph w0 tx wr (with_db d w)) as Hw' by by eapply (ph_same _ _ _ w).
  destruct r as [rows|e']; [|by apply HΦ]. destruct ((λ _, 0) <$> rows) as [|s l]; [by apply HΦ|].
  apply HΦ. eapply (ph_same _ _ _ (with_db d w)); [apply set_here_same|done..].
Qed.
#[local] Hint Resolve reader_last_points reader_Delete reader_getCounterStep : portal.
Lemma reader_draw i l : reader (draw ring clusterMap i l).
Proof. induction l as [|[e c] l IH]; cbn [draw]; reads. Qed.
#[local] Hint Resolve reader_draw : portal.
Lemma reader_join t1 t2 p n : reader (run (SelectJoin Pool t1 t2 p n)).
Proof.
  intros w0 tx wr b Φ w Hw HΦ. eapply (ph_read _ tx wr); [|done..]. intros d r d' E. by eapply SelectJoin_law.
Qed.
Lemma reader_indexed p : reader (indexed p).
Proof. apply (reader_join endpoint endpoint_counter). Qed.
Lemma reader_pluck t f p n o : reader (run (PluckDistinct Pool t f p n o)).
Proof.
  intros w0 tx wr b Φ w Hw HΦ. eapply (ph_read _ tx wr); [|done..]. intros d r d' E. by eapply PluckDistinct_law.
Qed.
#[local] Hint Resolve reader_indexed reader_pluck : portal.

Ltac handler := repeat ph_step.

Lemma ph_graph w0 c r w :
  Ph w0 false false w →
  wp (graph_serve ring clusterMap visit c r) (λ _ _, False) (over w0 (false, true)) w.
Proof.
  intros Hw. unfold graph_serve, AuthSessionMidd. repeat ph_step. destruct r; cbn [graph_handler].
  - unfold EndpointObjGet. handler.
  - unfold EndpointRegexpQuery. handler.
  - unfold EndpointCounterRegexpQuery. handler.
  - unfold QueryGraphDrawData. handler.
  - unfold QueryGraphLastPoint. handler.
  - unfold DeleteGraphEndpoint. handler.
  - unfold DeleteGraphCounter. handler.
Qed.

(** A screen and a graph for one look are written first and read then. *)
Definition dash_rereads (r : dash_request) : bool :=
  match r with POST_tmpgraph _ | POST_screen _ _ => true | _ => false end.

Lemma guard_path_id what s : guard (path_id what s).
Proof using L. unfold path_id. guards. Qed.
#[local] Hint Resolve guard_path_id : portal.

Lemma ph_dash w0 c r w :
  Ph w0 false false w → wp (dash_serve c r) (λ _ _, False) (over w0 (false, negb (dash_rereads r))) w.
Proof using L.
  intros Hw. unfold dash_serve, AuthSessionMidd. repeat ph_step. destruct r; cbn [dash_handler dash_rereads negb].
  - unfold DashboardTmpGraphCreate. handler.
  - unfold DashboardTmpGraphQuery. handler.
  - unfold DashboardGraphCreate. handler.
  - unfold DashboardGraphUpdate. handler.
  - unfold DashboardGraphGet. handler.
  - unfold DashboardGraphDelete. handler.
  - unfold DashboardGraphGetsByScreenID. handler.
  - unfold ScreenCreate. handler.
  - unfold ScreenGet. handler.
  - unfold ScreenGetsByPid. handler.
  - unfold ScreenGetsAll. handler.
  - unfold ScreenDelete. handler.
  - unfold ScreenUpdate. handler.
Qed.

Lemma reader_raw_rows t s : reader (raw_rows t s).
Proof using L. unfold raw_rows. reads. Qed.
Lemma reader_GetUserName n : reader (GetUserName n).
Proof using L. unfold GetUserName. reads. Qed.
#[local] Hint Resolve reader_GetUserName : portal.
#[local] Hint Extern 1 (reader (raw_rows ?t ?s)) => exact (reader_raw_rows t s) : portal.
Lemma reader_note_outputs l : reader (note_outputs l).
Proof using L. induction l as [|n l IH]; cbn [note_outputs]; reads. Qed.
#[local] Hint Resolve reader_note_outputs : portal.

Lemma ph_alarm w0 c r w :
  Ph w0 false false w → wp (alarm_serve c r) (λ _ _, False) (over w0 (false, true)) w.
Proof using L.
  intros Hw. unfold alarm_serve, AuthSessionMidd. repeat ph_step. destruct r; cbn [alarm_handler].
  - unfold AlarmLists. handler.
  - unfold EventsGet. handler.
  - unfold AddNotesToAlarm. handler.
  - unfold GetNotesOfAlarm. handler.
Qed.

(** The queries of grafana *)

Lemma reader_findEndpointIdByEndpointList l : reader (findEndpointIdByEndpointList l).
Proof using L. unfold findEndpointIdByEndpointList. reads. Qed.
#[local] Hint Resolve reader_findEndpointIdByEndpointList : portal.
Lemma reader_responseCounterRegexp q : reader (responseCounterRegexp order q).
Proof using L. unfold responseCounterRegexp. reads. Qed.
Lemma reader_fetch_all i l : reader (fetch_all ring clusterMap i l).
Proof. induction l as [|[e c] l IH]; cbn [fetch_all]; unfold fetchData; reads. Qed.
#[local] Hint Resolve reader_responseCounterRegexp reader_fetch_all : portal.
Lemma reader_render_target i t : reader (render_target ring clusterMap i t).
Proof. unfold render_target. reads. Qed.
#[local] Hint Resolve reader_render_target : portal.
Lemma reader_render_targets i l : reader (render_targets ring clusterMap i l).
Proof. induction l as [|t l IH]; cbn [render_targets]; reads. Qed.
#[local] Hint Resolve reader_render_targets : portal.

Lemma ph_grafana w0 r w :
  Ph w0 false false w →
  wp (grafana_serve ring clusterMap order r) (λ _ _, False) (over w0 (false, true)) w.
Proof.
  intros Hw. destruct r; cbn [grafana_serve].
  - unfold GrafanaMainQuery, check_bind_text, repsonseDefault, responseHostsRegexp. handler.
  - unfold GrafanaRender, check_bind_text. handler.
Qed.

(** ** All of them *)

Inductive api_request : Type :=
| Portal (r : portal_request) | Dashboard (r : dash_request) | Alarm (r : alarm_request)
| Graph (r : graph_request) | Grafana (r : grafana_request).

Definition api_serve (c : header) (r : api_request) : H () :=
  match r with
  | Portal r => portal_serve c r
  | Dashboard r => dash_serve c r
  | Alarm r => alarm_serve c r
  | Graph r => graph_serve ring clusterMap visit c r
  | Grafana r => grafana_serve ring clusterMap order r
  end.

Definition api_rereads (r : api_request) : bool :=
  match r with Portal r => rereads r | Dashboard r => dash_rereads r | _ => false end.
Definition api_may_panic (r : api_request) : bool :=
  match r with Portal r => may_panic r | _ => false end.


End answers.

(** ** The site *)

#[local] Existing Instance site_settings.

(** Two counters of an endpoint, with a tag of it; one graph node that is down. *)
Definition index_view : view :=
  upd endpoint [graph.Endpoint.mk 1 "web1" 100; graph.Endpoint.mk 2 "web2" 100]
    (upd endpoint_counter [graph.EndpointCounter.mk 5 1 "cpu.idle" 60 "GAUGE" 100;
                           graph.EndpointCounter.mk 6 1 "df/mount=boot" 60 "GAUGE" 100;
                           graph.EndpointCounter.mk 7 2 "cpu.idle" 60 "GAUGE" 100]
    (upd tag_endpoint [graph.TagEndpoint.mk 1 "mount=boot" 1 100] site_view)).
Definition graph_site (fails : list bool) : world (mem * env) :=
  World (Mem index_view None fails, site_env ["h:1"] ∅) [] 0.
Definition site_ring : Ring := ex_ring ["g0"].
Definition site_map : gmap string string := {["g0" := "h:1"]}.

Abbreviation site_serve := (api_serve site_ring site_map (λ l, l) (λ l, l)).


(** Labels that no counter has do not narrow a search by name. *)
Example labels_without_counters :
  (site_serve (token "alice" "a1") (Graph (GET_endpoint (Bound (EndpointRegexpInputs "web" "nosuch" 500 1) None)))
     (graph_site [])).2.(resps) =
  [JSONR 200 (MValue (JArray [JObject [("endpoint", JString "web1"); ("id", JInt 1)];
                              JObject [("endpoint", JString "web2"); ("id", JInt 2)]]))].
Proof. by vm_compute. Qed.

(** A failed search is an empty answer. *)
Example failed_search :
  (site_serve (token "alice" "a1") (Graph (GET_endpoint (Bound (EndpointRegexpInputs "web" "" 500 1) None)))
     (graph_site [false; false; true])).2.(resps) = [JSONR 200 (MValue (JArray []))].
Proof. by vm_compute. Qed.

(** A list of keys that does not begin with a number. *)
Example list_without_first :
  ConverIntStringToList "x,5" = ", 5" ∧ ConverIntStringToList "5,x,6" = "5, 6".
Proof. done. Qed.

(** A node that does not answer: the entry is null, the request answered with 200. *)
Example history_of_silent_node :
  (site_serve (token "alice" "a1")
     (Graph (POST_history (Bound (DrawData ["web1"] ["cpu.idle"; "nosuch"] "AVERAGE" 600 800 0) None)))
     (graph_site [])).2.(resps) = [JSONR 200 (MValue (JArray [JNull]))].
Proof. by vm_compute. Qed.

(** A screen is made, and the answer says that it was not. *)
Example screen_made_with_error :
  let w := (site_serve (token "alice" "a1") (Dashboard (POST_screen None (Some "main")))
              (graph_site [false; false; false; true])).2 in
  w.(resps) = [JSONR 400 (MError errFailed)] ∧
  pool w.(db).1 dashboard_screen = [dashboard.DashboardScreen.mk 1 0 "main"].
Proof. by vm_compute. Qed.

(** Two requests that are not the same share a graph: their keys are one text. *)
Example tmpgraphs_confused :
  let w := (site_serve (token "alice" "a1") (Dashboard (POST_tmpgraph (Bound (TmpGraphReq ["h:a"] ["b"]) None)))
              (graph_site [])).2 in
  let w' := (site_serve (token "alice" "a1") (Dashboard (POST_tmpgraph (Bound (TmpGraphReq ["h"] ["a:b"]) None))) w).2 in
  pool w'.(db).1 tmp_graph = [dashboard.DashboardTmpGraph.mk 1 "h:a" "b" (tmp_key "h:a" "b")].
Proof. by vm_compute. Qed.

(** The tags of a new graph are lost. *)
Example tags_of_a_graph :
  (new_graph (GraphReq 1 "cpu" ["h"] ["c"] 0 "" "" 0 "env=test")).(dashboard.DashboardGraph.FalconTags) = "".
Proof. done. Qed.

(** Without a session: the endpoints. *)
Example grafana_without_session :
  (site_serve None (Grafana (GET_grafana (Bound (GrafanaInputs 10 "!N!") None))) (graph_site [])).2.(resps) =
  [JSONR 200 (MValue (JArray (output_json <$> [Output true "web1"; Output true "web2"])))].
Proof. by vm_compute. Qed.
