(* ===== verification/ApiIndex.v ===== *)
(** * The api: deleting an endpoint from the index

[DeleteGraphEndpoint_correct]: the rows of the index that belong to the
endpoints of a request go together, in one transaction, or stay. *)

From S2P Require Import Prelude GoFloat GoString Hash Tags Model Json Containers Transfer ConnPool GraphApi GraphQuery.
From S2P Require Import ApiModel ApiDb ApiUic ApiTemplate ApiGraph ApiGraphMem ApiPhases ApiMem ApiPortalSafety ApiAnswers.
From stdpp Require Import options.

Section index.
Context `{Sql D} {L : SqlLaws D} `{Settings} `{Nodes D} {NL : NodesLaws D}.
Context {R : Type} `{!NodeRing R} (ring : R) (clusterMap : gmap string string).
Context (visit : list (string * list GraphDeleteParam) → list (string * list GraphDeleteParam)).
#[local] Set Default Proof Using "Type L".
Notation H := (H D).
Implicit Types (w : world D) (d : D).

(** ** The rows of an endpoint *)

Section names.
Variables (names : list string) (d0 : D).
Notation endpoints := (content Pool d0 endpoint).
Notation counters := (content Pool d0 endpoint_counter).
Notation tags := (content Pool d0 tag_endpoint).

Definition named (e : graph.Endpoint.t) : bool := text_in e.(graph.Endpoint.Endpoint) names.
(** A counter of a named endpoint. *)
Definition owned (c : graph.EndpointCounter.t) : bool :=
  existsb (λ e, bool_decide (c.(graph.EndpointCounter.EndpointID) = e.(graph.Endpoint.ID)) && named e) endpoints.

Definition joined_rows (rows : list (graph.Endpoint.t * graph.EndpointCounter.t)) : Prop :=
  rows ≡ₚ List.filter (λ x, bool_decide (x.2.(graph.EndpointCounter.EndpointID) = x.1.(graph.Endpoint.ID)) && named x.1)
            (list_prod endpoints counters).

Lemma joined_elem rows e c :
  joined_rows rows →
  (e, c) ∈ rows ↔ e ∈ endpoints ∧ c ∈ counters ∧
    c.(graph.EndpointCounter.EndpointID) = e.(graph.Endpoint.ID) ∧ named e = true.
Proof.
  intros Hr. unfold joined_rows in Hr. rewrite Hr, filter_elem, list_elem_of_In, in_prod_iff, <- !list_elem_of_In. cbn.
  rewrite andb_true_iff, bool_decide_eq_true. tauto.
Qed.

Lemma owned_elem c : owned c = true ↔
  ∃ e, e ∈ endpoints ∧ c.(graph.EndpointCounter.EndpointID) = e.(graph.Endpoint.ID) ∧ named e = true.
Proof.
  unfold owned. rewrite existsb_exists. setoid_rewrite andb_true_iff. setoid_rewrite bool_decide_eq_true.
  setoid_rewrite <- list_elem_of_In. done.
Qed.

Lemma cids_owned rows c :
  joined_rows rows → keys_ok Pool endpoint_counter d0 → c ∈ counters →
  bool_decide (c.(graph.EndpointCounter.ID) ∈ cids rows) = owned c.
Proof.
  intros Hr [Hk _] Hc. apply eq_bool_prop_intro. rewrite bool_decide_spec. unfold cids. rewrite list_elem_of_fmap.
  split.
  - intros ([e c'] & Ei & Hin). apply (joined_elem rows e c' Hr) in Hin as (He & Hc' & Ej & Hn). cbn in Ei.
    assert (c = c') as ->.
    { apply (apart_inj endpoint_counter counters); [done..|]. by apply conflict_pk. }
    apply Is_true_true, owned_elem. eauto.
  - intros Ho%Is_true_true. apply owned_elem in Ho as (e & He & Ej & Hn). exists (e, c). split; [done|].
    by apply (joined_elem rows e c Hr).
Qed.

Lemma no_rows_owned rows c : joined_rows rows → rows = [] → c ∈ counters → owned c = false.
Proof.
  intros Hr -> Hc. destruct (owned c) eqn:Eo; [|done]. apply owned_elem in Eo as (e & He & Ej & Hn).
  assert ((e, c) ∈ ([] : list (graph.Endpoint.t * graph.EndpointCounter.t))) as Hin by by apply (joined_elem [] e c Hr).
  by apply not_elem_of_nil in Hin.
Qed.

(** The rows of the named endpoints are gone: of a tag only if one of the
endpoints has a counter. *)
Definition removed (d : D) : Prop :=
  content Pool d endpoint ≡ₚ List.filter (λ e, negb (named e)) endpoints ∧
  content Pool d endpoint_counter ≡ₚ List.filter (λ c, negb (owned c)) counters ∧
  content Pool d tag_endpoint ≡ₚ
    (if existsb owned counters then List.filter (λ t, negb (tags_of names (content Pool d0) t)) tags else tags) ∧
  ∀ t, t ≠ endpoint → t ≠ endpoint_counter → t ≠ tag_endpoint → content Pool d t = content Pool d0 t.
Definition kept_all (d : D) : Prop := ∀ t, content Pool d t = content Pool d0 t.

Lemma rows_owned rows : joined_rows rows → existsb owned counters = negb (bool_decide (rows = [])).
Proof.
  intros Hr. destruct rows as [|[e c] rows].
  - cbn. apply not_true_iff_false. rewrite existsb_exists. intros (c & Hc & Ho). apply list_elem_of_In in Hc.
    by rewrite (no_rows_owned [] c Hr eq_refl Hc) in Ho.
  - cbn. apply existsb_exists. destruct (proj1 (joined_elem _ e c Hr)) as (He & Hc & Ej & Hn); [by left|].
    exists c. split; [by apply list_elem_of_In|]. apply owned_elem. eauto.
Qed.
End names.

Lemma filter_ext_elem {A} (p q : A → bool) l : (∀ x, x ∈ l → p x = q x) → List.filter p l = List.filter q l.
Proof.
  intros E. apply filter_ext_in. intros x Hx. apply E. by apply list_elem_of_In.
Qed.

Lemma filter_all {A} (p : A → bool) l : (∀ x, x ∈ l → p x = true) → l ≡ₚ List.filter p l.
Proof.
  intros E. rewrite (filter_ext_elem p (λ _, true)) by done. by rewrite filter_true.
Qed.

(** ** The handler *)

Section handler.
Variables (names : list string) (w0 : world D).
Notation d0 := (w0.(db)).

Definition refused w : Prop :=
  kept_all d0 w.(db) ∧ ∃ code m, w.(resps) = w0.(resps) ++ [JSONR code m] ∧ code ≠ StatusOK.
Definition committed w : Prop :=
  ∃ d, w.(db) = (Commit d).2 ∧ (if is_ok (Commit d).1 then removed names d0 w.(db) else kept_all d0 w.(db)) ∧
    ∃ m, w.(resps) = w0.(resps) ++ [JSONR StatusOK m].
Definition finished w : Prop := refused w ∨ committed w.

(** Nothing was answered or committed; the tables of an open transaction are those of [v]. *)
Definition before w : Prop := w.(resps) = w0.(resps) ∧ kept_all d0 w.(db).
Definition opened (v : view) w : Prop :=
  before w ∧ in_tx w.(db) = Some DBPool.Graph ∧ ∀ t, db_of t = DBPool.Graph → content Tx w.(db) t ≡ₚ v t.

Lemma before_same w w' : same w.(db) w'.(db) → w'.(resps) = w.(resps) → before w → before w'.
Proof. intros [_ Ec] Er [E Hk]. split; [congruence|]. intros t. by rewrite Ec. Qed.
Lemma opened_same v w w' : same w.(db) w'.(db) → w'.(resps) = w.(resps) → opened v w → opened v w'.
Proof.
  intros Hs Er (Hb & Et & Ht). split; [by eapply before_same|]. destruct Hs as [Et' Ec].
  split; [congruence|]. intros t Hd. rewrite Ec. by apply Ht.
Qed.

Lemma wp_refuse {A} code m (Φ : A → world D → Prop) w :
  before w → code ≠ StatusOK → wp (reply code m) Φ finished w.
Proof. intros [Er Hk] Hc. left. split; [done|]. exists code, m. cbn. by rewrite Er. Qed.

Lemma wp_check_tx {A} code (r : result A) (Φ : A → world D → Prop) w :
  before w → code ≠ StatusOK → (∀ a, r = Ok a → Φ a w) → wp (check_tx code r) Φ finished w.
Proof.
  intros [Er Hk] Hc HΦ. destruct r as [a|e]; [by apply HΦ|]. left. cbn.
  destruct (Rollback_law w.(db)) as [_ Ec]. split; [|by exists code, (MError e); rewrite Er].
  intros t. by rewrite Ec.
Qed.

Lemma wp_Delete params (Φ : () → world D → Prop) Ψ w :
  before w → (∀ w', before w' → Φ tt w') → wp (Delete ring clusterMap visit params) Φ Ψ w.
Proof using L NL.
  unfold Delete. revert w. induction (visit _) as [|n ns IH]; intros w Hw HΦ; cbn [each].
  - by apply wp_ret, HΦ.
  - apply wp_bind, wp_bind. unfold wp at 1, ask_node.
    destruct (ask_same ring clusterMap n.1 (λ addr, rpc_Delete addr n.2) w.(db)) as (a & d' & -> & Hs); [apply quiet_Delete|].
    apply wp_ret, IH; [|done]. by apply (before_same w).
Qed.

Lemma wp_indexed p (Φ : result (list (graph.Endpoint.t * graph.EndpointCounter.t)) → world D → Prop) Ψ w :
  before w → (∀ e w', before w' → Φ (Err e) w') →
  (∀ rows w', before w' → rows ≡ₚ List.filter (λ x, bool_decide (x.2.(graph.EndpointCounter.EndpointID) = x.1.(graph.Endpoint.ID)) && p x.1 x.2)
       (list_prod (content Pool d0 endpoint) (content Pool d0 endpoint_counter)) → Φ (Ok rows) w') →
  wp (indexed p) Φ Ψ w.
Proof.
  intros Hw He Hr. unfold indexed, wp, run. destruct (SelectJoin _ _ _ _ _ _) as [r d'] eqn:E.
  apply SelectJoin_law in E as [Hs Hl]. assert (before (with_db d' w)) as Hw' by by apply (before_same w).
  destruct r as [rows|e]; [|by apply He]. destruct (Hl rows eq_refl) as (_ & _ & l' & Hl' & ->).
  destruct Hw as [_ Hk]. rewrite !Hk in Hl'. by apply Hr.
Qed.

Lemma wp_begin (Φ : result () → world D → Prop) Ψ w :
  before w → (∀ e w', before w' → in_tx w'.(db) = None → Φ (Err e) w') →
  (∀ w', opened (content Pool d0) w' → Φ (Ok tt) w') → wp (begin DBPool.Graph) Φ Ψ w.
Proof.
  intros [Er Hk] He Ho. unfold wp, begin, run. destruct (Begin _ _) as [r d'] eqn:E. apply Begin_law in E as [Ec Hr].
  assert (before (with_db d' w)) as Hb by (split; [done|intros t; cbn; by rewrite Ec]).
  destruct r as [[]|e]; [|by apply He]. destruct Hr as [Et Ht]. apply Ho. split_and!; [done..|].
  intros t Hd. cbn. by rewrite Ht, Hk.
Qed.

(** A condition that does not depend on the order of the rows of other tables. *)
Definition stable {t} (p : cond t) : Prop :=
  ∀ v1 v2 x, (∀ t, db_of t = DBPool.Graph → v1 t ≡ₚ v2 t) → p v1 x = p v2 x.

Lemma wp_delete_tx t (p : cond t) v (Φ : result Z → world D → Prop) w :
  db_of t = DBPool.Graph → stable p → opened v w → (∀ e w', before w' → Φ (Err e) w') →
  (∀ n w', opened (upd t (List.filter (λ x, negb (p v x)) (v t)) v) w' → Φ (Ok n) w') →
  wp (delete_from Tx t p) Φ finished w.
Proof.
  intros Hd Hp Hw He Hn. unfold wp, delete_from, run. destruct (ApiDb.Delete _ _ _ _) as [r d'] eqn:E. apply Delete_law in E.
  destruct r as [n|e]; [|by apply He, (before_same w); [..|apply Hw]].
  destruct E as (_ & [Et Hf] & Ep & _). destruct Hw as ([Er Hk] & Ht & Hv). apply Hn. split_and!; [split; [done|]|..].
  - intros t'. cbn. rewrite (Hf Pool t') by congruence. apply Hk.
  - cbn. congruence.
  - intros t' Hd'. cbn. destruct (decide (t = t')) as [<-|Hne].
    + rewrite upd_eq, Ep. rewrite (filter_perm _ _ _ (Hv t Hd)). apply Permutation_refl'.
      apply filter_ext_elem. intros x _. f_equal. by apply Hp.
    + rewrite upd_ne by done. rewrite (Hf Tx t') by congruence. by apply Hv.
Qed.

Lemma wp_delete_none t (p : cond t) (Φ : result Z → world D → Prop) w :
  in_tx w.(db) = None → before w → (∀ e w', before w' → Φ (Err e) w') → wp (delete_from Tx t p) Φ finished w.
Proof.
  intros Ht Hw He. unfold wp, delete_from, run. destruct (ApiDb.Delete _ _ _ _) as [r d'] eqn:E. apply Delete_law in E.
  destruct r as [n|e]; [|by apply He, (before_same w)]. destruct E as (Hu & _). unfold usable in Hu. by rewrite Ht in Hu.
Qed.

Lemma tags_of_stable : stable (tags_of names).
Proof.
  intros v1 v2 x Hv. unfold tags_of. apply eq_bool_prop_intro. rewrite !Is_true_true, !existsb_exists.
  setoid_rewrite <- list_elem_of_In. by setoid_rewrite (Hv endpoint eq_refl).
Qed.

Lemma wp_commit_reply {A} v m (Φ : A → world D → Prop) w :
  opened v w →
  (∀ d, (∀ t, db_of t = DBPool.Graph → content Pool d t ≡ₚ v t) →
        (∀ t, db_of t ≠ DBPool.Graph → content Pool d t = content Pool d0 t) → removed names d0 d) →
  wp (commit ;; reply StatusOK m) Φ finished w.
Proof.
  intros ([Er Hk] & Et & Hv) Hrem. apply wp_bind. unfold wp at 1, commit, run.
  destruct (Commit w.(db)) as [r d'] eqn:E. pose proof (Commit_law _ _ _ E) as [_ Hr]. right.
  exists w.(db). rewrite E. cbn [fst snd db with_db reply answer]. split_and!; [done| |by exists m; cbn; rewrite Er].
  destruct r as [[]|e]; cbn [is_ok]; [|intros t; cbn; by rewrite Hr].
  destruct Hr as (b & Eb & Hc). assert (b = DBPool.Graph) as -> by congruence. apply Hrem.
  - intros t Hd. cbn. rewrite Hc, decide_True by done. by apply Hv.
  - intros t Hd. cbn. rewrite Hc, decide_False by done. apply Hk.
Qed.

Lemma graph_tables t : t ≠ endpoint → t ≠ endpoint_counter → t ≠ tag_endpoint → db_of t ≠ DBPool.Graph.
Proof. by destruct t. Qed.

Lemma named_endpoints v :
  v endpoint = content Pool d0 endpoint →
  List.filter (λ x : row endpoint,
      negb (on (t := endpoint) (λ e : graph.Endpoint.t, text_in e.(graph.Endpoint.Endpoint) names) v x)) (v endpoint) =
    List.filter (λ e : row endpoint, negb (named names e)) (content Pool d0 endpoint).
Proof. by intros ->. Qed.

Lemma DeleteGraphEndpoint_wp :
  keys_ok Pool endpoint_counter d0 →
  wp (DeleteGraphEndpoint ring clusterMap visit (Bound names None)) (λ _ _, False) finished w0.
Proof using L NL.
  intros Hk. unfold DeleteGraphEndpoint, check_bind. cbn [bind_err inputs].
  apply wp_bind, wp_ret, wp_bind, wp_indexed; [by split|by intros e w1 Hw1; apply wp_bind, wp_refuse|].
  intros rows w1 Hw1 Hrows. apply wp_bind, wp_ret, wp_bind.
  assert (∀ (Φ : () → world D → Prop), (∀ w2, before w2 → Φ tt w2) →
    wp (if decide (rows = []) then mret tt else Delete ring clusterMap visit (delete_param <$> rows)) Φ finished w1) as HD.
  { intros Φ HΦ. case_decide; [by apply wp_ret, HΦ|by apply wp_Delete]. }
  apply HD. clear w1 Hw1 HD. intros w1 Hw1.
  assert (∀ {A} (Φ : A → world D → Prop) t (p : cond t) (k : Z → H A) w, before w → in_tx w.(db) = None →
    wp (delete_from Tx t p ≫= λ r, check_tx badstatus r ≫= k) Φ finished w) as Hnone.
  { intros A Φ t p k w Hw Ht. apply wp_bind, wp_delete_none; [done..|]. intros e w2 Hw2.
    by apply wp_bind, wp_check_tx. }
  apply wp_bind, wp_begin; [done| |].
  { intros e w2 Hw2 Ht. apply wp_bind. case_decide; [apply wp_ret|]; by apply Hnone. }
  intros w2 Hw2. apply wp_bind. case_decide as Er.
  - apply wp_ret, wp_bind. eapply (wp_delete_tx endpoint); [done|by intros ? ? ?|exact Hw2| |].
    { intros e w3 Hw3. by apply wp_bind, wp_check_tx. }
    intros n w3 Hw3. apply wp_bind, wp_ret. eapply wp_commit_reply; [exact Hw3|]. intros d Hg Ho.
    rewrite named_endpoints in Hg by done. pose proof (rows_owned names d0 rows Hrows) as Hown.
    rewrite bool_decide_eq_true_2 in Hown by done. split_and!.
    + by rewrite (Hg endpoint eq_refl), upd_eq.
    + rewrite (Hg endpoint_counter eq_refl), upd_ne by done. apply filter_all. intros c Hc. by rewrite (no_rows_owned names d0 rows c Hrows Er Hc).
    + rewrite (Hg tag_endpoint eq_refl), upd_ne, Hown by done. done.
    + intros t Ne1 Ne2 Ne3. by apply Ho, graph_tables.
  - apply wp_bind. eapply (wp_delete_tx endpoint_counter); [done|by intros ? ? ?|exact Hw2| |].
    { intros e w3 Hw3. by apply wp_bind, wp_check_tx. }
    intros n w3 Hw3. apply wp_bind, wp_ret, wp_bind. eapply (wp_delete_tx tag_endpoint); [done|apply tags_of_stable|exact Hw3| |].
    { intros e w4 Hw4. by apply wp_bind, wp_check_tx. }
    intros n1 w4 Hw4. apply wp_bind, wp_ret, wp_ret, wp_bind. eapply (wp_delete_tx endpoint); [done|by intros ? ? ?|exact Hw4| |].
    { intros e w5 Hw5. by apply wp_bind, wp_check_tx. }
    intros n2 w5 Hw5. apply wp_bind, wp_ret. eapply wp_commit_reply; [exact Hw5|]. intros d Hg Ho.
    rewrite named_endpoints in Hg by by rewrite !upd_ne. pose proof (rows_owned names d0 rows Hrows) as Hown.
    rewrite bool_decide_eq_false_2 in Hown by done. split_and!.
    + by rewrite (Hg endpoint eq_refl), upd_eq.
    + rewrite (Hg endpoint_counter eq_refl), !upd_ne, upd_eq by done. apply Permutation_refl'. apply filter_ext_elem.
      intros c Hc. unfold counters_in, on. f_equal. by apply cids_owned.
    + rewrite (Hg tag_endpoint eq_refl), upd_ne, upd_eq, upd_ne, Hown by done. cbn [negb]. apply Permutation_refl'.
      apply filter_ext_elem. intros x _. unfold tags_of. by rewrite upd_ne.
    + intros t Ne1 Ne2 Ne3. by apply Ho, graph_tables.
Qed.
End handler.

(** C15. Deleting endpoints from the index ends in one of two ways.  Either it is
refused, with an answer that is not 200 and all rows as they were; or its last
statement is the commit, and if that one succeeds exactly the rows of the named
endpoints are gone: the endpoints, their counters, and their tags unless none of
them has a counter. *)
Theorem DeleteGraphEndpoint_correct names w :
  keys_ok Pool endpoint_counter w.(db) →
  let w' := (DeleteGraphEndpoint ring clusterMap visit (Bound names None) w).2 in
  (kept_all w.(db) w'.(db) ∧ ∃ code m, w'.(resps) = w.(resps) ++ [JSONR code m] ∧ code ≠ StatusOK) ∨
  ∃ d, w'.(db) = (Commit d).2 ∧
    (if is_ok (Commit d).1 then removed names w.(db) w'.(db) else kept_all w.(db) w'.(db)) ∧
    ∃ m, w'.(resps) = w.(resps) ++ [JSONR StatusOK m].
Proof using L NL.
  intros Hk. pose proof (DeleteGraphEndpoint_wp names w Hk) as Hw. unfold wp in Hw.
  by destruct (DeleteGraphEndpoint _ _ _ _ w) as [[a| |p] w'].
Qed.
End index.

(** ** The site *)

#[local] Existing Instance site_settings.

(** The handler at the site, for a user whose session was read. *)
Lemma DeleteGraphEndpoint_correct_witness :
  let d0 := (graph_site []).(db) in
  let w' := (DeleteGraphEndpoint site_ring site_map (λ l, l) (Bound ["web1"] None) (graph_site [])).2 in
  (kept_all d0 w'.(db) ∧ ∃ code m, w'.(resps) = [] ++ [JSONR code m] ∧ code ≠ StatusOK) ∨
  ∃ d, w'.(db) = (Commit d).2 ∧
    (if is_ok (Commit d).1 then removed ["web1"] d0 w'.(db) else kept_all d0 w'.(db)) ∧
    ∃ m, w'.(resps) = [] ++ [JSONR StatusOK m].
Proof.
  apply (DeleteGraphEndpoint_correct site_ring site_map (λ l, l) ["web1"] (graph_site [])).
  split; [by vm_compute|]. intros _ x Hx.
  assert (forallb (λ x, 0 <? pk endpoint_counter x) (content Pool (graph_site []).(db) endpoint_counter) = true) as Hp
    by by vm_compute.
  rewrite forallb_forall in Hp. apply list_elem_of_In, Hp in Hx. lia.
Defined.

(** The tags of an endpoint go with its counters, and stay when it has none. *)
Definition tags_left (names : list string) : list graph.TagEndpoint.t :=
  content Pool (DeleteGraphEndpoint site_ring site_map (λ l, l) (Bound names None)
                  (World (Mem (upd tag_endpoint [graph.TagEndpoint.mk 1 "mount=boot" 1 100; graph.TagEndpoint.mk 2 "env=test" 3 100]
                                (upd endpoint [graph.Endpoint.mk 1 "web1" 100; graph.Endpoint.mk 3 "web3" 100] index_view)) None [],
                          site_env ["h:1"] ∅) [] 0)).2.(db) tag_endpoint.
Example tags_of_silent_endpoint :
  graph.TagEndpoint.ID <$> tags_left ["web1"] = [2] ∧
  graph.TagEndpoint.ID <$> tags_left ["web3"] = [1; 2].
Proof. by vm_compute. Qed.
