(* ===== verification/ApiToGraph.v ===== *)
(** * From a sent point to the api's answer

Transfer sends a point to the graph node of its key, and the api asks a graph
node for the last point of a counter.  [sent_point_answered] joins the two: both
make their hash ring of the names of the nodes, so that the api asks the node
that the point was sent to, and answers with its value.

[connections_come_back] is about the pools that the api keeps: its requests are
steps of the transition system of ConnPool. *)

From S2P Require Import Prelude GoFloat GoString Hash Tags Model Json Containers Transfer ConnPool GraphApi GraphStore GraphSafety GraphQuery.
From S2P Require Import ApiModel ApiDb ApiUic ApiTemplate ApiAlarm ApiGraph ApiGrafana ApiGraphMem ApiPhases ApiMem ApiPortalSafety ApiAnswers.
From stdpp Require Import options.

(** ** A request to a node as steps of the pools *)

Definition idle_state (l : local) : ConnPool.state := ConnPool.State l.(GraphConnPools) l.(ApiGraph.net) [].

Lemma settle_finish {A} addr conn (r : rpc A) p w :
  ∃ err, let '(_, p', w') := settle addr conn r p w in finish addr (rpc_outcome r) conn p w = (err, p', w').
Proof.
  destruct r as [|[err|] resp]; cbn [settle rpc_outcome finish].
  1,2: unfold ForceClose; destruct (deleteConn conn p w); by eexists.
  destruct (Release conn p w). by eexists.
Qed.

Section steps.
Context `{Sql D} {L : SqlLaws D} `{Nodes D} {NL : NodesLaws D}.
Context {R : Type} `{!NodeRing R} (ring : R) (clusterMap : gmap string string).
#[local] Set Default Proof Using "Type L NL".

Lemma here_put_pool addr p w d :
  here (put_pool addr p w d) =
    with_net (with_M (<[addr := p]> (here d).(GraphConnPools).(M)) (here d).(GraphConnPools)) w (here d).
Proof. apply here_set. Qed.

Lemma ask_steps {A} pk (call : string → D → rpc A * D) d a d' :
  quiet call → ask ring clusterMap pk call d = Ret (a, d') →
  rtc ConnPool.step (idle_state (here d)) (idle_state (here d')).
Proof.
  intros Hc E. destruct (ask_cases ring clusterMap pk call d) as [(e & _ & E1)|(pool & addr & r & pool' & w' & E1)].
  { rewrite E1 in E. simplify_eq. done. }
  destruct (reach addr d) as [resolve connect]. destruct E1 as (_ & Ep & Ef & E1).
  set (ps' := with_M (<[addr := pool']> (here d).(GraphConnPools).(M)) (here d).(GraphConnPools)).
  assert (∃ r', Call_begin (dial resolve connect) (unix_now d) addr (here d).(GraphConnPools) (here d).(ApiGraph.net) =
    Ret (r', ps', w') ∧ match r with Ok c => r' = Ok c | Err _ => is_ok r' = false end) as (r' & Eb & Hr').
  { unfold Call_begin. rewrite Ep, Ef. cbn [mbind go_bind]. destruct r as [c|e]; eexists; split; done. }
  assert (here (put_pool addr pool' w' d) = with_net ps' w' (here d)) as Eh by apply here_put_pool.
  eapply rtc_l; [by eapply (SBegin resolve connect _ addr)|].
  destruct r as [conn|e].
  2:{ rewrite E1 in E. simplify_eq. rewrite Eh. destruct r'; [done|]. done. }
  subst r'. pose proof (Hc addr (put_pool addr pool' w' d)) as [Eh1 _].
  destruct (call addr _) as [rc d1]. cbn [snd] in Eh1. rewrite Eh in Eh1. cbv zeta in E1. rewrite Eh1 in E1.
  cbn [with_net GraphConnPools ApiGraph.net] in E1.
  assert (ConnPool.Get addr ps' = Some pool') as Eg by apply lookup_insert_eq. rewrite Eg in E1. cbn [default from_option id] in E1.
  destruct (settle_finish addr conn rc pool' w') as [err Es].
  destruct (settle addr conn rc pool' w') as [[a1 pool2] w2]. rewrite E1 in E. simplify_eq.
  rewrite here_put_pool, Eh1. apply rtc_once.
  apply (SEnd (rpc_outcome rc) addr conn ps' w' [] [] err). unfold Call_end. by rewrite Eg, Es.
Qed.
End steps.

(** ** The api's requests *)

Create HintDb kept.

Section connections.
Context `{Sql D} {L : SqlLaws D} `{Settings}.
Context (cfg : config) (dbase : database) (rrd_Fetch : string → string → Z → Z → Z → result (Z * Z * list float64)) (fuel : nat).
Context {R : Type} `{!NodeRing R} (ring : R) (clusterMap : gmap string string).
Context (visit : list (string * list GraphDeleteParam) → list (string * list GraphDeleteParam)).
Context (order : list (string * bool) → list (string * bool)).
#[local] Set Default Proof Using "Type L".
#[local] Existing Instance env_nodes.
#[local] Instance nodes_here : Nodes (D * env) := env_nodes cfg dbase rrd_Fetch fuel.
#[local] Instance nodes_here_laws : NodesLaws (D * env) := env_nodes_laws cfg dbase rrd_Fetch fuel.
Notation H := (H (D * env)).

(** The pools are in a state that calls lead to, and no call is under way. *)
Definition settled (s0 : ConnPool.state) (x : D * env) : Prop := rtc ConnPool.step s0 (idle_state (here x)).

Section kept.
Variable s0 : ConnPool.state.
Notation pres := (pres (settled s0)).

Lemma beside_here {A} (f : D → A * D) (x : D * env) : here (beside f x).2 = here x.
Proof. unfold beside. by destruct (f x.1). Qed.
Lemma pres_beside {A} (f : D → A * D) : pres (run (beside f)).
Proof. apply pres_run. intros [d e] Hd. unfold beside. cbn. by destruct (f d). Qed.
Lemma settled_rollback : pres rollback.
Proof. apply pres_run. done. Qed.
Lemma pres_ask {A} pk (call : string → D * env → rpc A * (D * env)) :
  quiet call → pres (ask_node ring clusterMap pk call).
Proof.
  intros Hc w Hw. unfold ask_node. destruct (ask _ _ _ _ _) as [[a d']|p] eqn:E; [|done].
  cbn. unfold settled in *. etransitivity; [exact Hw|]. by eapply ask_steps.
Qed.

Ltac keep_step :=
  cbn beta zeta;
  lazymatch goal with
  | |- ApiDb.pres _ ?m =>
    lazymatch m with
    | find_all ?c ?t ?p => apply (pres_beside (Select c t p))
    | find_page ?c ?t ?p ?l ?o => apply (pres_beside (SelectPage c t p l o))
    | run (PluckDistinct ?c ?t ?f ?p ?l ?o) => apply (pres_beside (PluckDistinct c t f p l o))
    | run (SelectJoin ?c ?t1 ?t2 ?p ?l) => apply (pres_beside (SelectJoin c t1 t2 p l))
    | find ?c ?t ?p => unfold find
    | delete_from ?c ?t ?p => apply (pres_beside (ApiDb.Delete c t p))
    | run (RawSelect ?t ?s) => apply (pres_beside (RawSelect t s))
    | begin ?b => apply (pres_beside (Begin b))
    | commit => apply (pres_beside Commit)
    | rollback => apply settled_rollback
    | check_tx _ ?r => unfold check_tx
    | ask_node _ _ _ _ => apply pres_ask; first [apply quiet_Query|apply quiet_Last|apply quiet_Delete]
    | _ => solve [auto with kept] || pres_step
    end
  end.
Ltac keeps := repeat keep_step.

Lemma kept_AuthSessionMidd c (m : H ()) : pres m → pres (AuthSessionMidd c m).
Proof. intros Hm. unfold AuthSessionMidd, SessionChecking. keeps; done. Qed.
Lemma kept_getCounterStep e c : pres (getCounterStep e c).
Proof.
  intros w Hw. unfold getCounterStep. destruct (tc_Get _ _ _); [done|].
  set (q := SelectJoin _ _ _ _ _ _). assert (here q.2 = here w.(db)) as Eh by apply beside_here.
  destruct q as [[rows|e'] d]; cbn [snd] in Eh; [|by unfold settled in *; cbn [snd db with_db]; rewrite Eh].
  destruct ((λ _, 0) <$> rows) as [|s l]; unfold settled in *; cbn [snd db with_db]; [by rewrite Eh|].
  rewrite here_set. unfold idle_state. cbn [with_steps GraphConnPools ApiGraph.net]. by rewrite Eh.
Qed.
Lemma kept_QueryOne q : pres (QueryOne ring clusterMap q).
Proof. unfold QueryOne. keeps. Qed.
Lemma kept_Last q : pres (Last ring clusterMap q).
Proof. unfold Last. keeps. Qed.

#[local] Hint Resolve kept_getCounterStep kept_QueryOne kept_Last : kept.
Lemma kept_draw i l : pres (draw ring clusterMap i l).
Proof. induction l as [|[e c] l IH]; cbn [draw]; unfold fetchData; keeps; done. Qed.
Lemma kept_last_points l : pres (last_points ring clusterMap l).
Proof. induction l as [|q l IH]; cbn [last_points]; keeps; done. Qed.
Lemma kept_Delete l : pres (Delete ring clusterMap visit l).
Proof. unfold Delete. induction (visit _) as [|n ns IH]; cbn [each]; keeps; done. Qed.
#[local] Hint Resolve kept_draw kept_last_points kept_Delete : kept.

Lemma kept_serve c r : pres (graph_serve ring clusterMap visit c r).
Proof.
  unfold graph_serve. apply kept_AuthSessionMidd. destruct r; cbn [graph_handler].
  - unfold EndpointObjGet. keeps.
  - unfold EndpointRegexpQuery. keeps.
  - unfold EndpointCounterRegexpQuery. keeps.
  - unfold QueryGraphDrawData. keeps.
  - unfold QueryGraphLastPoint. keeps.
  - unfold DeleteGraphEndpoint, indexed. keeps.
  - unfold DeleteGraphCounter, indexed. keeps.
Qed.

Lemma kept_raw_rows t s : pres (raw_rows t s).
Proof. unfold raw_rows. keeps. Qed.
#[local] Hint Extern 1 (ApiDb.pres _ (raw_rows ?t ?s)) => exact (kept_raw_rows t s) : kept.
Lemma kept_endpoint_ids l : pres (findEndpointIdByEndpointList l).
Proof. unfold findEndpointIdByEndpointList. keeps. Qed.
#[local] Hint Resolve kept_endpoint_ids : kept.
Lemma kept_fetch_all i l : pres (fetch_all ring clusterMap i l).
Proof. induction l as [|[e c] l IH]; cbn [fetch_all]; unfold fetchData; keeps; done. Qed.
#[local] Hint Resolve kept_fetch_all : kept.
Lemma kept_render_targets i l : pres (render_targets ring clusterMap i l).
Proof. induction l as [|t l IH]; cbn [render_targets]; unfold render_target; keeps; done. Qed.
#[local] Hint Resolve kept_render_targets : kept.

Lemma kept_grafana r : pres (grafana_serve ring clusterMap order r).
Proof.
  destruct r; cbn [grafana_serve].
  - unfold GrafanaMainQuery, check_bind_text, repsonseDefault, responseHostsRegexp, responseCounterRegexp. keeps.
  - unfold GrafanaRender, check_bind_text. keeps.
Qed.
End kept.

(** The routes of controller/graph. *)
Definition serve_one (c : header) (r : graph_request + grafana_request) : H () :=
  match r with
  | inl r => graph_serve ring clusterMap visit c r
  | inr r => grafana_serve ring clusterMap order r
  end.

Fixpoint serve_all (l : list (header * (graph_request + grafana_request))) (w : world (D * env)) : world (D * env) :=
  match l with
  | [] => w
  | (c, r) :: l => serve_all l (serve_one c r w).2
  end.

Lemma settled_all s0 l w : settled s0 w.(db) → settled s0 (serve_all l w).(db).
Proof. revert w. induction l as [|[c r] l IH]; intros w Hw; cbn [serve_all]; [done|]. apply IH. by destruct r; [apply kept_serve|apply kept_grafana]. Qed.

(** C16. After any requests, whatever statements and nodes fail, every connection that
was opened waits in the pool of its address or was closed, once; a pool counts
its connections, of which there are at most MaxConns, and keeps at most MaxIdle. *)
Theorem connections_come_back cluster maxConns maxIdle connTimeout callTimeout l w :
  (here w.(db)).(GraphConnPools) = initConnPools maxConns maxIdle connTimeout callTimeout cluster →
  (here w.(db)).(ApiGraph.net) = Wire 0 [] →
  let x := here (serve_all l w).(db) in
  Z.of_nat x.(ApiGraph.net).(dialed) < 2 ^ 63 - 1 →
  x.(ApiGraph.net).(closes) ++ (Conn.cli <$> idle x.(GraphConnPools).(M)) ≡ₚ seq 0 x.(ApiGraph.net).(dialed) ∧
  ∀ addr p, ConnPool.Get addr x.(GraphConnPools) = Some p →
    addr ∈ cluster ∧ p.(active) = Z.of_nat (length p.(free)) ∧
    p.(active) <= wrap32 maxConns `max` 0 ∧ p.(active) <= wrap32 maxIdle `max` 0.
Proof.
  intros Eps Enet x Hlt. set (s0 := idle_state (here w.(db))).
  assert (settled s0 (serve_all l w).(db)) as Hs by apply settled_all, rtc_refl.
  assert (good cluster maxConns maxIdle (idle_state x)) as Hg.
  { eapply good_reachable; [exact Hs| |done]. unfold s0, idle_state. rewrite Eps, Enet. apply good_start. }
  split; [|intros addr p Hp].
  - pose proof (good_sockets _ _ _ _ Hg) as E. cbn in E. by rewrite app_nil_r in E.
  - destruct (good_pool _ _ _ _ Hg addr p Hp) as (Hi & Hmc & Hmi).
    split_and!; [apply (good_dom _ _ _ _ Hg); by eexists| | |]; destruct Hi as [_ _ _ _ Hact Hm Hidle _];
      unfold live in Hact; cbn in Hact; rewrite app_nil_r in Hact; rewrite <- ?Hmc, <- ?Hmi; lia.
Qed.

End connections.

(** ** One node for a counter *)

(** Transfer and the api are configured with the same graph nodes. *)
Record configured (tcfg : Transfer.config) (clusterMap : gmap string string) (tr ar : Ring)
    (judgeReplicas graphReplicas numberOfReplicas : Z) : Prop := Configured {
  cf_transfer : ∃ jring, Transfer.initNodeRings judgeReplicas graphReplicas tcfg = Ret (jring, tr.(ring));
  cf_api : ApiGraph.initNodeRings numberOfReplicas clusterMap = Ret ar.(ring);
  cf_replicas : wrap32 graphReplicas = wrap32 numberOfReplicas;
  cf_nodes : dom tcfg.(GraphCluster) = dom clusterMap;
  cf_some : ring_members ar ≠ [];
  cf_members : ∀ node, node ∈ ring_members ar → is_Some (clusterMap !! node);
  cf_addrs : ∀ node addr, clusterMap !! node = Some addr →
    ∃ addrs, ClusterList tcfg.(GraphCluster) !! node = Some addrs ∧ addr ∈ addrs }.

Lemma rings_agree tcfg clusterMap tr ar j g n :
  configured tcfg clusterMap tr ar j g n → tr.(ring) = ar.(ring).
Proof.
  intros [[jring Ht] Ha Hr Hn _ _ _]. unfold Transfer.initNodeRings, ApiGraph.initNodeRings in *.
  rewrite (KeysOfMap_dom _ _ Hn), Hr, Ha in Ht. destruct (NewConsistentHashNodesRing (wrap32 j) _); [|done].
  cbn in Ht. congruence.
Qed.

Lemma GetNode_ring (tr ar : Ring) pk : tr.(ring) = ar.(ring) → GetNode tr pk = GetNode ar pk.
Proof. intros E. cbn. unfold ring_GetNode. by rewrite E. Qed.

Lemma graph_item_PK tcfg item g :
  graph_item tcfg item = Some g →
  PK2 g.(GraphItem.Endpoint) (Counter g.(GraphItem.Metric) g.(GraphItem.Tags)) = MetaData.PK item.
Proof.
  unfold graph_item. destruct (ds_of _) as [[[? ?] ?]|]; [|done]. cbn. intros [= <-]. cbn. apply PK2_Counter.
Qed.

Lemma routed tcfg clusterMap tr ar j gr n item g :
  configured tcfg clusterMap tr ar j gr n → graph_item tcfg item = Some g →
  ∃ node addr, (node +:+ addr, g) ∈ graph_routes tr tcfg item ∧ clusterMap !! node = Some addr ∧
    GetNode ar (PK2 g.(GraphItem.Endpoint) (Counter g.(GraphItem.Metric) g.(GraphItem.Tags))) = Ok node.
Proof.
  intros Hc Hg. pose proof (rings_agree _ _ _ _ _ _ _ Hc) as Er. destruct Hc as [_ _ _ _ Hsome Hmem Haddr].
  rewrite (graph_item_PK _ _ _ Hg). pose proof (GetNode_total ar (MetaData.PK item) Hsome) as Ht.
  destruct (GetNode ar (MetaData.PK item)) as [node|] eqn:En; [|done].
  destruct (Hmem node) as [addr Ha]; [by eapply GetNode_member|]. destruct (Haddr node addr Ha) as (addrs & El & Hin).
  exists node, addr. split_and!; [|done..]. unfold graph_routes. rewrite Hg, (GetNode_ring tr ar _ Er), En, El. cbn [default from_option id].
  apply list_elem_of_fmap. by exists addr.
Qed.

(** ** The answer *)

(** A node that can be reached, with a connection to spare, is asked and its answer is the result. *)
Lemma ask_answered {D} `{Sql D} `{Nodes D} {NL : NodesLaws D} `{!NodeRing R} (ring : R) clusterMap {A} pk node addr
    cluster maxConns maxIdle (call : string → D → rpc A * D) d :
  GetNode ring pk = Ok node → clusterMap !! node = Some addr → addr ∈ cluster →
  good cluster maxConns maxIdle (idle_state (here d)) → 0 < wrap32 maxConns →
  Z.of_nat (here d).(ApiGraph.net).(dialed) < 2 ^ 63 - 1 → reach addr d = (None, None) →
  ∃ pool w, ∀ resp d2, call addr (put_pool addr pool w d) = (RpcDone None resp, d2) →
    ∃ d3, ask ring clusterMap pk call d = Ret (Done resp, d3).
Proof.
  intros Hn Ha Hin Hg Hmax Hlt Hreach.
  destruct (proj2 (good_dom _ _ _ _ Hg addr) Hin) as [pool Hp]. cbn in Hp.
  destruct (good_pool _ _ _ _ Hg addr pool Hp) as (Hi & Hmc & _). cbn in Hi.
  destruct (Fetch_ok _ _ _ None None (unix_now d) _ Hi eq_refl Hlt) as (r & p' & w' & Ef & _ & Hr & _).
  exists p', w'. intros resp d2 Ec. unfold ask, selectPoolByPK. rewrite Hn. cbn [mbind result_bind]. rewrite Ha.
  unfold ConnPool.Get. rewrite Hp, Hreach, Ef. cbn [mbind go_bind].
  destruct r as [c|e]; [|destruct Hr as (_ & _ & _ & [[Hle _]|[?|[_ ?]]]); [cbn in Hle; lia|done..]].
  cbn [Conn.Closed]. rewrite Ec. cbn [settle]. destruct (Release _ _ _). by eexists.
Qed.

Section answered.
Context {D : Type} `{Sql D} {L : SqlLaws D} `{Settings}.
Context (gcfg : config) (dbase : database) (rrd_Fetch : string → string → Z → Z → Z → result (Z * Z * list float64)) (fuel : nat).
#[local] Set Default Proof Using "Type L".
#[local] Instance served : Nodes (D * env) := env_nodes gcfg dbase rrd_Fetch fuel.
#[local] Instance served_laws : NodesLaws (D * env) := env_nodes_laws gcfg dbase rrd_Fetch fuel.

(** The node's answer about a gauge whose last item it is. *)
Lemma serve_Last_gauge st item uuid :
  head (GetAllItems (GraphItem.Checksum item) st.(HistoryCache)) = Some item →
  st.(IndexedItemCache) !! GraphItem.Checksum item = Some (IndexCacheItem.New uuid (Some item)) →
  item.(GraphItem.DsType) = GAUGE →
  let endpoint := item.(GraphItem.Endpoint) in
  let counter := Counter item.(GraphItem.Metric) item.(GraphItem.Tags) in
  ∃ st', serve_Last dbase (LastParam endpoint counter) st =
    Ret (Some (LastResp endpoint counter (Some (RRDData.New item.(GraphItem.Timestamp) item.(GraphItem.Value))), st')).
Proof.
  intros Hh Hi Hg endpoint counter. unfold serve_Last, GraphApi.Last. cbn [lEndpoint lCounter].
  unfold endpoint, counter. rewrite (last_of_gauge dbase (incr GraphLastCnt 1 st) item uuid) by done. by eexists.
Qed.

(** C13. A point that transfer accepts goes to the queue of a graph node such that,
once the node has received it as the latest of an indexed gauge, a request for
the last point of its counter is answered with the point's value and aligned
time, whenever the api can reach the node and has a connection to spare. *)
Theorem sent_point_answered tcfg clusterMap tr ar j gr n item g :
  configured tcfg clusterMap tr ar j gr n → graph_item tcfg item = Some g → g.(GraphItem.DsType) = GAUGE →
  let endpoint := item.(MetaData.Endpoint) in
  let counter := Counter item.(MetaData.Metric) item.(MetaData.Tags) in
  ∃ node addr, (node +:+ addr, g) ∈ graph_routes tr tcfg item ∧
  ∀ st e, graph_ok st → valid gcfg g = true → newer (cached st (item_key g)) g = true →
    newer (GetAllItems (GraphItem.Checksum g) st.(HistoryCache)) g = true →
    st.(IndexedItemCache) !! GraphItem.Checksum g = Some (IndexCacheItem.New (GraphItem.UUID g) e) →
    ∃ st', handleItems gcfg [Some g] st = Ret st' ∧
    ∀ (w : world (D * env)) cluster maxConns maxIdle,
      w.(db).2.(graphs) !! addr = Some st' → addr ∉ w.(db).2.(down) → addr ∈ cluster →
      good cluster maxConns maxIdle (idle_state (here w.(db))) → 0 < wrap32 maxConns →
      Z.of_nat (here w.(db)).(ApiGraph.net).(dialed) < 2 ^ 63 - 1 →
      (QueryGraphLastPoint ar clusterMap (Bound [LastParam endpoint counter] None) w).2.(resps) =
        w.(resps) ++ [JSONR StatusOK (MValue (JArray [last_json (LastResp endpoint counter
                        (Some (RRDData.New (aligned tcfg item) item.(MetaData.Value))))]))].
Proof.
  intros Hc Hg Hgauge endpoint counter. destruct (routed _ _ _ _ _ _ _ _ _ Hc Hg) as (node & addr & Hr & Ha & Hn).
  exists node, addr. split; [done|]. intros st e Hok Hv Hn1 Hn2 Hix.
  destruct (receive_item gcfg st g Hok Hv Hn1 Hn2) as (st' & E & Hhist & Hix'). exists st'. split; [done|].
  intros w cluster maxConns maxIdle Hst Hdown Hin Hgood Hmax Hlt.
  assert (GraphItem.Endpoint g = endpoint ∧ Counter (GraphItem.Metric g) (GraphItem.Tags g) = counter ∧
    GraphItem.Timestamp g = aligned tcfg item ∧ GraphItem.Value g = MetaData.Value item) as (E1 & E2 & E3 & E4).
  { revert Hg. unfold graph_item. destruct (ds_of _) as [[[? ?] ?]|]; [|done]. cbn. by intros [= <-]. }
  rewrite E1, E2 in Hn. set (q := LastParam endpoint counter) in *.
  destruct (serve_Last_gauge st' g (GraphItem.UUID g)) as (st2 & Es); [by rewrite Hhist|by eapply Hix'|done|].
  cbv zeta in Es. rewrite E1, E2, E3, E4 in Es. fold q in Es.
  destruct (ask_answered ar clusterMap (PK2 endpoint counter) node addr cluster maxConns maxIdle
    (λ a, rpc_Last a q) w.(db)) as (pool & wr & Hask); [done..| |].
  { cbn. by rewrite bool_decide_eq_false_2. }
  edestruct Hask as (d3 & Ed).
  { cbn. unfold node_call. cbn. rewrite Hst, Es. reflexivity. }
  unfold QueryGraphLastPoint, check_bind. cbn [bind_err inputs]. unfold mbind, H_bind, mret, H_ret.
  cbn [last_points]. unfold Last, ask_node, mbind, H_bind, mret, H_ret. fold q. cbn [lEndpoint lCounter q].
  rewrite Ed. done.
Qed.
End answered.

(** ** A run *)

#[local] Existing Instance site_settings.

Definition run_requests : list (header * (graph_request + grafana_request)) := [
  (token "alice" "a1", inl (POST_lastpoint (Bound [LastParam "web1" "cpu.idle"; LastParam "web2" "cpu.idle"] None)));
  (token "alice" "a1", inl (POST_history (Bound (DrawData ["web1"] ["cpu.idle"] "AVERAGE" 600 800 60) None)));
  (None, inr (POST_grafana_render (Bound (RenderInput ["web1#cpu"] 600 800 60 "AVERAGE") None)));
  (token "alice" "a1", inl (DELETE_endpoint (Bound ["web1"] None))) ].

Lemma connections_come_back_witness :
  let x := here (serve_all GraphSafety.ex_cfg no_db (λ _ _ _ _ _, Err "no file") 1000 site_ring site_map (λ l, l) (λ l, l)
                   run_requests (graph_site [])).(db) in
  x.(ApiGraph.net).(closes) ++ (Conn.cli <$> idle x.(GraphConnPools).(M)) ≡ₚ seq 0 x.(ApiGraph.net).(dialed) ∧
  ∀ addr p, ConnPool.Get addr x.(GraphConnPools) = Some p →
    addr ∈ ["h:1"] ∧ p.(active) = Z.of_nat (length p.(free)) ∧
    p.(active) <= wrap32 2 `max` 0 ∧ p.(active) <= wrap32 1 `max` 0.
Proof.
  apply (connections_come_back GraphSafety.ex_cfg no_db (λ _ _ _ _ _, Err "no file") 1000 site_ring site_map (λ l, l) (λ l, l)
    ["h:1"] 2 1 1000 5000 run_requests (graph_site [])); [reflexivity|reflexivity|vm_compute; reflexivity].
Defined.

(** Eight connections were opened, and each was closed: no node answers. *)
Example silent_nodes :
  (here (serve_all GraphSafety.ex_cfg no_db (λ _ _ _ _ _, Err "no file") 1000 site_ring site_map (λ l, l) (λ l, l)
           run_requests (graph_site [])).(db)).(ApiGraph.net) = Wire 8 (seq 0 8).
Proof. vm_compute. reflexivity. Qed.

Definition run_item : MetaData.t := MetaData.mk "cpu" "web1" 1500000047 60 (f64_of_Z 5) "GAUGE" {["core" := "0"]}.
Definition run_graph_item (ts : Z) (v : float64) : GraphItem.t :=
  GraphItem.mk "web1" "cpu" {["core" := "0"]} v ts "GAUGE" 60 120 "U" "U".
Definition run_map : gmap string string := {["g0" := "b:1"]}.

Lemma run_configured : configured Transfer.ex_cfg run_map (ex_ring ["g0"]) (ex_ring ["g0"]) 2 2 2.
Proof.
  split; [by eexists; vm_compute|by vm_compute|done|by vm_compute|by vm_compute|..].
  - intros node Hn. vm_compute in Hn. apply list_elem_of_singleton in Hn as ->. by eexists.
  - intros node addr Ha. unfold run_map in Ha. apply lookup_singleton_Some in Ha as [<- <-].
    exists ["a:1"; "b:1"]. split; [by vm_compute|by vm_compute; right; left].
Qed.

(** The node knows the counter, from an older point. *)
Definition run_state : GraphApi.state :=
  with_Indexed {[GraphItem.Checksum (run_graph_item 0 f64_zero) :=
    IndexCacheItem.New (GraphItem.UUID (run_graph_item 0 f64_zero)) (Some (run_graph_item 0 f64_zero))]} (initial ∅).
Lemma run_state_ok : graph_ok run_state.
Proof.
  destruct (graph_initial_ok ∅). split; try assumption. apply map_Forall_singleton.
  exists (run_graph_item 0 f64_zero). done.
Qed.

Lemma sent_point_answered_witness :
  ∃ node addr st', (node +:+ addr, run_graph_item 1500000000 (f64_of_Z 5)) ∈ graph_routes (ex_ring ["g0"]) Transfer.ex_cfg run_item ∧
    handleItems GraphSafety.ex_cfg [Some (run_graph_item 1500000000 (f64_of_Z 5))] run_state = Ret st' ∧
    let w : world (mem * env) := World (of_rows site_view, site_env [addr] {[addr := st']}) [] 0 in
    (QueryGraphLastPoint (ex_ring ["g0"]) run_map (Bound [LastParam "web1" "cpu/core=0"] None) w).2.(resps) =
      [JSONR 200 (MValue (JArray [JObject [("endpoint", JString "web1"); ("counter", JString "cpu/core=0");
        ("value", JObject [("timestamp", JInt 1500000000); ("value", JFloat (f64_of_Z 5))])]]))].
Proof.
  destruct (sent_point_answered (D := mem) GraphSafety.ex_cfg no_db (λ _ _ _ _ _, Err "no file") 1000
    Transfer.ex_cfg run_map (ex_ring ["g0"]) (ex_ring ["g0"]) 2 2 2 run_item (run_graph_item 1500000000 (f64_of_Z 5)))
    as (node & addr & Hr & Hs); [apply run_configured|by vm_compute|done|].
  destruct (Hs run_state (Some (run_graph_item 0 f64_zero))) as (st' & E & Hw);
    [apply run_state_ok|by vm_compute|by vm_compute|by vm_compute|by vm_compute|].
  exists node, addr, st'. split; [exact Hr|]. split; [exact E|]. cbv zeta.
  specialize (Hw (World (of_rows site_view, site_env [addr] {[addr := st']}) [] 0) [addr] 2 1).
  etransitivity; [apply Hw|].
  - apply lookup_singleton_eq.
  - apply not_elem_of_nil.
  - apply list_elem_of_singleton. done.
  - apply (good_start [addr] 2 1 1000 5000).
  - done.
  - done.
  - by vm_compute.
Defined.
