(* ===== verification/ApiSessions.v ===== *)
(** * The api: how a session is come by and lost

- [sessions_earned]: no request makes a name and a signature authentic that were
  not before, but a login with the password of that user, or the request that
  makes the user;
- [logout_ends_session]: after a logout that succeeded its header is refused. *)

From S2P Require Import Prelude GoFloat GoString Hash Tags Model Json ApiModel ApiDb ApiUic ApiTeam ApiMem ApiUicSafety.
From stdpp Require Import options.

Section sessions.
Context `{Sql D} {L : SqlLaws D} `{Settings}.
#[local] Set Default Proof Using "Type L".
Notation H := (H D).
Implicit Types (w : world D) (d : D).
Notation users d := (content Pool d user).
Notation sessions d := (content Pool d session).

(** The user of that key has the name and the password of the form. *)
Definition knows (d : D) (b : bound APILoginInput) (uid : Z) : Prop :=
  b.(bind_err) = None ∧ ∃ u, u ∈ users d ∧ u.(uic.User.ID) = uid ∧
    text_eq u.(uic.User.Name) b.(inputs).(lName) = true ∧
    u.(uic.User.Passwd) = HashIt b.(inputs).(lPassword).

(** No user of [d] has this key. *)
Definition unknown (d : D) (uid : Z) : Prop := ∀ u, u ∈ users d → u.(uic.User.ID) ≠ uid.

Section earn.
Variables (P : Z → Prop) (d0 : D).

(** The users of [d] kept their names or are new; its sessions were there, or are
of new users, or of users that satisfy [P]. *)
Definition named (u : uic.User.t) : Prop :=
  (∃ v, v ∈ users d0 ∧ v.(uic.User.ID) = u.(uic.User.ID) ∧ v.(uic.User.Name) = u.(uic.User.Name)) ∨
  unknown d0 u.(uic.User.ID).
Definition had (s : uic.Session.t) : Prop :=
  s ∈ sessions d0 ∨ unknown d0 s.(uic.Session.Uid) ∨ P s.(uic.Session.Uid).
Definition earned (d : D) : Prop :=
  (∀ u, u ∈ users d → named u) ∧ (∀ s, s ∈ sessions d → had s).

Lemma earned_same d d' : same d d' → earned d → earned d'.
Proof. intros [_ E] [Hu Hs]. split; intros ?; rewrite E; auto. Qed.
Lemma earned_start d : same d0 d → earned d.
Proof.
  intros [_ E]. split; intros x; rewrite E; intros Hx; left; [|done]. by exists x.
Qed.
Lemma named_old u v :
  u ∈ users d0 → v.(uic.User.ID) = u.(uic.User.ID) → v.(uic.User.Name) = u.(uic.User.Name) → named v.
Proof. intros Hu Hi Hn. left. by exists u. Qed.

(** One table of uic changes. *)
Lemma earned_frame t d d' :
  frame Pool t d d' →
  (t = user → ∀ u, u ∈ users d' → named u) → (t = session → ∀ s, s ∈ sessions d' → had s) →
  earned d → earned d'.
Proof.
  intros Hf Hu Hs [Ku Ks]. split.
  - destruct (decide (t = user)) as [E|Hn]; [by apply Hu|].
    by rewrite (frame_other _ _ user Pool _ _ Hf) by congruence.
  - destruct (decide (t = session)) as [E|Hn]; [by apply Hs|].
    by rewrite (frame_other _ _ session Pool _ _ Hf) by congruence.
Qed.

Lemma earned_user_update p f d d' :
  (∀ u, named u → p (content Pool d) u = true → named (f u)) →
  updated Pool user p f d d' → earned d → earned d'.
Proof.
  intros Hp (_ & Hf & E & _) Hd. eapply earned_frame; [exact Hf| |done|done]. intros _ u.
  rewrite E. intros (v & -> & Hv)%list_elem_of_fmap. destruct Hd as [Hd _]. specialize (Hd v Hv).
  destruct (p _ v) eqn:Epv; auto.
Qed.
Lemma earned_deleted t p d d' : deleted Pool t p d d' → earned d → earned d'.
Proof.
  intros (_ & Hf & E) Hd. pose proof Hd as [Hu Hs]. eapply earned_frame; [exact Hf| | |done].
  - intros -> u. rewrite E. intros [Hx _]%filter_elem. auto.
  - intros -> s. rewrite E. intros [Hx _]%filter_elem. auto.
Qed.
Lemma earned_created x0 x d d' :
  created Pool user x0 x d d' → named x → earned d → earned d'.
Proof.
  intros (_ & _ & E & Hf) Hx Hd. pose proof Hd as [Hu Hs]. eapply earned_frame; [exact Hf| |done|done].
  intros _ u. rewrite E, elem_of_cons. intros [->|Hin]; auto.
Qed.
Lemma earned_session x0 x d d' :
  created Pool session x0 x d d' → unknown d0 x0.(uic.Session.Uid) ∨ P x0.(uic.Session.Uid) →
  earned d → earned d'.
Proof.
  intros (_ & (Hx & _) & E & Hf) Hp Hd. pose proof Hd as [Hu Hs]. eapply earned_frame; [exact Hf|done| |done].
  intros _ s. rewrite E, elem_of_cons. intros [->|Hin]; [|auto]. right.
  assert (x.(uic.Session.Uid) = x0.(uic.Session.Uid)) as ->; [|done].
  cbn [pk] in Hx. destruct (bool_decide _); [destruct Hx as [id ->]; by destruct x0|by subst].
Qed.

Notation pres := (pres earned).

Lemma pres_session u : unknown d0 u.(uic.User.ID) ∨ P u.(uic.User.ID) → pres (user_session u).
Proof.
  intros Hp. unfold user_session, GenerateUUID. repeat pres_step; try exact earned_same.
  apply pres_create with (t := session); [exact earned_same|]. intros x d d' Hc.
  by apply (earned_session _ _ _ _ Hc).
Qed.
Lemma pres_profile p a b c e g : pres (update Pool user p (uic.User.with_profile a b c e g)).
Proof.
  apply pres_update; [exact earned_same|]. intros d d' Hup. eapply earned_user_update; [|exact Hup].
  intros [] Hn _. exact Hn.
Qed.
Lemma pres_save_old u v :
  u ∈ users d0 → v.(uic.User.ID) = u.(uic.User.ID) → v.(uic.User.Name) = u.(uic.User.Name) →
  v.(uic.User.ID) ≠ 0 → pres (save Pool user v).
Proof.
  intros Hu Hi Hn Hz. apply pres_save; [exact earned_same| |].
  - intros x d d' Hc. apply (earned_created _ _ _ _ Hc). pose proof Hc as (_ & (Hx & _) & _).
    cbn [pk] in Hx. rewrite bool_decide_false in Hx by done. subst x. by eapply named_old.
  - intros d d' Hup _. eapply earned_user_update; [|exact Hup]. intros x _ _. by eapply named_old.
Qed.

Notation wpe m w := (wp m (λ _ w', earned w'.(db)) (λ w', earned w'.(db)) w).

Lemma wpe_pres {A} (m : H A) w : same d0 w.(db) → pres m → wpe m w.
Proof. intros Hs Hm. apply (pres_wp earned); [done|]. by apply earned_start. Qed.
(** What only reads comes first. *)
Lemma wpe_reads {A B} (m : H A) (k : A → H B) w :
  same d0 w.(db) → ApiDb.pres (same d0) m → (∀ a w', same d0 w'.(db) → wpe (k a) w') → wpe (m ≫= k) w.
Proof.
  intros Hs Hm Hk. apply wp_bind. eapply wp_mono; [by apply (pres_wp (same d0))|apply Hk|].
  intros w' Hw'. by apply earned_start.
Qed.

Ltac same_d0 := intros ? ? ? ?; by eapply same_trans.
Ltac reads := repeat pres_step; same_d0.

Lemma wpe_midd c (h : H ()) w : same d0 w.(db) → (∀ w', same d0 w'.(db) → wpe h w') → wpe (AuthSessionMidd c h) w.
Proof.
  intros Hs Hh. apply wpe_reads; [done|apply pres_SessionChecking; same_d0|]. intros r w' Hs'.
  destruct (_ && _); [|by apply Hh]. apply wpe_pres, pres_reply; done.
Qed.

Lemma wpe_admin {B} code c (k : uic.User.t → H B) w :
  same d0 w.(db) → (∀ u w', same d0 w'.(db) → wpe (k u) w') → wpe (admin_only code c ≫= k) w.
Proof. intros Hs Hk. apply wpe_reads; [done|apply pres_admin_only; same_d0|done]. Qed.
Lemma wpe_bind_err {A B} code (b : bound A) (k : A → H B) w :
  same d0 w.(db) → wpe (k b.(inputs)) w → wpe (check_bind code b ≫= k) w.
Proof. intros Hs Hk. apply wp_bind, wp_check_bind; [done|]. intros w' ->. by apply earned_start. Qed.

Ltac ends := apply wpe_pres; [assumption|]; repeat pres_step; try exact earned_same.

Lemma pres_new_password u p : uic_wf d0 → u ∈ users d0 → pres (save Pool user (uic.User.with_Passwd p u)).
Proof.
  intros [Hk _] Hu. pose proof (proj2 (Hk user eq_refl) eq_refl u Hu) as Hpos.
  apply (pres_save_old u); [done|by destruct u..|]. destruct u; cbn in *; lia.
Qed.

Lemma wpe_ChangePassword c b w : uic_wf d0 → same d0 w.(db) → wpe (ChangePassword c b) w.
Proof.
  intros Hwf Hs. apply wpe_reads; [done|reads|]. intros _ w1 Hs1.
  apply wpe_reads; [done|reads|]. intros ws w2 Hs2.
  apply wp_bind, (wp_find_from d0 Pool user); [done|]. intros [u|e] w3 Hs3 [Hf _]; apply wp_bind.
  2: { apply wp_reply. intros w4 ->. by apply earned_start. }
  apply wp_ret. destruct (Hf u eq_refl) as (_ & Hin & _). ends. by apply pres_new_password.
Qed.

Lemma wpe_AdminChangePassword c b w : uic_wf d0 → same d0 w.(db) → wpe (AdminChangePassword c b) w.
Proof.
  intros Hwf Hs. apply wpe_bind_err; [done|]. apply wpe_admin; [done|]. intros a w1 Hs1.
  apply wp_bind, (wp_find_from d0 Pool user); [done|]. intros [u|e] w2 Hs2 [Hf _]; apply wp_bind.
  2: { apply wp_reply. intros w4 ->. by apply earned_start. }
  apply wp_ret. destruct (Hf u eq_refl) as (_ & Hin & _). ends. by apply pres_new_password.
Qed.

Lemma wpe_ChangeRoleOfUser c b w : uic_wf d0 → same d0 w.(db) → wpe (ChangeRoleOfUser c b) w.
Proof.
  intros [Hk _] Hs. apply wpe_bind_err; [done|]. apply wpe_admin; [done|]. intros a w1 Hs1.
  apply wp_bind, (wp_find_from d0 Pool user); [done|]. intros r w2 Hs2 [Hf _].
  cbv zeta. set (v := if decide (rAdmin (inputs b) = "yes") then uic.User.with_Role 1 (found_user r)
            else if decide (rAdmin (inputs b) = "no") then uic.User.with_Role 0 (found_user r) else found_user r).
  assert (v.(uic.User.ID) = (found_user r).(uic.User.ID) ∧ v.(uic.User.Name) = (found_user r).(uic.User.Name)) as [Ei En].
  { subst v. repeat case_decide; by destruct (found_user r). }
  clearbody v. destruct r as [u|e].
  - destruct (Hf u eq_refl) as (_ & Hin & _). pose proof (proj2 (Hk user eq_refl) eq_refl u Hin) as Hpos.
    ends. apply (pres_save_old u); [done..|]. rewrite Ei. cbn in *; lia.
  - cbn in Ei. unfold save. rewrite decide_True by done. apply wp_bind, wp_bind, (wp_create Pool user).
    { intros e' w3 Hs3. assert (same d0 (db w3)) by by eapply same_trans. apply wp_ret. ends. }
    intros x w3 Hc. apply wp_ret. apply (pres_wp earned); [repeat pres_step|].
    eapply earned_created; [exact Hc| |by apply earned_start]. right. intros u Hu Eu.
    destruct Hc as (_ & (_ & _ & Hc) & _). rewrite forallb_forall, (proj2 Hs2) in Hc.
    specialize (Hc u ltac:(by apply list_elem_of_In)). by rewrite conflict_pk in Hc.
Qed.

Lemma wpe_CreateUser c b w : same d0 w.(db) → wpe (CreateUser c b) w.
Proof.
  intros Hs. apply wpe_bind_err; [done|]. case_match; [ends|].
  apply wpe_reads; [done| |].
  { destruct signup_disable; [|apply pres_ret]. apply pres_signup_guard. same_d0. }
  intros _ w1 Hs1. apply wpe_reads; [done|reads|]. intros r w2 Hs2. case_decide; [ends|].
  apply wp_bind, (wp_create Pool user).
  { intros e' w3 Hs3. apply wp_bind, wp_reply. intros w4 ->. by eapply earned_start, same_trans. }
  intros x w3 Hc. apply wp_bind, wp_ret. assert (unknown d0 x.(uic.User.ID)) as Hnew.
  { intros u Hu Eu. destruct Hc as (_ & (_ & _ & Hc) & _). rewrite forallb_forall, (proj2 Hs2) in Hc.
    specialize (Hc u ltac:(by apply list_elem_of_In)). by rewrite conflict_pk in Hc. }
  apply (pres_wp earned); [repeat pres_step|].
  - apply pres_session. by left.
  - eapply earned_created; [exact Hc|by right|by apply earned_start].
Qed.

(** A login makes a session only for who knows the password. *)
Lemma wpe_Login b w : same d0 w.(db) → (∀ uid, knows d0 b uid → P uid) → wpe (Login b) w.
Proof.
  intros Hs HP. unfold Login. destruct (bind_err b) eqn:Eb; [ends|].
  apply wp_bind, (wp_find_from d0 Pool user); [done|]. intros [u|e] w1 Hs1 [Hf _].
  - case_decide; [ends|]. case_decide as Ep; [ends|]. ends. apply pres_session. right.
    apply HP. split; [done|]. exists u. destruct (Hf u eq_refl) as (_ & Hin & Hn). done.
  - case_decide; [ends|]. rewrite decide_True; [ends|]. cbn. intros E.
    destruct (Md5_shape (salt +:+ b.(inputs).(lPassword))) as [El _]. unfold HashIt in E. by rewrite <- E in El.
Qed.

(** The other requests that leave the users alone make no session. *)
Lemma pres_quiet_earned c r : writes_users r = false → (∀ b, r ≠ POST_login b) → pres (serve c r).
Proof.
  intros Hr Hl. apply pres_quiet; [exact earned_same| | | |done|intros b E; by destruct (Hl b)].
  - intros t x0 x d d' Ht (_ & _ & _ & Hf).
    eapply earned_frame; [exact Hf|by destruct Ht as [-> | ->]..].
  - intros p b d d' (_ & Hf & _). by eapply earned_frame.
  - intros t p d d' _. apply earned_deleted.
Qed.

Lemma wpe_serve c r w :
  uic_wf d0 → same d0 w.(db) → (∀ b uid, r = POST_login b → knows d0 b uid → P uid) → wpe (serve c r) w.
Proof.
  intros Hw Hs HP. destruct (writes_users r) eqn:Er.
  - destruct r; try done; cbn [serve]; [by apply wpe_CreateUser|..]; (apply wpe_midd; [done|]); intros w1 Hs1.
    + unfold UpdateCurrentUser. ends. apply pres_profile.
    + by apply wpe_ChangePassword.
    + by apply wpe_ChangeRoleOfUser.
    + by apply wpe_AdminChangePassword.
    + unfold AdminChangeUserProfile. apply wpe_bind_err; [done|]. apply wpe_admin; [done|].
      intros a w2 Hs2. ends. apply pres_profile.
    + unfold AdminUserDelete. apply wpe_bind_err; [done|]. apply wpe_admin; [done|].
      intros a w2 Hs2. ends. apply pres_delete with (t := user); [exact earned_same|]. apply earned_deleted.
  - destruct r; try (apply wpe_pres; [done|]; by apply pres_quiet_earned).
    apply wpe_Login; [done|]. eauto.
Qed.
End earn.

(** C11. Nobody gets in without a password: if a name with a signature that is not
the servers' own is authentic after a request and was not before, the request
was a login with the password of a user of that name, or it made that user. *)
Theorem sessions_earned c r w ws :
  uic_wf w.(db) → is_default ws = false → authentic (serve c r w).2.(db) ws →
  authentic w.(db) ws ∨
  (∃ b u, r = POST_login b ∧ knows w.(db) b u.(uic.User.ID) ∧ caller w.(db) ws u) ∨
  (∃ u, caller (serve c r w).2.(db) ws u ∧ unknown w.(db) u.(uic.User.ID)).
Proof.
  intros Hw Hd [?|(u & s & Hin & Hn & Hins & Hsig & Huid)]; [congruence|].
  pose (P := λ uid, ∃ b, r = POST_login b ∧ knows w.(db) b uid).
  assert (earned P w.(db) (serve c r w).2.(db)) as [Hu Hs].
  { assert (wp (serve c r) (λ _ w', earned P w.(db) w'.(db)) (λ w', earned P w.(db) w'.(db)) w) as Hwp
      by (apply wpe_serve; [done..|intros b uid ??; by exists b]).
    unfold wp in Hwp. by destruct (serve c r w) as [[a| |q] w']. }
  destruct (Hu u Hin) as [(v & Hv & Ei & En)|Hnew]; [|by right; right; exists u].
  rewrite <- En in Hn. rewrite <- Ei in Huid. destruct (Hs s Hins) as [Hold|[Hnew|(b & -> & Hb)]].
  - left. right. by exists v, s.
  - by destruct (Hnew v Hv).
  - right; left. exists b, v. rewrite <- Huid. done.
Qed.

(** ** The end of a session *)

(** A read, with the answers that were given. *)
Lemma wp_find_answers d0 R t p (Φ : result (row t) → world D → Prop) Ψ w :
  same d0 w.(db) → w.(resps) = R →
  (∀ r w', same d0 w'.(db) → w'.(resps) = R → sought Pool t p r d0 → Φ r w') → wp (find Pool t p) Φ Ψ w.
Proof.
  intros Hs Er HΦ.
  pose proof (wp_find_from d0 Pool t p (λ r w', same d0 w'.(db) ∧ sought Pool t p r d0) (λ _, False) w Hs) as Hwp.
  revert Hwp. unfold wp, find, mbind, H_bind, find_all, run. destruct (Select Pool t p (db w)) as [r d'].
  intros [??]; [by auto|]. by apply HΦ.
Qed.

(** No session of a user of that name is left. *)
Definition logged_out (d d' : D) (ws : WebSession) : Prop :=
  users d' = users d ∧
  ∀ u s, caller d ws u → s ∈ sessions d' → s.(uic.Session.Uid) ≠ u.(uic.User.ID).

Lemma caller_inj d ws u v : uic_wf d → caller d ws u → caller d ws v → u = v.
Proof.
  intros [Hk _] [Hu Hun] [Hv Hvn]. eapply (apart_inj user); [apply Hk; done|done..|].
  unfold conflict. apply orb_true_iff. right. cbn [unique].
  eapply text_eq_trans; [exact Hun|]. by rewrite text_eq_sym.
Qed.

Lemma session_deleted d d' x ws u :
  uic_wf d → x ∈ sessions d → caller d ws u → x.(uic.Session.Uid) = u.(uic.User.ID) →
  deleted Pool session (on (by_id session x.(uic.Session.ID))) d d' → logged_out d d' ws.
Proof.
  intros Hw Hx Hu Ex (_ & Hf & E). split; [by apply (frame_other _ _ user Pool _ _ Hf)|].
  intros v s Hv Hs Es. assert (v = u) as -> by by eapply caller_inj.
  rewrite E in Hs. apply filter_elem in Hs as [Hs Hns]. apply negb_true_iff, bool_decide_eq_false in Hns.
  destruct Hw as [_ Hn]. apply Hns. f_equal.
  apply list_elem_of_lookup in Hs as [i Hi], Hx as [j Hj].
  assert (i = j) as ->; [|congruence].
  eapply (NoDup_lookup _ _ _ s.(uic.Session.Uid) Hn); rewrite list_lookup_fmap; [by rewrite Hi|].
  rewrite Hj. cbn. congruence.
Qed.

Lemma wp_Logout c w ws R :
  uic_wf w.(db) → (∀ s, s ∈ sessions w.(db) → s.(uic.Session.Uid) ≠ 0) → GetSession c = Ok ws →
  w.(resps) = R →
  let Post w' := w'.(resps) = R ++ [JSONR StatusOK (MString "logout successful")] → logged_out w.(db) w'.(db) ws in
  wp (Logout c) (λ _ w', Post w') Post w.
Proof.
  intros Hw Hz Hc ER Post. unfold Logout. rewrite Hc. apply wp_bind, wp_ret, wp_bind.
  apply (wp_find_answers w.(db) R); [done..|]. intros r w1 Hs1 E1 [Hf1 _]. apply wp_bind.
  apply (wp_find_answers w.(db) R); [done..|]. intros s w2 Hs2 E2 [Hf2 _]. cbv zeta.
  case_decide as Ez.
  { unfold wp, reply, answer, return_, mbind, H_bind, Post. cbn. rewrite E2. by intros ?%app_inv_head. }
  destruct s as [x|e]; [|done]. destruct (Hf2 x eq_refl) as (_ & Hx & [_ Ex%bool_decide_eq_true]%andb_true_iff).
  destruct r as [u|e]; [|by destruct (Hz x Hx)]. destruct (Hf1 u eq_refl) as (_ & Hu & Hn).
  unfold wp, delete_from, reply, answer, return_, run, mbind, H_bind. cbn [found_session].
  destruct (Delete _ _ _ _) as [[n|e] d'] eqn:Ed; apply Delete_law in Ed; unfold Post; cbn; rewrite E2.
  - intros _. apply (session_deleted _ _ x ws u); try done.
    destruct Hs2 as [Et Ec]. destruct Ed as (Hus & [Ht Hf] & E & _). unfold deleted.
    rewrite <- !Ec. unfold usable in *. split_and!; [done|split|done]; [congruence|].
    intros c' t' Hn'. by rewrite Hf, Ec.
  - intros E%(f_equal length). revert E. rewrite !length_app. cbn. lia.
Qed.

Lemma wp_SessionChecking_refusal c w :
  wp (SessionChecking c) (λ r _, r.1 = false → ∃ e, r = (false, Some e)) (λ _, False) w.
Proof.
  unfold SessionChecking. destruct (GetSession c) as [ws|e]; [|apply wp_ret; cbn; eauto].
  destruct (is_default ws); [by apply wp_ret|]. apply wp_bind, (wp_find Pool user). intros r w1 _ _.
  case_decide; [apply wp_ret; cbn; eauto|]. apply wp_bind, (wp_find Pool session). intros s w2 _ _.
  case_decide; apply wp_ret; cbn; [eauto|done].
Qed.

(** A logout ends the session: after one that succeeded the request's header is
refused, whatever else is in the table, unless it has the servers' own token. *)
Theorem logout_ends_session c w ws :
  uic_wf w.(db) → (∀ s, s ∈ sessions w.(db) → s.(uic.Session.Uid) ≠ 0) →
  GetSession c = Ok ws → is_default ws = false →
  let w' := (Logout c w).2 in
  w'.(resps) = w.(resps) ++ [JSONR StatusOK (MString "logout successful")] →
  ∀ w2, same w'.(db) w2.(db) → ∃ e, (SessionChecking c w2).1 = Next (false, Some e).
Proof.
  intros Hw Hz Hc Hd w' Hr w2 Hs2. assert (logged_out w.(db) w'.(db) ws) as [Eu Hout].
  { pose proof (wp_Logout c w ws _ Hw Hz Hc eq_refl) as Hwp. revert Hr. unfold wp in Hwp. subst w'.
    by destruct (Logout c w) as [[a| |q] w']. }
  pose proof (wp_SessionChecking_refusal c w2) as Hf.
  pose proof (wp_SessionChecking w'.(db) c (λ r _, r.1 = true → ∃ ws, GetSession c = Ok ws ∧ authentic w'.(db) ws)
    (λ _, True) w2 Hs2 (λ r w0 _ Hr, Hr)) as Hwp.
  unfold wp in Hwp, Hf. destruct (SessionChecking c w2) as [[r| |q] w3]; [|done..].
  destruct (r.1) eqn:E1; [|destruct (Hf eq_refl) as [e ->]; by eauto]. exfalso.
  destruct (Hwp eq_refl) as (ws' & Hc' & Hau). rewrite Hc in Hc'. injection Hc' as <-.
  destruct Hau as [?|(u & s & Hu & Hn & Hs & _ & Es)]; [congruence|]. apply (Hout u s); [|done..]. split; [|done]. by rewrite <- Eu.
Qed.
End sessions.

(** ** The site *)

#[local] Existing Instance site_settings.

Definition right_login : request := POST_login (Bound (APILoginInput_ "BOB" "b") None).
Definition bob : WebSession := WebSession_ "bob" "00".

Lemma bob_logged_in : authentic (serve None right_login site).2.(db) bob.
Proof.
  right. exists (uic.User.mk 3 "bob" "" (Md5 "sb") "" "" "" "" 0), (uic.Session.mk 3 3 "00" (3600 * 24 * 30)).
  split_and!; [| |vm_compute; by right; right; left|..]; try done; apply list_elem_of_In; vm_compute; auto.
Qed.

(** bob logs in, writing his name in another case. *)
Lemma sessions_earned_witness :
  authentic site.(db) bob ∨
  (∃ b u, right_login = POST_login b ∧ knows site.(db) b u.(uic.User.ID) ∧ caller site.(db) bob u) ∨
  (∃ u, caller (serve None right_login site).2.(db) bob u ∧ unknown site.(db) u.(uic.User.ID)).
Proof. apply sessions_earned; [apply site_wf|reflexivity|apply bob_logged_in]. Defined.

Lemma site_sessions_owned s : s ∈ site_sessions → s.(uic.Session.Uid) ≠ 0.
Proof. intros Hs%list_elem_of_In. by repeat destruct Hs as [<-|Hs]. Qed.

(** alice logs out. *)
Lemma logout_ends_session_witness :
  ∃ e, (SessionChecking (token "alice" "a1") (Logout (token "alice" "a1") site).2).1 = Next (false, Some e).
Proof.
  apply (logout_ends_session (token "alice" "a1") site (WebSession_ "alice" "a1")).
  - apply site_wf.
  - apply site_sessions_owned.
  - reflexivity.
  - reflexivity.
  - vm_compute. reflexivity.
  - apply same_refl.
Defined.

(** A session never expires, and outlives its user: who gets the key of a deleted
user next is let in with the old signature. *)
Example session_outlives_its_user :
  let w := (serve (token "root" "r1") (DELETE_delete_user (Bound 2 None)) site).2 in
  pool w.(db) session = site_sessions ∧ (uic.User.ID <$> pool w.(db) user) = [1; 3].
Proof. by vm_compute. Qed.
