(* ===== verification/ApiGroups.v ===== *)
(** * The api: who decides which hosts a group has

What is monitored hangs on the rows of [grp_host].  [group_hosts_guarded]: with
sessions checked, the hosts of a group change only on the authentic request of an
admin or of the group's creator, although other rows of the portal are open to
everyone. *)

From S2P Require Import Prelude GoFloat GoString Hash Tags Model Json ApiModel ApiDb ApiUic ApiTeam ApiTemplate ApiHost ApiMem ApiUicSafety ApiPortalSafety.
From stdpp Require Import options.

Ltac head_of m := lazymatch m with ?h _ => head_of h | _ => m end.

Section groups.
Context `{Sql D} {L : SqlLaws D} `{Settings}.
#[local] Set Default Proof Using "Type L".
Notation H := (H D).
Implicit Types (w : world D) (d : D).

(** The rows of [grp_host] of a group. *)
Definition in_group (g : Z) (x : f.GrpHost.t) : bool := bool_decide (x.(f.GrpHost.GrpID) = g).
Definition hosts_in (c : conn) (g : Z) (d : D) : list f.GrpHost.t :=
  List.filter (in_group g) (content c d grp_host).

(** Who sends a request may manage a group: its session is authentic, and it is an
admin or has the name of the group's creator. *)
Definition may_manage (c : header) (d : D) (g : Z) : Prop :=
  ∃ ws, GetSession c = Ok ws ∧ authentic d ws ∧
    (access_control = false ∨ (∃ u, caller d ws u ∧ IsAdmin u = true) ∨
     ∃ hg, hg ∈ content Pool d grp ∧ hg.(f.HostGroup.ID) = g ∧
           text_eq hg.(f.HostGroup.CreateUser) ws.(Name) = true).

(** ** What every handler keeps *)

Section kept.
Variables (M : Z → Prop) (d0 : D).

(** Except for the groups of [M], the committed hosts are those of [d0], and those
of an open transaction too. *)
Definition kept (d : D) : Prop :=
  ∀ g, ¬ M g → hosts_in Pool g d ≡ₚ hosts_in Pool g d0 ∧
               (in_tx d = Some DBPool.Falcon → hosts_in Tx g d ≡ₚ hosts_in Pool g d0).

Lemma kept_same d d' : same d d' → kept d → kept d'.
Proof. intros [Et Ec] Hk g Hg. unfold hosts_in. rewrite Et, !Ec. by apply Hk. Qed.

Lemma kept_frame c t d d' : t ≠ grp_host → frame c t d d' → kept d → kept d'.
Proof.
  intros Ht [Et Hf] Hk g Hg. unfold hosts_in. rewrite Et, !Hf by congruence. by apply Hk.
Qed.

(** A statement on [grp_host] that treats the rows of the other groups alike. *)
Lemma kept_hosts c d d' :
  frame c grp_host d d' → (∀ g, ¬ M g → hosts_in c g d' ≡ₚ hosts_in c g d) → kept d → kept d'.
Proof.
  intros [Et Hf] Hc Hk g Hg. destruct (Hk g Hg) as [Hp Ht]. specialize (Hc g Hg). rewrite Et.
  destruct c; cbn in Hc.
  - split; [by rewrite Hc|]. unfold hosts_in. by rewrite (Hf Tx grp_host) by done.
  - split; [|intros E; rewrite Hc; auto]. unfold hosts_in. by rewrite (Hf Pool grp_host) by done.
Qed.

Lemma filter_none {A} (p q : A → bool) l :
  (∀ x, p x = true → q x = false) → List.filter p (List.filter (λ x, negb (q x)) l) = List.filter p l.
Proof.
  intros Hpq. induction l as [|x l IH]; [done|]. cbn.
  destruct (q x) eqn:Eq, (p x) eqn:Ep; cbn; rewrite ?Ep, IH; try done. by rewrite Hpq in Eq.
Qed.

Lemma kept_created c x0 x d d' :
  M x0.(f.GrpHost.GrpID) → created c grp_host x0 x d d' → kept d → kept d'.
Proof.
  intros Hm (_ & (Hx & _) & E & Hf). apply (kept_hosts c); [done|]. intros g Hg. unfold hosts_in.
  rewrite (filter_perm _ _ _ E). cbn [List.filter].
  assert (x.(f.GrpHost.GrpID) = x0.(f.GrpHost.GrpID)) as Ex.
  { cbn in Hx. by destruct Hx as [id ->]. }
  unfold in_group at 1. rewrite bool_decide_false; [done|]. rewrite Ex. by intros <-.
Qed.

Lemma kept_deleted c p d d' :
  (∀ x, p (content c d) x = true → M x.(f.GrpHost.GrpID)) → deleted c grp_host p d d' → kept d → kept d'.
Proof.
  intros Hm (_ & Hf & E). apply (kept_hosts c); [done|]. intros g Hg. unfold hosts_in.
  rewrite (filter_perm _ _ _ E), filter_none; [done|]. intros x Hx%bool_decide_eq_true.
  destruct (p _ x) eqn:Ep; [|done]. by apply Hm in Ep; subst.
Qed.

Notation pres := (pres kept).

Lemma pres_begin b : pres (begin b).
Proof.
  apply pres_run. intros d Hk. destruct (Begin b d) as [r d'] eqn:E. apply Begin_law in E as [Ec Hr]. cbn.
  intros g Hg. destruct (Hk g Hg) as [Hp _]. unfold hosts_in in *. rewrite Ec. split; [done|].
  intros Et. destruct r; [|congruence]. destruct Hr as [Eb Hr]. rewrite Hr; [done|]. cbn. congruence.
Qed.
Lemma pres_commit : pres commit.
Proof.
  apply pres_run. intros d Hk. destruct (Commit d) as [r d'] eqn:E. apply Commit_law in E as (Et & Hr). cbn.
  intros g Hg. destruct (Hk g Hg) as [Hp Ht]. unfold hosts_in in *. rewrite Et. split; [|done].
  destruct r; [|by rewrite Hr]. destruct Hr as (b & Eo & Hr). rewrite Hr. case_decide as Eb; [|done].
  apply Ht. cbn in Eb. congruence.
Qed.
Lemma pres_rollback : pres rollback.
Proof.
  apply pres_run. intros d Hk. cbn. destruct (Rollback_law d) as [Et Ec].
  intros g Hg. destruct (Hk g Hg) as [Hp _]. unfold hosts_in in *. by rewrite Et, Ec.
Qed.
Lemma pres_reply_tx {A} code m : pres (reply_tx (A := A) code m).
Proof. apply pres_bind; [apply pres_answer|intros _]. apply pres_bind; [apply pres_rollback|intros _]. apply pres_return. Qed.
Lemma pres_check_tx {A} code (r : result A) : pres (check_tx code r).
Proof. destruct r; [apply pres_ret|apply pres_reply_tx]. Qed.
Lemma pres_check_tx_text {A} code s (r : result A) : pres (check_tx_text code s r).
Proof. destruct r; [apply pres_ret|apply pres_reply_tx]. Qed.
Lemma pres_panic {A} p : pres (panic_ (A := A) p).
Proof. by intros w. Qed.

(** Statements on the other tables. *)
Lemma pres_create_other c t x0 : t ≠ grp_host → pres (create c t x0).
Proof. intros Ht. apply pres_create; [apply kept_same|]. intros x d d' (_ & _ & _ & Hf). by apply kept_frame with c t. Qed.
Lemma pres_update_other c t p g : t ≠ grp_host → pres (update c t p g).
Proof. intros Ht. apply pres_update; [apply kept_same|]. intros d d' (_ & Hf & _). by apply kept_frame with c t. Qed.
Lemma pres_delete_other c t p : t ≠ grp_host → pres (delete_from c t p).
Proof. intros Ht. apply pres_delete; [apply kept_same|]. intros d d' (_ & Hf & _). by apply kept_frame with c t. Qed.
Lemma pres_save_other c t x0 : t ≠ grp_host → pres (save c t x0).
Proof.
  intros Ht. apply pres_save; [apply kept_same| |].
  - intros x d d' (_ & _ & _ & Hf). by apply kept_frame with c t.
  - intros d d' (_ & Hf & _) _. by apply kept_frame with c t.
Qed.

Create HintDb groups.
(** The steps of a handler that leaves [grp_host] alone. *)
Ltac kept_step :=
  cbn beta zeta;
  lazymatch goal with
  | |- ∀ _ _, same _ _ → _ => exact kept_same
  | |- ApiDb.pres _ ?m =>
    lazymatch m with
    | create ?c ?tab _ => apply (pres_create_other c tab); discriminate
    | update ?c ?tab _ _ => apply (pres_update_other c tab); discriminate
    | delete_from ?c ?tab _ => apply (pres_delete_other c tab); discriminate
    | save ?c ?tab _ => apply (pres_save_other c tab); discriminate
    | begin _ => apply pres_begin
    | commit => apply pres_commit
    | rollback => apply pres_rollback
    | reply_tx _ _ => apply pres_reply_tx
    | check_tx _ _ => apply pres_check_tx
    | check_tx_text _ _ _ => apply pres_check_tx_text
    | panic_ _ => apply pres_panic
    | _ => solve [auto with groups] || pres_step || (let h := head_of m in progress unfold h)
    end
  end.
Ltac keeps := repeat kept_step.

Lemma kept_h_GetUser c : pres (h_GetUser c).
Proof. unfold h_GetUser. keeps. Qed.
#[local] Hint Resolve kept_h_GetUser : groups.
Lemma kept_any_user c : pres (any_user c).
Proof. unfold any_user. keeps. Qed.
Lemma kept_current_user code c : pres (current_user code c).
Proof. unfold current_user. keeps. Qed.
Lemma kept_id_param s m : pres (id_param s m).
Proof. unfold id_param. keeps. Qed.
Lemma kept_find_ids t ids : pres (find_ids t ids).
Proof. unfold find_ids. case_decide; [apply pres_ret|apply pres_find_all, kept_same]. Qed.
Lemma kept_FindParentName t : pres (FindParentName t).
Proof. unfold FindParentName. keeps. Qed.
#[local] Hint Resolve kept_any_user kept_current_user kept_id_param kept_find_ids kept_FindParentName : groups.
Lemma kept_template_outputs l : pres (template_outputs l).
Proof. induction l as [|t l IH]; cbn [template_outputs]; keeps. Qed.
Lemma kept_last_insert_id : pres last_insert_id.
Proof. unfold last_insert_id. keeps. Qed.
Lemma kept_Existing h : pres (Existing h).
Proof. unfold Existing. keeps. Qed.
Lemma kept_RelatedGrp h : pres (RelatedGrp h).
Proof. unfold RelatedGrp. keeps. Qed.
#[local] Hint Resolve kept_template_outputs kept_last_insert_id kept_Existing kept_RelatedGrp : groups.
Lemma kept_RelatedTpl h : pres (RelatedTpl h).
Proof. unfold RelatedTpl. keeps. Qed.
Lemma kept_HostGroupName x : pres (HostGroupName x).
Proof. unfold HostGroupName. keeps. Qed.
Lemma kept_grp_hosts k l : pres (grp_hosts k l).
Proof. induction l as [|x l IH]; cbn [grp_hosts]; keeps. Qed.
Lemma kept_creator_only u g code s : pres (creator_only u g code s).
Proof. unfold creator_only. keeps. Qed.
Lemma kept_creator_or u g m s : pres (creator_or u g m s).
Proof. unfold creator_or. keeps. Qed.
#[local] Hint Resolve kept_RelatedTpl kept_HostGroupName kept_grp_hosts kept_creator_only
  kept_creator_or : groups.

(** The requests that write [grp_host]. *)
Definition writes_hosts (r : portal_request) : bool :=
  match r with POST_hostgroup_host _ | PUT_hostgroup_host _ | DELETE_hostgroup _ => true | _ => false end.

Lemma kept_other_handlers c r : writes_hosts r = false → pres (portal_handler c r).
Proof. destruct r; try done; intros _; cbn [portal_handler]; keeps. Qed.

(** The requests that write it, for a group of [M]. *)
Lemma kept_delete_hosts c g p :
  M g → (∀ x, p x = true → x.(f.GrpHost.GrpID) = g) → pres (delete_from c grp_host (on p)).
Proof.
  intros Hg Hp. apply pres_delete; [apply kept_same|]. intros d d'. apply kept_deleted.
  intros x Hx. by rewrite (Hp x Hx).
Qed.
Lemma kept_hosts_of c g : M g → pres (delete_from c grp_host (hosts_of g)).
Proof. intros Hg. apply (kept_delete_hosts c g); [done|]. by intros x Hx%bool_decide_eq_true. Qed.
Lemma kept_bind_hosts g hosts ids : M g → pres (bind_hosts g hosts ids).
Proof.
  intros Hg. revert ids. induction hosts as [|h hosts IH]; intros ids; cbn [bind_hosts]; [apply pres_ret|].
  repeat first [apply IH | apply pres_create with (t := grp_host); [exact kept_same|intros ???; by apply kept_created]
               | kept_step].
Qed.
End kept.

Ltac keeps := repeat first
  [ eapply kept_hosts_of; eassumption | eapply kept_bind_hosts; eassumption
  | lazymatch goal with
    | |- ∀ _ _, same _ _ → _ => apply kept_same
    | |- pres _ (delete_from _ plugin_dir _) => apply (pres_delete_other _ _ _ plugin_dir); discriminate
    | |- pres _ (delete_from _ cluster _) => apply (pres_delete_other _ _ _ cluster); discriminate
    | |- pres _ (delete_from _ grp _) => apply (pres_delete_other _ _ _ grp); discriminate
    end
  | apply pres_begin | apply pres_commit | apply pres_check_tx | apply pres_check_tx_text | pres_step ].

(** ** Who gets that far *)

Section guard.
Variables (c : header) (d0 : D) (ws : WebSession).
Hypothesis Hc : GetSession c = Ok ws.
Hypothesis Hau : authentic d0 ws.
#[local] Set Default Proof Using "Type L Hc Hau".

(** The groups that the caller may manage, and the group 0, which has no hosts. *)
Definition managed (g : Z) : Prop := g = 0 ∨ may_manage c d0 g.

Definition admits (u : uic.User.t) : Prop :=
  text_eq u.(uic.User.Name) ws.(Name) = true ∧
  (IsAdmin u = true → access_control = false ∨ ∃ a, caller d0 ws a ∧ IsAdmin a = true).

Lemma managed_admin u g : admits u → IsAdmin u = true → managed g.
Proof. intros [_ Ha] E. right. exists ws. destruct (Ha E); tauto. Qed.
Lemma managed_creator u g hg :
  admits u → hg ∈ content Pool d0 grp → by_struct grp g hg = true →
  hg.(f.HostGroup.CreateUser) = u.(uic.User.Name) → managed g.
Proof.
  intros [Hn _] Hin [Hz%bool_decide_eq_true|Hi%bool_decide_eq_true]%orb_prop E; [by left|]. right.
  exists ws. split_and!; [done..|]. right; right. exists hg. by rewrite E.
Qed.

Lemma wp_any_user (Φ : uic.User.t → world D → Prop) Ψ w :
  same d0 w.(db) → (∀ u w', same d0 w'.(db) → admits u → Φ u w') → wp (any_user c) Φ Ψ w.
Proof.
  intros Hs HΦ. unfold any_user, h_GetUser. rewrite Hc. apply wp_bind, wp_bind.
  apply (wp_find_from d0 Pool user); [done|]. intros [u|e] w' Hs' [Hf _]; apply wp_ret, wp_ret, HΦ; try done.
  - destruct (Hf u eq_refl) as (_ & Hu & Hn). split; [done|]. intros E. right. by exists u.
  - split; [apply text_eq_refl|]. unfold IsAdmin. cbn. destruct access_control; [done|]. by left.
Qed.

Lemma wp_creator_only u g code s (Φ : () → world D → Prop) Ψ w :
  same d0 w.(db) → admits u → (∀ w', same d0 w'.(db) → Ψ w') →
  (∀ w', same d0 w'.(db) → managed g → Φ tt w') → wp (creator_only u g code s) Φ Ψ w.
Proof.
  intros Hs Hu HΨ HΦ. unfold creator_only. destruct (IsAdmin u) eqn:Ea.
  { apply wp_ret, HΦ; [done|]. by eapply managed_admin. }
  assert (∀ cd m w1, same d0 w1.(db) → wp (reply (A := ()) cd m) Φ Ψ w1) as Hr.
  { intros cd m w1 Hs1. apply wp_reply. intros w2 E. apply HΨ. by rewrite E. }
  apply wp_bind, (wp_find_from d0 Pool grp); [done|]. intros [hg|e] w' Hs' [Hf _]; [|by apply Hr].
  case_decide as E; [|by apply Hr]. destruct (Hf hg eq_refl) as (_ & Hin & Hb).
  apply wp_ret, HΦ; [done|]. by eapply managed_creator.
Qed.

Notation kept := (kept managed d0).
Hypothesis Ht : in_tx d0 = None.
#[local] Set Default Proof Using "Type L Hc Hau Ht".

Lemma kept_start d : same d0 d → kept d.
Proof. intros Hs. eapply kept_same; [exact Hs|]. intros g _. by rewrite Ht. Qed.

Notation wpk m w := (wp m (λ _ w', kept w'.(db)) (λ w', kept w'.(db)) w).

(** From here on no more is asked of the caller. *)
Lemma wpk_pres {A} (m : H A) w : same d0 w.(db) → pres kept m → wpk m w.
Proof. intros Hs Hm. apply (pres_wp kept); [done|]. by apply kept_start. Qed.
Lemma wpk_bind_err {A B} code (b : bound A) (k : A → H B) w :
  same d0 w.(db) → wpk (k b.(inputs)) w → wpk (check_bind code b ≫= k) w.
Proof.
  intros Hs Hk. apply wp_bind, wp_check_bind; [done|]. intros w' ->. by apply kept_start.
Qed.
Lemma wpk_id_param {B} s m (k : Z → H B) w :
  same d0 w.(db) → (∀ i, wpk (k i) w) → wpk (id_param s m ≫= k) w.
Proof.
  intros Hs Hk. unfold id_param. apply wp_bind.
  assert (∀ code m, wp (reply (A := Z) code m) (λ i w', wpk (k i) w') (λ w', kept w'.(db)) w) as Hr.
  { intros. apply wp_reply. intros w' ->. by apply kept_start. }
  case_decide; [apply Hr|]. destruct (Atoi m); [by apply wp_ret|apply Hr].
Qed.
Lemma wpk_user {B} (k : uic.User.t → H B) w :
  same d0 w.(db) → (∀ u w', same d0 w'.(db) → admits u → wpk (k u) w') → wpk (any_user c ≫= k) w.
Proof. intros Hs Hk. by apply wp_bind, wp_any_user. Qed.
Lemma wpk_creator {B} u g code s (k : () → H B) w :
  same d0 w.(db) → admits u → (∀ w', same d0 w'.(db) → managed g → wpk (k tt) w') →
  wpk (creator_only u g code s ≫= k) w.
Proof. intros Hs Hu Hk. apply wp_bind, wp_creator_only with (u := u); [done..|by intros; apply kept_start|done]. Qed.

Lemma wpk_BindHostToHostGroup b w : same d0 w.(db) → wpk (BindHostToHostGroup c b) w.
Proof.
  intros Hs. apply wpk_bind_err; [done|]. apply wpk_user; [done|]. intros u w1 Hs1 Hu.
  apply wp_bind, (wp_find_from d0 Pool grp); [done|]. intros [hg|e] w2 Hs2 [Hf _]; apply wp_bind.
  2: { apply wp_reply. intros w3 ->. by apply kept_start. }
  apply wp_ret. destruct (Hf hg eq_refl) as (_ & Hin & _).
  destruct (negb (IsAdmin u) && _) eqn:E; [apply wp_reply; intros w3 ->; by apply kept_start|].
  apply wpk_pres; [done|].
  assert (managed hg.(f.HostGroup.ID)) as Hm.
  { apply andb_false_iff in E as [E%negb_false_iff|E%negb_false_iff]; [by eapply managed_admin|].
    apply bool_decide_eq_true in E. eapply managed_creator; [done..| |done].
    apply orb_true_iff. right. by apply bool_decide_eq_true. }
  cbv zeta. keeps.
Qed.

Lemma wpk_UnBindAHostToHostGroup b w : same d0 w.(db) → wpk (UnBindAHostToHostGroup c b) w.
Proof.
  intros Hs. apply wpk_bind_err; [done|]. apply wpk_user; [done|]. intros u w1 Hs1 Hu.
  apply wpk_creator; [done..|]. intros w2 Hs2 Hm. apply wpk_pres; [done|].
  apply pres_bind; [|intros; keeps]. eapply kept_delete_hosts; [exact Hm|].
  by intros x [E%bool_decide_eq_true _]%andb_true_iff.
Qed.

Lemma wpk_DeleteHostGroup i w : same d0 w.(db) → wpk (DeleteHostGroup c i) w.
Proof.
  intros Hs. apply wpk_id_param; [done|]. intros g. apply wpk_user; [done|]. intros u w1 Hs1 Hu.
  apply wpk_creator; [done..|]. intros w2 Hs2 Hm. apply wpk_pres; [done|]. keeps.
Qed.
End guard.

(** C12. Who decides what a group monitors: with sessions checked, and whatever the
request and the failing statements, the hosts of a group stay as they are unless
the request is an authentic one of an admin or of the creator of that group. *)
Theorem group_hosts_guarded c r w g :
  skip_auth = false → in_tx w.(db) = None → g ≠ 0 → ¬ may_manage c w.(db) g →
  hosts_in Pool g (portal_serve c r w).2.(db) ≡ₚ hosts_in Pool g w.(db).
Proof.
  intros Hk Ht Hg Hno. set (d0 := w.(db)) in *.
  enough (kept (managed c d0) d0 (portal_serve c r w).2.(db)) as Hkept by (apply Hkept; by intros [|]).
  assert (∀ d, same d0 d → kept (managed c d0) d0 d) as Hstart.
  { intros d Hs. eapply kept_same; [exact Hs|]. intros g' _. by rewrite Ht. }
  unfold portal_serve. destruct (portal_open r) eqn:Eo.
  { apply kept_other_handlers; [by destruct r|]. by apply Hstart. }
  assert (wp (AuthSessionMidd c (portal_handler c r)) (λ _ w', kept (managed c d0) d0 w'.(db))
            (λ w', kept (managed c d0) d0 w'.(db)) w) as Hwp.
  2: { unfold wp in Hwp. by destruct (AuthSessionMidd _ _ w) as [[a| |q] w']. }
  apply (wp_AuthSessionMidd d0); [done..|by intros; apply Hstart|]. intros w1 ws Hs Hc Hau.
  destruct (writes_hosts r) eqn:Ew.
  - destruct r; try done; cbn [portal_handler].
    + by eapply wpk_BindHostToHostGroup.
    + by eapply wpk_UnBindAHostToHostGroup.
    + by eapply wpk_DeleteHostGroup.
  - apply pres_wp; [by apply kept_other_handlers|]. by apply Hstart.
Qed.
End groups.

(** ** The site: alice made group 1, bob group 2 *)

#[local] Existing Instance site_settings.

Definition site_hosts : list f.GrpHost.t := [f.GrpHost.mk 1 10; f.GrpHost.mk 2 10; f.GrpHost.mk 2 11].
Definition groups_site : world mem := World (of_rows (upd grp_host site_hosts portal_view)) [] 0.
Definition take_over : portal_request :=
  POST_hostgroup_host (Bound (APIBindHostToHostGroupInput_ [] 2) None).

Lemma alice_may_not : ¬ may_manage (token "alice" "a1") groups_site.(db) 2.
Proof.
  intros (ws & [= <-] & _ & [E|[(u & [Hu%list_elem_of_In Hn] & Ha)|(hg & Hin%list_elem_of_In & Hi & Hn)]]).
  - by vm_compute in E.
  - repeat (destruct Hu as [<-|Hu]; [by vm_compute in Hn, Ha|]). done.
  - repeat (destruct Hin as [<-|Hin]; [by vm_compute in Hn, Hi|]). done.
Qed.

Lemma group_hosts_guarded_witness :
  hosts_in Pool 2 (portal_serve (token "alice" "a1") take_over groups_site).2.(db)
    ≡ₚ hosts_in Pool 2 groups_site.(db).
Proof. apply group_hosts_guarded; [reflexivity|reflexivity|discriminate|apply alice_may_not]. Defined.

(** Renaming the group is open to her; the name is not what the hosts hang on. *)
Example rename_then_take_over :
  let w := (portal_serve (token "alice" "a1") (PUT_hostgroup (Bound (APIHostGroupInputs_ 2 "mine") None))
              groups_site).2 in
  w.(resps) = [JSONR 200 (MString "hostgroup profile updated")] ∧
  (portal_serve (token "alice" "a1") take_over w).2.(resps) =
    w.(resps) ++ [JSONR 417 (MString "You don't have permission.")].
Proof. by vm_compute. Qed.

(** The creator's request goes through: the rows of a group are replaced. *)
Example creator_rebinds :
  let w := (portal_serve (token "alice" "a1")
              (POST_hostgroup_host (Bound (APIBindHostToHostGroupInput_ ["web2"] 1) None)) groups_site).2 in
  w.(resps) = [JSONR 200 (MString "[1] bind to hostgroup: 1")] ∧
  hosts_in Pool 1 w.(db) = [f.GrpHost.mk 1 1] ∧ hosts_in Pool 2 w.(db) = hosts_in Pool 2 groups_site.(db).
Proof. by vm_compute. Qed.

(** A new name that is twice in a request is not found the second time, since the
look-up is outside of the transaction: the unique key refuses the request. *)
Example name_twice_refused :
  let w := (portal_serve (token "alice" "a1")
              (POST_hostgroup_host (Bound (APIBindHostToHostGroupInput_ ["web2"; "web2"] 1) None)) groups_site).2 in
  w.(resps) = [JSONR 417 (MError "Error 1062")] ∧ hosts_in Pool 1 w.(db) = hosts_in Pool 1 groups_site.(db).
Proof. by vm_compute. Qed.
