(* ===== verification/ApiToJudge.v ===== *)
(** * From the api to the judge

A user makes a strategy with the api, hbs reads the tables that the api writes,
and judges ask hbs.  [serves] says what MySQL answers to the statements of hbs
when the tables are those of the api; [api_strategy_reaches_judge] follows a
strategy from the request to the judges that hold it. *)

From S2P Require Import Prelude GoFloat GoString Hash Tags Model Json Regex JudgeStore JudgeEngine JudgeSafety Hbs HbsInherit HbsSafety.
From S2P Require Import ApiModel ApiDb ApiUic ApiTeam ApiTemplate ApiHost ApiMem ApiUicSafety ApiSessions ApiPortalSafety.
From Stdlib Require Import Ascii.
From stdpp Require Import options.

(** ** Rows of the api as hbs scans them *)

Definition template_of (x : f.Template.t) : Template.t :=
  Template.mk x.(f.Template.ID) x.(f.Template.Name) x.(f.Template.ParentID) x.(f.Template.ActionID)
    x.(f.Template.CreateUser).

(** The column right_value is a text; [Scan] makes a float of it or fails. *)
Definition scanned (x : f.Strategy.t) : option StrategyRow :=
  match ParseFloat x.(f.Strategy.RightValue) with
  | Ok v => Some (StrategyRow_ x.(f.Strategy.ID) x.(f.Strategy.Metric) x.(f.Strategy.Tags) x.(f.Strategy.Func)
                    x.(f.Strategy.Op) v x.(f.Strategy.MaxStep) x.(f.Strategy.Priority) x.(f.Strategy.Note)
                    x.(f.Strategy.TplId))
  | Err _ => None
  end.

(** [grp_tpl as a inner join grp_host as b on a.grp_id=b.grp_id] *)
Definition joined (v : view) : list (Z * Z) :=
  a ← v ApiModel.grp_tpl; b ← v ApiModel.grp_host;
  if decide (a.(f.GrpTpl.GrpID) = b.(f.GrpHost.GrpID)) then [(a.(f.GrpTpl.TplID), b.(f.GrpHost.HostID))] else [].

(** [maintain_begin > now or maintain_end < now] *)
Definition monitored (now : Z) (x : f.Host.t) : bool :=
  (now <? x.(f.Host.MaintainBegin)) || (x.(f.Host.MaintainEnd) <? now).

(** What MySQL answers to hbs at a time, the tables being [v]; [runs] is its
comparison of the run times with the time of day. *)
Record serves (DB : database) (now : Z) (clock : string) (runs : string → string → bool) (v : view) : Prop := Serves {
  s_tpl : ∃ l, DB.(Hbs.tpl) "select id, tpl_name, parent_id, action_id, create_user from tpl" = Ok (Some <$> l) ∧
            l ≡ₚ template_of <$> v ApiModel.tpl;
  s_host_tpl : ∃ l, DB.(host_tpl)
            "select a.tpl_id, b.host_id from grp_tpl as a inner join grp_host as b on a.grp_id=b.grp_id"
              = Ok (Some <$> l) ∧ l ≡ₚ joined v;
  s_host : ∃ l, DB.(Hbs.host) ("select id, hostname from host where maintain_begin > " +:+ Itoa now
              +:+ " or maintain_end < " +:+ Itoa now) = Ok (Some <$> l) ∧
            l ≡ₚ (λ x, (x.(f.Host.ID), x.(f.Host.Hostname))) <$> List.filter (monitored now) (v ApiModel.host);
  s_strategy : ∃ l, DB.(Hbs.strategy) (strategies_sql clock) = Ok l ∧
            l ≡ₚ scanned <$> List.filter (λ x, runs x.(f.Strategy.RunBegin) x.(f.Strategy.RunEnd)) (v ApiModel.strategy) }.

(** ** Loading a table *)

(** Rows that agree about a key leave its value. *)
Lemma scan_rows_lookup {R V} (g : gmap Z V → R → gmap Z V) (val : R → option (Z * V)) rows k v :
  (∀ m r, g m r = match val r with Some (i, x) => <[i := x]> m | None => m end) →
  (∃ r, Some r ∈ rows ∧ val r = Some (k, v)) →
  (∀ r v', Some r ∈ rows → val r = Some (k, v') → v' = v) →
  scan_rows g ∅ rows !! k = Some v.
Proof.
  intros Hg Hex Hall. unfold scan_rows.
  induction rows as [|o rows IH] using rev_ind; [by destruct Hex as (? & ?%not_elem_of_nil & _)|].
  rewrite foldl_app. cbn [foldl]. set (m := foldl _ _ _) in *.
  assert ((∃ r, Some r ∈ rows ∧ val r = Some (k, v)) → m !! k = Some v) as Hm.
  { intros H. apply IH; [done|]. intros r v' Hr. apply Hall. set_solver. }
  destruct o as [r|].
  - rewrite Hg. destruct (val r) as [[i x]|] eqn:Ev.
    + destruct (decide (i = k)) as [->|Hne].
      * rewrite lookup_insert_eq. f_equal. apply (Hall r); [|done]. set_solver.
      * rewrite lookup_insert_ne by done. apply Hm. destruct Hex as (r' & [Hr|Hr]%elem_of_app & Er); [eauto|].
        apply list_elem_of_singleton in Hr. simplify_eq.
    + apply Hm. destruct Hex as (r' & [Hr|Hr]%elem_of_app & Er); [eauto|].
      apply list_elem_of_singleton in Hr. simplify_eq.
  - apply Hm. destruct Hex as (r' & [Hr|Hr]%elem_of_app & Er); [eauto|]. by apply list_elem_of_singleton in Hr.
Qed.

Lemma scan_rows_inv_in {R S} (P : S → Prop) (g : S → R → S) s rows :
  (∀ s r, Some r ∈ rows → P s → P (g s r)) → P s → P (scan_rows g s rows).
Proof.
  unfold scan_rows. revert s. induction rows as [|[r|] rows IH]; intros s Hg Hs; cbn; [done|..].
  - apply IH; [intros s' r' Hr; apply Hg; by right|]. apply Hg; [left|done].
  - apply IH; [intros s' r' Hr; apply Hg; by right|done].
Qed.

(** The templates bound to a host. *)
Lemma scan_rows_group (l : list (Z * Z)) m hid tid :
  (tid, hid) ∈ l ∨ (∃ tids, m !! hid = Some tids ∧ tid ∈ tids) →
  ∃ tids, scan_rows (λ m (r : Z * Z), group_append r.2 r.1 m) m (Some <$> l) !! hid = Some tids ∧ tid ∈ tids.
Proof.
  unfold scan_rows. revert m. induction l as [|[t h] l IH]; intros m Hin; cbn.
  { destruct Hin as [?%not_elem_of_nil|?]; [done|done]. }
  apply IH. destruct Hin as [[E|Hin]%elem_of_cons|(tids & Em & Hin)]; [|by left|]; right;
    rewrite group_append_lookup.
  - simplify_eq. rewrite decide_True by done. eexists. split; [done|]. apply elem_of_app. right.
    by apply list_elem_of_singleton.
  - case_decide as E; [|by exists tids]. cbn in E. subst h. rewrite Em. eexists. split; [done|].
    apply elem_of_app. by left.
Qed.

Section to_judge.
Context `{Sql D} {L : SqlLaws D} `{Settings}.
#[local] Set Default Proof Using "Type L".
Notation H := (H D).
Implicit Types (w : world D) (d : D).

(** ** What hbs has after it loaded *)

Section loaded.
Variables (DB : database) (now : Z) (clock : string) (runs : string → string → bool) (d : D).
Hypothesis HDB : serves DB now clock runs (content Pool d).
Variables (c0 c : cache).
Hypothesis HInit : Init DB now clock c0 = Ret c.
#[local] Set Default Proof Using "Type L HDB HInit".

Lemma loaded_tables :
  c.(TemplateCache) = reload c0.(TemplateCache) (QueryTemplates DB) ∧
  c.(Strategies) = reload c0.(Strategies) (QueryStrategies DB clock c.(TemplateCache)) ∧
  c.(HostTemplateIds) = reload c0.(HostTemplateIds) (QueryHostTemplateIds DB) ∧
  c.(MonitoredHosts) = reload c0.(MonitoredHosts) (QueryMonitoredHosts DB now).
Proof. unfold Init in HInit. go_inv HInit. by simplify_eq. Qed.

(** Rows of a table with the same key are the same. *)
Lemma key_inj t x y : keys_ok Pool t d → has_pk t = true → x ∈ content Pool d t → y ∈ content Pool d t →
  pk t x = pk t y → x = y.
Proof. intros [Ha _] Ht Hx Hy E. eapply apart_inj; [exact Ha|done..|]. by apply conflict_pk. Qed.

Lemma loaded_template x :
  keys_ok Pool ApiModel.tpl d → x ∈ content Pool d ApiModel.tpl →
  c.(TemplateCache) !! x.(f.Template.ID) = Some (template_of x).
Proof.
  intros Hk Hx. destruct loaded_tables as [-> _]. destruct HDB as [(l & E & Hl) _ _ _].
  unfold QueryTemplates. rewrite E. cbn [mbind result_bind reload].
  apply (scan_rows_lookup _ (λ t, Some (t.(Template.Id), t))); [done| |].
  - exists (template_of x). split; [|done]. apply list_elem_of_fmap. eexists. split; [done|]. rewrite Hl.
    apply list_elem_of_fmap. by exists x.
  - intros r v' (r' & [= ->] & Hr)%list_elem_of_fmap [= Ei <-]. rewrite Hl in Hr.
    apply list_elem_of_fmap in Hr as (y & -> & Hy). f_equal. by apply (key_inj ApiModel.tpl).
Qed.

(** A strategy of the table, as hbs has it. *)
Definition strategy_for (x : f.Strategy.t) (v : float64) (t : Template.t) : Strategy.t :=
  Strategy.mk x.(f.Strategy.ID) x.(f.Strategy.Metric) (strategy_tags x.(f.Strategy.Tags)) x.(f.Strategy.Func)
    x.(f.Strategy.Op) v x.(f.Strategy.MaxStep) x.(f.Strategy.Priority) x.(f.Strategy.Note) (Some t).

Lemma loaded_strategy x v t :
  keys_ok Pool ApiModel.strategy d → x ∈ content Pool d ApiModel.strategy →
  runs x.(f.Strategy.RunBegin) x.(f.Strategy.RunEnd) = true →
  ParseFloat x.(f.Strategy.RightValue) = Ok v → c.(TemplateCache) !! x.(f.Strategy.TplId) = Some t →
  c.(Strategies) !! x.(f.Strategy.ID) = Some (strategy_for x v t).
Proof.
  intros Hk Hx Hruns Hv Ht. destruct loaded_tables as (_ & -> & _). destruct HDB as [_ _ _ (l & E & Hl)].
  unfold QueryStrategies. rewrite decide_False.
  2: { intros Hz%map_size_empty_inv. by rewrite Hz in Ht. }
  rewrite E. cbn [mbind result_bind reload].
  apply (scan_rows_lookup _ (λ r, s ← strategy_of_row c.(TemplateCache) r; Some (s.(Strategy.Id), s))).
  - intros m r. by destruct (strategy_of_row _ r).
  - eexists. split; [rewrite Hl; apply list_elem_of_fmap; exists x|].
    + split; [|by apply filter_elem]. unfold scanned. by rewrite Hv.
    + unfold strategy_of_row. cbn. by rewrite Ht.
  - intros r s'. rewrite Hl. intros (y & Er & [Hy _]%filter_elem)%list_elem_of_fmap Es.
    unfold scanned in Er. destruct (ParseFloat (f.Strategy.RightValue y)) as [v'|] eqn:Ev; simplify_eq.
    unfold strategy_of_row in Es. cbn in Es.
    destruct (c.(TemplateCache) !! f.Strategy.TplId y) as [t'|] eqn:Et; [|done]. cbn in Es. simplify_eq.
    assert (y = x) as -> by by apply (key_inj ApiModel.strategy). unfold strategy_for. congruence.
Qed.

Lemma loaded_binding a b :
  a ∈ content Pool d ApiModel.grp_tpl → b ∈ content Pool d ApiModel.grp_host →
  a.(f.GrpTpl.GrpID) = b.(f.GrpHost.GrpID) →
  ∃ tids, c.(HostTemplateIds) !! b.(f.GrpHost.HostID) = Some tids ∧ a.(f.GrpTpl.TplID) ∈ tids.
Proof.
  intros Ha Hb Eg. destruct loaded_tables as (_ & _ & -> & _). destruct HDB as [_ (l & E & Hl) _ _].
  unfold QueryHostTemplateIds. rewrite E. cbn [mbind result_bind reload]. apply scan_rows_group. left.
  rewrite Hl. apply list_elem_of_bind. exists a. split; [|done]. apply list_elem_of_bind. exists b.
  split; [|done]. rewrite decide_True by done. by apply list_elem_of_singleton.
Qed.

Lemma loaded_host x :
  keys_ok Pool ApiModel.host d → x ∈ content Pool d ApiModel.host → monitored now x = true →
  c.(MonitoredHosts) !! x.(f.Host.ID) = Some (Host.mk x.(f.Host.ID) x.(f.Host.Hostname)).
Proof.
  intros Hk Hx Hm. destruct loaded_tables as (_ & _ & _ & ->). destruct HDB as [_ _ (l & E & Hl) _].
  unfold QueryMonitoredHosts. rewrite E. cbn [mbind result_bind reload].
  apply (scan_rows_lookup _ (λ r : Z * string, Some (r.1, Host.mk r.1 r.2))); [done| |].
  - exists (x.(f.Host.ID), x.(f.Host.Hostname)). split; [|done]. apply list_elem_of_fmap. eexists. split; [done|].
    rewrite Hl. apply list_elem_of_fmap. exists x. split; [done|]. by apply filter_elem.
  - intros r v' (r' & [= ->] & Hr)%list_elem_of_fmap [= Ei <-]. rewrite Hl in Hr.
    apply list_elem_of_fmap in Hr as (y & -> & [Hy _]%filter_elem). cbn in Ei.
    by assert (y = x) as -> by by apply (key_inj ApiModel.host).
Qed.

Lemma loaded_names :
  (∀ x, x ∈ content Pool d ApiModel.host → lacks "/" x.(f.Host.Hostname)) →
  map_Forall (λ _ h, lacks "/" h.(Host.Name)) c.(MonitoredHosts).
Proof.
  intros Hn. destruct loaded_tables as (_ & _ & _ & ->). destruct HDB as [_ _ (l & E & Hl) _].
  unfold QueryMonitoredHosts. rewrite E. cbn [mbind result_bind reload].
  apply scan_rows_inv_in; [|apply map_Forall_empty].
  intros m r (r' & [= ->] & Hr)%list_elem_of_fmap Hmm. rewrite Hl in Hr.
  apply list_elem_of_fmap in Hr as (y & -> & [Hy _]%filter_elem). apply map_Forall_insert_2; [|done]. by apply Hn.
Qed.
End loaded.

(** ** What a request did that was answered *)

Definition strategy_made : response := JSONR StatusOK (MString "stragtegy created").

Lemma JSONR_code code m : (JSONR code m).1 = code.
Proof. unfold JSONR. case_decide as E; by destruct m. Qed.

Lemma created_same c t x0 x d d1 d' : same d d1 → created c t x0 x d1 d' → created c t x0 x d d'.
Proof.
  intros [Et Ec] (Hu & Hi & E & Hf). unfold created, usable in *. rewrite Et, !Ec in *. split_and!; [done..|].
  destruct Hf as [Et' Hf]. split; [congruence|]. intros c' t' Hn. by rewrite Hf, Ec.
Qed.

Lemma wp_SessionChecking_answers d0 R c (Φ : bool * option error → world D → Prop) Ψ w :
  same d0 w.(db) → w.(resps) = R → (∀ r w', same d0 w'.(db) → w'.(resps) = R → Φ r w') →
  wp (SessionChecking c) Φ Ψ w.
Proof.
  intros Hs ER HΦ. unfold SessionChecking. destruct (GetSession c); [|by apply wp_ret, HΦ].
  destruct (is_default _); [by apply wp_ret, HΦ|].
  apply wp_bind, (wp_find_answers d0 R user); [done..|]. intros r w1 Hs1 E1 _.
  case_decide; [by apply wp_ret, HΦ|].
  apply wp_bind, (wp_find_answers d0 R session); [done..|]. intros s w2 Hs2 E2 _.
  case_decide; by apply wp_ret, HΦ.
Qed.

(** A strategy that was answered to be made is in the table, as the form has it. *)
Lemma strategy_created c b w :
  (portal_serve c (POST_strategy b) w).2.(resps) = w.(resps) ++ [strategy_made] →
  ∃ x, created Pool ApiModel.strategy (strategy_of 0 b.(inputs).(csTplId) b.(inputs).(csInput)) x
         w.(db) (portal_serve c (POST_strategy b) w).2.(db).
Proof.
  set (made w' := w'.(resps) = w.(resps) ++ [strategy_made] → ∃ x, created Pool ApiModel.strategy
    (strategy_of 0 b.(inputs).(csTplId) b.(inputs).(csInput)) x w.(db) w'.(db)).
  change (made (portal_serve c (POST_strategy b) w).2).
  assert (wp (portal_serve c (POST_strategy b)) (λ _, made) made w) as Hwp.
  2: { unfold wp in Hwp. by destruct (portal_serve _ _ w) as [[a| |q] w']. }
  assert (∀ A code m w1, w1.(resps) = w.(resps) → code ≠ StatusOK → ∀ Φ, wp (reply (A := A) code m) Φ made w1) as Hbad.
  { intros A code m w1 ER Hc Φ. unfold wp, reply, answer, return_, mbind, H_bind, made. cbn. rewrite ER.
    intros [= E]%app_inv_head. destruct Hc. by rewrite <- (JSONR_code code m), E. }
  unfold portal_serve, AuthSessionMidd. cbn [portal_open portal_handler].
  apply wp_bind, (wp_SessionChecking_answers w.(db) w.(resps)); [done..|]. intros r w1 Hs1 E1.
  destruct (_ && _); [by apply Hbad|]. unfold CreateStrategy, check_bind. apply wp_bind.
  destruct (bind_err b); [by apply Hbad|]. apply wp_ret, wp_bind.
  destruct (CreateStrategy_CheckFormat _); [|by apply Hbad]. apply wp_ret, wp_bind.
  unfold save. rewrite decide_True by done. apply wp_bind.
  unfold wp at 1, create, run. destruct (Insert _ _ _ _) as [[x|e] d'] eqn:Ei; apply Insert_law in Ei; cbn.
  - intros _. exists x. eapply created_same; [exact Hs1|exact Ei].
  - by apply Hbad.
Qed.

(** What the judge holds is the strategy of the form, its template apart. *)
Definition as_posted (i : StrategyInput) (v : float64) (s : Strategy.t) : Prop :=
  s.(Strategy.Metric) = i.(sMetric) ∧ s.(Strategy.Tags) = strategy_tags i.(sTags) ∧
  s.(Strategy.Func) = i.(sFunc) ∧ s.(Strategy.Operator) = i.(sOp) ∧ s.(Strategy.RightValue) = v ∧
  s.(Strategy.MaxStep) = i.(sMaxStep) ∧ s.(Strategy.Priority) = i.(sPriority) ∧ s.(Strategy.Note) = i.(sNote).

Lemma as_posted_retarget i v tpls tid s : as_posted i v s → as_posted i v (retarget tpls tid s).
Proof. unfold retarget. repeat case_match; done. Qed.

Lemma as_posted_strategy i v x T t l :
  inserted ApiModel.strategy (strategy_of 0 T i) x l → as_posted i v (strategy_for x v t) ∧
  x.(f.Strategy.TplId) = T ∧ x.(f.Strategy.RightValue) = i.(sRightValue) ∧
  x.(f.Strategy.RunBegin) = i.(sRunBegin) ∧ x.(f.Strategy.RunEnd) = i.(sRunEnd).
Proof. intros [Hx _]. cbn in Hx. by destruct Hx as [id ->]. Qed.

(** C3. A strategy from the user to the judges: when the api answered that it was
made, and hbs then loaded its tables from the same database, the judge that asks
hbs holds the strategy as it was posted, for every monitored host of every group
that its template is bound to; provided that it runs at this time of day, that its
threshold is in the range of a float, that the host has no template twice, and
none that inherits from that one. *)
Theorem api_strategy_reaches_judge hd b w DB now clock runs Hosts c0 c visit kvs hids st0 v t h a g :
  let d := (portal_serve hd (POST_strategy b) w).2.(db) in
  let i := b.(inputs).(csInput) in
  (portal_serve hd (POST_strategy b) w).2.(resps) = w.(resps) ++ [strategy_made] →
  keys_ok Pool ApiModel.strategy w.(db) → keys_ok Pool ApiModel.tpl w.(db) → keys_ok Pool ApiModel.host w.(db) →
  serves DB now clock runs (content Pool d) → reachable Hosts c0 → Init DB now clock c0 = Ret c →
  (∀ h i m, ranges (visit h i m) m) → ranges kvs c.(Strategies) → ranges hids c.(HostTemplateIds) →
  t ∈ content Pool d ApiModel.tpl → t.(f.Template.ID) = b.(inputs).(csTplId) →
  h ∈ content Pool d ApiModel.host → monitored now h = true →
  (∀ x, x ∈ content Pool d ApiModel.host → lacks "/" x.(f.Host.Hostname)) →
  a ∈ content Pool d ApiModel.grp_tpl → a.(f.GrpTpl.TplID) = t.(f.Template.ID) →
  g ∈ content Pool d ApiModel.grp_host → g.(f.GrpHost.HostID) = h.(f.Host.ID) →
  a.(f.GrpTpl.GrpID) = g.(f.GrpHost.GrpID) →
  runs i.(sRunBegin) i.(sRunEnd) = true → ParseFloat i.(sRightValue) = Ok v →
  ∃ hs tids, GetStrategies visit kvs hids c = Ret hs ∧
    c.(HostTemplateIds) !! h.(f.Host.ID) = Some tids ∧ t.(f.Template.ID) ∈ tids ∧
    ∀ ids, NoDup tids → youngest c.(TemplateCache) tids t.(f.Template.ID) ids →
      ∃ s, as_posted i v s ∧
        s ∈ default [] ((syncStrategies (Ok hs) st0).(StrategyMap) !! (h.(f.Host.Hostname) +:+ "/" +:+ i.(sMetric))).
Proof.
  intros d i Hr Hks Hkt Hkh HDB Hreach HInit Hvis Hkvs Hhids Ht ET Hh Hmon Hlack Ha EaT Hg Egh Egg Hruns Hv.
  destruct (strategy_created _ _ _ Hr) as (x & Hc). fold d in Hc.
  destruct (as_posted_strategy i v x b.(inputs).(csTplId) (template_of t) _ (proj1 (proj2 Hc))) as (Hpost & Ex & Erv & Erb & Ere).
  assert (∀ tab, tab ≠ ApiModel.strategy → content Pool d tab = content Pool w.(db) tab) as Hother.
  { intros tab Hn. apply (frame_other _ _ tab Pool _ _ (proj2 (proj2 (proj2 Hc)))). congruence. }
  assert (∀ tab, tab ≠ ApiModel.strategy → keys_ok Pool tab w.(db) → keys_ok Pool tab d) as Hkeys.
  { intros tab Hn. apply keys_same. by rewrite Hother. }
  assert (c.(TemplateCache) !! t.(f.Template.ID) = Some (template_of t)) as Htc.
  { eapply (loaded_template DB now clock runs d); [done|done|by apply Hkeys|done]. }
  assert (c.(Strategies) !! x.(f.Strategy.ID) = Some (strategy_for x v (template_of t))) as Hsc.
  { eapply (loaded_strategy DB now clock runs d); [done|done|by eapply keys_created| |congruence..].
    rewrite (proj1 (proj2 (proj2 Hc))). left. }
  destruct (loaded_binding DB now clock runs d HDB c0 c HInit a g) as (tids & Htids & Hin); [done..|].
  rewrite Egh in Htids. rewrite EaT in Hin.
  assert (c.(MonitoredHosts) !! h.(f.Host.ID) = Some (Host.mk h.(f.Host.ID) h.(f.Host.Hostname))) as Hmh.
  { eapply (loaded_host DB now clock runs d); [done|done|by apply Hkeys|done..]. }
  assert (cache_ok c) as Hok.
  { eapply (cache_step_ok Hosts); [by eapply step_Init|by eapply cache_reachable_ok]. }
  destruct (GetStrategies_spec visit kvs hids c Hvis Hkvs Hhids) as (hs & Ehs & _).
  exists hs, tids. split_and!; [done..|]. intros ids Hnd Hy.
  pose (it := JudgeItem.mk h.(f.Host.Hostname) i.(sMetric) f64_zero 0 "" ∅).
  destruct (in_force_judged visit kvs hids c hs it h.(f.Host.ID) (Host.mk h.(f.Host.ID) h.(f.Host.Hostname)) tids
    t.(f.Template.ID) ids (strategy_for x v (template_of t))) as (tid' & Hs); try done.
  - destruct Hy as (_ & Hch & _). destruct (chain_last _ _ _ Hch) as [l ->].
    exists l, t.(f.Template.ID), []. split_and!; [done| |by intros ?? ?%not_elem_of_nil].
    apply Tpl2Strategies_elem. split; [|by exists (template_of t)].
    apply list_elem_of_fmap. exists (x.(f.Strategy.ID), strategy_for x v (template_of t)). split; [done|].
    unfold ranges in Hkvs. rewrite Hkvs. by apply elem_of_map_to_list.
  - apply Hpost.
  - eexists. split; [by apply as_posted_retarget|].
    change h.(f.Host.Hostname) with it.(JudgeItem.Endpoint). change i.(sMetric) with it.(JudgeItem.Metric).
    rewrite (judged_lookup visit kvs hids c hs st0 it); [exact Hs|done..| |by apply Hlack|done].
    by eapply (loaded_names DB now clock runs d).
Qed.
End to_judge.

(** ** The forms that are accepted *)

Lemma class_opt_matches l c s :
  match_string (r_cats [r_class l; r_opt (r_char c)]) s = true →
  ∃ a, a ∈ l ∧ (s = String a "" ∨ s = String a (String c "")).
Proof.
  intros (s1 & s2 & -> & (a & Ha%bool_decide_eq_true & ->)%matches_char & Hs2)%match_string_spec%matches_cat.
  exists a. split; [done|]. apply matches_cat in Hs2 as (s3 & s4 & -> & Hs3 & ->%matches_eps).
  apply matches_alt in Hs3 as [->%matches_eps|(b & ->%bool_decide_eq_true & ->)%matches_char]; auto.
Qed.

(** The operators of an accepted strategy are those of the judge, but for [!],
with which nothing is ever triggered. *)
Lemma accepted_operator i :
  CreateStrategy_CheckFormat i = Ok () →
  i.(sOp) ∈ ["="; "=="; "!="; "<"; "<="; ">"; ">="] ∨
  i.(sOp) = "!" ∧ ∀ l r, checkIsTriggered l i.(sOp) r = false.
Proof.
  unfold CreateStrategy_CheckFormat, check_value. destruct (match_string validOp i.(sOp)) eqn:E; [|done]. intros _.
  apply class_opt_matches in E as (a & Ha & Hs). set_unfold in Ha.
  destruct Ha as [->|[->|[->|[->|[]]]]], Hs as [-> | ->]; first [by left; set_solver|by right].
Qed.

(** ** The site *)

(** MySQL, for the statements that load the caches of strategies. *)
Definition MySQL (now : Z) (runs : string → string → bool) (v : view) : database := Database
  (λ _, Ok [])
  (λ sql, Ok (Some <$> ((λ x, (x.(f.Host.ID), x.(f.Host.Hostname))) <$> List.filter (monitored now) (v ApiModel.host))))
  (λ _, Ok []) (λ _, Ok [])
  (λ _, Ok (Some <$> (template_of <$> v ApiModel.tpl)))
  (λ _, Ok (Some <$> joined v))
  (λ _, Ok (scanned <$> List.filter (λ x, runs x.(f.Strategy.RunBegin) x.(f.Strategy.RunEnd)) (v ApiModel.strategy)))
  (λ _, Ok []) (λ _, Ok []).
Lemma MySQL_serves now clock runs v : serves (MySQL now runs v) now clock runs v.
Proof. split; eexists; done. Qed.

Lemma keys_check `{Sql D} t (d : D) :
  apart t (content Pool d t) && forallb (λ x, 0 <? pk t x) (content Pool d t) = true → keys_ok Pool t d.
Proof.
  intros [Ha Hp]%andb_true_iff. split; [done|]. intros _ x Hx%list_elem_of_In.
  rewrite forallb_forall in Hp. apply Hp in Hx. lia.
Qed.

#[local] Existing Instance site_settings.

Definition base : f.Template.t := f.Template.mk 1 "base" 0 0 "alice".
Definition web1 : f.Host.t := f.Host.mk 10 "web1" "" "" "" 0 0.
Definition judge_site : world mem := World (of_rows (
  upd ApiModel.tpl [base] (upd ApiModel.grp_tpl [f.GrpTpl.mk 1 1 "alice"]
    (upd ApiModel.grp_host [f.GrpHost.mk 1 10] (upd ApiModel.host [web1] portal_view))))) [] 0.
Definition posted : bound APICreateStrategyInput :=
  Bound (APICreateStrategyInput_ (StrategyInput_ "load.1min" "" 3 0 "all(#3)" ">" "2.5" "" "" "") 1) None.
Definition always (b e : string) : bool := bool_decide (b = "" ∧ e = "").
Definition judge_site' : world mem := (portal_serve (token "alice" "a1") (POST_strategy posted) judge_site).2.
Definition site_cache : cache :=
  match Init (MySQL 1500000000 always (content Pool judge_site'.(db))) 1500000000 "12:00" empty_cache with
  | Ret c => c | Panic _ => empty_cache end.

Lemma api_strategy_reaches_judge_witness :
  ∃ hs tids, GetStrategies (λ _ _ m, map_to_list m) (map_to_list site_cache.(Strategies))
      (map_to_list site_cache.(HostTemplateIds)) site_cache = Ret hs ∧
    site_cache.(HostTemplateIds) !! 10 = Some tids ∧ 1 ∈ tids ∧
    ∀ ids, NoDup tids → youngest site_cache.(TemplateCache) tids 1 ids →
      ∃ s, as_posted posted.(inputs).(csInput) (f64_of_decimal false 25 (-1)) s ∧
        s ∈ default [] ((syncStrategies (Ok hs) initial).(StrategyMap) !! "web1/load.1min").
Proof.
  apply (api_strategy_reaches_judge (token "alice" "a1") posted judge_site
    (MySQL 1500000000 always (content Pool judge_site'.(db))) 1500000000 "12:00" always "" empty_cache
    site_cache _ _ _ initial (f64_of_decimal false 25 (-1)) base web1 (f.GrpTpl.mk 1 1 "alice") (f.GrpHost.mk 1 10)).
  - vm_compute. reflexivity.
  - apply keys_check. vm_compute. reflexivity.
  - apply keys_check. vm_compute. reflexivity.
  - apply keys_check. vm_compute. reflexivity.
  - apply MySQL_serves.
  - apply rtc_refl.
  - vm_compute. reflexivity.
  - intros. apply ranges_map_to_list.
  - apply ranges_map_to_list.
  - apply ranges_map_to_list.
  - apply list_elem_of_In. vm_compute. auto.
  - reflexivity.
  - apply list_elem_of_In. vm_compute. auto.
  - reflexivity.
  - intros x Hx%list_elem_of_In. vm_compute in Hx. destruct Hx as [<-|[]]. reflexivity.
  - apply list_elem_of_In. vm_compute. auto.
  - reflexivity.
  - apply list_elem_of_In. vm_compute. auto.
  - reflexivity.
  - reflexivity.
  - reflexivity.
  - vm_compute. reflexivity.
Defined.

(** And the judge does hold it. *)
Example posted_strategy_judged :
  match GetStrategies (λ _ _ m, map_to_list m) (map_to_list site_cache.(Strategies))
      (map_to_list site_cache.(HostTemplateIds)) site_cache with
  | Ret hs => Strategy.Operator <$> default [] ((syncStrategies (Ok hs) initial).(StrategyMap) !! "web1/load.1min")
  | Panic _ => []
  end = [">"].
Proof. by vm_compute. Qed.
